(* ===== verification/_CoqProject ===== *)
-Q . S2P
Prelude.v
Numbers.v
Client.v
ReplyBuffer.v
Sds.v
Doubles.v
Reply.v
Wire.v
CallReply.v
Lua.v
RainCall.v
RainInprocess.v
RainFall.v
Memory.v
IntSet.v
FwTree.v
Glob.v
Args.v
AofManifest.v
Query.v
Dict.v
DictMap.v
DictScan.v
Kvstore.v
KvstoreMap.v
KvstoreScan.v
KvstoreIter.v
KvstoreMove.v
Lzf.v
Rdb.v
Crc64.v
Snapshot.v
SnapshotTrip.v
SnapshotLoad.v
Slots.v
Keys.v
Multi.v
MultiSerial.v
MultiWatch.v
MultiExec.v
