(* ===== verification/Prelude.v ===== *)
(** Rain-Call: a verification development for the Redis fork in src/ that embeds
    the Moonquakes Lua runtime.

    * The program and its model

    RAIN.FALL (src/src/rainfall.c) runs a Lua script inside the server. The
    script calls commands with RAIN.CALL (src/utils/raincall/raincall.c), which
    goes through a backend: a TCP connection of hiredis, or the in-process
    backend (src/src/raincall_inprocess.c), which runs the command in an
    isolated client, captures what it wrote to its output buffers
    (src/src/networking.c), parses that protocol text (src/src/resp_parser.c,
    src/src/call_reply.c) and converts the reply to Lua values. RAIN.FALL then
    converts the value the script returned to a reply of its own client.

    Around that path the development models how queries come in (networking.c),
    the tables that hold the keys (dict.c, kvstore.c, fwtree.c), integer sets,
    patterns, hash slots and KEYS, transactions, snapshots with their compression and checksums
    (rdb.c, rio.h, lzf_c.c, lzf_d.c, crc64.c), and the manifest of the append-only
    files (aof.c). The files, each on top of the ones before it:

    - Prelude.v: machine integers with their wrap-around, bytes, flags, sums, the
      tactics [zdec] and [zcase], the hint database [cint].
    - Numbers.v: the conversions of integers from and to text (util.c).
    - Client.v: the client and server state as records, client types, output
      buffer limits, [prepareClientToWrite] (networking.c).
    - ReplyBuffer.v: the static buffer, the block list, references to bulk
      strings and deferred lengths (networking.c). [stream] is the text that the
      buffers stand for.
    - Sds.v: the string operations used (sds.c).
    - Doubles.v: the interface to the float printer and parser, and [d2string].
    - Reply.v: the addReply family (networking.c).
    - Wire.v: the values of the protocol, their printer [print], and what the
      reply functions send ([send]).
    - CallReply.v: the protocol parser and the call replies it builds.
    - Lua.v: the interface to the Lua stack and heap, with its laws and a small
      instance.
    - RainCall.v: replies of the host, the copy from hiredis with its failing
      allocations, the connection states, RAIN.CALL and RAIN.CONNECT.
    - RainInprocess.v: the denylist, command lookup (server.c), the checks, the
      run of a command and the conversion of its reply.
    - RainFall.v: the script reader, the reply for a Lua value, the command.
    - Memory.v: byte memory in which an access out of bounds has no result.
    - IntSet.v: integer sets (intset.c) over that memory.
    - FwTree.v: Fenwick trees (fwtree.c).
    - Glob.v: glob patterns (util.c).
    - Args.v: splitting a line into words and quoting them (sds.c).
    - AofManifest.v: the manifest of the append-only files (aof.c): its text, its
      loader, every operation that changes it, and the directory it is about.
    - Query.v: the input of a client (networking.c): reading, the two request
      parsers, the queue of parsed commands, and running them in order.
    - Dict.v: hash tables with incremental rehashing (dict.c). The callbacks of
      the type are a trace of events in the dictionary, [told].
    - DictMap.v: the refinement of a dictionary to a finite map, and iterators.
    - DictScan.v: scanning with a cursor.
    - Kvstore.v: the array of dictionaries (kvstore.c) with its counts, the
      Fenwick tree of sizes and the list of rehashing dictionaries, which the
      events of the dictionaries drive.
    - KvstoreMap.v: the refinement of a store to an array of maps.
    - KvstoreScan.v, KvstoreIter.v, KvstoreMove.v: scanning a store, iterating
      over it or one of its dictionaries, and moving a dictionary to another store.
    - Lzf.v: the compressor and the decompressor (lzf_c.c, lzf_d.c).
    - Rdb.v: streams ([rio]) with chunks, error flags and checksums, and the
      lengths, integers and strings of snapshots in both directions (rdb.c).
    - Crc64.v: the checksum of snapshots by tables in up to three streams, with
      the combination of sums (crc64.c, crcspeed.c, crccombine.c).
    - Snapshot.v: saving and loading a whole snapshot (rdb.c); SnapshotTrip.v has
      the round trip and SnapshotLoad.v what loading does on any bytes.
    - Slots.v: the CRC-16, the slots of keys and patterns (crc16.c, cluster.h,
      cluster.c) and the keys that SORT makes from patterns (sort.c).
    - Keys.v: KEYS (db.c), which joins the reply path, patterns, slots and the
      store.
    - Multi.v: transactions (multi.c), the changes of keys that mark watching
      clients (db.c) and the end of [processCommand] (server.c), as events of a
      server with clients and databases. MultiSerial.v is what commands mean on
      the keys alone, MultiWatch.v has the invariant of the
      watch lists and what each operation does to a client, MultiExec.v the
      theorems on whole runs.

    Operations keep the names of the C functions. State is passed explicitly: a
    [world] holds the server and the client whose output is written, a [rain]
    the connection states and the system behind them, an [inprocess] the server
    as the in-process backend sees it with a log of events, and a [fall] all of
    them. [None] is a fault: an access out of bounds, an assertion that fails, a
    dereference of NULL, or fuel that ran out; theorems about results show that
    it does not occur.

    * Interfaces

    Code outside src/, and commands as a whole, are classes: [Doubles] (the
    float library), [Moonquakes] and [Runtime] (Lua), [Hiredis], [Server] (the
    command table, filters, ACL and the commands). Their laws ([DoubleLaws],
    [MoonquakesLaws], [RuntimeLaws]) say what the code relies on,
    and small instances show that they can hold. [Inprocess] is the interface
    between RAIN.CALL and its in-process backend, which RainInprocess.v
    implements.

    * What the theorems show

    - Output: writing a reply appends its text to the stream whatever the state
      of the buffers; references to bulk strings and deferred lengths change
      nothing in the stream; error replies are one line.
    - Input: however the bytes of pipelined commands are cut into reads, exactly
      these commands are executed in order; the case in which a protocol error
      is not noticed.
    - Protocol: the parser reads exactly one printed value, and a value sent by
      the reply functions is read back.
    - RAIN.CALL: one call from Lua to the command and back gives the command's
      reply; nothing runs without every check; what the denylist refuses; the
      connection states never dangle; the cases in which a script leaves the
      in-process backend or its denylist.
    - RAIN.FALL: every script that ends, queues no push message and returns a
      finite tree or an error is answered exactly once, and the state between commands is restored;
      what RAIN.CALL returned is answered, with arrays cut at a nil; a table that
      is its own first element is never answered.
    - Data structures: an integer set of fewer than 2^29 members is a set of
      integers in every encoding, and its integrity check accepts exactly the
      well-formed blobs; a Fenwick tree gives prefix sums; the glob matcher with
      its early termination agrees with the meaning of the pattern.
    - Keyspace tables: a dictionary answers as a finite map does while it grows,
      shrinks and rehashes step by step; a scan whose cursor is 0 again has
      returned every key that was there throughout, and it ends; a store of
      dictionaries is an array of maps whose counts, tree and list agree with
      the dictionaries, with fields within their types; its scan and its
      iterator return every key; moving a dictionary leaves one count wrong.
    - Snapshots: what is saved is loaded again, through every encoding of its
      strings; loading any stream of bytes comes to an end or to a value that is
      no string, and accepts no wrong sum where sums are verified; the two
      places where it leaves an array. Decompression is within bounds on every
      input and inverts compression; the fast checksum is the bitwise one and
      notices every change within eight bytes.
    - Slots and KEYS: where a pattern has a slot, the keys it matches are in it,
      and so are the keys that SORT makes from it; KEYS answers exactly the keys
      that match, are readable and have not expired.
    - Transactions: no step fails and the watch lists stay exact; EXEC runs the
      queued commands serially, as MultiSerial.v defines it on the keys alone,
      with an error for those no longer allowed, or none; on a master without SWAPDB it runs them only when
      the watched keys kept their values since WATCH; SWAPDB marks the clients
      whose keys it changes, but can hide a later write from other clients.
    - Append-only file manifest: what the operations write can always be loaded
      again; the cases in which a file that is needed is lost or one that is not
      is kept.
    - Words: a line of quoted words is read back as those words.
    - Numbers: parsing accepts exactly the canonical decimal texts in range, and
      printing is its inverse.

    * Bounds and fuel

    Integers are [Z] with the wrap-around of their C type written out. Recursion
    that is not structural takes fuel: the parser the length of the text, the
    glob matcher the length of the pattern, a Fenwick update the number of
    nodes behind the index, the binary search of an integer set its length;
    splitting a line its length, loading a manifest its length, parsing queries
    the number of commands looked ahead and the input loop the bytes and commands
    left, rehashing a table to its end the number of its buckets, skipping empty
    buckets the table's length, [dictNext] the buckets plus three, a scan the
    buckets of the larger table, the loops over iterators and KEYS one more than
    the entries, decompression the length of the input, compression the bytes
    left, a stream the bytes asked for, a checksum the bytes left, and loading a
    snapshot one more than its bytes; theorems show that these are enough. A dictionary has fewer than
    2^62 entries. The cursor of a store keeps 64 minus the bits of the index for
    the dictionary; the theorem on its scan has the tables fit in that as the
    condition [fits]. The reply for a Lua value takes fuel
    for the depth of the tables, which the code does not bound. Lengths of
    client output are assumed to fit their types where a theorem says so.

    * Not modelled

    Dispatching commands, the commands and data types other than through
    [Server] and the execution parameter of Query.v (KEYS apart), the ACL, the
    contents of the append-only files, the cycles of expiry and eviction (their
    deletions are events of the transactions), replication, the
    cluster beyond its slots, the event loop and the other scripting engines: the modelled parts
    do not reach them or take them as a parameter. Of dict.c and kvstore.c,
    entries without values and their tagged pointers, random choice, statistics,
    defragmentation and rehashing for a given time are left out. Snapshots hold
    strings only: values of other types, module data and key metadata of modules
    are where loading leaves the model ([Elsewhere]). Machines are little-endian.
    Freeing memory is not modelled, so that leaks and double frees of replies are
    out of scope; the closing of connection states is modelled. The garbage in fresh memory that the code reads is an
    argument. Threads are not modelled. *)

From stdpp Require Import base list numbers strings.

Local Open Scope Z_scope.

(** * Machine integers

    A C integer is a [Z]; the conversions write the wrap-around out. *)

Definition u8 (z : Z) : Z := z mod 2 ^ 8.
Definition u16 (z : Z) : Z := z mod 2 ^ 16.
Definition u32 (z : Z) : Z := z mod 2 ^ 32.
Definition u64 (z : Z) : Z := z mod 2 ^ 64.
Definition swrap (w z : Z) : Z := (z + 2 ^ (w - 1)) mod 2 ^ w - 2 ^ (w - 1).
Definition i16 (z : Z) : Z := swrap 16 z.
Definition i32 (z : Z) : Z := swrap 32 z.
Definition i64 (z : Z) : Z := swrap 64 z.

Definition INT_MAX : Z := 2 ^ 31 - 1.
Definition INT_MIN : Z := - 2 ^ 31.
Definition LLONG_MAX : Z := 2 ^ 63 - 1.
Definition LLONG_MIN : Z := - 2 ^ 63.
Definition ULLONG_MAX : Z := 2 ^ 64 - 1.

Definition is_u8 (z : Z) : Prop := 0 <= z < 2 ^ 8.
Definition is_u32 (z : Z) : Prop := 0 <= z < 2 ^ 32.
Definition is_u64 (z : Z) : Prop := 0 <= z < 2 ^ 64.
Definition is_i32 (z : Z) : Prop := - 2 ^ 31 <= z < 2 ^ 31.
Definition is_i64 (z : Z) : Prop := - 2 ^ 63 <= z < 2 ^ 63.

Create HintDb cint.

Lemma u8_small z : is_u8 z -> u8 z = z.
Proof. apply Z.mod_small. Qed.
Lemma u32_small z : is_u32 z -> u32 z = z.
Proof. apply Z.mod_small. Qed.
Lemma u64_small z : is_u64 z -> u64 z = z.
Proof. apply Z.mod_small. Qed.
Lemma u64_range z : is_u64 (u64 z).
Proof. unfold is_u64, u64. apply Z.mod_pos_bound. lia. Qed.
Lemma swrap_small w z : 0 < w -> - 2 ^ (w - 1) <= z < 2 ^ (w - 1) -> swrap w z = z.
Proof.
  intros Hw Hz. unfold swrap.
  assert (2 ^ w = 2 * 2 ^ (w - 1)) by (rewrite <- Z.pow_succ_r by lia; f_equal; lia).
  rewrite Z.mod_small; lia.
Qed.
Lemma i32_small z : is_i32 z -> i32 z = z.
Proof. intros H. apply swrap_small; [lia|exact H]. Qed.
Lemma i64_small z : is_i64 z -> i64 z = z.
Proof. intros H. apply swrap_small; [lia|exact H]. Qed.

#[export] Hint Resolve u8_small u32_small u64_small i32_small i64_small : cint.

(** * Byte strings

    A C buffer is a [list Z] of byte values, a string literal is converted
    with [bs]. *)

Definition bs (s : string) : list Z :=
  map (fun a => Z.of_N (Ascii.N_of_ascii a)) (String.list_ascii_of_string s).

Definition CR : Z := 13.
Definition LF : Z := 10.
Definition CRLF : list Z := [CR; LF].

Definition zlen {A} (l : list A) : Z := Z.of_nat (length l).

Definition zsum (l : list Z) : Z := fold_right Z.add 0 l.

(** [strchr] on a buffer: the bytes before the first [c] and the suffix that
    starts at it. [None] when the NUL terminator (or the end) comes first. *)
Fixpoint strchr (c : Z) (s : list Z) : option (list Z * list Z) :=
  match s with
  | [] => None
  | x :: s' =>
      if x =? c then Some ([], s)
      else if x =? 0 then None
      else match strchr c s' with
           | Some (pre, suf) => Some (x :: pre, suf)
           | None => None
           end
  end.

Definition c_string (s : list Z) : Prop := Forall (fun x => x <> 0) s.

Lemma strchr_app c pre suf :
  Forall (fun x => x <> c /\ x <> 0) pre ->
  strchr c (pre ++ c :: suf) = Some (pre, c :: suf).
Proof.
  induction 1 as [|x pre [Hc H0] _ IH]; simpl.
  - by rewrite Z.eqb_refl.
  - by rewrite (proj2 (Z.eqb_neq x c)), (proj2 (Z.eqb_neq x 0)), IH.
Qed.

Lemma zlen_app {A} (l k : list A) : zlen (l ++ k) = zlen l + zlen k.
Proof. unfold zlen. rewrite length_app. lia. Qed.
Lemma zlen_cons {A} (x : A) l : zlen (x :: l) = 1 + zlen l.
Proof. unfold zlen. simpl. lia. Qed.
Lemma zlen_nil {A} : zlen (@nil A) = 0.
Proof. reflexivity. Qed.
Lemma zlen_nonneg {A} (l : list A) : 0 <= zlen l.
Proof. unfold zlen. lia. Qed.

Lemma zlen_map {A B} (f : A -> B) l : zlen (map f l) = zlen l.
Proof. unfold zlen. by rewrite length_map. Qed.

Lemma zsum_app l k : zsum (l ++ k) = zsum l + zsum k.
Proof. induction l; simpl; lia. Qed.

Lemma zsum_nonneg l : Forall (fun x => 0 <= x) l -> 0 <= zsum l.
Proof. induction 1; simpl; lia. Qed.

Lemma zlen_take {A} (l : list A) n : 0 <= n <= zlen l -> zlen (take (Z.to_nat n) l) = n.
Proof. intros Hn. unfold zlen in *. rewrite length_take. lia. Qed.

Lemma zlen_drop {A} (l : list A) n : 0 <= n <= zlen l -> zlen (drop (Z.to_nat n) l) = zlen l - n.
Proof. intros Hn. unfold zlen in *. rewrite length_drop. lia. Qed.

Lemma zlen_snoc {A} (l : list A) x : zlen (l ++ [x]) = zlen l + 1.
Proof. by rewrite zlen_app. Qed.

#[export] Hint Rewrite @zlen_map @zlen_app @zlen_cons @zlen_nil : cint.

(** A decidable fact about a small range holds when evaluation finds it so at
    every point. *)
Lemma forall_range (P : Z -> bool) a n :
  forallb P (seqZ a n) = true -> forall z, a <= z < a + n -> P z = true.
Proof.
  intros H z Hz. apply forallb_forall with (x := z) in H; [done|].
  apply list_elem_of_In, elem_of_seqZ. lia.
Qed.

Lemma Forall_mp {A} (P Q R : A -> Prop) l :
  Forall P l -> Forall Q l -> (forall x, P x -> Q x -> R x) -> Forall R l.
Proof. intros HP HQ H. induction HP; inversion HQ; constructor; auto. Qed.

(** Converting to the unsigned type and back is the signed conversion. *)
Lemma i64_u64 z : i64 (u64 z) = i64 z.
Proof. unfold i64, u64, swrap. by rewrite Zplus_mod_idemp_l. Qed.

(** Bits put side by side. *)
Lemma lor_shiftl_add x y n : 0 <= n -> 0 <= y < 2 ^ n -> Z.lor (Z.shiftl x n) y = x * 2 ^ n + y.
Proof.
  intros Hn Hy. rewrite Z.shiftl_mul_pow2 by lia. assert (Z.land (x * 2 ^ n) y = 0) as D.
  { apply Z.bits_inj'. intros i Hi. rewrite Z.land_spec, Z.bits_0. destruct (Z.lt_ge_cases i n); [by rewrite Z.mul_pow2_bits_low by lia|].
    destruct (Z.eq_dec y 0) as [->|Ny]; [by rewrite Z.bits_0, andb_false_r|]. rewrite (Z.bits_above_log2 y), andb_false_r; [done|lia|].
    assert (Z.log2 y < n) by (apply Z.log2_lt_pow2; lia). lia. }
  rewrite <- Z.lxor_lor by done. by rewrite <- Z.add_nocarry_lxor.
Qed.

(** * Tactics

    [zdec] evaluates the integer comparisons of the goal that [lia] decides;
    [zcase] splits on the first comparison of the goal. *)

Ltac zdec :=
  rewrite ?Z.geb_leb, ?Z.gtb_ltb;
  repeat match goal with
  | |- context [Z.ltb ?a ?b] =>
      first [rewrite (proj2 (Z.ltb_lt a b)) by lia | rewrite (proj2 (Z.ltb_ge a b)) by lia]
  | |- context [Z.leb ?a ?b] =>
      first [rewrite (proj2 (Z.leb_le a b)) by lia | rewrite (proj2 (Z.leb_gt a b)) by lia]
  | |- context [Z.eqb ?a ?b] =>
      first [rewrite (proj2 (Z.eqb_eq a b)) by lia | rewrite (proj2 (Z.eqb_neq a b)) by lia]
  end; cbn [andb orb negb].

Ltac zcase :=
  rewrite ?Z.geb_leb, ?Z.gtb_ltb;
  match goal with
  | |- context [Z.ltb ?a ?b] => destruct (Z.ltb_spec a b)
  | |- context [Z.leb ?a ?b] => destruct (Z.leb_spec a b)
  | |- context [Z.eqb ?a ?b] => destruct (Z.eqb_spec a b)
  end; cbn [andb orb negb].
