(* ===== verification/Numbers.v ===== *)
(** Integer and string conversions of src/src/util.c: [digits10],
    [sdigits10], [ull2string], [ll2string], [string2ll], [string2l] and the
    base-16 reader, with the decimal reference [dec] they are proved against.

    A destination buffer is the [list Z] of its bytes: [dstlen] is its length
    and every write is an indexed update, so that a write out of range would
    be visible. A source string of length [slen] is the list of its bytes. *)

From Stdlib Require Import Zwf.
From stdpp Require Import base list numbers strings.
From S2P Require Import Prelude.

Local Open Scope Z_scope.

Definition LONG_STR_SIZE : Z := 21.

(** ** The code *)

(** [uint32_t digits10(uint64_t v)]. The recursion divides by 10^12, so a
    64-bit argument needs at most two calls; the fuel is three. *)
Fixpoint digits10_fuel (fuel : nat) (v : Z) : Z :=
  match fuel with
  | O => 0
  | S fuel' =>
      if v <? 10 then 1
      else if v <? 100 then 2
      else if v <? 1000 then 3
      else if v <? 1000000000000 then
        if v <? 100000000 then
          if v <? 1000000 then
            if v <? 10000 then 4
            else 5 + Z.b2z (v >=? 100000)
          else 7 + Z.b2z (v >=? 10000000)
        else if v <? 10000000000 then 9 + Z.b2z (v >=? 1000000000)
        else 11 + Z.b2z (v >=? 100000000000)
      else 12 + digits10_fuel fuel' (v / 1000000000000)
  end.

Definition digits10 (v : Z) : Z := digits10_fuel 3 v.

Definition sdigits10 (v : Z) : Z :=
  if v <? 0 then
    let uv := if negb (v =? LLONG_MIN) then u64 (- v) else u64 (LLONG_MAX + 1) in
    digits10 uv + 1
  else digits10 v.

(** The 200 digit characters of the two-digits-at-a-time table. *)
Definition digits : list Z :=
  bs ("0001020304050607080910111213141516171819"
      ++ "2021222324252627282930313233343536373839"
      ++ "4041424344454647484950515253545556575859"
      ++ "6061626364656667686970717273747576777879"
      ++ "8081828384858687888990919293949596979899")%string.

Definition digit_at (i : Z) : Z := nth (Z.to_nat i) digits 0.

Definition wr (dst : list Z) (i c : Z) : list Z := <[Z.to_nat i := c]> dst.

(** [while (value >= 100)], one table lookup per two digits. *)
Fixpoint ull2string_loop (fuel : nat) (dst : list Z) (next value : Z) : list Z * Z * Z :=
  match fuel with
  | O => (dst, next, value)
  | S fuel' =>
      if value >=? 100 then
        let i := (value mod 100) * 2 in
        let value := value / 100 in
        let dst := wr dst next (digit_at (i + 1)) in
        let dst := wr dst (u32 (next - 1)) (digit_at i) in
        ull2string_loop fuel' dst (u32 (next - 2)) value
      else (dst, next, value)
  end.

(** The [err] label: the buffer is NUL terminated if it has any room. *)
Definition string_err (dst : list Z) : Z * list Z :=
  (0, if zlen dst >? 0 then wr dst 0 0 else dst).

(** The last one or two digits. *)
Definition ull2string_last (dst : list Z) (next value : Z) : list Z :=
  if value <? 10 then wr dst next (48 + value)
  else
    let i := value * 2 in
    wr (wr dst next (digit_at (i + 1))) (u32 (next - 1)) (digit_at i).

Definition ull2string (dst : list Z) (value : Z) : Z * list Z :=
  let len := digits10 value in
  if len >=? zlen dst then string_err dst
  else
    let next := u32 (len - 1) in
    let dst := wr dst (u32 (next + 1)) 0 in
    let '(dst, next, value) := ull2string_loop 10 dst next value in
    (len, ull2string_last dst next value).

Definition ll2string (dst : list Z) (svalue : Z) : Z * list Z :=
  if svalue <? 0 then
    let value := if negb (svalue =? LLONG_MIN) then - svalue else LLONG_MAX + 1 in
    if zlen dst <? 2 then string_err dst
    else
      let dst := wr dst 0 45 in
      let '(len, tl) := ull2string (drop 1 dst) value in
      let dst := take 1 dst ++ tl in
      if len =? 0 then (0, dst) else (len + 1, dst)
  else
    let '(len, dst) := ull2string dst svalue in
    if len =? 0 then (0, dst) else (len + 0, dst).

(** The idiom [len = ll2string(buf,sizeof(buf),v)] on a local [char buf[n]],
    whose first [len] bytes are then used. *)
Definition ll_text (n : nat) (v : Z) : list Z :=
  let '(len, b) := ll2string (repeat 0 n) v in take (Z.to_nat len) b.

(** The digit loop of [string2ll]: [None] on overflow, otherwise the value
    and the bytes left. *)
Fixpoint string2ll_digits (v : Z) (p : list Z) : option (Z * list Z) :=
  match p with
  | [] => Some (v, [])
  | c :: p' =>
      if (c >=? 48) && (c <=? 57) then
        if v >? ULLONG_MAX / 10 then None
        else
          let v := u64 (v * 10) in
          if v >? ULLONG_MAX - (c - 48) then None
          else string2ll_digits (u64 (v + (c - 48))) p'
      else Some (v, p)
  end.

Definition string2ll (s : list Z) : option Z :=
  let slen := zlen s in
  if (0 =? slen) || (slen >=? LONG_STR_SIZE) then None
  else if (slen =? 1) && (nth 0 s 0 =? 48) then Some 0
  else
    let negative := nth 0 s 0 =? 45 in
    let p := if negative then drop 1 s else s in
    match p with
    | [] => None
    | c :: p' =>
        if (c >=? 49) && (c <=? 57) then
          match string2ll_digits (c - 48) p' with
          | None => None
          | Some (v, rest) =>
              if 0 <? zlen rest then None
              else if negative then
                if v >? - (LLONG_MIN + 1) + 1 then None
                else Some (i64 (u64 (- v)))
              else if v >? LLONG_MAX then None
              else Some v
          end
        else None
    end.

(** [long] is 64 bits wide on the supported LP64 targets, so the range test
    of [string2l] repeats the one of [string2ll]. *)
Definition string2l (s : list Z) : option Z :=
  match string2ll s with
  | None => None
  | Some llval =>
      if (llval <? LLONG_MIN) || (llval >? LLONG_MAX) then None else Some llval
  end.

Definition safe_is_c_in_range (c start en : Z) : bool := (c >=? start) && (c <=? en).

Definition base_16_char_type (c : Z) : Z :=
  if safe_is_c_in_range c 48 57 then 0
  else if safe_is_c_in_range c 97 102 then 1
  else if safe_is_c_in_range c 65 70 then 2
  else -1.

Definition ascii_to_dec (char_type : Z) : Z := nth (Z.to_nat char_type) [48; 97 - 10; 65 - 10] 0.

(** The result of [string2ul_base16_async_signal_safe]: the C function
    returns 1 and stores the value, or returns -1 on overflow. *)
Fixpoint string2ul_base16_loop (result : Z) (src : list Z) : option Z :=
  match src with
  | [] => Some result
  | c :: src' =>
      if base_16_char_type c =? -1 then Some result
      else
        let curr_val := c - ascii_to_dec (base_16_char_type c) in
        if (result >? ULLONG_MAX / 16) || (result >? (ULLONG_MAX - curr_val) / 16) then None
        else string2ul_base16_loop (u64 (result * 16 + curr_val)) src'
  end.

Definition string2ul_base16_async_signal_safe (src : list Z) : option Z :=
  string2ul_base16_loop 0 src.

(** ** The decimal reference *)

Fixpoint dec_fuel (fuel : nat) (v : Z) : list Z :=
  match fuel with
  | O => []
  | S fuel' => if v <? 10 then [48 + v] else dec_fuel fuel' (v / 10) ++ [48 + v mod 10]
  end.

(** The decimal digits of a natural number, most significant first. *)
Definition dec (v : Z) : list Z := dec_fuel (S (Z.to_nat (Z.log2 v))) v.

(** The text of a signed integer. *)
Definition sdec (v : Z) : list Z := if v <? 0 then 45 :: dec (- v) else dec v.

Definition is_digit (c : Z) : Prop := 48 <= c <= 57.

(** The value of a digit string. *)
Definition val_dec (acc : Z) (l : list Z) : Z := fold_left (fun a c => a * 10 + (c - 48)) l acc.

(** ** Lemmas on the reference *)

Lemma log2_div10 v : 10 <= v -> Z.log2 (v / 10) < Z.log2 v.
Proof.
  intros Hv. assert (0 < v / 10) by (apply Z.div_str_pos; lia).
  apply (Z.lt_le_trans _ (Z.log2 (2 * (v / 10)))).
  - rewrite Z.log2_double by lia. lia.
  - apply Z.log2_le_mono. pose proof (Z.mul_div_le v 10). lia.
Qed.

Lemma dec_fuel_enough n m v :
  0 <= v -> (Z.to_nat (Z.log2 v) < n)%nat -> (Z.to_nat (Z.log2 v) < m)%nat ->
  dec_fuel n v = dec_fuel m v.
Proof.
  revert m v. induction n as [|n IH]; intros m v Hv Hn Hm; [lia|].
  destruct m as [|m]; [lia|]. simpl.
  destruct (Z.ltb_spec v 10) as [|H10]; [done|].
  pose proof (log2_div10 v H10). pose proof (Z.log2_nonneg (v / 10)).
  assert (0 <= v / 10) by (apply Z.div_pos; lia).
  f_equal. apply IH; lia.
Qed.

Lemma dec_small v : 0 <= v < 10 -> dec v = [48 + v].
Proof. intros Hv. unfold dec. simpl. destruct (Z.ltb_spec v 10); [done|lia]. Qed.

Lemma dec_step v : 10 <= v -> dec v = dec (v / 10) ++ [48 + v mod 10].
Proof.
  intros H10. unfold dec at 1. cbn [dec_fuel].
  destruct (Z.ltb_spec v 10); [lia|]. f_equal. unfold dec.
  pose proof (log2_div10 v H10). pose proof (Z.log2_nonneg (v / 10)).
  assert (0 <= v / 10) by (apply Z.div_pos; lia).
  apply dec_fuel_enough; lia.
Qed.

(** Induction along the digits of a natural number. *)
Lemma dec_ind (P : Z -> Prop) :
  (forall v, 0 <= v < 10 -> P v) ->
  (forall v, 10 <= v -> P (v / 10) -> P v) ->
  forall v, 0 <= v -> P v.
Proof.
  intros Hs Hstep v Hv. revert Hv. induction (Zwf_well_founded 0 v) as [v _ IH].
  intros Hv. destruct (Z.lt_ge_cases v 10) as [|H10]; [by apply Hs|].
  apply Hstep; [done|]. apply IH.
  - split; [lia|]. apply Z.div_lt; lia.
  - apply Z.div_pos; lia.
Qed.

Lemma dec_digits v : 0 <= v -> Forall is_digit (dec v).
Proof.
  revert v. apply dec_ind; intros v Hv.
  - rewrite dec_small by done. repeat constructor; lia.
  - intros IH. rewrite dec_step by done. apply Forall_app. split; [done|].
    pose proof (Z.mod_pos_bound v 10). repeat constructor; lia.
Qed.

Lemma dec_nonempty v : 0 <= v -> dec v <> [].
Proof.
  intros Hv. destruct (Z.lt_ge_cases v 10).
  - by rewrite dec_small.
  - rewrite dec_step by done. by destruct (dec (v / 10)).
Qed.

Lemma val_dec_app acc l k : val_dec acc (l ++ k) = val_dec (val_dec acc l) k.
Proof. apply fold_left_app. Qed.

Lemma val_dec_dec v : 0 <= v -> val_dec 0 (dec v) = v.
Proof.
  revert v. apply dec_ind; intros v Hv.
  - rewrite dec_small by done. unfold val_dec; simpl. lia.
  - intros IH. rewrite dec_step, val_dec_app, IH by done. unfold val_dec; simpl.
    pose proof (Z.div_mod v 10). lia.
Qed.

(** The number of digits is the decimal magnitude. *)
Lemma length_dec n v :
  0 <= v -> 10 ^ n <= v < 10 ^ (n + 1) -> 0 <= n -> zlen (dec v) = n + 1.
Proof.
  intros Hv. revert n. pattern v. revert v Hv. apply dec_ind; intros v Hv.
  - intros n Hb Hn. rewrite dec_small by done. 
    assert (n = 0) as ->; [|reflexivity].
    destruct (decide (n = 0)); [done|].
    assert (10 ^ 1 <= 10 ^ n) by (apply Z.pow_le_mono_r; lia). lia.
  - intros IH n Hb Hn. rewrite dec_step, zlen_app by done.
    assert (1 <= n).
    { destruct (decide (n = 0)) as [->|]; simpl in *; lia. }
    rewrite (IH (n - 1)); [unfold zlen; simpl; lia| |lia].
    replace (n - 1 + 1) with n by lia.
    replace (10 ^ (n + 1)) with (10 * 10 ^ n) in Hb by (rewrite <- Z.pow_succ_r by lia; f_equal; lia).
    replace (10 ^ n) with (10 * 10 ^ (n - 1)) in Hb at 1 by (rewrite <- Z.pow_succ_r by lia; f_equal; lia).
    split; [apply Z.div_le_lower_bound; lia|apply Z.div_lt_upper_bound; lia].
Qed.

Lemma length_dec_small v : 0 <= v < 10 -> zlen (dec v) = 1.
Proof. intros Hv. by rewrite dec_small. Qed.

(** The first digit is not a zero unless the number is. *)
Lemma dec_head v : 0 < v -> exists c l, dec v = c :: l /\ 49 <= c <= 57.
Proof.
  intros Hv. assert (0 <= v) as Hv0 by lia. revert Hv. pattern v. revert v Hv0. 
  apply dec_ind; intros v Hv.
  - intros. rewrite dec_small by done. eexists _, _. split; [done|lia].
  - intros IH _. destruct IH as (c & l & E & Hc); [apply Z.div_str_pos; lia|].
    rewrite dec_step, E by done. eexists _, _. by split.
Qed.

(** ** [digits10] counts decimal digits *)

Lemma digits10_small v :
  0 <= v < 1000000000000 ->
  exists n, 0 <= n < 12 /\ digits10_fuel 1 v = n + 1 /\ (n = 0 \/ 10 ^ n <= v) /\ v < 10 ^ (n + 1).
Proof.
  intros Hv. cbn [digits10_fuel].
  repeat match goal with
  | |- context [v <? ?k] => destruct (Z.ltb_spec v k)
  | |- context [v >=? ?k] => rewrite (Z.geb_leb v k); destruct (Z.leb_spec k v)
  end; cbn [Z.b2z];
  match goal with
  | |- exists n, _ /\ ?k = n + 1 /\ _ => exists (k - 1); cbn -[Z.lt Z.le]; lia
  | _ => lia
  end.
Qed.

Lemma digits10_bracket v :
  is_u64 v ->
  exists n, 0 <= n /\ digits10 v = n + 1 /\ (n = 0 \/ 10 ^ n <= v) /\ v < 10 ^ (n + 1).
Proof.
  intros Hv. unfold is_u64 in Hv. unfold digits10.
  destruct (Z.lt_ge_cases v 1000000000000) as [Hs|Hb].
  - destruct (digits10_small v) as (n & Hn & E & H1 & H2); [lia|].
    exists n. repeat split; try done; [lia|]. rewrite <- E. cbn [digits10_fuel].
    by rewrite (proj2 (Z.ltb_lt v 1000000000000)).
  - set (w := v / 1000000000000).
    assert (0 < w < 1000000000000) as Hw.
    { split; [apply Z.div_str_pos; lia|apply Z.div_lt_upper_bound; lia]. }
    destruct (digits10_small w) as (n & Hn & E & H1 & H2); [lia|].
    pose proof (Z.mul_div_le v 1000000000000). pose proof (Z.mul_succ_div_gt v 1000000000000).
    exists (n + 12). repeat split; [lia| | |].
    + cbn [digits10_fuel] in E |- *. fold w.
      repeat (rewrite (proj2 (Z.ltb_ge v _)) by lia).
      rewrite (proj2 (Z.ltb_lt w 1000000000000)) in E |- * by lia. lia.
    + right. rewrite Z.pow_add_r by lia. fold w in H.
      destruct H1 as [->|H1]; simpl; nia.
    + replace (n + 12 + 1) with ((n + 1) + 12) by lia. rewrite Z.pow_add_r by lia. 
      fold w in H0. nia.
Qed.

Lemma digits10_length v : is_u64 v -> digits10 v = zlen (dec v).
Proof.
  intros Hv. destruct (digits10_bracket v Hv) as (n & Hn & -> & H1 & H2).
  unfold is_u64 in Hv. destruct H1 as [->|H1].
  - rewrite length_dec_small; lia.
  - rewrite (length_dec n); lia.
Qed.

Lemma dec_length_bound v : is_u64 v -> 1 <= zlen (dec v) <= 20.
Proof.
  intros Hv. rewrite <- digits10_length by done.
  destruct (digits10_bracket v Hv) as (n & Hn & -> & H1 & H2).
  unfold is_u64 in Hv. split; [lia|].
  destruct H1 as [->|H1]; [lia|].
  destruct (Z.le_gt_cases n 19); [lia|].
  assert (10 ^ 20 <= 10 ^ n) by (apply Z.pow_le_mono_r; lia). lia.
Qed.

(** ** [ull2string] and [ll2string] print decimal *)

Lemma digit_at_spec k :
  0 <= k < 100 -> digit_at (k * 2) = 48 + k / 10 /\ digit_at (k * 2 + 1) = 48 + k mod 10.
Proof.
  intros Hk.
  assert (forallb (fun n => let k := Z.of_nat n in
            (digit_at (k * 2) =? 48 + k / 10) && (digit_at (k * 2 + 1) =? 48 + k mod 10))
          (seq 0 100) = true) as H by (vm_compute; reflexivity).
  rewrite forallb_forall in H. specialize (H (Z.to_nat k)).
  rewrite Z2Nat.id in H by lia.
  assert (In (Z.to_nat k) (seq 0 100)) as Hin by (apply in_seq; lia).
  apply H, andb_true_iff in Hin as [H1 H2]. lia.
Qed.

Lemma zlen_wr dst i c : zlen (wr dst i c) = zlen dst.
Proof. unfold zlen, wr. by rewrite length_insert. Qed.

Lemma wr_split dst i c :
  0 <= i < zlen dst -> wr dst i c = take (Z.to_nat i) dst ++ c :: drop (Z.to_nat (i + 1)) dst.
Proof.
  unfold zlen, wr. intros Hi. rewrite insert_take_drop by lia. do 2 f_equal. f_equal. lia.
Qed.

Lemma wr_pair dst i a b :
  1 <= i < zlen dst ->
  wr (wr dst i b) (i - 1) a = take (Z.to_nat (i - 1)) dst ++ a :: b :: drop (Z.to_nat (i + 1)) dst.
Proof.
  intros Hi. rewrite wr_split by (rewrite zlen_wr; lia).
  rewrite wr_split by lia.
  replace (i - 1 + 1) with i by lia. unfold zlen in Hi.
  rewrite take_app_le by (rewrite length_take; lia).
  rewrite take_take, Nat.min_l by lia. do 2 f_equal.
  rewrite drop_app_ge by (rewrite length_take; lia).
  rewrite length_take, Nat.min_l, Nat.sub_diag by lia. done.
Qed.

Lemma dec_pair v :
  100 <= v -> dec v = dec (v / 100) ++ [48 + (v mod 100) / 10; 48 + (v mod 100) mod 10].
Proof.
  intros Hv. rewrite dec_step by lia.
  rewrite (dec_step (v / 10)) by (apply Z.div_le_lower_bound; lia).
  assert ((v / 10) mod 10 = (v mod 100) / 10) as ->
    by (Z.to_euclidean_division_equations; lia).
  assert (v mod 10 = (v mod 100) mod 10) as <-
    by (Z.to_euclidean_division_equations; lia).
  by rewrite Z.div_div, <- app_assoc by lia.
Qed.

Lemma dec_two v : 10 <= v < 100 -> dec v = [48 + v / 10; 48 + v mod 10].
Proof.
  intros Hv. rewrite dec_step by lia. rewrite dec_small; [done|].
  split; [apply Z.div_pos; lia|apply Z.div_lt_upper_bound; lia].
Qed.

Lemma ull2string_last_spec dst next v :
  0 <= v < 100 -> next + 1 = zlen (dec v) -> next < zlen dst -> next < 2 ^ 32 ->
  ull2string_last dst next v = dec v ++ drop (Z.to_nat (next + 1)) dst.
Proof.
  intros Hv Hn Hd Hb. unfold ull2string_last. destruct (Z.ltb_spec v 10).
  - rewrite dec_small in Hn |- * by lia. change (zlen [48 + v]) with 1 in Hn.
    assert (next = 0) as -> by lia. by rewrite wr_split by lia.
  - rewrite dec_two in Hn |- * by lia. change (zlen [_; _]) with 2 in Hn. assert (next = 1) as -> by lia.
    destruct (digit_at_spec v) as [-> ->]; [lia|].
    rewrite u32_small by (unfold is_u32; lia). by rewrite wr_pair by lia.
Qed.

Lemma ull2string_loop_spec fuel dst next v :
  0 <= v < 100 ^ (Z.of_nat fuel + 1) -> next + 1 = zlen (dec v) ->
  next < zlen dst -> next < 2 ^ 32 ->
  let '(d, n, w) := ull2string_loop fuel dst next v in
  ull2string_last d n w = dec v ++ drop (Z.to_nat (next + 1)) dst.
Proof.
  revert dst next v. induction fuel as [|fuel IH]; intros dst next v Hv Hn Hd Hb; cbn [ull2string_loop].
  - apply ull2string_last_spec; simpl in Hv; lia.
  - rewrite Z.geb_leb. destruct (Z.leb_spec 100 v) as [H100|]; [|apply ull2string_last_spec; lia].
    assert (0 < v / 100) by (apply Z.div_str_pos; lia).
    pose proof (dec_nonempty (v / 100) ltac:(lia)) as Hne.
    rewrite dec_pair in Hn |- * by done. rewrite zlen_app in Hn.
    change (zlen [_; _]) with 2 in Hn.
    assert (1 <= zlen (dec (v / 100))) by (destruct (dec (v / 100)); [done|unfold zlen; simpl; lia]).
    destruct (digit_at_spec (v mod 100)) as [-> ->]; [apply Z.mod_pos_bound; lia|].
    rewrite !u32_small by (unfold is_u32; lia). rewrite wr_pair by lia.
    match goal with |- context [ull2string_loop fuel ?d ?n ?w] => specialize (IH d n w) end.
    destruct (ull2string_loop _ _ _ _) as [[d n] w]. rewrite IH.
    + rewrite <- app_assoc. f_equal. replace (next - 2 + 1) with (next - 1) by lia.
      unfold zlen in Hd. rewrite drop_app_ge by (rewrite length_take; lia).
      rewrite length_take, Nat.min_l, Nat.sub_diag by lia. done.
    + split; [lia|]. apply Z.div_lt_upper_bound; [lia|].
      rewrite <- Z.pow_succ_r by lia. replace (Z.succ _) with (Z.of_nat (S fuel) + 1) by lia. lia.
    + lia.
    + rewrite zlen_app, !zlen_cons. unfold zlen in *. rewrite length_take, length_drop. lia.
    + lia.
Qed.

Lemma ull2string_ok dst v :
  is_u64 v -> zlen (dec v) < zlen dst ->
  ull2string dst v = (zlen (dec v), dec v ++ 0 :: drop (Z.to_nat (zlen (dec v) + 1)) dst).
Proof.
  intros Hv Hd. unfold ull2string. rewrite digits10_length by done.
  pose proof (dec_length_bound v Hv) as Hl. rewrite Z.geb_leb, (proj2 (Z.leb_gt _ _)) by lia.
  rewrite !(u32_small (zlen (dec v) - 1)) by (unfold is_u32; lia).
  rewrite u32_small by (unfold is_u32; lia).
  replace (zlen (dec v) - 1 + 1) with (zlen (dec v)) by lia.
  pose proof (ull2string_loop_spec 10 (wr dst (zlen (dec v)) 0) (zlen (dec v) - 1) v) as H.
  destruct (ull2string_loop _ _ _ _) as [[d n] w]. rewrite H.
  - do 2 f_equal. replace (zlen (dec v) - 1 + 1) with (zlen (dec v)) by lia.
    rewrite wr_split by lia. unfold zlen in *.
    rewrite drop_app_ge by (rewrite length_take; lia).
    rewrite length_take, Nat.min_l, Nat.sub_diag by lia. done.
  - unfold is_u64 in Hv. simpl. lia.
  - lia.
  - rewrite zlen_wr. lia.
  - lia.
Qed.

Lemma ull2string_err dst v :
  is_u64 v -> zlen dst <= zlen (dec v) -> ull2string dst v = string_err dst.
Proof.
  intros Hv Hd. unfold ull2string. rewrite digits10_length by done.
  by rewrite Z.geb_leb, (proj2 (Z.leb_le _ _)).
Qed.

Lemma dec_length_le n v : 0 <= v -> v < 10 ^ n -> 1 <= n -> zlen (dec v) <= n.
Proof.
  intros Hv. revert n. pattern v. revert v Hv. apply dec_ind; intros v Hv.
  - intros n _ Hn. by rewrite length_dec_small by done.
  - intros IH n Hb Hn. rewrite dec_step, zlen_app by done. change (zlen [_]) with 1.
    destruct (decide (n = 1)) as [->|]; [lia|].
    enough (zlen (dec (v / 10)) <= n - 1) by lia. apply IH; [|lia].
    apply Z.div_lt_upper_bound; [lia|]. rewrite <- Z.pow_succ_r by lia.
    by replace (Z.succ (n - 1)) with n by lia.
Qed.

Lemma sdec_bytes v : Forall is_u8 (sdec v).
Proof.
  assert (forall u, 0 <= u -> Forall is_u8 (dec u)) as D by (intros u Hu; eapply Forall_impl; [by apply dec_digits|]; unfold is_digit, is_u8; intros; lia).
  unfold sdec. destruct (Z.ltb_spec v 0); [constructor; [done|]|]; apply D; lia.
Qed.

Lemma sdec_length v : is_i64 v -> 1 <= zlen (sdec v) <= 20.
Proof.
  unfold is_i64, sdec. intros Hv. destruct (Z.ltb_spec v 0).
  - rewrite zlen_cons. pose proof (zlen_nonneg (dec (- v))).
    pose proof (dec_length_le 19 (- v)). lia.
  - apply dec_length_bound. unfold is_u64. lia.
Qed.

Lemma ll2string_ok dst v :
  is_i64 v -> zlen (sdec v) < zlen dst ->
  ll2string dst v = (zlen (sdec v), sdec v ++ 0 :: drop (Z.to_nat (zlen (sdec v) + 1)) dst).
Proof.
  unfold is_i64, ll2string, sdec, LLONG_MIN, LLONG_MAX. intros Hv.
  destruct (Z.ltb_spec v 0).
  - rewrite zlen_cons. intros Hd.
    assert ((if negb (v =? - 2 ^ 63) then - v else 2 ^ 63 - 1 + 1) = - v) as ->.
    { destruct (Z.eqb_spec v (- 2 ^ 63)); simpl; lia. }
    assert (is_u64 (- v)) as Hu by (unfold is_u64; lia).
    pose proof (dec_length_bound _ Hu) as Hl.
    rewrite (proj2 (Z.ltb_ge _ _)) by lia.
    destruct dst as [|d0 dst]; [rewrite zlen_nil in Hd; lia|]. rewrite zlen_cons in Hd.
    unfold wr. simpl. rewrite drop_0, ull2string_ok by (done || lia).
    rewrite (proj2 (Z.eqb_neq _ _)) by lia.
    f_equal; [lia|]. simpl. do 3 f_equal.
    by replace (Z.to_nat (1 + zlen (dec (- v)) + 1)) with (S (Z.to_nat (zlen (dec (- v)) + 1))) by lia.
  - intros Hd. assert (is_u64 v) as Hu by (unfold is_u64; lia).
    rewrite ull2string_ok by done. pose proof (dec_length_bound _ Hu).
    rewrite (proj2 (Z.eqb_neq _ _)) by lia. f_equal. lia.
Qed.

(** The text [ll2string] leaves in a large enough local buffer. *)
Lemma ll_text_ok n v : is_i64 v -> (21 <= n)%nat -> ll_text n v = sdec v.
Proof.
  intros Hv Hn. unfold ll_text. pose proof (sdec_length v Hv).
  rewrite ll2string_ok by (first [done | unfold zlen in *; rewrite repeat_length; lia]).
  unfold zlen. by rewrite Nat2Z.id, take_app_length.
Qed.

(** When the buffer is too small nothing is printed and 0 is returned. *)
Lemma ll2string_err dst v :
  is_i64 v -> zlen dst <= zlen (sdec v) -> fst (ll2string dst v) = 0.
Proof.
  unfold is_i64, ll2string, sdec, LLONG_MIN, LLONG_MAX. intros Hv.
  destruct (Z.ltb_spec v 0).
  - rewrite zlen_cons. intros Hd.
    assert ((if negb (v =? - 2 ^ 63) then - v else 2 ^ 63 - 1 + 1) = - v) as ->.
    { destruct (Z.eqb_spec v (- 2 ^ 63)); simpl; lia. }
    assert (is_u64 (- v)) as Hu by (unfold is_u64; lia).
    destruct (Z.ltb_spec (zlen dst) 2); [done|].
    destruct dst as [|d0 dst]; [done|]. rewrite zlen_cons in Hd.
    unfold wr. simpl. rewrite drop_0, ull2string_err by (done || lia). done.
  - intros Hd. assert (is_u64 v) as Hu by (unfold is_u64; lia).
    rewrite ull2string_err by done. done.
Qed.

(** ** [string2ll] accepts exactly the canonical texts *)

Lemma val_dec_ge acc p : 0 <= acc -> Forall is_digit p -> acc <= val_dec acc p.
Proof.
  intros Ha Hp. revert acc Ha. induction Hp as [|c p Hc _ IH]; intros acc Ha; unfold val_dec; simpl; [lia|].
  unfold is_digit in Hc. unfold val_dec in IH. etransitivity; [|apply IH]; lia.
Qed.

Lemma string2ll_digits_spec v p :
  0 <= v <= ULLONG_MAX -> Forall is_digit p -> 
  string2ll_digits v p = if val_dec v p <=? ULLONG_MAX then Some (val_dec v p, []) else None.
Proof.
  intros Hv Hp. revert v Hv. induction Hp as [|c p Hc Hp IH]; intros v Hv; simpl.
  - unfold val_dec. simpl. by rewrite (proj2 (Z.leb_le _ _)) by lia.
  - unfold is_digit in Hc. rewrite !Z.geb_leb, (proj2 (Z.leb_le 48 c)), (proj2 (Z.leb_le c 57)) by lia.
    simpl. change (val_dec v (c :: p)) with (val_dec (v * 10 + (c - 48)) p).
    pose proof (val_dec_ge (v * 10 + (c - 48)) p) as Hge.
    rewrite !Z.gtb_ltb. unfold ULLONG_MAX in *.
    destruct (Z.ltb_spec ((2 ^ 64 - 1) / 10) v).
    { rewrite (proj2 (Z.leb_gt _ _)); [done|]. 
      specialize (Hge ltac:(lia) Hp). Z.to_euclidean_division_equations. lia. }
    assert (v * 10 <= 2 ^ 64 - 1) by (Z.to_euclidean_division_equations; lia).
    rewrite (u64_small (v * 10)) by (unfold is_u64; lia).
    destruct (Z.ltb_spec (2 ^ 64 - 1 - (c - 48)) (v * 10)).
    { rewrite (proj2 (Z.leb_gt _ _)); [done|]. specialize (Hge ltac:(lia) Hp). lia. }
    rewrite u64_small by (unfold is_u64; lia). apply IH. lia.
Qed.

Lemma string2ll_digits_rest v p w : string2ll_digits v p = Some (w, []) -> Forall is_digit p.
Proof.
  revert v. induction p as [|c p IH]; intros v; simpl; [by constructor|].
  rewrite Z.geb_leb. destruct (Z.leb_spec 48 c), (Z.leb_spec c 57); simpl; try done.
  repeat case_match; try done. intros H'. constructor; [unfold is_digit; lia|]. by eapply IH.
Qed.

Lemma dec_val c p :
  49 <= c <= 57 -> Forall is_digit p -> dec (val_dec 0 (c :: p)) = c :: p.
Proof.
  intros Hc. induction p as [|d p IH] using rev_ind; intros Hp.
  - unfold val_dec. simpl. rewrite dec_small by lia. f_equal. lia.
  - apply Forall_app in Hp as [Hp Hd]. apply Forall_cons in Hd as [Hd _]. unfold is_digit in Hd.
    rewrite app_comm_cons, val_dec_app.
    assert (1 <= val_dec 0 (c :: p)).
    { change (1 <= val_dec (0 * 10 + (c - 48)) p).
      pose proof (val_dec_ge (0 * 10 + (c - 48)) p ltac:(lia) Hp). lia. }
    set (a := val_dec 0 (c :: p)) in *.
    change (val_dec a [d]) with (a * 10 + (d - 48)).
    rewrite dec_step by lia.
    assert ((a * 10 + (d - 48)) / 10 = a) as -> by (Z.to_euclidean_division_equations; lia).
    assert ((a * 10 + (d - 48)) mod 10 = d - 48) as -> by (Z.to_euclidean_division_equations; lia).
    rewrite IH by done. do 2 f_equal. lia.
Qed.

Lemma string2ll_sdec v : is_i64 v -> string2ll (sdec v) = Some v.
Proof.
  intros Hv. pose proof (sdec_length v Hv) as Hl. unfold is_i64 in Hv.
  destruct (decide (v = 0)) as [->|Hnz]; [reflexivity|].
  destruct (dec_head (Z.abs v)) as (c & p & E & Hc); [lia|].
  assert (Forall is_digit p) as Hp.
  { pose proof (dec_digits (Z.abs v) ltac:(lia)) as H. rewrite E in H. by inversion H. }
  assert (val_dec (c - 48) p = Z.abs v) as Hval.
  { rewrite <- (val_dec_dec (Z.abs v)), E by lia. done. }
  assert (string2ll_digits (c - 48) p = Some (Z.abs v, [])) as Hdig.
  { rewrite string2ll_digits_spec, Hval by (done || unfold ULLONG_MAX; lia).
    unfold ULLONG_MAX. by rewrite (proj2 (Z.leb_le _ _)) by lia. }
  assert ((c >=? 49) && (c <=? 57) = true) as Hc' by (rewrite Z.geb_leb; apply andb_true_iff; lia).
  unfold string2ll, LONG_STR_SIZE, LLONG_MIN, LLONG_MAX. zdec.
  unfold sdec in *. destruct (Z.ltb_spec v 0).
  - rewrite Z.abs_neq in * by lia. rewrite E. cbn [nth Z.eqb Pos.eqb drop].
    rewrite andb_false_r, ?drop_0, Hc', Hdig. change (zlen []) with 0. zdec.
    rewrite i64_u64, i64_small; [f_equal; lia|unfold is_i64; lia].
  - rewrite Z.abs_eq in * by lia. rewrite E in *. cbn [nth]. change (zlen []) with 0.
    rewrite (proj2 (Z.eqb_neq c 48)), (proj2 (Z.eqb_neq c 45)), andb_false_r, Hc', Hdig by lia.
    change (zlen []) with 0. by zdec.
Qed.

(** The body of [string2ll] after the sign. *)
Lemma string2ll_digits_inv c p w :
  49 <= c <= 57 -> string2ll_digits (c - 48) p = Some (w, []) ->
  c :: p = dec w /\ 0 < w <= ULLONG_MAX.
Proof.
  intros Hc H. pose proof (string2ll_digits_rest _ _ _ H) as Hp.
  rewrite string2ll_digits_spec in H by (done || unfold ULLONG_MAX; lia).
  destruct (Z.leb_spec (val_dec (c - 48) p) ULLONG_MAX); simplify_eq.
  pose proof (val_dec_ge (c - 48) p ltac:(lia) Hp).
  pose proof (dec_val c p Hc Hp) as E. change (val_dec 0 (c :: p)) with (val_dec (0 * 10 + (c - 48)) p) in E.
  replace (0 * 10 + (c - 48)) with (c - 48) in E by lia. rewrite E. split; [done|lia].
Qed.

Lemma string2ll_inv s v : string2ll s = Some v -> is_i64 v /\ s = sdec v.
Proof.
  unfold string2ll. destruct ((0 =? zlen s) || (zlen s >=? LONG_STR_SIZE)); [done|].
  destruct ((zlen s =? 1) && (nth 0 s 0 =? 48)) eqn:E1.
  { intros; simplify_eq. apply andb_true_iff in E1 as [H1 H2].
    apply Z.eqb_eq in H1, H2.
    destruct s as [|x [|y s]]; rewrite ?zlen_cons, ?zlen_nil in H1;
      [lia| |pose proof (zlen_nonneg s); lia].
    simpl in H2. split; [unfold is_i64; lia|]. change (sdec 0) with [48]. f_equal. lia. }
  clear E1. destruct (Z.eqb_spec (nth 0 s 0) 45) as [E45|E45]; cbn [drop].
  - destruct s as [|x s]; [done|]. simpl in E45. subst x. cbn [drop]. rewrite ?drop_0.
    destruct s as [|c p]; [done|].
    destruct ((c >=? 49) && (c <=? 57)) eqn:Ec; [|done].
    assert (49 <= c <= 57) as Hc by (rewrite Z.geb_leb in Ec; apply andb_true_iff in Ec; lia).
    destruct (string2ll_digits (c - 48) p) as [[w rest]|] eqn:Ed; [|done].
    destruct rest as [|r rest]; [|done]. cbn [zlen length].
    rewrite Z.gtb_ltb. destruct (Z.ltb_spec (- (LLONG_MIN + 1) + 1) w) as [|Hw]; [done|].
    destruct (string2ll_digits_inv c p w Hc Ed) as [E Hpos]. unfold LLONG_MIN in Hw.
    rewrite i64_u64, i64_small by (unfold is_i64; lia). cbn. intros [= <-].
    split; [unfold is_i64; lia|]. unfold sdec. rewrite (proj2 (Z.ltb_lt _ _)) by lia.
    by rewrite Z.opp_involutive, <- E.
  - destruct s as [|c p]; [done|].
    destruct ((c >=? 49) && (c <=? 57)) eqn:Ec; [|done].
    assert (49 <= c <= 57) as Hc by (rewrite Z.geb_leb in Ec; apply andb_true_iff in Ec; lia).
    destruct (string2ll_digits (c - 48) p) as [[w rest]|] eqn:Ed; [|done].
    destruct rest as [|r rest]; [|done]. cbn [zlen length].
    rewrite Z.gtb_ltb. destruct (Z.ltb_spec LLONG_MAX w) as [|Hw]; [done|].
    destruct (string2ll_digits_inv c p w Hc Ed) as [E Hpos].
    cbn. intros [= <-]. unfold LLONG_MAX in Hw.
    split; [unfold is_i64; lia|]. unfold sdec. by rewrite (proj2 (Z.ltb_ge _ _)) by lia.
Qed.

(** ** Base 16 *)

Definition is_hex (c : Z) : bool := negb (base_16_char_type c =? -1).
Definition hex_val (c : Z) : Z := c - ascii_to_dec (base_16_char_type c).

(** The longest prefix of hexadecimal digits, and its value. *)
Fixpoint hex_prefix (s : list Z) : list Z :=
  match s with
  | [] => []
  | c :: s' => if is_hex c then c :: hex_prefix s' else []
  end.

Definition val_hex (acc : Z) (l : list Z) : Z := fold_left (fun a c => a * 16 + hex_val c) l acc.

Lemma hex_val_range c : is_hex c = true -> 0 <= hex_val c < 16.
Proof.
  unfold is_hex, hex_val, base_16_char_type, safe_is_c_in_range.
  repeat zcase; try discriminate; unfold ascii_to_dec; simpl; lia.
Qed.

Lemma val_hex_ge acc s : 0 <= acc -> acc <= val_hex acc (hex_prefix s).
Proof.
  revert acc. induction s as [|c s IH]; intros acc Ha; simpl; [done|].
  destruct (is_hex c) eqn:E; [|done]. pose proof (hex_val_range c E).
  unfold val_hex in *. simpl. etransitivity; [|apply IH]; lia.
Qed.

Lemma string2ul_base16_loop_spec acc s :
  is_u64 acc ->
  string2ul_base16_loop acc s =
    if val_hex acc (hex_prefix s) <=? ULLONG_MAX then Some (val_hex acc (hex_prefix s)) else None.
Proof.
  unfold is_u64, ULLONG_MAX. revert acc. induction s as [|c s IH]; intros acc Ha; simpl.
  - unfold val_hex. simpl. by zdec.
  - unfold is_hex. destruct (Z.eqb_spec (base_16_char_type c) (-1)) as [|E]; simpl.
    { unfold val_hex; simpl. by zdec. }
    assert (is_hex c = true) as Hc by (unfold is_hex; destruct (Z.eqb_spec (base_16_char_type c) (-1)); done).
    pose proof (hex_val_range c Hc) as Hr. fold (hex_val c).
    change (val_hex acc (c :: hex_prefix s)) with (val_hex (acc * 16 + hex_val c) (hex_prefix s)).
    pose proof (val_hex_ge (acc * 16 + hex_val c) s ltac:(lia)).
    unfold ULLONG_MAX.
    destruct (Z.le_gt_cases (acc * 16 + hex_val c) (2 ^ 64 - 1)).
    + assert (acc <= (2 ^ 64 - 1) / 16) by (apply Z.div_le_lower_bound; lia).
      assert (acc <= (2 ^ 64 - 1 - hex_val c) / 16) by (apply Z.div_le_lower_bound; lia).
      zdec. rewrite u64_small by (unfold is_u64; lia). apply IH. lia.
    + assert ((2 ^ 64 - 1 - hex_val c) / 16 < acc) by (apply Z.div_lt_upper_bound; lia).
      rewrite (proj2 (Z.gtb_lt acc ((2 ^ 64 - 1 - hex_val c) / 16))), orb_true_r by lia.
      by zdec.
Qed.

(** ** Properties *)

(** [string2ll] accepts exactly the canonical decimal texts of the 64-bit
    signed integers (no spaces, no leading zeroes, no "-0", no overflow) and
    returns the number, so the string is recovered from it without loss. *)
Theorem string2ll_iff s v : string2ll s = Some v <-> is_i64 v /\ s = sdec v.
Proof.
  split; [apply string2ll_inv|]. intros [Hv ->]. by apply string2ll_sdec.
Qed.

(** [ll2string] on any buffer and any [long long]: with room for the text
    and its NUL it returns the length, the text is the canonical decimal one,
    NUL terminated, the bytes behind it are untouched and [string2ll] reads
    the number back; without room it returns 0. *)
Theorem ll2string_roundtrip dst v :
  is_i64 v ->
  let '(len, dst') := ll2string dst v in
  if zlen (sdec v) <? zlen dst then
    len = zlen (sdec v) /\
    dst' = sdec v ++ 0 :: drop (Z.to_nat (len + 1)) dst /\
    zlen dst' = zlen dst /\
    string2ll (take (Z.to_nat len) dst') = Some v
  else len = 0.
Proof.
  intros Hv. destruct (Z.ltb_spec (zlen (sdec v)) (zlen dst)) as [Hd|Hd].
  - rewrite ll2string_ok by done. repeat split.
    + rewrite zlen_app, zlen_cons. unfold zlen in *. rewrite length_drop. lia.
    + unfold zlen. rewrite Nat2Z.id, take_app_length. by apply string2ll_sdec.
  - pose proof (ll2string_err dst v Hv Hd). by destruct (ll2string dst v).
Qed.

Lemma ll2string_roundtrip_witness :
  is_i64 (-9223372036854775808) /\
  let '(len, dst') := ll2string (repeat 7 24) (-9223372036854775808) in
  len = 20 /\ string2ll (take (Z.to_nat len) dst') = Some (-9223372036854775808).
Proof.
  assert (is_i64 (-9223372036854775808)) as H by (unfold is_i64; lia). split; [exact H|].
  pose proof (ll2string_roundtrip (repeat 7 24) (-9223372036854775808) H) as R.
  vm_compute in R |- *. tauto.
Defined.

(** [sdigits10] is the length of the text [ll2string] prints, for every
    [long long], [LLONG_MIN] included, and fits the buffers the callers size
    with [LONG_STR_SIZE]. *)
Theorem sdigits10_correct v :
  is_i64 v -> sdigits10 v = zlen (sdec v) /\ 1 <= sdigits10 v < LONG_STR_SIZE.
Proof.
  intros Hv. enough (sdigits10 v = zlen (sdec v)) as ->.
  { split; [done|]. pose proof (sdec_length v Hv). unfold LONG_STR_SIZE. lia. }
  unfold is_i64 in Hv. unfold sdigits10, sdec, LLONG_MIN, LLONG_MAX.
  destruct (Z.ltb_spec v 0).
  - rewrite zlen_cons.
    assert ((if negb (v =? - 2 ^ 63) then u64 (- v) else u64 (2 ^ 63 - 1 + 1)) = - v) as ->.
    { zcase; rewrite u64_small by (unfold is_u64; lia); lia. }
    rewrite digits10_length by (unfold is_u64; lia). lia.
  - rewrite digits10_length by (unfold is_u64; lia). done.
Qed.

Lemma sdigits10_correct_witness : is_i64 LLONG_MIN /\ sdigits10 LLONG_MIN = 20.
Proof.
  assert (is_i64 LLONG_MIN) as H by (unfold is_i64, LLONG_MIN; lia). split; [exact H|].
  destruct (sdigits10_correct LLONG_MIN H) as [E _]. rewrite E. vm_compute. reflexivity.
Defined.

(** the base-16 reader returns the value of the longest hexadecimal prefix
    when it fits 64 bits and reports an overflow otherwise, never a wrapped
    value. *)
Theorem string2ul_base16_correct s :
  string2ul_base16_async_signal_safe s =
    if val_hex 0 (hex_prefix s) <=? ULLONG_MAX then Some (val_hex 0 (hex_prefix s)) else None.
Proof. apply string2ul_base16_loop_spec. unfold is_u64. lia. Qed.
