(* ===== verification/Client.v ===== *)
(** The client and server state the reply path of src/src/networking.c reads
    and writes: client flags and type, the decision to accept output
    ([_prepareClientToWrite]) and the output-buffer limits.

    A [world] is one client with the mutable server fields; what never changes
    while a reply is built is the [config]. The reply-offset bookkeeping of
    debug builds (LOG_REQ_RES) and log lines are left out. *)

From stdpp Require Import base list numbers strings gmap.
From coqutil Require Import Datatypes.RecordSetters.
From S2P Require Import Prelude.
Import TriangleBracketNotations.

Local Open Scope Z_scope.

(** ** Flags (server.h) *)

Definition CLIENT_SLAVE : Z := 2 ^ 0.
Definition CLIENT_MASTER : Z := 2 ^ 1.
Definition CLIENT_MONITOR : Z := 2 ^ 2.
Definition CLIENT_MULTI : Z := 2 ^ 3.
Definition CLIENT_BLOCKED : Z := 2 ^ 4.
Definition CLIENT_CLOSE_AFTER_REPLY : Z := 2 ^ 6.
Definition CLIENT_SCRIPT : Z := 2 ^ 8.
Definition CLIENT_CLOSE_ASAP : Z := 2 ^ 10.
Definition CLIENT_MASTER_FORCE_REPLY : Z := 2 ^ 13.
Definition CLIENT_PUBSUB : Z := 2 ^ 18.
Definition CLIENT_PENDING_WRITE : Z := 2 ^ 21.
Definition CLIENT_REPLY_OFF : Z := 2 ^ 22.
Definition CLIENT_REPLY_SKIP : Z := 2 ^ 24.
Definition CLIENT_MODULE : Z := 2 ^ 27.
Definition CLIENT_DENY_BLOCKING : Z := 2 ^ 41.
Definition CLIENT_PUSHING : Z := 2 ^ 46.
Definition CLIENT_ASM_MIGRATING : Z := 2 ^ 53.
Definition CLIENT_ASM_IMPORTING : Z := 2 ^ 54.

(** [flags & mask], as a condition. *)
Definition has (flags mask : Z) : bool := negb (Z.land flags mask =? 0).

Definition CLIENT_TYPE_NORMAL : Z := 0.
Definition CLIENT_TYPE_SLAVE : Z := 1.
Definition CLIENT_TYPE_PUBSUB : Z := 2.
Definition CLIENT_TYPE_MASTER : Z := 3.

Definition REPL_STATE_NONE : Z := 0.
Definition SLAVE_STATE_ONLINE : Z := 9.
Definition SLAVE_STATE_SEND_BULK_AND_STREAM : Z := 12.

Definition CLIENT_ID_AOF : Z := 2 ^ 64 - 1.
Definition PROTO_REPLY_CHUNK_BYTES : Z := 16 * 1024.

(** ** Output data *)

(** A chunk of an encoded buffer: its header is implied by the constructor.
    [BULK_STR_REF] holds the referenced string and the prebuilt "$len" line. *)
Inductive payload : Type :=
| PLAIN_REPLY (s : list Z)
| BULK_STR_REF (obj prefix : list Z).

(** What a buffer holds, by its [buf_encoded] flag. *)
Inductive bdata : Type :=
| Plain (s : list Z)
| Encoded (ps : list payload).

Record clientReplyBlock : Type := { size : Z; data : bdata }.

Definition sizeof_payloadHeader : Z := 9.
Definition sizeof_bulkStrRef : Z := 8 + 4 + (21 + 3) + 2.
(** [sizeof(listNode) + sizeof(clientReplyBlock)]. *)
Definition list_item_size : Z := 24 + 24.

Definition payload_len (p : payload) : Z :=
  match p with
  | PLAIN_REPLY s => zlen s
  | BULK_STR_REF _ _ => sizeof_bulkStrRef
  end.

Definition chunk_size (p : payload) : Z := sizeof_payloadHeader + payload_len p.

(** The [used] count (or [bufpos]) of a buffer. *)
Definition used (d : bdata) : Z :=
  match d with
  | Plain s => zlen s
  | Encoded ps => zsum (map chunk_size ps)
  end.

Definition buf_encoded (d : bdata) : bool :=
  match d with Plain _ => false | Encoded _ => true end.

(** ** State *)

Record client : Type := {
  id : Z;
  flags : Z;
  io_close_asap : bool;
  conn : bool;
  main_thread : bool;
  resp : Z;
  authenticated : bool;
  replstate : Z;
  repl_start_cmd_stream_on_ack : bool;
  (** what a replica still has to read of the shared replication buffers *)
  repl_pending : bool;
  repl_alloc_size : Z;
  buf : bdata;
  buf_usable_size : Z;
  buf_peak : Z;
  reply : list (option clientReplyBlock);
  reply_bytes : Z;
  reply_bytes_shared : Z;
  net_output_bytes_curr_cmd : Z;
  obuf_soft_limit_reached_time : Z;
  (** [NULL] until the first error of a module client *)
  deferred_reply_errors : option (list (list Z));
  realcmd_failed_calls : Z;
  in_pending_write : bool;
  in_pending_ref_reply : bool
}.

Definition bufpos (c : client) : Z := used (buf c).

Record obuf_limit : Type := {
  hard_limit_bytes : Z;
  soft_limit_bytes : Z;
  soft_limit_seconds : Z
}.

Record config : Type := {
  (** the size zmalloc_usable really returns *)
  usable_size : Z -> Z;
  client_obuf_limits : Z -> obuf_limit;
  repl_backlog_size : Z;
  unixtime : Z;
  default_user_needs_auth : bool;
  reply_copy_avoidance_enabled : bool;
  io_threads_num : Z;
  (** [c == server.current_client] *)
  is_current_client : bool;
  (** [server.executing_client] and whether its command replies by pushing *)
  executing_client : option bool;
  repl_slave_ro : bool;
  propagation_error_behavior : Z
}.

Record server : Type := {
  pending_push_messages : list (option clientReplyBlock);
  stat_client_outbuf_limit_disconnections : Z;
  stat_total_error_replies : Z;
  stat_unexpected_error_replies : Z;
  errors : gmap (list Z) Z;
  errors_enabled : bool;
  panicked : bool
}.

Record world : Type := { srv : server; cl : client }.

(** ** Client type *)

Definition getClientType (c : client) : Z :=
  if has (flags c) CLIENT_MASTER then CLIENT_TYPE_MASTER
  else if has (flags c) CLIENT_SLAVE && negb (has (flags c) CLIENT_MONITOR) then CLIENT_TYPE_SLAVE
  else if has (flags c) CLIENT_PUBSUB then CLIENT_TYPE_PUBSUB
  else CLIENT_TYPE_NORMAL.

Definition clientTypeIsSlave (c : client) : bool :=
  has (flags c) CLIENT_SLAVE &&
  negb (has (flags c) (Z.lor CLIENT_MONITOR CLIENT_ASM_MIGRATING)).

Definition clientHasPendingReplies (c : client) : bool :=
  if clientTypeIsSlave c then repl_pending c
  else negb (bufpos c =? 0) || negb (zlen (reply c) =? 0).

(** ** Accepting output *)

Definition putClientInPendingWriteQueue (c : client) : client :=
  if negb (has (flags c) CLIENT_PENDING_WRITE) &&
     ((replstate c =? REPL_STATE_NONE) ||
      (replstate c =? SLAVE_STATE_SEND_BULK_AND_STREAM) ||
      ((replstate c =? SLAVE_STATE_ONLINE) && negb (repl_start_cmd_stream_on_ack c)))
  then c<| flags := Z.lor (flags c) CLIENT_PENDING_WRITE |><| in_pending_write := true |>
  else c.

(** [_prepareClientToWrite]: [true] is [C_OK]. *)
Definition prepareClientToWrite (c : client) : bool * client :=
  if has (flags c) (Z.lor CLIENT_SCRIPT CLIENT_MODULE) then (true, c)
  else if has (flags c) CLIENT_CLOSE_ASAP then (false, c)
  else if has (flags c) (Z.lor CLIENT_REPLY_OFF CLIENT_REPLY_SKIP) &&
          negb (has (flags c) CLIENT_PUSHING) then (false, c)
  else if has (flags c) CLIENT_MASTER && negb (has (flags c) CLIENT_MASTER_FORCE_REPLY)
  then (false, c)
  else if negb (conn c) then (false, c)
  else if main_thread c && negb (clientHasPendingReplies c)
  then (true, putClientInPendingWriteQueue c)
  else (true, c).

(** ** Output buffer limits *)

Section Limits.
Context (cfg : config).

Definition authRequired (c : client) : bool :=
  default_user_needs_auth cfg && negb (authenticated c).

Definition getClientOutputBufferAllocSize (c : client) : Z :=
  if clientTypeIsSlave c then repl_alloc_size c
  else reply_bytes c + list_item_size * zlen (reply c).

Definition getClientOutputBufferLogicalSize (c : client) : Z :=
  let mem := getClientOutputBufferAllocSize c in
  if negb (clientTypeIsSlave c) then mem + reply_bytes_shared c else mem.

Definition checkClientOutputBufferLimits (c : client) : bool * client :=
  let used_mem := getClientOutputBufferLogicalSize c in
  if (used_mem >? 1024) && authRequired c then (true, c)
  else
    let class :=
      if getClientType c =? CLIENT_TYPE_MASTER then CLIENT_TYPE_NORMAL else getClientType c in
    let lim := client_obuf_limits cfg class in
    let hard_bytes :=
      if (class =? CLIENT_TYPE_SLAVE) && negb (hard_limit_bytes lim =? 0) &&
         (hard_limit_bytes lim <? repl_backlog_size cfg)
      then repl_backlog_size cfg else hard_limit_bytes lim in
    let hard := negb (hard_limit_bytes lim =? 0) && (used_mem >=? hard_bytes) in
    let soft := negb (soft_limit_bytes lim =? 0) && (used_mem >=? soft_limit_bytes lim) in
    if soft then
      if obuf_soft_limit_reached_time c =? 0 then
        (hard, c<| obuf_soft_limit_reached_time := unixtime cfg |>)
      else
        let elapsed := unixtime cfg - obuf_soft_limit_reached_time c in
        (negb (elapsed <=? soft_limit_seconds lim) || hard, c)
    else (hard, c<| obuf_soft_limit_reached_time := 0 |>).

(** The list [server.clients_to_close] is the set of clients that carry the
    flag; the replica's reference on the replication buffer is dropped by
    the flag's owner and is not part of this state. *)
Definition freeClientAsync (c : client) : client :=
  if negb (main_thread c) then c<| io_close_asap := true |>
  else if has (flags c) CLIENT_CLOSE_ASAP || has (flags c) CLIENT_SCRIPT then c
  else c<| flags := Z.lor (flags c) CLIENT_CLOSE_ASAP |>.

(** With [async] set, as the reply path calls it. The assertion that [reply_bytes] is
    less than [SIZE_MAX] by 64 kilobytes is left out: the counter is of memory that was
    allocated. *)
Definition closeClientOnOutputBufferLimitReached (w : world) : world :=
  let c := cl w in
  if negb (conn c) then w
  else if ((reply_bytes c =? 0) && (reply_bytes_shared c =? 0) && negb (clientTypeIsSlave c))
          || has (flags c) CLIENT_CLOSE_ASAP then w
  else
    let '(over, c) := checkClientOutputBufferLimits c in
    if over then
      {| srv := (srv w)<| stat_client_outbuf_limit_disconnections ::= Z.add 1 |>;
         cl := freeClientAsync c |}
    else w<| cl := c |>.
End Limits.

(** ** A new client *)

(** The fields of [createClient] that this development models;
    [clientSetDefaultAuth] authenticates where the default user needs no
    password. *)
Definition createClient (cfg : config) (client_id : Z) (connection : bool) : client := {|
  id := client_id; flags := 0; io_close_asap := false; conn := connection; main_thread := true;
  resp := 2; authenticated := negb (default_user_needs_auth cfg);
  replstate := REPL_STATE_NONE; repl_start_cmd_stream_on_ack := false;
  repl_pending := false; repl_alloc_size := 0;
  buf := Plain []; buf_usable_size := usable_size cfg PROTO_REPLY_CHUNK_BYTES;
  buf_peak := usable_size cfg PROTO_REPLY_CHUNK_BYTES;
  reply := []; reply_bytes := 0; reply_bytes_shared := 0; net_output_bytes_curr_cmd := 0;
  obuf_soft_limit_reached_time := 0; deferred_reply_errors := None; realcmd_failed_calls := 0;
  in_pending_write := false; in_pending_ref_reply := false |}.

(** A server to evaluate with: default settings, no output limits and an
    allocator without slack. *)
Definition example_config : config := {|
  usable_size n := n;
  client_obuf_limits _ := {| hard_limit_bytes := 0; soft_limit_bytes := 0; soft_limit_seconds := 0 |};
  repl_backlog_size := 2 ^ 20; unixtime := 1700000000; default_user_needs_auth := false;
  reply_copy_avoidance_enabled := true; io_threads_num := 1; is_current_client := true;
  executing_client := None; repl_slave_ro := true; propagation_error_behavior := 0 |}.

Definition example_server : server := {|
  pending_push_messages := []; stat_client_outbuf_limit_disconnections := 0;
  stat_total_error_replies := 0; stat_unexpected_error_replies := 0;
  errors := ∅; errors_enabled := true; panicked := false |}.

Definition example_world : world :=
  {| srv := example_server; cl := createClient example_config 7 true |}.

(** Open a world into its fields, so that the record updates compute. *)
Ltac wsimpl :=
  cbn [apply_update constant srv cl id flags io_close_asap conn main_thread resp authenticated
       replstate repl_start_cmd_stream_on_ack repl_pending repl_alloc_size buf buf_usable_size
       buf_peak reply reply_bytes reply_bytes_shared net_output_bytes_curr_cmd
       obuf_soft_limit_reached_time deferred_reply_errors realcmd_failed_calls in_pending_write
       in_pending_ref_reply pending_push_messages stat_client_outbuf_limit_disconnections
       stat_total_error_replies stat_unexpected_error_replies errors errors_enabled panicked
       size data] in *;
  unfold constant in *; cbv beta in *.

Ltac open_world w :=
  let s := fresh "s" in let c := fresh "c" in
  destruct w as [s c]; destruct s; destruct c; wsimpl.
