(* ===== verification/ReplyBuffer.v ===== *)
(** The output buffers of a client (src/src/networking.c, "Low level functions
    to add more data to output buffers" and the deferred replies): the static
    buffer, the list of reply blocks, plain and encoded (copy avoiding)
    chunks, and the NULL placeholder nodes of deferred lengths.

    The abstract view is the byte stream the client will be sent; the theorems
    show that each operation appends exactly its payload to that stream, that
    no buffer is written past its capacity and that the byte accounting used
    by the output limits stays exact. *)

From stdpp Require Import base list numbers strings gmap.
From coqutil Require Import Datatypes.RecordSetters.
From S2P Require Import Prelude Numbers Client.
Import TriangleBracketNotations.

Local Open Scope Z_scope.

(** ** Objects *)

Inductive encoding : Type := OBJ_ENCODING_RAW | OBJ_ENCODING_EMBSTR | OBJ_ENCODING_INT.

(** A string object: [sds_ptr] is the value of a RAW or EMBSTR object,
    [int_ptr] the one of an INT object. *)
Record robj : Type := { enc : encoding; sds_ptr : list Z; int_ptr : Z; refcount : Z }.

Definition OBJ_REFCOUNT_BITS : Z := 23.
Definition OBJ_FIRST_SPECIAL_REFCOUNT : Z := 2 ^ OBJ_REFCOUNT_BITS - 2.

Definition COPY_AVOID_MIN_IO_THREADS : Z := 7.
Definition COPY_AVOID_MIN_STRING_SIZE : Z := 16384.
Definition COPY_AVOID_MIN_STRING_SIZE_THREADED : Z := 65536.

(** ** Last node of a list *)

Fixpoint split_last {A} (x : A) (l : list A) : list A * A :=
  match l with
  | [] => ([], x)
  | y :: l' => let '(i, z) := split_last y l' in (x :: i, z)
  end.

Definition unsnoc {A} (l : list A) : option (list A * A) :=
  match l with [] => None | x :: l' => Some (split_last x l') end.

(** ** Adding to the buffers *)

(** The referenced bytes a chunk adds to [reply_bytes_shared]. *)
Definition shared_len (p : payload) : Z :=
  match p with PLAIN_REPLY _ => 0 | BULK_STR_REF obj _ => zlen obj end.

(** [tryAddPayload] on an encoded buffer of the given size: [None] is a
    return value of 0. The caller adds [shared_len] to the client. *)
Definition tryAddPayload (ps : list payload) (sz : Z) (p : payload) : option (list payload) :=
  if used (Encoded ps) + sizeof_payloadHeader + payload_len p >? sz then None
  else Some (ps ++ [p]).

Definition payload_type_is_ref (p : payload) : bool :=
  match p with PLAIN_REPLY _ => false | BULK_STR_REF _ _ => true end.

Section Buffers.
Context (cfg : config).

(** [to_push] selects [server.pending_push_messages] over [c->reply]. *)
Definition get_list (to_push : bool) (w : world) : list (option clientReplyBlock) :=
  if to_push then pending_push_messages (srv w) else reply (cl w).

Definition set_list (to_push : bool) (l : list (option clientReplyBlock)) (w : world) : world :=
  if to_push then w<| srv -> pending_push_messages := l |> else w<| cl -> reply := l |>.

Definition add_shared (p : payload) (w : world) : world :=
  w<| cl -> reply_bytes_shared ::= Z.add (shared_len p) |>.

(** The [if (len)] part: a new block of at least PROTO_REPLY_CHUNK_BYTES. *)
Definition addNewNode (to_push : bool) (w : world) (p : payload) : world :=
  let len := payload_len p in
  if len =? 0 then w
  else
    let encoded := payload_type_is_ref p in
    let required_size := if encoded then len + sizeof_payloadHeader else len in
    let sz := if required_size <? PROTO_REPLY_CHUNK_BYTES then PROTO_REPLY_CHUNK_BYTES
              else required_size in
    let sz := usable_size cfg (sz + 24) - 24 in
    let add (d : bdata) (w : world) :=
      let w := set_list to_push (get_list to_push w ++ [Some {| size := sz; data := d |}]) w in
      let w := w<| cl -> reply_bytes ::= Z.add sz |> in
      closeClientOnOutputBufferLimitReached cfg w in
    match p with
    | BULK_STR_REF _ _ =>
        match tryAddPayload [] sz p with
        | Some ps => add (Encoded ps) (add_shared p w)
        | None => w<| srv -> panicked := true |> (* serverAssert *)
        end
    | PLAIN_REPLY s => add (Plain s) w
    end.

Definition addReplyPayloadToList (to_push : bool) (w : world) (p : payload) : world :=
  let encoded := payload_type_is_ref p in
  match unsnoc (get_list to_push w) with
  | Some (front, Some tail) =>
      match data tail, p with
      | Encoded ps, _ =>
          match tryAddPayload ps (size tail) p with
          | Some ps =>
              let w := set_list to_push
                         (front ++ [Some {| size := size tail; data := Encoded ps |}]) w in
              let w := add_shared p w in
              if encoded then closeClientOnOutputBufferLimitReached cfg w else w
          | None => addNewNode to_push w p
          end
      | Plain t, PLAIN_REPLY s =>
          let avail := size tail - zlen t in
          let copy := if avail >=? zlen s then zlen s else avail in
          let t := t ++ take (Z.to_nat copy) s in
          let w := set_list to_push (front ++ [Some {| size := size tail; data := Plain t |}]) w in
          addNewNode to_push w (PLAIN_REPLY (drop (Z.to_nat copy) s))
      | Plain _, BULK_STR_REF _ _ => addNewNode to_push w p
      end
  | _ => addNewNode to_push w p
  end.

Definition update_peak (c : client) : client :=
  if buf_peak c <? bufpos c then c<| buf_peak := bufpos c |> else c.

(** [_addReplyPayloadToBuffer]: the length added and the new state. A
    reference is only ever offered to an encoded buffer. *)
Definition addReplyPayloadToBuffer (w : world) (p : payload) : Z * world :=
  let c := cl w in
  if 0 <? zlen (reply c) then (0, w)
  else
    match buf c, p with
    | Encoded ps, _ =>
        match tryAddPayload ps (buf_usable_size c) p with
        | None => (0, w)
        | Some ps =>
            let w := add_shared p (w<| cl -> buf := Encoded ps |>) in
            (payload_len p, w<| cl ::= update_peak |>)
        end
    | Plain b, PLAIN_REPLY s =>
        let available := buf_usable_size c - zlen b in
        let reply_len := Z.min available (zlen s) in
        let w := w<| cl -> buf := Plain (b ++ take (Z.to_nat reply_len) s) |> in
        (reply_len, w<| cl ::= update_peak |>)
    | Plain _, BULK_STR_REF _ _ => (0, w)
    end.

Definition addBulkStrRefToBuffer (w : world) (p : payload) : Z * world :=
  let c := cl w in
  if negb (buf_encoded (buf c)) then
    if negb (bufpos c =? 0) then (0, w)
    else
      let '(result, w') := addReplyPayloadToBuffer (w<| cl -> buf := Encoded [] |>) p in
      if result =? 0 then (0, w'<| cl -> buf := Plain [] |>)
      else (result, closeClientOnOutputBufferLimitReached cfg w')
  else
    let '(result, w') := addReplyPayloadToBuffer w p in
    if result =? 0 then (0, w') else (result, closeClientOnOutputBufferLimitReached cfg w').

(** A push message for the client that runs the current command waits for
    that command's reply. *)
Definition defer_push (c : client) : bool :=
  has (flags c) CLIENT_PUSHING && is_current_client cfg &&
  match executing_client cfg with Some push_as_reply => negb push_as_reply | None => false end.

Definition addReplyToBufferOrList (w : world) (s : list Z) : world :=
  let c := cl w in
  if has (flags c) CLIENT_CLOSE_AFTER_REPLY then w
  else if clientTypeIsSlave c then w<| cl ::= freeClientAsync |>
  else
    let w := w<| cl -> net_output_bytes_curr_cmd ::= Z.add (zlen s) |> in
    if defer_push c then addReplyPayloadToList true w (PLAIN_REPLY s)
    else
      let '(reply_len, w) := addReplyPayloadToBuffer w (PLAIN_REPLY s) in
      if zlen s >? reply_len
      then addReplyPayloadToList false w (PLAIN_REPLY (drop (Z.to_nat reply_len) s))
      else w.

(** The [prefix] array has LONG_STR_SIZE + 3 bytes, 21 of which are offered
    to [ll2string]. *)
Definition bulk_prefix (len : Z) : list Z :=
  36 :: ll_text 21 len ++ CRLF.

Definition addBulkStrRefToBufferOrList (w : world) (obj : list Z) (len : Z) : world :=
  if has (flags (cl w)) CLIENT_CLOSE_AFTER_REPLY then w
  else
    let prefix := bulk_prefix len in
    let p := BULK_STR_REF obj prefix in
    let w := w<| cl -> net_output_bytes_curr_cmd ::= Z.add (zlen prefix + len + 2) |> in
    let '(added, w) := addBulkStrRefToBuffer w p in
    let w := if added =? 0 then addReplyPayloadToList false w p else w in
    w<| cl -> in_pending_ref_reply := true |>.

Definition isCopyAvoidPreferred (c : client) (obj : robj) (len : Z) : bool :=
  if negb (conn c) || negb (reply_copy_avoidance_enabled cfg) then false
  else if negb (getClientType c =? CLIENT_TYPE_NORMAL) then false
  else if has (flags c) CLIENT_PUSHING then false
  else if match enc obj with OBJ_ENCODING_RAW => false | _ => true end
          || (refcount obj >=? OBJ_FIRST_SPECIAL_REFCOUNT) then false
  else if io_threads_num cfg >=? COPY_AVOID_MIN_IO_THREADS then true
  else if io_threads_num cfg =? 1 then len >=? COPY_AVOID_MIN_STRING_SIZE
  else len >=? COPY_AVOID_MIN_STRING_SIZE_THREADED.
End Buffers.

(** ** Deferred lengths *)

Section Deferred.
Context (cfg : config).

(** [trimReplyUnusedTailSpace]: the tail block is reallocated to its used
    part when more than a quarter of it is free. *)
Definition trimReplyUnusedTailSpace (w : world) : world :=
  match unsnoc (reply (cl w)) with
  | Some (front, Some tail) =>
      if (size tail - used (data tail) >? size tail / 4) &&
         (used (data tail) <? PROTO_REPLY_CHUNK_BYTES) && negb (buf_encoded (data tail))
      then
        let sz := usable_size cfg (used (data tail) + 24) - 24 in
        w<| cl -> reply := front ++ [Some {| size := sz; data := data tail |}] |>
         <| cl -> reply_bytes := reply_bytes (cl w) + sz - size tail |>
      else w
  | _ => w
  end.

(** [addReplyDeferredLen]: the placeholder is identified by its position,
    [None] is the NULL return of a client that takes no output. *)
Definition addReplyDeferredLen (w : world) : option nat * world :=
  let '(ok, c) := prepareClientToWrite (cl w) in
  let w := w<| cl := c |> in
  if negb ok then (None, w)
  else if clientTypeIsSlave c then (None, w<| cl ::= freeClientAsync |>)
  else
    let w := trimReplyUnusedTailSpace w in
    (Some (length (reply (cl w))), w<| cl -> reply ::= fun l => l ++ [None] |>).

Definition add_output (n : Z) (w : world) : world :=
  w<| cl -> net_output_bytes_curr_cmd ::= Z.add n |>.

(** The second half of [setDeferredReply]: the text still to be placed goes
    in front of the next block or into a block of its own. *)
Definition setDeferredNext (w : world) (l1 : list (option clientReplyBlock))
    (l2 : list (option clientReplyBlock)) (s : list Z) : world :=
  let fresh :=
    let sz := usable_size cfg (zlen s + 24) - 24 in
    let w := add_output (zlen s) w in
    let w := w<| cl -> reply := l1 ++ Some {| size := sz; data := Plain s |} :: l2 |> in
    closeClientOnOutputBufferLimitReached cfg (w<| cl -> reply_bytes ::= Z.add sz |>) in
  match l2 with
  | Some next :: l2' =>
      match data next with
      | Plain t =>
          if (size next - zlen t >=? zlen s) && (zlen t <? PROTO_REPLY_CHUNK_BYTES * 4) then
            (add_output (zlen s) w)
              <| cl -> reply := l1 ++ Some {| size := size next; data := Plain (s ++ t) |} :: l2' |>
          else fresh
      | Encoded _ => fresh
      end
  | _ => fresh
  end.

(** [setDeferredReply]: [None] is a failed assertion (the node at the given
    position is not a placeholder). *)
Definition setDeferredReply (w : world) (node : option nat) (s : list Z) : option world :=
  match node with
  | None => Some w
  | Some i =>
      match reply (cl w) !! i with
      | Some None =>
          let l1 := take i (reply (cl w)) in
          let l2 := drop (S i) (reply (cl w)) in
          match unsnoc l1 with
          | Some (front, Some prev) =>
              match data prev with
              | Plain t =>
                  if zlen t <? size prev then
                    let len_to_copy := if size prev - zlen t >? zlen s then zlen s
                                       else size prev - zlen t in
                    let w := add_output len_to_copy w in
                    let prev' := {| size := size prev;
                                    data := Plain (t ++ take (Z.to_nat len_to_copy) s) |} in
                    let l1 := front ++ [Some prev'] in
                    let s := drop (Z.to_nat len_to_copy) s in
                    if zlen s =? 0 then Some (w<| cl -> reply := l1 ++ l2 |>)
                    else Some (setDeferredNext w l1 l2 s)
                  else Some (setDeferredNext w l1 l2 s)
              | Encoded _ => Some (setDeferredNext w l1 l2 s)
              end
          | _ => Some (setDeferredNext w l1 l2 s)
          end
      | _ => None
      end
  end.
End Deferred.

(** ** The abstract view: the bytes the client will be sent *)

Definition payload_bytes (p : payload) : list Z :=
  match p with
  | PLAIN_REPLY s => s
  | BULK_STR_REF obj prefix => prefix ++ obj ++ CRLF
  end.

Definition data_bytes (d : bdata) : list Z :=
  match d with Plain s => s | Encoded ps => concat (map payload_bytes ps) end.

Definition node_bytes (n : option clientReplyBlock) : list Z :=
  match n with Some b => data_bytes (data b) | None => [] end.

Definition list_bytes (l : list (option clientReplyBlock)) : list Z := concat (map node_bytes l).

Definition stream (c : client) : list Z := data_bytes (buf c) ++ list_bytes (reply c).

Definition push_stream (w : world) : list Z := list_bytes (pending_push_messages (srv w)).

(** ** Invariant *)

Definition payload_shared (d : bdata) : Z :=
  match d with Plain _ => 0 | Encoded ps => zsum (map shared_len ps) end.

Definition node_ok (n : option clientReplyBlock) : Prop :=
  match n with Some b => used (data b) <= size b | None => True end.
Definition node_size (n : option clientReplyBlock) : Z :=
  match n with Some b => size b | None => 0 end.
Definition node_shared (n : option clientReplyBlock) : Z :=
  match n with Some b => payload_shared (data b) | None => 0 end.

Definition list_size (l : list (option clientReplyBlock)) : Z := zsum (map node_size l).
Definition list_shared (l : list (option clientReplyBlock)) : Z := zsum (map node_shared l).

(** No buffer is over-full; [reply_bytes] is the capacity of the blocks that
    are, or will be, on the reply list and [reply_bytes_shared] the number of
    referenced bytes. *)
Record wf (w : world) : Prop := {
  wf_buf : used (buf (cl w)) <= buf_usable_size (cl w);
  wf_reply : Forall node_ok (reply (cl w));
  wf_push : Forall node_ok (pending_push_messages (srv w));
  wf_bytes : reply_bytes (cl w) =
             list_size (reply (cl w)) + list_size (pending_push_messages (srv w));
  wf_shared : reply_bytes_shared (cl w) =
              payload_shared (buf (cl w)) + list_shared (reply (cl w))
              + list_shared (pending_push_messages (srv w))
}.

(** The allocator returns at least what it is asked for. *)
Class UsableSize (cfg : config) : Prop :=
  usable_size_ge : forall n, n <= usable_size cfg n.

Lemma list_size_app l k : list_size (l ++ k) = list_size l + list_size k.
Proof. unfold list_size. by rewrite map_app, zsum_app. Qed.
Lemma list_shared_app l k : list_shared (l ++ k) = list_shared l + list_shared k.
Proof. unfold list_shared. by rewrite map_app, zsum_app. Qed.
Lemma list_bytes_app l k : list_bytes (l ++ k) = list_bytes l ++ list_bytes k.
Proof. unfold list_bytes. by rewrite map_app, concat_app. Qed.
Lemma used_snoc ps p : used (Encoded (ps ++ [p])) = used (Encoded ps) + chunk_size p.
Proof. simpl. rewrite map_app, zsum_app. simpl. lia. Qed.
Lemma payload_shared_snoc ps p :
  payload_shared (Encoded (ps ++ [p])) = payload_shared (Encoded ps) + shared_len p.
Proof. simpl. rewrite map_app, zsum_app. simpl. lia. Qed.
Lemma data_bytes_snoc ps p : data_bytes (Encoded (ps ++ [p])) = data_bytes (Encoded ps) ++ payload_bytes p.
Proof. simpl. by rewrite map_app, concat_app; simpl; rewrite app_nil_r. Qed.

Lemma unsnoc_Some {A} (l front : list A) x : unsnoc l = Some (front, x) -> l = front ++ [x].
Proof.
  destruct l as [|y l]; simpl; [done|]. intros [= H].
  revert y front H. induction l as [|z l IH]; intros y front; simpl.
  - by intros [= <- <-].
  - destruct (split_last z l) as [i u] eqn:E. intros [= <- <-]. simpl. f_equal. by apply IH.
Qed.

Lemma tryAddPayload_Some ps sz p ps' :
  tryAddPayload ps sz p = Some ps' ->
  ps' = ps ++ [p] /\ used (Encoded ps') <= sz.
Proof.
  unfold tryAddPayload. zcase; [done|]. intros [= <-]. split; [done|].
  rewrite used_snoc. unfold chunk_size. lia.
Qed.

(** ** What the operations leave alone *)

(** The two states agree on everything but the output buffers and their
    counters; the write queue may have been joined. *)
Record frame (c c' : client) : Prop := {
  fr_flags : flags c' = flags c \/ flags c' = Z.lor (flags c) CLIENT_PENDING_WRITE;
  fr_conn : conn c' = conn c;
  fr_thread : main_thread c' = main_thread c;
  fr_resp : resp c' = resp c;
  fr_auth : authenticated c' = authenticated c
}.

#[export] Instance frame_refl : Reflexive frame.
Proof. intros c. constructor; auto. Qed.

#[export] Instance frame_trans : Transitive frame.
Proof.
  intros c d e [Hf1 Hc1 Ht1 Hr1 Ha1] [Hf2 Hc2 Ht2 Hr2 Ha2]. constructor; try congruence.
  destruct Hf1 as [E1|E1], Hf2 as [E2|E2]; rewrite E2, E1; auto.
  right. rewrite <- Z.lor_assoc. by rewrite Z.lor_diag.
Qed.

(** The clients whose output is queued in full: fake clients of scripts and
    modules, and connected clients that take replies and whose class has no
    output limit. *)
Definition no_limits (cfg : config) (c : client) : Prop :=
  authRequired cfg c = false /\
  forall class, hard_limit_bytes (client_obuf_limits cfg class) = 0 /\
                soft_limit_bytes (client_obuf_limits cfg class) = 0.

Definition accepts (cfg : config) (c : client) : Prop :=
  has (flags c) CLIENT_CLOSE_AFTER_REPLY = false /\
  clientTypeIsSlave c = false /\
  defer_push cfg c = false /\
  ((has (flags c) (Z.lor CLIENT_SCRIPT CLIENT_MODULE) = true /\ conn c = false) \/
   (fst (prepareClientToWrite c) = true /\ conn c = true /\ no_limits cfg c)).

Lemma has_lor f m k : Z.land k m = 0 -> has (Z.lor f k) m = has f m.
Proof. intros H. unfold has. by rewrite Z.land_lor_distr_l, H, Z.lor_0_r. Qed.

(** No mask that is ever tested contains CLIENT_PENDING_WRITE except the
    queue's own. *)
Lemma frame_has c c' m :
  frame c c' -> Z.land CLIENT_PENDING_WRITE m = 0 -> has (flags c') m = has (flags c) m.
Proof. intros [[->| ->] _ _ _ _] H; [done|by apply has_lor]. Qed.

Lemma frame_prepare c c' :
  frame c c' -> fst (prepareClientToWrite c') = fst (prepareClientToWrite c).
Proof.
  intros F. unfold prepareClientToWrite.
  rewrite !(frame_has c c') by (done || reflexivity). rewrite (fr_conn _ _ F).
  repeat case_match; done.
Qed.

Lemma frame_accepts cfg c c' : frame c c' -> accepts cfg c -> accepts cfg c'.
Proof.
  intros F (H1 & H2 & H3 & H4). unfold accepts, clientTypeIsSlave, defer_push, no_limits, authRequired in *.
  rewrite !(frame_has c c') by (done || reflexivity).
  rewrite (frame_prepare c c' F), (fr_conn _ _ F), (fr_auth _ _ F). auto.
Qed.

(** The two worlds hold the same output. *)
Record same_out (w w' : world) : Prop := {
  so_buf : buf (cl w') = buf (cl w);
  so_usable : buf_usable_size (cl w') = buf_usable_size (cl w);
  so_reply : reply (cl w') = reply (cl w);
  so_bytes : reply_bytes (cl w') = reply_bytes (cl w);
  so_shared : reply_bytes_shared (cl w') = reply_bytes_shared (cl w);
  so_push : pending_push_messages (srv w') = pending_push_messages (srv w);
  so_panicked : panicked (srv w') = panicked (srv w)
}.

Lemma same_out_wf w w' : same_out w w' -> wf w -> wf w'.
Proof. intros [] []. constructor; congruence. Qed.

Lemma same_out_stream w w' : same_out w w' -> stream (cl w') = stream (cl w).
Proof. intros []. unfold stream. congruence. Qed.

#[export] Instance same_out_refl : Reflexive same_out.
Proof. intros w. by constructor. Qed.

Lemma check_limits_same cfg c :
  let '(_, c') := checkClientOutputBufferLimits cfg c in
  c' = c \/ exists t, c' = c<| obuf_soft_limit_reached_time := t |>.
Proof. unfold checkClientOutputBufferLimits. repeat case_match; simplify_eq; eauto. Qed.

Lemma close_same_out cfg w : same_out w (closeClientOnOutputBufferLimitReached cfg w).
Proof.
  unfold closeClientOnOutputBufferLimitReached, freeClientAsync.
  pose proof (check_limits_same cfg (cl w)) as H.
  destruct (checkClientOutputBufferLimits cfg (cl w)) as [over c].
  repeat case_match; destruct H as [->|[t ->]]; by constructor.
Qed.

Lemma check_limits_none cfg c :
  no_limits cfg c -> fst (checkClientOutputBufferLimits cfg c) = false.
Proof.
  intros [Ha Hl]. unfold checkClientOutputBufferLimits. rewrite Ha, andb_false_r.
  match goal with |- context [client_obuf_limits cfg ?k] => destruct (Hl k) as [E1 E2] end.
  rewrite E1, E2. simpl. reflexivity.
Qed.

Lemma close_frame cfg w :
  accepts cfg (cl w) -> frame (cl w) (cl (closeClientOnOutputBufferLimitReached cfg w)).
Proof.
  intros (_ & _ & _ & H). unfold closeClientOnOutputBufferLimitReached.
  destruct H as [[_ ->]|(_ & -> & Hl)]; [reflexivity|]. cbn [negb].
  destruct (_ || _); [reflexivity|].
  pose proof (check_limits_same cfg (cl w)) as Hs.
  pose proof (check_limits_none cfg (cl w) Hl) as Hn.
  destruct (checkClientOutputBufferLimits cfg (cl w)) as [over c]. simpl in Hn. subst over.
  destruct Hs as [->|[t ->]]; constructor; simpl; auto.
Qed.

(** ** Every operation appends its payload *)

Section Append.
Context (cfg : config) `{UsableSize cfg}.

(** [w'] is [w] with [s] appended to the client's stream and [t] to the
    postponed push messages. *)
Record appends (w w' : world) (s t : list Z) : Prop := {
  ap_wf : wf w -> wf w';
  ap_stream : stream (cl w') = stream (cl w) ++ s;
  ap_push : push_stream w' = push_stream w ++ t;
  ap_panicked : panicked (srv w') = panicked (srv w);
  ap_frame : accepts cfg (cl w) -> frame (cl w) (cl w')
}.

Lemma appends_refl w : appends w w [] [].
Proof. constructor; try done; by rewrite app_nil_r. Qed.

Lemma appends_trans w1 w2 w3 s1 s2 t1 t2 :
  appends w1 w2 s1 t1 -> appends w2 w3 s2 t2 -> appends w1 w3 (s1 ++ s2) (t1 ++ t2).
Proof.
  intros [A1 A2 A3 A4 A5] [B1 B2 B3 B4 B5]. constructor; try congruence; auto.
  - by rewrite B2, A2, app_assoc.
  - by rewrite B3, A3, app_assoc.
  - intros Hacc. pose proof (A5 Hacc) as F. etransitivity; [exact F|].
    apply B5. by eapply frame_accepts.
Qed.

(** A step that adds no bytes, after one that does. *)
Lemma appends_silent w1 w2 w3 s t :
  appends w1 w2 s t -> appends w2 w3 [] [] -> appends w1 w3 s t.
Proof. intros A B. pose proof (appends_trans _ _ _ _ _ _ _ A B) as C. by rewrite !app_nil_r in C. Qed.

Lemma close_appends w : appends w (closeClientOnOutputBufferLimitReached cfg w) [] [].
Proof.
  pose proof (close_same_out cfg w) as S. constructor.
  - by apply same_out_wf.
  - by rewrite (same_out_stream _ _ S), app_nil_r.
  - unfold push_stream. by rewrite (so_push _ _ S), app_nil_r.
  - apply S.
  - apply close_frame.
Qed.

(** The bytes go to the list that [to_push] selects. *)
Definition sel (b : bool) (s : list Z) : list Z := if b then s else [].

(** A new block at the end of a list. *)
Lemma push_node_appends to_push w sz d sh :
  used d <= sz -> payload_shared d = sh ->
  appends w
    ((set_list to_push (get_list to_push w ++ [Some {| size := sz; data := d |}])
        (w<| cl -> reply_bytes_shared ::= Z.add sh |>))<| cl -> reply_bytes ::= Z.add sz |>)
    (sel (negb to_push) (data_bytes d)) (sel to_push (data_bytes d)).
Proof.
  intros Hu Hs.
  assert (forall l, Forall node_ok l -> Forall node_ok (l ++ [Some {| size := sz; data := d |}])) as Hok.
  { intros l Hl. apply Forall_app. split; [done|]. by repeat constructor. }
  assert (forall l, list_size (l ++ [Some {| size := sz; data := d |}]) = list_size l + sz) as Hsz.
  { intros l. rewrite list_size_app. unfold list_size. simpl. lia. }
  assert (forall l, list_shared (l ++ [Some {| size := sz; data := d |}]) = list_shared l + sh) as Hsh.
  { intros l. rewrite list_shared_app. unfold list_shared. simpl. lia. }
  assert (forall l, list_bytes (l ++ [Some {| size := sz; data := d |}]) = list_bytes l ++ data_bytes d) as Hby.
  { intros l. rewrite list_bytes_app. unfold list_bytes. simpl. by rewrite app_nil_r. }
  unfold get_list, set_list. open_world w.
  destruct to_push; wsimpl; constructor; wsimpl; try done;
    try (intros [W1 W2 W3 W4 W5]; wsimpl; constructor; wsimpl; auto; rewrite ?Hsz, ?Hsh; lia);
    try (intros _; constructor; auto); unfold stream, push_stream; wsimpl; cbn [sel negb];
    by rewrite ?Hby, ?app_nil_r, ?app_assoc.
Qed.

Lemma usable_ge n m : m <= n -> m <= usable_size cfg (n + 24) - 24.
Proof. intros Hm. pose proof (usable_size_ge (cfg:=cfg) (n + 24)). lia. Qed.

Lemma addNewNode_appends to_push w p :
  appends w (addNewNode cfg to_push w p)
    (sel (negb to_push) (payload_bytes p)) (sel to_push (payload_bytes p)).
Proof.
  unfold addNewNode. destruct (Z.eqb_spec (payload_len p) 0) as [E0|E0].
  { destruct p as [s|obj pre]; [|discriminate E0]. simpl in E0 |- *.
    destruct s; [|unfold zlen in E0; simpl in E0; lia].
    destruct to_push; apply appends_refl. }
  destruct p as [s|obj pre]; cbn [payload_type_is_ref payload_len] in *.
  - set (sz := usable_size cfg _ - 24).
    assert (zlen s <= sz) as Hsz by (subst sz; apply usable_ge; zcase; lia).
    eapply appends_silent; [|apply close_appends].
    pose proof (push_node_appends to_push w sz (Plain s) 0 Hsz eq_refl) as P.
    replace (w<| cl -> reply_bytes_shared ::= Z.add 0 |>) with w in P by (by open_world w).
    exact P.
  - set (sz := usable_size cfg _ - 24).
    assert (sizeof_bulkStrRef + sizeof_payloadHeader <= sz) as Hsz
      by (subst sz; apply usable_ge; zcase; lia).
    unfold tryAddPayload. cbn [used map zsum fold_right payload_len].
    destruct (Z.gtb_spec (0 + sizeof_payloadHeader + sizeof_bulkStrRef) sz) as [Hlt|_]; [lia|].
    eapply appends_silent; [|apply close_appends].
    pose proof (push_node_appends to_push w sz (Encoded [BULK_STR_REF obj pre]) (zlen obj)) as P.
    cbn [data_bytes map concat payload_bytes] in P. rewrite app_nil_r in P.
    replace (get_list to_push (add_shared _ w)) with (get_list to_push w)
      by (unfold get_list, add_shared; by open_world w; destruct to_push).
    apply P.
    + cbn. unfold chunk_size. cbn. unfold sizeof_bulkStrRef, sizeof_payloadHeader in *. lia.
    + cbn. lia.
Qed.

(** The last block of a list filled further. *)
Lemma grow_tail_appends to_push w front b d sh s :
  get_list to_push w = front ++ [Some b] ->
  (used (data b) <= size b -> used d <= size b) ->
  payload_shared d = payload_shared (data b) + sh ->
  data_bytes d = data_bytes (data b) ++ s ->
  appends w
    ((set_list to_push (front ++ [Some {| size := size b; data := d |}]) w)
      <| cl -> reply_bytes_shared ::= Z.add sh |>)
    (sel (negb to_push) s) (sel to_push s).
Proof.
  intros E Hu Hs Hb.
  assert (Forall node_ok (front ++ [Some b]) ->
          Forall node_ok (front ++ [Some {| size := size b; data := d |}])) as Hok.
  { rewrite !Forall_app, !Forall_cons. simpl. intuition auto. }
  assert (list_size (front ++ [Some {| size := size b; data := d |}]) = list_size (front ++ [Some b])) as Hsz.
  { by rewrite !list_size_app. }
  assert (list_shared (front ++ [Some {| size := size b; data := d |}]) =
          list_shared (front ++ [Some b]) + sh) as Hsh.
  { rewrite !list_shared_app. unfold list_shared. simpl. lia. }
  assert (list_bytes (front ++ [Some {| size := size b; data := d |}]) =
          list_bytes (front ++ [Some b]) ++ s) as Hby.
  { rewrite !list_bytes_app. unfold list_bytes. simpl. by rewrite !app_nil_r, Hb, app_assoc. }
  unfold get_list, set_list in *. open_world w.
  destruct to_push; wsimpl; subst; constructor; wsimpl; try done;
    try (intros [W1 W2 W3 W4 W5]; wsimpl; constructor; wsimpl; auto; rewrite ?Hsz, ?Hsh; lia);
    try (intros _; constructor; auto); unfold stream, push_stream; wsimpl; cbn [sel negb];
    by rewrite ?Hby, ?app_nil_r, ?app_assoc.
Qed.

Lemma addReplyPayloadToList_appends to_push w p :
  appends w (addReplyPayloadToList cfg to_push w p)
    (sel (negb to_push) (payload_bytes p)) (sel to_push (payload_bytes p)).
Proof.
  unfold addReplyPayloadToList.
  destruct (unsnoc (get_list to_push w)) as [[front [tail|]]|] eqn:Eu;
    try apply addNewNode_appends.
  apply unsnoc_Some in Eu. destruct (data tail) as [t|ps] eqn:Ed.
  - destruct p as [s|obj pre]; [|apply addNewNode_appends].
    set (copy := if size tail - zlen t >=? zlen s then zlen s else size tail - zlen t).
    pose proof (grow_tail_appends to_push w front tail (Plain (t ++ take (Z.to_nat copy) s)) 0
                  (take (Z.to_nat copy) s) Eu) as G.
    rewrite Ed in G. cbn [payload_bytes].
    replace (sel (negb to_push) s) with
      (sel (negb to_push) (take (Z.to_nat copy) s) ++ sel (negb to_push) (drop (Z.to_nat copy) s))
      by (destruct to_push; simpl; by rewrite ?take_drop).
    replace (sel to_push s) with
      (sel to_push (take (Z.to_nat copy) s) ++ sel to_push (drop (Z.to_nat copy) s))
      by (destruct to_push; simpl; by rewrite ?take_drop).
    eapply appends_trans; [|apply (addNewNode_appends to_push _ (PLAIN_REPLY (drop (Z.to_nat copy) s)))].
    replace (set_list _ _ w) with
      ((set_list to_push (front ++ [Some {| size := size tail; data := Plain (t ++ take (Z.to_nat copy) s) |}]) w)
        <| cl -> reply_bytes_shared ::= Z.add 0 |>)
      by (unfold set_list; destruct to_push; by open_world w).
    apply G; [|done|done].
    simpl. rewrite zlen_app. unfold zlen at 3. rewrite length_take.
    subst copy. unfold zlen in *. zcase; lia.
  - destruct (tryAddPayload ps (size tail) p) as [ps'|] eqn:Et; [|apply addNewNode_appends].
    apply tryAddPayload_Some in Et as [-> Hu].
    assert (appends w (add_shared p (set_list to_push
              (front ++ [Some {| size := size tail; data := Encoded (ps ++ [p]) |}]) w))
              (sel (negb to_push) (payload_bytes p)) (sel to_push (payload_bytes p))) as A.
    { apply (grow_tail_appends to_push w front tail (Encoded (ps ++ [p])) (shared_len p) _ Eu).
      - done.
      - rewrite Ed. apply payload_shared_snoc.
      - rewrite Ed. apply data_bytes_snoc. }
    destruct (payload_type_is_ref p); [|done].
    eapply appends_silent; [exact A|apply close_appends].
Qed.

Lemma update_peak_appends w : appends w (w<| cl ::= update_peak |>) [] [].
Proof.
  unfold update_peak. open_world w.
  destruct (_ <? _); wsimpl; constructor; wsimpl; try done;
    try (by intros []; constructor); try (intros; constructor; auto); by rewrite app_nil_r.
Qed.

(** The static buffer takes a prefix of a plain payload, or a whole chunk. *)
Lemma addReplyPayloadToBuffer_appends w p n w' :
  wf w -> addReplyPayloadToBuffer w p = (n, w') ->
  match p with
  | PLAIN_REPLY s =>
      0 <= n <= zlen s /\ appends w w' (take (Z.to_nat n) s) []
  | BULK_STR_REF _ _ =>
      (n = 0 /\ w' = w) \/ (n = payload_len p /\ appends w w' (payload_bytes p) [])
  end.
Proof.
  intros W. unfold addReplyPayloadToBuffer.
  assert (forall n w', (n, w') = (0, w) ->
    match p with
    | PLAIN_REPLY s => 0 <= n <= zlen s /\ appends w w' (take (Z.to_nat n) s) []
    | BULK_STR_REF _ _ => (n = 0 /\ w' = w) \/ (n = payload_len p /\ appends w w' (payload_bytes p) [])
    end) as Hnone.
  { intros ? ? [= -> ->]. destruct p; [|by left]. split; [pose proof (zlen_nonneg s); lia|]. apply appends_refl. }
  destruct (Z.ltb_spec 0 (zlen (reply (cl w)))) as [|Hr]; [intros [= <- <-]; by apply Hnone|].
  assert (reply (cl w) = []) as Er.
  { destruct (reply (cl w)); [done|]. unfold zlen in Hr. simpl in Hr. lia. }
  destruct W as [W1 W2 W3 W4 W5].
  destruct (buf (cl w)) as [b|ps] eqn:Eb.
  - destruct p as [s|obj pre]; [|intros [= <- <-]; by apply Hnone].
    intros [<- <-]%pair_eq. simpl in W1. pose proof (zlen_nonneg s).
    split; [lia|]. set (k := Z.min _ _).
    assert (zlen (take (Z.to_nat k) s) <= k).
    { unfold zlen. rewrite length_take. subst k. lia. }
    eapply appends_silent; [|apply update_peak_appends]. open_world w. subst. constructor; wsimpl; try done.
    + intros [V1 V2 V3 V4 V5]. wsimpl. constructor; wsimpl; try done.
      simpl. rewrite zlen_app. subst k. lia.
    + unfold stream. wsimpl. simpl. by rewrite !app_nil_r.
    + by rewrite app_nil_r.
    + intros _. constructor; auto.
  - destruct (tryAddPayload ps (buf_usable_size (cl w)) p) as [ps'|] eqn:Et;
      [|intros [= <- <-]; by apply Hnone].
    apply tryAddPayload_Some in Et as [-> Hu]. intros [<- <-]%pair_eq.
    assert (appends w ((add_shared p (w<| cl -> buf := Encoded (ps ++ [p]) |>))<| cl ::= update_peak |>)
              (payload_bytes p) []) as A.
    { eapply appends_silent; [|apply update_peak_appends]. unfold add_shared. open_world w. subst. constructor; wsimpl; try done.
      - intros [V1 V2 V3 V4 V5]. wsimpl. constructor; wsimpl; try done.
        rewrite payload_shared_snoc. lia.
      - unfold stream. wsimpl. rewrite data_bytes_snoc. change (list_bytes []) with (@nil Z).
        by rewrite !app_nil_r.
      - by rewrite app_nil_r.
      - intros _. constructor; auto. }
    destruct p as [s|obj pre].
    + split; [simpl; pose proof (zlen_nonneg s); lia|]. simpl in A |- *.
      unfold zlen. rewrite Nat2Z.id, take_ge by lia. exact A.
    + right. split; [done|exact A].
Qed.

Lemma count_appends w n : appends w (w<| cl -> net_output_bytes_curr_cmd ::= Z.add n |>) [] [].
Proof.
  open_world w. constructor; wsimpl; try done; try (by intros []; constructor);
    try (intros; constructor; auto); by rewrite app_nil_r.
Qed.

Lemma ref_list_appends w : appends w (w<| cl -> in_pending_ref_reply := true |>) [] [].
Proof.
  open_world w. constructor; wsimpl; try done; try (by intros []; constructor);
    try (intros; constructor; auto); by rewrite app_nil_r.
Qed.

(** Where the bytes of a low-level write go. *)
Definition drops (c : client) : bool := has (flags c) CLIENT_CLOSE_AFTER_REPLY || clientTypeIsSlave c.

Lemma addReplyToBufferOrList_appends w s :
  wf w -> drops (cl w) = false ->
  appends w (addReplyToBufferOrList cfg w s)
    (sel (negb (defer_push cfg (cl w))) s) (sel (defer_push cfg (cl w)) s).
Proof.
  intros W D. apply orb_false_iff in D as [D1 D2].
  unfold addReplyToBufferOrList. rewrite D1, D2.
  pose proof (count_appends w (zlen s)) as A0.
  set (w0 := w<| cl -> net_output_bytes_curr_cmd ::= Z.add (zlen s) |>) in *.
  destruct (defer_push cfg (cl w)).
  - apply (appends_trans _ _ _ [] _ [] _ A0 (addReplyPayloadToList_appends true w0 (PLAIN_REPLY s))).
  - destruct (addReplyPayloadToBuffer w0 (PLAIN_REPLY s)) as [n w1] eqn:E1.
    apply addReplyPayloadToBuffer_appends in E1 as [Hn A1]; [|by apply (ap_wf _ _ _ _ A0)].
    pose proof (appends_trans _ _ _ _ _ _ _ A0 A1) as A01.
    cbn [negb sel]. rewrite Z.gtb_ltb. destruct (Z.ltb_spec n (zlen s)) as [Hlt|Hge].
    + pose proof (addReplyPayloadToList_appends false w1 (PLAIN_REPLY (drop (Z.to_nat n) s))) as A2.
      pose proof (appends_trans _ _ _ _ _ _ _ A01 A2) as A012. simpl in A012.
      by rewrite take_drop in A012.
    + simpl in A01. rewrite take_ge in A01; [exact A01|]. unfold zlen in *. lia.
Qed.

(** Copy avoidance: the chunk holds the same bytes the copying path writes. *)
Lemma addBulkStrRefToBuffer_appends w p n w' :
  payload_type_is_ref p = true -> wf w -> addBulkStrRefToBuffer cfg w p = (n, w') ->
  if n =? 0 then appends w w' [] [] else appends w w' (payload_bytes p) [].
Proof.
  intros Hp W. unfold addBulkStrRefToBuffer.
  destruct p as [|obj pre]; [discriminate Hp|]. 
  destruct (buf (cl w)) as [b|ps] eqn:Eb; cbn [buf_encoded negb].
  - unfold bufpos. rewrite Eb. cbn [used].
    destruct (Z.eqb_spec (zlen b) 0) as [Hb|]; cbn [negb];
      [|intros [= <- <-]; apply appends_refl].
    assert (b = []) as -> by (destruct b; [done|unfold zlen in Hb; simpl in Hb; lia]).
    set (w0 := w<| cl -> buf := Encoded [] |>).
    assert (appends w w0 [] []) as A0.
    { subst w0. open_world w. subst. constructor; wsimpl; try done; try (by intros []; constructor);
        try (intros; constructor; auto); by rewrite app_nil_r. }
    destruct (addReplyPayloadToBuffer w0 (BULK_STR_REF obj pre)) as [k w1] eqn:E1.
    apply addReplyPayloadToBuffer_appends in E1; [|by apply (ap_wf _ _ _ _ A0)].
    destruct E1 as [[-> ->]|[-> A1]].
    + intros [<- <-]%pair_eq. simpl.
      match goal with |- appends _ ?w1 _ _ => replace w1 with w end; [apply appends_refl|].
      subst w0. open_world w. by subst.
    + cbn [payload_len]. change (sizeof_bulkStrRef =? 0) with false. cbn iota.
      intros [<- <-]%pair_eq. change (sizeof_bulkStrRef =? 0) with false. cbn iota.
      eapply appends_silent; [|apply close_appends].
      apply (appends_trans _ _ _ [] _ [] _ A0 A1).
  - destruct (addReplyPayloadToBuffer w (BULK_STR_REF obj pre)) as [k w1] eqn:E1.
    apply addReplyPayloadToBuffer_appends in E1; [|done].
    destruct E1 as [[-> ->]|[-> A1]].
    + intros [<- <-]%pair_eq. simpl. apply appends_refl.
    + cbn [payload_len]. change (sizeof_bulkStrRef =? 0) with false. cbn iota.
      intros [<- <-]%pair_eq. change (sizeof_bulkStrRef =? 0) with false. cbn iota.
      eapply appends_silent; [exact A1|apply close_appends].
Qed.

Lemma bulk_prefix_spec len : is_i64 len -> bulk_prefix len = 36 :: sdec len ++ CRLF.
Proof.
  intros Hl. unfold bulk_prefix. by rewrite ll_text_ok by (done || lia).
Qed.

Lemma addBulkStrRefToBufferOrList_appends w obj :
  wf w -> has (flags (cl w)) CLIENT_CLOSE_AFTER_REPLY = false -> is_i64 (zlen obj) ->
  appends w (addBulkStrRefToBufferOrList cfg w obj (zlen obj))
    (36 :: sdec (zlen obj) ++ CRLF ++ obj ++ CRLF) [].
Proof.
  intros W D Hl. unfold addBulkStrRefToBufferOrList. rewrite D.
  rewrite bulk_prefix_spec by done. set (pre := 36 :: sdec (zlen obj) ++ CRLF).
  replace (36 :: sdec (zlen obj) ++ CRLF ++ obj ++ CRLF) with (payload_bytes (BULK_STR_REF obj pre))
    by (subst pre; simpl; by rewrite <- app_assoc).
  pose proof (count_appends w (zlen pre + zlen obj + 2)) as A0.
  destruct (addBulkStrRefToBuffer cfg _ (BULK_STR_REF obj pre)) as [n w1] eqn:E1.
  apply addBulkStrRefToBuffer_appends in E1; [|done|by apply (ap_wf _ _ _ _ A0)].
  eapply appends_silent; [|apply ref_list_appends].
  destruct (n =? 0).
  - pose proof (appends_trans _ _ _ _ _ _ _ A0 E1) as A1.
    apply (appends_trans _ _ _ [] _ [] _ A1 (addReplyPayloadToList_appends false w1 (BULK_STR_REF obj pre))).
  - apply (appends_trans _ _ _ [] _ [] _ A0 E1).
Qed.

(** The reply list replaced by one with [dsz] more bytes of capacity. *)
Lemma replace_reply w l n dsz :
  (Forall node_ok (reply (cl w)) -> Forall node_ok l) ->
  list_size l = list_size (reply (cl w)) + dsz ->
  list_shared l = list_shared (reply (cl w)) ->
  let w' := (add_output n w)<| cl -> reply := l |><| cl -> reply_bytes ::= Z.add dsz |> in
  (wf w -> wf w') /\ stream (cl w') = data_bytes (buf (cl w)) ++ list_bytes l /\
  push_stream w' = push_stream w /\ panicked (srv w') = panicked (srv w) /\ frame (cl w) (cl w').
Proof.
  unfold add_output. open_world w. intros Hok Hsz Hsh. split_and!; wsimpl; auto; [|by constructor; auto].
  - intros [W1 W2 W3 W4 W5]. constructor; wsimpl; auto; lia.
Qed.

Lemma list_bytes_cons n l : list_bytes (n :: l) = node_bytes n ++ list_bytes l.
Proof. done. Qed.

(** The state in which [s] took the place of the placeholder between [l1]
    and [l2]. *)
Definition placed (w w' : world) (l1 l2 : list (option clientReplyBlock)) (s : list Z) : Prop :=
  (wf w -> wf w') /\
  stream (cl w') = data_bytes (buf (cl w)) ++ list_bytes l1 ++ s ++ list_bytes l2 /\
  push_stream w' = push_stream w /\ panicked (srv w') = panicked (srv w) /\
  (accepts cfg (cl w) -> frame (cl w) (cl w')).

Lemma setDeferredNext_spec w l1 l2 s m :
  (Forall node_ok (reply (cl w)) -> Forall node_ok (l1 ++ l2)) ->
  list_size (l1 ++ l2) = list_size (reply (cl w)) ->
  list_shared (l1 ++ l2) = list_shared (reply (cl w)) ->
  placed w (setDeferredNext cfg (add_output m w) l1 l2 s) l1 l2 s.
Proof.
  intros Hok Hsz Hsh. unfold setDeferredNext.
  set (sz := usable_size cfg (zlen s + 24) - 24).
  assert (zlen s <= sz) as Hle by (apply usable_ge; lia).
  assert (placed w (closeClientOnOutputBufferLimitReached cfg
    ((add_output (zlen s) (add_output m w))
       <| cl -> reply := l1 ++ Some {| size := sz; data := Plain s |} :: l2 |>
       <| cl -> reply_bytes ::= Z.add sz |>)) l1 l2 s) as Hfresh.
  { destruct (replace_reply w (l1 ++ Some {| size := sz; data := Plain s |} :: l2) (zlen s + m) sz)
      as (R1 & R2 & R3 & R4 & R5).
    - intros Hr. specialize (Hok Hr). rewrite Forall_app in *. rewrite Forall_cons. simpl. tauto.
    - rewrite list_size_app in *. unfold list_size in *. simpl. lia.
    - rewrite list_shared_app in *. unfold list_shared in *. simpl. lia.
    - replace (add_output (zlen s) (add_output m w)) with (add_output (zlen s + m) w)
        by (unfold add_output; open_world w; wsimpl; do 2 f_equal; lia).
      match type of R2 with stream (cl ?w1) = _ => pose proof (close_appends w1) as C end.
      destruct C as [C1 C2 C3 C4 C5]. split_and!.
      + auto.
      + rewrite C2, app_nil_r, R2, list_bytes_app, list_bytes_cons. done.
      + by rewrite C3, app_nil_r, R3.
      + congruence.
      + intros Ha. etransitivity; [exact R5|]. apply C5. by eapply frame_accepts. }
  destruct l2 as [|[next|] l2]; [exact Hfresh| |exact Hfresh].
  destruct (data next) as [t|] eqn:Ed; [|exact Hfresh].
  destruct ((size next - zlen t >=? zlen s) && (zlen t <? PROTO_REPLY_CHUNK_BYTES * 4)) eqn:Ec;
    [|exact Hfresh].
  apply andb_true_iff in Ec as [Ec _]. rewrite Z.geb_le in Ec.
  destruct (replace_reply w (l1 ++ Some {| size := size next; data := Plain (s ++ t) |} :: l2) (zlen s + m) 0)
    as (R1 & R2 & R3 & R4 & R5).
  - intros Hr. specialize (Hok Hr). rewrite Forall_app, Forall_cons in *. simpl. rewrite zlen_app.
    destruct Hok as (? & ? & ?). split_and!; auto. lia.
  - rewrite list_size_app in *. unfold list_size in *. simpl in *. lia.
  - rewrite list_shared_app in *. unfold list_shared in *. simpl in *. rewrite Ed in Hsh. simpl in Hsh. lia.
  - match goal with |- placed _ ?w2 _ _ _ =>
      match type of R2 with stream (cl ?w1) = _ =>
        assert (w1 = w2) as E by (unfold add_output; open_world w; wsimpl; do 2 f_equal; lia)
      end
    end.
    rewrite E in R1, R2, R3, R4, R5. split_and!; auto.
    rewrite R2, list_bytes_app, !list_bytes_cons. simpl. rewrite Ed. simpl. by rewrite <- app_assoc.
Qed.

Lemma setDeferredReply_placed w l1 l2 s :
  reply (cl w) = l1 ++ None :: l2 ->
  exists w', setDeferredReply cfg w (Some (length l1)) s = Some w' /\ placed w w' l1 l2 s.
Proof.
  intros E. unfold setDeferredReply. rewrite E, list_lookup_middle by done.
  rewrite take_app_length. replace (drop (S (length l1)) (l1 ++ None :: l2)) with l2
    by (rewrite drop_app_ge by lia; by replace (S (length l1) - length l1)%nat with 1%nat by lia).
  assert (Hplain : placed w (setDeferredNext cfg w l1 l2 s) l1 l2 s).
  { replace w with (add_output 0 w) at 2 by (unfold add_output; by open_world w).
    apply setDeferredNext_spec; rewrite E.
    - rewrite !Forall_app, Forall_cons. tauto.
    - rewrite !list_size_app. unfold list_size. simpl. lia.
    - rewrite !list_shared_app. unfold list_shared. simpl. lia. }
  destruct (unsnoc l1) as [[front [prev|]]|] eqn:Eu; try (eexists; by split).
  destruct (data prev) as [t|] eqn:Ed; [|eexists; by split].
  destruct (Z.ltb_spec (zlen t) (size prev)) as [Hroom|]; [|eexists; by split].
  apply unsnoc_Some in Eu. subst l1.
  set (k := if size prev - zlen t >? zlen s then zlen s else size prev - zlen t).
  set (l1' := front ++ [Some {| size := size prev; data := Plain (t ++ take (Z.to_nat k) s) |}]).
  assert (Hok : Forall node_ok (reply (cl w)) -> Forall node_ok (l1' ++ l2)).
  { subst l1'. rewrite E, !Forall_app, !Forall_cons, Forall_nil. intros ((? & ? & _) & _ & ?).
    split_and!; auto. simpl. rewrite zlen_app. unfold zlen at 2. rewrite length_take.
    subst k. unfold zlen in *. zcase; lia. }
  assert (Hsz : list_size (l1' ++ l2) = list_size (reply (cl w))).
  { subst l1'. rewrite E, !list_size_app. unfold list_size. simpl. lia. }
  assert (Hsh : list_shared (l1' ++ l2) = list_shared (reply (cl w))).
  { subst l1'. rewrite E, !list_shared_app. unfold list_shared. simpl. rewrite Ed. simpl. lia. }
  assert (Hby : list_bytes l1' = list_bytes (front ++ [Some prev]) ++ take (Z.to_nat k) s).
  { subst l1'. rewrite !list_bytes_app. unfold list_bytes. simpl. rewrite Ed. simpl.
    by rewrite !app_nil_r, app_assoc. }
  destruct (Z.eqb_spec (zlen (drop (Z.to_nat k) s)) 0) as [Hd|Hd].
  - eexists. split; [reflexivity|].
    assert (drop (Z.to_nat k) s = []) as Hnil
      by (destruct (drop (Z.to_nat k) s); [done|unfold zlen in Hd; simpl in Hd; lia]).
    assert (take (Z.to_nat k) s = s) as Hall.
    { rewrite <- (take_drop (Z.to_nat k) s) at 2. by rewrite Hnil, app_nil_r. }
    destruct (replace_reply w (l1' ++ l2) k 0) as (R1 & R2 & R3 & R4 & R5); [done|lia|done|].
    match goal with |- placed _ ?w2 _ _ _ =>
      match type of R2 with stream (cl ?w1) = _ =>
        assert (w1 = w2) as EE by (unfold add_output; by open_world w)
      end
    end.
    rewrite EE in R1, R2, R3, R4, R5. split_and!; auto.
    by rewrite R2, list_bytes_app, Hby, Hall, <- app_assoc.
  - eexists. split; [reflexivity|].
    destruct (setDeferredNext_spec w l1' l2 (drop (Z.to_nat k) s) k Hok Hsz Hsh)
      as (P1 & P2 & P3 & P4 & P5).
    split_and!; auto. rewrite P2, Hby. rewrite <- (take_drop (Z.to_nat k) s) at 3.
    by rewrite <- !app_assoc.
Qed.

Lemma trim_appends w : appends w (trimReplyUnusedTailSpace cfg w) [] [].
Proof.
  unfold trimReplyUnusedTailSpace.
  destruct (unsnoc (reply (cl w))) as [[front [tail|]]|] eqn:Eu; try apply appends_refl.
  destruct (_ && _ && _); [|apply appends_refl].
  apply unsnoc_Some in Eu. set (sz := usable_size cfg _ - 24).
  assert (used (data tail) <= sz) by (apply usable_ge; lia).
  destruct (replace_reply w (front ++ [Some {| size := sz; data := data tail |}]) 0 (sz - size tail))
    as (R1 & R2 & R3 & R4 & R5).
  - rewrite Eu, !Forall_app, !Forall_cons. simpl. intuition auto.
  - rewrite Eu, !list_size_app. unfold list_size. simpl. lia.
  - rewrite Eu, !list_shared_app. unfold list_shared. simpl. lia.
  - match goal with |- appends _ ?w2 _ _ =>
      match type of R2 with stream (cl ?w1) = _ =>
        assert (w1 = w2) as EE by (unfold add_output; open_world w; wsimpl; do 2 f_equal; lia)
      end
    end.
    rewrite EE in R1, R2, R3, R4, R5. constructor; auto; rewrite ?app_nil_r; auto.
    rewrite R2. unfold stream. rewrite Eu, !list_bytes_app. done.
Qed.

Lemma prepare_frame c : frame c (snd (prepareClientToWrite c)).
Proof.
  unfold prepareClientToWrite, putClientInPendingWriteQueue.
  repeat (case_match; simpl; try reflexivity). constructor; simpl; auto.
Qed.

(** [prepareClientToWrite] does not touch the output. *)
Lemma prepare_appends w : appends w (w<| cl ::= fun c => snd (prepareClientToWrite c) |>) [] [].
Proof.
  pose proof (prepare_frame (cl w)) as F.
  unfold prepareClientToWrite, putClientInPendingWriteQueue in *. open_world w.
  repeat case_match; wsimpl; constructor; wsimpl; try done;
    try (by intros []; constructor); by rewrite app_nil_r.
Qed.
End Append.

(** A new client is well formed, and takes output when it is connected. *)
Lemma createClient_wf cfg s n c :
  UsableSize cfg -> pending_push_messages s = [] -> wf {| srv := s; cl := createClient cfg n c |}.
Proof.
  intros U P. constructor; simpl; rewrite ?P; try done.
  pose proof (usable_size_ge PROTO_REPLY_CHUNK_BYTES). unfold PROTO_REPLY_CHUNK_BYTES, zlen in *. simpl. lia.
Qed.

#[export] Instance example_usable : UsableSize example_config.
Proof. intros n. simpl. lia. Qed.

Lemma example_wf : wf example_world.
Proof. apply createClient_wf; [apply _|done]. Qed.

(** ** Properties *)

(** C17: a write through [_addReplyToBufferOrList] of any length, from any
    well-formed state, leaves every buffer within its capacity and the byte
    accounting exact, and the bytes end up, complete and in order, at the end
    of exactly one place: nowhere for a client that is being closed or a
    replica, the postponed push messages for a push to the executing client,
    and the client's own stream otherwise. *)
Theorem reply_write_refines_append cfg w s :
  UsableSize cfg -> wf w ->
  let w' := addReplyToBufferOrList cfg w s in
  let gone := drops (cl w) in
  let pushed := defer_push cfg (cl w) in
  wf w' /\
  stream (cl w') = stream (cl w) ++ sel (negb gone && negb pushed) s /\
  push_stream w' = push_stream w ++ sel (negb gone && pushed) s.
Proof.
  intros U W w' gone pushed. subst w' gone pushed. destruct (drops (cl w)) eqn:D.
  - cbn [negb andb sel]. rewrite !app_nil_r. unfold drops in D. unfold addReplyToBufferOrList.
    destruct (has (flags (cl w)) CLIENT_CLOSE_AFTER_REPLY); [done|]. simpl in D. rewrite D.
    assert (same_out w (w<| cl ::= freeClientAsync |>)) as S.
    { unfold freeClientAsync. open_world w. repeat case_match; by constructor. }
    split; [by eapply same_out_wf|]. split; [by apply same_out_stream|].
    unfold push_stream. by rewrite (so_push _ _ S).
  - destruct (addReplyToBufferOrList_appends cfg w s W D) as [A1 A2 A3 A4 A5].
    cbn [negb andb]. auto.
Qed.

Lemma reply_write_refines_append_witness :
  stream (cl (addReplyToBufferOrList example_config example_world (bs "+OK"))) = bs "+OK".
Proof.
  destruct (reply_write_refines_append example_config example_world (bs "+OK") example_usable example_wf)
    as (_ & E & _). exact E.
Defined.

(** Copy avoidance is invisible: queueing a string by reference extends the
    stream by exactly the RESP bulk string that the copying path would have
    written, keeps the buffers within capacity and counts the referenced bytes
    towards the client's output limits. *)
Theorem copy_avoidance_transparent cfg w obj :
  UsableSize cfg -> wf w -> has (flags (cl w)) CLIENT_CLOSE_AFTER_REPLY = false ->
  is_i64 (zlen obj) ->
  let w' := addBulkStrRefToBufferOrList cfg w obj (zlen obj) in
  wf w' /\ panicked (srv w') = panicked (srv w) /\
  stream (cl w') = stream (cl w) ++ bs "$" ++ sdec (zlen obj) ++ CRLF ++ obj ++ CRLF.
Proof.
  intros U W D L. destruct (addBulkStrRefToBufferOrList_appends cfg w obj W D L) as [A1 A2 A3 A4 A5].
  auto.
Qed.

Lemma copy_avoidance_transparent_witness :
  stream (cl (addBulkStrRefToBufferOrList example_config example_world (bs "hello") 5))
  = bs "$5" ++ CRLF ++ bs "hello" ++ CRLF.
Proof.
  assert (is_i64 5) as L by (unfold is_i64; lia).
  destruct (copy_avoidance_transparent example_config example_world (bs "hello")
              example_usable example_wf eq_refl L) as (_ & _ & E). exact E.
Defined.

(** A deferred length: the text given later takes the exact place of its
    placeholder, whatever was queued before and after it and however it is
    split over the neighbouring blocks, and never overflows a block. *)
Theorem deferred_reply_in_place cfg w l1 l2 s :
  UsableSize cfg -> wf w -> reply (cl w) = l1 ++ None :: l2 ->
  exists w', setDeferredReply cfg w (Some (length l1)) s = Some w' /\ wf w' /\
    stream (cl w) = data_bytes (buf (cl w)) ++ list_bytes l1 ++ list_bytes l2 /\
    stream (cl w') = data_bytes (buf (cl w)) ++ list_bytes l1 ++ s ++ list_bytes l2.
Proof.
  intros U W E. destruct (setDeferredReply_placed cfg w l1 l2 s E) as (w' & E' & P1 & P2 & _).
  exists w'. split_and!; auto. unfold stream. by rewrite E, list_bytes_app.
Qed.

Lemma deferred_reply_in_place_witness :
  let w := snd (addReplyDeferredLen example_config example_world) in
  exists w', setDeferredReply example_config w (Some 0%nat) (bs "*0") = Some w' /\ stream (cl w') = bs "*0".
Proof.
  assert (wf (snd (addReplyDeferredLen example_config example_world))) as W.
  { constructor; try done; repeat constructor. }
  destruct (deferred_reply_in_place example_config _ [] [] (bs "*0") example_usable W eq_refl)
    as (w' & E & _ & _ & S).
  exists w'. split; [exact E|exact S].
Defined.

