(* ===== verification/Sds.v ===== *)
(** String operations of src/src/sds.c on byte lists. *)

From stdpp Require Import base list numbers strings sets.
From S2P Require Import Prelude.

Local Open Scope Z_scope.

(** [strchr(cset, c) != NULL]: the terminating NUL of [cset] is found too. *)
Definition in_cset (cset : list Z) (c : Z) : bool := existsb (Z.eqb c) cset || (c =? 0).

(** [while (sp <= end && strchr(cset, *sp)) sp++]. *)
Fixpoint trim_left (cset s : list Z) : list Z :=
  match s with
  | [] => []
  | c :: s' => if in_cset cset c then trim_left cset s' else s
  end.

(** [while (ep > sp && strchr(cset, *ep)) ep--]: the byte at [sp] stays. *)
Definition trim_right (cset s : list Z) : list Z :=
  match s with
  | [] => []
  | c :: s' => c :: rev (trim_left cset (rev s'))
  end.

Definition sdstrim (s cset : list Z) : list Z := trim_right cset (trim_left cset s).

Fixpoint mapchar (from to : list Z) (c : Z) : Z :=
  match from, to with
  | f :: from', t :: to' => if c =? f then t else mapchar from' to' c
  | _, _ => c
  end.

(** The [setlen] first bytes of [from] and [to]. *)
Definition sdsmapchars (s from to : list Z) (setlen : nat) : list Z :=
  map (mapchar (take setlen from) (take setlen to)) s.

Definition sdssubstr (s : list Z) (start len : Z) : list Z :=
  let oldlen := zlen s in
  let '(start, len) := if start >=? oldlen then (0, 0) else (start, len) in
  let len := if len >? oldlen - start then oldlen - start else len in
  take (Z.to_nat len) (drop (Z.to_nat start) s).

(** [start] and [end] are [ssize_t]; the call converts to [size_t]. *)
Definition sdsrange (s : list Z) (start en : Z) : list Z :=
  let len := zlen s in
  if len =? 0 then s
  else
    let start := if start <? 0 then i64 (u64 (len + start)) else start in
    let en := if en <? 0 then i64 (u64 (len + en)) else en in
    let newlen := if start >? en then 0 else u64 (en - start + 1) in
    sdssubstr s (u64 start) newlen.

Definition toupper (c : Z) : Z := if (97 <=? c) && (c <=? 122) then c - 32 else c.
Definition tolower (c : Z) : Z := if (65 <=? c) && (c <=? 90) then c + 32 else c.
Definition sdstoupper (s : list Z) : list Z := map toupper s.
Definition sdstolower (s : list Z) : list Z := map tolower s.

(** A NUL-terminated view of a buffer, as [%s] prints it. *)
Fixpoint cstr (s : list Z) : list Z :=
  match s with
  | [] => []
  | c :: s' => if c =? 0 then [] else c :: cstr s'
  end.

(** [strcasecmp(a, b) == 0]. *)
Definition strcaseeq (a b : list Z) : bool :=
  bool_decide (sdstolower (cstr a) = sdstolower (cstr b)).

(** ** Lemmas *)

Lemma trim_left_suffix cset s : exists pre, s = pre ++ trim_left cset s /\ Forall (fun c => in_cset cset c = true) pre.
Proof.
  induction s as [|c s (pre & E & H)]; simpl; [by exists []|].
  destruct (in_cset cset c) eqn:Ec.
  - exists (c :: pre). split; [by rewrite E at 1|by constructor].
  - by exists [].
Qed.

Lemma trim_left_head cset s c r : trim_left cset s = c :: r -> in_cset cset c = false.
Proof.
  induction s as [|x s IH]; simpl; [done|]. destruct (in_cset cset x) eqn:E; [done|].
  by intros [= -> ->].
Qed.

(** Replacing CR and LF leaves neither. *)
Lemma mapchar_crlf c : mapchar CRLF [32; 32] c <> CR /\ mapchar CRLF [32; 32] c <> LF.
Proof. unfold CRLF, CR, LF. simpl. repeat zcase; lia. Qed.

Lemma sdsmapchars_crlf s :
  Forall (fun c => c <> CR /\ c <> LF) (sdsmapchars s CRLF [32; 32] 2).
Proof. unfold sdsmapchars. rewrite Forall_map. apply Forall_true. intros c. apply mapchar_crlf. Qed.

Lemma mapchar_id from to c : ~ c ∈ from -> mapchar from to c = c.
Proof.
  revert to. induction from as [|f from IH]; intros [|t to]; simpl; try done.
  intros Hn. rewrite (proj2 (Z.eqb_neq c f)) by set_solver. apply IH. set_solver.
Qed.

Lemma cstr_no_nul s : c_string (cstr s).
Proof. induction s as [|c s IH]; simpl; [constructor|]. zcase; [constructor|by constructor]. Qed.

Lemma cstr_id s : c_string s -> cstr s = s.
Proof. induction 1 as [|c s Hc _ IH]; simpl; [done|]. by rewrite (proj2 (Z.eqb_neq c 0)), IH. Qed.

Lemma mapchar_nonzero from to c : c <> 0 -> Forall (fun t => t <> 0) to -> mapchar from to c <> 0.
Proof.
  intros Hc H. revert from. induction H as [|t to Ht _ IH]; intros [|f from]; simpl; auto.
  zcase; auto.
Qed.

Lemma trim_left_Forall (P : Z -> Prop) cset s : Forall P s -> Forall P (trim_left cset s).
Proof.
  destruct (trim_left_suffix cset s) as (pre & E & _). rewrite E at 1. by intros [_ H]%Forall_app.
Qed.

(** Trimming only removes bytes. *)
Lemma sdstrim_Forall (P : Z -> Prop) s cset : Forall P s -> Forall P (sdstrim s cset).
Proof.
  intros H. apply (trim_left_Forall P cset) in H. unfold sdstrim, trim_right.
  destruct H as [|c r Hc H]; [done|]. constructor; [done|].
  by apply Forall_rev, trim_left_Forall, Forall_rev.
Qed.
