(* ===== verification/Doubles.v ===== *)
(** Double-precision numbers, as far as replies use them.

    The binary64 type with its classification and the two conversions the
    reply path calls, the shortest-digits printer [fpconv_dtoa] (deps/fpconv)
    and the reader [fast_float_strtod], are the class [Doubles]; [d2string] of
    src/src/util.c is defined on top of it. [DoubleLaws] states what the
    conversions promise. *)

From stdpp Require Import base list numbers strings sets.
From S2P Require Import Prelude Numbers.

Local Open Scope Z_scope.

Definition MAX_D2STRING_CHARS : Z := 128.
Definition MAX_LONG_DOUBLE_CHARS : Z := 5 * 1024.

(** [fpclassify], with the sign where [d2string] asks for it. *)
Inductive dclass : Type := FP_NAN | FP_INFINITE (negative : bool) | FP_ZERO (negative : bool) | FP_OTHER.

Class Doubles : Type := {
  double : Type;
  fpclassify : double -> dclass;
  (** the integer a double is exactly equal to, within the safe range *)
  double2ll : double -> option Z;
  fpconv_dtoa : double -> list Z;
  fast_float_strtod : list Z -> double;
  (** [(double)ll] *)
  double_of_ll : Z -> double
}.

Definition text (s : list Z) : Prop := Forall (fun c => c <> CR /\ c <> LF /\ c <> 0) s.

Section Print.
Context `{D : Doubles}.

(** [d2string]; [buf] has room for the number (a caller's buffer holds at
    least MAX_D2STRING_CHARS bytes). *)
Definition d2string (value : double) : list Z :=
  match fpclassify value with
  | FP_NAN => bs "nan"
  | FP_INFINITE true => bs "-inf"
  | FP_INFINITE false => bs "inf"
  | FP_ZERO true => bs "-0"
  | FP_ZERO false => bs "0"
  | FP_OTHER =>
      match double2ll value with
      | Some lvalue => ll_text (Z.to_nat MAX_D2STRING_CHARS) lvalue
      | None => fpconv_dtoa value
      end
  end.

(** What a number reads back as: the payload of a NaN is not printed. *)
Definition canonical (d : double) : double :=
  match fpclassify d with FP_NAN => fast_float_strtod (bs "nan") | _ => d end.
End Print.

(** [fpconv_dtoa] writes at most 24 bytes of digits, sign, point and
    exponent; every printed form of a number reads back as that number. *)
Class DoubleLaws (D : Doubles) : Prop := {
  double2ll_range d n : double2ll d = Some n -> is_i64 n;
  dtoa_length d : 1 <= zlen (fpconv_dtoa d) <= 24;
  dtoa_text d : text (fpconv_dtoa d);
  strtod_inf d b : fpclassify d = FP_INFINITE b ->
    fast_float_strtod (if b then bs "-inf" else bs "inf") = d;
  strtod_zero d b : fpclassify d = FP_ZERO b ->
    fast_float_strtod (if b then bs "-0" else bs "0") = d;
  strtod_ll d n : fpclassify d = FP_OTHER -> double2ll d = Some n -> fast_float_strtod (sdec n) = d;
  strtod_dtoa d : fpclassify d = FP_OTHER -> fast_float_strtod (fpconv_dtoa d) = d
}.

Lemma sdec_text v : text (sdec v).
Proof.
  assert (forall v, 0 <= v -> text (dec v)) as Hd.
  { intros u Hu. eapply Forall_impl; [by apply dec_digits|].
    unfold is_digit, CR, LF. intros. lia. }
  unfold sdec, text, CR, LF in *.
  destruct (Z.ltb_spec v 0); [constructor; [lia|]|]; apply Hd; lia.
Qed.

Section PrintLaws.
Context {D : Doubles} {L : DoubleLaws D}.

Lemma d2string_ll d n :
  fpclassify d = FP_OTHER -> double2ll d = Some n -> d2string d = sdec n.
Proof.
  intros Hc Hn. unfold d2string. rewrite Hc, Hn.
  apply ll_text_ok; [by eapply double2ll_range|unfold MAX_D2STRING_CHARS; lia].
Qed.

Lemma d2string_cases d :
  d2string d ∈ [bs "nan"; bs "inf"; bs "-inf"; bs "0"; bs "-0"] \/
  (exists n, is_i64 n /\ d2string d = sdec n) \/ d2string d = fpconv_dtoa d.
Proof.
  destruct (fpclassify d) as [| [] | [] |] eqn:Hc;
    try (left; unfold d2string; rewrite Hc; set_unfold; tauto).
  right. destruct (double2ll d) as [n|] eqn:Hn.
  - left. exists n. eauto using double2ll_range, d2string_ll.
  - right. unfold d2string. by rewrite Hc, Hn.
Qed.

Lemma d2string_length d : 1 <= zlen (d2string d) <= 24.
Proof.
  destruct (d2string_cases d) as [H|[(n & Hn & ->)| ->]].
  - set_unfold. destruct_or! H; rewrite H; vm_compute; split; discriminate.
  - pose proof (sdec_length n Hn). lia.
  - apply dtoa_length.
Qed.

Lemma d2string_text d : text (d2string d).
Proof.
  destruct (d2string_cases d) as [H|[(n & Hn & ->)| ->]].
  - set_unfold. destruct_or! H; rewrite H; repeat constructor; discriminate.
  - apply sdec_text.
  - apply dtoa_text.
Qed.

Lemma strtod_d2string d : fast_float_strtod (d2string d) = canonical d.
Proof.
  unfold canonical. destruct (fpclassify d) as [|b|b|] eqn:Hc.
  - unfold d2string. by rewrite Hc.
  - etrans; [|by apply (strtod_inf d b)]. unfold d2string. rewrite Hc. by destruct b.
  - etrans; [|by apply (strtod_zero d b)]. unfold d2string. rewrite Hc. by destruct b.
  - destruct (double2ll d) as [n|] eqn:Hn.
    + rewrite (d2string_ll d n Hc Hn). by apply strtod_ll.
    + unfold d2string. rewrite Hc, Hn. by apply strtod_dtoa.
Qed.
End PrintLaws.

(** ** An instance to evaluate with: a NaN, the infinities and 64-bit integers *)
Module SmallDoubles.
Inductive num : Type := NaN | Inf (negative : bool) | NegZero | Int (z : Z).

(** Integers outside the range print as the range's end. *)
Definition clamp (z : Z) : Z := Z.max LLONG_MIN (Z.min LLONG_MAX z).

Definition t : Type := { n : num | match n with Int z => clamp z =? z | _ => true end = true }.

Definition int (z : Z) : t :=
  match decide ((clamp z =? z) = true) with
  | left H => exist _ (Int z) H
  | right _ => exist _ NaN eq_refl
  end.

Definition read (s : list Z) : t :=
  if decide (s = bs "inf") then exist _ (Inf false) eq_refl
  else if decide (s = bs "-inf") then exist _ (Inf true) eq_refl
  else if decide (s = bs "-0") then exist _ NegZero eq_refl
  else match string2ll s with Some z => int z | None => exist _ NaN eq_refl end.

Definition small_doubles : Doubles := {|
  double := t;
  fpclassify d := match proj1_sig d with
                  | NaN => FP_NAN | Inf b => FP_INFINITE b | NegZero => FP_ZERO true
                  | Int 0 => FP_ZERO false | Int _ => FP_OTHER end;
  double2ll d := match proj1_sig d with Int z => Some z | _ => None end;
  fpconv_dtoa d := match proj1_sig d with Int z => sdec z | _ => bs "nan" end;
  fast_float_strtod := read;
  double_of_ll := int
|}.

Lemma clamp_range z : (clamp z =? z) = true -> is_i64 z.
Proof. unfold clamp, is_i64, LLONG_MIN, LLONG_MAX. lia. Qed.

Lemma read_sdec z (H : (clamp z =? z) = true) : read (sdec z) = exist _ (Int z) H.
Proof.
  pose proof (string2ll_sdec z (clamp_range z H)) as E. unfold read.
  destruct (decide _) as [Hs|_]; [by rewrite Hs in E|].
  destruct (decide _) as [Hs|_]; [by rewrite Hs in E|].
  destruct (decide _) as [Hs|_]; [by rewrite Hs in E|].
  rewrite E. unfold int. destruct (decide _) as [H'|]; [|done]. f_equal. apply proof_irrel.
Qed.

Lemma small_double_laws : DoubleLaws small_doubles.
Proof.
  constructor.
  - intros [[| | |z] H] n; simpl; try done. intros [= <-]. by apply clamp_range.
  - intros [[| | |z] H]; simpl; try (vm_compute; split; discriminate).
    pose proof (sdec_length z (clamp_range z H)). lia.
  - intros [[| | |z] H]; simpl; try (repeat constructor; discriminate). apply sdec_text.
  - intros [[|b'| |[]] H] b; simpl; try done. intros [= ->].
    destruct b; vm_compute; f_equal; apply proof_irrel.
  - intros [[| | |[]] H] b; simpl; try done; intros [= <-];
      vm_compute; f_equal; apply proof_irrel.
  - intros [[| | |z] H] n; simpl; try done. intros _ [= <-]. apply read_sdec.
  - intros [[| | |z] H]; simpl; try done. intros _. apply read_sdec.
Qed.
End SmallDoubles.
