(* ===== verification/Reply.v ===== *)
(** The reply functions commands call (src/src/networking.c, "Higher level
    functions to queue data"): strings, numbers, aggregates headers, errors
    with their statistics, for both protocol versions. Each is given as a
    function on the [world] of Client.v, and shown to add to the client's
    stream exactly the protocol text it stands for. *)

From stdpp Require Import base list numbers strings gmap.
From coqutil Require Import Datatypes.RecordSetters.
From S2P Require Import Prelude Numbers Client ReplyBuffer Sds Doubles.
Import TriangleBracketNotations.

Local Open Scope Z_scope.

Definition OBJ_SHARED_BULKHDR_LEN : Z := 32.
Definition OBJ_SHARED_HDR_STRLEN (l : Z) : Z := if l <? 10 then 4 else 5.

Definition ERR_REPLY_FLAG_NO_STATS_UPDATE : Z := 1.
Definition PROPAGATION_ERR_BEHAVIOR_IGNORE : Z := 0.
Definition PROPAGATION_ERR_BEHAVIOR_PANIC : Z := 1.
Definition PROPAGATION_ERR_BEHAVIOR_PANIC_ON_REPLICAS : Z := 2.
Definition ERROR_STATS_NUMBER : Z := 128.

(** [createObject(OBJ_STRING, sdsnew(s))]. *)
Definition stringObject (s : list Z) : robj :=
  {| enc := OBJ_ENCODING_RAW; sds_ptr := s; int_ptr := 0; refcount := 1 |}.

(** Entries of [createSharedObjects]. *)
Definition shared_czero : robj := stringObject (bs ":0" ++ CRLF).
Definition shared_cone : robj := stringObject (bs ":1" ++ CRLF).
Definition shared_hdr (prefix j : Z) : robj := stringObject (prefix :: sdec j ++ CRLF).

Definition sdsEncodedObject (o : robj) : bool :=
  match enc o with OBJ_ENCODING_INT => false | _ => true end.

Definition serverPanic (w : world) : world := w<| srv -> panicked := true |>.

(** ** Error statistics (server.c) *)

Definition resetErrorTableStats (s : server) : server :=
  s<| errors := ∅ |><| errors_enabled := true |>.

Definition errors_add (name : list Z) (s : server) : server :=
  match errors s !! name with
  | None => s<| errors := <[name := 1]> (errors s) |>
  | Some count => s<| errors := <[name := count + 1]> (errors s) |>
  end.

(** The inner call for ERRORSTATS_DISABLED runs on an empty table, so it
    takes the insertion branch. *)
Definition incrementErrorCount (name : list Z) (s : server) : server :=
  if negb (errors_enabled s) then s
  else
    match errors s !! name with
    | None =>
        if Z.of_nat (base.size (errors s)) >=? ERROR_STATS_NUMBER then
          (errors_add (bs "ERRORSTATS_DISABLED") (resetErrorTableStats s))<| errors_enabled := false |>
        else errors_add name s
    | Some _ => errors_add name s
    end.

(** [memchr(s, c, n)]: the offset found. *)
Fixpoint memchr (s : list Z) (c : Z) (n : nat) : option nat :=
  match n, s with
  | S n', x :: s' => if x =? c then Some 0%nat else S <$> memchr s' c n'
  | _, _ => None
  end.

(** The error code of an error text. *)
Definition error_code (s : list Z) : list Z :=
  if negb (hd 0 s =? 45) then bs "ERR"
  else
    let len := zlen s in
    match memchr s 32 (Z.to_nat (if len <? 32 then len else 32)) with
    | Some errEndPos => take (errEndPos - 1) (drop 1 s)
    | None => bs "ERR"
    end.

Section Api.
Context (cfg : config).

Definition ready (w : world) (k : world -> world) : world :=
  let '(ok, c) := prepareClientToWrite (cl w) in
  let w := w<| cl := c |> in
  if ok then k w else w.

(** ** Plain output *)

Definition addReply (w : world) (obj : robj) : world :=
  ready w (fun w =>
    if sdsEncodedObject obj then addReplyToBufferOrList cfg w (sds_ptr obj)
    else addReplyToBufferOrList cfg w (ll_text 32 (int_ptr obj))).

Definition addReplySds (w : world) (s : list Z) : world :=
  ready w (fun w => addReplyToBufferOrList cfg w s).

Definition addReplyProto (w : world) (s : list Z) : world :=
  ready w (fun w => addReplyToBufferOrList cfg w s).

(** ** Errors and statuses *)

Definition addReplyErrorLength (w : world) (s : list Z) : world :=
  let w := if (zlen s =? 0) || negb (hd 0 s =? 45) then addReplyProto w (bs "-ERR ") else w in
  let w := addReplyProto w s in
  addReplyProto w CRLF.

Definition afterErrorReply (w : world) (s : list Z) (fl : Z) : world :=
  let c := cl w in
  if has (flags c) CLIENT_MODULE then
    w<| cl -> deferred_reply_errors := Some (default [] (deferred_reply_errors c) ++ [s]) |>
  else
    let w :=
      if negb (has fl ERR_REPLY_FLAG_NO_STATS_UPDATE) then
        w<| srv ::= fun v => incrementErrorCount (error_code s)
                               (v<| stat_total_error_replies ::= Z.add 1 |>) |>
      else w<| cl -> realcmd_failed_calls ::= Z.add 1 |> in
    let ctype := getClientType c in
    if (ctype =? CLIENT_TYPE_MASTER) || (ctype =? CLIENT_TYPE_SLAVE) || (id c =? CLIENT_ID_AOF) then
      let w := w<| srv -> stat_unexpected_error_replies ::= Z.add 1 |> in
      let behavior := propagation_error_behavior cfg in
      let panic_in_replicas :=
        (ctype =? CLIENT_TYPE_MASTER) && repl_slave_ro cfg &&
        ((behavior =? PROPAGATION_ERR_BEHAVIOR_PANIC) ||
         (behavior =? PROPAGATION_ERR_BEHAVIOR_PANIC_ON_REPLICAS)) in
      let panic_in_aof := (id c =? CLIENT_ID_AOF) && (behavior =? PROPAGATION_ERR_BEHAVIOR_PANIC) in
      if panic_in_replicas || panic_in_aof then serverPanic w else w
    else w.

(** The object ends in CRLF. *)
Definition addReplyErrorObject (w : world) (err : robj) : world :=
  let w := addReply w err in
  afterErrorReply w (take (length (sds_ptr err) - 2) (sds_ptr err)) 0.

Definition addReplyOrErrorObject (w : world) (r : robj) : world :=
  if negb (sdsEncodedObject r) then serverPanic w
  else
    let rep := sds_ptr r in
    if (zlen rep >? 1) && (hd 0 rep =? 45) then addReplyErrorObject w r else addReply w r.

Definition addReplyError (w : world) (err : list Z) : world :=
  let w := addReplyErrorLength w (cstr err) in
  afterErrorReply w (cstr err) 0.

Definition addReplyErrorSdsEx (w : world) (err : list Z) (fl : Z) : world :=
  let w := addReplyErrorLength w err in
  afterErrorReply w err fl.

Definition addReplyErrorSds (w : world) (err : list Z) : world := addReplyErrorSdsEx w err 0.

Definition addReplyErrorSdsSafe (w : world) (err : list Z) : world :=
  addReplyErrorSdsEx w (sdsmapchars err CRLF (bs "  ") 2) 0.

(** [s] is the formatted text. *)
Definition addReplyErrorFormatInternal (w : world) (fl : Z) (s : list Z) : world :=
  let s := sdstrim s CRLF in
  let s := sdsmapchars s CRLF (bs "  ") 2 in
  let w := addReplyErrorLength w s in
  afterErrorReply w s fl.

Definition addReplyErrorFormat (w : world) (s : list Z) : world := addReplyErrorFormatInternal w 0 s.

Definition addReplyErrorArity (w : world) (fullname : list Z) : world :=
  addReplyErrorFormat w (bs "wrong number of arguments for '" ++ cstr fullname ++ bs "' command").

Definition addReplyStatusLength (w : world) (s : list Z) : world :=
  let w := addReplyProto w (bs "+") in
  let w := addReplyProto w s in
  addReplyProto w CRLF.

Definition addReplyStatus (w : world) (status : list Z) : world := addReplyStatusLength w (cstr status).

(** ** Integers and aggregate headers *)

Definition addReplyLongLongSharedHdr (w : world) (ll prefix : Z) (shared : Z -> robj) : world :=
  if (ll <? OBJ_SHARED_BULKHDR_LEN) && (ll >=? 0) then
    addReplyToBufferOrList cfg w (take (Z.to_nat (OBJ_SHARED_HDR_STRLEN ll)) (sds_ptr (shared ll)))
  else addReplyToBufferOrList cfg w (prefix :: ll_text 127 ll ++ CRLF).

Definition addReplyLongLongBulk (w : world) (ll : Z) : world :=
  addReplyLongLongSharedHdr w ll 36 (shared_hdr 36).

Definition addReplyLongLongMBulk (w : world) (ll : Z) : world :=
  addReplyLongLongSharedHdr w ll 42 (shared_hdr 42).

Definition addReplyLongLongWithPrefix (w : world) (ll prefix : Z) : world :=
  let opt_hdr := (ll <? OBJ_SHARED_BULKHDR_LEN) && (ll >=? 0) in
  let hdr (p : Z) :=
    addReplyToBufferOrList cfg w (take (Z.to_nat (OBJ_SHARED_HDR_STRLEN ll)) (sds_ptr (shared_hdr p ll))) in
  if (prefix =? 42) && opt_hdr then hdr 42
  else if (prefix =? 36) && opt_hdr then hdr 36
  else if (prefix =? 37) && opt_hdr then hdr 37
  else if (prefix =? 126) && opt_hdr then hdr 126
  else addReplyToBufferOrList cfg w (prefix :: ll_text 127 ll ++ CRLF).

Definition addReplyLongLong (w : world) (ll : Z) : world :=
  if ll =? 0 then addReply w shared_czero
  else if ll =? 1 then addReply w shared_cone
  else ready w (fun w => addReplyLongLongWithPrefix w ll 58).

Definition addReplyLongLongFromStr (w : world) (str : robj) : world :=
  let w := addReplyProto w (bs ":") in
  let w := addReply w str in
  addReplyProto w CRLF.

Definition addReplyAggregateLen (w : world) (len prefix : Z) : world :=
  if len <? 0 then serverPanic w
  else ready w (fun w => addReplyLongLongWithPrefix w len prefix).

Definition addReplyArrayLen (w : world) (len : Z) : world :=
  if len <? 0 then serverPanic w else ready w (fun w => addReplyLongLongMBulk w len).

Definition addReplyMapLen (w : world) (len : Z) : world :=
  let prefix := if resp (cl w) =? 2 then 42 else 37 in
  let len := if resp (cl w) =? 2 then i64 (len * 2) else len in
  addReplyAggregateLen w len prefix.

Definition addReplySetLen (w : world) (len : Z) : world :=
  addReplyAggregateLen w len (if resp (cl w) =? 2 then 42 else 126).

Definition addReplyAttributeLen (w : world) (len : Z) : world :=
  if resp (cl w) <? 3 then serverPanic w else addReplyAggregateLen w len 124.

Definition addReplyPushLen (w : world) (len : Z) : world :=
  if resp (cl w) <? 3 then serverPanic w
  else if negb (has (flags (cl w)) CLIENT_PUSHING) then serverPanic w
  else addReplyAggregateLen w len 62.

Definition addReplyNull (w : world) : world :=
  if resp (cl w) =? 2 then addReplyProto w (bs "$-1" ++ CRLF) else addReplyProto w (bs "_" ++ CRLF).

Definition addReplyBool (w : world) (b : bool) : world :=
  if resp (cl w) =? 2 then addReply w (if b then shared_cone else shared_czero)
  else addReplyProto w ((if b then bs "#t" else bs "#f") ++ CRLF).

Definition addReplyNullArray (w : world) : world :=
  if resp (cl w) =? 2 then addReplyProto w (bs "*-1" ++ CRLF) else addReplyProto w (bs "_" ++ CRLF).

(** ** Deferred aggregate lengths *)

Definition setDeferredAggregateLen (w : world) (node : option nat) (len prefix : Z) : option world :=
  if len <? 0 then None
  else
    match node with
    | None => Some w
    | Some _ =>
        let opt_hdr := len <? OBJ_SHARED_BULKHDR_LEN in
        let hdr (p : Z) :=
          setDeferredReply cfg w node
            (take (Z.to_nat (OBJ_SHARED_HDR_STRLEN len)) (sds_ptr (shared_hdr p len))) in
        if (prefix =? 42) && opt_hdr then hdr 42
        else if (prefix =? 37) && opt_hdr then hdr 37
        else if (prefix =? 126) && opt_hdr then hdr 126
        else setDeferredReply cfg w node (prefix :: sdec len ++ CRLF)
    end.

Definition setDeferredArrayLen (w : world) (node : option nat) (len : Z) : option world :=
  setDeferredAggregateLen w node len 42.

Definition setDeferredMapLen (w : world) (node : option nat) (len : Z) : option world :=
  let prefix := if resp (cl w) =? 2 then 42 else 37 in
  let len := if resp (cl w) =? 2 then i64 (len * 2) else len in
  setDeferredAggregateLen w node len prefix.

Definition setDeferredSetLen (w : world) (node : option nat) (len : Z) : option world :=
  setDeferredAggregateLen w node len (if resp (cl w) =? 2 then 42 else 126).

Definition setDeferredAttributeLen (w : world) (node : option nat) (len : Z) : option world :=
  if resp (cl w) <? 3 then None else setDeferredAggregateLen w node len 124.

Definition setDeferredPushLen (w : world) (node : option nat) (len : Z) : option world :=
  if resp (cl w) <? 3 then None else setDeferredAggregateLen w node len 62.

(** ** Bulk strings *)

Definition stringObjectLen (o : robj) : Z :=
  if sdsEncodedObject o then zlen (sds_ptr o) else sdigits10 (int_ptr o).

Definition addReplyBulkLen (w : world) (obj : robj) : world :=
  ready w (fun w => addReplyLongLongBulk w (stringObjectLen obj)).

(** [Some] is [C_OK]. *)
Definition tryAvoidBulkStrCopyToReply (w : world) (obj : robj) (len : Z) : option world :=
  if negb (isCopyAvoidPreferred cfg (cl w) obj len) then None
  else Some (addBulkStrRefToBufferOrList cfg w (sds_ptr obj) len).

Definition addReplyBulkWithFlag (w : world) (obj : robj) (avoid_copy : bool) : world :=
  ready w (fun w =>
    if sdsEncodedObject obj then
      let len := zlen (sds_ptr obj) in
      match (if avoid_copy then tryAvoidBulkStrCopyToReply w obj len else None) with
      | Some w => w
      | None =>
          let w := addReplyLongLongBulk w len in
          let w := addReplyToBufferOrList cfg w (sds_ptr obj) in
          addReplyToBufferOrList cfg w CRLF
      end
    else
      let buf := ll_text 34 (int_ptr obj) in
      let w := addReplyLongLongBulk w (zlen buf) in
      addReplyToBufferOrList cfg w (buf ++ CRLF)).

Definition addReplyBulk (w : world) (obj : robj) : world := addReplyBulkWithFlag w obj true.

Definition addReplyBulkCBuffer (w : world) (p : list Z) : world :=
  ready w (fun w =>
    let w := addReplyLongLongBulk w (zlen p) in
    let w := addReplyToBufferOrList cfg w p in
    addReplyToBufferOrList cfg w CRLF).

Definition addReplyBulkSds (w : world) (s : list Z) : world :=
  ready w (fun w =>
    let w := addReplyLongLongWithPrefix w (zlen s) 36 in
    let w := addReplyToBufferOrList cfg w s in
    addReplyToBufferOrList cfg w CRLF).

(** [None] is a NULL pointer. *)
Definition addReplyBulkCString (w : world) (s : option (list Z)) : world :=
  match s with None => addReplyNull w | Some s => addReplyBulkCBuffer w (cstr s) end.

Definition addReplyBulkLongLong (w : world) (ll : Z) : world := addReplyBulkCBuffer w (ll_text 64 ll).

(** ** Big numbers, verbatim strings, doubles *)

Definition addReplyBigNum (w : world) (num : list Z) : world :=
  if resp (cl w) =? 2 then addReplyBulkCBuffer w num
  else
    let w := addReplyProto w (bs "(") in
    let w := addReplyProto w num in
    addReplyProto w CRLF.

Definition addReplyUnsignedLongLong (w : world) (v : Z) : world :=
  if v <=? LLONG_MAX then addReplyLongLong w v
  else
    let '(len, b) := ull2string (repeat 0 21) v in
    addReplyBigNum w (take (Z.to_nat len) b).

(** The three bytes of the extension, padded with spaces. *)
Fixpoint ext_bytes (n : nat) (ext : list Z) : list Z :=
  match n with
  | O => []
  | S n' =>
      match ext with
      | c :: ext' => if c =? 0 then 32 :: ext_bytes n' ext else c :: ext_bytes n' ext'
      | [] => 32 :: ext_bytes n' []
      end
  end.

Definition addReplyVerbatim (w : world) (s ext : list Z) : world :=
  if resp (cl w) =? 2 then addReplyBulkCBuffer w s
  else
    let w := addReplyProto w (bs "=" ++ dec (u64 (zlen s + 4)) ++ CRLF ++ ext_bytes 3 ext ++ bs ":") in
    let w := addReplyProto w s in
    addReplyProto w CRLF.
End Api.

(** The digits of the bulk length, written right to left before position 5 of
    the header area: [for (i = digits, val = dlen; val && i > 0; --i, val /= 10)]. *)
Fixpoint put_digits (i : nat) (val start : Z) (dbuf : list Z) : list Z :=
  match i with
  | O => dbuf
  | S i' =>
      if val =? 0 then dbuf
      else put_digits i' (val / 10) start (<[(Z.to_nat start + i)%nat := 48 + val mod 10]> dbuf)
  end.

(** The header area of the buffer, "$<dlen>" right-aligned before CRLF, with
    the offset at which it starts. *)
Definition double_hdr (dlen : Z) : Z * list Z :=
  let digits := digits10 dlen in
  let start := 4 - digits in
  let hdr := <[Z.to_nat start := 36]> (repeat 0 7) in
  let hdr := put_digits (Z.to_nat digits) dlen start hdr in
  (start, <[6%nat := LF]> (<[5%nat := CR]> hdr)).

Definition addReplyDouble `{D : Doubles} (cfg : config) (w : world) (d : double) : world :=
  if resp (cl w) =? 3 then addReplyProto cfg w (bs "," ++ d2string d ++ CRLF)
  else
    let '(start, hdr) := double_hdr (zlen (d2string d)) in
    if start <? 0 then serverPanic w
    else addReplyProto cfg w (drop (Z.to_nat start) (hdr ++ d2string d ++ CRLF)).

(** ** Commands' use of the functions *)

Definition addReplyStatusFormat (cfg : config) (w : world) (s : list Z) : world :=
  addReplyStatusLength cfg w s.

(** [addExtendedReplyHelp]; [help] and [extended_help] are the strings before
    the NULL sentinels, [None] is a failed assertion of the deferred length. *)
Definition addExtendedReplyHelp (cfg : config) (w : world) (argv0 : list Z)
    (help : list (list Z)) (extended_help : option (list (list Z))) : option world :=
  let cmd := sdstoupper (cstr argv0) in
  let '(blenp, w) := addReplyDeferredLen cfg w in
  let w := addReplyStatusFormat cfg w
             (cmd ++ bs " <subcommand> [<arg> [value] [opt] ...]. Subcommands are:") in
  let w := foldl (addReplyStatus cfg) w help in
  let w := foldl (addReplyStatus cfg) w (default [] extended_help) in
  let w := addReplyStatus cfg w (bs "HELP") in
  let w := addReplyStatus cfg w (bs "    Print this help.") in
  setDeferredArrayLen cfg w blenp (zlen help + zlen (default [] extended_help) + 1 + 2).

Definition deferredAfterErrorReply (cfg : config) (w : world) (errs : list (list Z)) : world :=
  foldl (fun w err => afterErrorReply cfg w err 0) w errs.

(** [AddReplyFromClient]: the destination's world, the source and the pair
    afterwards. The early exits leave the source alone; [src->bufpos = 0]
    empties a plain buffer. The source is a fake client, which never turns its
    buffer into an encoded one. *)
Definition AddReplyFromClient (cfg : config) (w : world) (src : client) : world * client :=
  if has (flags src) CLIENT_CLOSE_ASAP then (w<| cl ::= freeClientAsync |>, src)
  else
    let raw := match buf src with Plain s => s | Encoded ps => [] end in
    let w := addReplyProto cfg w raw in
    let '(ok, c) := prepareClientToWrite (cl w) in
    let w := w<| cl := c |> in
    if negb ok then (w, src)
    else if has (flags (cl w)) CLIENT_CLOSE_AFTER_REPLY then (w, src)
    else
      let w := w<| cl -> reply ::= fun l => l ++ reply src |> in
      let src' := src<| reply := [] |> in
      if negb (reply_bytes_shared src =? 0) then (serverPanic w, src')
      else
        let w := w<| cl -> reply_bytes ::= Z.add (reply_bytes src) |> in
        let src' := src'<| reply_bytes := 0 |><| buf := Plain [] |> in
        let '(w, src') :=
          match deferred_reply_errors src with
          | Some errs => (deferredAfterErrorReply cfg w errs, src'<| deferred_reply_errors := None |>)
          | None => (w, src')
          end in
        (closeClientOnOutputBufferLimitReached cfg w, src').

(** ** What the functions send *)

Definition enc_line (prefix : Z) (s : list Z) : list Z := prefix :: s ++ CRLF.
Definition enc_num (prefix n : Z) : list Z := enc_line prefix (sdec n).
Definition enc_bulk (s : list Z) : list Z := enc_num 36 (zlen s) ++ s ++ CRLF.
Definition enc_error (s : list Z) : list Z :=
  (if (zlen s =? 0) || negb (hd 0 s =? 45) then bs "-ERR " else []) ++ s ++ CRLF.
Definition enc_verbatim (ext s : list Z) : list Z :=
  enc_num 61 (zlen s + 4) ++ ext ++ bs ":" ++ s ++ CRLF.

Section Sent.
Context (cfg : config) `{U : UsableSize cfg}.

(** From [w0], the bytes [s] were queued in full and in order, and [w] can
    take more. *)
Record sent (w0 w : world) (s : list Z) : Prop := {
  se_wf : wf w;
  se_accepts : accepts cfg (cl w);
  se_resp : resp (cl w) = resp (cl w0);
  se_appends : appends cfg w0 w s []
}.

Lemma sent_refl w : wf w -> accepts cfg (cl w) -> sent w w [].
Proof. intros. constructor; auto using appends_refl. Qed.

Lemma sent_step w0 w w' s t : sent w0 w s -> appends cfg w w' t [] -> sent w0 w' (s ++ t).
Proof.
  intros [W A R E] B. pose proof (ap_frame _ _ _ _ _ B A) as F. constructor.
  - by apply (ap_wf _ _ _ _ _ B).
  - by eapply frame_accepts.
  - by rewrite (fr_resp _ _ F).
  - exact (appends_trans _ _ _ _ _ _ _ _ E B).
Qed.

Lemma sent_silent w0 w w' s : sent w0 w s -> appends cfg w w' [] [] -> sent w0 w' s.
Proof. intros S A. rewrite <- (app_nil_r s). by eapply sent_step. Qed.

Lemma sent_eq w0 w s t : sent w0 w s -> s = t -> sent w0 w t.
Proof. by intros ? <-. Qed.

Lemma same_out_appends w w' : same_out w w' -> frame (cl w) (cl w') -> appends cfg w w' [] [].
Proof.
  intros S F. constructor; rewrite ?app_nil_r; eauto using same_out_wf, same_out_stream, so_panicked.
  unfold push_stream. by rewrite (so_push _ _ S).
Qed.

Lemma write_sent w0 w s t : sent w0 w s -> sent w0 (addReplyToBufferOrList cfg w t) (s ++ t).
Proof.
  intros S. apply (sent_step _ w); [done|]. destruct (se_accepts _ _ _ S) as (H1 & H2 & H3 & _).
  pose proof (addReplyToBufferOrList_appends cfg w t (se_wf _ _ _ S)) as A.
  unfold drops in A. rewrite H1, H2, H3 in A. by apply A.
Qed.

Lemma accepts_prepare c : accepts cfg c -> fst (prepareClientToWrite c) = true.
Proof.
  intros (_ & _ & _ & [[H _]|[H _]]); [|done]. unfold prepareClientToWrite. by rewrite H.
Qed.

Lemma ready_sent w0 w s t k :
  sent w0 w s -> (forall w', sent w0 w' s -> sent w0 (k w') t) -> sent w0 (ready w k) t.
Proof.
  intros S H. unfold ready. pose proof (accepts_prepare _ (se_accepts _ _ _ S)) as E.
  pose proof (prepare_appends cfg w) as A.
  destruct (prepareClientToWrite (cl w)) as [ok c] eqn:P. simpl in E. subst ok.
  apply H. eapply sent_silent; [done|].
  replace (w<| cl := c |>) with (w<| cl ::= fun c => snd (prepareClientToWrite c) |>); [done|].
  open_world w. by rewrite P.
Qed.
End Sent.

Create HintDb reply discriminated.
#[export] Hint Resolve write_sent : reply.

(** Proves [sent] of a composition from the lemmas of its parts, up to
    reassociation of the text. *)
Ltac sends :=
  eapply sent_eq; [eauto 12 with reply | repeat (rewrite <- ?app_assoc; simpl); try done].

Section SentOps.
Context (cfg : config) `{U : UsableSize cfg}.

Definition obj_text (o : robj) : list Z := if sdsEncodedObject o then sds_ptr o else sdec (int_ptr o).

(** An object as the server makes them: the integer fits a [long], the string
    a [ssize_t]. *)
Definition obj_ok (o : robj) : Prop := is_i64 (int_ptr o) /\ is_i64 (zlen (sds_ptr o)).

Lemma proto_sent w0 w s t : sent cfg w0 w s -> sent cfg w0 (addReplyProto cfg w t) (s ++ t).
Proof. intros S. eapply ready_sent; eauto with reply. Qed.

Lemma addReply_sent w0 w s o : obj_ok o -> sent cfg w0 w s -> sent cfg w0 (addReply cfg w o) (s ++ obj_text o).
Proof.
  intros [Hi _] S. eapply ready_sent; [done|]. intros w' S'. unfold obj_text.
  destruct (sdsEncodedObject o); [|rewrite ll_text_ok by (done || lia)]; eauto with reply.
Qed.

Lemma sharedHdr_text p n :
  0 <= n < OBJ_SHARED_BULKHDR_LEN ->
  take (Z.to_nat (OBJ_SHARED_HDR_STRLEN n)) (sds_ptr (shared_hdr p n)) = enc_num p n.
Proof.
  intros Hn. apply take_ge.
  assert ((zlen (sdec n) + 3 <=? OBJ_SHARED_HDR_STRLEN n) = true) as H.
  { revert n Hn. by apply (forall_range (fun n => _) 0 32). }
  unfold zlen in H. simpl. rewrite length_app. simpl. lia.
Qed.

Lemma sharedHdr_sent w0 w s n p :
  is_i64 n -> sent cfg w0 w s ->
  sent cfg w0 (addReplyLongLongSharedHdr cfg w n p (shared_hdr p)) (s ++ enc_num p n).
Proof.
  intros Hn S. unfold addReplyLongLongSharedHdr.
  destruct ((n <? OBJ_SHARED_BULKHDR_LEN) && (n >=? 0)) eqn:E.
  - rewrite sharedHdr_text by lia. eauto with reply.
  - rewrite ll_text_ok by (done || lia). unfold enc_num, enc_line. eauto with reply.
Qed.

Lemma withPrefix_sent w0 w s n p :
  is_i64 n -> sent cfg w0 w s -> sent cfg w0 (addReplyLongLongWithPrefix cfg w n p) (s ++ enc_num p n).
Proof.
  intros Hn S. unfold addReplyLongLongWithPrefix.
  destruct ((n <? OBJ_SHARED_BULKHDR_LEN) && (n >=? 0)) eqn:E.
  - rewrite !sharedHdr_text by lia. rewrite ll_text_ok by (done || lia).
    repeat (zcase; simpl; [subst; eauto with reply|]). unfold enc_num, enc_line. eauto with reply.
  - rewrite !andb_false_r, ll_text_ok by (done || lia). unfold enc_num, enc_line. eauto with reply.
Qed.
End SentOps.
#[export] Hint Resolve proto_sent addReply_sent sharedHdr_sent withPrefix_sent : reply.

Section SentValues.
Context (cfg : config) `{U : UsableSize cfg}.

Lemma stringObject_ok s : is_i64 (zlen s) -> obj_ok (stringObject s).
Proof. intros H. split; [unfold is_i64; simpl; lia|done]. Qed.

Lemma longLong_sent w0 w s n :
  is_i64 n -> sent cfg w0 w s -> sent cfg w0 (addReplyLongLong cfg w n) (s ++ enc_num 58 n).
Proof.
  intros Hn S. unfold addReplyLongLong. repeat zcase; subst.
  - apply (addReply_sent cfg _ _ _ shared_czero); [apply stringObject_ok; unfold is_i64, zlen; simpl; lia|done].
  - apply (addReply_sent cfg _ _ _ shared_cone); [apply stringObject_ok; unfold is_i64, zlen; simpl; lia|done].
  - eapply ready_sent; eauto with reply.
Qed.

Lemma aggregate_sent w0 w s n p :
  is_i64 n -> 0 <= n -> sent cfg w0 w s -> sent cfg w0 (addReplyAggregateLen cfg w n p) (s ++ enc_num p n).
Proof. intros Hn H0 S. unfold addReplyAggregateLen. zdec. eapply ready_sent; eauto with reply. Qed.

Lemma array_sent w0 w s n :
  is_i64 n -> 0 <= n -> sent cfg w0 w s -> sent cfg w0 (addReplyArrayLen cfg w n) (s ++ enc_num 42 n).
Proof.
  intros Hn H0 S. unfold addReplyArrayLen, addReplyLongLongMBulk. zdec. eapply ready_sent; eauto with reply.
Qed.

Definition enc_map_len (r n : Z) : list Z := if r =? 2 then enc_num 42 (n * 2) else enc_num 37 n.
Definition enc_set_len (r n : Z) : list Z := enc_num (if r =? 2 then 42 else 126) n.

Lemma map_sent w0 w s n :
  0 <= n < 2 ^ 62 -> sent cfg w0 w s ->
  sent cfg w0 (addReplyMapLen cfg w n) (s ++ enc_map_len (resp (cl w0)) n).
Proof.
  intros Hn S. unfold addReplyMapLen, enc_map_len. rewrite (se_resp _ _ _ _ S).
  zcase; [rewrite i64_small by (unfold is_i64; lia)|]; apply aggregate_sent; (done || unfold is_i64; lia).
Qed.

Lemma set_sent w0 w s n :
  is_i64 n -> 0 <= n -> sent cfg w0 w s ->
  sent cfg w0 (addReplySetLen cfg w n) (s ++ enc_set_len (resp (cl w0)) n).
Proof. intros. unfold addReplySetLen. erewrite se_resp by done. by apply aggregate_sent. Qed.

Lemma attribute_sent w0 w s n :
  is_i64 n -> 0 <= n -> resp (cl w0) = 3 -> sent cfg w0 w s ->
  sent cfg w0 (addReplyAttributeLen cfg w n) (s ++ enc_num 124 n).
Proof.
  intros Hn H0 Hr S. unfold addReplyAttributeLen. rewrite (se_resp _ _ _ _ S), Hr. simpl.
  by apply aggregate_sent.
Qed.

Definition enc_null (r : Z) : list Z := (if r =? 2 then bs "$-1" else bs "_") ++ CRLF.
Definition enc_null_array (r : Z) : list Z := (if r =? 2 then bs "*-1" else bs "_") ++ CRLF.
Definition enc_bool (r : Z) (b : bool) : list Z :=
  (if r =? 2 then if b then bs ":1" else bs ":0" else if b then bs "#t" else bs "#f") ++ CRLF.

Lemma null_sent w0 w s : sent cfg w0 w s -> sent cfg w0 (addReplyNull cfg w) (s ++ enc_null (resp (cl w0))).
Proof.
  intros S. unfold addReplyNull, enc_null. rewrite (se_resp _ _ _ _ S). zcase; auto with reply.
Qed.

Lemma nullArray_sent w0 w s :
  sent cfg w0 w s -> sent cfg w0 (addReplyNullArray cfg w) (s ++ enc_null_array (resp (cl w0))).
Proof.
  intros S. unfold addReplyNullArray, enc_null_array. rewrite (se_resp _ _ _ _ S). zcase; auto with reply.
Qed.

Lemma bool_sent w0 w s b :
  sent cfg w0 w s -> sent cfg w0 (addReplyBool cfg w b) (s ++ enc_bool (resp (cl w0)) b).
Proof.
  intros S. unfold addReplyBool, enc_bool. rewrite (se_resp _ _ _ _ S). zcase; [|auto with reply].
  destruct b; [apply (addReply_sent cfg _ _ _ shared_cone)|apply (addReply_sent cfg _ _ _ shared_czero)];
    (done || apply stringObject_ok; unfold is_i64, zlen; simpl; lia).
Qed.

Lemma bulkCBuffer_sent w0 w s p :
  is_i64 (zlen p) -> sent cfg w0 w s -> sent cfg w0 (addReplyBulkCBuffer cfg w p) (s ++ enc_bulk p).
Proof.
  intros Hp S. eapply ready_sent; [done|]. intros w' S'. unfold enc_bulk. sends.
Qed.

Lemma bulkSds_sent w0 w s p :
  is_i64 (zlen p) -> sent cfg w0 w s -> sent cfg w0 (addReplyBulkSds cfg w p) (s ++ enc_bulk p).
Proof.
  intros Hp S. eapply ready_sent; [done|]. intros w' S'. unfold enc_bulk. sends.
Qed.

(** The reference path and the copying path send the same. *)
Lemma bulk_sent w0 w s o b :
  obj_ok o -> sent cfg w0 w s -> sent cfg w0 (addReplyBulkWithFlag cfg w o b) (s ++ enc_bulk (obj_text o)).
Proof.
  intros [Hi Hs] S. eapply ready_sent; [done|]. clear w S. intros w S. unfold obj_text, enc_bulk.
  destruct (sdsEncodedObject o).
  - destruct (if b then _ else None) as [w'|] eqn:E; [|unfold addReplyLongLongBulk; sends].
    destruct b; [|done]. unfold tryAvoidBulkStrCopyToReply in E.
    destruct (negb _); [done|]. injection E as <-.
    eapply sent_step; [done|]. unfold enc_num, enc_line.
    rewrite <- app_comm_cons, <- !app_assoc.
    apply addBulkStrRefToBufferOrList_appends; try done; apply S.
  - rewrite ll_text_ok by (done || lia). pose proof (sdec_length _ Hi).
    assert (is_i64 (zlen (sdec (int_ptr o)))) by (unfold is_i64; lia). unfold addReplyLongLongBulk. sends.
Qed.
End SentValues.
#[export] Hint Resolve longLong_sent aggregate_sent array_sent map_sent set_sent attribute_sent
  null_sent nullArray_sent bool_sent bulkCBuffer_sent bulkSds_sent bulk_sent : reply.

Section SentTexts.
Context (cfg : config) `{U : UsableSize cfg}.

Definition enc_bignum (r : Z) (num : list Z) : list Z :=
  if r =? 2 then enc_bulk num else enc_line 40 num.

Lemma bigNum_sent w0 w s num :
  is_i64 (zlen num) -> sent cfg w0 w s ->
  sent cfg w0 (addReplyBigNum cfg w num) (s ++ enc_bignum (resp (cl w0)) num).
Proof.
  intros Hn S. unfold addReplyBigNum, enc_bignum, enc_line. rewrite (se_resp _ _ _ _ S).
  zcase; [auto with reply|sends].
Qed.

Lemma unsignedLongLong_sent w0 w s v :
  is_u64 v -> sent cfg w0 w s ->
  sent cfg w0 (addReplyUnsignedLongLong cfg w v)
    (s ++ if v <=? LLONG_MAX then enc_num 58 v else enc_bignum (resp (cl w0)) (dec v)).
Proof.
  intros Hv S. unfold addReplyUnsignedLongLong, is_u64, LLONG_MAX in *. zcase.
  - apply longLong_sent; (done || unfold is_i64; lia).
  - pose proof (dec_length_bound v Hv).
    rewrite ull2string_ok by (done || change (zlen (repeat 0 21)) with 21; lia).
    unfold zlen at 1. rewrite Nat2Z.id, take_app_length. apply bigNum_sent; [unfold is_i64; lia|done].
Qed.

Lemma ext_bytes_length n ext : length (ext_bytes n ext) = n.
Proof.
  revert ext. induction n as [|n IH]; intros [|c ext]; simpl; auto. case_match; simpl; auto.
Qed.

Lemma verbatim_sent w0 w s p ext :
  is_i64 (zlen p) -> sent cfg w0 w s ->
  sent cfg w0 (addReplyVerbatim cfg w p ext)
    (s ++ if resp (cl w0) =? 2 then enc_bulk p else enc_verbatim (ext_bytes 3 ext) p).
Proof.
  intros Hp S. unfold addReplyVerbatim. rewrite (se_resp _ _ _ _ S). zcase; [auto with reply|].
  pose proof (zlen_nonneg p). unfold is_i64 in Hp.
  rewrite u64_small by (unfold is_u64; lia).
  unfold enc_verbatim, enc_num, enc_line, sdec. rewrite (proj2 (Z.ltb_ge (zlen p + 4) 0)) by lia. sends.
Qed.

Lemma double_hdr_spec n :
  1 <= n <= 24 -> let '(start, hdr) := double_hdr n in
  0 <= start <= zlen hdr /\ drop (Z.to_nat start) hdr = enc_num 36 n.
Proof.
  intros Hn.
  assert ((let '(start, hdr) := double_hdr n in
           (0 <=? start) && (start <=? zlen hdr) &&
           bool_decide (drop (Z.to_nat start) hdr = enc_num 36 n)) = true) as H.
  { assert (1 <= n < 1 + 24) as Hr by lia. clear Hn. revert n Hr. by apply (forall_range (fun n => _) 1 24). }
  destruct (double_hdr n). rewrite !andb_true_iff, bool_decide_eq_true in H.
  destruct H as [[H1 H2] H3]. split; [lia|done].
Qed.

Lemma double_sent {D : Doubles} {L : DoubleLaws D} w0 w s d :
  sent cfg w0 w s ->
  sent cfg w0 (addReplyDouble cfg w d)
    (s ++ if resp (cl w0) =? 3 then enc_line 44 (d2string d) else enc_bulk (d2string d)).
Proof.
  intros S. unfold addReplyDouble. rewrite (se_resp _ _ _ _ S). zcase; [unfold enc_line; auto with reply|].
  pose proof (double_hdr_spec _ (d2string_length d)) as H.
  destruct (double_hdr (zlen (d2string d))) as [start hdr]. destruct H as [H1 H2]. zdec.
  rewrite drop_app_le by (unfold zlen in H1; lia). rewrite H2. unfold enc_bulk. sends.
Qed.

Lemma status_sent w0 w s t :
  sent cfg w0 w s -> sent cfg w0 (addReplyStatusLength cfg w t) (s ++ enc_line 43 t).
Proof. intros S. unfold addReplyStatusLength, enc_line. sends. Qed.

Lemma errorLength_sent w0 w s t :
  sent cfg w0 w s -> sent cfg w0 (addReplyErrorLength cfg w t) (s ++ enc_error t).
Proof.
  intros S. unfold addReplyErrorLength, enc_error. destruct (_ || _); sends.
Qed.
End SentTexts.
#[export] Hint Resolve bigNum_sent unsignedLongLong_sent verbatim_sent double_sent status_sent
  errorLength_sent : reply.

(** ** Errors *)

Lemma errors_add_eq n s :
  errors_add n s = s<| errors := <[n := default 0 (errors s !! n) + 1]> (errors s) |>.
Proof. unfold errors_add. by destruct (errors s !! n). Qed.

Lemma incrementErrorCount_out n s :
  pending_push_messages (incrementErrorCount n s) = pending_push_messages s /\
  panicked (incrementErrorCount n s) = panicked s.
Proof.
  unfold incrementErrorCount, resetErrorTableStats. rewrite !errors_add_eq. destruct s; wsimpl.
  destruct (negb errors_enabled); [done|]. destruct (errors !! n); [done|]. by destruct (_ >=? _).
Qed.

(** Errors of a client that is neither our master, a replica nor the AOF
    loader, or with the default propagation-error-behavior, never stop the
    server. *)
Definition quiet (cfg : config) : Prop :=
  propagation_error_behavior cfg = PROPAGATION_ERR_BEHAVIOR_IGNORE.

Lemma afterErrorReply_same cfg w s fl :
  quiet cfg -> let w' := afterErrorReply cfg w s fl in same_out w w' /\ frame (cl w) (cl w').
Proof.
  intros Q w'. subst w'. unfold afterErrorReply. rewrite Q. cbn [andb orb Z.eqb PROPAGATION_ERR_BEHAVIOR_IGNORE
    PROPAGATION_ERR_BEHAVIOR_PANIC PROPAGATION_ERR_BEHAVIOR_PANIC_ON_REPLICAS].
  rewrite !andb_false_r. cbn [orb].
  pose proof (incrementErrorCount_out (error_code s) ((srv w)<| stat_total_error_replies ::= Z.add 1 |>)) as [I1 I2].
  revert I1 I2. generalize (incrementErrorCount (error_code s)) as f.
  intros f I1 I2. repeat case_match; open_world w; split; constructor; wsimpl; auto.
Qed.

Section SentErrors.
Context (cfg : config) `{U : UsableSize cfg} (Q : quiet cfg).

Lemma afterErrorReply_sent w0 w s t fl :
  sent cfg w0 w s -> sent cfg w0 (afterErrorReply cfg w t fl) s.
Proof.
  intros S. eapply sent_silent; [done|].
  destruct (afterErrorReply_same cfg w t fl Q). by apply same_out_appends.
Qed.

Lemma errorObject_sent w0 w s o :
  obj_ok o -> sent cfg w0 w s -> sent cfg w0 (addReplyErrorObject cfg w o) (s ++ obj_text o).
Proof. intros. apply afterErrorReply_sent. by apply addReply_sent. Qed.

Lemma errorSdsEx_sent w0 w s t fl :
  sent cfg w0 w s -> sent cfg w0 (addReplyErrorSdsEx cfg w t fl) (s ++ enc_error t).
Proof. intros. apply afterErrorReply_sent. by apply errorLength_sent. Qed.

Definition one_line (s : list Z) : list Z := sdsmapchars s CRLF (bs "  ") 2.

Lemma errorSdsSafe_sent w0 w s t :
  sent cfg w0 w s -> sent cfg w0 (addReplyErrorSdsSafe cfg w t) (s ++ enc_error (one_line t)).
Proof. intros. by apply errorSdsEx_sent. Qed.

Lemma errorFormat_sent w0 w s t fl :
  sent cfg w0 w s ->
  sent cfg w0 (addReplyErrorFormatInternal cfg w fl t) (s ++ enc_error (one_line (sdstrim t CRLF))).
Proof. intros. apply afterErrorReply_sent. by apply errorLength_sent. Qed.

Lemma error_sent w0 w s t :
  sent cfg w0 w s -> sent cfg w0 (addReplyError cfg w t) (s ++ enc_error (cstr t)).
Proof. intros. apply afterErrorReply_sent. by apply errorLength_sent. Qed.
End SentErrors.
#[export] Hint Resolve errorObject_sent errorSdsEx_sent errorSdsSafe_sent errorFormat_sent error_sent : reply.

(** ** Writes keep the placeholders in place *)

(** With a placeholder queued, nothing before it changes. *)
Definition keeps (w w' : world) : Prop :=
  forall l1 l2, reply (cl w) = l1 ++ None :: l2 ->
    buf (cl w') = buf (cl w) /\ exists l2', reply (cl w') = l1 ++ None :: l2'.

Lemma keeps_refl w : keeps w w.
Proof. intros l1 l2 E. eauto. Qed.

Lemma keeps_trans w1 w2 w3 : keeps w1 w2 -> keeps w2 w3 -> keeps w1 w3.
Proof.
  intros H1 H2 l1 l2 E. destruct (H1 _ _ E) as (B1 & l2' & E1).
  destruct (H2 _ _ E1) as (B2 & l2'' & E2). split; [congruence|eauto].
Qed.

Lemma keeps_same w w' : buf (cl w') = buf (cl w) -> reply (cl w') = reply (cl w) -> keeps w w'.
Proof. intros B R l1 l2 E. rewrite R. eauto. Qed.

Lemma keeps_snoc w w' n :
  buf (cl w') = buf (cl w) -> reply (cl w') = reply (cl w) ++ [n] -> keeps w w'.
Proof.
  intros B R l1 l2 E. split; [done|]. exists (l2 ++ [n]). by rewrite R, E, <- app_assoc.
Qed.

(** Only a block at the very end is rewritten. *)
Lemma keeps_tail w w' front b b' :
  reply (cl w) = front ++ [Some b] -> buf (cl w') = buf (cl w) ->
  reply (cl w') = front ++ [Some b'] -> keeps w w'.
Proof.
  intros E B R l1 l2 E2. split; [done|]. rewrite E in E2.
  destruct l2 as [|x l2 _] using rev_ind; [by apply app_inj_tail in E2 as [_ ?]|].
  rewrite app_comm_cons, app_assoc in E2. apply app_inj_tail in E2 as [-> _].
  exists (l2 ++ [Some b']). by rewrite R, <- app_assoc.
Qed.

Lemma close_keeps cfg w : keeps w (closeClientOnOutputBufferLimitReached cfg w).
Proof. destruct (close_same_out cfg w). by apply keeps_same. Qed.

Section Keeps.
Context (cfg : config).

Lemma addNewNode_keeps b w p : keeps w (addNewNode cfg b w p).
Proof.
  unfold addNewNode. destruct (payload_len p =? 0); [apply keeps_refl|].
  set (sz := usable_size cfg _ - 24). destruct p as [s|obj pre].
  - eapply keeps_trans; [|apply close_keeps].
    destruct b; [by apply keeps_same|by eapply keeps_snoc].
  - destruct (tryAddPayload _ _ _); [|by apply keeps_same].
    eapply keeps_trans; [|apply close_keeps].
    destruct b; [by apply keeps_same|by eapply keeps_snoc].
Qed.

Lemma grow_keeps b w front t d :
  get_list b w = front ++ [Some t] -> keeps w (set_list b (front ++ [Some d]) w).
Proof. intros E. destruct b; [by apply keeps_same|by eapply keeps_tail]. Qed.

Lemma addReplyPayloadToList_keeps b w p : keeps w (addReplyPayloadToList cfg b w p).
Proof.
  unfold addReplyPayloadToList.
  destruct (unsnoc (get_list b w)) as [[front [tail|]]|] eqn:Eu; try apply addNewNode_keeps.
  apply unsnoc_Some in Eu. destruct (data tail) as [t|ps].
  - destruct p as [s|obj pre]; [|apply addNewNode_keeps].
    eapply keeps_trans; [by eapply grow_keeps|apply addNewNode_keeps].
  - destruct (tryAddPayload _ _ _) as [ps'|]; [|apply addNewNode_keeps].
    eapply keeps_trans; [by eapply grow_keeps|].
    eapply keeps_trans; [by eapply (keeps_same _ (add_shared p _))|].
    destruct (payload_type_is_ref p); [apply close_keeps|apply keeps_refl].
Qed.

(** The static buffer is bypassed once something is on the list. *)
Lemma addReplyPayloadToBuffer_keeps w p n w' : addReplyPayloadToBuffer w p = (n, w') -> keeps w w'.
Proof.
  unfold addReplyPayloadToBuffer. intros E l1 l2 E2. rewrite E2 in E.
  assert (0 < zlen (l1 ++ None :: l2)) as H.
  { rewrite zlen_app, zlen_cons. pose proof (zlen_nonneg l1). pose proof (zlen_nonneg l2). lia. }
  rewrite (proj2 (Z.ltb_lt _ _)) in E by exact H. apply pair_eq in E as [_ <-]. eauto.
Qed.

Lemma write_keeps w s : keeps w (addReplyToBufferOrList cfg w s).
Proof.
  unfold addReplyToBufferOrList. destruct (has _ _); [apply keeps_refl|].
  destruct (clientTypeIsSlave _).
  { unfold freeClientAsync. open_world w. repeat case_match; by apply keeps_same. }
  eapply keeps_trans; [by apply (keeps_same w (w<| cl -> net_output_bytes_curr_cmd ::= Z.add (zlen s) |>))|].
  destruct (defer_push _ _); [apply addReplyPayloadToList_keeps|].
  destruct (addReplyPayloadToBuffer _ _) as [n w'] eqn:E. apply addReplyPayloadToBuffer_keeps in E.
  zcase; [|done]. eapply keeps_trans; [done|apply addReplyPayloadToList_keeps].
Qed.

Lemma ready_keeps w k : (forall w, keeps w (k w)) -> keeps w (ready w k).
Proof.
  intros Hk. unfold ready. destruct (prepareClientToWrite (cl w)) as [ok c] eqn:E.
  assert (keeps w (w<| cl := c |>)) as K.
  { unfold prepareClientToWrite, putClientInPendingWriteQueue in E.
    apply keeps_same; repeat case_match; simplify_eq; by destruct w. }
  destruct ok; [|done]. eapply keeps_trans; [done|apply Hk].
Qed.

Lemma proto_keeps w s : keeps w (addReplyProto cfg w s).
Proof. apply ready_keeps. intros. apply write_keeps. Qed.

Lemma bulkCBuffer_keeps w p : keeps w (addReplyBulkCBuffer cfg w p).
Proof.
  apply ready_keeps. clear w. intros w. eapply keeps_trans; [|apply write_keeps]. eapply keeps_trans; [|apply write_keeps].
  unfold addReplyLongLongBulk, addReplyLongLongSharedHdr. destruct (_ && _); apply write_keeps.
Qed.

Lemma protos_keeps w ss : keeps w (foldl (addReplyProto cfg) w ss).
Proof.
  revert w. induction ss as [|s ss IH]; intros w; simpl; [apply keeps_refl|].
  eapply keeps_trans; [apply proto_keeps|apply IH].
Qed.
End Keeps.

Section Deferred.
Context (cfg : config) `{U : UsableSize cfg}.

Lemma protos_sent w0 w s ss : sent cfg w0 w s -> sent cfg w0 (foldl (addReplyProto cfg) w ss) (s ++ concat ss).
Proof.
  revert w s. induction ss as [|t ss IH]; intros w s S; simpl; [by rewrite app_nil_r|].
  rewrite app_assoc. apply IH. auto with reply.
Qed.

Lemma deferredLen_sent w0 w s :
  sent cfg w0 w s ->
  exists l1 w', addReplyDeferredLen cfg w = (Some (length l1), w') /\ sent cfg w0 w' s /\
    reply (cl w') = l1 ++ [None].
Proof.
  intros S. unfold addReplyDeferredLen.
  pose proof (accepts_prepare _ _ (se_accepts _ _ _ _ S)) as E.
  pose proof (prepare_appends cfg w) as A.
  assert (w<| cl ::= fun c => snd (prepareClientToWrite c) |> = w<| cl := snd (prepareClientToWrite (cl w)) |>)
    as Ew by (by destruct w). rewrite Ew in A. clear Ew.
  destruct (prepareClientToWrite (cl w)) as [ok c]. simpl in E, A. subst ok.
  apply (sent_silent cfg _ _ _ _ S) in A. clear S. cbn [negb].
  destruct (se_accepts _ _ _ _ A) as (_ & Hs & _ & _).
  change (clientTypeIsSlave c = false) in Hs. rewrite Hs.
  pose proof (trim_appends cfg (w<| cl := c |>)) as T.
  set (w2 := trimReplyUnusedTailSpace cfg (w<| cl := c |>)) in *.
  exists (reply (cl w2)), (w2<| cl -> reply ::= fun l => l ++ [None] |>).
  split_and!; [done| |done].
  eapply sent_silent; [by eapply sent_silent|].
  destruct (replace_reply w2 (reply (cl w2) ++ [None]) 0 0) as (R1 & R2 & R3 & R4 & R5).
  - intros. apply Forall_app. by repeat constructor.
  - rewrite list_size_app. done.
  - rewrite list_shared_app. simpl. unfold list_shared at 2. simpl. lia.
  - replace (_ <| cl -> reply_bytes ::= Z.add 0 |>) with (w2<| cl -> reply ::= fun l => l ++ [None] |>) in *
      by (unfold add_output; clearbody w2; by open_world w2).
    constructor; rewrite ?app_nil_r; auto.
    rewrite R2, list_bytes_app. unfold stream, list_bytes at 2. simpl. by rewrite app_nil_r.
Qed.

Lemma setDeferredAggregateLen_text w i n p :
  0 <= n -> is_i64 n ->
  setDeferredAggregateLen cfg w (Some i) n p = setDeferredReply cfg w (Some i) (enc_num p n).
Proof.
  intros H0 Hn. unfold setDeferredAggregateLen. rewrite (proj2 (Z.ltb_ge n 0)) by lia.
  destruct (Z.ltb_spec n OBJ_SHARED_BULKHDR_LEN); [|by rewrite !andb_false_r].
  rewrite !sharedHdr_text by lia. repeat (zcase; [by subst|]). done.
Qed.

(** The header asked for first and written last is in front of everything
    that was written in between. *)
Lemma deferred_filled w0 w1 w2 s t l1 n p :
  0 <= n -> is_i64 n -> sent cfg w0 w1 s -> reply (cl w1) = l1 ++ [None] -> keeps w1 w2 -> sent cfg w0 w2 (s ++ t) ->
  exists w3, setDeferredAggregateLen cfg w2 (Some (length l1)) n p = Some w3 /\ sent cfg w0 w3 (s ++ enc_num p n ++ t).
Proof.
  intros H0 Hn S1 R1 K S2. destruct (K _ _ R1) as (B2 & l2 & R2).
  destruct (setDeferredReply_placed cfg w2 l1 l2 (enc_num p n) R2) as (w3 & E3 & P1 & P2 & P3 & P4 & P5).
  exists w3. rewrite setDeferredAggregateLen_text by done. split; [done|].
  destruct S2 as [W2 A2 Rs2 [_ T2 T3 T4 T5]]. destruct S1 as [_ _ _ [_ T1 _ _ _]].
  unfold stream in T1, T2. rewrite R1, list_bytes_app in T1. rewrite R2, B2, list_bytes_app in T2.
  unfold list_bytes at 2 in T1. simpl in T1. rewrite app_nil_r in T1.
  change (list_bytes (None :: l2)) with (list_bytes l2) in T2.
  rewrite app_assoc, T1, app_assoc in T2. apply app_inv_head in T2.
  pose proof (P5 A2) as F. constructor.
  - auto.
  - by eapply frame_accepts.
  - by rewrite (fr_resp _ _ F).
  - constructor; [auto| |congruence|congruence|].
    + rewrite P2, B2, app_assoc, T1, T2. unfold stream. by rewrite <- !app_assoc.
    + intros A. etransitivity; [by apply T5|done].
Qed.

Lemma deferred_sent w0 w s ss n p :
  0 <= n -> is_i64 n -> sent cfg w0 w s ->
  exists node w1 w3,
    addReplyDeferredLen cfg w = (node, w1) /\
    setDeferredAggregateLen cfg (foldl (addReplyProto cfg) w1 ss) node n p = Some w3 /\
    sent cfg w0 w3 (s ++ enc_num p n ++ concat ss).
Proof.
  intros H0 Hn S. destruct (deferredLen_sent w0 w s S) as (l1 & w1 & E1 & S1 & R1).
  destruct (deferred_filled w0 w1 (foldl (addReplyProto cfg) w1 ss) s (concat ss) l1 n p) as (w3 & E3 & S3);
    [done|done|done|done|apply protos_keeps|by apply protos_sent|].
  by exists (Some (length l1)), w1, w3.
Qed.
End Deferred.

(** The texts written for a sequence of status lines. *)
Definition status_writes (ls : list (list Z)) : list (list Z) := flat_map (fun s => [bs "+"; s; CRLF]) ls.

Lemma foldl_status cfg w s ls :
  foldl (addReplyProto cfg) w (status_writes (s :: ls))
  = foldl (addReplyProto cfg) (addReplyStatusLength cfg w s) (status_writes ls).
Proof. done. Qed.

Lemma foldl_nil cfg w : foldl (addReplyProto cfg) w [] = w.
Proof. done. Qed.

Lemma status_writes_app ls ks : status_writes (ls ++ ks) = status_writes ls ++ status_writes ks.
Proof. apply flat_map_app. Qed.

Lemma statuses_protos cfg w ss :
  foldl (addReplyStatus cfg) w ss = foldl (addReplyProto cfg) w (status_writes (map cstr ss)).
Proof. revert w. induction ss as [|s ss IH]; intros w; simpl; [done|]. by rewrite IH. Qed.

Lemma concat_statuses ls : concat (status_writes ls) = flat_map (enc_line 43) ls.
Proof.
  induction ls as [|s ls IH]; [done|].
  change (status_writes (s :: ls)) with ([bs "+"; s; CRLF] ++ status_writes ls).
  rewrite concat_app, IH. done.
Qed.

(** ** Error statistics *)

(** The table never holds more than ERROR_STATS_NUMBER codes, each with a
    positive count. *)
Definition errors_ok (s : server) : Prop :=
  Z.of_nat (base.size (errors s)) <= ERROR_STATS_NUMBER /\ map_Forall (fun _ count => 0 < count) (errors s).

Lemma errors_add_ok n s :
  Z.of_nat (base.size (errors s)) < ERROR_STATS_NUMBER \/ is_Some (errors s !! n) ->
  errors_ok s -> errors_ok (errors_add n s).
Proof.
  intros Hs [Hsz Hpos]. rewrite errors_add_eq.
  unfold errors_ok. destruct s as [? ? ? ? m ? ?]; wsimpl. split.
  - destruct (m !! n) eqn:E; [rewrite map_size_insert_Some by eauto; lia|].
    rewrite map_size_insert_None by done. destruct Hs as [?|[? ?]]; [lia|congruence].
  - apply map_Forall_insert_2; [|done].
    destruct (m !! n) eqn:E; cbn [default]; [|lia]. pose proof (Hpos _ _ E). cbn in *. lia.
Qed.

Lemma incrementErrorCount_ok n s : errors_ok s -> errors_ok (incrementErrorCount n s).
Proof.
  intros H. unfold incrementErrorCount. destruct (negb _); [done|].
  destruct (errors s !! n) eqn:E.
  - apply errors_add_ok; [|done]. rewrite E. eauto.
  - zcase; [|apply errors_add_ok; auto; left; lia].
    assert (errors_ok (errors_add (bs "ERRORSTATS_DISABLED") (resetErrorTableStats s))) as [K1 K2].
    { apply errors_add_ok; [by left|]. split; [done|]. apply map_Forall_empty. }
    by split.
Qed.

Lemma afterErrorReply_errors_ok cfg w t fl : errors_ok (srv w) -> errors_ok (srv (afterErrorReply cfg w t fl)).
Proof.
  intros H.
  assert (errors_ok ((srv w)<| stat_total_error_replies ::= Z.add 1 |>)) as H' by done.
  pose proof (incrementErrorCount_ok (error_code t) _ H') as I.
  unfold afterErrorReply, serverPanic. destruct (has _ _); [done|].
  repeat case_match; done.
Qed.

(** ** Moving a fake client's output *)

Lemma deferredErrors_sent cfg w0 w s errs :
  quiet cfg -> sent cfg w0 w s -> sent cfg w0 (deferredAfterErrorReply cfg w errs) s.
Proof.
  intros Q. unfold deferredAfterErrorReply. revert w.
  induction errs as [|e errs IH]; intros w S; simpl; [done|]. apply IH. by apply afterErrorReply_sent.
Qed.

(** The reply list of a client whose output is all plain. *)
Record plain_source (src : client) (raw : list Z) : Prop := {
  ps_buf : buf src = Plain raw;
  ps_reply : Forall node_ok (reply src);
  ps_bytes : reply_bytes src = list_size (reply src);
  ps_shared : list_shared (reply src) = 0;
  ps_noshared : reply_bytes_shared src = 0
}.

Lemma join_appends cfg w src raw :
  plain_source src raw ->
  appends cfg w (w<| cl -> reply ::= fun l => l ++ reply src |>
                  <| cl -> reply_bytes ::= Z.add (reply_bytes src) |>) (list_bytes (reply src)) [].
Proof.
  intros [_ P2 P3 P4 _].
  destruct (replace_reply w (reply (cl w) ++ reply src) 0 (reply_bytes src)) as (R1 & R2 & R3 & R4 & R5).
  - intros. by apply Forall_app.
  - rewrite list_size_app. lia.
  - rewrite list_shared_app. lia.
  - match type of R2 with stream (cl ?w1) = _ =>
      match goal with |- appends _ _ ?w2 _ _ =>
        replace w2 with w1 by (unfold add_output; by open_world w) end end.
    constructor; rewrite ?app_nil_r; auto.
    rewrite R2, list_bytes_app. unfold stream. by rewrite app_assoc.
Qed.

Lemma AddReplyFromClient_sent cfg `{U : UsableSize cfg} w src raw :
  quiet cfg -> wf w -> accepts cfg (cl w) -> plain_source src raw ->
  has (flags src) CLIENT_CLOSE_ASAP = false ->
  let '(w', src') := AddReplyFromClient cfg w src in
  sent cfg w w' (stream src) /\ stream src' = [] /\ reply_bytes src' = 0 /\ deferred_reply_errors src' = None.
Proof.
  intros Q W A P Hf. unfold AddReplyFromClient. rewrite Hf, (ps_buf _ _ P), (ps_noshared _ _ P).
  pose proof (proto_sent cfg w w [] raw (sent_refl cfg w W A)) as S1. simpl in S1.
  set (w1 := addReplyProto cfg w raw) in *. clearbody w1.
  pose proof (accepts_prepare _ _ (se_accepts _ _ _ _ S1)) as E.
  pose proof (prepare_appends cfg w1) as A2.
  assert (w1<| cl ::= fun c => snd (prepareClientToWrite c) |> = w1<| cl := snd (prepareClientToWrite (cl w1)) |>)
    as Ew by (by destruct w1). rewrite Ew in A2. clear Ew.
  destruct (prepareClientToWrite (cl w1)) as [ok c]. simpl in E, A2. subst ok.
  apply (sent_silent cfg _ _ _ _ S1) in A2. clear S1. cbn [negb Z.eqb].
  pose proof (proj1 (se_accepts _ _ _ _ A2)) as Hc. change (has (flags c) CLIENT_CLOSE_AFTER_REPLY = false) in Hc.
  match goal with |- context [has (flags ?x) CLIENT_CLOSE_AFTER_REPLY] => change x with c end. rewrite Hc.
  pose proof (sent_step cfg _ _ _ _ _ A2 (join_appends cfg _ src raw P)) as S3.
  assert (stream src = raw ++ list_bytes (reply src)) as -> by (unfold stream; by rewrite (ps_buf _ _ P)).
  destruct (deferred_reply_errors src) as [errs|] eqn:Ed;
    (split; [|by rewrite ?Ed]); eapply sent_silent; [|apply close_appends| |apply close_appends].
  - by apply deferredErrors_sent.
  - done.
Qed.

(** ** Properties *)

(** A reply whose length is only known at the end (deferred array, map or
    set header): for a client that takes output, asking for a deferred length,
    writing any sequence of texts of any lengths and then setting the length
    to [n] never fails an assertion and leaves the client's stream extended by
    exactly the header with [n] followed by all the texts in order, with every
    buffer within capacity and the client still taking output. *)
Theorem deferred_aggregate_framed cfg w ss n p :
  UsableSize cfg -> wf w -> accepts cfg (cl w) -> 0 <= n -> is_i64 n ->
  exists node w1 w3,
    addReplyDeferredLen cfg w = (node, w1) /\
    setDeferredAggregateLen cfg (foldl (addReplyProto cfg) w1 ss) node n p = Some w3 /\
    wf w3 /\ accepts cfg (cl w3) /\ panicked (srv w3) = panicked (srv w) /\
    stream (cl w3) = stream (cl w) ++ enc_num p n ++ concat ss.
Proof.
  intros U W A H0 Hn. destruct (deferred_sent cfg w w [] ss n p H0 Hn (sent_refl cfg w W A))
    as (node & w1 & w3 & E1 & E3 & [S1 S2 _ S4]).
  exists node, w1, w3. split_and!; auto; apply S4.
Qed.

Lemma example_accepts : accepts example_config (cl example_world).
Proof. split_and!; try done. right. by split_and!. Qed.

Lemma deferred_aggregate_framed_witness :
  exists node w1 w3,
    addReplyDeferredLen example_config example_world = (node, w1) /\
    setDeferredAggregateLen example_config
      (foldl (addReplyProto example_config) w1 [bs ":1" ++ CRLF; bs ":2" ++ CRLF]) node 2 42 = Some w3 /\
    stream (cl w3) = bs "*2" ++ CRLF ++ bs ":1" ++ CRLF ++ bs ":2" ++ CRLF.
Proof.
  assert (is_i64 2) as I by (unfold is_i64; lia).
  destruct (deferred_aggregate_framed example_config example_world [bs ":1" ++ CRLF; bs ":2" ++ CRLF] 2 42
              example_usable example_wf example_accepts ltac:(lia) I)
    as (node & w1 & w3 & E1 & E3 & _ & _ & _ & S).
  exists node, w1, w3. split; [exact E1|split; [exact E3|exact S]].
Defined.

(** the HELP reply of a command is one well-formed array: its header
    counts exactly the status lines that follow (the usage line, every line
    of both help tables, and the two footer lines). *)
Theorem help_reply_exact cfg w argv0 help ext :
  UsableSize cfg -> wf w -> accepts cfg (cl w) -> zlen help + zlen (default [] ext) < 2 ^ 31 ->
  let lines := (sdstoupper (cstr argv0) ++ bs " <subcommand> [<arg> [value] [opt] ...]. Subcommands are:")
               :: map cstr help ++ map cstr (default [] ext) ++ [bs "HELP"; bs "    Print this help."] in
  exists w', addExtendedReplyHelp cfg w argv0 help ext = Some w' /\ wf w' /\
    stream (cl w') = stream (cl w) ++ enc_num 42 (zlen lines) ++ flat_map (enc_line 43) lines.
Proof.
  intros U W A Hn lines. pose proof (zlen_nonneg help). pose proof (zlen_nonneg (default [] ext)).
  assert (zlen lines = zlen help + zlen (default [] ext) + 1 + 2) as El.
  { subst lines. unfold zlen. simpl. rewrite !length_app, !length_map. simpl. lia. }
  destruct (deferred_sent cfg w w [] (status_writes lines) (zlen lines) 42) as (node & w1 & w3 & E1 & E3 & S);
    [lia|unfold is_i64; lia|by apply sent_refl|].
  exists w3. split_and!.
  - unfold addExtendedReplyHelp, setDeferredArrayLen. rewrite E1, <- El, <- E3. f_equal.
    subst lines. rewrite foldl_status, !status_writes_app, !foldl_app, <- !statuses_protos, !foldl_status.
    change (status_writes []) with (@nil (list Z)). rewrite foldl_nil. unfold addReplyStatusFormat, addReplyStatus at 1 2.
    change (cstr (bs "HELP")) with (bs "HELP").
    change (cstr (bs "    Print this help.")) with (bs "    Print this help.").
    reflexivity.
  - apply S.
  - rewrite (ap_stream _ _ _ _ _ (se_appends _ _ _ _ S)). by rewrite concat_statuses.
Qed.

Lemma help_reply_exact_witness :
  exists w', addExtendedReplyHelp example_config example_world (bs "object") [bs "FREQ <key>"] None = Some w' /\
    wf w' /\
    stream (cl w') = bs "*4" ++ CRLF ++
      flat_map (enc_line 43) [bs "OBJECT <subcommand> [<arg> [value] [opt] ...]. Subcommands are:"; bs "FREQ <key>";
                              bs "HELP"; bs "    Print this help."].
Proof.
  exact (help_reply_exact example_config example_world (bs "object") [bs "FREQ <key>"] None
           example_usable example_wf example_accepts eq_refl).
Defined.

(** Errors cannot break the protocol: whatever bytes an error message is
    formatted from (CR and LF included), what the client is sent is one line
    that starts with a minus sign, holds no CR or LF and is ended by CRLF. *)
Theorem error_reply_single_line cfg w t fl :
  UsableSize cfg -> quiet cfg -> wf w -> accepts cfg (cl w) ->
  forall w', w' = addReplyErrorFormatInternal cfg w fl t \/ w' = addReplyErrorSdsSafe cfg w t ->
  wf w' /\ accepts cfg (cl w') /\
  exists line, stream (cl w') = stream (cl w) ++ line ++ CRLF /\ head line = Some 45 /\
    Forall (fun c => c <> CR /\ c <> LF) line.
Proof.
  intros U Q W A w' Hw.
  assert (exists u, sent cfg w w' (enc_error (one_line u))) as (u & S).
  { pose proof (sent_refl cfg w W A) as S0.
    destruct Hw as [->| ->];
      [exists (sdstrim t CRLF); exact (errorFormat_sent cfg Q w w [] t fl S0)
      |exists t; exact (errorSdsSafe_sent cfg Q w w [] t S0)]. }
  split_and!; [apply S|apply S|].
  assert (Forall (fun c => c <> CR /\ c <> LF) (one_line u)) as Hl by apply sdsmapchars_crlf.
  rewrite (ap_stream _ _ _ _ _ (se_appends _ _ _ _ S)). unfold enc_error.
  eexists (_ ++ one_line u). split; [by rewrite <- app_assoc|]. destruct (one_line u) as [|c l].
  - split; [done|]. repeat constructor; discriminate.
  - destruct (_ || _) eqn:E.
    + split; [done|]. apply Forall_app. split; [|done]. repeat constructor; discriminate.
    + split; [|done]. rewrite orb_false_iff in E. destruct E as [_ E]. simpl in *. f_equal. lia.
Qed.

Lemma error_reply_single_line_witness :
  exists line,
    stream (cl (addReplyErrorFormat example_config example_world (bs "bad" ++ CRLF ++ bs "+OK" ++ CRLF)))
    = line ++ CRLF /\ head line = Some 45 /\ Forall (fun c => c <> CR /\ c <> LF) line.
Proof.
  destruct (error_reply_single_line example_config example_world (bs "bad" ++ CRLF ++ bs "+OK" ++ CRLF) 0
              example_usable eq_refl example_wf example_accepts _ (or_introl eq_refl)) as (_ & _ & H).
  exact H.
Defined.

(** The error statistics cannot grow without bound: from a well-formed
    table, after any sequence of error replies with any texts, at most
    ERROR_STATS_NUMBER codes are recorded, each with a positive count. *)
Theorem error_stats_bounded cfg w (errs : list (list Z * Z)) :
  errors_ok (srv w) -> errors_ok (srv (foldl (fun w e => afterErrorReply cfg w (fst e) (snd e)) w errs)).
Proof.
  revert w. induction errs as [|[t fl] errs IH]; intros w H; simpl; [done|].
  apply IH. by apply afterErrorReply_errors_ok.
Qed.

Lemma error_stats_bounded_witness :
  errors_ok (srv (foldl (fun w e => afterErrorReply example_config w (fst e) (snd e)) example_world
                    [(bs "-WRONGTYPE bad", 0); (bs "oops", 0)])).
Proof.
  apply (error_stats_bounded example_config example_world [(bs "-WRONGTYPE bad", 0); (bs "oops", 0)]).
  split; [done|]. apply map_Forall_empty.
Defined.

(** moving the output of a fake client (a module or script context) to
    the client it acts for appends exactly the bytes the fake client had
    queued, in order, empties the fake client, and keeps the destination's
    buffers and accounting right. *)
Theorem client_output_moved cfg w src raw :
  UsableSize cfg -> quiet cfg -> wf w -> accepts cfg (cl w) -> plain_source src raw ->
  has (flags src) CLIENT_CLOSE_ASAP = false ->
  let '(w', src') := AddReplyFromClient cfg w src in
  wf w' /\ accepts cfg (cl w') /\ stream (cl w') = stream (cl w) ++ stream src /\
  stream src' = [] /\ reply_bytes src' = 0 /\ deferred_reply_errors src' = None.
Proof.
  intros U Q W A P Hf. pose proof (AddReplyFromClient_sent cfg w src raw Q W A P Hf) as H.
  destruct (AddReplyFromClient cfg w src) as [w' src']. destruct H as ([S1 S2 _ S3] & H).
  split_and!; try done; apply S3 || apply H.
Qed.

Lemma client_output_moved_witness :
  let src := (createClient example_config 9 false)<| flags := CLIENT_MODULE |><| buf := Plain (bs "+PONG") |> in
  let '(w', src') := AddReplyFromClient example_config example_world src in
  stream (cl w') = bs "+PONG" /\ stream src' = [].
Proof.
  intros src. assert (plain_source src (bs "+PONG")) as P by (by constructor).
  pose proof (client_output_moved example_config example_world src (bs "+PONG")
                example_usable eq_refl example_wf example_accepts P eq_refl) as H.
  destruct (AddReplyFromClient example_config example_world src) as [w' src'].
  destruct H as (_ & _ & H1 & H2 & _). split; [exact H1|exact H2].
Defined.
