(* ===== verification/Wire.v ===== *)
(** Reply values and their protocol form.

    A [value] is what a command replies with; [send] makes the calls of
    src/src/networking.c a command makes for it. A [wire] tree is a RESP text
    as the protocol knows it, [print] its bytes and [wire_of] the form a value
    takes for a RESP2 or RESP3 client. *)

From stdpp Require Import base list numbers strings gmap.
From S2P Require Import Prelude Numbers Client ReplyBuffer Sds Doubles Reply.

Local Open Scope Z_scope.

Section Wire.
Context {D : Doubles}.

Inductive wire : Type :=
| WSimple (s : list Z)
| WError (s : list Z)
| WInt (n : Z)
| WBulk (s : list Z)
| WNullBulk
| WNullArray
| WNull
| WBool (b : bool)
| WDouble (d : double)
| WBigNum (s : list Z)
| WVerbatim (ext s : list Z)
| WArray (l : list wire)
| WSet (l : list wire)
| WMap (l : list wire)
| WAttribute (l : list wire) (w : wire).

(** [l] holds keys and values in turn. *)
Fixpoint print (w : wire) : list Z :=
  match w with
  | WSimple s => enc_line 43 s
  | WError s => enc_line 45 s
  | WInt n => enc_num 58 n
  | WBulk s => enc_bulk s
  | WNullBulk => bs "$-1" ++ CRLF
  | WNullArray => bs "*-1" ++ CRLF
  | WNull => bs "_" ++ CRLF
  | WBool b => (if b then bs "#t" else bs "#f") ++ CRLF
  | WDouble d => enc_line 44 (d2string d)
  | WBigNum s => enc_line 40 s
  | WVerbatim ext s => enc_verbatim ext s
  | WArray l => enc_num 42 (zlen l) ++ concat (map print l)
  | WSet l => enc_num 126 (zlen l) ++ concat (map print l)
  | WMap l => enc_num 37 (zlen l / 2) ++ concat (map print l)
  | WAttribute l w => enc_num 124 (zlen l / 2) ++ concat (map print l) ++ print w
  end.

Definition small {A} (l : list A) : Prop := zlen l < 2 ^ 62.

Fixpoint wire_ok (w : wire) : Prop :=
  match w with
  | WSimple s | WError s | WBigNum s => text s
  | WInt n => is_i64 n
  | WBulk s => small s
  | WVerbatim ext s => length ext = 3%nat /\ small s
  | WArray l | WSet l => small l /\ foldr (fun w P => wire_ok w /\ P) True l
  | WMap l => small l /\ (exists k, zlen l = 2 * k) /\ foldr (fun w P => wire_ok w /\ P) True l
  | WAttribute l w =>
      small l /\ (exists k, zlen l = 2 * k) /\ foldr (fun w P => wire_ok w /\ P) True l /\ wire_ok w
  | _ => True
  end.

Lemma wire_ok_list l : foldr (fun w P => wire_ok w /\ P) True l <-> Forall wire_ok l.
Proof.
  induction l as [|w l IH]; simpl; [by split; auto|]. rewrite Forall_cons. tauto.
Qed.

(** Induction through the element lists. *)
Section Induction.
Context (P : wire -> Prop).
Context (HSimple : forall s, P (WSimple s)) (HError : forall s, P (WError s))
  (HInt : forall n, P (WInt n)) (HBulk : forall s, P (WBulk s)) (HNullBulk : P WNullBulk)
  (HNullArray : P WNullArray) (HNull : P WNull) (HBool : forall b, P (WBool b))
  (HDouble : forall d, P (WDouble d)) (HBig : forall s, P (WBigNum s))
  (HVerb : forall e s, P (WVerbatim e s)) (HArray : forall l, Forall P l -> P (WArray l))
  (HSet : forall l, Forall P l -> P (WSet l)) (HMap : forall l, Forall P l -> P (WMap l))
  (HAttr : forall l w, Forall P l -> P w -> P (WAttribute l w)).

Fixpoint wire_nested_ind (w : wire) : P w :=
  let all := fix all (l : list wire) : Forall P l :=
    match l with
    | [] => Forall_nil_2 _
    | x :: l' => Forall_cons_2 _ _ _ (wire_nested_ind x) (all l')
    end in
  match w with
  | WSimple s => HSimple s | WError s => HError s | WInt n => HInt n | WBulk s => HBulk s
  | WNullBulk => HNullBulk | WNullArray => HNullArray | WNull => HNull | WBool b => HBool b
  | WDouble d => HDouble d | WBigNum s => HBig s | WVerbatim e s => HVerb e s
  | WArray l => HArray l (all l) | WSet l => HSet l (all l) | WMap l => HMap l (all l)
  | WAttribute l w => HAttr l w (all l) (wire_nested_ind w)
  end.
End Induction.

(** ** Values *)

Inductive value : Type :=
| VStatus (s : list Z)
| VError (s : list Z)
| VInt (n : Z)
| VUnsigned (n : Z)
| VBulk (o : robj)
| VNull
| VNullArray
| VBool (b : bool)
| VDouble (d : double)
| VBigNum (s : list Z)
| VVerbatim (s ext : list Z)
| VArray (l : list value)
| VSet (l : list value)
| VMap (l : list (value * value)).

(** The calls a command makes to reply with a value. *)
Fixpoint send (cfg : config) (w : world) (v : value) : world :=
  match v with
  | VStatus s => addReplyStatus cfg w s
  | VError s => addReplyErrorFormat cfg w s
  | VInt n => addReplyLongLong cfg w n
  | VUnsigned n => addReplyUnsignedLongLong cfg w n
  | VBulk o => addReplyBulk cfg w o
  | VNull => addReplyNull cfg w
  | VNullArray => addReplyNullArray cfg w
  | VBool b => addReplyBool cfg w b
  | VDouble d => addReplyDouble cfg w d
  | VBigNum s => addReplyBigNum cfg w s
  | VVerbatim s ext => addReplyVerbatim cfg w s ext
  | VArray l => foldl (send cfg) (addReplyArrayLen cfg w (zlen l)) l
  | VSet l => foldl (send cfg) (addReplySetLen cfg w (zlen l)) l
  | VMap l => foldl (fun w kv => send cfg (send cfg w (fst kv)) (snd kv)) (addReplyMapLen cfg w (zlen l)) l
  end.

(** An error text with its code, as it is sent. *)
Definition error_text (s : list Z) : list Z :=
  let s := one_line (sdstrim s CRLF) in
  if (zlen s =? 0) || negb (hd 0 s =? 45) then bs "ERR " ++ s else drop 1 s.

(** The protocol form for a client of version [r]. *)
Fixpoint wire_of (r : Z) (v : value) : wire :=
  match v with
  | VStatus s => WSimple (cstr s)
  | VError s => WError (error_text s)
  | VInt n => WInt n
  | VUnsigned n =>
      if n <=? LLONG_MAX then WInt n else if r =? 2 then WBulk (dec n) else WBigNum (dec n)
  | VBulk o => WBulk (obj_text o)
  | VNull => if r =? 2 then WNullBulk else WNull
  | VNullArray => if r =? 2 then WNullArray else WNull
  | VBool b => if r =? 2 then WInt (if b then 1 else 0) else WBool b
  | VDouble d => if r =? 3 then WDouble d else WBulk (d2string d)
  | VBigNum s => if r =? 2 then WBulk s else WBigNum s
  | VVerbatim s ext => if r =? 2 then WBulk s else WVerbatim (ext_bytes 3 ext) s
  | VArray l => WArray (map (wire_of r) l)
  | VSet l => if r =? 2 then WArray (map (wire_of r) l) else WSet (map (wire_of r) l)
  | VMap l =>
      let kvs := concat (map (fun kv => [wire_of r (fst kv); wire_of r (snd kv)]) l) in
      if r =? 2 then WArray kvs else WMap kvs
  end.

(** What a command may reply with: sizes that fit, status lines without line
    breaks. *)
Fixpoint value_ok (v : value) : Prop :=
  match v with
  | VStatus s => text (cstr s)
  | VError s => c_string s
  | VInt n => is_i64 n
  | VUnsigned n => is_u64 n
  | VBulk o => obj_ok o /\ small (sds_ptr o)
  | VBigNum s => text s /\ small s
  | VVerbatim s _ => small s
  | VArray l | VSet l => small l /\ foldr (fun v P => value_ok v /\ P) True l
  | VMap l => zlen l < 2 ^ 61 /\ foldr (fun kv P => value_ok (fst kv) /\ value_ok (snd kv) /\ P) True l
  | _ => True
  end.

Section ValueInduction.
Context (P : value -> Prop).
Context (HStatus : forall s, P (VStatus s)) (HError : forall s, P (VError s))
  (HInt : forall n, P (VInt n)) (HUns : forall n, P (VUnsigned n)) (HBulk : forall o, P (VBulk o))
  (HNull : P VNull) (HNullArray : P VNullArray) (HBool : forall b, P (VBool b))
  (HDouble : forall d, P (VDouble d)) (HBig : forall s, P (VBigNum s))
  (HVerb : forall s e, P (VVerbatim s e)) (HArray : forall l, Forall P l -> P (VArray l))
  (HSet : forall l, Forall P l -> P (VSet l))
  (HMap : forall l, Forall (fun kv => P (fst kv) /\ P (snd kv)) l -> P (VMap l)).

Fixpoint value_nested_ind (v : value) : P v :=
  let all := fix all (l : list value) : Forall P l :=
    match l with
    | [] => Forall_nil_2 _
    | x :: l' => Forall_cons_2 _ _ _ (value_nested_ind x) (all l')
    end in
  match v with
  | VStatus s => HStatus s | VError s => HError s | VInt n => HInt n | VUnsigned n => HUns n
  | VBulk o => HBulk o | VNull => HNull | VNullArray => HNullArray | VBool b => HBool b
  | VDouble d => HDouble d | VBigNum s => HBig s | VVerbatim s e => HVerb s e
  | VArray l => HArray l (all l) | VSet l => HSet l (all l)
  | VMap l => HMap l ((fix pairs (l : list (value * value)) : Forall (fun kv => P (fst kv) /\ P (snd kv)) l :=
      match l with
      | [] => Forall_nil_2 _
      | kv :: l' =>
          let '(k, x) as kv := kv return Forall (fun kv => P (fst kv) /\ P (snd kv)) (kv :: l') in
          Forall_cons_2 _ (k, x) _ (conj (value_nested_ind k) (value_nested_ind x)) (pairs l')
      end) l)
  end.
End ValueInduction.

Lemma value_ok_list l : foldr (fun v P => value_ok v /\ P) True l <-> Forall value_ok l.
Proof. induction l as [|v l IH]; simpl; [by split; auto|]. rewrite Forall_cons. tauto. Qed.

Lemma value_ok_pairs l :
  foldr (fun kv P => value_ok (fst kv) /\ value_ok (snd kv) /\ P) True l <->
  Forall (fun kv => value_ok (fst kv) /\ value_ok (snd kv)) l.
Proof. induction l as [|v l IH]; simpl; [by split; auto|]. rewrite Forall_cons. tauto. Qed.

(** Keys and values in turn. *)
Definition flatten {A} (l : list (A * A)) : list A := concat (map (fun kv => [fst kv; snd kv]) l).

Lemma zlen_flatten {A B} (f : A -> B) (l : list (A * A)) :
  zlen (concat (map (fun kv => [f (fst kv); f (snd kv)]) l)) = 2 * zlen l.
Proof. induction l as [|kv l IH]; simpl; [done|]. rewrite !zlen_cons, IH. lia. Qed.

Lemma enc_error_line s :
  enc_error (one_line (sdstrim s CRLF)) = enc_line 45 (error_text s).
Proof.
  unfold enc_error, enc_line, error_text. destruct (_ || _) eqn:E; [by rewrite <- !app_assoc|].
  destruct (one_line (sdstrim s CRLF)) as [|c l]; [done|].
  rewrite orb_false_iff in E. destruct E as [_ E]. simpl in *. f_equal. lia.
Qed.
End Wire.

Section Send.
Context {D : Doubles} {L : DoubleLaws D} (cfg : config) `{U : UsableSize cfg} (Q : quiet cfg).

Lemma send_list_sent w0 w s l :
  Forall (fun v => forall w s, sent cfg w0 w s -> sent cfg w0 (send cfg w v) (s ++ print (wire_of (resp (cl w0)) v))) l ->
  sent cfg w0 w s ->
  sent cfg w0 (foldl (send cfg) w l) (s ++ concat (map print (map (wire_of (resp (cl w0))) l))).
Proof.
  intros H. revert w s. induction H as [|v l Hv _ IH]; intros w s S; simpl; [by rewrite app_nil_r|].
  rewrite app_assoc. auto.
Qed.

Lemma send_pairs_sent w0 w s l :
  Forall (fun kv => forall v, v = fst kv \/ v = snd kv -> forall w s,
    sent cfg w0 w s -> sent cfg w0 (send cfg w v) (s ++ print (wire_of (resp (cl w0)) v))) l ->
  sent cfg w0 w s ->
  sent cfg w0 (foldl (fun w kv => send cfg (send cfg w (fst kv)) (snd kv)) w l)
    (s ++ concat (map print (concat (map (fun kv => [wire_of (resp (cl w0)) (fst kv);
                                                     wire_of (resp (cl w0)) (snd kv)]) l)))).
Proof.
  intros H. revert w s. induction H as [|[k v] l Hv _ IH]; intros w s S; simpl in *; [by rewrite app_nil_r|].
  rewrite !app_assoc. auto.
Qed.

(** Sending a value adds exactly its protocol form. *)
Lemma send_sent w0 v :
  resp (cl w0) = 2 \/ resp (cl w0) = 3 -> value_ok v ->
  forall w s, sent cfg w0 w s -> sent cfg w0 (send cfg w v) (s ++ print (wire_of (resp (cl w0)) v)).
Proof.
  intros R. induction v using value_nested_ind; intros Hok w s0 S; simpl in Hok; simpl wire_of; simpl send.
  - apply status_sent; [apply _|done].
  - cbn [print]. rewrite <- enc_error_line. by apply errorFormat_sent.
  - by apply longLong_sent.
  - pose proof (unsignedLongLong_sent cfg w0 w s0 n Hok S) as H. unfold enc_bignum in H.
    by repeat case_match.
  - destruct Hok. by apply bulk_sent.
  - pose proof (null_sent cfg w0 w s0 S) as H. unfold enc_null in H. by case_match.
  - pose proof (nullArray_sent cfg w0 w s0 S) as H. unfold enc_null_array in H. by case_match.
  - pose proof (bool_sent cfg w0 w s0 b S) as H. unfold enc_bool in H. case_match; by destruct b.
  - pose proof (double_sent cfg w0 w s0 d S) as H. by case_match.
  - destruct Hok as [_ Hs]. pose proof (bigNum_sent cfg w0 w s0 s) as H. unfold enc_bignum in H.
    unfold small in Hs. pose proof (zlen_nonneg s).
    case_match; apply H; (done || unfold is_i64; lia).
  - pose proof (verbatim_sent cfg w0 w s0 s e) as H. unfold small in Hok. pose proof (zlen_nonneg s).
    case_match; apply H; (done || unfold is_i64; lia).
  - destruct Hok as [Hs Hl%value_ok_list]. cbn [print]. unfold small in Hs. pose proof (zlen_nonneg l).
    rewrite zlen_map, app_assoc.
    apply send_list_sent; [apply (Forall_mp _ _ _ _ H Hl); auto|].
    apply array_sent; (done || unfold is_i64; lia).
  - destruct Hok as [Hs Hl%value_ok_list]. unfold small in Hs. pose proof (zlen_nonneg l).
    pose proof (set_sent cfg w0 w s0 (zlen l) ltac:(unfold is_i64; lia) ltac:(lia) S) as S1.
    apply (send_list_sent w0 _ _ l) in S1; [|apply (Forall_mp _ _ _ _ H Hl); auto].
    unfold enc_set_len in S1. rewrite <- app_assoc in S1.
    case_match; cbn [print]; rewrite zlen_map; exact S1.
  - destruct Hok as [Hs Hl%value_ok_pairs]. pose proof (zlen_nonneg l).
    pose proof (map_sent cfg w0 w s0 (zlen l) ltac:(lia) S) as S1.
    apply (send_pairs_sent w0 _ _ l) in S1.
    + unfold enc_map_len in S1. rewrite <- app_assoc in S1.
      case_match; cbn [print]; rewrite zlen_flatten; [by rewrite (Z.mul_comm 2)|].
      by replace (2 * zlen l / 2) with (zlen l) by (rewrite Z.mul_comm, Z.div_mul; lia).
    + apply (Forall_mp _ _ _ _ H Hl). intros [k v] [Hk Hv] [Ok Ov] x [->| ->]; auto.
Qed.
End Send.
