(* ===== verification/CallReply.v ===== *)
(** Parsing a command's reply (src/src/resp_parser.c with the callbacks of
    src/src/call_reply.c) into a [CallReply] tree, and the accessors of that
    tree.

    The parser runs over the bytes from [curr_location] to the terminating NUL
    of the sds. Its input is the server's own output and it checks nothing;
    what would leave the buffer, read an unset variable or request an
    impossible allocation is [None] here. [private_data], which is only handed
    through, is left out. *)

From stdpp Require Import base list numbers strings.
From S2P Require Import Prelude Numbers Sds Doubles Client ReplyBuffer Reply Wire.

Local Open Scope Z_scope.

(** ** Data (call_reply.c, redismodule.h) *)

Definition REDISMODULE_REPLY_UNKNOWN : Z := -1.
Definition REDISMODULE_REPLY_STRING : Z := 0.
Definition REDISMODULE_REPLY_ERROR : Z := 1.
Definition REDISMODULE_REPLY_INTEGER : Z := 2.
Definition REDISMODULE_REPLY_ARRAY : Z := 3.
Definition REDISMODULE_REPLY_NULL : Z := 4.
Definition REDISMODULE_REPLY_MAP : Z := 5.
Definition REDISMODULE_REPLY_SET : Z := 6.
Definition REDISMODULE_REPLY_BOOL : Z := 7.
Definition REDISMODULE_REPLY_DOUBLE : Z := 8.
Definition REDISMODULE_REPLY_BIG_NUMBER : Z := 9.
Definition REDISMODULE_REPLY_VERBATIM_STRING : Z := 10.
Definition REDISMODULE_REPLY_ATTRIBUTE : Z := 11.

Definition REPLY_FLAG_ROOT : Z := 1.
Definition REPLY_FLAG_PARSED : Z := 2.
Definition REPLY_FLAG_RESP3 : Z := 4.

Section CallReply.
Context {D : Doubles}.

(** The union [val]; [val_unset] is memory no member of which was assigned. *)
Inductive rval (R : Type) : Type :=
| val_unset
| val_str (s : list Z)
| val_verbatim_str (str format : list Z)
| val_ll (n : Z)
| val_d (d : double)
| val_array (l : list R).
Arguments val_unset {R}. Arguments val_str {R}. Arguments val_verbatim_str {R}.
Arguments val_ll {R}. Arguments val_d {R}. Arguments val_array {R}.

(** [proto] is the text [proto] points at, of [proto_len] bytes. *)
Inductive CallReply : Type := mkReply {
  type : Z; rflags : Z; len : Z; val : rval CallReply; proto : list Z; attribute : option CallReply
}.

(** What [zcalloc] gives. *)
Definition empty_reply : CallReply :=
  {| type := 0; rflags := 0; len := 0; val := val_unset; proto := []; attribute := None |}.

Definition callReplySetSharedData (rep : CallReply) (ty : Z) (p : list Z) (extra : Z) : CallReply :=
  {| type := ty; rflags := Z.lor (rflags rep) extra; len := len rep; val := val rep; proto := p;
     attribute := attribute rep |}.

Definition set_val (rep : CallReply) (n : Z) (v : rval CallReply) : CallReply :=
  {| type := type rep; rflags := rflags rep; len := n; val := v; proto := proto rep;
     attribute := attribute rep |}.

Definition or_flags (rep : CallReply) (f : Z) : CallReply :=
  {| type := type rep; rflags := Z.lor (rflags rep) f; len := len rep; val := val rep;
     proto := proto rep; attribute := attribute rep |}.

(** ** Callbacks that do not parse further *)

Definition callReplyNull (rep : CallReply) (p : list Z) : CallReply :=
  callReplySetSharedData rep REDISMODULE_REPLY_NULL p REPLY_FLAG_RESP3.
Definition callReplyNullBulkString (rep : CallReply) (p : list Z) : CallReply :=
  callReplySetSharedData rep REDISMODULE_REPLY_NULL p 0.
Definition callReplyNullArray (rep : CallReply) (p : list Z) : CallReply :=
  callReplySetSharedData rep REDISMODULE_REPLY_NULL p 0.
Definition callReplyBulkString (rep : CallReply) (str p : list Z) : CallReply :=
  set_val (callReplySetSharedData rep REDISMODULE_REPLY_STRING p 0) (zlen str) (val_str str).
Definition callReplyError (rep : CallReply) (str p : list Z) : CallReply :=
  set_val (callReplySetSharedData rep REDISMODULE_REPLY_ERROR p 0) (zlen str) (val_str str).
Definition callReplySimpleStr (rep : CallReply) (str p : list Z) : CallReply :=
  set_val (callReplySetSharedData rep REDISMODULE_REPLY_STRING p 0) (zlen str) (val_str str).
Definition callReplyLong (rep : CallReply) (n : Z) (p : list Z) : CallReply :=
  set_val (callReplySetSharedData rep REDISMODULE_REPLY_INTEGER p 0) (len rep) (val_ll n).
Definition callReplyDouble (rep : CallReply) (d : double) (p : list Z) : CallReply :=
  set_val (callReplySetSharedData rep REDISMODULE_REPLY_DOUBLE p REPLY_FLAG_RESP3) (len rep) (val_d d).
Definition callReplyVerbatimString (rep : CallReply) (format str p : list Z) : CallReply :=
  set_val (callReplySetSharedData rep REDISMODULE_REPLY_VERBATIM_STRING p REPLY_FLAG_RESP3)
    (zlen str) (val_verbatim_str str format).
Definition callReplyBigNumber (rep : CallReply) (str p : list Z) : CallReply :=
  set_val (callReplySetSharedData rep REDISMODULE_REPLY_BIG_NUMBER p REPLY_FLAG_RESP3)
    (zlen str) (val_str str).
Definition callReplyBool (rep : CallReply) (b : bool) (p : list Z) : CallReply :=
  set_val (callReplySetSharedData rep REDISMODULE_REPLY_BOOL p REPLY_FLAG_RESP3)
    (len rep) (val_ll (if b then 1 else 0)).

(** The parser stops on an unknown type byte. *)
Definition callReplyParseError (rep : CallReply) : CallReply :=
  {| type := REDISMODULE_REPLY_UNKNOWN; rflags := rflags rep; len := len rep; val := val rep;
     proto := proto rep; attribute := attribute rep |}.

(** ** Lines *)

(** [p = strchr(proto+1,'\r')]: the text between and what follows the CRLF,
    whose second byte is not looked at. *)
Definition header (loc : list Z) : option (list Z * list Z) :=
  match loc with
  | _ :: r =>
      match strchr CR r with
      | Some (t, _ :: _ :: rest) => Some (t, rest)
      | _ => None
      end
  | [] => None
  end.

(** A header that holds a number. *)
Definition number_header (loc : list Z) : option (Z * list Z) :=
  match header loc with
  | Some (t, rest) => n ← string2ll t; Some (n, rest)
  | None => None
  end.

(** The bytes from [loc] up to the later position [rest]. *)
Definition upto (loc rest : list Z) : list Z := take (length loc - length rest) loc.

(** [n] bytes and the CRLF after them. *)
Definition payload_of (n : Z) (rest : list Z) : option (list Z * list Z) :=
  if (0 <=? n) && (n + 2 <=? zlen rest)
  then Some (take (Z.to_nat n) rest, drop (Z.to_nat (n + 2)) rest) else None.

(** The result of a parse: the return code ([true] is [C_OK]), the reply and
    the new [curr_location]. *)
Definition result : Type := option (bool * CallReply * list Z).

Definition parseBulk (rep : CallReply) (loc : list Z) : result :=
  '(bulklen, rest) ← number_header loc;
  if bulklen =? -1 then Some (true, callReplyNullBulkString rep (upto loc rest), rest)
  else
    '(str, rest) ← payload_of bulklen rest;
    Some (true, callReplyBulkString rep str (upto loc rest), rest).

Definition parseSimpleString (rep : CallReply) (loc : list Z) : result :=
  '(t, rest) ← header loc; Some (true, callReplySimpleStr rep t (upto loc rest), rest).

Definition parseError (rep : CallReply) (loc : list Z) : result :=
  '(t, rest) ← header loc; Some (true, callReplyError rep t (upto loc rest), rest).

Definition parseLong (rep : CallReply) (loc : list Z) : result :=
  '(n, rest) ← number_header loc; Some (true, callReplyLong rep n (upto loc rest), rest).

(** [bulklen] counts the format and the colon. *)
Definition parseVerbatimString (rep : CallReply) (loc : list Z) : result :=
  '(bulklen, rest) ← number_header loc;
  '(str, rest) ← payload_of bulklen rest;
  if bulklen <? 4 then None
  else Some (true, callReplyVerbatimString rep (take 3 str) (drop 4 str) (upto loc rest), rest).

Definition parseBigNumber (rep : CallReply) (loc : list Z) : result :=
  '(t, rest) ← header loc; Some (true, callReplyBigNumber rep t (upto loc rest), rest).

Definition parseNull (rep : CallReply) (loc : list Z) : result :=
  '(_, rest) ← header loc; Some (true, callReplyNull rep (upto loc rest), rest).

Definition parseDouble (rep : CallReply) (loc : list Z) : result :=
  '(t, rest) ← header loc;
  let d := if zlen t <=? MAX_LONG_DOUBLE_CHARS then fast_float_strtod t else double_of_ll 0 in
  Some (true, callReplyDouble rep d (upto loc rest), rest).

Definition parseBool (rep : CallReply) (loc : list Z) : result :=
  '(_, rest) ← header loc;
  Some (true, callReplyBool rep (nth 1 loc 0 =? 116) (upto loc rest), rest).

(** ** Aggregates *)

Section Rec.
(** [parseReply] itself, one level down. *)
Context (parseReply : CallReply -> list Z -> result).

(** The element loop: the return code of an element is not looked at. *)
Fixpoint parse_elements (n : nat) (loc : list Z) : option (list CallReply * list Z) :=
  match n with
  | O => Some ([], loc)
  | S n' =>
      '(_, e, loc) ← parseReply empty_reply loc;
      '(es, loc) ← parse_elements n' loc;
      Some (or_flags e REPLY_FLAG_PARSED :: es, loc)
  end.

(** An array for a negative count cannot be allocated. *)
Definition callReplyParseCollection (rep : CallReply) (n : Z) (start loc : list Z)
    (elements_per_entry : Z) : option (CallReply * list Z) :=
  if n <? 0 then None
  else
    '(es, loc) ← parse_elements (Z.to_nat (n * elements_per_entry)) loc;
    let f := if existsb (fun e => has (rflags e) REPLY_FLAG_RESP3) es then REPLY_FLAG_RESP3 else 0 in
    let rep := set_val (or_flags rep f) n (val_array es) in
    Some ({| type := type rep; rflags := rflags rep; len := len rep; val := val rep;
             proto := upto start loc; attribute := attribute rep |}, loc).

Definition set_type (rep : CallReply) (ty : Z) : CallReply :=
  {| type := ty; rflags := rflags rep; len := len rep; val := val rep; proto := proto rep;
     attribute := attribute rep |}.

Definition callReplyAttribute (rep : CallReply) (n : Z) (start loc : list Z) : option (CallReply * list Z) :=
  '(att, loc) ← callReplyParseCollection (set_type empty_reply REDISMODULE_REPLY_ATTRIBUTE) n start loc 2;
  let att := or_flags att (Z.lor REPLY_FLAG_PARSED REPLY_FLAG_RESP3) in
  let rep := {| type := type rep; rflags := rflags rep; len := len rep; val := val rep;
                proto := proto rep; attribute := Some att |} in
  '(_, rep, loc) ← parseReply rep loc;
  Some ({| type := type rep; rflags := Z.lor (rflags rep) REPLY_FLAG_RESP3; len := len rep;
           val := val rep; proto := upto start loc; attribute := attribute rep |}, loc).

Definition callReplyArray (rep : CallReply) (n : Z) (start loc : list Z) : option (CallReply * list Z) :=
  callReplyParseCollection (set_type rep REDISMODULE_REPLY_ARRAY) n start loc 1.

Definition callReplySet (rep : CallReply) (n : Z) (start loc : list Z) : option (CallReply * list Z) :=
  '(rep, loc) ← callReplyParseCollection (set_type rep REDISMODULE_REPLY_SET) n start loc 1;
  Some (or_flags rep REPLY_FLAG_RESP3, loc).

Definition callReplyMap (rep : CallReply) (n : Z) (start loc : list Z) : option (CallReply * list Z) :=
  '(rep, loc) ← callReplyParseCollection (set_type rep REDISMODULE_REPLY_MAP) n start loc 2;
  Some (or_flags rep REPLY_FLAG_RESP3, loc).

Definition parseAttributes (rep : CallReply) (loc : list Z) : result :=
  '(n, rest) ← number_header loc;
  '(rep, rest) ← callReplyAttribute rep n loc rest; Some (true, rep, rest).

Definition parseArray (rep : CallReply) (loc : list Z) : result :=
  '(n, rest) ← number_header loc;
  if n =? -1 then Some (true, callReplyNullArray rep (upto loc rest), rest)
  else '(rep, rest) ← callReplyArray rep n loc rest; Some (true, rep, rest).

Definition parseSet (rep : CallReply) (loc : list Z) : result :=
  '(n, rest) ← number_header loc;
  '(rep, rest) ← callReplySet rep n loc rest; Some (true, rep, rest).

Definition parseMap (rep : CallReply) (loc : list Z) : result :=
  '(n, rest) ← number_header loc;
  '(rep, rest) ← callReplyMap rep n loc rest; Some (true, rep, rest).

(** The dispatch on the type byte; the end of the text reads as its NUL. *)
Definition parse_switch (rep : CallReply) (loc : list Z) : result :=
  let c := hd 0 loc in
  if c =? 36 then parseBulk rep loc
  else if c =? 43 then parseSimpleString rep loc
  else if c =? 45 then parseError rep loc
  else if c =? 58 then parseLong rep loc
  else if c =? 42 then parseArray rep loc
  else if c =? 126 then parseSet rep loc
  else if c =? 37 then parseMap rep loc
  else if c =? 35 then parseBool rep loc
  else if c =? 44 then parseDouble rep loc
  else if c =? 95 then parseNull rep loc
  else if c =? 40 then parseBigNumber rep loc
  else if c =? 61 then parseVerbatimString rep loc
  else if c =? 124 then parseAttributes rep loc
  else Some (false, callReplyParseError rep, loc).
End Rec.

(** The nesting of a reply is at most the number of its bytes: an aggregate
    takes at least its own header. *)
Fixpoint parseReply (fuel : nat) (rep : CallReply) (loc : list Z) : result :=
  match fuel with
  | O => None
  | S fuel => parse_switch (parseReply fuel) rep loc
  end.

(** ** The reply as the caller sees it *)

(** [callReplyCreate]: [garbage] is the rest of the fresh allocation. *)
Definition callReplyCreate (garbage : CallReply) (reply : list Z) : CallReply :=
  {| type := type garbage; rflags := REPLY_FLAG_ROOT; len := len garbage; val := val garbage;
     proto := reply; attribute := None |}.

(** The error text and the list of its one deferred error. *)
Definition callReplyCreateError (garbage : CallReply) (reply : list Z) : CallReply * list (list Z) :=
  let err_buff := if negb (hd 0 reply =? 45) then bs "-ERR " ++ reply ++ CRLF else reply in
  (callReplyCreate garbage err_buff, [cstr err_buff]).

Definition callReplyParse (rep : CallReply) : option CallReply :=
  if has (rflags rep) REPLY_FLAG_PARSED then Some rep
  else
    '(_, rep, _) ← parseReply (S (length (proto rep))) rep (proto rep);
    Some (or_flags rep REPLY_FLAG_PARSED).

(** The accessors below return their value for the parsed reply; [None] where
    the C function returns NULL or an error. *)
Definition callReplyType (rep : option CallReply) : option Z :=
  match rep with
  | None => Some REDISMODULE_REPLY_UNKNOWN
  | Some rep => type <$> callReplyParse rep
  end.

Definition str_of (rep : CallReply) : option (list Z) :=
  match val rep with val_str s => Some s | _ => None end.

Definition callReplyGetString (rep : CallReply) : option (list Z) :=
  rep ← callReplyParse rep;
  if negb (type rep =? REDISMODULE_REPLY_STRING) && negb (type rep =? REDISMODULE_REPLY_ERROR) then None
  else str_of rep.

Definition callReplyGetLongLong (rep : CallReply) : option Z :=
  rep ← callReplyParse rep;
  if negb (type rep =? REDISMODULE_REPLY_INTEGER) then Some LLONG_MIN
  else match val rep with val_ll n => Some n | _ => None end.

Definition callReplyGetDouble (rep : CallReply) : option double :=
  rep ← callReplyParse rep;
  if negb (type rep =? REDISMODULE_REPLY_DOUBLE) then Some (double_of_ll LLONG_MIN)
  else match val rep with val_d d => Some d | _ => None end.

Definition callReplyGetBool (rep : CallReply) : option Z :=
  rep ← callReplyParse rep;
  if negb (type rep =? REDISMODULE_REPLY_BOOL) then Some INT_MIN
  else match val rep with val_ll n => Some n | _ => None end.

Definition callReplyGetLen (rep : CallReply) : option Z :=
  rep ← callReplyParse rep;
  if bool_decide (type rep ∈ [REDISMODULE_REPLY_STRING; REDISMODULE_REPLY_ERROR; REDISMODULE_REPLY_ARRAY;
                              REDISMODULE_REPLY_SET; REDISMODULE_REPLY_MAP; REDISMODULE_REPLY_ATTRIBUTE])
  then Some (len rep) else Some 0.

Definition callReplyGetCollectionElement (rep : CallReply) (idx elements_per_entry : Z) : option CallReply :=
  if idx >=? len rep * elements_per_entry then None
  else match val rep with val_array l => l !! Z.to_nat idx | _ => None end.

Definition callReplyGetArrayElement (rep : CallReply) (idx : Z) : option CallReply :=
  rep ← callReplyParse rep;
  if negb (type rep =? REDISMODULE_REPLY_ARRAY) then None else callReplyGetCollectionElement rep idx 1.

Definition callReplyGetSetElement (rep : CallReply) (idx : Z) : option CallReply :=
  rep ← callReplyParse rep;
  if negb (type rep =? REDISMODULE_REPLY_SET) then None else callReplyGetCollectionElement rep idx 1.

(** The key and the value; [None] is [C_ERR]. *)
Definition callReplyGetMapElementInternal (rep : CallReply) (idx ty : Z)
    : option (option CallReply * option CallReply) :=
  rep ← callReplyParse rep;
  if negb (type rep =? ty) then None
  else if idx >=? len rep then None
  else Some (callReplyGetCollectionElement rep (idx * 2) 2, callReplyGetCollectionElement rep (idx * 2 + 1) 2).

Definition callReplyGetMapElement (rep : CallReply) (idx : Z) : option (option CallReply * option CallReply) :=
  callReplyGetMapElementInternal rep idx REDISMODULE_REPLY_MAP.

Definition callReplyGetAttribute (rep : CallReply) : option CallReply := attribute rep.

Definition callReplyGetAttributeElement (rep : CallReply) (idx : Z)
    : option (option CallReply * option CallReply) :=
  callReplyGetMapElementInternal rep idx REDISMODULE_REPLY_MAP.

Definition callReplyGetBigNumber (rep : CallReply) : option (list Z) :=
  rep ← callReplyParse rep;
  if negb (type rep =? REDISMODULE_REPLY_BIG_NUMBER) then None else str_of rep.

(** The text and its format. *)
Definition callReplyGetVerbatim (rep : CallReply) : option (list Z * list Z) :=
  rep ← callReplyParse rep;
  if negb (type rep =? REDISMODULE_REPLY_VERBATIM_STRING) then None
  else match val rep with val_verbatim_str s f => Some (s, f) | _ => None end.

Definition callReplyGetProto (rep : CallReply) : list Z := proto rep.

Definition callReplyIsResp3 (rep : CallReply) : bool := has (rflags rep) REPLY_FLAG_RESP3.

(** ** Reading back what was printed *)

(** A collection of the given elements. *)
Definition collection (rep : CallReply) (n : Z) (es : list CallReply) (p : list Z) : CallReply :=
  let f := if existsb (fun e => has (rflags e) REPLY_FLAG_RESP3) es then REPLY_FLAG_RESP3 else 0 in
  {| type := type rep; rflags := Z.lor (rflags rep) f; len := n; val := val_array es; proto := p;
     attribute := attribute rep |}.

Definition print_all (l : list wire) : list Z := concat (map print l).

(** The reply a protocol text stands for, put into [rep]. *)
Fixpoint fill (rep : CallReply) (w : wire) : CallReply :=
  let elements := map (fun w => or_flags (fill empty_reply w) REPLY_FLAG_PARSED) in
  let p := print w in
  match w with
  | WSimple s => callReplySimpleStr rep s p
  | WError s => callReplyError rep s p
  | WInt n => callReplyLong rep n p
  | WBulk s => callReplyBulkString rep s p
  | WNullBulk => callReplyNullBulkString rep p
  | WNullArray => callReplyNullArray rep p
  | WNull => callReplyNull rep p
  | WBool b => callReplyBool rep b p
  | WDouble d => callReplyDouble rep (canonical d) p
  | WBigNum s => callReplyBigNumber rep s p
  | WVerbatim ext s => callReplyVerbatimString rep ext s p
  | WArray l => collection (set_type rep REDISMODULE_REPLY_ARRAY) (zlen l) (elements l) p
  | WSet l =>
      or_flags (collection (set_type rep REDISMODULE_REPLY_SET) (zlen l) (elements l) p) REPLY_FLAG_RESP3
  | WMap l =>
      or_flags (collection (set_type rep REDISMODULE_REPLY_MAP) (zlen l / 2) (elements l) p) REPLY_FLAG_RESP3
  | WAttribute l w =>
      let att := collection (set_type empty_reply REDISMODULE_REPLY_ATTRIBUTE) (zlen l / 2) (elements l)
                   (enc_num 124 (zlen l / 2) ++ print_all l) in
      let att := or_flags att (Z.lor REPLY_FLAG_PARSED REPLY_FLAG_RESP3) in
      let rep := {| type := type rep; rflags := rflags rep; len := len rep; val := val rep;
                    proto := proto rep; attribute := Some att |} in
      let rep := fill rep w in
      {| type := type rep; rflags := Z.lor (rflags rep) REPLY_FLAG_RESP3; len := len rep;
         val := val rep; proto := p; attribute := attribute rep |}
  end.

Definition elements (l : list wire) : list CallReply :=
  map (fun w => or_flags (fill empty_reply w) REPLY_FLAG_PARSED) l.

Lemma header_line c t rest : text t -> header (enc_line c t ++ rest) = Some (t, rest).
Proof.
  intros H. unfold enc_line, header. simpl. rewrite <- app_assoc. simpl.
  rewrite strchr_app; [done|]. eapply Forall_impl; [done|]. by intros c' (? & _ & ?).
Qed.

Lemma number_header_num c n rest : is_i64 n -> number_header (enc_num c n ++ rest) = Some (n, rest).
Proof.
  intros H. unfold number_header, enc_num. rewrite header_line by apply sdec_text.
  by rewrite string2ll_sdec.
Qed.

Lemma upto_app p rest : upto (p ++ rest) rest = p.
Proof.
  unfold upto. rewrite length_app. replace (_ - _)%nat with (length p) by lia. by rewrite take_app_length.
Qed.

Lemma payload_of_app s rest : payload_of (zlen s) (s ++ CRLF ++ rest) = Some (s, rest).
Proof.
  unfold payload_of. rewrite !zlen_app. change (zlen CRLF) with 2.
  pose proof (zlen_nonneg s). pose proof (zlen_nonneg rest). zdec.
  unfold zlen. rewrite Nat2Z.id, take_app_length. do 2 f_equal.
  replace (Z.to_nat (Z.of_nat (length s) + 2)) with (length s + 2)%nat by lia.
  by rewrite <- drop_drop, drop_app_length.
Qed.

Definition reads (parse : CallReply -> list Z -> result) (w : wire) : Prop :=
  forall rep rest, parse rep (print w ++ rest) = Some (true, fill rep w, rest).

Lemma parse_elements_reads parse l rest :
  Forall (reads parse) l ->
  parse_elements parse (length l) (print_all l ++ rest) = Some (elements l, rest).
Proof.
  intros H. revert rest. induction H as [|w l Hw _ IH]; intros rest; simpl; [done|].
  unfold print_all in *. simpl. rewrite <- app_assoc, Hw. simpl. by rewrite IH.
Qed.

Lemma parseCollection_reads parse rep n k hdr l rest :
  0 <= n -> n * k = zlen l -> Forall (reads parse) l ->
  callReplyParseCollection parse rep n (hdr ++ print_all l ++ rest) (print_all l ++ rest) k
  = Some (collection rep n (elements l) (hdr ++ print_all l), rest).
Proof.
  intros H0 Hn H. unfold callReplyParseCollection. zdec. rewrite Hn.
  unfold zlen. rewrite Nat2Z.id, parse_elements_reads by done. simpl.
  rewrite app_assoc, upto_app. done.
Qed.

Lemma bulk_reads rep s rest :
  small s -> parseBulk rep (enc_bulk s ++ rest) = Some (true, callReplyBulkString rep s (enc_bulk s), rest).
Proof.
  intros H. unfold parseBulk, enc_bulk, small in *. pose proof (zlen_nonneg s).
  rewrite <- !app_assoc, number_header_num by (unfold is_i64; lia). cbn [mbind option_bind].
  rewrite (proj2 (Z.eqb_neq (zlen s) (-1))) by lia. rewrite payload_of_app. cbn [mbind option_bind].
  by rewrite !app_assoc, upto_app, <- !app_assoc.
Qed.

Lemma verbatim_reads rep e s rest :
  length e = 3%nat -> small s ->
  parseVerbatimString rep (enc_verbatim e s ++ rest)
  = Some (true, callReplyVerbatimString rep e s (enc_verbatim e s), rest).
Proof.
  intros He H. unfold parseVerbatimString, enc_verbatim, small in *. pose proof (zlen_nonneg s).
  assert (zlen (e ++ bs ":" ++ s) = zlen s + 4) as E.
  { rewrite !zlen_app. unfold zlen at 1. rewrite He. change (zlen (bs ":")) with 1. lia. }
  rewrite <- !app_assoc, number_header_num by (unfold is_i64; lia). cbn [mbind option_bind].
  replace (e ++ bs ":" ++ s ++ CRLF ++ rest) with ((e ++ bs ":" ++ s) ++ CRLF ++ rest)
    by (by rewrite <- !app_assoc).
  rewrite <- E, payload_of_app. cbn [mbind option_bind]. rewrite E. zdec.
  assert (take 3 (e ++ bs ":" ++ s) = e) as -> by (by rewrite <- He, take_app_length).
  assert (drop 4 (e ++ bs ":" ++ s) = s) as ->.
  { change 4%nat with (3 + 1)%nat. by rewrite <- drop_drop, <- He, drop_app_length. }
  rewrite <- !app_assoc.
  replace (enc_num 61 (zlen s + 4) ++ e ++ bs ":" ++ s ++ CRLF ++ rest)
    with ((enc_num 61 (zlen s + 4) ++ e ++ bs ":" ++ s ++ CRLF) ++ rest) by (by rewrite <- !app_assoc).
  by rewrite upto_app.
Qed.

Lemma array_reads parse rep l rest :
  small l -> Forall (reads parse) l ->
  parseArray parse rep (print (WArray l) ++ rest) = Some (true, fill rep (WArray l), rest).
Proof.
  intros Hs H. unfold parseArray. cbn [print]. change (concat (map print l)) with (print_all l).
  unfold small in Hs. pose proof (zlen_nonneg l).
  rewrite <- !app_assoc, number_header_num by (unfold is_i64; lia). cbn [mbind option_bind].
  rewrite (proj2 (Z.eqb_neq (zlen l) (-1))) by lia.
  unfold callReplyArray. by rewrite parseCollection_reads by (done || lia).
Qed.

Lemma set_reads parse rep l rest :
  small l -> Forall (reads parse) l ->
  parseSet parse rep (print (WSet l) ++ rest) = Some (true, fill rep (WSet l), rest).
Proof.
  intros Hs H. unfold parseSet. cbn [print]. change (concat (map print l)) with (print_all l).
  unfold small in Hs. pose proof (zlen_nonneg l).
  rewrite <- !app_assoc, number_header_num by (unfold is_i64; lia). cbn [mbind option_bind].
  unfold callReplySet. by rewrite parseCollection_reads by (done || lia).
Qed.

Lemma map_reads parse rep l rest :
  small l -> (exists k, zlen l = 2 * k) -> Forall (reads parse) l ->
  parseMap parse rep (print (WMap l) ++ rest) = Some (true, fill rep (WMap l), rest).
Proof.
  intros Hs [k Hk] H. unfold parseMap. cbn [print fill].
  assert (zlen l / 2 = k) as -> by (rewrite Hk, Z.mul_comm, Z.div_mul; lia). change (concat (map print l)) with (print_all l).
  unfold small in Hs. pose proof (zlen_nonneg l).
  rewrite <- !app_assoc, number_header_num by (unfold is_i64; lia). cbn [mbind option_bind].
  unfold callReplyMap. by rewrite parseCollection_reads by (done || lia).
Qed.

Lemma attribute_reads parse rep l w rest :
  small l -> (exists k, zlen l = 2 * k) -> Forall (reads parse) l -> reads parse w ->
  parseAttributes parse rep (print (WAttribute l w) ++ rest) = Some (true, fill rep (WAttribute l w), rest).
Proof.
  intros Hs [k Hk] H Hw. unfold parseAttributes. cbn [print fill].
  assert (zlen l / 2 = k) as -> by (rewrite Hk, Z.mul_comm, Z.div_mul; lia). change (concat (map print l)) with (print_all l).
  unfold small in Hs. pose proof (zlen_nonneg l).
  rewrite <- !app_assoc, number_header_num by (unfold is_i64; lia). cbn [mbind option_bind].
  unfold callReplyAttribute. rewrite parseCollection_reads by (done || lia). cbn [mbind option_bind].
  rewrite Hw. cbn [mbind option_bind]. rewrite !app_assoc, upto_app. by rewrite <- !app_assoc.
Qed.

Context {L : DoubleLaws D}.

Lemma line_upto c t rest : upto (enc_line c t ++ rest) rest = enc_line c t.
Proof. apply upto_app. Qed.

Lemma elements_reads fuel l c n tail :
  Forall (fun w => wire_ok w -> forall fuel, (length (print w) <= fuel)%nat -> reads (parseReply fuel) w) l ->
  Forall wire_ok l -> (length (enc_num c n ++ print_all l ++ tail) <= S fuel)%nat ->
  Forall (reads (parseReply fuel)) l.
Proof.
  intros H Hok Hf.
  assert (Forall (fun w => (length (print w) <= fuel)%nat -> reads (parseReply fuel) w) l) as H'
    by (apply (Forall_mp _ _ _ _ H Hok); auto).
  clear H. rename H' into H.
  assert (length (print_all l) <= fuel)%nat as Hl by (unfold enc_num, enc_line in Hf; simpl in Hf; rewrite !length_app in Hf; lia).
  clear Hok Hf. induction H as [|w l Hw _ IH]; constructor; unfold print_all in Hl; simpl in Hl;
    rewrite length_app in Hl; [apply Hw; lia|apply IH; unfold print_all; lia].
Qed.

Lemma print_length w : (1 <= length (print w))%nat.
Proof. destruct w; try destruct b; simpl; lia. Qed.

(** Fuel for every byte is enough. *)
Lemma parse_print w :
  wire_ok w -> forall fuel, (length (print w) <= fuel)%nat -> reads (parseReply fuel) w.
Proof.
  induction w using wire_nested_ind; intros Hok [|fuel] Hf rep rest;
    try (exfalso; match type of Hf with (length (print ?w) <= _)%nat => pose proof (print_length w) end; lia);
    simpl in Hok; cbn [parseReply].
  - change (parseSimpleString rep (enc_line 43 s ++ rest) = Some (true, fill rep (WSimple s), rest)).
    unfold parseSimpleString. rewrite header_line by done. cbn [mbind option_bind]. by rewrite line_upto.
  - change (parseError rep (enc_line 45 s ++ rest) = Some (true, fill rep (WError s), rest)).
    unfold parseError. rewrite header_line by done. cbn [mbind option_bind]. by rewrite line_upto.
  - change (parseLong rep (enc_num 58 n ++ rest) = Some (true, fill rep (WInt n), rest)).
    unfold parseLong. rewrite number_header_num by done. cbn [mbind option_bind]. by rewrite upto_app.
  - by apply bulk_reads.
  - change (parseBulk rep (enc_num 36 (-1) ++ rest) = Some (true, fill rep WNullBulk, rest)).
    unfold parseBulk. rewrite number_header_num by (unfold is_i64; lia). cbn [mbind option_bind Z.eqb Pos.eqb].
    by rewrite upto_app.
  - change (parseArray (parseReply fuel) rep (enc_num 42 (-1) ++ rest) = Some (true, fill rep WNullArray, rest)).
    unfold parseArray. rewrite number_header_num by (unfold is_i64; lia). cbn [mbind option_bind Z.eqb Pos.eqb].
    by rewrite upto_app.
  - change (parseNull rep (enc_line 95 [] ++ rest) = Some (true, fill rep WNull, rest)).
    unfold parseNull. rewrite header_line by constructor. cbn [mbind option_bind]. by rewrite line_upto.
  - destruct b;
      [change (parseBool rep (enc_line 35 [116] ++ rest) = Some (true, fill rep (WBool true), rest))
      |change (parseBool rep (enc_line 35 [102] ++ rest) = Some (true, fill rep (WBool false), rest))];
      unfold parseBool; rewrite header_line by (repeat constructor; discriminate);
      cbn [mbind option_bind]; by rewrite line_upto.
  - change (parseDouble rep (enc_line 44 (d2string d) ++ rest) = Some (true, fill rep (WDouble d), rest)).
    unfold parseDouble. rewrite header_line by apply d2string_text. cbn [mbind option_bind].
    rewrite line_upto. pose proof (d2string_length d). unfold MAX_LONG_DOUBLE_CHARS. zdec.
    by rewrite strtod_d2string.
  - change (parseBigNumber rep (enc_line 40 s ++ rest) = Some (true, fill rep (WBigNum s), rest)).
    unfold parseBigNumber. rewrite header_line by done. cbn [mbind option_bind]. by rewrite line_upto.
  - destruct Hok. by apply verbatim_reads.
  - destruct Hok as [Hs Hl%wire_ok_list]. apply array_reads; [done|].
    apply (elements_reads fuel l 42 (zlen l) []); rewrite ?app_nil_r; done.
  - destruct Hok as [Hs Hl%wire_ok_list]. apply set_reads; [done|].
    apply (elements_reads fuel l 126 (zlen l) []); rewrite ?app_nil_r; done.
  - destruct Hok as (Hs & Hk & Hl%wire_ok_list). apply map_reads; [done|done|].
    apply (elements_reads fuel l 37 (zlen l / 2) []); rewrite ?app_nil_r; done.
  - destruct Hok as (Hs & Hk & Hl%wire_ok_list & Hw). apply attribute_reads; [done|done| |].
    + by apply (elements_reads fuel l 124 (zlen l / 2) (print w)).
    + apply IHw; [done|]. cbn [print] in Hf. unfold enc_num, enc_line in Hf. simpl in Hf.
      rewrite !length_app in Hf. lia.
Qed.
End CallReply.

(** ** Values as they are read back *)

Section RoundTrip.
Context {D : Doubles} {L : DoubleLaws D}.

Lemma error_text_ok s : c_string s -> text (error_text s).
Proof.
  intros H.
  assert (text (one_line (sdstrim s CRLF))) as T.
  { assert (c_string (one_line (sdstrim s CRLF))) as N.
    { apply Forall_map, Forall_impl with (P := fun c => c <> 0); [by apply sdstrim_Forall|].
      intros c Hc. apply mapchar_nonzero; [done|repeat constructor; discriminate]. }
    apply (Forall_mp _ _ _ _ (sdsmapchars_crlf (sdstrim s CRLF)) N). by intros c [? ?] ?. }
  unfold error_text. destruct (_ || _); [|by apply Forall_drop].
  apply Forall_app. split; [repeat constructor; discriminate|done].
Qed.

Lemma wire_of_ok r v : value_ok v -> wire_ok (wire_of r v).
Proof.
  induction v using value_nested_ind; simpl; intros Hok.
  - done.
  - by apply error_text_ok.
  - done.
  - unfold is_u64 in Hok. pose proof (dec_length_bound n Hok).
    unfold LLONG_MAX. zcase; [unfold wire_ok, is_i64; lia|].
    zcase; [unfold wire_ok, small; lia|]. simpl. pose proof (sdec_text n) as T. unfold sdec in T.
    by rewrite (proj2 (Z.ltb_ge n 0)) in T by lia.
  - destruct Hok as [[Hi _] Hs]. unfold obj_text. destruct (sdsEncodedObject o); [done|].
    pose proof (sdec_length _ Hi). unfold small. lia.
  - by destruct (r =? 2).
  - by destruct (r =? 2).
  - destruct (r =? 2), b; simpl; unfold is_i64; auto; lia.
  - destruct (r =? 3); [done|]. pose proof (d2string_length d). simpl. unfold small. lia.
  - destruct Hok. by destruct (r =? 2).
  - destruct (r =? 2); [done|]. split; [exact (ext_bytes_length 3 e)|done].
  - destruct Hok as [Hs Hl%value_ok_list]. unfold small. rewrite zlen_map. split; [done|].
    apply wire_ok_list, Forall_map, (Forall_mp _ _ _ _ H Hl). auto.
  - destruct Hok as [Hs Hl%value_ok_list].
    assert (small (map (wire_of r) l) /\ Forall wire_ok (map (wire_of r) l)).
    { unfold small. rewrite zlen_map. split; [done|]. apply Forall_map, (Forall_mp _ _ _ _ H Hl). auto. }
    destruct (r =? 2); simpl; by rewrite wire_ok_list.
  - destruct Hok as [Hs Hl%value_ok_pairs].
    set (kvs := concat (map (fun kv => [wire_of r (fst kv); wire_of r (snd kv)]) l)).
    assert (zlen kvs = 2 * zlen l) as Ek by apply zlen_flatten.
    assert (Forall wire_ok kvs) as Hk.
    { apply Forall_concat, Forall_map, (Forall_mp _ _ _ _ H Hl).
      intros [k x] [I1 I2] [O1 O2]. repeat constructor; auto. }
    assert (small kvs) by (unfold small; lia).
    destruct (r =? 2); simpl; rewrite wire_ok_list; eauto.
Qed.
End RoundTrip.

(** The stream of a client that only got [v] parses, whole, to the reply for
    [v]; [callReplyParse] uses the fuel of the text's length. *)
Section EndToEnd.
Context {D : Doubles} {L : DoubleLaws D} (cfg : config) `{U : UsableSize cfg} (Q : quiet cfg).

Lemma send_stream w v :
  wf w -> accepts cfg (cl w) -> resp (cl w) = 2 \/ resp (cl w) = 3 -> value_ok v ->
  let w' := send cfg w v in
  wf w' /\ accepts cfg (cl w') /\ panicked (srv w') = panicked (srv w) /\
  stream (cl w') = stream (cl w) ++ print (wire_of (resp (cl w)) v).
Proof.
  intros W A R Hv w'.
  pose proof (send_sent cfg Q w v R Hv w [] (sent_refl cfg w W A)) as [S1 S2 _ S3].
  split_and!; auto; apply S3.
Qed.
End EndToEnd.

Lemma callReplyParse_print {D : Doubles} {L : DoubleLaws D} garbage w :
  wire_ok w ->
  let rep := callReplyCreate garbage (print w) in
  callReplyParse rep = Some (or_flags (fill rep w) REPLY_FLAG_PARSED).
Proof.
  intros H rep. unfold callReplyParse. change (has (rflags rep) REPLY_FLAG_PARSED) with false.
  cbn match. change (proto rep) with (print w).
  pose proof (parse_print w H (S (length (print w))) ltac:(lia) rep []) as E.
  rewrite app_nil_r in E. by rewrite E.
Qed.

(** ** Properties *)

(** C24: the reply parser reads exactly one value: for every well-formed
    protocol tree (RESP2 and RESP3, nested to any depth, attributes
    included) followed by any bytes at all, [parseReply] with fuel for each
    byte succeeds, builds the tree with its types, lengths, values, RESP3
    flags and the exact source text of every node, and stops at the first
    byte after the value. *)
Theorem parser_reads_one_value {D : Doubles} {L : DoubleLaws D} w fuel rep rest :
  wire_ok w -> (length (print w) <= fuel)%nat ->
  parseReply fuel rep (print w ++ rest) = Some (true, fill rep w, rest).
Proof. intros H Hf. by apply parse_print. Qed.

Lemma parser_reads_one_value_witness :
  let D := SmallDoubles.small_doubles in
  let w := WMap [WBulk (bs "k"); WArray [WInt (-5); WNull]] in
  parseReply 100 empty_reply (print w ++ bs "+next") = Some (true, fill empty_reply w, bs "+next").
Proof.
  intros D w. apply (@parser_reads_one_value D SmallDoubles.small_double_laws w 100 empty_reply (bs "+next")).
  - simpl. unfold small, is_i64. split_and!; try done. by exists 1.
  - vm_compute. lia.
Defined.

(** What a command replies is what its caller reads: for a client that
    takes output, of either protocol version and with an empty stream, the
    calls that send a value (nested arrays, sets and maps of strings, numbers,
    doubles, errors, ...) leave in its buffers a text that [callReplyCreate] and
    [callReplyParse] turn into exactly the reply tree of that value. *)
Theorem reply_roundtrip {D : Doubles} {L : DoubleLaws D} cfg w v garbage :
  UsableSize cfg -> quiet cfg -> wf w -> accepts cfg (cl w) -> resp (cl w) = 2 \/ resp (cl w) = 3 ->
  stream (cl w) = [] -> value_ok v ->
  let w' := send cfg w v in
  let rep := callReplyCreate garbage (stream (cl w')) in
  wf w' /\ panicked (srv w') = panicked (srv w) /\
  callReplyParse rep = Some (or_flags (fill rep (wire_of (resp (cl w)) v)) REPLY_FLAG_PARSED).
Proof.
  intros U Q W A R E Hv w' rep.
  destruct (send_stream cfg Q w v W A R Hv) as (W' & _ & P' & S'). rewrite E in S'. simpl in S'.
  split_and!; [done|done|]. subst rep. fold w' in S'. rewrite S'. by apply callReplyParse_print, wire_of_ok.
Qed.

Lemma reply_roundtrip_witness :
  let D := SmallDoubles.small_doubles in
  let v := VArray [VInt 7; VNull; VBool true] in
  let w' := send example_config example_world v in
  callReplyParse (callReplyCreate empty_reply (stream (cl w')))
  = Some (or_flags (fill (callReplyCreate empty_reply (stream (cl w')))
                      (WArray [WInt 7; WNullBulk; WInt 1])) REPLY_FLAG_PARSED).
Proof.
  intros D v w'.
  apply (@reply_roundtrip D SmallDoubles.small_double_laws example_config example_world v empty_reply
           example_usable eq_refl example_wf example_accepts (or_introl eq_refl) eq_refl).
  simpl. unfold small, is_i64. split_and!; done.
Defined.

(** No element of an attribute reply can be fetched:
    [callReplyGetAttributeElement] asks for the map type, so on every reply
    that is an attribute it returns [C_ERR], whatever the index. *)
Theorem attribute_element_unreachable {D : Doubles} rep p idx :
  callReplyParse rep = Some p -> type p = REDISMODULE_REPLY_ATTRIBUTE ->
  callReplyGetAttributeElement rep idx = None.
Proof.
  intros E T. unfold callReplyGetAttributeElement, callReplyGetMapElementInternal.
  rewrite E. cbn [mbind option_bind]. by rewrite T.
Qed.

Lemma attribute_element_unreachable_witness :
  let D := SmallDoubles.small_doubles in
  let rep := callReplyCreate empty_reply (print (WAttribute [WInt 1; WInt 2] (WInt 3))) in
  exists att, (p ← callReplyParse rep; callReplyGetAttribute p) = Some att /\
    type att = REDISMODULE_REPLY_ATTRIBUTE /\ len att = 1 /\ callReplyGetAttributeElement att 0 = None.
Proof.
  intros D rep.
  pose proof (@callReplyParse_print D SmallDoubles.small_double_laws empty_reply
                (WAttribute [WInt 1; WInt 2] (WInt 3))) as E. fold rep in E.
  eexists. split; [|split; [|split]].
  - rewrite E; [reflexivity|]. simpl. unfold small, is_i64. split_and!; try done. by exists 1.
  - reflexivity.
  - reflexivity.
  - eapply (attribute_element_unreachable _ _ 0); reflexivity.
Defined.
