(* ===== verification/Lua.v ===== *)
(** The Moonquakes runtime as its C API shows it.

    Moonquakes is a separate library; what the Rain-Call host relies on is the
    documented behaviour of the Lua 5.4 style API, given here as a class. [lua]
    is the observable state (value stack, tables, globals), the functions on
    it say what each API call does to that state, and [MoonquakesLaws] states
    that the runtime's calls do that. A state is observed by [view]. *)

From stdpp Require Import base list numbers strings gmap.
From coqutil Require Import Datatypes.RecordSetters.
From S2P Require Import Prelude Numbers Doubles.
Import TriangleBracketNotations.

Local Open Scope Z_scope.

Definition MQ_OK : Z := 0.
Definition MQ_TNIL : Z := 0.
Definition MQ_TBOOLEAN : Z := 1.
Definition MQ_TNUMBER : Z := 3.
Definition MQ_TSTRING : Z := 4.
Definition MQ_TTABLE : Z := 5.
Definition MQ_TFUNCTION : Z := 6.

Section Lua.
Context {D : Doubles}.

(** Values; a table is a reference, [LOther] any value of another type. *)
Inductive lval : Type :=
| LNil
| LBoolean (b : bool)
| LInteger (n : Z)
| LNumber (d : double)
| LString (s : list Z)
| LTable (t : positive)
| LFunction (name : list Z)
| LOther (ty : Z).

(** Integer and string keys. *)
Definition lkey : Type := (Z + list Z)%type.
Definition ltable : Type := gmap lkey lval.

(** The stack is listed from its top; [lnext] is the next fresh table. *)
Record lua : Type := {
  lstack : list lval;
  lheap : gmap positive ltable;
  lnext : positive;
  lglobals : gmap (list Z) lval
}.

(** Assigning nil removes the entry. *)
Definition table_set (tbl : ltable) (k : lkey) (v : lval) : ltable :=
  match v with LNil => delete k tbl | _ => <[k := v]> tbl end.

Definition table_get (tbl : ltable) (k : lkey) : lval := default LNil (tbl !! k).

Definition push (v : lval) (l : lua) : lua := l<| lstack ::= cons v |>.

Definition pop (n : nat) (l : lua) : lua := l<| lstack ::= drop n |>.

Definition new_table (l : lua) : lua :=
  {| lstack := LTable (lnext l) :: lstack l; lheap := <[lnext l := ∅]> (lheap l);
     lnext := Pos.succ (lnext l); lglobals := lglobals l |}.

(** [t[k] = v] for the value on top and the table below it. *)
Definition set_below (k : lkey) (l : lua) : lua :=
  match lstack l with
  | v :: LTable t :: s =>
      l<| lstack := LTable t :: s |><| lheap ::= alter (fun tbl => table_set tbl k v) t |>
  | _ => l
  end.

(** [settop] to a height not above the current one. *)
Definition set_top (n : nat) (l : lua) : lua := l<| lstack ::= fun s => drop (length s - n) s |>.

(** The value at an API index: from the bottom when positive. *)
Definition at_index (l : lua) (i : Z) : lval :=
  let s := lstack l in
  default LNil (if i >? 0 then reverse s !! Z.to_nat (i - 1) else s !! Z.to_nat (- i - 1)).

Definition type_of (v : lval) : Z :=
  match v with
  | LNil => MQ_TNIL | LBoolean _ => MQ_TBOOLEAN | LInteger _ | LNumber _ => MQ_TNUMBER
  | LString _ => MQ_TSTRING | LTable _ => MQ_TTABLE | LFunction _ => MQ_TFUNCTION | LOther ty => ty
  end.

(** What a C function hands back to Lua: its number of results, or an error
    whose value is on top. *)
Definition cresult : Type := Z.
End Lua.

Class Moonquakes {D : Doubles} : Type := {
  mq_State : Type;
  view : mq_State -> lua;
  mq_pushnil : mq_State -> mq_State;
  mq_pushboolean : mq_State -> bool -> mq_State;
  mq_pushinteger : mq_State -> Z -> mq_State;
  mq_pushnumber : mq_State -> double -> mq_State;
  mq_pushlstring : mq_State -> list Z -> mq_State;
  mq_pushcfunction : mq_State -> list Z -> mq_State;
  mq_newtable : mq_State -> mq_State;
  mq_seti : mq_State -> Z -> mq_State;
  mq_setfield : mq_State -> list Z -> mq_State;
  mq_setglobal : mq_State -> list Z -> mq_State;
  mq_geti : mq_State -> Z -> mq_State;
  mq_len : mq_State -> mq_State;
  mq_settop : mq_State -> nat -> mq_State;
  mq_pop : mq_State -> nat -> mq_State;
  (** the text of a number, and the length [#] gives a table *)
  mq_numtext : double -> list Z;
  mq_border : ltable -> Z;
  mq_typename : Z -> list Z
}.

Section Api.
Context {D : Doubles} {M : Moonquakes}.

Definition mq_gettop (L : mq_State) : Z := zlen (lstack (view L)).
Definition mq_type (L : mq_State) (i : Z) : Z := type_of (at_index (view L) i).

(** Strings, and numbers as their text; [None] is NULL. *)
Definition mq_tolstring (L : mq_State) (i : Z) : option (list Z) :=
  match at_index (view L) i with
  | LString s => Some s
  | LInteger n => Some (sdec n)
  | LNumber d => Some (mq_numtext d)
  | _ => None
  end.

(** The integer of an integer value; numeric strings and floats with an exact
    integer value convert as [mq_tointegerx] does, through [conv]. *)
Definition mq_tointegerx (conv : lval -> option Z) (L : mq_State) (i : Z) : option Z :=
  match at_index (view L) i with
  | LInteger n => Some n
  | LNumber d => conv (LNumber d)
  | LString s => conv (LString s)
  | _ => None
  end.

Definition mq_toboolean (L : mq_State) (i : Z) : bool :=
  match at_index (view L) i with LNil | LBoolean false => false | _ => true end.
End Api.

(** The documented effects. [mq_border_law]: the length of a table is a border
    of its integer keys. *)
Class MoonquakesLaws {D : Doubles} (M : Moonquakes) : Prop := {
  view_pushnil L : view (mq_pushnil L) = push LNil (view L);
  view_pushboolean L b : view (mq_pushboolean L b) = push (LBoolean b) (view L);
  view_pushinteger L n : view (mq_pushinteger L n) = push (LInteger n) (view L);
  view_pushnumber L d : view (mq_pushnumber L d) = push (LNumber d) (view L);
  view_pushlstring L s : view (mq_pushlstring L s) = push (LString s) (view L);
  view_pushcfunction L f : view (mq_pushcfunction L f) = push (LFunction f) (view L);
  view_newtable L : view (mq_newtable L) = new_table (view L);
  view_seti L i : view (mq_seti L i) = set_below (inl i) (view L);
  view_setfield L k : view (mq_setfield L k) = set_below (inr k) (view L);
  view_setglobal L k v s :
    lstack (view L) = v :: s ->
    view (mq_setglobal L k) = (view L)<| lstack := s |><| lglobals ::= insert k v |>;
  view_geti L i t s tbl :
    lstack (view L) = LTable t :: s -> lheap (view L) !! t = Some tbl ->
    view (mq_geti L i) = push (table_get tbl (inl i)) (view L);
  view_len L t s tbl :
    lstack (view L) = LTable t :: s -> lheap (view L) !! t = Some tbl ->
    view (mq_len L) = push (LInteger (mq_border tbl)) (view L);
  view_settop L n : (n <= length (lstack (view L)))%nat -> view (mq_settop L n) = set_top n (view L);
  view_pop L n : view (mq_pop L n) = pop n (view L);
  mq_border_law tbl :
    0 <= mq_border tbl /\
    (mq_border tbl = 0 \/ tbl !! inl (mq_border tbl) <> None) /\ tbl !! inl (mq_border tbl + 1) = None;
  mq_border_i64 tbl : Z.of_nat (base.size tbl) < 2 ^ 62 -> mq_border tbl < 2 ^ 62;
  mq_typename_text ty : text (mq_typename ty)
}.

#[export] Hint Rewrite @view_pushnil @view_pushboolean @view_pushinteger @view_pushnumber
  @view_pushlstring @view_pushcfunction @view_newtable @view_seti @view_setfield @view_pop
  using (typeclasses eauto) : mq.

(** ** A runtime to evaluate with *)

Module SmallLua.
Section SmallLua.
Context {D : Doubles}.

(** The first border, looking at keys 1, 2, ... and dropping each one found. *)
Fixpoint border_from (fuel : nat) (n : Z) (tbl : ltable) : Z :=
  match fuel with
  | O => n
  | S fuel =>
      match tbl !! inl (n + 1) with
      | None => n
      | Some _ => border_from fuel (n + 1) (delete (inl (n + 1)) tbl)
      end
  end.

Definition border (tbl : ltable) : Z := border_from (S (base.size tbl)) 0 tbl.

Lemma border_from_spec fuel n tbl :
  0 <= n -> (base.size tbl < fuel)%nat ->
  let b := border_from fuel n tbl in
  n <= b <= n + Z.of_nat (base.size tbl) /\ (b = n \/ tbl !! inl b <> None) /\ tbl !! inl (b + 1) = None.
Proof.
  revert n tbl. induction fuel as [|fuel IH]; intros n tbl Hn Hs; [lia|]. simpl.
  destruct (tbl !! inl (n + 1)) as [v|] eqn:E; [|split_and!; auto; lia].
  unfold ltable, lkey in *.
  assert (base.size (delete (inl (n + 1)) tbl) = Nat.pred (base.size tbl)) as Hd
    by (eapply map_size_delete_Some; eexists; exact E).
  assert (base.size tbl <> 0)%nat as H0 by (intros H0%map_size_empty_iff; by rewrite H0 in E).
  destruct (IH (n + 1) (delete (inl (n + 1)) tbl)) as (B1 & B2 & B3); [lia|lia|].
  set (b := border_from fuel (n + 1) _) in *.
  rewrite lookup_delete_ne in B3 by (intros [= ?]; lia).
  split_and!; [lia|lia| |done].
  right. destruct B2 as [->|B2]; [by rewrite E|].
  intros Hb. apply B2. destruct (decide (b = n + 1)) as [->|]; [by rewrite lookup_delete_eq|].
  by rewrite lookup_delete_ne by (intros [= ?]; lia).
Qed.

(** The state is its own view. *)
Definition small_lua : Moonquakes := {|
  mq_State := lua;
  view l := l;
  mq_pushnil := push LNil;
  mq_pushboolean l b := push (LBoolean b) l;
  mq_pushinteger l n := push (LInteger n) l;
  mq_pushnumber l d := push (LNumber d) l;
  mq_pushlstring l s := push (LString s) l;
  mq_pushcfunction l f := push (LFunction f) l;
  mq_newtable := new_table;
  mq_seti l i := set_below (inl i) l;
  mq_setfield l k := set_below (inr k) l;
  mq_setglobal l k :=
    match lstack l with v :: s => l<| lstack := s |><| lglobals ::= insert k v |> | [] => l end;
  mq_geti l i :=
    match lstack l with
    | LTable t :: _ => push (table_get (default ∅ (lheap l !! t)) (inl i)) l
    | _ => l
    end;
  mq_len l :=
    match lstack l with
    | LTable t :: _ => push (LInteger (border (default ∅ (lheap l !! t)))) l
    | _ => l
    end;
  mq_settop l n := set_top n l;
  mq_pop l n := pop n l;
  mq_numtext := d2string;
  mq_border := border;
  mq_typename _ := bs "function"
|}.

#[local] Existing Instance small_lua.

Lemma small_lua_laws : MoonquakesLaws small_lua.
Proof.
  constructor; try done.
  - intros L k v s E. simpl in *. by rewrite E.
  - intros L i t s tbl E H. simpl in *. by rewrite E, H.
  - intros L t s tbl E H. simpl in *. by rewrite E, H.
  - intros tbl. destruct (border_from_spec (S (base.size tbl)) 0 tbl) as (B1 & B2 & B3); [lia|lia|].
    split_and!; [apply B1|exact B2|exact B3].
  - intros tbl H. destruct (border_from_spec (S (base.size tbl)) 0 tbl) as (B1 & _); [lia|lia|].
    change (mq_border tbl) with (border_from (S (base.size tbl)) 0 tbl). lia.
  - intros ty. repeat constructor; discriminate.
Qed.
End SmallLua.
End SmallLua.
