(* ===== verification/RainCall.v ===== *)
(** The Rain-Call host library (utils/raincall/raincall.c): backend-independent
    replies, their conversion to Lua values, the TCP backend, the pair of
    global states and the Lua functions RAIN.CALL and RAIN.CONNECT.

    [malloc] may fail: the oracle [malloc_ok n] says whether the n-th
    allocation succeeds. hiredis calls are parameters ([Hiredis]); the
    in-process backend is a parameter here and supplied by RainInprocess.v.
    [Sys] is the state those act on. *)

From stdpp Require Import base list numbers strings gmap.
From coqutil Require Import Datatypes.RecordSetters.
From S2P Require Import Prelude Numbers Sds Doubles Lua.
Import TriangleBracketNotations.

Local Open Scope Z_scope.

(** ** Replies (raincall.h) *)

Inductive raincall_ReplyType : Type :=
| RAINCALL_REPLY_STATUS | RAINCALL_REPLY_STRING | RAINCALL_REPLY_INTEGER | RAINCALL_REPLY_NIL
| RAINCALL_REPLY_ARRAY | RAINCALL_REPLY_ERROR | RAINCALL_REPLY_DOUBLE | RAINCALL_REPLY_BOOL
| RAINCALL_REPLY_MAP | RAINCALL_REPLY_SET | RAINCALL_REPLY_ATTR | RAINCALL_REPLY_PUSH
| RAINCALL_REPLY_VERB | RAINCALL_REPLY_BIGNUM.

#[export] Instance raincall_ReplyType_eq_dec : EqDecision raincall_ReplyType.
Proof. solve_decision. Defined.

(** hiredis reply types (deps/hiredis/read.h). *)
Definition REDIS_REPLY_STRING : Z := 1.
Definition REDIS_REPLY_ARRAY : Z := 2.
Definition REDIS_REPLY_INTEGER : Z := 3.
Definition REDIS_REPLY_NIL : Z := 4.
Definition REDIS_REPLY_STATUS : Z := 5.
Definition REDIS_REPLY_ERROR : Z := 6.
Definition REDIS_REPLY_DOUBLE : Z := 7.
Definition REDIS_REPLY_BOOL : Z := 8.
Definition REDIS_REPLY_MAP : Z := 9.
Definition REDIS_REPLY_SET : Z := 10.
Definition REDIS_REPLY_ATTR : Z := 11.
Definition REDIS_REPLY_PUSH : Z := 12.
Definition REDIS_REPLY_BIGNUM : Z := 13.
Definition REDIS_REPLY_VERB : Z := 14.

(** [snprintf(buf, size, "%s", s)]. *)
Definition snprintf (size : nat) (s : list Z) : list Z := take (size - 1) s.

Section RainCall.
Context {D : Doubles}.

(** [r_str] is NULL or a buffer of [len] bytes, so [len] is its length and 0
    for NULL; [elements] is the length of [r_element]. *)
Inductive raincall_Reply : Type := mkRainReply {
  r_type : raincall_ReplyType;
  r_str : option (list Z);
  r_integer : Z;
  r_number : double;
  r_element : list raincall_Reply
}.

Definition r_text (r : raincall_Reply) : list Z := default [] (r_str r).

Definition raincall_reply_new (ty : raincall_ReplyType) : raincall_Reply :=
  {| r_type := ty; r_str := None; r_integer := 0; r_number := double_of_ll 0; r_element := [] |}.

(** hiredis' [redisReply]. *)
Inductive redisReply : Type := mkRedisReply {
  h_type : Z; h_integer : Z; h_dval : double; h_str : option (list Z); h_element : list redisReply
}.

Definition raincall_reply_type_from_hiredis (ty : Z) : raincall_ReplyType :=
  if ty =? REDIS_REPLY_STATUS then RAINCALL_REPLY_STATUS
  else if ty =? REDIS_REPLY_STRING then RAINCALL_REPLY_STRING
  else if ty =? REDIS_REPLY_INTEGER then RAINCALL_REPLY_INTEGER
  else if ty =? REDIS_REPLY_NIL then RAINCALL_REPLY_NIL
  else if ty =? REDIS_REPLY_ARRAY then RAINCALL_REPLY_ARRAY
  else if ty =? REDIS_REPLY_ERROR then RAINCALL_REPLY_ERROR
  else if ty =? REDIS_REPLY_DOUBLE then RAINCALL_REPLY_DOUBLE
  else if ty =? REDIS_REPLY_BOOL then RAINCALL_REPLY_BOOL
  else if ty =? REDIS_REPLY_MAP then RAINCALL_REPLY_MAP
  else if ty =? REDIS_REPLY_SET then RAINCALL_REPLY_SET
  else if ty =? REDIS_REPLY_ATTR then RAINCALL_REPLY_ATTR
  else if ty =? REDIS_REPLY_PUSH then RAINCALL_REPLY_PUSH
  else if ty =? REDIS_REPLY_VERB then RAINCALL_REPLY_VERB
  else if ty =? REDIS_REPLY_BIGNUM then RAINCALL_REPLY_BIGNUM
  else RAINCALL_REPLY_ERROR.

Section Alloc.
Context (malloc_ok : nat -> bool).

(** The element loop, which stops at the first failure. *)
Fixpoint convert_elements (convert : redisReply -> nat -> option raincall_Reply * nat)
    (es : list redisReply) (n : nat) : option (list raincall_Reply) * nat :=
  match es with
  | [] => (Some [], n)
  | e :: es =>
      match convert e n with
      | (None, n) => (None, n)
      | (Some r, n) =>
          match convert_elements convert es n with
          | (None, n) => (None, n)
          | (Some l, n) => (Some (r :: l), n)
          end
      end
  end.

(** The reply (or NULL) and the number of allocations made so far. *)
Fixpoint raincall_reply_from_hiredis (src : redisReply) (n : nat) : option raincall_Reply * nat :=
  if negb (malloc_ok n) then (None, S n)
  else
    let n := S n in
    let copied : option (option (list Z)) * nat :=
      match h_str src with
      | Some s => if 0 <? zlen s then (if malloc_ok n then Some (Some s) else None, S n) else (Some None, n)
      | None => (Some None, n)
      end in
    match copied with
    | (None, n) => (None, n)
    | (Some str, n) =>
        let reply es :=
          {| r_type := raincall_reply_type_from_hiredis (h_type src); r_str := str;
             r_integer := h_integer src; r_number := h_dval src; r_element := es |} in
        match h_element src with
        | [] => (Some (reply []), n)
        | es =>
            if negb (malloc_ok n) then (None, S n)
            else
              let '(l, n) := convert_elements raincall_reply_from_hiredis es (S n) in
              (reply <$> l, n)
        end
    end.
End Alloc.
End RainCall.

(** ** Replies as Lua values *)

Section Push.
Context {D : Doubles} {M : Moonquakes}.

Definition mq_pushstring (L : mq_State) (s : list Z) : mq_State := mq_pushlstring L (cstr s).

Definition raincall_raise (L : mq_State) (msg : list Z) : Z * mq_State := (-1, mq_pushstring L msg).

Section Rec.
(** [raincall_push_reply] itself, for the elements. *)
Context (push_reply : mq_State -> raincall_Reply -> Z * mq_State).

Fixpoint push_elements (L : mq_State) (i : Z) (es : list raincall_Reply) : Z * mq_State :=
  match es with
  | [] => (1, L)
  | e :: es =>
      let '(pushed, L) := push_reply L e in
      if pushed <? 0 then (pushed, L) else push_elements (mq_seti L i) (i + 1) es
  end.

Definition raincall_push_aggregate_reply (L : mq_State) (es : list raincall_Reply) : Z * mq_State :=
  push_elements (mq_newtable L) 1 es.

(** An odd last element is not looked at. *)
Fixpoint push_pairs (L : mq_State) (pair : Z) (es : list raincall_Reply) : Z * mq_State :=
  match es with
  | k :: v :: es =>
      let L := mq_newtable L in
      let '(pushed, L) := push_reply L k in
      if pushed <? 0 then (pushed, L)
      else
        let L := mq_setfield L (bs "key") in
        let '(pushed, L) := push_reply L v in
        if pushed <? 0 then (pushed, L)
        else
          let L := mq_setfield L (bs "value") in
          push_pairs (mq_seti L pair) (pair + 1) es
  | _ => (1, L)
  end.

Definition raincall_push_map_reply (L : mq_State) (es : list raincall_Reply) : Z * mq_State :=
  push_pairs (mq_newtable L) 1 es.
End Rec.

(** Every type has its case, so the default of the switch is never reached. *)
Fixpoint raincall_push_reply (L : mq_State) (reply : raincall_Reply) : Z * mq_State :=
  match reply with
  | mkRainReply ty _ integer number element =>
      match ty with
      | RAINCALL_REPLY_STATUS | RAINCALL_REPLY_STRING | RAINCALL_REPLY_VERB | RAINCALL_REPLY_BIGNUM =>
          (1, mq_pushlstring L (r_text reply))
      | RAINCALL_REPLY_INTEGER => (1, mq_pushinteger L integer)
      | RAINCALL_REPLY_DOUBLE => (1, mq_pushnumber L number)
      | RAINCALL_REPLY_BOOL => (1, mq_pushboolean L (negb (integer =? 0)))
      | RAINCALL_REPLY_NIL => (1, mq_pushnil L)
      | RAINCALL_REPLY_ERROR => (-1, mq_pushlstring L (r_text reply))
      | RAINCALL_REPLY_ARRAY | RAINCALL_REPLY_SET | RAINCALL_REPLY_ATTR | RAINCALL_REPLY_PUSH =>
          raincall_push_aggregate_reply raincall_push_reply L element
      | RAINCALL_REPLY_MAP => raincall_push_map_reply raincall_push_reply L element
      end
  end.
End Push.

(** ** Backends and the global states *)

Section Host.
Context {D : Doubles} {M : Moonquakes} {Sys : Type}.

(** The connection functions of hiredis: connecting gives no context, a
    context with its error text, or a usable one; a command gives its reply or
    none with the context's error text. *)
Class Hiredis : Type := {
  redisContext : Type;
  redisConnect : Sys -> list Z -> Z -> option (redisContext * option (list Z)) * Sys;
  redisCommandArgv : Sys -> redisContext -> list (list Z) -> (redisReply + list Z) * Sys;
  redisFree : Sys -> redisContext -> Sys
}.

(** The vtable of the in-process backend: a failed call is [None]. *)
Class Inprocess : Type := {
  inprocess_call : Sys -> list (list Z) -> option raincall_Reply * Sys;
  inprocess_last_error : Sys -> list Z;
  inprocess_close : Sys -> Sys
}.

Context {H : Hiredis} {I : Inprocess} (malloc_ok : nat -> bool).

Record raincall_TcpBackend : Type := {
  tcp_host : list Z; tcp_port : Z; tcp_redis : redisContext; tcp_error : list Z
}.

Inductive raincall_Backend : Type := Tcp (tcp : raincall_TcpBackend) | InProcess.

(** The statics [default_state] and [installed_state] point to states, which
    are live as long as they are in [states]. *)
Record rain : Type := {
  default_state : option nat;
  installed_state : option nat;
  states : gmap nat raincall_Backend;
  next_state : nat;
  clock : nat;
  sys : Sys
}.

(** One allocation. *)
Definition malloc (w : rain) : bool * rain := (malloc_ok (clock w), w<| clock ::= S |>).

Definition raincall_tcp_set_error (tcp : raincall_TcpBackend) (err : list Z) : raincall_TcpBackend :=
  {| tcp_host := tcp_host tcp; tcp_port := tcp_port tcp; tcp_redis := tcp_redis tcp;
     tcp_error := snprintf 256 (match cstr err with [] => bs "unknown error" | e => e end) |}.

(** The reply or a failure, with the backend afterwards. *)
Definition raincall_tcp_call (tcp : raincall_TcpBackend) (argv : list (list Z)) (w : rain)
    : option raincall_Reply * raincall_TcpBackend * rain :=
  let '(r, s) := redisCommandArgv (sys w) (tcp_redis tcp) argv in
  let w := w<| sys := s |> in
  match r with
  | inr errstr =>
      (None, raincall_tcp_set_error tcp
               (match cstr errstr with [] => bs "Redis command failed" | e => e end), w)
  | inl redis_reply =>
      let '(out, n) := raincall_reply_from_hiredis malloc_ok redis_reply (clock w) in
      let w := w<| clock := n |> in
      match out with
      | None => (None, raincall_tcp_set_error tcp (bs "out of memory"), w)
      | Some reply => (Some reply, tcp, w)
      end
  end.

Definition raincall_tcp_close (tcp : raincall_TcpBackend) (w : rain) : rain :=
  w<| sys ::= fun s => redisFree s (tcp_redis tcp) |>.

Definition raincall_tcp_open (host : list Z) (port : Z) (w : rain) : option raincall_TcpBackend * rain :=
  if (port <=? 0) || (port >? 65535) then (None, w)
  else
    let '(ok, w) := malloc w in
    if negb ok then (None, w)
    else
      let '(ok, w) := malloc w in (* raincall_strdup *)
      if negb ok then (None, w)
      else
        let '(r, s) := redisConnect (sys w) host port in
        let w := w<| sys := s |> in
        match r with
        | None => (None, w)
        | Some (ctx, Some errstr) => (None, w<| sys ::= fun s => redisFree s ctx |>)
        | Some (ctx, None) =>
            (Some {| tcp_host := host; tcp_port := port; tcp_redis := ctx; tcp_error := [] |}, w)
        end.

(** A new state with its backend. *)
Definition new_state (b : raincall_Backend) (w : rain) : nat * rain :=
  (next_state w, w<| states ::= insert (next_state w) b |><| next_state ::= S |>).

Definition raincall_open (host : list Z) (port : Z) (w : rain) : option nat * rain :=
  let '(ok, w) := malloc w in
  if negb ok then (None, w)
  else
    let '(b, w) := raincall_tcp_open host port w in
    match b with
    | None => (None, w)
    | Some tcp => let '(R, w) := new_state (Tcp tcp) w in (Some R, w)
    end.

Definition raincall_open_backend (b : option raincall_Backend) (w : rain) : option nat * rain :=
  match b with
  | None => (None, w)
  | Some b =>
      let '(ok, w) := malloc w in
      if negb ok then (None, w) else let '(R, w) := new_state b w in (Some R, w)
  end.

(** Closing a state that is not live is a double free: [None]. *)
Definition raincall_close (R : option nat) (w : rain) : option rain :=
  match R with
  | None => Some w
  | Some R =>
      match states w !! R with
      | None => None
      | Some b =>
          let w := match b with
                   | Tcp tcp => raincall_tcp_close tcp w
                   | InProcess => w<| sys ::= inprocess_close |>
                   end in
          Some (w<| states ::= delete R |>)
      end
  end.

Definition raincall_get_state (w : rain) : option nat * rain :=
  match installed_state w with
  | Some R => (Some R, w)
  | None =>
      let w :=
        match default_state w with
        | None => let '(R, w) := raincall_open (bs "127.0.0.1") 6379 w in w<| default_state := R |>
        | Some _ => w
        end in
      (default_state w, w)
  end.

(** [R->backend->error], for a live state. *)
Definition backend_error (b : raincall_Backend) (w : rain) : list Z :=
  match b with Tcp tcp => tcp_error tcp | InProcess => inprocess_last_error (sys w) end.

Definition raincall_raise_redis (L : mq_State) (b : raincall_Backend) (prefix : list Z) (w : rain)
    : Z * mq_State :=
  let err := match cstr (backend_error b w) with [] => bs "unknown error" | e => e end in
  raincall_raise L (snprintf 512 (prefix ++ bs ": " ++ err)).

(** [R->backend->call]: the result and the backend afterwards. *)
Definition backend_call (b : raincall_Backend) (argv : list (list Z)) (w : rain)
    : option raincall_Reply * raincall_Backend * rain :=
  match b with
  | Tcp tcp => let '(r, tcp, w) := raincall_tcp_call tcp argv w in (r, Tcp tcp, w)
  | InProcess => let '(r, s) := inprocess_call (sys w) argv in (r, InProcess, w<| sys := s |>)
  end.

(** The arguments as strings, the first one at index [i]. *)
Fixpoint tolstrings (L : mq_State) (i : Z) (n : nat) : option (list (list Z)) :=
  match n with
  | O => Some []
  | S n => s ← mq_tolstring L i; ss ← tolstrings L (i + 1) n; Some (s :: ss)
  end.

(** RAIN.CALL; [None] is the use of a state that was closed. *)
Definition rain_call (L : mq_State) (w : rain) : option (Z * mq_State * rain) :=
  let argc := mq_gettop L in
  let raise (msg : list Z) (w : rain) := let '(ret, L) := raincall_raise L msg in Some (ret, L, w) in
  if argc <? 1 then raise (bs "RAIN.CALL: expected command name") w
  else
    let '(R, w) := raincall_get_state w in
    match R with
    | None => raise (bs "RAIN.CALL: Redis backend is not connected") w
    | Some R =>
        let '(ok1, w) := malloc w in
        let '(ok2, w) := malloc w in
        if negb (ok1 && ok2) then raise (bs "RAIN.CALL: out of memory") w
        else
          match tolstrings L 1 (Z.to_nat argc) with
          | None => raise (bs "RAIN.CALL: command arguments must be strings or numbers") w
          | Some argv =>
              b ← states w !! R;
              let '(reply, b, w) := backend_call b argv w in
              let w := w<| states ::= insert R b |> in
              match reply with
              | None =>
                  let '(ret, L) := raincall_raise_redis L b (bs "RAIN.CALL") w in Some (ret, L, w)
              | Some reply => let '(ret, L) := raincall_push_reply L reply in Some (ret, L, w)
              end
          end
    end.

(** RAIN.CONNECT; [conv] converts non-integer values for [mq_tointegerx]. *)
Definition rain_connect (conv : lval -> option Z) (L : mq_State) (w : rain)
    : option (Z * mq_State * rain) :=
  let raise (msg : list Z) (w : rain) := let '(ret, L) := raincall_raise L msg in Some (ret, L, w) in
  match mq_tolstring L 1, mq_tointegerx conv L 2 with
  | Some host, Some port =>
      if zlen host =? 0 then raise (bs "RAIN.CONNECT: expected host and port") w
      else if (zlen host >? 255) || (port <=? 0) || (port >? 65535)
      then raise (bs "RAIN.CONNECT: invalid host or port") w
      else
        let '(ok, w) := malloc w in
        if negb ok then raise (bs "RAIN.CONNECT: out of memory") w
        else
          let '(R, w) := raincall_open (cstr host) port w in
          match R with
          | None => raise (bs "RAIN.CONNECT: Redis backend is not connected") w
          | Some R =>
              w ← raincall_close (default_state w) w;
              let w := w<| default_state := Some R |><| installed_state := Some R |> in
              Some (1, mq_pushboolean L true, w)
          end
  | _, _ => raise (bs "RAIN.CONNECT: expected host and port") w
  end.

Definition raincall_install_state (L : mq_State) (R : option nat) (w : rain) : mq_State * rain :=
  let w := w<| installed_state := R |> in
  let L := mq_newtable L in
  let L := mq_setfield (mq_pushcfunction L (bs "rain_call")) (bs "CALL") in
  let L := mq_setfield (mq_pushcfunction L (bs "rain_connect")) (bs "CONNECT") in
  (mq_setglobal L (bs "RAIN"), w).

Definition raincall_install (L : mq_State) (w : rain) : mq_State * rain :=
  raincall_install_state L (default_state w) w.
End Host.

(** ** What a pushed value holds *)

Section Represents.
Context {D : Doubles}.

Fixpoint seq_from (i : Z) (vs : list lval) (tbl : ltable) : ltable :=
  match vs with
  | [] => tbl
  | v :: vs => seq_from (i + 1) vs (table_set tbl (inl i) v)
  end.

(** The table with [vs] at 1, 2, ... *)
Definition seq_table (vs : list lval) : ltable := seq_from 1 vs ∅.

Definition pair_table (k v : lval) : ltable :=
  table_set (table_set ∅ (inr (bs "key")) k) (inr (bs "value")) v.

Fixpoint all2 {A B} (R : A -> B -> Prop) (l : list A) (k : list B) : Prop :=
  match l, k with
  | [], [] => True
  | x :: l, y :: k => R x y /\ all2 R l k
  | _, _ => False
  end.

(** [ps] are the key/value tables of the elements taken in twos. *)
Fixpoint all_pairs {A} (R : A -> lval -> Prop) (h : gmap positive ltable) (lo : positive)
    (l : list A) (ps : list positive) : Prop :=
  match l, ps with
  | k :: x :: l, p :: ps =>
      (exists kv xv, (lo <= p)%positive /\ h !! p = Some (pair_table kv xv) /\ R k kv /\ R x xv)
      /\ all_pairs R h lo l ps
  | [], [] | [_], [] => True
  | _, _ => False
  end.

(** [v] is the reply [r] as a Lua value over the tables [h]: nested tables,
    none of them older than [lo]. A map is a sequence of key/value tables. *)
Fixpoint represents (h : gmap positive ltable) (lo : positive) (r : raincall_Reply) (v : lval) : Prop :=
  match r with
  | mkRainReply ty _ integer number element =>
      match ty with
      | RAINCALL_REPLY_STATUS | RAINCALL_REPLY_STRING | RAINCALL_REPLY_VERB | RAINCALL_REPLY_BIGNUM =>
          v = LString (r_text r)
      | RAINCALL_REPLY_INTEGER => v = LInteger integer
      | RAINCALL_REPLY_DOUBLE => v = LNumber number
      | RAINCALL_REPLY_BOOL => v = LBoolean (negb (integer =? 0))
      | RAINCALL_REPLY_NIL => v = LNil
      | RAINCALL_REPLY_ERROR => False
      | RAINCALL_REPLY_ARRAY | RAINCALL_REPLY_SET | RAINCALL_REPLY_ATTR | RAINCALL_REPLY_PUSH =>
          exists t vs, v = LTable t /\ (lo <= t)%positive /\ h !! t = Some (seq_table vs) /\
            all2 (represents h lo) element vs
      | RAINCALL_REPLY_MAP =>
          exists t ps, v = LTable t /\ (lo <= t)%positive /\ h !! t = Some (seq_table (map LTable ps)) /\
            all_pairs (represents h lo) h lo element ps
      end
  end.

Fixpoint first_some {A B} (f : A -> option B) (l : list A) : option B :=
  match l with
  | [] => None
  | x :: l => match f x with Some e => Some e | None => first_some f l end
  end.

Fixpoint first_pairs {A B} (f : A -> option B) (l : list A) : option B :=
  match l with
  | k :: x :: l =>
      match f k with
      | Some e => Some e
      | None => match f x with Some e => Some e | None => first_pairs f l end
      end
  | _ => None
  end.

(** The text of the first error in the order the elements are visited. *)
Fixpoint first_error (r : raincall_Reply) : option (list Z) :=
  match r with
  | mkRainReply ty _ _ _ element =>
      match ty with
      | RAINCALL_REPLY_ERROR => Some (r_text r)
      | RAINCALL_REPLY_ARRAY | RAINCALL_REPLY_SET | RAINCALL_REPLY_ATTR | RAINCALL_REPLY_PUSH =>
          first_some first_error element
      | RAINCALL_REPLY_MAP => first_pairs first_error element
      | _ => None
      end
  end.

Section ReplyInduction.
Context (P : raincall_Reply -> Prop)
  (Hnode : forall ty s n d es, Forall P es -> P (mkRainReply ty s n d es)).

Fixpoint reply_nested_ind (r : raincall_Reply) : P r :=
  match r with
  | mkRainReply ty s n d es =>
      Hnode ty s n d es ((fix all (l : list raincall_Reply) : Forall P l :=
        match l with
        | [] => Forall_nil_2 _
        | x :: l' => Forall_cons_2 _ _ _ (reply_nested_ind x) (all l')
        end) es)
  end.
End ReplyInduction.

Lemma list_pairs_ind {A} (P : list A -> Prop) :
  P [] -> (forall x, P [x]) -> (forall x y l, P l -> P (x :: y :: l)) -> forall l, P l.
Proof.
  intros H0 H1 H2. fix IH 1. intros [|x [|y l]]; [done|done|]. apply H2, IH.
Qed.

Lemma seq_from_app i vs ws tbl :
  seq_from i (vs ++ ws) tbl = seq_from (i + zlen vs) ws (seq_from i vs tbl).
Proof.
  revert i tbl. induction vs as [|v vs IH]; intros i tbl; simpl; [by rewrite Z.add_0_r|].
  rewrite IH. f_equal. rewrite zlen_cons. lia.
Qed.

Lemma seq_table_snoc vs v : seq_table (vs ++ [v]) = table_set (seq_table vs) (inl (zlen vs + 1)) v.
Proof. unfold seq_table. rewrite seq_from_app. simpl. by rewrite Z.add_comm. Qed.

Lemma all2_mono {A B} (R R' : A -> B -> Prop) l k :
  Forall (fun x => forall y, R x y -> R' x y) l -> all2 R l k -> all2 R' l k.
Proof.
  intros H. revert k. induction H as [|x l Hx _ IH]; intros [|y k]; simpl; try done.
  intros [H1 H2]; split; [by apply Hx|by apply IH].
Qed.

Lemma all2_snoc {A B} (R : A -> B -> Prop) l k x y : all2 R l k -> R x y -> all2 R (l ++ [x]) (k ++ [y]).
Proof. revert k. induction l as [|z l IH]; intros [|u k]; simpl; try tauto. intros [? ?] ?. auto. Qed.

Definition grows (lo : positive) (h h' : gmap positive ltable) : Prop :=
  forall t tbl, (lo <= t)%positive -> h !! t = Some tbl -> h' !! t = Some tbl.

Lemma all_pairs_mono {A} (R R' : A -> lval -> Prop) h h' lo lo' l ps :
  (lo' <= lo)%positive -> grows lo h h' -> Forall (fun x => forall y, R x y -> R' x y) l ->
  all_pairs R h lo l ps -> all_pairs R' h' lo' l ps.
Proof.
  intros Hlo Hh. revert ps. induction l as [|x|k x l IH] using list_pairs_ind; intros [|p ps]; try done.
  intros [Hk [Hx Hl]%Forall_cons]%Forall_cons [(kv & xv & Hp & Hpl & R1 & R2) H2].
  split; [|by apply IH]. exists kv, xv. split_and!; [lia|by apply Hh|auto|auto].
Qed.

(** Only tables that are there and not older than [lo] matter. *)
Lemma represents_mono r h h' lo lo' v :
  (lo' <= lo)%positive -> grows lo h h' -> represents h lo r v -> represents h' lo' r v.
Proof.
  intros Hlo Hh. revert v. induction r as [ty s n d es IH] using reply_nested_ind. intros v.
  destruct ty; simpl; try done;
    intros (t & vs & -> & Ht & Hl & Hall); exists t, vs; split_and!;
    first [done | lia | by apply Hh | by eapply all2_mono | by eapply all_pairs_mono].
Qed.
End Represents.

(** ** Pushing a reply *)

Section PushSpec.
Context {D : Doubles} {M : Moonquakes} {ML : MoonquakesLaws M}.

Definition heap_ok (l : lua) : Prop := forall t tbl, lheap l !! t = Some tbl -> (t < lnext l)%positive.

(** Old tables are untouched. *)
Record extends (l l' : lua) : Prop := {
  ex_ok : heap_ok l';
  ex_next : (lnext l <= lnext l')%positive;
  ex_heap : forall t, (t < lnext l)%positive -> lheap l' !! t = lheap l !! t
}.

Lemma extends_grows lo l l' : heap_ok l -> extends l l' -> grows lo (lheap l) (lheap l').
Proof. intros H E t tbl _ Ht. rewrite (ex_heap _ _ E); [done|by eapply H]. Qed.

Lemma extends_trans l1 l2 l3 : extends l1 l2 -> extends l2 l3 -> extends l1 l3.
Proof.
  intros [? N1 H1] [? N2 H2]. constructor; [done|lia|].
  intros t Ht. rewrite H2 by lia. by apply H1.
Qed.

Lemma extends_push l v : heap_ok l -> extends l (push v l).
Proof. intros H. constructor; [done|done|done]. Qed.

Lemma extends_new_table l : heap_ok l -> extends l (new_table l).
Proof.
  intros H. constructor; unfold new_table; simpl; [|lia|].
  - intros t tbl. simpl. destruct (decide (t = lnext l)) as [->|N]; [lia|].
    rewrite lookup_insert_ne by done. intros Ht%H. lia.
  - intros t Ht. rewrite lookup_insert_ne by lia. done.
Qed.

(** [set_below] on a known stack changes one table. *)
Lemma set_below_view l k v t s tbl :
  heap_ok l -> lstack l = v :: LTable t :: s -> lheap l !! t = Some tbl ->
  let l' := set_below k l in
  heap_ok l' /\ lstack l' = LTable t :: s /\ lnext l' = lnext l /\ lglobals l' = lglobals l /\
  lheap l' = <[t := table_set tbl k v]> (lheap l).
Proof.
  intros H S T l'. subst l'. unfold set_below. rewrite S. destruct l as [st hp nx gl]. simpl in *.
  assert (alter (fun tbl => table_set tbl k v) t hp = <[t := table_set tbl k v]> hp) as E.
  { apply map_eq. intros u. destruct (decide (u = t)) as [->|N].
    - by rewrite lookup_alter_eq, lookup_insert_eq, T.
    - by rewrite lookup_alter_ne, lookup_insert_ne. }
  split_and!; try done. intros u tb. cbn. rewrite E.
  destruct (decide (u = t)) as [->|N]; [intros _; by eapply H|].
  rewrite lookup_insert_ne by done. apply H.
Qed.

(** The outcome of pushing: the value on top, or the error that stopped it. *)
Definition outcome (err : option (list Z)) (ret : Z) (l : lua) (s : list lval) (good : Prop) : Prop :=
  match err with
  | None => ret = 1 /\ good
  | Some e => ret = -1 /\ exists g, lstack l = LString e :: g ++ s
  end.

Definition pushes (push_reply : mq_State -> raincall_Reply -> Z * mq_State) (r : raincall_Reply) : Prop :=
  forall L, heap_ok (view L) ->
    let '(ret, L') := push_reply L r in
    extends (view L) (view L') /\
    outcome (first_error r) ret (view L') (lstack (view L))
      (exists v, lstack (view L') = v :: lstack (view L) /\
                 represents (lheap (view L')) (lnext (view L)) r v).

(** The state while the elements of table [t] are pushed. *)
Record building (l l' : lua) (t : positive) : Prop := {
  bd_ok : heap_ok l';
  bd_next : (lnext l <= lnext l')%positive;
  bd_heap : forall u, (u < lnext l)%positive -> u <> t -> lheap l' !! u = lheap l !! u
}.

Lemma building_refl l t : heap_ok l -> building l l t.
Proof. by constructor. Qed.

Lemma building_extends l1 l2 l3 t : building l1 l2 t -> extends l2 l3 -> building l1 l3 t.
Proof.
  intros [? N1 H1] [? N2 H2]. constructor; [done|lia|].
  intros u Hu N. rewrite H2 by lia. auto.
Qed.

Lemma building_trans l1 l2 l3 t : building l1 l2 t -> building l2 l3 t -> building l1 l3 t.
Proof.
  intros [? N1 H1] [? N2 H2]. constructor; [done|lia|]. intros u Hu N. rewrite H2; [auto|lia|done].
Qed.

Lemma building_grows l l' t : heap_ok l -> building l l' t -> grows (Pos.succ t) (lheap l) (lheap l').
Proof. intros H B u tbl Hu Hl. rewrite (bd_heap _ _ _ B); [done|by eapply H|lia]. Qed.

Lemma building_new_table l l' : building (new_table l) l' (lnext l) -> extends l l'.
Proof.
  intros [? N B]. constructor; [done|cbn in N; lia|].
  intros u Hu. rewrite B; cbn; [|lia|lia]. by rewrite lookup_insert_ne by lia.
Qed.

(** One element: pushed, then stored under [k] of the table below it. *)
Lemma push_then_set push_reply e L k t s tbl :
  pushes push_reply e -> heap_ok (view L) -> lstack (view L) = LTable t :: s -> lheap (view L) !! t = Some tbl ->
  let '(ret, L1) := push_reply L e in
  match first_error e with
  | Some err => ret = -1 /\ building (view L) (view L1) t /\ exists g, lstack (view L1) = LString err :: g ++ s
  | None =>
      ret = 1 /\ forall L2, view L2 = set_below k (view L1) ->
        building (view L) (view L2) t /\ lstack (view L2) = LTable t :: s /\
        exists v, lheap (view L2) !! t = Some (table_set tbl k v) /\
                  represents (lheap (view L2)) (Pos.succ t) e v
  end.
Proof.
  intros P Hok St Ht. specialize (P L Hok). destruct (push_reply L e) as [ret L1].
  destruct P as [E O]. pose proof (building_extends _ _ _ t (building_refl _ t Hok) E) as B1.
  unfold outcome in O. destruct (first_error e) as [err|].
  - destruct O as [-> (g & Hg)]. split_and!; [done|done|]. exists (g ++ [LTable t]). rewrite Hg, St.
    by rewrite <- app_assoc.
  - destruct O as [-> (v & Sv & R)]. split; [done|]. intros L2 V2. rewrite St in Sv.
    assert (lheap (view L1) !! t = Some tbl) as Ht1 by (rewrite (ex_heap _ _ E); [done|by eapply Hok]).
    destruct (set_below_view (view L1) k v t s tbl (ex_ok _ _ E) Sv Ht1) as (K1 & K2 & K3 & _ & K5).
    rewrite V2. pose proof (Hok _ _ Ht) as Hlt.
    split_and!; [|done|].
    + constructor; [done|rewrite K3; apply E|].
      intros u Hu N. rewrite K5, lookup_insert_ne by done. by apply E.
    + exists v. rewrite K5, lookup_insert_eq. split; [done|].
      eapply represents_mono; [| |exact R]; [lia|].
      intros u tb Hu Hl. rewrite lookup_insert_ne by lia. done.
Qed.

Lemma push_elements_spec push_reply es L i t s ws :
  Forall (pushes push_reply) es -> heap_ok (view L) -> lstack (view L) = LTable t :: s ->
  lheap (view L) !! t = Some (seq_table ws) -> i = zlen ws + 1 ->
  let '(ret, L') := push_elements push_reply L i es in
  building (view L) (view L') t /\
  outcome (first_some first_error es) ret (view L') s
    (exists vs, lstack (view L') = LTable t :: s /\ lheap (view L') !! t = Some (seq_table (ws ++ vs)) /\
                all2 (represents (lheap (view L')) (Pos.succ t)) es vs).
Proof.
  intros H. revert L i ws. induction H as [|e es He _ IH]; intros L i ws Hok St Ht Hi; simpl.
  - split; [by apply building_refl|]. split; [done|]. exists []. by rewrite app_nil_r.
  - pose proof (push_then_set push_reply e L (inl i) t s _ He Hok St Ht) as P.
    destruct (push_reply L e) as [ret L1]. destruct (first_error e) as [err|].
    + destruct P as (-> & B & G). simpl. done.
    + destruct P as (-> & P). simpl. destruct (P (mq_seti L1 i)) as (B & S2 & v & T2 & R2).
      { apply view_seti. }
      rewrite Hi, <- seq_table_snoc in T2. rewrite Hi in *.
      specialize (IH (mq_seti L1 (zlen ws + 1)) (zlen ws + 1 + 1) (ws ++ [v]) (bd_ok _ _ _ B) S2 T2).
      rewrite zlen_app in IH. change (zlen [v]) with 1 in IH. specialize (IH eq_refl).
      destruct (push_elements push_reply (mq_seti L1 (zlen ws + 1)) _ es) as [ret L'].
      destruct IH as [B' O]. split; [by eapply building_trans|].
      unfold outcome in *. destruct (first_some first_error es); [done|].
      destruct O as [-> (vs & S' & T' & R')]. split; [done|]. exists (v :: vs).
      rewrite <- app_assoc in T'. split_and!; [done|done| |done].
      eapply represents_mono; [| |exact R2]; [lia|]. apply building_grows; [apply B|done].
Qed.

Lemma push_aggregate_spec push_reply es L :
  Forall (pushes push_reply) es -> heap_ok (view L) ->
  let '(ret, L') := raincall_push_aggregate_reply push_reply L es in
  extends (view L) (view L') /\
  outcome (first_some first_error es) ret (view L') (lstack (view L))
    (exists vs, lstack (view L') = LTable (lnext (view L)) :: lstack (view L) /\
       lheap (view L') !! lnext (view L) = Some (seq_table vs) /\
       all2 (represents (lheap (view L')) (lnext (view L))) es vs).
Proof.
  intros H Hok. unfold raincall_push_aggregate_reply.
  pose proof (extends_new_table _ Hok) as E. rewrite <- view_newtable in E.
  pose proof (push_elements_spec push_reply es (mq_newtable L) 1 (lnext (view L)) (lstack (view L)) [] H
                (ex_ok _ _ E)) as P.
  rewrite view_newtable in P. specialize (P eq_refl (lookup_insert_eq _ _ _) eq_refl).
  destruct (push_elements push_reply (mq_newtable L) 1 es) as [ret L']. destruct P as [B O].
  split; [by apply building_new_table|].
  unfold outcome in *. destruct (first_some first_error es); [done|].
  destruct O as [-> (vs & S' & T' & R')]. split; [done|]. exists vs. split_and!; [done|done|].
  eapply all2_mono; [|exact R']. apply Forall_true. intros r v. apply represents_mono; [lia|by intros ?].
Qed.

Lemma building_fresh l l0 l1 p :
  extends l l0 -> building l0 l1 p -> (lnext l <= p)%positive -> extends l l1.
Proof.
  intros [? N0 H0] [? N1 H1] Hp. constructor; [done|lia|].
  intros u Hu. rewrite H1 by lia. by apply H0.
Qed.

(** One key/value table, up to the store into the outer table. *)
Lemma push_pair_spec push_reply k x L s :
  pushes push_reply k -> pushes push_reply x -> heap_ok (view L) -> lstack (view L) = s ->
  let '(pushed, L1) := push_reply (mq_newtable L) k in
  match first_error k with
  | Some err => pushed = -1 /\ extends (view L) (view L1) /\ exists g, lstack (view L1) = LString err :: g ++ s
  | None =>
      pushed = 1 /\
      let '(pushed, L2) := push_reply (mq_setfield L1 (bs "key")) x in
      match first_error x with
      | Some err => pushed = -1 /\ extends (view L) (view L2) /\ exists g, lstack (view L2) = LString err :: g ++ s
      | None =>
          pushed = 1 /\
          let l := view (mq_setfield L2 (bs "value")) in let p := lnext (view L) in
          extends (view L) l /\ lstack l = LTable p :: s /\
          exists kv xv, lheap l !! p = Some (pair_table kv xv) /\
            represents (lheap l) (Pos.succ p) k kv /\ represents (lheap l) (Pos.succ p) x xv
      end
  end.
Proof.
  intros Hk Hx Hok <-. set (p := lnext (view L)). set (s := lstack (view L)).
  pose proof (extends_new_table _ Hok) as E0.
  assert (view (mq_newtable L) = new_table (view L)) as V0 by apply view_newtable. rewrite <- V0 in E0.
  pose proof (push_then_set push_reply k (mq_newtable L) (inr (bs "key")) p s ∅ Hk (ex_ok _ _ E0)) as P1.
  rewrite V0 in P1. unfold new_table in P1. cbn [lstack lheap lnext] in P1.
  specialize (P1 eq_refl (lookup_insert_eq _ _ _)).
  assert (forall l, building (new_table (view L)) l p -> extends (view L) l) as Bx
    by (intros l B; rewrite <- V0 in B; by eapply building_fresh).
  destruct (push_reply (mq_newtable L) k) as [r1 L1]. destruct (first_error k) as [err|].
  { destruct P1 as (-> & B1 & G). split_and!; [done|by apply Bx|done]. }
  destruct P1 as (-> & P1). destruct (P1 _ (view_setfield L1 (bs "key"))) as (B2 & S2 & kv & T2 & R2).
  split; [done|].
  pose proof (push_then_set push_reply x (mq_setfield L1 (bs "key")) (inr (bs "value")) p s _ Hx
                (bd_ok _ _ _ B2) S2 T2) as P3.
  destruct (push_reply (mq_setfield L1 (bs "key")) x) as [r3 L3]. destruct (first_error x) as [err|].
  { destruct P3 as (-> & B3 & G). split_and!; [done|apply Bx; by eapply building_trans|done]. }
  destruct P3 as (-> & P3). destruct (P3 _ (view_setfield L3 (bs "value"))) as (B4 & S4 & xv & T4 & R4).
  split; [done|]. cbv zeta. split_and!; [apply Bx; by eapply building_trans|done|].
  exists kv, xv. split_and!; [done| |done].
  eapply represents_mono; [| |exact R2]; [lia|]. apply building_grows; [apply B2|done].
Qed.

Lemma push_pairs_spec push_reply es L i t s ps :
  Forall (pushes push_reply) es -> heap_ok (view L) -> lstack (view L) = LTable t :: s ->
  lheap (view L) !! t = Some (seq_table (map LTable ps)) -> i = zlen ps + 1 ->
  let '(ret, L') := push_pairs push_reply L i es in
  building (view L) (view L') t /\
  outcome (first_pairs first_error es) ret (view L') s
    (exists qs, lstack (view L') = LTable t :: s /\
       lheap (view L') !! t = Some (seq_table (map LTable (ps ++ qs))) /\
       all_pairs (represents (lheap (view L')) (Pos.succ t)) (lheap (view L')) (Pos.succ t) es qs).
Proof.
  revert L i ps. induction es as [|y|k x es IH] using list_pairs_ind; intros L i ps H Hok St Ht Hi; simpl.
  1, 2: split; [by apply building_refl|]; split; [done|]; exists []; by rewrite app_nil_r.
  apply Forall_cons in H as [Hk [Hx H]%Forall_cons].
  pose proof (push_pair_spec push_reply k x L _ Hk Hx Hok St) as P.
  destruct (push_reply (mq_newtable L) k) as [r1 L1]. destruct (first_error k) as [err|].
  { destruct P as (-> & E & g & G). simpl. split; [by apply (building_extends _ (view L)); [apply building_refl|]|].
    split; [done|]. exists (g ++ [LTable t]). by rewrite G, <- app_assoc. }
  destruct P as (-> & P). simpl. destruct (push_reply (mq_setfield L1 (bs "key")) x) as [r2 L2].
  destruct (first_error x) as [err|].
  { destruct P as (-> & E & g & G). simpl. split; [by apply (building_extends _ (view L)); [apply building_refl|]|].
    split; [done|]. exists (g ++ [LTable t]). by rewrite G, <- app_assoc. }
  destruct P as (-> & E & S3 & kv & xv & T3 & R1 & R2). simpl.
  set (L3 := mq_setfield L2 (bs "value")) in *. set (q := lnext (view L)) in *.
  pose proof (Hok _ _ Ht) as Hlt.
  assert (lheap (view L3) !! t = Some (seq_table (map LTable ps))) as Ht3 by (by rewrite (ex_heap _ _ E)).
  destruct (set_below_view (view L3) (inl i) (LTable q) t s _ (ex_ok _ _ E) S3 Ht3) as (K1 & K2 & K3 & _ & K5).
  rewrite <- view_seti in K1, K2, K3, K5. set (L4 := mq_seti L3 i) in *.
  assert (lheap (view L4) !! t = Some (seq_table (map LTable (ps ++ [q])))) as T4.
  { rewrite K5, lookup_insert_eq, Hi, map_app. simpl. by rewrite seq_table_snoc, zlen_map. }
  assert (building (view L) (view L4) t) as B4.
  { constructor; [done|rewrite K3; apply E|]. intros u Hu N. rewrite K5, lookup_insert_ne by done. by apply E. }
  assert (grows (Pos.succ q) (lheap (view L3)) (lheap (view L4))) as G4.
  { intros u tb Hu Hl. rewrite K5, lookup_insert_ne by lia. done. }
  specialize (IH L4 (i + 1) (ps ++ [q]) H K1 K2 T4). rewrite zlen_app in IH. change (zlen [q]) with 1 in IH.
  specialize (IH ltac:(lia)). destruct (push_pairs push_reply L4 (i + 1) es) as [ret L'].
  destruct IH as [B' O]. split; [by eapply building_trans|].
  unfold outcome in *. destruct (first_pairs first_error es); [done|].
  destruct O as [-> (qs & S' & T' & R')]. split; [done|]. exists (q :: qs).
  pose proof (building_grows _ _ _ K1 B') as G'.
  rewrite <- app_assoc in T'. split_and!; [done|done| |done].
  assert (lheap (view L4) !! q = Some (pair_table kv xv)) as Tq by (rewrite K5, lookup_insert_ne by lia; done).
  exists kv, xv. split_and!; [lia|apply G'; [lia|done]| |].
  - eapply represents_mono; [| |eapply represents_mono; [| |exact R1]]; [| |done|exact G4]; [lia|].
    intros u tb Hu Hl. apply G'; [lia|done].
  - eapply represents_mono; [| |eapply represents_mono; [| |exact R2]]; [| |done|exact G4]; [lia|].
    intros u tb Hu Hl. apply G'; [lia|done].
Qed.

Lemma push_map_spec push_reply es L :
  Forall (pushes push_reply) es -> heap_ok (view L) ->
  let '(ret, L') := raincall_push_map_reply push_reply L es in
  extends (view L) (view L') /\
  outcome (first_pairs first_error es) ret (view L') (lstack (view L))
    (exists ps, lstack (view L') = LTable (lnext (view L)) :: lstack (view L) /\
       lheap (view L') !! lnext (view L) = Some (seq_table (map LTable ps)) /\
       all_pairs (represents (lheap (view L')) (lnext (view L))) (lheap (view L')) (lnext (view L)) es ps).
Proof.
  intros H Hok. unfold raincall_push_map_reply.
  pose proof (extends_new_table _ Hok) as E. rewrite <- view_newtable in E.
  pose proof (push_pairs_spec push_reply es (mq_newtable L) 1 (lnext (view L)) (lstack (view L)) [] H
                (ex_ok _ _ E)) as P.
  rewrite view_newtable in P. specialize (P eq_refl (lookup_insert_eq _ _ _) eq_refl).
  destruct (push_pairs push_reply (mq_newtable L) 1 es) as [ret L']. destruct P as [B O].
  split; [by apply building_new_table|].
  unfold outcome in *. destruct (first_pairs first_error es); [done|].
  destruct O as [-> (ps & S' & T' & R')]. split; [done|]. exists ps. split_and!; [done|done|].
  eapply all_pairs_mono; [| | |exact R']; [lia|by intros ?|].
  apply Forall_true. intros r v. apply represents_mono; [lia|by intros ?].
Qed.

Lemma push_scalar L L' v r :
  heap_ok (view L) -> view L' = push v (view L) -> first_error r = None ->
  represents (lheap (view L')) (lnext (view L)) r v ->
  extends (view L) (view L') /\
  outcome (first_error r) 1 (view L') (lstack (view L))
    (exists v, lstack (view L') = v :: lstack (view L) /\ represents (lheap (view L')) (lnext (view L)) r v).
Proof.
  intros Hok V E R. rewrite E. split; [rewrite V; by apply extends_push|].
  split; [done|]. exists v. split; [by rewrite V|done].
Qed.

Lemma push_reply_spec r : pushes raincall_push_reply r.
Proof.
  induction r as [ty s n d es IH] using reply_nested_ind. intros L Hok.
  destruct ty; cbn [raincall_push_reply];
    try (eapply push_scalar; [done| |done|done]; auto using view_pushlstring, view_pushinteger,
           view_pushnumber, view_pushboolean, view_pushnil);
    try (pose proof (push_aggregate_spec raincall_push_reply es L IH Hok) as P;
         destruct (raincall_push_aggregate_reply _ L es) as [ret L']; destruct P as [E O];
         split; [done|]; unfold outcome in *; cbn [first_error]; destruct (first_some first_error es); [done|];
         destruct O as [-> (vs & S' & T' & R')]; split; [done|]; eexists; split; [done|];
         exists (lnext (view L)), vs; by split_and!).
  - split; [rewrite view_pushlstring; by apply extends_push|]. split; [done|].
    exists []. by rewrite view_pushlstring.
  - pose proof (push_map_spec raincall_push_reply es L IH Hok) as P.
    destruct (raincall_push_map_reply _ L es) as [ret L']. destruct P as [E O]. split; [done|].
    unfold outcome in *. cbn [first_error]. destruct (first_pairs first_error es); [done|].
    destruct O as [-> (ps & S' & T' & R')]. split; [done|]. eexists. split; [done|].
    exists (lnext (view L)), ps. by split_and!.
Qed.
End PushSpec.

(** ** Converting hiredis replies *)

Section FromHiredis.
Context {D : Doubles}.

(** The copy of a reply: an empty string is copied as NULL. *)
Fixpoint of_hiredis (src : redisReply) : raincall_Reply :=
  match src with
  | mkRedisReply ty n d s es =>
      {| r_type := raincall_reply_type_from_hiredis ty;
         r_str := match s with Some (c :: s') => Some (c :: s') | _ => None end;
         r_integer := n; r_number := d; r_element := map of_hiredis es |}
  end.

Section RedisInduction.
Context (P : redisReply -> Prop) (Hnode : forall ty n d s es, Forall P es -> P (mkRedisReply ty n d s es)).

Fixpoint redis_nested_ind (r : redisReply) : P r :=
  match r with
  | mkRedisReply ty n d s es =>
      Hnode ty n d s es ((fix all (l : list redisReply) : Forall P l :=
        match l with
        | [] => Forall_nil_2 _
        | x :: l' => Forall_cons_2 _ _ _ (redis_nested_ind x) (all l')
        end) es)
  end.
End RedisInduction.

(** The copy is whole or there is none, and none only when one of the
    allocations made failed. *)
Definition copied (malloc_ok : nat -> bool) (n : nat) {A} (a : A) (r : option A * nat) : Prop :=
  let '(out, n') := r in
  (n <= n')%nat /\
  match out with
  | Some b => b = a
  | None => exists m, (n <= m < n')%nat /\ malloc_ok m = false
  end.

Lemma convert_elements_copied malloc_ok convert es n :
  Forall (fun e => forall n, copied malloc_ok n (of_hiredis e) (convert e n)) es ->
  copied malloc_ok n (map of_hiredis es) (convert_elements convert es n).
Proof.
  intros H. revert n. induction H as [|e es He _ IH]; intros n; simpl; [split; [lia|done]|].
  specialize (He n). destruct (convert e n) as [[r|] n1]; [|done].
  destruct He as [H1 ->]. specialize (IH n1).
  destruct (convert_elements convert es n1) as [[l|] n2]; destruct IH as [H2 IH].
  - split; [lia|]. by rewrite IH.
  - split; [lia|]. destruct IH as (m & Hm & Hf). exists m. split; [lia|done].
Qed.

Lemma from_hiredis_copied malloc_ok src n :
  copied malloc_ok n (of_hiredis src) (raincall_reply_from_hiredis malloc_ok src n).
Proof.
  revert n. induction src as [ty k d s es IH] using redis_nested_ind. intros n.
  cbn [raincall_reply_from_hiredis of_hiredis h_str h_element h_type h_integer h_dval].
  destruct (malloc_ok n) eqn:E0; cbn [negb]; [|split; [lia|]; exists n; split; [lia|done]].
  set (str := match s with Some (c :: s') => Some (c :: s') | _ => None end).
  set (cp := match s with Some s => _ | None => _ end).
  assert (exists n1, (S n <= n1)%nat /\ (cp = (Some str, n1) \/
            (cp = (None, n1) /\ exists m, (n <= m < n1)%nat /\ malloc_ok m = false))) as (n1 & Hn1 & Hcp).
  { subst cp str. destruct s as [[|c s]|]; simpl.
    - exists (S n). auto.
    - exists (S (S n)). split; [lia|]. destruct (malloc_ok (S n)) eqn:E1; [auto|].
      right. split; [done|]. exists (S n). split; [lia|done].
    - exists (S n). auto. }
  destruct Hcp as [->|[-> (m & Hm & Hf)]]; [|split; [lia|eauto]].
  destruct es as [|e es]; [split; [lia|done]|].
  destruct (malloc_ok n1) eqn:E1; cbn [negb]; [|split; [lia|]; exists n1; split; [lia|done]].
  pose proof (convert_elements_copied malloc_ok _ (e :: es) (S n1) IH) as Hgo.
  destruct (convert_elements _ (e :: es) (S n1)) as [[l|] n2]; destruct Hgo as [H2 Hgo]; cbn [fmap option_fmap option_map].
  - split; [lia|]. by rewrite Hgo.
  - split; [lia|]. destruct Hgo as (m & Hm & Hf). exists m. split; [lia|done].
Qed.
End FromHiredis.

(** ** The global states *)

Section States.
Context {D : Doubles} {M : Moonquakes} {Sys : Type} {H : @Hiredis D Sys} {I : @Inprocess D Sys}
  (malloc_ok : nat -> bool).
Implicit Types w : @rain D Sys H.

(** The states the statics point to are live; the TCP states are exactly the
    default one. *)
Record rain_ok w : Prop := {
  ro_default : forall R, default_state w = Some R -> exists tcp, states w !! R = Some (Tcp tcp);
  ro_installed : forall R, installed_state w = Some R -> is_Some (states w !! R);
  ro_tcp : forall R tcp, states w !! R = Some (Tcp tcp) -> default_state w = Some R;
  ro_fresh : forall R b, states w !! R = Some b -> (R < next_state w)%nat
}.

(** The two differ in the clock and the system only. *)
Definition same_states w w' : Prop :=
  default_state w' = default_state w /\ installed_state w' = installed_state w /\
  states w' = states w /\ next_state w' = next_state w.

Lemma same_states_ok w w' : same_states w w' -> rain_ok w -> rain_ok w'.
Proof. intros (E1 & E2 & E3 & E4) []. constructor; rewrite ?E1, ?E2, ?E3, ?E4; eauto. Qed.

Lemma same_states_trans w1 w2 w3 : same_states w1 w2 -> same_states w2 w3 -> same_states w1 w3.
Proof. intros (? & ? & ? & ?) (? & ? & ? & ?). split_and!; congruence. Qed.

Lemma malloc_same w : same_states w (snd (malloc malloc_ok w)).
Proof. by destruct w. Qed.

(** Opening a connection adds one TCP state, or changes nothing. *)
Lemma raincall_open_spec host port w :
  let '(R, w') := raincall_open malloc_ok host port w in
  match R with
  | None => same_states w w'
  | Some R =>
      exists tcp, R = next_state w /\ states w' = <[R := Tcp tcp]> (states w) /\
        default_state w' = default_state w /\ installed_state w' = installed_state w /\
        next_state w' = S (next_state w)
  end.
Proof.
  unfold raincall_open, raincall_tcp_open, malloc, new_state. destruct w as [d i st nx ck sy]. simpl.
  destruct (malloc_ok ck); simpl; [|done]. destruct (_ || _); simpl; [done|].
  destruct (malloc_ok (S ck)); simpl; [|done]. destruct (malloc_ok (S (S ck))); simpl; [|done].
  destruct (redisConnect _ _ _) as [[[ctx [e|]]|] s']; simpl; [done| |done].
  eexists. by split_and!.
Qed.

Lemma get_state_spec w :
  rain_ok w ->
  let '(R, w') := raincall_get_state malloc_ok w in
  rain_ok w' /\ forall R', R = Some R' -> is_Some (states w' !! R').
Proof.
  intros Ok. unfold raincall_get_state. destruct (installed_state w) as [R|] eqn:Ei.
  { split; [done|]. intros R' [= <-]. by apply (ro_installed _ Ok). }
  destruct (default_state w) as [R|] eqn:Ed.
  { split; [done|]. intros R' HR. destruct (ro_default _ Ok R') as [tcp Ht]; [congruence|eauto]. }
  pose proof (raincall_open_spec (bs "127.0.0.1") 6379 w) as P.
  destruct (raincall_open malloc_ok (bs "127.0.0.1") 6379 w) as [[R|] w1].
  - destruct P as (tcp & -> & E1 & E2 & E3 & E4).
    assert (rain_ok (w1<| default_state := Some (next_state w) |>)) as Ok1.
    { constructor; destruct w1; simpl in *; subst.
      - intros R [= <-]. rewrite lookup_insert_eq. eauto.
      - intros R HR. congruence.
      - intros R t. destruct (decide (R = next_state w)) as [->|N]; [done|].
        rewrite lookup_insert_ne by done. intros Ht%(ro_tcp _ Ok). congruence.
      - intros R b. destruct (decide (R = next_state w)) as [->|N]; [lia|].
        rewrite lookup_insert_ne by done. intros Hb%(ro_fresh _ Ok). lia. }
    split; [done|]. intros R' HR. destruct (ro_default _ Ok1 R' HR) as [t Ht]. eauto.
  - destruct P as (E1 & E2 & E3 & E4). split.
    + apply (same_states_ok w); [|done]. destruct w1; simpl in *. subst. by split_and!; simpl.
    + intros R' HR. by destruct w1.
Qed.

(** A backend keeps its kind. *)
Lemma backend_call_spec b argv w :
  let '(_, b', w') := backend_call malloc_ok b argv w in
  same_states w w' /\ match b with Tcp _ => exists tcp, b' = Tcp tcp | InProcess => b' = InProcess end.
Proof.
  destruct b as [tcp|]; simpl.
  - unfold raincall_tcp_call. destruct w as [d i st nx ck sy]. simpl.
    destruct (redisCommandArgv _ _ _) as [[r|e] s']; simpl; [|by split; [|eauto]].
    destruct (raincall_reply_from_hiredis malloc_ok r ck) as [[out|] n]; simpl; by split; [|eauto].
  - destruct w as [d i st nx ck sy]. simpl. by destruct (inprocess_call _ _).
Qed.

Lemma update_backend_ok w R b b' :
  rain_ok w -> states w !! R = Some b ->
  match b with Tcp _ => exists tcp, b' = Tcp tcp | InProcess => b' = InProcess end ->
  rain_ok (w<| states ::= insert R b' |>).
Proof.
  intros [O1 O2 O3 O4] E K. constructor; destruct w as [d i st nx ck sy]; simpl in *.
  - intros R' HR. destruct (decide (R' = R)) as [->|N]; [|rewrite lookup_insert_ne by done; auto].
    destruct (O1 _ HR) as [tcp Ht]. rewrite E in Ht. injection Ht as ->. destruct K as [t ->].
    rewrite lookup_insert_eq. eauto.
  - intros R' HR. destruct (decide (R' = R)) as [->|N]; [rewrite lookup_insert_eq; eauto|].
    rewrite lookup_insert_ne by done. auto.
  - intros R' tcp. destruct (decide (R' = R)) as [->|N]; [|rewrite lookup_insert_ne by done; eauto].
    rewrite lookup_insert_eq. intros [= ->]. destruct b; [by eapply O3|done].
  - intros R' b0. destruct (decide (R' = R)) as [->|N]; [intros _; eauto|].
    rewrite lookup_insert_ne by done. eauto.
Qed.

Lemma rain_call_ok L w : rain_ok w -> exists ret L' w', rain_call malloc_ok L w = Some (ret, L', w') /\ rain_ok w'.
Proof.
  intros Ok. unfold rain_call. destruct (_ <? 1); [by eauto|].
  pose proof (get_state_spec w Ok) as P. destruct (raincall_get_state malloc_ok w) as [[R|] w1];
    destruct P as [Ok1 P]; [|by eauto].
  pose proof (malloc_same w1) as S1. destruct (malloc malloc_ok w1) as [ok1 w2].
  pose proof (malloc_same w2) as S2. destruct (malloc malloc_ok w2) as [ok2 w3]. simpl in S1, S2.
  pose proof (same_states_trans _ _ _ S1 S2) as S3.
  assert (rain_ok w3) as Ok3 by (by eapply same_states_ok).
  destruct (negb _); [by eauto|]. destruct (tolstrings L 1 _) as [argv|]; [|by eauto].
  destruct (P R eq_refl) as [b Hb]. destruct S3 as (_ & _ & Est & _). rewrite <- Est in Hb.
  rewrite Hb. cbn [mbind option_bind].
  pose proof (backend_call_spec b argv w3) as Q. destruct (backend_call malloc_ok b argv w3) as [[rep b'] w4].
  destruct Q as [S4 K].
  assert (rain_ok (w4<| states ::= insert R b' |>)) as Ok5.
  { apply (update_backend_ok w4 R b); [by eapply same_states_ok| |done].
    destruct S4 as (_ & _ & E4 & _). by rewrite E4. }
  destruct rep as [rep|]; [destruct (raincall_push_reply L rep)|destruct (raincall_raise_redis _ _ _ _)]; eauto.
Qed.

Lemma rain_connect_ok conv L w :
  rain_ok w ->
  exists ret L' w', rain_connect malloc_ok conv L w = Some (ret, L', w') /\ rain_ok w' /\
    (ret = 1 -> exists R tcp, default_state w' = Some R /\ installed_state w' = Some R /\
                              states w' !! R = Some (Tcp tcp)).
Proof.
  intros Ok. unfold rain_connect.
  assert (forall msg w, rain_ok w -> exists ret L' w',
    (let '(ret, L) := raincall_raise L msg in Some (ret, L, w)) = Some (ret, L', w') /\ rain_ok w' /\
    (ret = 1 -> exists R tcp, default_state w' = Some R /\ installed_state w' = Some R /\
                              states w' !! R = Some (Tcp tcp))) as Hraise
    by (intros msg w0 O; do 3 eexists; split_and!; [done|done|done]).
  destruct (mq_tolstring L 1) as [host|]; [|by apply Hraise].
  destruct (mq_tointegerx conv L 2) as [port|]; [|by apply Hraise].
  destruct (_ =? 0); [by apply Hraise|]. destruct (_ || _); [by apply Hraise|].
  pose proof (malloc_same w) as S1. destruct (malloc malloc_ok w) as [ok w1]. simpl in S1.
  apply (same_states_ok _ _ S1) in Ok. destruct (negb ok); [by apply Hraise|].
  pose proof (raincall_open_spec (cstr host) port w1) as P.
  destruct (raincall_open malloc_ok (cstr host) port w1) as [[R|] w2];
    [|apply Hraise; by eapply same_states_ok].
  destruct P as (tcp & -> & E1 & E2 & E3 & E4). rewrite E2.
  assert (exists w3, raincall_close (default_state w1) w2 = Some w3 /\
    states w3 = <[next_state w1 := Tcp tcp]>
                  (match default_state w1 with Some R => delete R (states w1) | None => states w1 end) /\
    next_state w3 = S (next_state w1)) as (w3 & -> & E5 & E6).
  { destruct (default_state w1) as [R|] eqn:Ed; simpl; [|by eauto].
    destruct (ro_default _ Ok R Ed) as [t Ht]. pose proof (ro_fresh _ Ok _ _ Ht) as Hlt.
    rewrite E1, lookup_insert_ne by lia. rewrite Ht. eexists. split; [done|].
    destruct w2 as [d i st nx ck sy]. simpl in *. subst. split; [|done].
    rewrite delete_insert_ne by lia. done. }
  cbn [mbind option_bind]. do 3 eexists. split; [done|]. destruct w3 as [d i st nx ck sy]. simpl in *. subst.
  split; [|intros _; exists (next_state w1), tcp; by rewrite lookup_insert_eq].
  constructor; simpl.
  - intros R [= <-]. rewrite lookup_insert_eq. eauto.
  - intros R [= <-]. rewrite lookup_insert_eq. eauto.
  - intros R t. destruct (decide (R = next_state w1)) as [->|N]; [done|]. rewrite lookup_insert_ne by done.
    destruct (default_state w1) as [R'|] eqn:Ed; [|intros Ht%(ro_tcp _ Ok); congruence].
    destruct (decide (R = R')) as [->|N']; [by rewrite lookup_delete_eq|]. rewrite lookup_delete_ne by done.
    intros Ht%(ro_tcp _ Ok). congruence.
  - intros R b. destruct (decide (R = next_state w1)) as [->|N]; [lia|]. rewrite lookup_insert_ne by done.
    destruct (default_state w1) as [R'|] eqn:Ed; [|intros Hb%(ro_fresh _ Ok); lia].
    intros Hb%lookup_delete_Some. destruct Hb as [_ Hb%(ro_fresh _ Ok)]. lia.
Qed.

(** What can happen to the statics: Lua calls the two functions, and the host
    opens a backend of its own or installs a live state. *)
Inductive rain_step : rain -> rain -> Prop :=
| step_call L ret L' w w' : rain_call malloc_ok L w = Some (ret, L', w') -> rain_step w w'
| step_connect conv L ret L' w w' : rain_connect malloc_ok conv L w = Some (ret, L', w') -> rain_step w w'
| step_open R w w' : raincall_open_backend malloc_ok (Some InProcess) w = (R, w') -> rain_step w w'
| step_install L R L' w w' :
    (forall R', R = Some R' -> is_Some (states w !! R')) ->
    raincall_install_state L R w = (L', w') -> rain_step w w'.

(** The statics at program start. *)
Definition rain_init (s : Sys) : rain :=
  {| default_state := None; installed_state := None; states := ∅; next_state := 0; clock := 0; sys := s |}.

Lemma rain_init_ok s : rain_ok (rain_init s).
Proof. by constructor. Qed.

Lemma rain_step_ok w w' : rain_step w w' -> rain_ok w -> rain_ok w'.
Proof.
  intros [L ret L' w0 w1 E|conv L ret L' w0 w1 E|R w0 w1 E|L R L' w0 w1 HR E] Ok.
  - destruct (rain_call_ok L w0 Ok) as (r & L1 & w2 & E2 & Ok2). rewrite E in E2. by injection E2 as <- <- <-.
  - destruct (rain_connect_ok conv L w0 Ok) as (r & L1 & w2 & E2 & Ok2 & _). rewrite E in E2.
    by injection E2 as <- <- <-.
  - unfold raincall_open_backend, malloc, new_state in E. destruct w0 as [d i st nx ck sy]. simpl in E.
    destruct (malloc_ok ck); simpl in E; [|injection E as <- <-; eapply same_states_ok; [|exact Ok]; by split_and!].
    injection E as <- <-. destruct Ok as [O1 O2 O3 O4]. simpl in *. constructor; simpl.
    + intros R HR. destruct (O1 _ HR) as [t Ht]. exists t. rewrite lookup_insert_ne; [done|].
      intros <-. apply O4 in Ht. lia.
    + intros R HR. destruct (decide (R = nx)) as [->|N]; [rewrite lookup_insert_eq; eauto|].
      rewrite lookup_insert_ne by done. auto.
    + intros R t. destruct (decide (R = nx)) as [->|N]; [by rewrite lookup_insert_eq|].
      rewrite lookup_insert_ne by done. eauto.
    + intros R b. destruct (decide (R = nx)) as [->|N]; [lia|].
      rewrite lookup_insert_ne by done. intros Hb%O4. lia.
  - unfold raincall_install_state in E. injection E as <- <-. destruct w0 as [d i st nx ck sy]. simpl in *.
    destruct Ok as [O1 O2 O3 O4]. constructor; simpl in *; auto.
Qed.
End States.

(** ** Properties *)

(** C30: a reply becomes the right Lua value: pushing any reply tree, from any
    Lua state, either leaves exactly one new value on the stack, built of new
    tables only, that represents the whole reply (strings, integers, doubles,
    booleans, nil, arrays as sequences, maps as sequences of key/value
    tables), or, when the tree holds an error, raises with the text of the
    first error met on top of the stack. No table that existed before is
    changed. *)
Theorem reply_becomes_lua_value {D : Doubles} {M : Moonquakes} {ML : MoonquakesLaws M} r L :
  heap_ok (view L) ->
  let '(ret, L') := raincall_push_reply L r in
  extends (view L) (view L') /\
  match first_error r with
  | None => ret = 1 /\ exists v, lstack (view L') = v :: lstack (view L) /\
                                 represents (lheap (view L')) (lnext (view L)) r v
  | Some e => ret = -1 /\ exists g, lstack (view L') = LString e :: g ++ lstack (view L)
  end.
Proof. intros Hok. exact (push_reply_spec r L Hok). Qed.

(** An empty Lua state and a small reply. *)
Definition example_lua {D : Doubles} : lua :=
  {| lstack := []; lheap := ∅; lnext := 1; lglobals := ∅ |}.

Lemma reply_becomes_lua_value_witness :
  let D := SmallDoubles.small_doubles in
  let M := SmallLua.small_lua in
  let r := mkRainReply RAINCALL_REPLY_ARRAY None 0 (double_of_ll 0)
             [mkRainReply RAINCALL_REPLY_INTEGER None 7 (double_of_ll 0) []] in
  exists v, lstack (snd (raincall_push_reply (M := M) example_lua r)) = [v] /\
            represents (lheap (snd (raincall_push_reply (M := M) example_lua r))) 1 r v.
Proof.
  intros D M r.
  pose proof (@reply_becomes_lua_value D M SmallLua.small_lua_laws r example_lua ltac:(by intros t tbl)) as P.
  destruct (@raincall_push_reply D M example_lua r) as [ret L']. destruct P as [_ [_ P]]. exact P.
Defined.

(** Copying a hiredis reply is all or nothing: whichever allocations fail,
    the result is either the complete copy (types translated, binary strings
    and nested elements included) or NULL, and NULL only when an allocation
    made by this copy did fail. *)
Theorem hiredis_copy_all_or_nothing {D : Doubles} malloc_ok src n :
  match raincall_reply_from_hiredis malloc_ok src n with
  | (Some reply, _) => reply = of_hiredis src
  | (None, n') => exists m, (n <= m < n')%nat /\ malloc_ok m = false
  end.
Proof.
  pose proof (from_hiredis_copied malloc_ok src n) as P.
  destruct (raincall_reply_from_hiredis malloc_ok src n) as [[r|] n']; apply P.
Qed.

(** C31: no use after free of the global states: starting from program start,
    after any sequence of RAIN.CALL and RAIN.CONNECT calls from Lua, of opening
    in-process backends and of installing live states, with connections and
    allocations failing at will, both globals point to live states, at most
    one TCP connection is open (the default state's), and neither Lua function
    touches a closed state. *)
Theorem rain_states_never_dangle {D : Doubles} {M : Moonquakes} {Sys : Type} {H : @Hiredis D Sys}
    {I : @Inprocess D Sys} malloc_ok s w :
  rtc (rain_step malloc_ok) (rain_init s) w ->
  rain_ok w /\ (forall L, rain_call malloc_ok L w <> None) /\
  (forall conv L, rain_connect malloc_ok conv L w <> None).
Proof.
  intros R. assert (rain_ok w) as Ok.
  { assert (rain_ok (rain_init s)) as Ok0 by apply rain_init_ok.
    induction R as [|w1 w2 w3 S _ IH]; [done|]. apply IH. by eapply rain_step_ok. }
  split_and!; [done| |].
  - intros L. destruct (rain_call_ok malloc_ok L w Ok) as (? & ? & ? & E & _). by rewrite E.
  - intros conv L. destruct (rain_connect_ok malloc_ok conv L w Ok) as (? & ? & ? & E & _). by rewrite E.
Qed.

(** A network that always connects and answers PONG, and no in-process
    backend. *)
Definition pong_hiredis {D : Doubles} {Sys : Type} : @Hiredis D Sys := {|
  redisContext := unit;
  redisConnect s _ _ := (Some (tt, None), s);
  redisCommandArgv s _ _ :=
    (inl (mkRedisReply REDIS_REPLY_STATUS 0 (double_of_ll 0) (Some (bs "PONG")) []), s);
  redisFree s _ := s
|}.

Definition no_inprocess {D : Doubles} : @Inprocess D unit := {|
  inprocess_call _ _ := (None, tt);
  inprocess_last_error _ := bs "none";
  inprocess_close _ := tt
|}.

Definition connect_lua {D : Doubles} : lua :=
  {| lstack := [LInteger 6379; LString (bs "localhost")]; lheap := ∅; lnext := 1; lglobals := ∅ |}.

Lemma rain_states_never_dangle_witness :
  let D := SmallDoubles.small_doubles in
  let M := SmallLua.small_lua in
  let H := @pong_hiredis D unit in
  let I := @no_inprocess D in
  exists ret L' w,
    rain_connect (M := M) (H := H) (I := I) (fun _ => true) (fun _ => None) connect_lua (rain_init tt)
    = Some (ret, L', w) /\ rain_ok w /\
    (forall L, rain_call (M := M) (H := H) (I := I) (fun _ => true) L w <> None).
Proof.
  intros D M H I. do 3 eexists. split; [reflexivity|].
  destruct (@rain_states_never_dangle D M unit H I (fun _ => true) tt _
              (rtc_once _ _ (@step_connect D M unit H I (fun _ => true) (fun _ => None) connect_lua _ _ (rain_init tt) _ eq_refl)))
    as (Ok & C & _).
  split; [exact Ok|exact C].
Defined.

(** RAIN.CONNECT leaves the in-process backend: whatever was installed
    before (inside RAIN.FALL the in-process backend), after a successful
    RAIN.CONNECT the installed state is the new TCP connection, so every later
    RAIN.CALL goes over the network and past the in-process command policy. *)
Theorem connect_replaces_backend {D : Doubles} {M : Moonquakes} {Sys : Type} {H : @Hiredis D Sys}
    {I : @Inprocess D Sys} malloc_ok conv L w L' w' :
  rain_ok w -> rain_connect malloc_ok conv L w = Some (1, L', w') ->
  exists R tcp, installed_state w' = Some R /\ states w' !! R = Some (Tcp tcp) /\
    raincall_get_state malloc_ok w' = (Some R, w').
Proof.
  intros Ok E. destruct (rain_connect_ok malloc_ok conv L w Ok) as (r & L1 & w1 & E1 & _ & P).
  rewrite E in E1. injection E1 as <- <- <-. destruct (P eq_refl) as (R & tcp & _ & P2 & P3).
  exists R, tcp. split_and!; [done|done|]. unfold raincall_get_state. by rewrite P2.
Qed.

Lemma connect_replaces_backend_witness :
  let D := SmallDoubles.small_doubles in
  let M := SmallLua.small_lua in
  let H := @pong_hiredis D unit in
  let I := @no_inprocess D in
  let w := {| default_state := None; installed_state := Some 0%nat; states := {[ 0%nat := InProcess ]};
              next_state := 1; clock := 0; sys := tt |} in
  exists L' w' R tcp,
    rain_connect (M := M) (H := H) (I := I) (fun _ => true) (fun _ => None) connect_lua w = Some (1, L', w') /\
    states w !! 0%nat = Some InProcess /\ installed_state w' = Some R /\ states w' !! R = Some (Tcp tcp).
Proof.
  intros D M H I w.
  assert (rain_ok w) as Ok.
  { constructor; simpl; try done.
    - intros R [= <-]. rewrite lookup_singleton_eq. eauto.
    - intros R t Ht. by apply lookup_singleton_Some in Ht as [_ Ht].
    - intros R b Hb. apply lookup_singleton_Some in Hb as [<- _]. lia. }
  destruct (@connect_replaces_backend D M unit H I (fun _ => true) (fun _ => None) connect_lua w _ _ Ok eq_refl)
    as (R & tcp & P1 & P2 & _).
  do 2 eexists. exists R, tcp. split_and!; [reflexivity|reflexivity|exact P1|exact P2].
Defined.
