(* ===== verification/RainInprocess.v ===== *)
(** The in-process backend of RAIN.CALL (src/src/raincall_inprocess.c) and the
    command lookup and checks of src/src/server.c it goes through.

    Executing a command ([call]), the module command filters, the ACL check
    and the flags scripts declare are parameters; the client it runs on, its
    output buffers and the reply parser are those of the other files. zmalloc
    aborts instead of returning NULL, so its NULL checks never fire. *)

From stdpp Require Import base list numbers strings gmap.
From coqutil Require Import Datatypes.RecordSetters.
From S2P Require Import Prelude Numbers Sds Doubles Client ReplyBuffer Reply Wire CallReply Lua RainCall.
Import TriangleBracketNotations.

Local Open Scope Z_scope.

(** ** Comparing names *)

(** [!strncasecmp(a, b, n)]: up to [n] bytes or a common NUL. *)
Fixpoint strncaseeq (a b : list Z) (n : nat) : bool :=
  match n with
  | O => true
  | S n =>
      let x := hd 0 a in let y := hd 0 b in
      (tolower x =? tolower y) && ((x =? 0) || strncaseeq (tail a) (tail b) n)
  end.

Definition raincall_command_is (arg cmd : list Z) : bool :=
  (zlen arg =? zlen cmd) && strncaseeq arg cmd (length arg).

Definition denylist : list (list Z) :=
  [bs "EVAL"; bs "EVALSHA"; bs "SCRIPT"; bs "FUNCTION"; bs "FCALL"; bs "FCALL_RO"; bs "MULTI"; bs "EXEC";
   bs "WATCH"; bs "DISCARD"; bs "UNWATCH"; bs "SUBSCRIBE"; bs "PSUBSCRIBE"; bs "SSUBSCRIBE"; bs "BLPOP";
   bs "BRPOP"; bs "BRPOPLPUSH"; bs "BZPOPMIN"; bs "BZPOPMAX"; bs "XREAD"; bs "CLIENT"; bs "CONFIG";
   bs "SHUTDOWN"; bs "DEBUG"; bs "MODULE"; bs "AUTH"; bs "SELECT"].

Definition raincall_command_is_denylisted (argv0 : list Z) : bool :=
  ((zlen argv0 >=? 5) && strncaseeq argv0 (bs "RAIN.") 5) || existsb (raincall_command_is argv0) denylist.

(** ** Commands (server.c) *)

Definition CMD_ADMIN : Z := 2 ^ 4.
Definition CMD_PUBSUB : Z := 2 ^ 5.
Definition CMD_NOSCRIPT : Z := 2 ^ 6.
Definition CMD_BLOCKING : Z := 2 ^ 8.

(** Whether a command runs a script whose own flags count. *)
Inductive proc_kind : Type := PROC_PLAIN | PROC_FCALL | PROC_EVAL.

Inductive redisCommand : Type := mkCommand {
  fullname : list Z;
  arity : Z;
  cmd_flags : Z;
  proc : proc_kind;
  subcommands_dict : option (list (list Z * redisCommand))
}.

Section Commands.
(** The bucket of the command tables a key hashes to, over all its bytes. *)
Context (bucket : list Z -> nat) (commands : list (list Z * redisCommand)).

(** [dictFetchValue]: the first entry of the key's bucket that compares
    equal as a C string without case. *)
Fixpoint dictFetchValue (d : list (list Z * redisCommand)) (key : list Z) : option redisCommand :=
  match d with
  | [] => None
  | (k, cmd) :: d =>
      if (bucket k =? bucket key)%nat && strcaseeq key k then Some cmd else dictFetchValue d key
  end.

Definition has_subcommands (cmd : option redisCommand) : bool :=
  match cmd with Some c => match subcommands_dict c with Some _ => true | None => false end | None => false end.

Definition isContainerCommandBySds (s : list Z) : bool := has_subcommands (dictFetchValue commands s).

Definition lookupSubcommand (container : redisCommand) (sub_name : list Z) : option redisCommand :=
  dictFetchValue (default [] (subcommands_dict container)) sub_name.

Definition lookupCommandLogic (argv : list (list Z)) (strict : bool) : option redisCommand :=
  let base_cmd := dictFetchValue commands (nth 0 argv []) in
  let argc := zlen argv in
  if (argc =? 1) || negb (has_subcommands base_cmd) then
    if strict && negb (argc =? 1) then None else base_cmd
  else if strict && negb (argc =? 2) then None
  else c ← base_cmd; lookupSubcommand c (nth 1 argv []).

Definition lookupCommand (argv : list (list Z)) : option redisCommand := lookupCommandLogic argv false.

(** The loop that quotes arguments while fewer than 128 bytes were written. *)
Fixpoint quote_args (args : list (list Z)) (acc : list Z) : list Z :=
  match args with
  | [] => acc
  | a :: args =>
      if zlen acc <? 128
      then quote_args args (acc ++ bs "'" ++ take (Z.to_nat (128 - zlen acc)) (cstr a) ++ bs "' ")
      else acc
  end.

(** [None] when the command exists, else the error text. *)
Definition commandCheckExistence (cmd : option redisCommand) (argv : list (list Z)) : option (list Z) :=
  match cmd with
  | Some _ => None
  | None =>
      let argv0 := nth 0 argv [] in
      let err :=
        if isContainerCommandBySds argv0 then
          let name := sdstoupper (cstr argv0) in
          if zlen argv <? 2 then bs "missing subcommand. Try " ++ name ++ bs " HELP."
          else bs "unknown subcommand '" ++ take 128 (cstr (nth 1 argv [])) ++ bs "'. Try " ++ name ++ bs " HELP."
        else
          let err := bs "unknown command '" ++ take 128 (cstr argv0) ++ bs "'" in
          if zlen argv >=? 2
          then err ++ bs ", with args beginning with: " ++ quote_args (drop 1 argv) [] else err in
      Some (sdsmapchars err CRLF (bs "  ") 2)
  end.

Definition commandCheckArity (cmd : redisCommand) (argc : Z) : option (list Z) :=
  if ((arity cmd >? 0) && negb (arity cmd =? argc)) || (argc <? - arity cmd)
  then Some (bs "wrong number of arguments for '" ++ cstr (fullname cmd) ++ bs "' command") else None.

(** The flags of scripts and functions, from their declarations. *)
Definition getCommandFlags (fcall_flags eval_flags : list (list Z) -> Z -> Z) (cmd : redisCommand)
    (argv : list (list Z)) : Z :=
  match proc cmd with
  | PROC_FCALL => fcall_flags argv (cmd_flags cmd)
  | PROC_EVAL => eval_flags argv (cmd_flags cmd)
  | PROC_PLAIN => cmd_flags cmd
  end.
End Commands.

(** ** Replies *)

Section Replies.
Context {D : Doubles}.

Definition raincall_reply_string (ty : raincall_ReplyType) (s : list Z) : raincall_Reply :=
  {| r_type := ty; r_str := Some s; r_integer := 0; r_number := double_of_ll 0; r_element := [] |}.

Definition raincall_reply_error (s : list Z) : raincall_Reply :=
  raincall_reply_string RAINCALL_REPLY_ERROR (cstr s).

(** The bytes of a buffer without references. *)
Definition plain_bytes (d : bdata) : option (list Z) :=
  match d with Plain s => Some s | Encoded _ => None end.

Fixpoint capture_list (l : list (option clientReplyBlock)) : option (list Z) :=
  match l with
  | [] => Some []
  | None :: _ => None
  | Some o :: l => s ← plain_bytes (data o); rest ← capture_list l; Some (s ++ rest)
  end.

(** The text in the client's buffers, which are emptied. [None] is a NULL node
    (a deferred length that was never set) or a buffer with references, whose
    raw headers would be taken for text. *)
Definition raincall_capture_reply (garbage : CallReply) (c : client) : option (CallReply * client) :=
  s ← plain_bytes (buf c);
  blocks ← capture_list (reply c);
  Some (callReplyCreate garbage (s ++ blocks),
        c<| buf := Plain [] |><| reply := [] |><| deferred_reply_errors := None |>).

Definition raincall_reply_type_from_call_reply (ty : Z) : raincall_ReplyType :=
  if ty =? REDISMODULE_REPLY_STRING then RAINCALL_REPLY_STRING
  else if ty =? REDISMODULE_REPLY_ERROR then RAINCALL_REPLY_ERROR
  else if ty =? REDISMODULE_REPLY_INTEGER then RAINCALL_REPLY_INTEGER
  else if ty =? REDISMODULE_REPLY_ARRAY then RAINCALL_REPLY_ARRAY
  else if ty =? REDISMODULE_REPLY_NULL then RAINCALL_REPLY_NIL
  else if ty =? REDISMODULE_REPLY_MAP then RAINCALL_REPLY_MAP
  else if ty =? REDISMODULE_REPLY_SET then RAINCALL_REPLY_SET
  else if ty =? REDISMODULE_REPLY_BOOL then RAINCALL_REPLY_BOOL
  else if ty =? REDISMODULE_REPLY_DOUBLE then RAINCALL_REPLY_DOUBLE
  else if ty =? REDISMODULE_REPLY_BIG_NUMBER then RAINCALL_REPLY_BIGNUM
  else if ty =? REDISMODULE_REPLY_VERBATIM_STRING then RAINCALL_REPLY_VERB
  else if ty =? REDISMODULE_REPLY_ATTRIBUTE then RAINCALL_REPLY_ATTR
  else RAINCALL_REPLY_ERROR.

(** [if (s != NULL && len > 0)] copy, else leave NULL. *)
Definition copy_str (s : option (list Z)) : option (list Z) :=
  match s with Some (c :: s') => Some (c :: s') | _ => None end.

Definition with_str (r : raincall_Reply) (s : option (list Z)) : raincall_Reply :=
  {| r_type := r_type r; r_str := copy_str s; r_integer := r_integer r; r_number := r_number r;
     r_element := r_element r |}.
Definition with_integer (r : raincall_Reply) (n : Z) : raincall_Reply :=
  {| r_type := r_type r; r_str := r_str r; r_integer := n; r_number := r_number r; r_element := r_element r |}.
Definition with_number (r : raincall_Reply) (d : double) : raincall_Reply :=
  {| r_type := r_type r; r_str := r_str r; r_integer := r_integer r; r_number := d; r_element := r_element r |}.
Definition with_elements (r : raincall_Reply) (es : list raincall_Reply) : raincall_Reply :=
  {| r_type := r_type r; r_str := r_str r; r_integer := r_integer r; r_number := r_number r; r_element := es |}.

(** A loop over the elements that stops at the first NULL. *)
Fixpoint convert_all {A B} (f : A -> option (option B)) (l : list A) : option (option (list B)) :=
  match l with
  | [] => Some (Some [])
  | x :: l =>
      r ← f x;
      match r with
      | None => Some None
      | Some y => rs ← convert_all f l; Some (option_map (cons y) rs)
      end
  end.

(** [Some None] is the NULL result; [None] a reply that does not parse, or too
    little fuel for the nesting. *)
Fixpoint raincall_reply_from_call_reply (fuel : nat) (src : option CallReply)
    : option (option raincall_Reply) :=
  match fuel with
  | O => None
  | S fuel =>
      ty ← callReplyType src;
      let dst := raincall_reply_new (raincall_reply_type_from_call_reply ty) in
      match src with
      | None => Some (Some (raincall_reply_error (bs "unsupported Redis reply type")))
      | Some src =>
          if (ty =? REDISMODULE_REPLY_STRING) || (ty =? REDISMODULE_REPLY_ERROR) then
            Some (Some (with_str dst (callReplyGetString src)))
          else if ty =? REDISMODULE_REPLY_INTEGER then
            n ← callReplyGetLongLong src; Some (Some (with_integer dst n))
          else if ty =? REDISMODULE_REPLY_BOOL then
            n ← callReplyGetBool src; Some (Some (with_integer dst n))
          else if ty =? REDISMODULE_REPLY_DOUBLE then
            d ← callReplyGetDouble src; Some (Some (with_number dst d))
          else if ty =? REDISMODULE_REPLY_BIG_NUMBER then
            Some (Some (with_str dst (callReplyGetBigNumber src)))
          else if ty =? REDISMODULE_REPLY_VERBATIM_STRING then
            Some (Some (with_str dst (fst <$> callReplyGetVerbatim src)))
          else if (ty =? REDISMODULE_REPLY_ARRAY) || (ty =? REDISMODULE_REPLY_SET)
                  || (ty =? REDISMODULE_REPLY_ATTRIBUTE) then
            n ← callReplyGetLen src;
            es ← convert_all (fun i => raincall_reply_from_call_reply fuel
                   (if ty =? REDISMODULE_REPLY_SET then callReplyGetSetElement src i
                    else callReplyGetArrayElement src i)) (seqZ 0 n);
            Some (option_map (with_elements dst) es)
          else if ty =? REDISMODULE_REPLY_MAP then
            n ← callReplyGetLen src;
            es ← convert_all (fun i =>
                   match callReplyGetMapElement src i with
                   | None => Some None
                   | Some (key, value) =>
                       k ← raincall_reply_from_call_reply fuel key;
                       v ← raincall_reply_from_call_reply fuel value;
                       Some (k ← k; v ← v; Some [k; v])
                   end) (seqZ 0 n);
            Some (option_map (fun es => with_elements dst (concat es)) es)
          else if ty =? REDISMODULE_REPLY_NULL then Some (Some dst)
          else Some (Some (raincall_reply_error (bs "unsupported Redis reply type")))
      end
  end.
End Replies.

(** ** The call *)

(** What happens to the internal client, in order. *)
Inductive event : Type :=
| ECreateClient
| ECall (cmd : redisCommand) (argv : list (list Z))
| EFreeClient.

(** What the backend uses of the calling client: its user, its database and
    its protocol version. *)
Record caller {User : Type} : Type := { caller_user : User; caller_db : Z; caller_resp : Z }.
Arguments caller : clear implicits.

(** The rest of the server: [Db] is all the data commands work on. [call] runs
    a command on the internal client with the caller's user and database. *)
Class Server (User Db : Type) : Type := {
  bucket : list Z -> nat;
  commands : list (list Z * redisCommand);
  moduleCallCommandFilters : Db -> list (list Z) -> list (list Z);
  fcallGetCommandFlags : Db -> list (list Z) -> Z -> Z;
  evalGetCommandFlags : Db -> list (list Z) -> Z -> Z;
  ACLCheckAllUserCommandPerm : Db -> User -> redisCommand -> list (list Z) -> bool;
  call : Db -> caller User -> world -> redisCommand -> list (list Z) -> Db * world
}.

(** [ip_fault] is set by what the C code would crash or overrun on. *)
Record inprocess {User Db : Type} : Type := {
  ip_caller : option (caller User);
  ip_error : list Z;
  ip_fault : bool;
  ip_srv : server;
  ip_db : Db;
  ip_next_id : Z;
  ip_events : list event
}.
Arguments inprocess : clear implicits.

Section Inprocess.
Context {D : Doubles} (cfg : config) {User Db : Type} {S : Server User Db}.
Implicit Types (st : inprocess User Db) (argv : list (list Z)).

Definition raincall_inprocess_error st (err : list Z) : inprocess User Db :=
  st<| ip_error := snprintf 256 (match cstr err with [] => bs "unknown error" | e => e end) |>.

Definition emit (e : event) st : inprocess User Db := st<| ip_events ::= fun l => l ++ [e] |>.

Definition fault st : inprocess User Db := st<| ip_fault := true |>.

(** The internal client. *)
Definition isolated_client st (r : Z) : client :=
  (createClient cfg (ip_next_id st) false)
    <| flags ::= fun f => Z.lor f (Z.lor CLIENT_MODULE CLIENT_DENY_BLOCKING) |><| resp := r |>.

(** The flags no command of the backend may have. *)
Definition forbidden_flags : Z := Z.lor (Z.lor (Z.lor CMD_NOSCRIPT CMD_BLOCKING) CMD_ADMIN) CMD_PUBSUB.

(** From [call(c, CMD_CALL_FULL)] on. *)
Definition run_command (garbage : CallReply) st (clr : caller User) (c : client) (cmd : redisCommand) argv
    : option raincall_Reply * inprocess User Db :=
  let '(db, w) := call (ip_db st) clr {| srv := ip_srv st; cl := c |} cmd argv in
  let st := emit (ECall cmd argv) (st<| ip_db := db |><| ip_srv := srv w |>) in
  if has (flags (cl w)) CLIENT_BLOCKED then
    (None, raincall_inprocess_error (emit EFreeClient st) (bs "in-process backend command blocked"))
  else
    match raincall_capture_reply garbage (cl w) with
    | None => (None, fault st)
    | Some (rep, _) =>
        match raincall_reply_from_call_reply (length (proto rep) + 2) (Some rep) with
        | None => (None, fault st)
        | Some None => (None, raincall_inprocess_error (emit EFreeClient st) (bs "out of memory"))
        | Some (Some r) => (Some r, emit EFreeClient st)
        end
    end.

(** [Some r] is a return value of 0 with the reply [r], [None] one of -1 with
    the error set. *)
Definition raincall_inprocess_call (garbage : CallReply) st argv
    : option raincall_Reply * inprocess User Db :=
  let refuse (err : list Z) st := (Some (raincall_reply_error err), st) in
  match ip_caller st with
  | None => (None, raincall_inprocess_error st (bs "in-process backend has no caller"))
  | Some clr =>
      if zlen argv <? 1 then refuse (bs "RAIN.CALL: expected command name") st
      else if raincall_command_is_denylisted (nth 0 argv []) then
        refuse (bs "command is not allowed by the in-process v0 backend") st
      else
        let st := emit ECreateClient (st<| ip_next_id ::= Z.add 1 |>) in
        let c := isolated_client st (caller_resp clr) in
        let argv := moduleCallCommandFilters (ip_db st) argv in
        let reply_error (err : list Z) :=
          (Some (raincall_reply_string RAINCALL_REPLY_ERROR err), emit EFreeClient st) in
        let found := lookupCommand bucket commands argv in
        match commandCheckExistence bucket commands found argv, found with
        | Some err, _ => reply_error err
        | None, None => (None, fault st)
        | None, Some cmd =>
            match commandCheckArity cmd (zlen argv) with
            | Some err => reply_error err
            | None =>
                let fl := getCommandFlags (fcallGetCommandFlags (ip_db st)) (evalGetCommandFlags (ip_db st))
                            cmd argv in
                if has fl forbidden_flags then
                  refuse (bs "command is not allowed by the in-process v0 backend") (emit EFreeClient st)
                else if negb (ACLCheckAllUserCommandPerm (ip_db st) (caller_user clr) cmd argv) then
                  refuse (bs "NOPERM this user has no permissions to run the command") (emit EFreeClient st)
                else run_command garbage st clr c cmd argv
            end
        end
  end.

Definition raincall_inprocess_last_error st : list Z := ip_error st.

Definition raincall_inprocess_backend_set_caller st (c : option (caller User)) : inprocess User Db :=
  st<| ip_caller := c |>.

(** A fresh backend structure: zeroed, so without caller and error. *)
Definition raincall_inprocess_backend_new st : inprocess User Db := st<| ip_caller := None |><| ip_error := [] |>.

(** A server with the given data and no backend yet. *)
Definition inprocess_init (s : server) (db : Db) : inprocess User Db :=
  {| ip_caller := None; ip_error := []; ip_fault := false; ip_srv := s; ip_db := db; ip_next_id := 0;
     ip_events := [] |}.
End Inprocess.

(** ** The reply a protocol text stands for *)

Section RainOf.
Context {D : Doubles}.

Fixpoint rain_of (w : wire) : raincall_Reply :=
  let new := raincall_reply_new in
  match w with
  | WSimple s | WBulk s => with_str (new RAINCALL_REPLY_STRING) (Some s)
  | WError s => with_str (new RAINCALL_REPLY_ERROR) (Some s)
  | WInt n => with_integer (new RAINCALL_REPLY_INTEGER) n
  | WNullBulk | WNullArray | WNull => new RAINCALL_REPLY_NIL
  | WBool b => with_integer (new RAINCALL_REPLY_BOOL) (if b then 1 else 0)
  | WDouble d => with_number (new RAINCALL_REPLY_DOUBLE) (canonical d)
  | WBigNum s => with_str (new RAINCALL_REPLY_BIGNUM) (Some s)
  | WVerbatim _ s => with_str (new RAINCALL_REPLY_VERB) (Some s)
  | WArray l => with_elements (new RAINCALL_REPLY_ARRAY) (map rain_of l)
  | WSet l => with_elements (new RAINCALL_REPLY_SET) (map rain_of l)
  | WMap l => with_elements (new RAINCALL_REPLY_MAP) (map rain_of l)
  | WAttribute _ w => rain_of w
  end.

(** [src] parses to the content of [w]. *)
Definition reads_as (src : CallReply) (w : wire) : Prop :=
  exists rep q, callReplyParse src = Some q /\
    type q = type (fill rep w) /\ len q = len (fill rep w) /\ val q = val (fill rep w).

Lemma reads_as_attribute src l w : reads_as src (WAttribute l w) -> reads_as src w.
Proof. intros (rep & q & E & T). simpl in T. eexists _, q. split; [exact E|exact T]. Qed.

Lemma reads_as_element w : reads_as (or_flags (fill empty_reply w) REPLY_FLAG_PARSED) w.
Proof.
  exists empty_reply, (or_flags (fill empty_reply w) REPLY_FLAG_PARSED). split; [|by repeat split].
  unfold callReplyParse. cbn [rflags or_flags].
  assert (has (Z.lor (rflags (fill empty_reply w)) REPLY_FLAG_PARSED) REPLY_FLAG_PARSED = true) as ->; [|done].
  unfold has. rewrite Z.land_lor_distr_l, Z.land_diag. apply negb_true_iff, Z.eqb_neq. intros H.
  apply Z.lor_eq_0_iff in H as [_ H]. discriminate H.
Qed.

Lemma convert_all_seq {B} (f : Z -> option (option B)) (gs : list B) k :
  (forall i x, gs !! i = Some x -> f (k + Z.of_nat i) = Some (Some x)) ->
  convert_all f (seqZ k (zlen gs)) = Some (Some gs).
Proof.
  revert k. induction gs as [|g gs IH]; intros k H; [done|].
  pose proof (zlen_nonneg gs). rewrite zlen_cons, seqZ_cons by lia. cbn [convert_all].
  pose proof (H 0%nat g eq_refl) as E. rewrite Z.add_0_r in E. rewrite E. cbn [mbind option_bind].
  replace (Z.pred (1 + zlen gs)) with (zlen gs) by lia.
  rewrite IH; [done|]. intros i x Hi. rewrite <- (H (S i) x Hi). f_equal. lia.
Qed.

(** Keys and values in turn, paired. *)
Fixpoint pairs {A} (l : list A) : list (A * A) :=
  match l with a :: b :: l => (a, b) :: pairs l | _ => [] end.

Lemma pairs_flatten {A} (l : list A) k : zlen l = 2 * k -> flatten (pairs l) = l /\ zlen (pairs l) = k.
Proof.
  revert k. induction l as [|a|a b l IH] using list_pairs_ind; intros k E; unfold zlen in E; cbn in E.
  - split; [done|]. cbn. unfold zlen. cbn. lia.
  - lia.
  - destruct (IH (k - 1) ltac:(unfold zlen; lia)) as [F Z]. unfold flatten in *. cbn [pairs map concat app fst snd].
    rewrite F, zlen_cons. split; [done|lia].
Qed.

Lemma pairs_lookup {A} (l : list A) i a b :
  pairs l !! i = Some (a, b) -> l !! (2 * i)%nat = Some a /\ l !! (2 * i + 1)%nat = Some b.
Proof.
  revert i. induction l as [|x|x y l IH] using list_pairs_ind; intros i; simpl; [done|done|].
  destruct i as [|i]; simpl; [by intros [= -> ->]|]. intros H%IH.
  replace (i + S (i + 0))%nat with (S (2 * i)) by lia. replace (i + S (i + 0) + 1)%nat with (S (2 * i + 1)) by lia.
  exact H.
Qed.

(** The converter agrees with [rain_of] when there is fuel for each byte. *)
Definition converts (w : wire) : Prop :=
  wire_ok w -> forall fuel src, (length (print w) <= fuel)%nat -> reads_as src w ->
  raincall_reply_from_call_reply fuel (Some src) = Some (Some (rain_of w)).

Lemma converts_elements l fuel n c tail :
  Forall converts l -> Forall wire_ok l -> (length (enc_num c n ++ print_all l ++ tail) <= S fuel)%nat ->
  Forall (fun w => raincall_reply_from_call_reply fuel (Some (or_flags (fill empty_reply w) REPLY_FLAG_PARSED))
                   = Some (Some (rain_of w))) l.
Proof.
  intros H Hok Hf.
  assert (length (print_all l) <= fuel)%nat as Hl
    by (unfold enc_num, enc_line in Hf; simpl in Hf; rewrite !length_app in Hf; lia).
  clear Hf. induction H as [|w l Hw _ IH]; [constructor|]. apply Forall_cons in Hok as [Ow Ol].
  unfold print_all in *. simpl in Hl. rewrite length_app in Hl. constructor.
  - apply Hw; [done|lia|apply reads_as_element].
  - apply IH; [done|lia].
Qed.

(** The elements of a parsed aggregate. *)
Lemma array_elements src ty n l :
  (exists q, callReplyParse src = Some q /\ type q = ty /\ len q = n /\ val q = val_array _ (elements l)) ->
  callReplyType (Some src) = Some ty /\
  (ty ∈ [REDISMODULE_REPLY_ARRAY; REDISMODULE_REPLY_SET; REDISMODULE_REPLY_MAP] -> callReplyGetLen src = Some n) /\
  (ty = REDISMODULE_REPLY_ARRAY -> forall i x, i < n -> l !! Z.to_nat i = Some x ->
     callReplyGetArrayElement src i = Some (or_flags (fill empty_reply x) REPLY_FLAG_PARSED)) /\
  (ty = REDISMODULE_REPLY_SET -> forall i x, i < n -> l !! Z.to_nat i = Some x ->
     callReplyGetSetElement src i = Some (or_flags (fill empty_reply x) REPLY_FLAG_PARSED)) /\
  (ty = REDISMODULE_REPLY_MAP -> forall i x y, 0 <= i < n ->
     l !! Z.to_nat (i * 2) = Some x -> l !! Z.to_nat (i * 2 + 1) = Some y ->
     callReplyGetMapElement src i =
       Some (Some (or_flags (fill empty_reply x) REPLY_FLAG_PARSED),
             Some (or_flags (fill empty_reply y) REPLY_FLAG_PARSED))).
Proof.
  intros (q & E & T & N & V).
  unfold callReplyType, callReplyGetLen, callReplyGetArrayElement, callReplyGetSetElement, callReplyGetMapElement,
    callReplyGetMapElementInternal, callReplyGetCollectionElement.
  rewrite E. cbn [fmap option_fmap option_map mbind option_bind]. rewrite T, N, V. unfold elements.
  split_and!; [done|..].
  - intros H. rewrite bool_decide_eq_true_2; [done|]. set_unfold. tauto.
  - intros -> i x Hi Hx. cbn [Z.eqb Pos.eqb negb]. zdec. by rewrite list_lookup_fmap, Hx.
  - intros -> i x Hi Hx. cbn [Z.eqb Pos.eqb negb]. zdec. by rewrite list_lookup_fmap, Hx.
  - intros -> i x y Hi Hx Hy. cbn [Z.eqb Pos.eqb negb]. zdec. by rewrite !list_lookup_fmap, Hx, Hy.
Qed.

Lemma map_pairs_flatten {A B} (f : A -> B) (l : list (A * A)) :
  concat (map (fun kv => [f (fst kv); f (snd kv)]) l) = map f (flatten l).
Proof. unfold flatten. induction l as [|[a b] l IH]; simpl; [done|]. by rewrite IH. Qed.

(** A reply parsed from a collection. *)
Lemma reads_as_collection src w ty n l :
  reads_as src w ->
  (forall rep, type (fill rep w) = ty /\ len (fill rep w) = n /\ val (fill rep w) = val_array _ (elements l)) ->
  exists q, callReplyParse src = Some q /\ type q = ty /\ len q = n /\ val q = val_array _ (elements l).
Proof.
  intros (rep & q & E & T & N & V) H. destruct (H rep) as (H1 & H2 & H3). exists q. split_and!; congruence.
Qed.

Section Aggregates.
Context (fuel : nat) (src : CallReply) (l : list wire).
Context (C : Forall (fun w => raincall_reply_from_call_reply fuel
               (Some (or_flags (fill empty_reply w) REPLY_FLAG_PARSED)) = Some (Some (rain_of w))) l).

Definition parses_to (ty n : Z) : Prop :=
  exists q, callReplyParse src = Some q /\ type q = ty /\ len q = n /\ val q = val_array _ (elements l).

Lemma array_converts :
  parses_to REDISMODULE_REPLY_ARRAY (zlen l) ->
  raincall_reply_from_call_reply (S fuel) (Some src) = Some (Some (rain_of (WArray l))).
Proof.
  intros (T & N & A & _ & _)%array_elements. cbn [raincall_reply_from_call_reply].
  rewrite T. cbn [mbind option_bind]. rewrite N by set_solver. cbn [mbind option_bind].
  rewrite <- (zlen_map rain_of l), convert_all_seq with (gs := map rain_of l); [done|].
  intros i x Hi. apply list_lookup_fmap_Some in Hi as (w & -> & Hw). rewrite Z.add_0_l.
  pose proof (lookup_lt_Some _ _ _ Hw). cbn.
  rewrite (A eq_refl _ w); [|unfold zlen; lia|by rewrite Nat2Z.id].
  by apply (Forall_lookup_1 _ _ _ _ C Hw).
Qed.

Lemma set_converts :
  parses_to REDISMODULE_REPLY_SET (zlen l) ->
  raincall_reply_from_call_reply (S fuel) (Some src) = Some (Some (rain_of (WSet l))).
Proof.
  intros (T & N & _ & A & _)%array_elements. cbn [raincall_reply_from_call_reply].
  rewrite T. cbn [mbind option_bind]. rewrite N by set_solver. cbn [mbind option_bind].
  rewrite <- (zlen_map rain_of l), convert_all_seq with (gs := map rain_of l); [done|].
  intros i x Hi. apply list_lookup_fmap_Some in Hi as (w & -> & Hw). rewrite Z.add_0_l.
  pose proof (lookup_lt_Some _ _ _ Hw). cbn.
  rewrite (A eq_refl _ w); [|unfold zlen; lia|by rewrite Nat2Z.id].
  by apply (Forall_lookup_1 _ _ _ _ C Hw).
Qed.

Lemma map_converts :
  (exists k, zlen l = 2 * k) -> parses_to REDISMODULE_REPLY_MAP (zlen l / 2) ->
  raincall_reply_from_call_reply (S fuel) (Some src) = Some (Some (rain_of (WMap l))).
Proof.
  intros [k Hk] (T & N & _ & _ & A)%array_elements. cbn [raincall_reply_from_call_reply].
  destruct (pairs_flatten l k Hk) as [F Hp].
  replace (zlen l / 2) with k in * by (rewrite Hk, Z.mul_comm, Z.div_mul; lia).
  rewrite T. cbn [mbind option_bind]. rewrite N by set_solver. cbn [mbind option_bind].
  rewrite <- Hp, <- (zlen_map (fun kv => [rain_of (fst kv); rain_of (snd kv)]) (pairs l)).
  rewrite convert_all_seq with (gs := map (fun kv => [rain_of (fst kv); rain_of (snd kv)]) (pairs l)).
  - cbn. by rewrite map_pairs_flatten, F.
  - intros i x Hi. apply list_lookup_fmap_Some in Hi as ([a b] & -> & Hab). rewrite Z.add_0_l.
    pose proof (lookup_lt_Some _ _ _ Hab). destruct (pairs_lookup l i a b Hab) as [Ha Hb].
    rewrite (A eq_refl _ a b).
    + rewrite (Forall_lookup_1 _ _ _ _ C Ha), (Forall_lookup_1 _ _ _ _ C Hb). done.
    + unfold zlen in Hp. lia.
    + rewrite <- Ha. f_equal. lia.
    + rewrite <- Hb. f_equal. lia.
Qed.
End Aggregates.

Lemma call_reply_converts w : converts w.
Proof.
  induction w using wire_nested_ind; intros Hok [|fuel] src Hf Hr;
    try (exfalso; match type of Hf with (length (print ?w) <= _)%nat => pose proof (print_length w) end; lia);
    try (destruct Hr as (rep & q & E & T & N & V); simpl in T, N, V;
         cbn [raincall_reply_from_call_reply callReplyType]; rewrite E; cbn [fmap option_fmap option_map mbind option_bind];
         rewrite T;
         unfold callReplyGetString, callReplyGetLongLong, callReplyGetBool, callReplyGetDouble,
           callReplyGetBigNumber, callReplyGetVerbatim, str_of;
         rewrite E; cbn [mbind option_bind]; rewrite T, V; reflexivity).
  - destruct Hok as [_ Hl%wire_ok_list].
    pose proof (converts_elements l fuel (zlen l) 42 [] H Hl) as C.
    rewrite app_nil_r in C. eapply array_converts; [exact (C Hf)|].
    eapply reads_as_collection; [exact Hr|]. by intros rep.
  - destruct Hok as [_ Hl%wire_ok_list].
    pose proof (converts_elements l fuel (zlen l) 126 [] H Hl) as C.
    rewrite app_nil_r in C. eapply set_converts; [exact (C Hf)|].
    eapply reads_as_collection; [exact Hr|]. by intros rep.
  - destruct Hok as (_ & Hk & Hl%wire_ok_list).
    pose proof (converts_elements l fuel (zlen l / 2) 37 [] H Hl) as C.
    rewrite app_nil_r in C. eapply map_converts; [exact (C Hf)|exact Hk|].
    eapply reads_as_collection; [exact Hr|]. by intros rep.
  - apply reads_as_attribute in Hr. apply IHw; [apply Hok| |done].
    cbn [print] in Hf. unfold enc_num, enc_line in Hf. simpl in Hf. rewrite !length_app in Hf. lia.
Qed.
End RainOf.

(** ** Names *)

Lemma tolower_zero c : tolower c = 0 -> c = 0.
Proof. unfold tolower. destruct (_ && _) eqn:E; [|done]. apply andb_true_iff in E. lia. Qed.

(** Against a name without NUL, the comparison is equality without case. *)
Lemma strncaseeq_spec n a b :
  c_string (take n b) -> (n <= length b)%nat ->
  strncaseeq a b n = true <-> (n <= length a)%nat /\ sdstolower (take n a) = sdstolower (take n b).
Proof.
  revert a b. induction n as [|n IH]; intros a b Hb Hn; [split; [split; [lia|done]|done]|].
  cbn [strncaseeq].
  destruct b as [|y b]; simpl in Hb, Hn; [lia|]. apply Forall_cons in Hb as [Hy Hb].
  destruct a as [|x a]; cbn [hd tail length take]; cbv zeta.
  - split; [|lia]. intros [E _]%andb_true_iff. apply Z.eqb_eq in E. by symmetry in E; apply tolower_zero in E.
  - rewrite andb_true_iff, orb_true_iff, !Z.eqb_eq, IH by (done || lia). split.
    + intros [E [->|[L S]]]; [by symmetry in E; apply tolower_zero in E|].
      split; [lia|]. unfold sdstolower in *. simpl. by rewrite E, S.
    + intros [L S]. unfold sdstolower in S. simpl in S. injection S as E S.
      split; [done|]. right. split; [lia|done].
Qed.

Lemma command_is_spec a cmd :
  c_string cmd -> raincall_command_is a cmd = true <-> sdstolower a = sdstolower cmd.
Proof.
  intros Hc. unfold raincall_command_is. rewrite andb_true_iff, Z.eqb_eq. unfold zlen. split.
  - intros [E H]. apply strncaseeq_spec in H as [_ H]; [|by apply Forall_take|lia].
    rewrite firstn_all in H. by rewrite (take_ge cmd) in H by lia.
  - intros H. assert (length a = length cmd) as E.
    { apply (f_equal length) in H. unfold sdstolower in H. by rewrite !length_map in H. }
    split; [lia|]. apply strncaseeq_spec; [by apply Forall_take|lia|].
    rewrite firstn_all, (take_ge cmd) by lia. by split; [lia|].
Qed.

Lemma denylist_c_strings : Forall c_string denylist.
Proof. unfold denylist, c_string. repeat constructor; discriminate. Qed.

Lemma denylisted_spec a :
  raincall_command_is_denylisted a = true <->
  ((5 <= length a)%nat /\ sdstolower (take 5 a) = bs "rain.") \/ Exists (fun n => sdstolower a = sdstolower n) denylist.
Proof.
  unfold raincall_command_is_denylisted. rewrite orb_true_iff, andb_true_iff, existsb_exists.
  rewrite strncaseeq_spec by ((repeat constructor; discriminate) || (simpl; lia)).
  rewrite Z.geb_leb, Z.leb_le. unfold zlen. rewrite Exists_exists.
  assert (forall P Q R S : Prop, (P <-> Q) -> (R <-> S) -> (P \/ R <-> Q \/ S)) as or_iff by tauto.
  apply or_iff.
  - change (sdstolower (take 5 (bs "RAIN."))) with (bs "rain."). split; intros; split_and!; try tauto; lia.
  - split; intros (n & Hn & E); exists n.
    + apply list_elem_of_In in Hn. split; [done|].
      apply command_is_spec in E; [done|by apply (proj1 (Forall_forall _ _) denylist_c_strings)].
    + split; [by apply list_elem_of_In|].
      apply command_is_spec; [by apply (proj1 (Forall_forall _ _) denylist_c_strings)|done].
Qed.

(** ** What a call does *)

Section Gates.
Context {D : Doubles} (cfg : config) {User Db : Type} {S : Server User Db}.
Implicit Types (st : inprocess User Db) (argv : list (list Z)).

(** Every check between the caller and the command. *)
Record passes_gates st argv (clr : caller User) (cmd : redisCommand) (argv' : list (list Z)) : Prop := {
  pg_caller : ip_caller st = Some clr;
  pg_argc : 1 <= zlen argv;
  pg_allowed : raincall_command_is_denylisted (nth 0 argv []) = false;
  pg_filtered : argv' = moduleCallCommandFilters (ip_db st) argv;
  pg_found : lookupCommand bucket commands argv' = Some cmd;
  pg_arity : commandCheckArity cmd (zlen argv') = None;
  pg_flags : has (getCommandFlags (fcallGetCommandFlags (ip_db st)) (evalGetCommandFlags (ip_db st)) cmd argv')
               forbidden_flags = false;
  pg_acl : ACLCheckAllUserCommandPerm (ip_db st) (caller_user clr) cmd argv' = true
}.

Definition with_client st : inprocess User Db := emit ECreateClient (st<| ip_next_id ::= Z.add 1 |>).

Lemma inprocess_call_runs garbage st argv clr cmd argv' :
  passes_gates st argv clr cmd argv' ->
  raincall_inprocess_call cfg garbage st argv =
  run_command garbage (with_client st) clr (isolated_client cfg (with_client st) (caller_resp clr)) cmd argv'.
Proof.
  intros [G1 G2 G3 G4 G5 G6 G7 G8]. unfold raincall_inprocess_call. rewrite G1. zdec. rewrite G3.
  cbv zeta. fold (with_client st). change (ip_db (with_client st)) with (ip_db st). rewrite <- G4, G5. cbn [commandCheckExistence]. by rewrite G6, G7, G8.
Qed.

(** The events of a call that did not run a command, and its effect. *)
Definition untouched st st' : Prop := ip_db st' = ip_db st /\ ip_srv st' = ip_srv st /\ ip_fault st' = ip_fault st.

Lemma inprocess_call_cases garbage st argv :
  let '(r, st') := raincall_inprocess_call cfg garbage st argv in
  (exists clr cmd argv', passes_gates st argv clr cmd argv' /\
     (r, st') = run_command garbage (with_client st) clr
                  (isolated_client cfg (with_client st) (caller_resp clr)) cmd argv') \/
  (untouched st st' /\ ip_events st' = ip_events st ++ [ECreateClient; EFreeClient] /\
   exists e, r = Some (raincall_reply_string RAINCALL_REPLY_ERROR e)) \/
  (untouched st st' /\ ip_events st' = ip_events st /\
   (r = None \/ exists e, r = Some (raincall_reply_string RAINCALL_REPLY_ERROR e))).
Proof.
  unfold raincall_inprocess_call.
  destruct (ip_caller st) as [clr|] eqn:G1; [|right; right; by split_and!; [| |left]].
  destruct (Z.ltb_spec (zlen argv) 1) as [_|G2]; [right; right; split_and!; [done|done|right; by eexists]|].
  destruct (raincall_command_is_denylisted _) eqn:G3; [right; right; split_and!; [done|done|right; by eexists]|].
  cbv zeta. fold (with_client st).
  change (ip_db (with_client st)) with (ip_db st). set (argv' := moduleCallCommandFilters (ip_db st) argv).
  assert (forall e, untouched st (emit EFreeClient (with_client st)) /\
    ip_events (emit EFreeClient (with_client st)) = ip_events st ++ [ECreateClient; EFreeClient] /\
    exists e', Some (raincall_reply_string RAINCALL_REPLY_ERROR e)
               = Some (raincall_reply_string RAINCALL_REPLY_ERROR e')) as refused.
  { intros e. split_and!; [done| |by eexists]. cbn. by rewrite <- app_assoc. }
  destruct (lookupCommand bucket commands argv') as [cmd|] eqn:G5; cbn [commandCheckExistence];
    [|right; left; apply refused].
  destruct (commandCheckArity _ _) as [e|] eqn:G6; [right; left; apply refused|].
  destruct (has _ _) eqn:G7; [right; left; apply refused|].
  destruct (ACLCheckAllUserCommandPerm _ _ _ _) eqn:G8; cbn [negb]; [|right; left; apply refused].
  destruct (run_command _ _ _ _ _ _) as [r st'] eqn:E.
  left. exists clr, cmd, argv'. split; [by constructor|by rewrite E].
Qed.

(** No buffer of the client holds references, no deferred length is open. *)
Definition all_plain (c : client) : Prop :=
  buf_encoded (buf c) = false /\
  Forall (fun n => match n with Some b => buf_encoded (data b) = false | None => False end) (reply c).

Lemma capture_stream garbage c :
  all_plain c -> exists c', raincall_capture_reply garbage c = Some (callReplyCreate garbage (stream c), c').
Proof.
  intros [H1 H2]. unfold raincall_capture_reply, stream.
  destruct (buf c) as [s|]; [|done]. cbn [plain_bytes mbind option_bind data_bytes].
  assert (capture_list (reply c) = Some (list_bytes (reply c))) as ->; [|by eexists].
  induction H2 as [|[[sz [t|]]|] l H _ IH]; [done| |done|done].
  cbn [capture_list data plain_bytes mbind option_bind]. rewrite IH. done.
Qed.

(** The outcome of running a command whose reply is the text of [wt]. *)
Lemma run_command_exact {L : DoubleLaws D} garbage st clr c cmd argv db w wt :
  call (ip_db st) clr {| srv := ip_srv st; cl := c |} cmd argv = (db, w) ->
  has (flags (cl w)) CLIENT_BLOCKED = false -> all_plain (cl w) ->
  wire_ok wt -> stream (cl w) = print wt ->
  run_command garbage st clr c cmd argv =
  (Some (rain_of wt), emit EFreeClient (emit (ECall cmd argv) (st<| ip_db := db |><| ip_srv := srv w |>))).
Proof.
  intros E B P O S'. unfold run_command. rewrite E, B.
  destruct (capture_stream garbage (cl w) P) as [c' ->]. rewrite S'. cbn [proto callReplyCreate].
  rewrite (call_reply_converts wt O _ (callReplyCreate garbage (print wt))); [done|lia|].
  exists (callReplyCreate garbage (print wt)). eexists. split; [by apply callReplyParse_print|]. done.
Qed.
End Gates.

(** The backend as RAIN.CALL uses it. *)
Definition inprocess_backend {D : Doubles} (cfg : config) {User Db : Type} {S : Server User Db} (garbage : CallReply)
    : @Inprocess D (inprocess User Db) := {|
  inprocess_call st argv := raincall_inprocess_call cfg garbage st argv;
  inprocess_last_error := raincall_inprocess_last_error;
  inprocess_close st := st
|}.

Section Events.
Context {D : Doubles} {User Db : Type} {S : Server User Db}.

Lemma run_command_events garbage (st : inprocess User Db) clr c cmd argv :
  let '(r, st') := run_command garbage st clr c cmd argv in
  ip_events st' = ip_events st ++ [ECall cmd argv; EFreeClient] \/
  (ip_events st' = ip_events st ++ [ECall cmd argv] /\ ip_fault st' = true /\ r = None).
Proof.
  unfold run_command. destruct (call _ _ _ _ _) as [db w].
  destruct (has _ _); [left; cbn; by rewrite <- app_assoc|].
  destruct (raincall_capture_reply _ _) as [[rep c']|]; [|by right].
  destruct (raincall_reply_from_call_reply _ _) as [[r|]|]; [| |by right]; left; cbn; by rewrite <- app_assoc.
Qed.

Lemma cstr_nul s t : c_string s -> cstr (s ++ 0 :: t) = s.
Proof. intros H. induction H as [|c s Hc _ IH]; [done|]. cbn. zdec. by rewrite IH. Qed.

Lemma dictFetchValue_nul (bkt : list Z -> nat) d s t :
  c_string s -> bkt (s ++ 0 :: t) = bkt s -> dictFetchValue bkt d (s ++ 0 :: t) = dictFetchValue bkt d s.
Proof.
  intros Hs Hb. induction d as [|[k c] d IH]; [done|]. cbn [dictFetchValue]. rewrite Hb, IH.
  unfold strcaseeq. by rewrite cstr_nul, (cstr_id s).
Qed.
End Events.

(** ** Properties *)

(** The denylist is exact: a name is refused exactly when its first five
    bytes spell "RAIN." or the whole name spells one of the listed commands,
    in any mix of cases and comparing every byte. *)
Theorem denylist_exact a :
  raincall_command_is_denylisted a = true <->
  ((5 <= length a)%nat /\ sdstolower (take 5 a) = bs "rain.") \/
  Exists (fun n => sdstolower a = sdstolower n) denylist.
Proof. exact (denylisted_spec a). Qed.

(** C32: a NUL byte hides a listed name: the command table compares names as C
    strings, so when [name] followed by a NUL and any bytes falls into the
    bucket of [name], it finds the very command [name] finds, yet the denylist,
    which compares lengths, lets it pass. *)
Theorem nul_name_bypasses_denylist bkt cmds name junk :
  c_string name -> sdstolower (take 5 name) <> bs "rain." -> bkt (name ++ 0 :: junk) = bkt name ->
  raincall_command_is_denylisted (name ++ 0 :: junk) = false /\
  dictFetchValue bkt cmds (name ++ 0 :: junk) = dictFetchValue bkt cmds name.
Proof.
  intros Hn Hr Hb. split; [|by apply dictFetchValue_nul].
  apply not_true_iff_false. rewrite denylisted_spec.
  assert (forall x, c_string x -> ~ In 0 (sdstolower x)) as no_nul.
  { intros x Hx (c & E & Hc)%in_map_iff. apply tolower_zero in E. subst c.
    by apply (proj1 (Forall_forall _ _) Hx 0 (proj2 (list_elem_of_In _ _) Hc)). }
  intros [[_ E]|E].
  - destruct (decide (5 <= length name)%nat) as [L|L].
    + by rewrite take_app_le in E by lia.
    + assert (In 0 (bs "rain.")) as I; [|by vm_compute in I; intuition discriminate]. rewrite <- E. unfold sdstolower.
      apply in_map_iff. exists 0. split; [done|]. rewrite take_app_ge by lia. apply in_or_app. right.
      by replace (5 - length name)%nat with (S (4 - length name)) by lia; left.
  - apply Exists_exists in E as (n & Hi & E).
    apply (no_nul n (proj1 (Forall_forall _ _) denylist_c_strings n Hi)). rewrite <- E.
    unfold sdstolower. rewrite map_app. apply in_or_app. right. by left.
Qed.

Lemma nul_name_bypasses_denylist_witness :
  let cmd := mkCommand (bs "select") 2 0 PROC_PLAIN None in
  raincall_command_is_denylisted (bs "SELECT" ++ [0; 88]) = false /\
  dictFetchValue (fun _ => 3%nat) [(bs "select", cmd)] (bs "SELECT" ++ [0; 88]) = Some cmd.
Proof.
  intros cmd.
  destruct (nul_name_bypasses_denylist (fun _ => 3%nat) [(bs "select", cmd)] (bs "SELECT") [88]) as [E1 E2];
    [repeat constructor; discriminate|discriminate|reflexivity|].
  split; [exact E1|]. rewrite E2. reflexivity.
Defined.

(** C2: nothing runs without every check: whatever the backend is called with,
    either no client was made and nothing happened; or a client was made and
    freed, nothing ran and the result is an error reply; or one command ran
    exactly once, for a set caller, a name off the denylist, an existing
    command of the right arity, without a forbidden flag and permitted by the
    caller's own ACL user, and the client was freed afterwards unless reading
    its output faulted. *)
Theorem inprocess_call_gated {D : Doubles} cfg {User Db : Type} {S : Server User Db} garbage
    (st : inprocess User Db) argv :
  let '(r, st') := raincall_inprocess_call cfg garbage st argv in
  exists evs, ip_events st' = ip_events st ++ evs /\
  ((evs = [] /\ untouched st st') \/
   (evs = [ECreateClient; EFreeClient] /\ untouched st st' /\
    exists e, r = Some (raincall_reply_string RAINCALL_REPLY_ERROR e)) \/
   (exists clr cmd argv', passes_gates st argv clr cmd argv' /\
     (evs = [ECreateClient; ECall cmd argv'; EFreeClient] \/
      (evs = [ECreateClient; ECall cmd argv'] /\ ip_fault st' = true /\ r = None)))).
Proof.
  pose proof (inprocess_call_cases cfg garbage st argv) as C.
  destruct (raincall_inprocess_call cfg garbage st argv) as [r st'].
  destruct C as [(clr & cmd & argv' & G & E)|[(U & E & e)|(U & E & _)]].
  - pose proof (run_command_events garbage (with_client st) clr
                  (isolated_client cfg (with_client st) (caller_resp clr)) cmd argv') as R.
    rewrite <- E in R. cbn in R. rewrite <- !app_assoc in R.
    destruct R as [R|(R & F)]; eexists; (split; [exact R|]); right; right; exists clr, cmd, argv'; auto.
  - eexists. split; [exact E|]. auto.
  - exists []. rewrite app_nil_r. auto.
Qed.

(** C1: RAIN.CALL from end to end: when Lua calls it with arguments that are
    strings or numbers while the in-process backend is installed, the checks
    pass and the command leaves the protocol text of a value in the internal
    client, then [rain_call] pushes exactly one Lua value built from fresh
    tables that represents that very value (or raises its first error), the
    data is as the command left it, and the client was freed. *)
Theorem rain_call_end_to_end {D : Doubles} {DL : DoubleLaws D} {M : Moonquakes} {ML : MoonquakesLaws M}
    cfg {User Db : Type} {S : Server User Db} {H : @Hiredis D (inprocess User Db)}
    malloc_ok garbage L (w : @rain D (inprocess User Db) H) R argv clr cmd argv' db wld wt :
  let I := inprocess_backend cfg garbage in
  (forall n, malloc_ok n = true) -> heap_ok (view L) ->
  installed_state w = Some R -> states w !! R = Some InProcess ->
  tolstrings L 1 (length (lstack (view L))) = Some argv ->
  passes_gates (sys w) argv clr cmd argv' ->
  call (ip_db (sys w)) clr
    {| srv := ip_srv (sys w); cl := isolated_client cfg (with_client (sys w)) (caller_resp clr) |} cmd argv' = (db, wld) ->
  has (flags (cl wld)) CLIENT_BLOCKED = false -> all_plain (cl wld) -> wire_ok wt -> stream (cl wld) = print wt ->
  exists ret L' w', rain_call (I := I) malloc_ok L w = Some (ret, L', w') /\
    ip_db (sys w') = db /\
    ip_events (sys w') = ip_events (sys w) ++ [ECreateClient; ECall cmd argv'; EFreeClient] /\
    extends (view L) (view L') /\
    match first_error (rain_of wt) with
    | None => ret = 1 /\ exists v, lstack (view L') = v :: lstack (view L) /\
                                   represents (lheap (view L')) (lnext (view L)) (rain_of wt) v
    | Some e => ret = -1 /\ exists g, lstack (view L') = LString e :: g ++ lstack (view L)
    end.
Proof.
  intros I Hm Hh Hi Hs Ha G Hc B P O St.
  assert (1 <= zlen (lstack (view L))) as Hn.
  { pose proof (pg_argc _ _ _ _ _ G). destruct (lstack (view L)); [|unfold zlen; simpl; lia].
    injection Ha as <-. done. }
  unfold rain_call, mq_gettop. zdec. unfold raincall_get_state. rewrite Hi. unfold malloc. rewrite !Hm.
  cbn [andb negb]. unfold zlen. rewrite Nat2Z.id, Ha.
  match goal with |- context [states ?x !! R] => change (states x) with (states w); set (w1 := x) end.
  rewrite Hs. cbn [mbind option_bind backend_call inprocess_call inprocess_backend I].
  change (sys w1) with (sys w).
  rewrite (inprocess_call_runs cfg garbage _ _ _ _ _ G).
  rewrite (run_command_exact garbage (with_client (sys w)) clr _ cmd argv' db wld wt Hc B P O St).
  cbn. pose proof (push_reply_spec (rain_of wt) L Hh) as PS.
  destruct (raincall_push_reply L (rain_of wt)) as [ret L'].
  eexists ret, L', _. split; [reflexivity|]. destruct PS as [PS1 PS2]. unfold outcome in PS2.
  split_and!; [done| |done|done]. cbn. by rewrite <- !app_assoc.
Qed.

(** A server with one command, PING, that counts its calls. *)
Definition ping_command : redisCommand := mkCommand (bs "ping") (-1) 0 PROC_PLAIN None.

Definition ping_server {D : Doubles} : Server unit nat := {|
  bucket _ := 0%nat;
  commands := [(bs "ping", ping_command)];
  moduleCallCommandFilters _ argv := argv;
  fcallGetCommandFlags _ _ f := f;
  evalGetCommandFlags _ _ f := f;
  ACLCheckAllUserCommandPerm _ _ _ _ := true;
  call db _ w _ _ := (Datatypes.S db, send example_config w (VStatus (bs "PONG")))
|}.

Definition ping_state : inprocess unit nat :=
  raincall_inprocess_backend_set_caller (inprocess_init example_server 0%nat)
    (Some {| caller_user := tt; caller_db := 0; caller_resp := 2 |}).

Definition ping_lua {D : Doubles} : lua :=
  {| lstack := [LString (bs "Ping")]; lheap := ∅; lnext := 1; lglobals := ∅ |}.

Lemma rain_call_end_to_end_witness :
  let D := SmallDoubles.small_doubles in
  let M := SmallLua.small_lua in
  let S := @ping_server D in
  let I := inprocess_backend example_config (S := S) empty_reply in
  let w := {| default_state := None; installed_state := Some 0%nat; states := {[ 0%nat := InProcess ]};
              next_state := 1; clock := 0; sys := ping_state |} in
  exists L' w', rain_call (H := pong_hiredis) (I := I) (fun _ => true) (ping_lua : @mq_State D M) w = Some (1, L', w') /\
    ip_db (sys w') = 1%nat /\ exists v, lstack L' = [v; LString (bs "Ping")].
Proof.
  intros D M S I w.
  destruct (@rain_call_end_to_end D SmallDoubles.small_double_laws M SmallLua.small_lua_laws example_config
              unit nat S (@pong_hiredis D (inprocess unit nat)) (fun _ => true) empty_reply (ping_lua : @mq_State D M)
              w 0%nat [bs "Ping"] {| caller_user := tt; caller_db := 0; caller_resp := 2 |} ping_command [bs "Ping"]
              1%nat (send example_config {| srv := example_server;
                       cl := isolated_client example_config (with_client ping_state) 2 |} (VStatus (bs "PONG")))
              (WSimple (bs "PONG"))) as (ret & L' & w' & E & E1 & _ & _ & E2 & v & E3 & _).
  - done.
  - by intros t tbl.
  - done.
  - reflexivity.
  - reflexivity.
  - constructor; reflexivity || (vm_compute; discriminate).
  - reflexivity.
  - reflexivity.
  - split; [reflexivity|constructor].
  - repeat constructor; discriminate.
  - reflexivity.
  - exists L', w'. subst ret. split_and!; [exact E|exact E1|exists v; exact E3].
Defined.
