(* ===== verification/RainFall.v ===== *)
(** RAIN.FALL (src/src/rainfall.c): the command that runs Lua source, and how
    the value the script returns becomes the reply.

    Running Lua is the business of the Moonquakes library. What a script does is
    a [script]: the calls it makes to RAIN.CALL and RAIN.CONNECT, in order and
    each depending on what the earlier ones returned, and the state it ends
    in. A script that does not end has no such tree. *)

From stdpp Require Import base list numbers strings gmap sets.
From coqutil Require Import Datatypes.RecordSetters.
From S2P Require Import Prelude Numbers Sds Doubles Client ReplyBuffer Reply Wire CallReply Lua RainCall RainInprocess.
Import TriangleBracketNotations.

Local Open Scope Z_scope.

(** ** The source reader *)

Record rainFallReader : Type := { source : list Z; done : bool }.

(** The chunk, or NULL. *)
Definition rainFallReadChunk (reader : rainFallReader) : option (list Z) * rainFallReader :=
  if done reader then (None, reader) else (Some (source reader), reader<| done := true |>).

(** A loader takes chunks up to the first NULL or empty one. *)
Fixpoint read_all (calls : nat) (reader : rainFallReader) : list Z :=
  match calls with
  | O => []
  | S calls =>
      match rainFallReadChunk reader with
      | (None, _) | (Some [], _) => []
      | (Some chunk, reader) => chunk ++ read_all calls reader
      end
  end.

Section RainFall.
Context {D : Doubles} {M : Moonquakes} (cfg : config).

(** ** Scripts *)

(** A call gives the number of results (or a negative number for an error) and
    the state of the callee's frame. *)
Inductive script : Type :=
| Ends (status : Z) (L : mq_State)
| CallsRain (L : mq_State) (k : Z -> mq_State -> script)
| CallsConnect (L : mq_State) (k : Z -> mq_State -> script).

(** Creating states, compiling a source text, and running the function below
    [nargs] arguments for one result. *)
Class Runtime : Type := {
  mq_newstate : nat -> option mq_State;
  mq_load : mq_State -> list Z -> Z * mq_State;
  mq_pcall : mq_State -> nat -> script;
  mq_convert : lval -> option Z
}.

Context {RT : Runtime}.

(** ** From Lua values to replies *)

Section Rec.
(** [rainFallReplyFromLua], for the elements. *)
Context (reply_from_lua : world -> mq_State -> option (world * mq_State)).

(** The elements from [i] on, [n] of them. *)
Fixpoint reply_elements (n : nat) (i : Z) (w : world) (L : mq_State) : option (world * mq_State) :=
  match n with
  | O => Some (w, L)
  | S n =>
      '(w, L) ← reply_from_lua w (mq_geti L i);
      reply_elements n (i + 1) w (mq_pop L 1)
  end.

Definition rainFallReplyTable (w : world) (L : mq_State) : option (world * mq_State) :=
  let L := mq_len L in
  let len := mq_tointegerx mq_convert L (-1) in
  let L := mq_pop L 1 in
  match len with
  | None => Some (addReplyError cfg w (bs "RAIN.FALL: table return is not an array"), L)
  | Some len =>
      if len <? 0 then Some (addReplyError cfg w (bs "RAIN.FALL: table return is not an array"), L)
      else reply_elements (Z.to_nat len) 1 (addReplyArrayLen cfg w len) L
  end.
End Rec.

(** The value on top. [None] is a recursion deeper than [fuel]. *)
Fixpoint rainFallReplyFromLua (fuel : nat) (w : world) (L : mq_State) : option (world * mq_State) :=
  match fuel with
  | O => None
  | S fuel =>
      let v := at_index (view L) (-1) in
      match v with
      | LNil => Some (addReplyNull cfg w, L)
      | LBoolean b => Some (addReplyBool cfg w (mq_toboolean L (-1)), L)
      | LInteger n => Some (addReplyLongLong cfg w n, L)
      | LNumber d => Some (addReplyDouble cfg w d, L)
      | LString s => Some (addReplyBulkCBuffer cfg w s, L)
      | LTable _ => rainFallReplyTable (rainFallReplyFromLua fuel) w L
      | _ => Some (addReplyErrorFormat cfg w
                     (bs "RAIN.FALL: unsupported Lua return type: " ++ cstr (mq_typename (mq_type L (-1)))), L)
      end
  end.

(** ** Running scripts *)

Context {User Db : Type} {S : Server User Db}.
Context {H : @Hiredis D (inprocess User Db)} (malloc_ok : nat -> bool) (garbage : CallReply).

#[local] Instance backend : @Inprocess D (inprocess User Db) := inprocess_backend cfg garbage.

Notation rain := (@rain D (inprocess User Db) H).

(** [None] is the use of a freed connection state. *)
Fixpoint run_script (s : script) (w : rain) : option (Z * mq_State * rain) :=
  match s with
  | Ends status L => Some (status, L, w)
  | CallsRain L k => '(ret, L, w) ← rain_call malloc_ok L w; run_script (k ret L) w
  | CallsConnect L k => '(ret, L, w) ← rain_connect malloc_ok mq_convert L w; run_script (k ret L) w
  end.

(** ** The command *)

(** The statics [rainfall_state] and [rainfall_raincall_state] and the state
    of the host; the client runs in the same server as the backend. *)
Record fall : Type := {
  rainfall_state : option mq_State;
  rainfall_raincall_state : option nat;
  f_rain : rain;
  f_client : client
}.

Definition set_caller (c : option (caller User)) (st : fall) : fall :=
  st<| f_rain -> sys ::= fun b => raincall_inprocess_backend_set_caller b c |>.

(** The client's world, and an update of it put back. *)
Definition f_world (st : fall) : world := {| srv := ip_srv (sys (f_rain st)); cl := f_client st |}.

Definition put_world (st : fall) (w : world) : fall :=
  st<| f_rain -> sys -> ip_srv := srv w |><| f_client := cl w |>.

Definition rainFallGetState (st : fall) : option mq_State * fall :=
  match rainfall_state st with
  | Some L => (Some L, st)
  | None =>
      let n := clock (f_rain st) in
      let st := st<| f_rain -> clock ::= Datatypes.S |> in
      match mq_newstate n with
      | None => (None, st)
      | Some L =>
          let st := st<| f_rain -> sys ::= raincall_inprocess_backend_new |> in
          let '(R, w) := raincall_open_backend malloc_ok (Some InProcess) (f_rain st) in
          let st := st<| f_rain := w |><| rainfall_raincall_state := R |> in
          match R with
          | None => (None, st)
          | Some _ =>
              let '(L, w) := raincall_install_state L R (f_rain st) in
              (Some L, st<| f_rain := w |><| rainfall_state := Some L |>)
          end
      end
  end.

(** The common end of every path: back to the old height, no caller. *)
Definition finish (base_top : nat) (L : mq_State) (st : fall) : fall :=
  set_caller None (st<| rainfall_state := Some (mq_settop L base_top) |>).

(** [argv] is the command with its arguments; [user] and [db] are those of the
    client. *)
Definition rainFallCommand (fuel : nat) (user : User) (db : Z) (argv : list (list Z)) (st : fall) : option fall :=
  let '(L, st) := rainFallGetState st in
  match L with
  | None => Some (put_world st (addReplyError cfg (f_world st) (bs "RAIN.FALL: failed to create Moonquakes state")))
  | Some L =>
      let st := set_caller (Some {| caller_user := user; caller_db := db; caller_resp := resp (f_client st) |}) st in
      let base_top := length (lstack (view L)) in
      let reader := {| source := nth 1 argv []; done := false |} in
      let '(status, L) := mq_load L (read_all 2 reader) in
      if negb (status =? MQ_OK) then
        let st := put_world st (addReplyError cfg (f_world st) (bs "RAIN.FALL: failed to load source")) in
        Some (finish base_top L st)
      else
        let L := foldl mq_pushlstring L (drop 2 argv) in
        '(status, L, w) ← run_script (mq_pcall L (length argv - 2)) (f_rain st);
        let st := st<| f_rain := w |> in
        if negb (status =? MQ_OK) then
          let reply :=
            match mq_tolstring L (-1) with
            | Some err => addReplyErrorFormat cfg (f_world st) (bs "RAIN.FALL: " ++ cstr err)
            | None => addReplyError cfg (f_world st) (bs "RAIN.FALL: Lua error")
            end in
          Some (finish base_top L (put_world st reply))
        else
          '(reply, L) ← rainFallReplyFromLua fuel (f_world st) L;
          Some (finish base_top L (put_world st reply))
  end.
End RainFall.

(** ** What a Lua value stands for *)

Section Values.
Context {D : Doubles} {M : Moonquakes}.

Definition raw_object (s : list Z) : robj :=
  {| enc := OBJ_ENCODING_RAW; sds_ptr := s; int_ptr := 0; refcount := 1 |}.

(** The reply for a value over the tables [h]; [None] for a reference that
    leads nowhere or nesting beyond [fuel]. *)
Fixpoint lua_value (fuel : nat) (h : gmap positive ltable) (v : lval) : option value :=
  match fuel with
  | O => None
  | S fuel =>
      match v with
      | LNil => Some VNull
      | LBoolean b => Some (VBool b)
      | LInteger n => Some (VInt n)
      | LNumber d => Some (VDouble d)
      | LString s => Some (VBulk (raw_object s))
      | LTable t =>
          tbl ← h !! t;
          vs ← mapM (fun i => lua_value fuel h (table_get tbl (inl i))) (seqZ 1 (mq_border tbl));
          Some (VArray vs)
      | v => Some (VError (bs "RAIN.FALL: unsupported Lua return type: " ++ cstr (mq_typename (type_of v))))
      end
  end.
End Values.

Section Replies.
Context {D : Doubles} {DL : DoubleLaws D} {M : Moonquakes} {ML : MoonquakesLaws M}.
Context (cfg : config) `{U : UsableSize cfg} (Q : quiet cfg) {RT : Runtime}.

Lemma at_top l v s : lstack l = v :: s -> at_index l (-1) = v.
Proof. intros E. unfold at_index. rewrite E. reflexivity. Qed.

Lemma lstack_push v l : lstack (push v l) = v :: lstack l.
Proof. done. Qed.

Lemma pop_push v l : pop 1 (push v l) = l.
Proof. by destruct l. Qed.

(** A function that answers for values like [lua_value fuel]. *)
Definition answers (reply_from_lua : world -> mq_State -> option (world * mq_State)) (fuel : nat) : Prop :=
  forall v s L w0 w t x,
    lua_value fuel (lheap (view L)) v = Some x -> value_ok x -> lstack (view L) = v :: s ->
    resp (cl w0) = 2 \/ resp (cl w0) = 3 -> sent cfg w0 w t ->
    exists w' L', reply_from_lua w L = Some (w', L') /\ view L' = view L /\
      sent cfg w0 w' (t ++ print (wire_of (resp (cl w0)) x)).

Lemma reply_elements_sent reply_from_lua fuel tb tbl s n i L w0 w t vs :
  answers reply_from_lua fuel ->
  lstack (view L) = LTable tb :: s -> lheap (view L) !! tb = Some tbl ->
  mapM (fun i => lua_value fuel (lheap (view L)) (table_get tbl (inl i))) (seqZ i (Z.of_nat n)) = Some vs ->
  Forall value_ok vs -> resp (cl w0) = 2 \/ resp (cl w0) = 3 -> sent cfg w0 w t ->
  exists w' L', reply_elements reply_from_lua n i w L = Some (w', L') /\ view L' = view L /\
    sent cfg w0 w' (t ++ print_all (map (wire_of (resp (cl w0))) vs)).
Proof.
  intros A. revert i L w t vs. induction n as [|n IH]; intros i L w t vs E T Hm Hok R S.
  { rewrite seqZ_nil in Hm by lia. injection Hm as <-. exists w, L. unfold print_all. simpl.
    by rewrite app_nil_r. }
  rewrite Nat2Z.inj_succ, seqZ_cons, Z.pred_succ in Hm by lia. cbn [mapM] in Hm.
  destruct (lua_value fuel _ _) as [x|] eqn:Hx in Hm; [|discriminate Hm]. cbn [mbind option_bind] in Hm.
  destruct (mapM _ _) as [xs|] eqn:Hxs in Hm; [|discriminate Hm]. injection Hm as <-.
  apply Forall_cons in Hok as [Ox Oxs].
  pose proof (view_geti L i tb s tbl E T) as G.
  destruct (A (table_get tbl (inl i)) (LTable tb :: s) (mq_geti L i) w0 w t x) as (w1 & L1 & E1 & V1 & S1);
    [by rewrite G|done|by rewrite G, lstack_push, E|done|done|].
  assert (view (mq_pop L1 1) = view L) as V2 by (by rewrite view_pop, V1, G, pop_push).
  destruct (IH (i + 1) (mq_pop L1 1) w1 (t ++ print (wire_of (resp (cl w0)) x)) xs) as (w2 & L2 & E2 & V3 & S2);
    rewrite ?V2; try done.
  exists w2, L2. cbn [reply_elements]. rewrite E1. cbn [mbind option_bind]. rewrite E2, V3, V2.
  split_and!; [done|done|]. unfold print_all in *. cbn [map concat]. by rewrite app_assoc.
Qed.

Lemma reply_from_lua_answers fuel : answers (rainFallReplyFromLua cfg fuel) fuel.
Proof.
  induction fuel as [|fuel IH]; intros v s L w0 w t x Hx Ok E R S; [discriminate Hx|].
  cbn [lua_value] in Hx. cbn [rainFallReplyFromLua]. unfold mq_toboolean, mq_type. rewrite (at_top _ _ _ E).
  destruct v as [|b|n|d|str|tb|f|ty]; try (injection Hx as <-; eexists _, L; split; [reflexivity|]; split; [done|];
    first [exact (send_sent cfg Q w0 _ R Ok w t S)
          |destruct b; exact (send_sent cfg Q w0 _ R Ok w t S)
          |apply (bulkCBuffer_sent cfg); [apply Ok|done]]).
  destruct (lheap (view L) !! tb) as [tbl|] eqn:T; [|discriminate Hx]. cbn [mbind option_bind] in Hx.
  destruct (mapM _ _) as [vs|] eqn:Hm; [|discriminate Hx]. injection Hx as <-.
  destruct Ok as [Hs Ok%value_ok_list].
  pose proof (view_len L tb s tbl E T) as VL. destruct (mq_border_law tbl) as (B0 & _).
  assert (zlen vs = mq_border tbl) as Hl.
  { apply length_mapM in Hm. rewrite length_seqZ in Hm. unfold zlen. lia. }
  unfold rainFallReplyTable, mq_tointegerx. rewrite VL.
  rewrite (at_top _ (LInteger (mq_border tbl)) (lstack (view L))) by done. zdec.
  assert (view (mq_pop (mq_len L) 1) = view L) as V1 by (by rewrite view_pop, VL, pop_push).
  rewrite <- Hl in *. unfold small in Hs. pose proof (zlen_nonneg vs).
  assert (sent cfg w0 (addReplyArrayLen cfg w (zlen vs)) (t ++ enc_num 42 (zlen vs))) as S1
    by (apply array_sent; (done || unfold is_i64; lia)).
  destruct (reply_elements_sent (rainFallReplyFromLua cfg fuel) fuel tb tbl s (Z.to_nat (zlen vs)) 1
              (mq_pop (mq_len L) 1) w0 (addReplyArrayLen cfg w (zlen vs)) (t ++ enc_num 42 (zlen vs)) vs)
    as (w' & L' & E1 & V2 & S2); rewrite ?V1; try done; [by rewrite Z2Nat.id by lia|].
  exists w', L'. split_and!; [done|congruence|]. cbn [wire_of print]. rewrite zlen_map.
  unfold print_all in S2. by rewrite app_assoc.
Qed.
End Replies.

(** ** What the command relies on *)

Section Laws.
Context {D : Doubles} {M : Moonquakes}.

(** How a C function leaves the frame it was called with: new tables only, and
    one value on top, a result or an error. *)
Definition returned (L : mq_State) (ret : Z) (L' : mq_State) : Prop :=
  extends (view L) (view L') /\ (ret = 1 \/ ret = -1) /\
  exists v g, lstack (view L') = v :: g ++ lstack (view L).

(** Every way the script can end satisfies [P], provided the functions it calls
    return properly. *)
Fixpoint ends (P : Z -> mq_State -> Prop) (s : script) : Prop :=
  match s with
  | Ends status L => P status L
  | CallsRain L k | CallsConnect L k =>
      heap_ok (view L) /\ forall ret L', returned L ret L' -> ends P (k ret L')
  end.

Class RuntimeLaws (RT : Runtime) : Prop := {
  newstate_empty n L : mq_newstate n = Some L -> lstack (view L) = [];
  load_pushes L src : exists v, lstack (view (snd (mq_load L src))) = v :: lstack (view L);
  pcall_replaces L n :
    (n < length (lstack (view L)))%nat ->
    ends (fun _ L' => exists v, lstack (view L') = v :: drop (S n) (lstack (view L))) (mq_pcall L n)
}.

End Laws.

(** ** Running a script *)

Section Scripts.
Context {D : Doubles} {M : Moonquakes} {ML : MoonquakesLaws M} {RT : Runtime}.
Context (cfg : config) {User Db : Type} {S : Server User Db} {H : @Hiredis D (inprocess User Db)}
  (malloc_ok : nat -> bool) (garbage : CallReply).
#[local] Instance the_backend : @Inprocess D (inprocess User Db) := inprocess_backend cfg garbage.
Implicit Types w : @rain D (inprocess User Db) H.

Lemma returned_push L L' v ret :
  heap_ok (view L) -> view L' = push v (view L) -> ret = 1 \/ ret = -1 -> returned L ret L'.
Proof.
  intros Hh V R. split_and!; [rewrite V; by apply extends_push|done|]. exists v, []. by rewrite V, lstack_push.
Qed.

Lemma raise_returned L msg : heap_ok (view L) -> returned L (-1) (mq_pushstring L msg).
Proof. intros Hh. eapply returned_push; [done|apply view_pushlstring|auto]. Qed.

Lemma rain_call_returned L w ret L' w' :
  heap_ok (view L) -> rain_call malloc_ok L w = Some (ret, L', w') -> returned L ret L'.
Proof.
  intros Hh. unfold rain_call, raincall_raise, raincall_raise_redis, raincall_raise. intros E.
  pose proof (fun msg => raise_returned L msg Hh) as Rr.
  destruct (_ <? _); [by injection E as <- <- <-|].
  destruct (raincall_get_state malloc_ok w) as [[R|] w1]; [|by injection E as <- <- <-].
  destruct (malloc malloc_ok w1) as [ok1 w2]. destruct (malloc malloc_ok w2) as [ok2 w3].
  destruct (negb _); [by injection E as <- <- <-|].
  destruct (tolstrings _ _ _) as [argv|]; [|by injection E as <- <- <-].
  destruct (states w3 !! R) as [b|]; [|discriminate E]. simpl in E.
  destruct (backend_call malloc_ok b argv w3) as [[[r|] b'] w4]; [|by injection E as <- <- <-].
  pose proof (push_reply_spec r L Hh) as P. destruct (raincall_push_reply L r) as [ret1 L1].
  injection E as <- <- <-. destruct P as [P1 P2]. unfold outcome in P2.
  destruct (first_error r) as [e|].
  - destruct P2 as [-> [g Hg]]. split_and!; [done|auto|]. by exists (LString e), g.
  - destruct P2 as [-> (v & Hv & _)]. split_and!; [done|auto|]. by exists v, [].
Qed.

Lemma rain_connect_returned conv L w ret L' w' :
  heap_ok (view L) -> rain_connect malloc_ok conv L w = Some (ret, L', w') -> returned L ret L'.
Proof.
  intros Hh. unfold rain_connect, raincall_raise. intros E.
  pose proof (fun msg => raise_returned L msg Hh) as Rr.
  destruct (mq_tolstring L 1) as [host|]; [|by injection E as <- <- <-].
  destruct (mq_tointegerx conv L 2) as [port|]; [|by injection E as <- <- <-].
  destruct (zlen host =? 0); [by injection E as <- <- <-|]. destruct (_ || _); [by injection E as <- <- <-|].
  destruct (malloc malloc_ok w) as [ok w1]. destruct (negb _); [by injection E as <- <- <-|].
  destruct (raincall_open malloc_ok _ _ w1) as [[R|] w2]; [|by injection E as <- <- <-].
  destruct (raincall_close _ w2) as [w3|]; [|discriminate E]. injection E as <- <- <-.
  eapply returned_push; [done|apply view_pushboolean|auto].
Qed.

(** The push messages of the server. *)
Definition pushed (s : inprocess User Db) : list (option clientReplyBlock) := pending_push_messages (ip_srv s).

(** A script whose ends satisfy [P] runs to such an end. *)
Lemma run_script_ends P s w :
  ends P s -> rain_ok w ->
  exists status L w', run_script cfg malloc_ok garbage s w = Some (status, L, w') /\ P status L /\ rain_ok w'.
Proof.
  revert w. induction s as [status L|L k IH|L k IH]; intros w; simpl; intros He Ok.
  - exists status, L, w. done.
  - destruct He as [Hh He]. destruct (rain_call_ok malloc_ok L w Ok) as (ret & L' & w' & E & Ok').
    pose proof (rain_call_returned L w ret L' w' Hh E) as R.
    destruct (IH ret L' w' (He _ _ R) Ok') as (st & L1 & w1 & E1 & ? & ?).
    exists st, L1, w1. change (the_backend) with (backend cfg garbage (S := S)) in E. rewrite E. simpl. by rewrite E1.
  - destruct He as [Hh He]. destruct (rain_connect_ok malloc_ok mq_convert L w Ok) as (ret & L' & w' & E & Ok' & _).
    pose proof (rain_connect_returned _ L w ret L' w' Hh E) as R.
    destruct (IH ret L' w' (He _ _ R) Ok') as (st & L1 & w1 & E1 & ? & ?).
    exists st, L1, w1. change (the_backend) with (backend cfg garbage (S := S)) in E. rewrite E. simpl. by rewrite E1.
Qed.
End Scripts.

(** ** The command *)

Section Command.
Context {D : Doubles} {DL : DoubleLaws D} {M : Moonquakes} {ML : MoonquakesLaws M} {RT : Runtime} {RL : RuntimeLaws RT}.
Context (cfg : config) `{U : UsableSize cfg} (Q : quiet cfg).
Context {User Db : Type} {S : Server User Db} {H : @Hiredis D (inprocess User Db)}
  (malloc_ok : nat -> bool) (garbage : CallReply).
#[local] Instance command_backend : @Inprocess D (inprocess User Db) := inprocess_backend cfg garbage.
Notation fall := (@fall D M User Db H).
Implicit Types st : fall.

(** Between commands: the connection states are sound, no caller is set, the
    Lua stack is empty, and the client takes output. *)
Record fall_ok st : Prop := {
  fo_rain : rain_ok (f_rain st);
  fo_caller : ip_caller (sys (f_rain st)) = None;
  fo_stack : forall L, rainfall_state st = Some L -> lstack (view L) = [];
  fo_wf : wf (f_world st);
  fo_accepts : accepts cfg (f_client st);
  fo_resp : resp (f_client st) = 2 \/ resp (f_client st) = 3
}.

Lemma install_stack L R (w : @rain D (inprocess User Db) H) :
  lstack (view (fst (raincall_install_state L R w))) = lstack (view L).
Proof.
  unfold raincall_install_state. cbn [fst].
  set (L1 := mq_setfield (mq_pushcfunction (mq_newtable L) (bs "rain_call")) (bs "CALL")).
  assert (lstack (view L1) = LTable (lnext (view L)) :: lstack (view L)) as E1
    by (subst L1; rewrite view_setfield, view_pushcfunction, view_newtable; done).
  set (L2 := mq_setfield (mq_pushcfunction L1 (bs "rain_connect")) (bs "CONNECT")).
  assert (lstack (view L2) = LTable (lnext (view L)) :: lstack (view L)) as E2.
  { subst L2. rewrite view_setfield, view_pushcfunction. unfold set_below. rewrite lstack_push, E1. done. }
  by rewrite (view_setglobal L2 (bs "RAIN") _ _ E2).
Qed.

(** Only the host's own bookkeeping differs. *)
Definition prepared st st' : Prop :=
  rain_ok (f_rain st') /\ ip_caller (sys (f_rain st')) = None /\ ip_srv (sys (f_rain st')) = ip_srv (sys (f_rain st)) /\
  f_client st' = f_client st.

Lemma get_state_prepared st :
  fall_ok st ->
  let '(L, st') := rainFallGetState malloc_ok st in
  prepared st st' /\ rainfall_state st' = L /\ forall L0, L = Some L0 -> lstack (view L0) = [].
Proof.
  intros Ok. unfold rainFallGetState. destruct (rainfall_state st) as [L|] eqn:Es.
  { split_and!; [split_and!; try done; apply Ok|done|]. intros L0 [= <-]. by apply (fo_stack _ Ok). }
  destruct (mq_newstate _) as [L|] eqn:En.
  2:{ split_and!; [split_and!; [|apply Ok|done|done]|done|done].
      eapply same_states_ok; [|apply (fo_rain _ Ok)]. by destruct st as [? ? [] ?]. }
  set (st1 := (st<| f_rain -> clock ::= Datatypes.S |>)<| f_rain -> sys ::= raincall_inprocess_backend_new |>).
  assert (rain_ok (f_rain st1)) as Ok1.
  { eapply same_states_ok; [|apply (fo_rain _ Ok)]. subst st1. by destruct st as [? ? [] ?]. }
  destruct (raincall_open_backend malloc_ok (Some InProcess) (f_rain st1)) as [R w] eqn:Eo.
  pose proof (rain_step_ok malloc_ok _ _ (step_open malloc_ok R _ _ Eo) Ok1) as Ok2.
  assert (sys w = sys (f_rain st1) /\ forall R', R = Some R' -> is_Some (states w !! R')) as [Es1 Hl].
  { unfold raincall_open_backend, malloc, new_state in Eo. destruct (f_rain st1) as [d i sts nx ck sy]. simpl in Eo.
    destruct (malloc_ok ck); simpl in Eo; injection Eo as <- <-; (split; [done|]); [|done].
    intros R' [= <-]. simpl. rewrite lookup_insert_eq. eauto. }
  assert (ip_caller (sys w) = None /\ ip_srv (sys w) = ip_srv (sys (f_rain st))) as [Ec Ei] by (by rewrite Es1).
  destruct R as [R|].
  - pose proof (install_stack L (Some R) w) as Is.
    destruct (raincall_install_state L (Some R) w) as [L' w'] eqn:Ew. cbn [fst] in Is.
    match goal with |- context [raincall_install_state L (Some R) ?x] => change x with w end.
    rewrite Ew. split_and!; [split_and!|done|]; cbn.
    + exact (rain_step_ok malloc_ok _ _ (step_install malloc_ok L (Some R) L' w w' Hl Ew) Ok2).
    + unfold raincall_install_state in Ew. injection Ew as _ <-. by destruct w.
    + unfold raincall_install_state in Ew. injection Ew as _ <-. by destruct w.
    + done.
    + intros L0 [= <-]. rewrite Is. by apply (newstate_empty _ _ En).
  - split_and!; [split_and!|done|done]; done.
Qed.

Lemma wf_pushed s s' c :
  pending_push_messages s' = pending_push_messages s -> wf {| srv := s; cl := c |} -> wf {| srv := s'; cl := c |}.
Proof. intros E [? ? ? ? ?]. constructor; simpl in *; by rewrite ?E. Qed.

(** The reply [wt] written from the world of [st1]. *)
Lemma put_ok st st1 w' wt :
  fall_ok st -> rain_ok (f_rain st1) -> f_client st1 = f_client st -> ip_caller (sys (f_rain st1)) = None ->
  (forall L, rainfall_state st1 = Some L -> lstack (view L) = []) -> sent cfg (f_world st1) w' (print wt) ->
  let st' := put_world st1 w' in
  fall_ok st' /\ stream (f_client st') = stream (f_client st) ++ print wt.
Proof.
  intros Ok R C N E [S1 S2 S3 S4] st'.
  assert (f_world st' = w') as Ew by (by destruct w').
  split; [|change (f_client st') with (cl w'); rewrite <- C; apply S4].
  constructor; [|done|done|by rewrite Ew|exact S2|].
  - apply (same_states_ok (f_rain st1)); [|done]. by destruct st1 as [? ? [] ?].
  - change (f_client st') with (cl w'). rewrite S3. change (cl (f_world st1)) with (f_client st1). rewrite C. apply Ok.
Qed.

(** ... and the end of the command. *)
Lemma finish_ok st st1 L v w' wt :
  fall_ok st -> rain_ok (f_rain st1) -> f_client st1 = f_client st -> lstack (view L) = [v] ->
  sent cfg (f_world st1) w' (print wt) ->
  let st' := finish 0 L (put_world st1 w') in
  fall_ok st' /\ stream (f_client st') = stream (f_client st) ++ print wt.
Proof.
  intros Ok R C E S' st'. assert (st' = put_world (finish 0 L st1) w') as -> by done.
  apply put_ok; try done.
  - apply (same_states_ok (f_rain st1)); [|done]. by destruct st1 as [? ? [] ?].
  - intros L' [= <-]. rewrite view_settop by lia. unfold set_top.
    destruct (view L) as [stk ? ? ?]. cbn in *. by rewrite E.
Qed.

(** The world in which a command replies. *)
Lemma world_ready st st1 :
  fall_ok st -> f_client st1 = f_client st -> pushed (sys (f_rain st1)) = pushed (sys (f_rain st)) ->
  sent cfg (f_world st1) (f_world st1) [].
Proof.
  intros Ok C P. apply sent_refl.
  - unfold f_world. rewrite C. eapply wf_pushed; [exact P|]. apply Ok.
  - cbn. rewrite C. apply Ok.
Qed.

Lemma error_wire w0 w e :
  text (cstr e) -> hd 0 (cstr e) <> 45 -> sent cfg w0 w [] ->
  sent cfg w0 (addReplyError cfg w e) (print (WError (bs "ERR " ++ cstr e))).
Proof.
  intros T N S'. pose proof (error_sent cfg Q w0 w [] e S') as E. unfold enc_error in E.
  rewrite (proj2 (Z.eqb_neq _ _) N), orb_true_r in E. exact E.
Qed.

Lemma text_literal s : forallb (fun c => negb (c =? 13) && negb (c =? 10) && negb (c =? 0)) s = true -> text s.
Proof.
  intros Hs. apply Forall_forall. intros c Hc. rewrite forallb_forall in Hs.
  specialize (Hs c (proj1 (list_elem_of_In _ _) Hc)). rewrite !andb_true_iff, !negb_true_iff, !Z.eqb_neq in Hs. tauto.
Qed.

(** Pushing the arguments. *)
Lemma push_args L args :
  lstack (view (foldl mq_pushlstring L args)) = rev (map LString args) ++ lstack (view L).
Proof.
  revert L. induction args as [|a args IH]; intros L; [done|]. cbn [foldl map rev].
  rewrite IH, view_pushlstring, lstack_push, <- app_assoc. done.
Qed.

(** What [rainFallCommand] promises of its end. *)
Definition replied st (r : option fall) : Prop :=
  exists st' wt, r = Some st' /\ fall_ok st' /\ wire_ok wt /\
    stream (f_client st') = stream (f_client st) ++ print wt.

Lemma replied_finish st st1 L v w' wt :
  fall_ok st -> rain_ok (f_rain st1) -> f_client st1 = f_client st -> lstack (view L) = [v] ->
  wire_ok wt -> sent cfg (f_world st1) w' (print wt) ->
  replied st (Some (finish 0 L (put_world st1 w'))).
Proof.
  intros Ok R C E W S'. destruct (finish_ok st st1 L v w' wt Ok R C E S') as [O T].
  by exists (finish 0 L (put_world st1 w')), wt.
Qed.

(** A literal error. *)
Lemma replied_error st st1 L v e :
  fall_ok st -> rain_ok (f_rain st1) -> f_client st1 = f_client st ->
  pushed (sys (f_rain st1)) = pushed (sys (f_rain st)) -> lstack (view L) = [v] ->
  text (cstr e) -> hd 0 (cstr e) <> 45 ->
  replied st (Some (finish 0 L (put_world st1 (addReplyError cfg (f_world st1) e)))).
Proof.
  intros Ok R C P E T N. eapply (replied_finish st st1 L v _ (WError (bs "ERR " ++ cstr e))); try done.
  - apply Forall_app. split; [by apply text_literal|done].
  - apply error_wire; [done|done|]. by apply (world_ready st).
Qed.

(** A value the script or the error path sends. *)
Lemma replied_value st st1 L v w' x :
  fall_ok st -> rain_ok (f_rain st1) -> f_client st1 = f_client st -> lstack (view L) = [v] -> value_ok x ->
  sent cfg (f_world st1) w' (print (wire_of (resp (cl (f_world st1))) x)) ->
  replied st (Some (finish 0 L (put_world st1 w'))).
Proof. intros Ok R C E W S'. eapply replied_finish; try done. by apply wire_of_ok. Qed.

(** The script of the command, if it comes to run: how it ended, and the state after
    it. *)
Definition script_end user db (argv : list (list Z)) st : option (Z * mq_State * @rain D (inprocess User Db) H) :=
  match rainFallGetState malloc_ok st with
  | (None, _) => None
  | (Some L, st) =>
      let st := set_caller (Some {| caller_user := user; caller_db := db; caller_resp := resp (f_client st) |}) st in
      let '(status, L) := mq_load L (read_all 2 {| source := nth 1 argv []; done := false |}) in
      if negb (status =? MQ_OK) then None
      else run_script cfg malloc_ok garbage (mq_pcall (foldl mq_pushlstring L (drop 2 argv)) (length argv - 2)) (f_rain st)
  end.

(** The value on the stack is a tree of at most [fuel] levels and of sizes that a reply
    can have. *)
Definition answerable (fuel : nat) (L : mq_State) : Prop :=
  exists v s x, lstack (view L) = v :: s /\ lua_value fuel (lheap (view L)) v = Some x /\ value_ok x.

Lemma command_replies fuel user db argv st :
  (forall status L w, script_end user db argv st = Some (status, L, w) ->
     pushed (sys w) = pushed (sys (f_rain st)) /\ (status = MQ_OK -> answerable fuel L)) ->
  fall_ok st -> (2 <= length argv)%nat ->
  replied st (rainFallCommand cfg malloc_ok garbage fuel user db argv st).
Proof.
  intros T Ok Ha. unfold script_end in T. unfold rainFallCommand. pose proof (get_state_prepared st Ok) as G.
  destruct (rainFallGetState malloc_ok st) as [[L|] st1]; destruct G as ((G1 & G2 & G3 & G4) & G5 & G6).
  2:{ assert (sent cfg (f_world st1) (f_world st1) []) as Sr
        by (apply (world_ready st); [done|done|unfold pushed; by rewrite <- G3]).
      pose proof (error_wire _ _ (bs "RAIN.FALL: failed to create Moonquakes state")
                    ltac:(by apply text_literal) ltac:(done) Sr) as W.
      destruct (put_ok st st1 _ _ Ok G1 G4 G2 ltac:(by rewrite G5) W) as [O1 O2].
      eexists _, _. split; [reflexivity|]. split; [exact O1|]. split; [|exact O2]. by apply text_literal. }
  specialize (G6 L eq_refl). rewrite G6. cbn [length].
  set (st2 := set_caller _ st1).
  assert (rain_ok (f_rain st2) /\ f_client st2 = f_client st /\ pushed (sys (f_rain st2)) = pushed (sys (f_rain st)))
    as (O2 & C2 & P2).
  { split_and!; [|done|unfold pushed; by rewrite <- G3].
    eapply same_states_ok; [|exact G1]. subst st2. by destruct st1 as [? ? [] ?]. }
  pose proof (load_pushes L (read_all 2 {| source := nth 1 argv []; done := false |})) as [v Hv].
  destruct (mq_load L _) as [status L1]. cbn [snd] in Hv. rewrite G6 in Hv.
  destruct (negb (status =? MQ_OK)).
  { eapply replied_error; try done. by apply text_literal. }
  set (L2 := foldl mq_pushlstring L1 (drop 2 argv)).
  assert (lstack (view L2) = rev (map LString (drop 2 argv)) ++ [v]) as E2
    by (subst L2; by rewrite push_args, Hv).
  assert (length (rev (map LString (drop 2 argv))) = (length argv - 2)%nat) as El
    by (rewrite length_rev, length_map, length_drop; done).
  pose proof (pcall_replaces L2 (length argv - 2) ltac:(rewrite E2, length_app, El; simpl; lia)) as En.
  destruct (run_script_ends cfg malloc_ok garbage _ _ (f_rain st2) En O2) as (status1 & L3 & w3 & Er & (v3 & E3) & O3).
  destruct (T status1 L3 w3 Er) as [P3 Ht].
  rewrite E2, drop_app_ge, El in E3 by (rewrite El; lia). rewrite Nat.sub_succ_l, Nat.sub_diag in E3 by lia. cbn in E3.
  rewrite Er. cbn [mbind option_bind].
  set (st3 := st2<| f_rain := w3 |>).
  pose proof (world_ready st st3 Ok C2 P3) as Sr.
  assert (resp (cl (f_world st3)) = 2 \/ resp (cl (f_world st3)) = 3) as Rr
    by (change (cl (f_world st3)) with (f_client st2); rewrite C2; apply Ok).
  destruct (Z.eqb_spec status1 MQ_OK) as [->|N]; cbn [negb].
  - destruct (Ht eq_refl) as (v4 & s4 & x & E4 & Hx & Vx). rewrite E3 in E4. injection E4 as <- <-.
    destruct (reply_from_lua_answers cfg Q fuel v3 [] L3 (f_world st3) (f_world st3) [] x Hx Vx E3) as (w' & L' & E5 & V5 & S5);
      [done|done|].
    rewrite E5. cbn [mbind option_bind]. eapply (replied_value st st3 L' v3 w' x); try done. by rewrite V5.
  - destruct (mq_tolstring L3 (-1)) as [err|].
    + eapply (replied_value st st3 L3 v3 _ (VError (bs "RAIN.FALL: " ++ cstr err))); try done.
      * apply Forall_app. split; [repeat constructor; discriminate|apply cstr_no_nul].
      * refine (send_sent cfg Q (f_world st3) (VError _) Rr _ (f_world st3) [] Sr).
        apply Forall_app. split; [repeat constructor; discriminate|apply cstr_no_nul].
    + eapply replied_error; try done. by apply text_literal.
Qed.
End Command.

(** ** Replies of commands as results of scripts *)

Section Echo.
Context {D : Doubles} {M : Moonquakes} {ML : MoonquakesLaws M}.

(** The reply a script gives by returning the value of the reply [r]: maps,
    whose Lua form has no sequence part in the pairs, lose their content. *)
Fixpoint echo (r : raincall_Reply) : value :=
  match r with
  | mkRainReply ty _ integer number element =>
      match ty with
      | RAINCALL_REPLY_STATUS | RAINCALL_REPLY_STRING | RAINCALL_REPLY_VERB | RAINCALL_REPLY_BIGNUM =>
          VBulk (raw_object (r_text r))
      | RAINCALL_REPLY_INTEGER => VInt integer
      | RAINCALL_REPLY_DOUBLE => VDouble number
      | RAINCALL_REPLY_BOOL => VBool (negb (integer =? 0))
      | RAINCALL_REPLY_NIL | RAINCALL_REPLY_ERROR => VNull
      | RAINCALL_REPLY_ARRAY | RAINCALL_REPLY_SET | RAINCALL_REPLY_ATTR | RAINCALL_REPLY_PUSH =>
          VArray (map echo element)
      | RAINCALL_REPLY_MAP => VArray (map (fun _ => VArray []) (pairs element))
      end
  end.

Definition is_nil (r : raincall_Reply) : bool :=
  match r_type r with RAINCALL_REPLY_NIL => true | _ => false end.

(** No array has a nil element, which could end its sequence early. *)
Fixpoint no_holes (r : raincall_Reply) : Prop :=
  match r with
  | mkRainReply ty _ _ _ element =>
      match ty with
      | RAINCALL_REPLY_ARRAY | RAINCALL_REPLY_SET | RAINCALL_REPLY_ATTR | RAINCALL_REPLY_PUSH =>
          foldr (fun e P => is_nil e = false /\ no_holes e /\ P) True element
      | _ => True
      end
  end.

(** The length that Lua may find of a sequence with nil elements: in front of one of
    them or the whole, and not behind one. *)
Definition cut_at (element : list raincall_Reply) (n : nat) : Prop :=
  (n = length element \/ exists e, element !! n = Some e /\ is_nil e = true) /\
  (n = 0%nat \/ exists e, element !! pred n = Some e /\ is_nil e = false).

Fixpoint prefix2 {A B} (R : A -> B -> Prop) (l : list A) (k : list B) : Prop :=
  match l, k with
  | _, [] => True
  | x :: l, y :: k => R x y /\ prefix2 R l k
  | [], _ => False
  end.

(** The replies that a script may give by returning the value of the reply [r]: as
    [echo] says, with every array cut at one of its borders. *)
Fixpoint echoes (r : raincall_Reply) (x : value) : Prop :=
  match r with
  | mkRainReply ty _ _ _ element =>
      match ty with
      | RAINCALL_REPLY_ARRAY | RAINCALL_REPLY_SET | RAINCALL_REPLY_ATTR | RAINCALL_REPLY_PUSH =>
          exists xs, x = VArray xs /\ cut_at element (length xs) /\ prefix2 echoes element xs
      | _ => x = echo r
      end
  end.

Fixpoint height (r : raincall_Reply) : nat :=
  match r with mkRainReply _ _ _ _ element => S (foldr Nat.max 1%nat (map height element)) end.

Lemma no_holes_list es :
  foldr (fun e P => is_nil e = false /\ no_holes e /\ P) True es <->
  Forall (fun e => is_nil e = false /\ no_holes e) es.
Proof. induction es as [|e es IH]; simpl; [by split|]. rewrite Forall_cons. tauto. Qed.

Lemma represents_nil h lo r v : represents h lo r v -> (is_nil r = true <-> v = LNil).
Proof.
  destruct r as [ty s n d es]. unfold is_nil. simpl.
  destruct ty; intros Hr; try (subst v; split; discriminate || done); try done;
    destruct Hr as (t & ? & -> & _); split; discriminate.
Qed.

(** What a key of a table holds after a value was stored. *)
Definition present (v : lval) : option lval := match v with LNil => None | v => Some v end.

Lemma table_set_lookup tbl i v j : table_set tbl (inl i) v !! (inl j : lkey) = if j =? i then present v else tbl !! (inl j : lkey).
Proof.
  unfold table_set, ltable, lkey in *. destruct (Z.eqb_spec j i) as [->|Hne]; destruct v; cbn [present];
    rewrite ?lookup_delete_eq, ?lookup_insert_eq, ?lookup_delete_ne, ?lookup_insert_ne by (intros [= ?]; lia); done.
Qed.

Lemma seq_from_lookup vs i tbl j :
  seq_from i vs tbl !! (inl j : lkey) =
    if (i <=? j) && (j <? i + zlen vs) then vs !! Z.to_nat (j - i) ≫= present else tbl !! (inl j : lkey).
Proof.
  revert i tbl. induction vs as [|v vs IH]; intros i tbl; cbn [seq_from].
  - unfold zlen. cbn. destruct (_ && _) eqn:E; [|done]. apply andb_true_iff in E as [?%Z.leb_le ?%Z.ltb_lt]. lia.
  - rewrite IH, table_set_lookup, zlen_cons. pose proof (zlen_nonneg vs).
    destruct (Z.leb_spec (i + 1) j), (Z.ltb_spec j (i + 1 + zlen vs)), (Z.leb_spec i j),
      (Z.ltb_spec j (i + (1 + zlen vs))), (Z.eqb_spec j i); cbn [andb]; try lia; try done.
    + replace (Z.to_nat (j - i)) with (S (Z.to_nat (j - (i + 1)))) by lia. done.
    + subst. by rewrite Z.sub_diag.
Qed.

(** The length of a sequence table. *)
Lemma seq_table_border vs : exists n, mq_border (seq_table vs) = Z.of_nat n /\ (n <= length vs)%nat /\
  (n = length vs \/ vs !! n = Some LNil) /\ (n = 0%nat \/ exists v, vs !! pred n = Some v /\ v <> LNil).
Proof.
  destruct (mq_border_law (seq_table vs)) as (B0 & B1 & B2). unfold seq_table in *.
  set (b := mq_border (seq_from 1 vs ∅)) in *. pose proof (zlen_nonneg vs) as L0. exists (Z.to_nat b). unfold ltable, lkey in *.
  rewrite (seq_from_lookup vs 1 ∅ (b + 1)) in B2. rewrite (seq_from_lookup vs 1 ∅ b) in B1.
  assert (b <= zlen vs /\ (b = 0 \/ exists v, vs !! Z.to_nat (b - 1) = Some v /\ v <> LNil)) as [Hle Hb].
  { destruct B1 as [->|B1]; [split; [lia|by left]|].
    destruct (Z.leb_spec 1 b), (Z.ltb_spec b (1 + zlen vs)); cbn [andb] in B1;
      try (exfalso; apply B1; apply (lookup_empty (M := gmap lkey))). split; [lia|]. right.
    destruct (vs !! Z.to_nat (b - 1)) as [v|]; [|done]. exists v. split; [done|]. by intros ->. }
  split_and!; [lia|unfold zlen in *; lia| |].
  - destruct (decide (b = zlen vs)) as [->|Hne]; [left; unfold zlen; lia|]. right.
    destruct (Z.leb_spec 1 (b + 1)), (Z.ltb_spec (b + 1) (1 + zlen vs)); cbn [andb] in B2; try lia.
    replace (b + 1 - 1) with b in B2 by lia. destruct (lookup_lt_is_Some_2 vs (Z.to_nat b)) as [v Hv]; [unfold zlen in *; lia|].
    rewrite Hv in *. by destruct v.
  - destruct Hb as [->|(v & Hv & Hn)]; [by left|]. right. exists v. split; [|done]. rewrite <- Hv. f_equal. lia.
Qed.

Lemma pair_table_border k v : mq_border (pair_table k v) = 0.
Proof.
  destruct (mq_border_law (pair_table k v)) as (B0 & [B1|B1] & _); [done|]. exfalso. apply B1.
  unfold pair_table, table_set. unfold ltable, lkey in *.
  destruct k, v; rewrite ?lookup_delete_ne, ?lookup_insert_ne by discriminate;
    rewrite ?lookup_delete_ne, ?lookup_insert_ne by discriminate; apply lookup_empty.
Qed.

Lemma mapM_seqZ {B} (f : Z -> option B) (ys : list B) k :
  (forall i x, ys !! i = Some x -> f (k + Z.of_nat i) = Some x) -> mapM f (seqZ k (zlen ys)) = Some ys.
Proof.
  revert k. induction ys as [|y ys IH]; intros k Hf; [done|].
  pose proof (zlen_nonneg ys). rewrite zlen_cons, seqZ_cons by lia. cbn [mapM].
  pose proof (Hf 0%nat y eq_refl) as E. rewrite Z.add_0_r in E. rewrite E. cbn [mbind option_bind].
  replace (Z.pred (1 + zlen ys)) with (zlen ys) by lia.
  rewrite IH; [done|]. intros i x Hi. rewrite <- (Hf (S i) x Hi). f_equal. lia.
Qed.

(** The value of a sequence table, from those of its elements in front of its length. *)
Lemma sequence_value fuel h t vs xs n :
  h !! t = Some (seq_table vs) -> mq_border (seq_table vs) = Z.of_nat n -> (n <= length vs)%nat ->
  Forall2 (fun v x => lua_value fuel h v = Some x) vs xs ->
  lua_value (S fuel) h (LTable t) = Some (VArray (take n xs)).
Proof.
  intros Ht Hb Hn H2. cbn [lua_value]. rewrite Ht. cbn [mbind option_bind]. rewrite Hb.
  pose proof (Forall2_length _ _ _ H2) as Hl.
  assert (Z.of_nat n = zlen (take n xs)) as -> by (unfold zlen; rewrite length_take; lia).
  rewrite (mapM_seqZ _ (take n xs)); [done|]. intros i x Hx. apply lookup_take_Some in Hx as [Hx Hi].
  destruct (Forall2_lookup_r _ _ _ _ _ H2 Hx) as (v & Hv & E). rewrite <- E. f_equal.
  unfold table_get, seq_table, ltable, lkey in *. rewrite seq_from_lookup.
  pose proof (lookup_lt_Some _ _ _ Hv).
  rewrite (proj2 (Z.leb_le _ _)), (proj2 (Z.ltb_lt _ _)) by (unfold zlen; lia). cbn [andb].
  replace (Z.to_nat (1 + Z.of_nat i - 1)) with i by lia. rewrite Hv. by destruct v.
Qed.

Lemma prefix2_take {A B} (R : A -> B -> Prop) l k n : Forall2 R l k -> prefix2 R l (take n k).
Proof. intros F. revert n. induction F as [|x y l k Hxy _ IH]; intros [|n]; simpl; auto. Qed.

Lemma all2_Forall2 {A B} (R : A -> B -> Prop) l k : all2 R l k <-> Forall2 R l k.
Proof.
  revert k. induction l as [|x l IH]; intros [|y k]; simpl.
  - by split; [constructor|].
  - split; [done|intros F; inversion F].
  - split; [done|intros F; inversion F].
  - rewrite Forall2_cons, IH. done.
Qed.

Lemma height_elements es fuel :
  (S (foldr Nat.max 1 (map height es)) <= S fuel)%nat -> (1 <= fuel)%nat /\ Forall (fun e => (height e <= fuel)%nat) es.
Proof.
  intros Hf. apply le_S_n in Hf. induction es as [|e es IH]; simpl in Hf; [split; [lia|constructor]|].
  destruct IH; [lia|]. split; [lia|]. constructor; [lia|done].
Qed.

Lemma pair_tables_value fuel h lo (R : raincall_Reply -> lval -> Prop) es ps :
  all_pairs R h lo es ps -> (1 <= fuel)%nat ->
  Forall2 (fun v x => lua_value fuel h v = Some x) (map LTable ps) (map (fun _ => VArray []) (pairs es)).
Proof.
  intros Ha Hf. revert ps Ha. induction es as [|e|k x es IH] using list_pairs_ind; intros [|p ps]; simpl; try done.
  intros [(kv & xv & _ & Hp & _) Ha]. constructor; [|by apply IH].
  destruct fuel as [|fuel]; [lia|]. cbn [lua_value]. rewrite Hp. cbn [mbind option_bind].
  by rewrite pair_table_border.
Qed.

(** The elements of an array, each with a value. *)
Lemma elements_values fuel h lo es vs :
  Forall (fun e => forall v, represents h lo e v -> exists x, lua_value fuel h v = Some x /\ echoes e x) es ->
  Forall2 (represents h lo) es vs ->
  exists xs, Forall2 (fun v x => lua_value fuel h v = Some x) vs xs /\ Forall2 echoes es xs.
Proof.
  intros IH Ha. induction Ha as [|e v es vs He _ IHa]; [by exists []|]. apply Forall_cons in IH as [Ie IH].
  destruct (Ie v He) as (x & ? & ?), (IHa IH) as (xs & ? & ?). exists (x :: xs). by split; constructor.
Qed.

Lemma array_value fuel h lo t vs es :
  Forall (fun e => forall v, represents h lo e v -> exists x, lua_value fuel h v = Some x /\ echoes e x) es ->
  h !! t = Some (seq_table vs) -> Forall2 (represents h lo) es vs ->
  exists xs, lua_value (S fuel) h (LTable t) = Some (VArray xs) /\ cut_at es (length xs) /\ prefix2 echoes es xs.
Proof.
  intros IH Ht Ha. destruct (elements_values fuel h lo es vs IH Ha) as (xs & Hx & He).
  destruct (seq_table_border vs) as (n & Hb & Hn & C1 & C2). exists (take n xs). pose proof (Forall2_length _ _ _ Ha) as Hl.
  pose proof (Forall2_length _ _ _ Hx) as Hlx. split_and!; [by apply (sequence_value fuel h t vs)| |by apply prefix2_take].
  rewrite length_take_le by lia. split.
  - destruct C1 as [->|C1]; [left; lia|right]. destruct (Forall2_lookup_r _ _ _ _ _ Ha C1) as (e & ? & R). exists e. split; [done|].
    by apply (represents_nil _ _ _ _ R).
  - destruct C2 as [->|(v & C2 & Hv)]; [by left|right]. destruct (Forall2_lookup_r _ _ _ _ _ Ha C2) as (e & ? & R). exists e. split; [done|].
    destruct (is_nil e) eqn:E; [|done]. by apply (represents_nil _ _ _ _ R) in E.
Qed.

Lemma map_border ps : mq_border (seq_table (map LTable ps)) = Z.of_nat (length (map LTable ps)).
Proof.
  destruct (seq_table_border (map LTable ps)) as (n & -> & _ & [->|C] & _); [done|].
  apply list_lookup_fmap_Some_1 in C as (p & ? & _). discriminate.
Qed.

Lemma represents_value r h lo v fuel :
  represents h lo r v -> (height r <= fuel)%nat -> exists x, lua_value fuel h v = Some x /\ echoes r x.
Proof.
  revert v fuel. induction r as [ty s n d es IH] using reply_nested_ind. intros v [|fuel] Hr Hf;
    cbn [height] in Hf; [lia|]. apply height_elements in Hf as [H1 Hf].
  assert (forall t vs, h !! t = Some (seq_table vs) -> all2 (represents h lo) es vs ->
    exists x, lua_value (S fuel) h (LTable t) = Some x /\ exists xs, x = VArray xs /\ cut_at es (length xs) /\ prefix2 echoes es xs) as Harr.
  { intros t vs Ht Ha%all2_Forall2. destruct (array_value fuel h lo t vs es) as (xs & E & C & P); [|done|done|eauto 10].
    clear -IH Hf. induction IH as [|e es Ie _ IHs]; [constructor|]. apply Forall_cons in Hf as [? Hf]. constructor; [intros v Hr; by apply Ie|by apply IHs]. }
  cbn [represents echoes echo] in *.
  destruct ty; try (subst v; eexists; done); try done;
    try (destruct Hr as (t & vs & -> & _ & Ht & Ha); by apply (Harr t vs)).
  destruct Hr as (t & ps & -> & _ & Ht & Ha). eexists. split; [|done].
  rewrite (sequence_value fuel h t (map LTable ps) (map (fun _ => VArray []) (pairs es)) _ Ht (map_border ps)); [|done|by eapply pair_tables_value].
  by rewrite take_ge by (by rewrite (Forall2_length _ _ _ (pair_tables_value fuel h lo _ es ps Ha H1))).
Qed.

(** Without nil elements there is one such reply. *)
Lemma echoes_echo r x : echoes r x -> no_holes r -> x = echo r.
Proof.
  revert x. induction r as [ty s n d es IH] using reply_nested_ind. intros x He Hn. cbn [echoes no_holes echo] in *.
  assert (forall xs, cut_at es (length xs) -> prefix2 echoes es xs -> foldr (fun e P => is_nil e = false /\ no_holes e /\ P) True es -> xs = map echo es) as Harr.
  { intros xs [C _] P Hs%no_holes_list. assert (length xs = length es) as Hl.
    { destruct C as [?|(e & Hl & E)]; [done|]. pose proof (Forall_lookup_1 _ _ _ _ Hs Hl) as [? _]. congruence. }
    clear -IH P Hs Hl. revert xs P Hl. induction es as [|e es IHs]; intros [|x xs] P Hl; try done. destruct P as [P1 P2].
    apply Forall_cons in Hs as [[_ ?] Hs]. apply Forall_cons in IH as [Ie IH]. simpl. f_equal; [by apply Ie|]. apply IHs; [done|done|done|]. by injection Hl. }
  destruct ty; try done; destruct He as (xs & -> & C & P); f_equal; by apply Harr.
Qed.

(** Cutting arrays keeps the sizes in bounds. *)
Lemma echoes_ok r x : echoes r x -> value_ok (echo r) -> value_ok x.
Proof.
  revert x. induction r as [ty s n d es IH] using reply_nested_ind. intros x He Ho. cbn [echoes echo] in *.
  assert (forall xs, prefix2 echoes es xs -> value_ok (VArray (map echo es)) -> value_ok (VArray xs)) as Harr.
  { intros xs P [Hs Ho'%value_ok_list]. assert (length xs <= length es)%nat as Hl.
    { clear -P. revert xs P. induction es as [|e es IHs]; intros [|x xs] P; simpl; try done || lia. destruct P as [_ P]. specialize (IHs _ P). lia. }
    split; [unfold small, zlen in *; rewrite length_map in Hs; lia|]. apply value_ok_list. clear -IH P Ho'.
    revert xs P. induction es as [|e es IHs]; intros [|x xs] P; try done. destruct P as [P1 P2].
    apply Forall_cons in IH as [Ie IH]. apply Forall_cons in Ho' as [? Ho']. constructor; [by apply Ie|by apply IHs]. }
  destruct ty; try (by subst x); destruct He as (xs & -> & _ & P); by apply Harr.
Qed.
End Echo.

(** A table that holds itself first. *)
Lemma cyclic_none {D : Doubles} {M : Moonquakes} {ML : MoonquakesLaws M} cfg {RT : Runtime} fuel w L t s tbl :
  lstack (view L) = LTable t :: s -> lheap (view L) !! t = Some tbl -> table_get tbl (inl 1) = LTable t ->
  rainFallReplyFromLua cfg fuel w L = None.
Proof.
  revert w L s. induction fuel as [|fuel IH]; intros w L s E T C; [done|].
  cbn [rainFallReplyFromLua]. rewrite (at_top _ _ _ E). unfold rainFallReplyTable, mq_tointegerx.
  pose proof (view_len L t s tbl E T) as VL. rewrite VL.
  rewrite (at_top _ (LInteger (mq_border tbl)) (lstack (view L))) by done.
  assert (view (mq_pop (mq_len L) 1) = view L) as V1 by (by rewrite view_pop, VL, pop_push).
  destruct (mq_border_law tbl) as (B0 & _ & B2).
  assert (1 <= mq_border tbl) as B1.
  { destruct (Z.eq_dec (mq_border tbl) 0) as [E0|]; [|lia]. rewrite E0 in B2. unfold table_get in C.
    change (tbl !! (inl 1 : lkey) = None) in B2. by rewrite B2 in C. }
  zdec. destruct (Z.to_nat (mq_border tbl)) as [|n] eqn:En; [lia|]. cbn [reply_elements].
  set (L1 := mq_pop (mq_len L) 1) in *.
  pose proof (view_geti L1 1 t s tbl ltac:(by rewrite V1) ltac:(by rewrite V1)) as G.
  rewrite (IH _ (mq_geti L1 1) (lstack (view L1))); [done|by rewrite G, lstack_push, C|by rewrite G; cbn; rewrite V1|done].
Qed.

(** ** Properties *)


(** A runtime whose scripts call PING through RAIN.CALL and return 42, and a
    server whose PING answers in the buffer. *)
Definition answer_runtime {D : Doubles} : @Runtime D SmallLua.small_lua := {|
  mq_newstate _ := Some (example_lua : @mq_State D SmallLua.small_lua);
  mq_load L _ := (MQ_OK, @mq_pushcfunction D SmallLua.small_lua L (bs "chunk"));
  mq_pcall L n :=
    @CallsRain D SmallLua.small_lua ping_lua (fun _ _ =>
      Ends MQ_OK (push (LInteger 42) (pop (Datatypes.S n) L) : @mq_State D SmallLua.small_lua));
  mq_convert _ := None
|}.

Definition buffer_server {D : Doubles} : Server unit nat := {|
  bucket _ := 0%nat;
  commands := [(bs "ping", ping_command)];
  moduleCallCommandFilters _ argv := argv;
  fcallGetCommandFlags _ _ f := f;
  evalGetCommandFlags _ _ f := f;
  ACLCheckAllUserCommandPerm _ _ _ _ := true;
  call db _ w _ _ := (Datatypes.S db, w<| cl -> buf := Plain (bs "+PONG" ++ CRLF) |>)
|}.

Definition fall_start {D : Doubles} {H : @Hiredis D (inprocess unit nat)} : @fall D SmallLua.small_lua unit nat H := {|
  rainfall_state := None; rainfall_raincall_state := None;
  f_rain := rain_init (inprocess_init example_server 0%nat);
  f_client := createClient example_config 7 true
|}.

(** The script leaves 42 and no push message. *)
Definition leaves_42 {D : Doubles} {H : @Hiredis D (inprocess unit nat)} (e : Z * @mq_State D SmallLua.small_lua * @rain D (inprocess unit nat) H) : bool :=
  let '(_, L, w) := e in
  match lstack (view L), pushed (sys w) with [LInteger n], [] => n =? 42 | _, _ => false end.

Lemma leaves_42_spec {D : Doubles} {H : @Hiredis D (inprocess unit nat)} (s : Z) (L : @mq_State D SmallLua.small_lua) (w : @rain D (inprocess unit nat) H) :
  leaves_42 (s, L, w) = true -> lstack (view L) = [LInteger 42] /\ pushed (sys w) = [].
Proof.
  unfold leaves_42. destruct (lstack (view L)) as [|[] [|]]; try discriminate. destruct (pushed (sys w)); [|discriminate].
  intros ->%Z.eqb_eq. done.
Qed.

Lemma answer_script :
  let D := SmallDoubles.small_doubles in
  let H := @pong_hiredis D (inprocess unit nat) in
  option_map leaves_42
    (script_end (D := D) (M := SmallLua.small_lua) (RT := @answer_runtime D) (S := @buffer_server D) (H := H) example_config (fun _ => true) empty_reply tt 0
       [bs "RAIN.FALL"; bs "return 42"; bs "x"] (@fall_start D H)) = Some true.
Proof. vm_compute. reflexivity. Qed.



(** The map {"k": 1} next to the integer 7, as RAIN.CALL pushes it. *)
Definition map_reply {D : Doubles} : raincall_Reply :=
  let new ty n es := mkRainReply ty None n (double_of_ll 0) es in
  new RAINCALL_REPLY_ARRAY 0
    [new RAINCALL_REPLY_MAP 0 [mkRainReply RAINCALL_REPLY_STRING (Some (bs "k")) 0 (double_of_ll 0) [];
                               new RAINCALL_REPLY_INTEGER 1 []];
     new RAINCALL_REPLY_INTEGER 7 []].


(** C33: a cyclic table is never answered: when the returned table holds itself
    as its first element, the conversion recurses without end, whatever the
    depth allowed. *)
Theorem cyclic_table_never_answered {D : Doubles} {M : Moonquakes} {ML : MoonquakesLaws M} cfg {RT : Runtime}
    fuel w L t s tbl :
  lstack (view L) = LTable t :: s -> lheap (view L) !! t = Some tbl -> table_get tbl (inl 1) = LTable t ->
  rainFallReplyFromLua cfg fuel w L = None.
Proof. exact (cyclic_none cfg fuel w L t s tbl). Qed.

Lemma cyclic_table_never_answered_witness :
  let D := SmallDoubles.small_doubles in
  let M := SmallLua.small_lua in
  let L := {| lstack := [LTable 1]; lheap := {[ 1%positive := {[ (inl 1 : lkey) := LTable 1 ]} ]}; lnext := 2;
              lglobals := ∅ |} : @mq_State D M in
  rainFallReplyFromLua (RT := @answer_runtime D) example_config 1000 example_world L = None.
Proof.
  intros D M L.
  exact (@cyclic_table_never_answered D M SmallLua.small_lua_laws example_config (@answer_runtime D) 1000 example_world
           L 1%positive [] {[ (inl 1 : lkey) := LTable 1 ]} eq_refl eq_refl eq_refl).
Defined.
