(* ===== verification/Memory.v ===== *)
(** Byte memory: bounds-checked reads, writes and moves on a block, and
    little-endian integers. An access outside the block is [None]. The layout of
    the structures that use this is little-endian on every host (the code
    swaps bytes on big-endian ones). *)

From stdpp Require Import base list numbers.
From S2P Require Import Prelude.

Local Open Scope Z_scope.

Definition mem_read (m : list Z) (off n : Z) : option (list Z) :=
  if (0 <=? off) && (0 <=? n) && (off + n <=? zlen m)
  then Some (take (Z.to_nat n) (drop (Z.to_nat off) m)) else None.

Definition mem_write (m : list Z) (off : Z) (b : list Z) : option (list Z) :=
  if (0 <=? off) && (off + zlen b <=? zlen m)
  then Some (take (Z.to_nat off) m ++ b ++ drop (Z.to_nat off + length b) m) else None.

(** [memmove]: the source is read as a whole first. *)
Definition mem_move (m : list Z) (dst src n : Z) : option (list Z) :=
  b ← mem_read m src n; mem_write m dst b.

(** [zrealloc]: the common part stays, new bytes are [fresh]. *)
Definition mem_resize (fresh : nat -> Z) (m : list Z) (n : Z) : list Z :=
  take (Z.to_nat n) (m ++ map fresh (seq 0 (Z.to_nat n - length m))).

(** A byte of a block; [None] out of bounds. *)
Definition byte_at (m : list Z) (i : Z) : option Z := if i <? 0 then None else m !! Z.to_nat i.

Fixpoint le_bytes (n : nat) (v : Z) : list Z :=
  match n with O => [] | S n => v mod 256 :: le_bytes n (v / 256) end.

Fixpoint le_val (l : list Z) : Z :=
  match l with [] => 0 | b :: l => b + 256 * le_val l end.

(** ** Lemmas *)

Lemma le_bytes_length n v : length (le_bytes n v) = n.
Proof. revert v. induction n; intros; simpl; auto. Qed.

Lemma le_bytes_u8 n v : Forall is_u8 (le_bytes n v).
Proof.
  revert v. induction n as [|n IH]; intros v; simpl; constructor; auto.
  unfold is_u8. pose proof (Z.mod_pos_bound v 256). lia.
Qed.

Lemma le_val_bytes n v : le_val (le_bytes n v) = v mod 256 ^ Z.of_nat n.
Proof.
  revert v. induction n as [|n IH]; intros v; [by rewrite Z.mod_1_r|].
  cbn [le_bytes le_val]. rewrite IH, Nat2Z.inj_succ, Z.pow_succ_r by lia.
  rewrite Z.rem_mul_r by lia. lia.
Qed.

Lemma le_val_range l : Forall is_u8 l -> 0 <= le_val l < 256 ^ zlen l.
Proof.
  induction 1 as [|b l Hb _ IH]; [done|]. cbn [le_val]. pose proof (zlen_nonneg l). rewrite zlen_cons, Z.pow_add_r by lia. unfold is_u8 in Hb. lia.
Qed.

Lemma le_bytes_val l : Forall is_u8 l -> le_bytes (length l) (le_val l) = l.
Proof.
  induction 1 as [|b l Hb _ IH]; [done|]. cbn [length le_bytes le_val]. unfold is_u8 in Hb.
  rewrite (Z.mul_comm 256), Z_mod_plus_full, Z.mod_small by lia.
  rewrite Z.div_add, Z.div_small, Z.add_0_l, IH by lia. done.
Qed.

Lemma pow256 n : 256 ^ Z.of_nat n = 2 ^ (8 * Z.of_nat n).
Proof. rewrite Z.pow_mul_r by lia. done. Qed.

Lemma swrap_mod w v : 0 < w -> swrap w (v mod 2 ^ w) = swrap w v.
Proof. intros H. unfold swrap. by rewrite Zplus_mod_idemp_l. Qed.

(** A signed value survives being stored. *)
Lemma swrap_le_bytes n v :
  (0 < n)%nat -> - 2 ^ (8 * Z.of_nat n - 1) <= v < 2 ^ (8 * Z.of_nat n - 1) ->
  swrap (8 * Z.of_nat n) (le_val (le_bytes n v)) = v.
Proof.
  intros Hn Hv. rewrite le_val_bytes, pow256, swrap_mod by lia. apply swrap_small; [lia|done].
Qed.

Lemma byte_at_some m i : 0 <= i < zlen m -> exists b, byte_at m i = Some b.
Proof.
  intros Hi. unfold byte_at. zdec. destruct (lookup_lt_is_Some_2 m (Z.to_nat i)) as [b Hb]; [unfold zlen in Hi; lia|]. by exists b.
Qed.

Lemma byte_at_app_l a b i : 0 <= i < zlen a -> byte_at (a ++ b) i = byte_at a i.
Proof. intros Hi. unfold byte_at. zdec. apply lookup_app_l. unfold zlen in Hi. lia. Qed.

Lemma byte_at_app_r a b i : zlen a <= i -> byte_at (a ++ b) i = byte_at b (i - zlen a).
Proof.
  intros Hi. pose proof (zlen_nonneg a). unfold byte_at. zdec. rewrite lookup_app_r by (unfold zlen in *; lia). f_equal. unfold zlen. lia.
Qed.

Lemma byte_at_head b m : byte_at (b :: m) 0 = Some b.
Proof. done. Qed.

Lemma byte_at_mid a b m i : i = zlen a -> byte_at (a ++ b :: m) i = Some b.
Proof. intros ->. by rewrite byte_at_app_r, Z.sub_diag by lia. Qed.

Lemma byte_at_bound m i b : byte_at m i = Some b -> 0 <= i < zlen m.
Proof. unfold byte_at. destruct (Z.ltb_spec i 0); [done|]. intros Hb%lookup_lt_Some. unfold zlen. lia. Qed.

Lemma byte_at_take m n i : 0 <= i < n -> byte_at (take (Z.to_nat n) m) i = byte_at m i.
Proof. intros Hi. unfold byte_at. zdec. apply lookup_take_lt. lia. Qed.

Lemma mem_read_app a b c n off : off = zlen a -> n = zlen b -> mem_read (a ++ b ++ c) off n = Some b.
Proof.
  intros -> ->. unfold mem_read. rewrite !zlen_app. pose proof (zlen_nonneg a). pose proof (zlen_nonneg b).
  pose proof (zlen_nonneg c). zdec. unfold zlen. rewrite !Nat2Z.id, drop_app_length, take_app_length. done.
Qed.

Lemma mem_write_app a b c b' off :
  off = zlen a -> length b' = length b -> mem_write (a ++ b ++ c) off b' = Some (a ++ b' ++ c).
Proof.
  intros -> E. unfold mem_write. rewrite !zlen_app. pose proof (zlen_nonneg a). pose proof (zlen_nonneg b).
  pose proof (zlen_nonneg c). assert (zlen b' = zlen b) as -> by (unfold zlen; lia). zdec.
  unfold zlen. rewrite !Nat2Z.id, take_app_length. do 3 f_equal.
  rewrite E, <- length_app, app_assoc, drop_app_length. done.
Qed.

Lemma mem_resize_grow fresh m n :
  zlen m <= n -> exists g, mem_resize fresh m n = m ++ g /\ zlen g = n - zlen m.
Proof.
  intros H. unfold zlen in *. unfold mem_resize. exists (map fresh (seq 0 (Z.to_nat n - length m))).
  rewrite take_ge by (rewrite length_app, length_map, length_seq; lia). split; [done|].
  rewrite length_map, length_seq. lia.
Qed.

Lemma mem_resize_shrink fresh m g : mem_resize fresh (m ++ g) (zlen m) = m.
Proof.
  unfold mem_resize, zlen. rewrite Nat2Z.id, <- app_assoc, take_app_length. done.
Qed.

(** ** Cells of [w] bytes *)

Definition cells (w : nat) (vs : list Z) : list Z := concat (map (le_bytes w) vs).

Lemma cells_length w vs : length (cells w vs) = (length vs * w)%nat.
Proof. unfold cells. induction vs; simpl; [done|]. rewrite length_app, le_bytes_length. lia. Qed.

Lemma cells_zlen w vs : zlen (cells w vs) = zlen vs * Z.of_nat w.
Proof. unfold zlen. rewrite cells_length. lia. Qed.

Lemma cells_app w vs us : cells w (vs ++ us) = cells w vs ++ cells w us.
Proof. unfold cells. by rewrite map_app, concat_app. Qed.

Lemma cells_cons w v vs : cells w (v :: vs) = le_bytes w v ++ cells w vs.
Proof. done. Qed.

Lemma cells_split w vs i v :
  vs !! i = Some v ->
  cells w vs = cells w (take i vs) ++ le_bytes w v ++ cells w (drop (S i) vs) /\
  zlen (cells w (take i vs)) = Z.of_nat i * Z.of_nat w.
Proof.
  intros H. split.
  - by rewrite <- cells_cons, <- cells_app, take_drop_middle.
  - rewrite cells_zlen. unfold zlen. rewrite length_take. apply lookup_lt_Some in H. lia.
Qed.

Lemma cells_read w vs i v rest :
  vs !! i = Some v -> mem_read (cells w vs ++ rest) (Z.of_nat i * Z.of_nat w) (Z.of_nat w) = Some (le_bytes w v).
Proof.
  intros H. destruct (cells_split w vs i v H) as [-> E]. rewrite <- !app_assoc.
  apply mem_read_app; [done|]. unfold zlen. by rewrite le_bytes_length.
Qed.
