(* ===== verification/IntSet.v ===== *)
(** Integer sets (src/src/intset.c): a sorted array of integers of the smallest
    sufficient width, in a block of bytes.

    The block is byte memory, so every operation is [None] where the C code would
    touch a byte outside of it. *)

From stdpp Require Import base list numbers gmap sets sorting.
From coqutil Require Import Datatypes.RecordSetters.
From S2P Require Import Prelude Memory.
Import TriangleBracketNotations.

Local Open Scope Z_scope.

Definition INTSET_ENC_INT16 : Z := 2.
Definition INTSET_ENC_INT32 : Z := 4.
Definition INTSET_ENC_INT64 : Z := 8.
Definition sizeof_intset : Z := 8.

Record intset : Type := { encoding : Z; length_ : Z; contents : list Z }.

Definition intsetValueEncoding (v : Z) : Z :=
  if (v <? - 2 ^ 31) || (v >? 2 ^ 31 - 1) then INTSET_ENC_INT64
  else if (v <? - 2 ^ 15) || (v >? 2 ^ 15 - 1) then INTSET_ENC_INT32
  else INTSET_ENC_INT16.

(** The bytes of a cell: any other encoding is read as the smallest. *)
Definition width (enc : Z) : nat :=
  if enc =? INTSET_ENC_INT64 then 8%nat else if enc =? INTSET_ENC_INT32 then 4%nat else 2%nat.

Definition intsetGetEncoded (s : intset) (pos enc : Z) : option Z :=
  let w := Z.of_nat (width enc) in
  b ← mem_read (contents s) (pos * w) w; Some (swrap (8 * w) (le_val b)).

Definition intsetGet_ (s : intset) (pos : Z) : option Z := intsetGetEncoded s pos (encoding s).

Definition intsetSet (s : intset) (pos value : Z) : option intset :=
  let w := width (encoding s) in
  c ← mem_write (contents s) (pos * Z.of_nat w) (le_bytes w value); Some (s<| contents := c |>).

Definition intsetNew : intset := {| encoding := INTSET_ENC_INT16; length_ := 0; contents := [] |}.

Definition intsetAllocSize (s : intset) : Z := sizeof_intset + length_ s * encoding s.

Section Fresh.
(** The content of newly allocated bytes. *)
Context (fresh : nat -> Z).

Definition intsetResize (s : intset) (len : Z) : intset :=
  s<| contents ::= fun c => mem_resize fresh c (len * encoding s) |>.

(** The loop, with the last position and value it looked at. It halves an
    interval of at most [length] positions. *)
Fixpoint search_loop (fuel : nat) (s : intset) (value min max mid cur : Z) : option (Z * Z * Z) :=
  if max >=? min then
    match fuel with
    | O => None
    | S fuel =>
        let mid := i32 (Z.shiftr (u32 (u32 min + u32 max)) 1) in
        cur ← intsetGet_ s mid;
        if value >? cur then search_loop fuel s value (i32 (mid + 1)) max mid cur
        else if value <? cur then search_loop fuel s value min (i32 (mid - 1)) mid cur
        else Some (min, mid, cur)
    end
  else Some (min, mid, cur).

(** Whether the value was found, and its position or where it belongs. *)
Definition intsetSearch (s : intset) (value : Z) : option (bool * Z) :=
  let max := i32 (length_ s - 1) in
  if length_ s =? 0 then Some (false, 0)
  else
    last ← intsetGet_ s max;
    if value >? last then Some (false, length_ s)
    else
      first ← intsetGet_ s 0;
      if value <? first then Some (false, 0)
      else
        '(min, mid, cur) ← search_loop (Z.to_nat (length_ s)) s value 0 max (-1) (-1);
        if value =? cur then Some (true, u32 mid) else Some (false, u32 min).

(** [while(length--)], from the last element down. *)
Fixpoint upgrade_loop (n : nat) (s : intset) (prepend curenc : Z) : option intset :=
  match n with
  | O => Some s
  | S n =>
      v ← intsetGetEncoded s (Z.of_nat n) curenc;
      s ← intsetSet s (Z.of_nat n + prepend) v;
      upgrade_loop n s prepend curenc
  end.

Definition intsetUpgradeAndAdd (s : intset) (value : Z) : option intset :=
  let curenc := encoding s in
  let newenc := intsetValueEncoding value in
  let length := i32 (length_ s) in
  let prepend := if value <? 0 then 1 else 0 in
  let s := s<| encoding := newenc |> in
  let s := intsetResize s (u32 (length_ s + 1)) in
  s ← upgrade_loop (Z.to_nat length) s prepend curenc;
  s ← (if prepend =? 1 then intsetSet s 0 value else intsetSet s (length_ s) value);
  Some (s<| length_ ::= fun n => u32 (n + 1) |>).

(** The number of bytes after [from]: a 32-bit product. *)
Definition tail_bytes (s : intset) (from : Z) : Z :=
  u32 (u32 (length_ s - from) * Z.of_nat (width (encoding s))).

Definition intsetMoveTail (s : intset) (from to : Z) : option intset :=
  let w := Z.of_nat (width (encoding s)) in
  c ← mem_move (contents s) (to * w) (from * w) (tail_bytes s from);
  Some (s<| contents := c |>).

(** The set and [*success]. *)
Definition intsetAdd (s : intset) (value : Z) : option (intset * bool) :=
  let valenc := intsetValueEncoding value in
  if valenc >? encoding s then s ← intsetUpgradeAndAdd s value; Some (s, true)
  else
    '(found, pos) ← intsetSearch s value;
    if (found : bool) then Some (s, false)
    else
      let s := intsetResize s (u32 (length_ s + 1)) in
      s ← (if pos <? length_ s then intsetMoveTail s pos (u32 (pos + 1)) else Some s);
      s ← intsetSet s pos value;
      Some (s<| length_ ::= fun n => u32 (n + 1) |>, true).

Definition intsetRemove (s : intset) (value : Z) : option (intset * bool) :=
  let valenc := intsetValueEncoding value in
  if valenc <=? encoding s then
    '(found, pos) ← intsetSearch s value;
    if (found : bool) then
      let len := length_ s in
      s ← (if pos <? u32 (len - 1) then intsetMoveTail s (u32 (pos + 1)) pos else Some s);
      let s := intsetResize s (u32 (len - 1)) in
      Some (s<| length_ := u32 (len - 1) |>, true)
    else Some (s, false)
  else Some (s, false).

Definition intsetFind (s : intset) (value : Z) : option bool :=
  if intsetValueEncoding value <=? encoding s then fst <$> intsetSearch s value else Some false.

Definition intsetMax (s : intset) : option Z := intsetGet_ s (u32 (length_ s - 1)).
Definition intsetMin (s : intset) : option Z := intsetGet_ s 0.

(** [None] is undefined behaviour, [Some None] a position out of range. *)
Definition intsetGet (s : intset) (pos : Z) : option (option Z) :=
  if pos <? length_ s then v ← intsetGet_ s pos; Some (Some v) else Some None.

Definition intsetLen (s : intset) : Z := length_ s.
Definition intsetBlobLen (s : intset) : Z := sizeof_intset + length_ s * encoding s.

(** [intsetRandom] for the number [r] that [rand] gives; [None] also where the
    assertion fails. *)
Definition intsetRandom (s : intset) (r : Z) : option Z :=
  if length_ s =? 0 then None else intsetGet_ s (r mod length_ s).

(** ** Blobs *)

(** The structure in a block of bytes. *)
Definition intset_of_bytes (p : list Z) : option intset :=
  e ← mem_read p 0 4; n ← mem_read p 4 4;
  Some {| encoding := le_val e; length_ := le_val n; contents := drop 8 p |}.

Fixpoint check_order (s : intset) (n : nat) (i prev : Z) : option bool :=
  match n with
  | O => Some true
  | S n => cur ← intsetGet_ s i; if cur <=? prev then Some false else check_order s n (i + 1) cur
  end.

Definition intsetValidateIntegrity (p : list Z) (deep : bool) : option bool :=
  if zlen p <? sizeof_intset then Some false
  else
    s ← intset_of_bytes p;
    if negb ((encoding s =? INTSET_ENC_INT64) || (encoding s =? INTSET_ENC_INT32)
             || (encoding s =? INTSET_ENC_INT16)) then Some false
    else if negb (u64 (sizeof_intset + length_ s * encoding s) =? zlen p) then Some false
    else if length_ s =? 0 then Some false
    else if negb deep then Some true
    else prev ← intsetGet_ s 0; check_order s (Z.to_nat (length_ s) - 1) 1 prev.
End Fresh.

(** ** Sorted lists *)

Definition below (v : Z) (l : list Z) : Prop := Forall (fun x => x < v) l.
Definition above (v : Z) (l : list Z) : Prop := Forall (fun x => v < x) l.
Notation sorted := (StronglySorted Z.lt).

Lemma sorted_app l k : sorted (l ++ k) <-> sorted l /\ sorted k /\ Forall (fun x => above x k) l.
Proof.
  induction l as [|x l IH]; simpl.
  - split; [intros H; split_and!; [constructor|done|constructor]|tauto].
  - rewrite Forall_cons. split.
    + intros H. inversion H as [|? ? H1 H2]; subst. apply IH in H1 as (S1 & S2 & S3).
      apply Forall_app in H2 as [H2 H3]. split_and!; [by constructor|done|done|done].
    + intros (S1 & S2 & S3 & S4). inversion S1; subst. constructor; [by apply IH|].
      by apply Forall_app.
Qed.

Lemma sorted_lookup vs i c :
  sorted vs -> vs !! i = Some c -> below c (take i vs) /\ above c (drop (S i) vs).
Proof.
  intros S H. rewrite <- (take_drop_middle vs i c H) in S. apply sorted_app in S as (_ & S2 & S3).
  inversion S2 as [|? ? _ S4]; subst. split; [|exact S4].
  apply (Forall_impl _ _ _ S3). intros x Hx. by apply Forall_cons in Hx as [? _].
Qed.

Lemma below_mono v c l : below c l -> c <= v -> below v l.
Proof. intros H Hc. apply (Forall_impl _ _ _ H). lia. Qed.
Lemma above_mono v c l : above c l -> v <= c -> above v l.
Proof. intros H Hc. apply (Forall_impl _ _ _ H). lia. Qed.

(** The list with [v] put at its place. *)
Definition put (pos : nat) (v : Z) (vs : list Z) : list Z := take pos vs ++ v :: drop pos vs.

Lemma sorted_put vs pos v :
  sorted vs -> below v (take pos vs) -> above v (drop pos vs) -> sorted (put pos v vs).
Proof.
  intros S B A. rewrite <- (take_drop pos vs) in S. apply sorted_app in S as (S1 & S2 & S3).
  apply sorted_app. split_and!; [done|by constructor|].
  apply (Forall_mp _ _ _ _ B S3). intros x Hx Hx'. by constructor.
Qed.

Lemma sorted_delete vs pos v : sorted vs -> vs !! pos = Some v -> sorted (take pos vs ++ drop (S pos) vs).
Proof.
  intros S H. rewrite <- (take_drop_middle vs pos v H) in S. apply sorted_app in S as (S1 & S2 & S3).
  apply sorted_app. inversion S2; subst. split_and!; [done|done|].
  apply (Forall_impl _ _ _ S3). intros x Hx. by apply Forall_cons in Hx as [_ ?].
Qed.

Lemma sorted_not_in vs pos v : below v (take pos vs) -> above v (drop pos vs) -> v ∉ vs.
Proof.
  intros B A H. rewrite <- (take_drop pos vs) in H. apply elem_of_app in H as [H|H].
  - apply (proj1 (Forall_forall _ _) B) in H. lia.
  - apply (proj1 (Forall_forall _ _) A) in H. lia.
Qed.

(** ** Representation *)

Definition valid_enc (e : Z) : Prop := e = INTSET_ENC_INT16 \/ e = INTSET_ENC_INT32 \/ e = INTSET_ENC_INT64.
Definition fits (e v : Z) : Prop := - 2 ^ (8 * e - 1) <= v < 2 ^ (8 * e - 1).

Lemma width_enc e : valid_enc e -> Z.of_nat (width e) = e.
Proof. by intros [-> | [-> | ->]]. Qed.

Lemma value_encoding v : valid_enc (intsetValueEncoding v).
Proof. unfold intsetValueEncoding, valid_enc. destruct (_ || _); [auto|]. destruct (_ || _); auto. Qed.

(** The encoding a value asks for is the least it fits. *)
Lemma encoding_fits e v : valid_enc e -> is_i64 v -> intsetValueEncoding v <= e <-> fits e v.
Proof.
  intros He Hv. unfold intsetValueEncoding, fits, is_i64, INTSET_ENC_INT64, INTSET_ENC_INT32, INTSET_ENC_INT16 in *.
  rewrite !Z.gtb_ltb.
  destruct (Z.ltb_spec v (- 2 ^ 31)), (Z.ltb_spec (2 ^ 31 - 1) v), (Z.ltb_spec v (- 2 ^ 15)), (Z.ltb_spec (2 ^ 15 - 1) v);
    cbn [orb]; destruct He as [-> | [-> | ->]]; unfold INTSET_ENC_INT64, INTSET_ENC_INT32, INTSET_ENC_INT16 in *;
    cbn in *; lia.
Qed.

(** The set holds exactly the increasing list [vs]. *)
Record repr (s : intset) (vs : list Z) : Prop := {
  rp_enc : valid_enc (encoding s);
  rp_len : length_ s = zlen vs;
  rp_contents : contents s = cells (width (encoding s)) vs;
  rp_fits : Forall (fits (encoding s)) vs;
  rp_sorted : sorted vs;
  rp_small : zlen vs < 2 ^ 29
}.

Lemma get_cell s e vs i v rest :
  contents s = cells (width e) vs ++ rest -> valid_enc e -> fits e v -> vs !! i = Some v ->
  intsetGetEncoded s (Z.of_nat i) e = Some v.
Proof.
  intros C He Hv Hi. unfold intsetGetEncoded. rewrite C, (cells_read _ _ _ _ _ Hi). cbn [mbind option_bind].
  f_equal. apply swrap_le_bytes; [by destruct He as [-> | [-> | ->]]; vm_compute; lia|].
  rewrite width_enc by done. exact Hv.
Qed.

Lemma get_repr s vs i v : repr s vs -> vs !! i = Some v -> intsetGet_ s (Z.of_nat i) = Some v.
Proof.
  intros R Hi. apply (get_cell s _ vs i v []); [by rewrite app_nil_r, (rp_contents _ _ R)|apply R| |done].
  exact (proj1 (Forall_forall _ _) (rp_fits _ _ R) v (list_elem_of_lookup_2 _ _ _ Hi)).
Qed.

Lemma get_repr_Z s vs i : repr s vs -> 0 <= i < zlen vs ->
  exists v, vs !! Z.to_nat i = Some v /\ intsetGet_ s i = Some v.
Proof.
  intros R Hi. destruct (lookup_lt_is_Some_2 vs (Z.to_nat i)) as [v Hv]; [unfold zlen in Hi; lia|].
  exists v. split; [done|]. rewrite <- (get_repr s vs _ v R Hv). f_equal. lia.
Qed.

(** ** Searching *)

(** [pos] splits the list at [v]. *)
Definition splits (v : Z) (vs : list Z) (pos : Z) : Prop :=
  0 <= pos <= zlen vs /\ below v (take (Z.to_nat pos) vs) /\ above v (drop (Z.to_nat pos) vs).

Lemma search_loop_spec fuel s vs v lo hi mid cur :
  repr s vs -> 0 <= lo <= hi + 1 -> hi < zlen vs -> hi - lo < Z.of_nat fuel ->
  below v (take (Z.to_nat lo) vs) -> above v (drop (Z.to_nat (hi + 1)) vs) -> (lo <= hi \/ cur <> v) ->
  exists lo' mid' cur', search_loop fuel s v lo hi mid cur = Some (lo', mid', cur') /\
    ((cur' = v /\ 0 <= mid' < zlen vs /\ vs !! Z.to_nat mid' = Some v) \/ (cur' <> v /\ splits v vs lo')).
Proof.
  intros R. pose proof (rp_small _ _ R) as Hs.
  revert lo hi mid cur. induction fuel as [|fuel IH]; intros lo hi mid cur H1 H2 H3 B A C; cbn [search_loop].
  - zdec. exists lo, mid, cur. split; [done|]. right. split; [lia|]. unfold splits.
    replace (hi + 1) with lo in A by lia. split_and!; (done || lia).
  - rewrite Z.geb_leb. destruct (Z.leb_spec lo hi) as [Hle|Hlt].
    2:{ exists lo, mid, cur. split; [done|]. right. split; [lia|]. unfold splits.
        replace (hi + 1) with lo in A by lia. split_and!; (done || lia). }
    rewrite (u32_small lo), (u32_small hi), (u32_small (lo + hi)), Z.shiftr_div_pow2 by (unfold is_u32; lia).
    change (2 ^ 1) with 2. pose proof (Z.div_mod (lo + hi) 2) as Dm. pose proof (Z.mod_pos_bound (lo + hi) 2) as Mb.
    set (m := (lo + hi) / 2) in *. assert (lo <= m <= hi) as Hm by lia.
    rewrite (i32_small m) by (unfold is_i32; lia).
    destruct (get_repr_Z s vs m R) as (c & Hc & ->); [lia|]. cbn [mbind option_bind].
    destruct (sorted_lookup vs _ c (rp_sorted _ _ R) Hc) as [Bc Ac].
    rewrite Z.gtb_ltb. destruct (Z.ltb_spec c v) as [Hcv|Hcv]; [|destruct (Z.ltb_spec v c) as [Hvc|Hvc]].
    + rewrite (i32_small (m + 1)) by (unfold is_i32; lia).
      apply IH; try lia; [|done]. replace (Z.to_nat (m + 1)) with (S (Z.to_nat m)) by lia.
      rewrite (take_S_r _ _ _ Hc). apply Forall_app. split; [by apply (below_mono v c); [|lia]|by repeat constructor].
    + rewrite (i32_small (m - 1)) by (unfold is_i32; lia).
      apply IH; try lia; [done|]. replace (m - 1 + 1) with m by lia.
      rewrite (drop_S _ _ _ Hc). constructor; [done|]. by apply (above_mono v c); [|lia].
    + assert (c = v) as -> by lia. exists lo, m, v. split; [done|]. left. split_and!; (done || lia).
Qed.

Lemma intsetSearch_spec s vs v :
  repr s vs -> exists found pos, intsetSearch s v = Some (found, pos) /\
    if (found : bool) then 0 <= pos < zlen vs /\ vs !! Z.to_nat pos = Some v else splits v vs pos.
Proof.
  intros R. pose proof (rp_small _ _ R) as Hs. unfold intsetSearch. rewrite (rp_len _ _ R).
  pose proof (zlen_nonneg vs). destruct (Z.eqb_spec (zlen vs) 0) as [E0|E0].
  { exists false, 0. split; [done|]. destruct vs; [|discriminate E0]. split_and!; [done|done|constructor|constructor]. }
  rewrite (i32_small (zlen vs - 1)) by (unfold is_i32; lia).
  destruct (get_repr_Z s vs (zlen vs - 1) R) as (last & Hl & ->); [lia|]. cbn [mbind option_bind].
  destruct (sorted_lookup vs _ last (rp_sorted _ _ R) Hl) as [Bl _].
  rewrite Z.gtb_ltb. destruct (Z.ltb_spec last v) as [Hlv|Hlv].
  { exists false, (zlen vs). split; [done|]. unfold splits. unfold zlen in *. rewrite Nat2Z.id, drop_all, firstn_all.
    split_and!; [lia|lia| |constructor].
    rewrite <- (take_drop (length vs - 1) vs). replace (Z.to_nat (Z.of_nat (length vs) - 1)) with (length vs - 1)%nat in * by lia.
    apply Forall_app. split; [by apply (below_mono v last); [|lia]|].
    rewrite (drop_S _ _ _ Hl), drop_ge by lia. by repeat constructor. }
  destruct (get_repr_Z s vs 0 R) as (first & Hf & ->); [lia|]. cbn [mbind option_bind].
  destruct (sorted_lookup vs _ first (rp_sorted _ _ R) Hf) as [_ Af].
  destruct (Z.ltb_spec v first) as [Hvf|Hvf].
  { exists false, 0. split; [done|]. split_and!; [lia|lia|constructor|]. rewrite (drop_S _ _ _ Hf).
    constructor; [done|]. by apply (above_mono v first); [|lia]. }
  destruct (search_loop_spec (Z.to_nat (zlen vs)) s vs v 0 (zlen vs - 1) (-1) (-1) R) as (lo & mid & cur & -> & C);
    [lia|lia|lia|constructor| |lia|].
  { replace (Z.to_nat (zlen vs - 1 + 1)) with (length vs) by (unfold zlen; lia). rewrite drop_all. constructor. }
  cbn [mbind option_bind]. destruct C as [(-> & Hm & Hv)|(N & (Hb & Sp))].
  - rewrite Z.eqb_refl. exists true, (u32 mid). rewrite u32_small by (unfold is_u32; lia). done.
  - rewrite (proj2 (Z.eqb_neq v cur)) by congruence. exists false, (u32 lo).
    rewrite u32_small by (unfold is_u32; lia). done.
Qed.

(** ** Adding and removing without a change of width *)

Lemma width_pos e : (0 < width e)%nat.
Proof. unfold width. destruct (_ =? _); [lia|]. destruct (_ =? _); lia. Qed.

Lemma set_cell s a x c pos v :
  contents s = a ++ x ++ c -> length x = width (encoding s) -> zlen a = pos * Z.of_nat (width (encoding s)) ->
  intsetSet s pos v = Some (s<| contents := a ++ le_bytes (width (encoding s)) v ++ c |>).
Proof.
  intros C X A. unfold intsetSet. rewrite C, (mem_write_app a x c); [done|done|].
  by rewrite le_bytes_length.
Qed.

Lemma tail_bytes_small s from n :
  n = length_ s - from -> 0 <= n < 2 ^ 29 -> tail_bytes s from = n * Z.of_nat (width (encoding s)).
Proof.
  intros E H. unfold tail_bytes. rewrite <- E, (u32_small n) by (unfold is_u32; lia). apply u32_small.
  assert (Z.of_nat (width (encoding s)) <= 8) by (unfold width; repeat destruct (_ =? _); lia).
  unfold is_u32. nia.
Qed.

(** Moving the tail up makes room for one cell. *)
Lemma move_up s vs g pos :
  valid_enc (encoding s) -> length_ s = zlen vs -> zlen vs < 2 ^ 29 -> 0 <= pos < zlen vs ->
  contents s = cells (width (encoding s)) vs ++ g -> zlen g = encoding s ->
  exists x, length x = width (encoding s) /\
    intsetMoveTail s pos (u32 (pos + 1)) =
    Some (s<| contents := cells (width (encoding s)) (take (Z.to_nat pos) vs) ++ x ++
                          cells (width (encoding s)) (drop (Z.to_nat pos) vs) |>).
Proof.
  intros He Hl Hs Hp Hc Hg. set (w := width (encoding s)) in *.
  assert (Z.of_nat w = encoding s) as Hw by (by apply width_enc).
  set (A := cells w (take (Z.to_nat pos) vs)). set (T := cells w (drop (Z.to_nat pos) vs)).
  assert (zlen A = pos * Z.of_nat w) as HA by (subst A; rewrite cells_zlen; unfold zlen in *; rewrite length_take; f_equal; lia).
  assert (zlen T = (zlen vs - pos) * Z.of_nat w) as HT
    by (subst T; rewrite cells_zlen; unfold zlen in *; rewrite length_drop; f_equal; lia).
  assert (contents s = A ++ T ++ g) as Hc' by (subst A T; by rewrite Hc, app_assoc, <- cells_app, take_drop).
  set (X := take w (T ++ g)). set (Y := drop w (T ++ g)).
  assert (length X = w) as HX by (subst X; rewrite length_take, length_app; unfold zlen in *; lia).
  exists X. split; [done|]. unfold intsetMoveTail, mem_move. fold w.
  rewrite (tail_bytes_small s pos (zlen vs - pos)), Hc', (mem_read_app A T g) by (fold w; lia). cbn [mbind option_bind].
  rewrite u32_small by (unfold is_u32; lia). rewrite <- (take_drop w (T ++ g)). fold X Y.
  rewrite app_assoc, <- (app_nil_r Y), (mem_write_app (A ++ X) Y [] T).
  - cbn [mbind option_bind]. by rewrite app_nil_r, <- app_assoc.
  - rewrite zlen_app, HA. unfold zlen. rewrite HX. lia.
  - subst Y. rewrite length_drop, length_app. unfold zlen in *. lia.
Qed.

(** Moving the tail down overwrites one cell. *)
Lemma move_down s vs pos v :
  valid_enc (encoding s) -> length_ s = zlen vs -> zlen vs < 2 ^ 29 -> 0 <= pos < zlen vs - 1 ->
  contents s = cells (width (encoding s)) vs -> vs !! Z.to_nat pos = Some v ->
  exists x, length x = width (encoding s) /\
    intsetMoveTail s (u32 (pos + 1)) pos =
    Some (s<| contents := cells (width (encoding s)) (take (Z.to_nat pos) vs ++ drop (S (Z.to_nat pos)) vs) ++ x |>).
Proof.
  intros He Hl Hs Hp Hc Hv. set (w := width (encoding s)) in *.
  destruct (cells_split w vs _ v Hv) as [Sp HA]. rewrite Z2Nat.id in HA by lia.
  set (A := cells w (take (Z.to_nat pos) vs)) in *. set (T := cells w (drop (S (Z.to_nat pos)) vs)) in *.
  assert (zlen T = (zlen vs - pos - 1) * Z.of_nat w) as HT
    by (subst T; rewrite cells_zlen; unfold zlen in *; rewrite length_drop; f_equal; lia).
  set (B := le_bytes w v ++ T). assert (zlen B = Z.of_nat w + zlen T) as HB
    by (subst B; rewrite zlen_app; unfold zlen; by rewrite le_bytes_length).
  exists (drop (length T) B). split; [rewrite length_drop; unfold zlen in *; lia|].
  unfold intsetMoveTail, mem_move. fold w. rewrite u32_small by (unfold is_u32; lia).
  rewrite (tail_bytes_small s (pos + 1) (zlen vs - pos - 1)) by lia. fold w. rewrite Hc, Sp.
  rewrite app_assoc, <- (app_nil_r T), (mem_read_app (A ++ le_bytes w v) T []), app_nil_r.
  - cbn [mbind option_bind]. rewrite <- app_assoc. fold B. rewrite <- (take_drop (length T) B) at 1.
    rewrite (mem_write_app A (take (length T) B) (drop (length T) B) T).
    + cbn [mbind option_bind]. rewrite cells_app. fold A T. by rewrite <- app_assoc.
    + lia.
    + rewrite length_take. unfold zlen in HB. lia.
  - rewrite zlen_app, HA. unfold zlen. rewrite le_bytes_length. lia.
  - lia.
Qed.

(** ** Lists as sets *)

Lemma set_absent vs v : v ∉ vs -> list_to_set (C := gset Z) vs = list_to_set vs ∖ {[ v ]}.
Proof. set_solver. Qed.

Lemma set_delete (l k : list Z) v :
  v ∉ l -> v ∉ k -> list_to_set (C := gset Z) (l ++ k) = list_to_set (l ++ v :: k) ∖ {[ v ]}.
Proof. intros. set_solver. Qed.

Lemma set_put pos v vs : list_to_set (C := gset Z) (put pos v vs) = {[ v ]} ∪ list_to_set vs.
Proof. rewrite <- (take_drop pos vs) at 2. unfold put. set_solver. Qed.

Lemma set_present vs v : v ∈ vs -> list_to_set (C := gset Z) vs = {[ v ]} ∪ list_to_set vs.
Proof. set_solver. Qed.

Section Operations.
Context (fresh : nat -> Z).

Lemma resize_repr s vs :
  repr s vs -> zlen vs + 1 < 2 ^ 29 ->
  exists g, zlen g = encoding s /\
    intsetResize fresh s (u32 (length_ s + 1)) = s<| contents := cells (width (encoding s)) vs ++ g |>.
Proof.
  intros R Hs. pose proof (width_enc _ (rp_enc _ _ R)) as Hw. pose proof (zlen_nonneg vs).
  unfold intsetResize. rewrite (rp_len _ _ R), u32_small by (unfold is_u32; lia).
  assert (zlen (contents s) = zlen vs * encoding s) as Hc by (by rewrite (rp_contents _ _ R), cells_zlen, Hw).
  pose proof (rp_contents _ _ R) as C.
  destruct (mem_resize_grow fresh (contents s) ((zlen vs + 1) * encoding s)) as (g & E & Hg).
  { rewrite Hc. assert (0 < encoding s) by (destruct (rp_enc _ _ R) as [-> | [-> | ->]]; done). lia. }
  exists g. split; [lia|]. rewrite <- C. destruct s as [e n c]. cbn in *. by rewrite E.
Qed.

Lemma fits_mono e e' v : valid_enc e -> valid_enc e' -> e <= e' -> fits e v -> fits e' v.
Proof.
  unfold fits. intros He He' Hle Hv. assert (2 ^ (8 * e - 1) <= 2 ^ (8 * e' - 1)); [|lia].
  apply Z.pow_le_mono_r; lia.
Qed.

(** A value put at its place, in cells that are wide enough. *)
Lemma put_repr s vs e v pos :
  repr s vs -> valid_enc e -> encoding s <= e -> fits e v -> zlen vs + 1 < 2 ^ 29 ->
  below v (take pos vs) -> above v (drop pos vs) ->
  repr {| encoding := e; length_ := u32 (length_ s + 1); contents := cells (width e) (put pos v vs) |} (put pos v vs).
Proof.
  intros R He Hle Fv Hs B A. pose proof (zlen_nonneg vs). assert (zlen (put pos v vs) = zlen vs + 1) as Hl.
  { unfold put. rewrite zlen_app, zlen_cons. unfold zlen. rewrite length_take, length_drop. lia. }
  constructor; cbn [encoding length_ contents]; [done| |done| |by apply sorted_put; [apply R|..]|lia].
  - rewrite (rp_len _ _ R), Hl. apply u32_small. unfold is_u32. lia.
  - assert (Forall (fits e) vs) as F.
    { apply (Forall_impl _ _ _ (rp_fits _ _ R)). intros x. apply fits_mono; [apply R|done|done]. }
    rewrite <- (take_drop pos vs) in F. apply Forall_app in F as [F1 F2]. apply Forall_app. by split; [|constructor].
Qed.

(** A new cell in the middle or at the end. *)
Lemma add_same_width s vs v pos :
  repr s vs -> zlen vs + 1 < 2 ^ 29 -> fits (encoding s) v -> splits v vs pos ->
  exists s', (let s := intsetResize fresh s (u32 (length_ s + 1)) in
    s ← (if pos <? length_ s then intsetMoveTail s pos (u32 (pos + 1)) else Some s);
    s ← intsetSet s pos v;
    Some (s<| length_ ::= fun n => u32 (n + 1) |>, true)) = Some (s', true) /\ repr s' (put (Z.to_nat pos) v vs).
Proof.
  intros R Hs Hv (Hp & B & A). destruct (resize_repr s vs R Hs) as (g & Hg & ->). cbv zeta.
  set (w := width (encoding s)). set (s1 := s<| contents := _ |>).
  assert (length_ s1 = zlen vs) as L1 by apply R.
  assert (exists x, length x = w /\
    (if pos <? length_ s1 then intsetMoveTail s1 pos (u32 (pos + 1)) else Some s1) =
    Some (s1<| contents := cells w (take (Z.to_nat pos) vs) ++ x ++ cells w (drop (Z.to_nat pos) vs) |>)) as (x & Hx & ->).
  { rewrite L1. destruct (Z.ltb_spec pos (zlen vs)) as [Hlt|Hge].
    - apply (move_up s1 vs g pos); try done; [apply R|lia|lia].
    - assert (pos = zlen vs) as -> by lia. exists g. split.
      + pose proof (width_enc _ (rp_enc _ _ R)). unfold zlen in Hg. subst w. lia.
      + unfold zlen. rewrite Nat2Z.id, firstn_all, drop_all, app_nil_r. done. }
  cbn [mbind option_bind]. set (s2 := s1<| contents := _ |>).
  rewrite (set_cell s2 (cells w (take (Z.to_nat pos) vs)) x (cells w (drop (Z.to_nat pos) vs)) pos v); [|done|done|].
  2:{ rewrite cells_zlen. unfold zlen in *. rewrite length_take. f_equal. lia. }
  cbn [mbind option_bind]. eexists. split; [reflexivity|].
  pose proof (put_repr s vs (encoding s) v (Z.to_nat pos) R (rp_enc _ _ R) ltac:(lia) Hv Hs B A) as R'.
  unfold put in R' at 1. rewrite cells_app in R'. exact R'.
Qed.

Lemma remove_spec s vs v :
  repr s vs -> is_i64 v ->
  exists s' b vs', intsetRemove fresh s v = Some (s', b) /\ repr s' vs' /\ (b = true <-> v ∈ vs) /\
    list_to_set (C := gset Z) vs' = list_to_set vs ∖ {[ v ]}.
Proof.
  intros R Hv. unfold intsetRemove. pose proof (zlen_nonneg vs). pose proof (rp_small _ _ R) as Hs.
  pose proof (set_absent vs v) as Hout.
  destruct (Z.leb_spec (intsetValueEncoding v) (encoding s)) as [Hle|Hgt].
  2:{ assert (v ∉ vs) as Hn.
      { intros Hi. apply (proj1 (Forall_forall _ _) (rp_fits _ _ R)) in Hi. apply encoding_fits in Hi; [lia|apply R|done]. }
      exists s, false, vs. split_and!; [done|done|done|auto]. }
  destruct (intsetSearch_spec s vs v R) as (found & pos & -> & Sp). cbn [mbind option_bind].
  destruct found.
  2:{ destruct Sp as (_ & B & A). assert (v ∉ vs) as Hn by (by eapply sorted_not_in).
      exists s, false, vs. split_and!; [done|done|done|auto]. }
  destruct Sp as [Hp Hl]. rewrite (rp_len _ _ R), (u32_small (zlen vs - 1)) by (unfold is_u32; lia).
  set (w := width (encoding s)). pose proof (width_enc _ (rp_enc _ _ R)) as Hw. fold w in Hw.
  set (vs' := take (Z.to_nat pos) vs ++ drop (S (Z.to_nat pos)) vs).
  assert (zlen vs' = zlen vs - 1) as Hlen
    by (subst vs'; rewrite zlen_app; unfold zlen in *; rewrite length_take, length_drop; lia).
  assert (exists x, length x = w /\
    (if pos <? zlen vs - 1 then intsetMoveTail s (u32 (pos + 1)) pos else Some s) =
    Some (s<| contents := cells w vs' ++ x |>)) as (x & Hx & ->).
  { destruct (Z.ltb_spec pos (zlen vs - 1)) as [Hlt|Hge].
    - apply (move_down s vs pos v); try done; try apply R. lia.
    - exists (le_bytes w v). split; [apply le_bytes_length|]. subst vs'. rewrite (drop_ge vs (S _)) by (unfold zlen in *; lia).
      rewrite app_nil_r. destruct (cells_split w vs _ v Hl) as [E _]. rewrite (drop_ge vs (S _)), app_nil_r in E by (unfold zlen in *; lia).
      rewrite <- E. subst w. rewrite <- (rp_contents _ _ R). by destruct s. }
  cbn [mbind option_bind]. eexists _, true, vs'. split; [reflexivity|]. split; [|split].
  - pose proof (rp_fits _ _ R) as F. pose proof (sorted_delete vs _ v (rp_sorted _ _ R) Hl) as Sd. fold vs' in Sd.
    constructor; [apply R|symmetry; exact Hlen| | |exact Sd|lia].
    + change (mem_resize fresh (cells w vs' ++ x) ((zlen vs - 1) * encoding s) = cells w vs').
      replace ((zlen vs - 1) * encoding s) with (zlen (cells w vs')) by (rewrite cells_zlen; lia).
      apply mem_resize_shrink.
    + change (Forall (fits (encoding s)) vs'). subst vs'. apply Forall_app. split; [by apply Forall_take|by apply Forall_drop].
  - split; [|done]. intros _. by eapply list_elem_of_lookup_2.
  - destruct (sorted_lookup vs _ v (rp_sorted _ _ R) Hl) as [Bv Av].
    rewrite <- (take_drop_middle vs _ v Hl) at 1. subst vs'. apply set_delete.
    + intros Hi. apply (proj1 (Forall_forall _ _) Bv) in Hi. lia.
    + intros Hi. apply (proj1 (Forall_forall _ _) Av) in Hi. lia.
Qed.

(** ** Adding with a wider encoding *)

(** While the loop runs, the first [n] values are still in their old cells and
    the others in their new ones; [mid] is what is between. *)
Lemma upgrade_loop_spec n s e vs p mid tail :
  let w := width e in let w' := width (encoding s) in
  valid_enc e -> (w <= w')%nat -> (n <= length vs)%nat -> Forall (fits e) vs -> 0 <= p ->
  contents s = (cells w (take n vs) ++ mid) ++ cells w' (drop n vs) ++ tail ->
  zlen (cells w (take n vs) ++ mid) = (Z.of_nat n + p) * Z.of_nat w' ->
  exists head, upgrade_loop n s p e = Some (s<| contents := head ++ cells w' vs ++ tail |>) /\
    zlen head = p * Z.of_nat w'.
Proof.
  intros w w' He Hww Hn Hf Hp. revert s mid w' Hww Hn.
  induction n as [|n IH]; intros s mid w' Hww Hn Hc Hl.
  { change (cells w (take 0 vs)) with (@nil Z) in Hc, Hl. rewrite app_nil_l in Hc, Hl. rewrite drop_0 in Hc.
    exists mid. split; [|lia]. cbn [upgrade_loop]. rewrite <- Hc. by destruct s. }
  destruct (lookup_lt_is_Some_2 vs n ltac:(lia)) as [v Hv].
  assert (fits e v) as Fv by (exact (proj1 (Forall_forall _ _) Hf v (list_elem_of_lookup_2 _ _ _ Hv))).
  cbn [upgrade_loop].
  rewrite (get_cell s e (take (S n) vs) n v (mid ++ cells w' (drop (S n) vs) ++ tail));
    [|by rewrite Hc, <- !app_assoc|done|done|by rewrite lookup_take_lt by lia].
  cbn [mbind option_bind].
  set (P := cells w (take (S n) vs) ++ mid) in *. set (k := Z.to_nat ((Z.of_nat n + p) * Z.of_nat w')).
  assert (Z.of_nat k = (Z.of_nat n + p) * Z.of_nat w') as Hk0 by (subst k; rewrite Z2Nat.id; nia).
  assert (length P = (k + w')%nat) as HP by (unfold zlen in Hl; lia).
  assert (n * w <= k)%nat as Hk by nia.
  rewrite (set_cell s (take k P) (drop k P) (cells w' (drop (S n) vs) ++ tail) (Z.of_nat n + p) v);
    [|by rewrite Hc, (app_assoc (take k P)), take_drop|rewrite length_drop; fold w'; lia|unfold zlen; rewrite length_take; fold w'; lia].
  cbn [mbind option_bind]. set (s' := s<| contents := _ |>).
  assert (cells w (take n vs) ++ drop (n * w) (take k P) = take k P) as HPk.
  { rewrite <- (take_drop (n * w) (take k P)) at 2. f_equal. rewrite take_take, Nat.min_l by done.
    subst P. rewrite (take_S_r _ _ _ Hv), cells_app, <- app_assoc.
    rewrite take_app_le by (rewrite cells_length, length_take; lia).
    rewrite (take_ge (cells w (take n vs))); [done|]. rewrite cells_length, length_take. lia. }
  destruct (IH s' (drop (n * w) (take k P))) as (head & E & Hh); [done|lia| |..].
  - rewrite HPk. change (encoding s') with (encoding s). fold w'. rewrite (drop_S _ _ _ Hv), cells_cons, <- app_assoc.
    reflexivity.
  - rewrite HPk. change (encoding s') with (encoding s). fold w'. unfold zlen. rewrite length_take. lia.
  - exists head. split; [|exact Hh]. rewrite E. by destruct s.
Qed.

(** A value that does not fit lies outside of all the values that do. *)
Lemma outside e vs v :
  valid_enc e -> is_i64 v -> e < intsetValueEncoding v -> Forall (fits e) vs ->
  if v <? 0 then above v vs else below v vs.
Proof.
  intros He Hv Hlt Hf.
  assert (~ fits e v) as N by (intros F; apply encoding_fits in F; [lia|done|done]).
  unfold fits in *. destruct (Z.ltb_spec v 0); apply (Forall_impl _ _ _ Hf); lia.
Qed.

Lemma upgrade_spec s vs v :
  repr s vs -> is_i64 v -> zlen vs + 1 < 2 ^ 29 -> encoding s < intsetValueEncoding v ->
  exists s' pos, intsetUpgradeAndAdd fresh s v = Some s' /\ repr s' (put pos v vs) /\
    below v (take pos vs) /\ above v (drop pos vs).
Proof.
  intros R Hv Hs Hlt. pose proof (zlen_nonneg vs) as H0. pose proof (rp_enc _ _ R) as He.
  pose proof (value_encoding v) as He'. pose proof (width_enc _ He) as Hw. pose proof (width_enc _ He') as Hw'.
  unfold intsetUpgradeAndAdd, intsetResize. rewrite (rp_len _ _ R), (i32_small (zlen vs)) by (unfold is_i32; lia).
  set (e' := intsetValueEncoding v) in *. set (w := width (encoding s)) in *. set (w' := width e') in *.
  set (p := if v <? 0 then 1 else 0). assert (0 <= p <= 1) as Hp by (subst p; destruct (v <? 0); lia).
  set (s1 := s<| encoding := e' |><| contents ::= _ |>).
  assert (exists g, contents s1 = cells w vs ++ g /\ zlen g = (zlen vs + 1) * e' - zlen vs * encoding s) as (g & Hc & Hg).
  { change (contents s1) with (mem_resize fresh (contents s) (u32 (length_ s + 1) * e')).
    rewrite (rp_len _ _ R), u32_small, (rp_contents _ _ R) by (unfold is_u32; lia). fold w.
    destruct (mem_resize_grow fresh (cells w vs) ((zlen vs + 1) * e')) as (g & E & Hg); rewrite cells_zlen, Hw in *; [nia|].
    exists g. split; [done|lia]. }
  set (m := Z.to_nat (zlen vs * e' + p * e' - zlen vs * encoding s)).
  assert (Z.of_nat m = zlen vs * e' + p * e' - zlen vs * encoding s) as Hm by (subst m; rewrite Z2Nat.id; nia).
  destruct (upgrade_loop_spec (length vs) s1 (encoding s) vs p (take m g) (drop m g)) as (head & Eu & Hh);
    [done|change (encoding s1) with e'; fold w w'; lia|lia|apply R|lia| | |].
  { rewrite firstn_all, drop_all. cbn [cells map concat]. rewrite app_nil_l, <- app_assoc, take_drop. exact Hc. }
  { rewrite firstn_all, zlen_app, cells_zlen. change (encoding s1) with e'. fold w w'. rewrite Hw, Hw'.
    unfold zlen at 2. rewrite length_take. unfold zlen in *. nia. }
  change (encoding s1) with e' in Eu, Hh. fold w' in Eu, Hh. unfold zlen. rewrite Nat2Z.id, Eu. cbn [mbind option_bind].
  set (s2 := s1<| contents := _ |>).
  assert (zlen (drop m g) = (1 - p) * Z.of_nat w') as Ht by (unfold zlen in *; rewrite length_drop; nia).
  pose proof (outside (encoding s) vs v He Hv Hlt (rp_fits _ _ R)) as Out.
  pose proof (fun pos => put_repr s vs e' v pos R He' ltac:(lia) ltac:(by apply encoding_fits) Hs) as Rp.
  subst p. destruct (v <? 0); cbn [Z.eqb Pos.eqb].
  - rewrite (set_cell s2 [] head (cells w' vs ++ drop m g) 0 v); [|done|unfold zlen in Hh; fold w'; change (encoding s2) with e'; fold w'; lia|done].
    cbn [mbind option_bind]. eexists _, 0%nat. split; [reflexivity|]. split_and!; [|constructor|by rewrite drop_0].
    pose proof (Rp 0%nat ltac:(constructor) ltac:(by rewrite drop_0)) as R'.
    replace (drop m g) with (@nil Z) by (symmetry; apply nil_length_inv; unfold zlen in Ht; lia).
    rewrite app_nil_r. exact R'.
  - rewrite (set_cell s2 (cells w' vs) (drop m g) [] (length_ s2) v).
    + cbn [mbind option_bind]. eexists _, (length vs). split; [reflexivity|].
      pose proof (Rp (length vs) ltac:(by rewrite firstn_all) ltac:(rewrite drop_all; constructor)) as R'.
      split_and!; [|by rewrite firstn_all|rewrite drop_all; constructor].
      change (encoding s2) with e'. fold w'. unfold put in R' |- *. rewrite firstn_all, drop_all, cells_app in *. exact R'.
    + change (contents s2) with (head ++ cells w' vs ++ drop m g). rewrite app_nil_r.
      replace head with (@nil Z) by (symmetry; apply nil_length_inv; unfold zlen in Hh; lia). done.
    + change (encoding s2) with e'. fold w'. unfold zlen in Ht. lia.
    + change (encoding s2) with e'. fold w'. change (length_ s2) with (length_ s). by rewrite cells_zlen, (rp_len _ _ R).
Qed.

Lemma add_spec s vs v :
  repr s vs -> is_i64 v -> zlen vs + 1 < 2 ^ 29 ->
  exists s' b vs', intsetAdd fresh s v = Some (s', b) /\ repr s' vs' /\ (b = true <-> v ∉ vs) /\
    list_to_set (C := gset Z) vs' = {[ v ]} ∪ list_to_set vs /\ zlen vs' <= zlen vs + 1.
Proof.
  intros R Hv Hs. unfold intsetAdd. rewrite Z.gtb_ltb.
  assert (forall pos, zlen (put pos v vs) = zlen vs + 1) as Hl.
  { intros pos. unfold put. rewrite zlen_app, zlen_cons. unfold zlen. rewrite length_take, length_drop. lia. }
  destruct (Z.ltb_spec (encoding s) (intsetValueEncoding v)) as [Hlt|Hle].
  { destruct (upgrade_spec s vs v R Hv Hs Hlt) as (s' & pos & -> & R' & B & A). cbn [mbind option_bind].
    exists s', true, (put pos v vs). split_and!; [done|done|split; [|done]; intros _; by eapply sorted_not_in|apply set_put|].
    rewrite Hl. lia. }
  destruct (intsetSearch_spec s vs v R) as (found & pos & -> & Sp). cbn [mbind option_bind].
  destruct found.
  { destruct Sp as [_ Hi]. pose proof (list_elem_of_lookup_2 _ _ _ Hi) as Hin.
    exists s, false, vs. split_and!; [done|done|split; [done|tauto]|by apply set_present|lia]. }
  destruct (add_same_width s vs v pos R Hs) as (s' & E & R'); [by apply encoding_fits; [apply R|done|]|done|].
  cbv zeta in E. rewrite E. exists s', true, (put (Z.to_nat pos) v vs).
  destruct Sp as (_ & B & A).
  split_and!; [done|done|split; [|done]; intros _; by eapply sorted_not_in|apply set_put|rewrite Hl; lia].
Qed.

Lemma find_spec s vs v : repr s vs -> is_i64 v -> intsetFind s v = Some (bool_decide (v ∈ vs)).
Proof.
  intros R Hv. unfold intsetFind. destruct (Z.leb_spec (intsetValueEncoding v) (encoding s)) as [Hle|Hgt].
  - destruct (intsetSearch_spec s vs v R) as (found & pos & -> & Sp). cbn. f_equal. symmetry. destruct found.
    + apply bool_decide_eq_true_2. destruct Sp as [_ Hi]. by eapply list_elem_of_lookup_2.
    + apply bool_decide_eq_false_2. destruct Sp as (_ & B & A). by eapply sorted_not_in.
  - f_equal. symmetry. apply bool_decide_eq_false_2. intros Hi.
    apply (proj1 (Forall_forall _ _) (rp_fits _ _ R)) in Hi. apply encoding_fits in Hi; [lia|apply R|done].
Qed.

(** ** Sequences of operations *)

Inductive op : Type := OpAdd (v : Z) | OpRemove (v : Z) | OpFind (v : Z).

Definition op_value (o : op) : Z := match o with OpAdd v | OpRemove v | OpFind v => v end.

Definition run_op (s : intset) (o : op) : option (intset * bool) :=
  match o with
  | OpAdd v => intsetAdd fresh s v
  | OpRemove v => intsetRemove fresh s v
  | OpFind v => b ← intsetFind s v; Some (s, b)
  end.

Fixpoint run_ops (s : intset) (ops : list op) : option (intset * list bool) :=
  match ops with
  | [] => Some (s, [])
  | o :: ops => '(s, b) ← run_op s o; '(s, bs) ← run_ops s ops; Some (s, b :: bs)
  end.
End Operations.

(** The same on a mathematical set. *)
Definition set_op (X : gset Z) (o : op) : gset Z * bool :=
  match o with
  | OpAdd v => ({[ v ]} ∪ X, bool_decide (v ∉ X))
  | OpRemove v => (X ∖ {[ v ]}, bool_decide (v ∈ X))
  | OpFind v => (X, bool_decide (v ∈ X))
  end.

Fixpoint set_ops (X : gset Z) (ops : list op) : gset Z * list bool :=
  match ops with
  | [] => (X, [])
  | o :: ops => let '(X, b) := set_op X o in let '(X, bs) := set_ops X ops in (X, b :: bs)
  end.

Lemma bool_decide_iff (P Q : Prop) `{Decision P} b : (b = true <-> Q) -> (P <-> Q) -> b = bool_decide P.
Proof. intros Hb HPQ. destruct (bool_decide_reflect P), b; tauto || (exfalso; intuition discriminate) || intuition. Qed.

Lemma elem_set (vs : list Z) v : v ∈ (list_to_set vs : gset Z) <-> v ∈ vs.
Proof. apply elem_of_list_to_set. Qed.

Lemma sorted_NoDup l : sorted l -> NoDup l.
Proof.
  induction 1 as [|x l Hs IH Hx]; constructor; [|done]. intros Hi. apply (proj1 (Forall_forall _ _) Hx) in Hi. lia.
Qed.

Lemma run_op_spec fresh s vs o :
  repr s vs -> is_i64 (op_value o) -> zlen vs + 1 < 2 ^ 29 ->
  exists s' vs', run_op fresh s o = Some (s', snd (set_op (list_to_set vs) o)) /\ repr s' vs' /\
    list_to_set vs' = fst (set_op (list_to_set vs) o) /\ zlen vs' <= zlen vs + 1.
Proof.
  intros R Hv Hs. destruct o as [v|v|v]; cbn [op_value run_op set_op fst snd] in *.
  - destruct (add_spec fresh s vs v R Hv Hs) as (s' & b & vs' & -> & R' & Hb & Hx & Hl).
    exists s', vs'. split_and!; [|done|done|done]. do 2 f_equal.
    apply (bool_decide_iff _ (v ∉ vs)); [done|]. by rewrite elem_set.
  - destruct (remove_spec fresh s vs v R Hv) as (s' & b & vs' & -> & R' & Hb & Hx).
    exists s', vs'. split_and!; [|done|done|].
    + do 2 f_equal. apply (bool_decide_iff _ (v ∈ vs)); [done|]. apply elem_set.
    + assert (list_to_set (C := gset Z) vs' ⊆ list_to_set vs) as Hsub by (rewrite Hx; set_solver).
      apply subseteq_size in Hsub.
      rewrite !size_list_to_set in Hsub by (eapply sorted_NoDup, rp_sorted; done). unfold zlen. lia.
  - rewrite (find_spec s vs v R Hv). cbn [mbind option_bind]. exists s, vs. split_and!; [|done|done|lia].
    do 2 f_equal. apply (bool_decide_iff _ (v ∈ vs)); [apply bool_decide_eq_true|apply elem_set].
Qed.

(** Before every operation the set has room for one more member below [2 ^ 29]. *)
Fixpoint stays_small (X : gset Z) (ops : list op) : Prop :=
  match ops with
  | [] => True
  | o :: ops => Z.of_nat (size X) + 1 < 2 ^ 29 /\ stays_small (fst (set_op X o)) ops
  end.

Lemma repr_size s vs : repr s vs -> Z.of_nat (size (list_to_set vs : gset Z)) = zlen vs.
Proof.
  intros R. unfold zlen. rewrite size_list_to_set; [done|]. by eapply sorted_NoDup, rp_sorted.
Qed.

Lemma run_ops_spec fresh ops s vs :
  repr s vs -> Forall (fun o => is_i64 (op_value o)) ops -> stays_small (list_to_set vs) ops ->
  exists s' vs', run_ops fresh s ops = Some (s', snd (set_ops (list_to_set vs) ops)) /\ repr s' vs' /\
    list_to_set vs' = fst (set_ops (list_to_set vs) ops).
Proof.
  intros R Ho. revert s vs R. induction Ho as [|o ops Hv _ IH]; intros s vs R Hs; [by exists s, vs|].
  destruct Hs as [Hs Hr]. rewrite (repr_size s vs R) in Hs.
  destruct (run_op_spec fresh s vs o R Hv) as (s1 & vs1 & E1 & R1 & X1 & L1); [lia|]. rewrite <- X1 in Hr.
  destruct (IH s1 vs1 R1 Hr) as (s2 & vs2 & E2 & R2 & X2).
  exists s2, vs2. cbn [run_ops set_ops]. rewrite E1. cbn [mbind option_bind]. rewrite E2. cbn [mbind option_bind].
  rewrite X1 in X2 |- *. destruct (set_op (list_to_set vs) o) as [X b]. cbn [fst snd] in *.
  destruct (set_ops X ops) as [Y bs]. done.
Qed.

Lemma new_repr : repr intsetNew [].
Proof. constructor; [by left|done|done|constructor|constructor|done]. Qed.

(** ** Blobs *)

(** The bytes of a set. *)
Definition blob (s : intset) : list Z := le_bytes 4 (encoding s) ++ le_bytes 4 (length_ s) ++ contents s.

Lemma le_bytes_congr n v u : v mod 256 ^ Z.of_nat n = u mod 256 ^ Z.of_nat n -> le_bytes n v = le_bytes n u.
Proof.
  revert v u. induction n as [|n IH]; intros v u; [done|].
  rewrite Nat2Z.inj_succ, Z.pow_succ_r, !Z.rem_mul_r by lia. intros E.
  pose proof (Z.mod_pos_bound v 256 ltac:(lia)). pose proof (Z.mod_pos_bound u 256 ltac:(lia)).
  cbn [le_bytes]. f_equal; [lia|]. apply IH. lia.
Qed.

(** Any bytes are the cells of some values. *)
Lemma cells_of_bytes w n l :
  (0 < w)%nat -> Forall is_u8 l -> length l = (n * w)%nat ->
  exists vs, l = cells w vs /\ length vs = n /\ Forall (fits (Z.of_nat w)) vs.
Proof.
  intros Hw. revert l. induction n as [|n IH]; intros l Hb Hl.
  { exists []. destruct l; [|discriminate Hl]. by split_and!; [| |constructor]. }
  pose proof Hb as Hb'. rewrite <- (take_drop w l) in Hb'. apply Forall_app in Hb' as [Hb1 Hb2].
  destruct (IH (drop w l) Hb2) as (vs & E & Hn & Hf); [rewrite length_drop; lia|].
  set (v := swrap (8 * Z.of_nat w) (le_val (take w l))).
  assert (0 < 2 ^ (8 * Z.of_nat w - 1)) as Hpos by (apply Z.pow_pos_nonneg; lia).
  assert (2 ^ (8 * Z.of_nat w) = 2 * 2 ^ (8 * Z.of_nat w - 1)) as Hpow
    by (rewrite <- Z.pow_succ_r by lia; f_equal; lia).
  exists (v :: vs). split_and!; [|simpl; lia|].
  - rewrite cells_cons, <- E. rewrite <- (take_drop w l) at 1. f_equal.
    rewrite <- (le_bytes_val (take w l)) at 1 by done. rewrite length_take, Nat.min_l by lia.
    apply le_bytes_congr. rewrite pow256. subst v. unfold swrap.
    rewrite Zminus_mod_idemp_l. f_equal. lia.
  - constructor; [|done]. subst v. unfold fits, swrap.
    pose proof (Z.mod_pos_bound (le_val (take w l) + 2 ^ (8 * Z.of_nat w - 1)) (2 ^ (8 * Z.of_nat w))). lia.
Qed.

Lemma blob_header p s :
  intset_of_bytes p = Some s -> Forall is_u8 p ->
  p = blob s /\ 0 <= length_ s < 2 ^ 32 /\ zlen p = sizeof_intset + zlen (contents s).
Proof.
  intros E Hb. do 8 (destruct p as [|? p]; [discriminate E|]). revert E.
  unfold intset_of_bytes, mem_read. rewrite !zlen_cons. pose proof (zlen_nonneg p). zdec. intros [= <-].
  repeat (apply Forall_cons in Hb as [? Hb]). unfold blob. cbn [encoding length_ contents take drop Z.to_nat].
  pose proof (le_bytes_val [z; z0; z1; z2] ltac:(repeat (apply Forall_cons_2; [done|]); constructor)) as E1.
  pose proof (le_bytes_val [z3; z4; z5; z6] ltac:(repeat (apply Forall_cons_2; [done|]); constructor)) as E2.
  split_and!; [exact (f_equal2 app (eq_sym E1) (f_equal2 app (eq_sym E2) eq_refl))| | |].
  - cbn. unfold is_u8 in *. lia.
  - cbn. unfold is_u8 in *. lia.
  - rewrite drop_0. unfold sizeof_intset. lia.
Qed.

(** The order check reads the values one after the other. *)
Lemma check_order_spec s vs n i prev :
  (forall j v, vs !! j = Some v -> intsetGet_ s (Z.of_nat j) = Some v) ->
  (i + n = length vs)%nat ->
  exists b, check_order s n (Z.of_nat i) prev = Some b /\ (b = true <-> Sorted Z.lt (prev :: drop i vs)).
Proof.
  intros G. revert i prev. induction n as [|n IH]; intros i prev Hl; cbn [check_order].
  - exists true. split; [done|]. rewrite drop_ge by lia. split; [intros _; repeat constructor|done].
  - destruct (lookup_lt_is_Some_2 vs i ltac:(lia)) as [v Hv]. rewrite (G i v Hv). cbn [mbind option_bind].
    rewrite (drop_S _ _ _ Hv). destruct (Z.leb_spec v prev) as [Hle|Hlt].
    + exists false. split; [done|]. split; [done|]. intros H. inversion H as [|? ? _ H1]; subst. inversion H1; lia.
    + destruct (IH (S i) v ltac:(lia)) as (b & E & Hb). exists b. rewrite <- E, Hb. split; [f_equal; lia|].
      split; [intros H; constructor; [done|by constructor]|intros H; by inversion H].
Qed.

Lemma sorted_iff (vs : list Z) : Sorted Z.lt vs <-> sorted vs.
Proof.
  split; [|apply StronglySorted_Sorted]. apply Sorted_StronglySorted. intros x y z. lia.
Qed.

(** What a block that passes the checks before the order check holds. *)
Lemma validate_cells s n :
  valid_enc (encoding s) -> Forall is_u8 (contents s) -> 0 <= n -> length_ s = n ->
  zlen (contents s) = n * encoding s ->
  exists vs, contents s = cells (width (encoding s)) vs /\ zlen vs = n /\ Forall (fits (encoding s)) vs.
Proof.
  intros He Hb Hn Hl Hc. pose proof (width_enc _ He) as Hw.
  destruct (cells_of_bytes (width (encoding s)) (Z.to_nat n) (contents s) (width_pos _) Hb) as (vs & E & Hv & Hf).
  { unfold zlen in Hc. nia. }
  exists vs. rewrite Hw in Hf. split_and!; [done|unfold zlen; lia|done].
Qed.

Lemma valid_enc_dec e :
  (e =? INTSET_ENC_INT64) || (e =? INTSET_ENC_INT32) || (e =? INTSET_ENC_INT16) = true <-> valid_enc e.
Proof. unfold valid_enc. rewrite !orb_true_iff, !Z.eqb_eq. tauto. Qed.

Lemma get_cells s vs j v :
  valid_enc (encoding s) -> contents s = cells (width (encoding s)) vs -> Forall (fits (encoding s)) vs ->
  vs !! j = Some v -> intsetGet_ s (Z.of_nat j) = Some v.
Proof.
  intros He C F Hj. apply (get_cell s (encoding s) vs j v []); [by rewrite app_nil_r|done| |done].
  exact (proj1 (Forall_forall _ _) F v (list_elem_of_lookup_2 _ _ _ Hj)).
Qed.

(** The deep check, on a block whose header was accepted. *)
Lemma validate_order s vs v0 :
  valid_enc (encoding s) -> contents s = cells (width (encoding s)) vs -> Forall (fits (encoding s)) vs ->
  length_ s = zlen vs -> vs !! 0%nat = Some v0 ->
  exists b, (prev ← intsetGet_ s 0; check_order s (Z.to_nat (length_ s) - 1) 1 prev) = Some b /\
    (b = true <-> sorted vs).
Proof.
  intros He C F Hl H0. pose proof (fun j v => get_cells s vs j v He C F) as G.
  pose proof (G 0%nat v0 H0) as G0. change (Z.of_nat 0) with 0 in G0. rewrite G0. cbn [mbind option_bind]. rewrite Hl.
  destruct (check_order_spec s vs (Z.to_nat (zlen vs) - 1) 1 v0 G) as (b & E & Hb).
  { apply lookup_lt_Some in H0. unfold zlen. lia. }
  exists b. split; [exact E|]. rewrite Hb, <- sorted_iff. destruct vs as [|v vs]; [done|]. injection H0 as ->.
  cbn [drop]. rewrite drop_0. done.
Qed.

Lemma validate_sound p :
  Forall is_u8 p -> zlen p < 2 ^ 29 -> intsetValidateIntegrity p true = Some true ->
  exists s vs, p = blob s /\ repr s vs /\ vs <> [].
Proof.
  intros Hb Hs. unfold intsetValidateIntegrity. destruct (_ <? _); [discriminate|].
  destruct (intset_of_bytes p) as [s|] eqn:E; [|discriminate]. cbn [mbind option_bind].
  destruct (blob_header p s E Hb) as (Hp & Hlen & Hz).
  destruct (_ || _ || _) eqn:He; [|discriminate]. apply valid_enc_dec in He. cbn [negb].
  assert (Forall is_u8 (contents s)) as Hbc
    by (rewrite Hp in Hb; unfold blob in Hb; apply Forall_app in Hb as [_ Hb]; by apply Forall_app in Hb as [_ Hb]).
  assert (0 < encoding s <= 8) by (destruct He as [-> | [-> | ->]]; unfold INTSET_ENC_INT16, INTSET_ENC_INT32, INTSET_ENC_INT64; lia).
  unfold sizeof_intset in *. rewrite u64_small by (unfold is_u64; nia).
  destruct (Z.eqb_spec (8 + length_ s * encoding s) (zlen p)) as [Hn|]; [|discriminate]. cbn [negb].
  destruct (Z.eqb_spec (length_ s) 0) as [|Hne]; [discriminate|].
  destruct (validate_cells s (length_ s) He Hbc ltac:(lia) eq_refl ltac:(lia)) as (vs & C & Hv & F).
  destruct vs as [|v vs]; [rewrite zlen_nil in Hv; lia|].
  destruct (validate_order s (v :: vs) v He C F (eq_sym Hv) eq_refl) as (b & -> & Hbs). intros [= ->].
  exists s, (v :: vs). split_and!; [done| |done]. constructor; [done|done|done|done|by apply Hbs|nia].
Qed.

Lemma validate_complete s vs : repr s vs -> vs <> [] -> intsetValidateIntegrity (blob s) true = Some true.
Proof.
  intros R Hne. pose proof (rp_enc _ _ R) as He. pose proof (rp_small _ _ R) as Hs. pose proof (zlen_nonneg vs).
  assert (0 < encoding s <= 8) by (destruct He as [-> | [-> | ->]]; unfold INTSET_ENC_INT16, INTSET_ENC_INT32, INTSET_ENC_INT64; lia).
  assert (zlen (contents s) = zlen vs * encoding s) as Hc by (by rewrite (rp_contents _ _ R), cells_zlen, width_enc).
  assert (zlen (blob s) = 8 + zlen vs * encoding s) as Hb
    by (unfold blob; rewrite !zlen_app; unfold zlen at 1 2; rewrite !le_bytes_length; lia).
  unfold intsetValidateIntegrity. rewrite Hb. unfold sizeof_intset. zdec.
  assert (intset_of_bytes (blob s) = Some s) as ->.
  { unfold intset_of_bytes, blob. rewrite <- (app_nil_l (le_bytes 4 (encoding s) ++ _)) at 1.
    rewrite (mem_read_app [] (le_bytes 4 (encoding s))) by (unfold zlen; rewrite ?le_bytes_length; done).
    cbn [mbind option_bind]. rewrite (mem_read_app (le_bytes 4 (encoding s)) (le_bytes 4 (length_ s)))
      by (unfold zlen; rewrite ?le_bytes_length; done).
    cbn [mbind option_bind]. rewrite !le_val_bytes, !Z.mod_small; [|rewrite (rp_len _ _ R); cbn; lia|cbn; lia].
    rewrite app_assoc, drop_app_ge by (rewrite length_app, !le_bytes_length; lia).
    rewrite length_app, !le_bytes_length. cbn. by destruct s. }
  cbn [mbind option_bind]. rewrite (proj2 (valid_enc_dec _) He). cbn [negb].
  rewrite (rp_len _ _ R), u64_small by (unfold is_u64; nia). rewrite Z.eqb_refl. cbn [negb].
  destruct vs as [|v vs]; [done|]. rewrite (proj2 (Z.eqb_neq _ _)) by (rewrite zlen_cons; pose proof (zlen_nonneg vs); lia).
  rewrite <- (rp_len _ _ R).
  destruct (validate_order s (v :: vs) v He (rp_contents _ _ R) (rp_fits _ _ R) (rp_len _ _ R) eq_refl) as (b & -> & Hbs).
  f_equal. apply Hbs, R.
Qed.

(** ** Properties *)

(** C25: an integer set is a set as long as it has fewer than 2^29 members: after any
    sequence of additions, removals and look-ups of 64-bit integers on a new set that
    keeps it below that, with whatever memory the allocator hands out, no byte outside
    the block was touched, every result is the one of the mathematical set, and the
    block holds exactly its members in increasing order, in cells wide enough for all
    of them. *)
Theorem intset_implements_set fresh ops :
  Forall (fun o => is_i64 (op_value o)) ops -> stays_small ∅ ops ->
  exists s vs, run_ops fresh intsetNew ops = Some (s, snd (set_ops ∅ ops)) /\ repr s vs /\
    list_to_set vs = fst (set_ops ∅ ops).
Proof. intros Ho Hs. exact (run_ops_spec fresh ops intsetNew [] new_repr Ho Hs). Qed.

Lemma intset_implements_set_witness :
  exists s vs, run_ops (fun n => Z.of_nat n mod 256) intsetNew
      [OpAdd 5; OpAdd (-3); OpAdd 70000; OpAdd 5; OpFind 70000; OpAdd (- 2 ^ 40); OpRemove 5; OpFind 5]
    = Some (s, [true; true; true; false; true; true; true; false]) /\ repr s vs /\
      list_to_set (C := gset Z) vs = {[ - 2 ^ 40; -3; 70000 ]}.
Proof.
  destruct (intset_implements_set (fun n => Z.of_nat n mod 256)
              [OpAdd 5; OpAdd (-3); OpAdd 70000; OpAdd 5; OpFind 70000; OpAdd (- 2 ^ 40); OpRemove 5; OpFind 5])
    as (s & vs & E & R & X).
  - repeat constructor; simpl; lia.
  - vm_compute. repeat split.
  - exists s, vs. split; [exact E|]. split; [exact R|]. rewrite X. reflexivity.
Defined.

(** The integrity check accepts exactly the blobs of non-empty sets: a byte
    string (of less than 2^29 bytes) passes the deep check if and only if it is
    the header and the sorted, duplicate-free cells of such a set. *)
Theorem intset_check_exact p :
  Forall is_u8 p -> zlen p < 2 ^ 29 ->
  intsetValidateIntegrity p true = Some true <-> exists s vs, p = blob s /\ repr s vs /\ vs <> [].
Proof.
  intros Hb Hs. split; [by apply validate_sound|]. intros (s & vs & -> & R & N). by eapply validate_complete.
Qed.

Lemma intset_check_exact_witness :
  intsetValidateIntegrity [2; 0; 0; 0; 2; 0; 0; 0; 253; 255; 5; 0] true = Some true /\
  exists s vs, [2; 0; 0; 0; 2; 0; 0; 0; 253; 255; 5; 0] = blob s /\ repr s vs /\ vs <> [].
Proof.
  split; [reflexivity|].
  apply (intset_check_exact [2; 0; 0; 0; 2; 0; 0; 0; 253; 255; 5; 0]); [|reflexivity|reflexivity].
  repeat (apply Forall_cons; split; [unfold is_u8; lia|]). constructor.
Defined.

(** The size of a moved tail is a 32-bit product: where 2^29 cells of 64 bits
    have to move, none does, so that an insertion in front of them overwrites
    one of them. *)
Theorem tail_size_wraps s from to :
  encoding s = INTSET_ENC_INT64 -> length_ s - from = 2 ^ 29 -> 0 <= from ->
  0 <= to * 8 <= zlen (contents s) -> from * 8 <= zlen (contents s) ->
  intsetMoveTail s from to = Some s.
Proof.
  intros He Hl Hf Ht Hf'. unfold intsetMoveTail, tail_bytes. rewrite He, Hl.
  change (width INTSET_ENC_INT64) with 8%nat. change (u32 (u32 (2 ^ 29) * Z.of_nat 8)) with 0.
  change (Z.of_nat 8) with 8. unfold mem_move, mem_read. zdec. cbn [mbind option_bind].
  change (Z.to_nat 0) with 0%nat. rewrite take_0. unfold mem_write. change (zlen (@nil Z)) with 0. zdec. cbn [mbind option_bind].
  cbn [length app]. rewrite Nat.add_0_r, take_drop. by destruct s.
Qed.

Lemma tail_size_wraps_witness :
  let s := {| encoding := INTSET_ENC_INT64; length_ := 2 ^ 29;
              contents := replicate (Z.to_nat (8 * (2 ^ 29 + 1))) 0 |} in
  intsetMoveTail s 0 1 = Some s.
Proof.
  intros s.
  assert (zlen (contents s) = 8 * (2 ^ 29 + 1)) as Hc
    by (unfold zlen; cbn [contents s]; rewrite length_replicate, Z2Nat.id; lia).
  apply (tail_size_wraps s 0 1); [reflexivity|reflexivity|lia|rewrite Hc; lia|rewrite Hc; lia].
Defined.
