(* ===== verification/FwTree.v ===== *)
(** Fenwick trees (src/src/fwtree.c): prefix sums over an array of counters,
    with point updates and a search by cumulative count.

    The nodes are a list with the unused node 0 first; an access outside of it is
    [None]. *)

From stdpp Require Import base list numbers.
From coqutil Require Import Datatypes.RecordSetters.
From S2P Require Import Prelude.
Import TriangleBracketNotations.

Local Open Scope Z_scope.

Record fenwickTree : Type := { tree : list Z; size_bits : Z; size : Z; total : Z }.

Definition fwTreeCreate (sizeBits : Z) : fenwickTree :=
  let sz := Z.shiftl 1 sizeBits in
  {| tree := replicate (Z.to_nat (sz + 1)) 0; size_bits := sizeBits; size := sz; total := 0 |}.

Definition lowbit (i : Z) : Z := Z.land i (- i).

Definition node (ft : fenwickTree) (i : Z) : option Z := if i <? 0 then None else tree ft !! Z.to_nat i.

(** The loop down to the root; every step lowers [idx]. *)
Fixpoint prefix_loop (fuel : nat) (ft : fenwickTree) (idx sum : Z) : option Z :=
  if idx >? 0 then
    match fuel with
    | O => None
    | S fuel => v ← node ft idx; prefix_loop fuel ft (idx - lowbit idx) (u64 (sum + v))
    end
  else Some sum.

Definition fwTreePrefixSum (ft : fenwickTree) (idx : Z) : option Z :=
  if idx <? 0 then Some 0
  else
    let idx := if idx >=? size ft then size ft - 1 else idx in
    prefix_loop (Z.to_nat (idx + 1)) ft (idx + 1) 0.

(** The loop up the tree; [None] also where the assertion fails. *)
Fixpoint update_loop (fuel : nat) (ft : fenwickTree) (idx delta : Z) : option fenwickTree :=
  if idx <=? size ft then
    match fuel with
    | O => None
    | S fuel =>
        v ← node ft idx;
        if (delta <? 0) && (v <? u64 (- delta)) then None
        else update_loop fuel (ft<| tree ::= <[Z.to_nat idx := u64 (v + delta)]> |>) (idx + lowbit idx) delta
    end
  else Some ft.

Definition fwTreeUpdate (ft : fenwickTree) (idx delta : Z) : option fenwickTree :=
  if (idx <? 0) || (idx >=? size ft) then Some ft
  else
    let ft := ft<| total ::= fun t => u64 (t + delta) |> in
    update_loop (Z.to_nat (size ft - idx)) ft (idx + 1) delta.

(** One step for each bit, from [size_bits] down to 0. *)
Fixpoint find_loop (n : nat) (ft : fenwickTree) (i result target : Z) : option Z :=
  match n with
  | O => Some result
  | S n =>
      let current := result + i in
      v ← node ft current;
      if target >? v then find_loop n ft (Z.shiftr i 1) current (u64 (target - v))
      else find_loop n ft (Z.shiftr i 1) result target
  end.

Definition fwTreeFindIndex (ft : fenwickTree) (target : Z) : option Z :=
  if target <=? 0 then Some 0
  else find_loop (S (Z.to_nat (size_bits ft))) ft (Z.shiftl 1 (size_bits ft)) 0 target.

Definition fwTreeFindFirstNonEmpty (ft : fenwickTree) : option Z := fwTreeFindIndex ft 1.

Definition fwTreeFindNextNonEmpty (ft : fenwickTree) (idx : Z) : option Z :=
  if (idx <? 0) || (idx >=? size ft) then Some (-1)
  else
    sum ← fwTreePrefixSum ft idx;
    let next_sum := u64 (sum + 1) in
    if next_sum <=? total ft then fwTreeFindIndex ft next_sum else Some (-1).

Definition fwTreeClear (ft : fenwickTree) : fenwickTree :=
  ft<| tree := replicate (Z.to_nat (size ft + 1)) 0 |><| total := 0 |>.

(** ** The lowest set bit *)

Lemma lowbit_double i : lowbit (2 * i) = 2 * lowbit i.
Proof.
  unfold lowbit. replace (- (2 * i)) with (2 * - i) by lia.
  rewrite !(Z.mul_comm 2), <- !Z.shiftl_mul_pow2 with (n := 1) by lia. symmetry. apply Z.shiftl_land.
Qed.

Lemma lowbit_odd m : lowbit (2 * m + 1) = 1.
Proof.
  unfold lowbit. replace (- (2 * m + 1)) with (2 * Z.lnot m + 1) by (unfold Z.lnot; lia).
  apply Z.bits_inj'. intros n Hn. rewrite Z.land_spec. destruct (Z.eq_dec n 0) as [->|N].
  - by rewrite !Z.testbit_odd_0.
  - replace n with (Z.succ (n - 1)) by lia. rewrite !Z.testbit_odd_succ by lia.
    rewrite <- Z.land_spec, Z.land_lnot_diag, Z.bits_0.
    change 1 with (2 * 0 + 1). by rewrite Z.testbit_odd_succ, Z.bits_0 by lia.
Qed.

(** A positive number is a power of two times an odd number; the power is
    [lowbit]. *)
Lemma lowbit_form i : 0 < i -> exists k m, 0 <= k /\ 0 <= m /\ i = 2 ^ k * (2 * m + 1) /\ lowbit i = 2 ^ k.
Proof.
  intros H. revert H. pattern i. apply (well_founded_ind (Z.lt_wf 0)). clear i. intros i IH Hi.
  destruct (Z.Even_or_Odd i) as [[m E]|[m E]].
  - destruct (IH m ltac:(lia) ltac:(lia)) as (k & n & Hk & Hn & Em & El). exists (k + 1), n.
    rewrite E, lowbit_double, El, Z.pow_add_r, Em by lia. split_and!; lia.
  - exists 0, m. rewrite E, lowbit_odd. split_and!; lia.
Qed.

Lemma lowbit_pow k m : 0 <= k -> lowbit (2 ^ k * (2 * m + 1)) = 2 ^ k.
Proof.
  intros Hk. revert m. pattern k. apply natlike_ind; [|clear k Hk; intros k Hk IH|done].
  - intros m. rewrite Z.pow_0_r, Z.mul_1_l. apply lowbit_odd.
  - intros m. rewrite Z.pow_succ_r by done. by rewrite <- Z.mul_assoc, lowbit_double, IH.
Qed.

Lemma lowbit_range i : 0 < i -> 0 < lowbit i <= i.
Proof.
  intros H. destruct (lowbit_form i H) as (k & m & Hk & Hm & E & ->).
  pose proof (Z.pow_pos_nonneg 2 k ltac:(lia) Hk). nia.
Qed.

(** Between [c] and [c + lowbit c], the low bits are those of the rest. *)
Lemma lowbit_add c r : 0 < c -> 0 < r < lowbit c -> lowbit (c + r) = lowbit r.
Proof.
  intros Hc [Hr0 Hr]. destruct (lowbit_form c Hc) as (k & m & Hk & Hm & Ec & Lc).
  destruct (lowbit_form r Hr0) as (j & n & Hj & Hn & Er & Lr). rewrite Lc in Hr. rewrite Lr.
  assert (j < k) as Hjk.
  { destruct (Z.lt_ge_cases j k); [done|]. assert (2 ^ k <= 2 ^ j) by (apply Z.pow_le_mono_r; lia). nia. }
  replace (c + r) with (2 ^ j * (2 * (2 ^ (k - j - 1) * (2 * m + 1) + n) + 1)); [by apply lowbit_pow|].
  rewrite Ec, Er. replace k with (j + 1 + (k - j - 1)) at 2 by lia. rewrite !Z.pow_add_r by lia. lia.
Qed.

(** The next node covers at least twice as much. *)
Lemma lowbit_next c : 0 < c -> 2 * lowbit c <= lowbit (c + lowbit c).
Proof.
  intros Hc. destruct (lowbit_form c Hc) as (k & m & Hk & Hm & Ec & Lc). rewrite Lc.
  replace (c + 2 ^ k) with (2 ^ k * (2 * (m + 1))) by (rewrite Ec; lia).
  destruct (lowbit_form (m + 1) ltac:(lia)) as (j & n & Hj & Hn & Em & _). rewrite Em.
  replace (2 ^ k * (2 * (2 ^ j * (2 * n + 1)))) with (2 ^ (k + 1 + j) * (2 * n + 1))
    by (rewrite !Z.pow_add_r by lia; lia).
  rewrite lowbit_pow by lia. rewrite !Z.pow_add_r by lia.
  pose proof (Z.pow_pos_nonneg 2 k ltac:(lia) Hk). pose proof (Z.pow_pos_nonneg 2 j ltac:(lia) Hj). nia.
Qed.

(** ** The array a tree stands for *)

Definition prefix (a : list Z) (k : Z) : Z := zsum (take (Z.to_nat k) a).

(** What node [i] holds: the sum of the [lowbit i] elements before [i]. *)
Definition span (a : list Z) (i : Z) : Z := prefix a i - prefix a (i - lowbit i).

Record fw_ok (ft : fenwickTree) (a : list Z) : Prop := {
  fw_bits : 0 <= size_bits ft < 31;
  fw_size : size ft = 2 ^ size_bits ft;
  fw_len : zlen a = size ft;
  fw_nodes : forall i, 1 <= i <= size ft -> node ft i = Some (span a i);
  fw_total : total ft = zsum a;
  fw_nonneg : Forall (fun x => 0 <= x) a;
  fw_bound : zsum a < 2 ^ 64 - 1
}.

Lemma prefix_mono a i j : Forall (fun x => 0 <= x) a -> i <= j -> prefix a i <= prefix a j.
Proof.
  intros Ha Hij. unfold prefix.
  rewrite <- (take_drop (Z.to_nat i) (take (Z.to_nat j) a)), take_take, Nat.min_l, zsum_app by lia.
  pose proof (zsum_nonneg (drop (Z.to_nat i) (take (Z.to_nat j) a)) ltac:(by apply Forall_drop, Forall_take)). lia.
Qed.

Lemma prefix_le a i : Forall (fun x => 0 <= x) a -> prefix a i <= zsum a.
Proof.
  intros Ha. unfold prefix. rewrite <- (take_drop (Z.to_nat i) a) at 2. rewrite zsum_app.
  pose proof (zsum_nonneg (drop (Z.to_nat i) a) ltac:(by apply Forall_drop)). lia.
Qed.

Lemma prefix_0 a i : i <= 0 -> prefix a i = 0.
Proof. intros H. unfold prefix. by replace (Z.to_nat i) with 0%nat by lia. Qed.

Lemma prefix_nonneg a i : Forall (fun x => 0 <= x) a -> 0 <= prefix a i.
Proof. intros Ha. by apply zsum_nonneg, Forall_take. Qed.

Lemma prefix_all a i : zlen a <= i -> prefix a i = zsum a.
Proof. intros H. unfold prefix. rewrite take_ge; [done|]. unfold zlen in H. lia. Qed.

Lemma prefix_S a i x : 0 <= i -> a !! Z.to_nat i = Some x -> prefix a (i + 1) = prefix a i + x.
Proof.
  intros H Hx. unfold prefix. replace (Z.to_nat (i + 1)) with (S (Z.to_nat i)) by lia.
  rewrite (take_S_r _ _ _ Hx), zsum_app. simpl. lia.
Qed.

Lemma prefix_loop_spec ft a fuel idx sum :
  fw_ok ft a -> 0 <= idx <= size ft -> idx <= Z.of_nat fuel -> 0 <= sum -> sum + prefix a idx < 2 ^ 64 ->
  prefix_loop fuel ft idx sum = Some (sum + prefix a idx).
Proof.
  intros Ok. revert idx sum. induction fuel as [|fuel IH]; intros idx sum Hi Hf Hs Hb; cbn [prefix_loop].
  - zdec. rewrite prefix_0 by lia. f_equal. lia.
  - rewrite Z.gtb_ltb. destruct (Z.ltb_spec 0 idx) as [Hp|]; [|rewrite prefix_0 by lia; f_equal; lia].
    rewrite (fw_nodes _ _ Ok) by lia. cbn [mbind option_bind]. unfold span.
    pose proof (lowbit_range idx Hp). pose proof (prefix_mono a (idx - lowbit idx) idx (fw_nonneg _ _ Ok) ltac:(lia)).
    pose proof (prefix_nonneg a (idx - lowbit idx) (fw_nonneg _ _ Ok)).
    rewrite u64_small by (unfold is_u64; lia). rewrite IH by lia. f_equal. lia.
Qed.

Lemma prefix_sum_spec ft a idx :
  fw_ok ft a -> fwTreePrefixSum ft idx = Some (prefix a (idx + 1)).
Proof.
  intros Ok. unfold fwTreePrefixSum. pose proof (fw_size _ _ Ok) as Hz. pose proof (fw_len _ _ Ok) as Hl.
  pose proof (Z.pow_pos_nonneg 2 (size_bits ft) ltac:(lia) ltac:(pose proof (fw_bits _ _ Ok); lia)).
  pose proof (prefix_le a (idx + 1) (fw_nonneg _ _ Ok)). pose proof (fw_bound _ _ Ok).
  destruct (Z.ltb_spec idx 0); [by rewrite prefix_0 by lia|]. rewrite Z.geb_leb.
  destruct (Z.leb_spec (size ft) idx).
  - rewrite (prefix_loop_spec ft a), (prefix_all a (size ft - 1 + 1)), (prefix_all a (idx + 1)) by (done || lia ||
      (rewrite prefix_all by lia; lia)). done.
  - rewrite (prefix_loop_spec ft a) by (done || lia). done.
Qed.

(** ** Updates *)

Definition add_at (idx delta : Z) (a : list Z) : list Z := alter (fun x => x + delta) (Z.to_nat idx) a.

Lemma zsum_alter a i x d : a !! i = Some x -> zsum (alter (fun x => x + d) i a) = zsum a + d.
Proof.
  revert i. induction a as [|y a IH]; intros [|i] H; try done.
  - injection H as ->. change (x + d + zsum a = x + zsum a + d). lia.
  - change (y + zsum (alter (fun x => x + d) i a) = y + zsum a + d). rewrite (IH i H). lia.
Qed.

Lemma prefix_add_at a idx delta i :
  0 <= idx < zlen a -> prefix (add_at idx delta a) i = prefix a i + if idx <? i then delta else 0.
Proof.
  intros H. unfold prefix, add_at. destruct (lookup_lt_is_Some_2 a (Z.to_nat idx)) as [x Hx]; [unfold zlen in H; lia|].
  rewrite take_alter. destruct (Z.ltb_spec idx i).
  - rewrite decide_True by lia. apply (zsum_alter _ _ x). by rewrite lookup_take_lt by lia.
  - rewrite decide_False by lia. lia.
Qed.

(** The nodes that cover an element. *)
Definition covers (idx i : Z) : bool := (i - lowbit i <=? idx) && (idx <? i).

Lemma span_add_at a idx delta i :
  0 <= idx < zlen a -> 0 < i -> span (add_at idx delta a) i = span a i + if covers idx i then delta else 0.
Proof.
  intros H Hi. unfold span, covers. rewrite !prefix_add_at by done. pose proof (lowbit_range i Hi).
  destruct (Z.leb_spec (i - lowbit i) idx), (Z.ltb_spec idx i), (Z.ltb_spec idx (i - lowbit i)); cbn [andb]; lia.
Qed.

(** Between a node that covers [idx] and the next one of the loop, none does. *)
Lemma covers_next idx c i :
  0 < c -> covers idx c = true -> c < i < c + lowbit c -> covers idx i = false.
Proof.
  unfold covers. intros Hc [Hl%Z.leb_le Hu%Z.ltb_lt]%andb_true_iff Hi.
  apply andb_false_iff. left. apply Z.leb_gt.
  replace i with (c + (i - c)) at 1 by lia. replace (lowbit i) with (lowbit (i - c)).
  - pose proof (lowbit_range (i - c) ltac:(lia)). lia.
  - replace i with (c + (i - c)) at 2 by lia. symmetry. apply lowbit_add; lia.
Qed.

Lemma covers_step idx c : 0 < c -> covers idx c = true -> covers idx (c + lowbit c) = true.
Proof.
  unfold covers. intros Hc [Hl%Z.leb_le Hu%Z.ltb_lt]%andb_true_iff. pose proof (lowbit_range c Hc).
  pose proof (lowbit_next c Hc). apply andb_true_iff. rewrite Z.leb_le, Z.ltb_lt. lia.
Qed.

Lemma covers_first idx : 0 <= idx -> covers idx (idx + 1) = true.
Proof.
  intros H. unfold covers. pose proof (lowbit_range (idx + 1) ltac:(lia)). apply andb_true_iff.
  rewrite Z.leb_le, Z.ltb_lt. lia.
Qed.

Lemma node_insert ft i v j :
  0 <= i -> 0 <= j -> is_Some (node ft i) ->
  node (ft<| tree ::= <[Z.to_nat i := v]> |>) j = if j =? i then Some v else node ft j.
Proof.
  unfold node. intros Hi Hj. zdec. intros [x Hx]. cbn [tree apply_update].
  destruct (Z.eqb_spec j i) as [->|N].
  - apply list_lookup_insert_eq. by apply lookup_lt_Some in Hx.
  - apply list_lookup_insert_ne. lia.
Qed.

(** A node that covers an element is at least that element. *)
Lemma span_covers a idx i x :
  Forall (fun x => 0 <= x) a -> 0 <= idx -> a !! Z.to_nat idx = Some x -> covers idx i = true -> x <= span a i.
Proof.
  intros Ha Hi Hx [Hl%Z.leb_le Hu%Z.ltb_lt]%andb_true_iff. unfold span.
  pose proof (prefix_S a idx x Hi Hx). pose proof (prefix_mono a (idx + 1) i Ha ltac:(lia)).
  pose proof (prefix_mono a (i - lowbit i) idx Ha ltac:(lia)). lia.
Qed.

Lemma span_range a i : Forall (fun x => 0 <= x) a -> 0 < i -> 0 <= span a i <= zsum a.
Proof.
  intros Ha Hi. unfold span. pose proof (lowbit_range i Hi). pose proof (prefix_mono a (i - lowbit i) i Ha ltac:(lia)).
  pose proof (prefix_le a i Ha). pose proof (prefix_nonneg a (i - lowbit i) Ha). lia.
Qed.

(** While the loop runs, the nodes before [c] are those of the new array. *)
Lemma update_loop_spec fuel ft a idx delta x c :
  Forall (fun x => 0 <= x) a -> Forall (fun x => 0 <= x) (add_at idx delta a) -> zsum a < 2 ^ 64 ->
  zsum (add_at idx delta a) < 2 ^ 64 -> is_i64 delta -> 0 <= idx < zlen a -> a !! Z.to_nat idx = Some x -> 0 <= x + delta ->
  0 < c -> covers idx c = true -> size ft - c < Z.of_nat fuel ->
  (forall i, 1 <= i <= size ft -> node ft i = Some (span a i + if (i <? c) && covers idx i then delta else 0)) ->
  exists ft', update_loop fuel ft c delta = Some ft' /\ size ft' = size ft /\ size_bits ft' = size_bits ft /\
    total ft' = total ft /\ forall i, 1 <= i <= size ft -> node ft' i = Some (span (add_at idx delta a) i).
Proof.
  intros Ha Ha' Hz Hz' Hd Hi Hx Hxd. revert ft c. induction fuel as [|fuel IH]; intros ft c Hc Hcov Hf Hn; cbn [update_loop].
  - zdec. exists ft. split_and!; try done. intros i Hi'. rewrite Hn, span_add_at by lia. zdec. done.
  - destruct (Z.leb_spec c (size ft)) as [Hle|Hgt].
    2:{ exists ft. split_and!; try done. intros i Hi'. rewrite Hn, span_add_at by lia. zdec. done. }
    rewrite Hn by lia. cbn [mbind option_bind]. zdec. rewrite Z.add_0_r.
    pose proof (span_covers a idx c x Ha ltac:(lia) Hx Hcov) as Hsc.
    assert ((delta <? 0) && (span a c <? u64 (- delta)) = false) as ->.
    { unfold is_i64 in Hd. destruct (Z.ltb_spec delta 0); [|done]. rewrite u64_small by (unfold is_u64; lia). zdec. done. }
    pose proof (span_add_at a idx delta c Hi Hc) as Hsp. rewrite Hcov in Hsp.
    pose proof (span_range _ c Ha' Hc) as Hr. rewrite u64_small by (unfold is_u64; lia).
    pose proof (lowbit_range c Hc). pose proof (covers_step idx c Hc Hcov) as Hcov'.
    set (ft1 := ft<| tree ::= _ |>).
    destruct (IH ft1 (c + lowbit c)) as (ft' & E & S1 & S2 & S3 & S4); [lia|done|change (size ft1) with (size ft); lia| |].
    + intros i Hi'. change (size ft1) with (size ft) in Hi'. subst ft1.
      rewrite node_insert; [|lia|lia|rewrite Hn by lia; eauto].
      destruct (Z.eqb_spec i c) as [->|N]; [rewrite Hcov; zdec; done|]. rewrite Hn by lia. do 2 f_equal.
      destruct (Z.ltb_spec i c), (Z.ltb_spec i (c + lowbit c)); cbn [andb]; try lia.
      by rewrite (covers_next idx c i Hc Hcov) by lia.
    + exists ft'. by split_and!.
Qed.

Lemma add_at_nonneg a idx delta x :
  Forall (fun x => 0 <= x) a -> a !! Z.to_nat idx = Some x -> 0 <= x + delta ->
  Forall (fun x => 0 <= x) (add_at idx delta a).
Proof.
  intros Ha Hx Hd. apply Forall_alter; [done|]. intros y Hy. rewrite Hx in Hy. by injection Hy as <-.
Qed.

Lemma update_spec ft a idx delta x :
  fw_ok ft a -> is_i64 delta -> 0 <= idx < size ft -> a !! Z.to_nat idx = Some x -> 0 <= x + delta ->
  zsum a + delta < 2 ^ 64 - 1 ->
  exists ft', fwTreeUpdate ft idx delta = Some ft' /\ fw_ok ft' (add_at idx delta a).
Proof.
  intros Ok Hd Hi Hx Hxd Hs. unfold fwTreeUpdate. zdec. pose proof (fw_len _ _ Ok) as Hl. pose proof (fw_bound _ _ Ok).
  pose proof (zsum_alter a _ x delta Hx) as Hz. fold (add_at idx delta a) in Hz.
  pose proof (add_at_nonneg a idx delta x (fw_nonneg _ _ Ok) Hx Hxd) as Hn.
  pose proof (zsum_nonneg _ Hn) as Hz0.
  set (ft1 := ft<| total ::= _ |>).
  destruct (update_loop_spec (Z.to_nat (size ft1 - idx)) ft1 a idx delta x (idx + 1)) as (ft' & E & S1 & S2 & S3 & S4);
    [apply Ok|done|lia|lia|done|lia|done|done|lia|by apply covers_first; lia|change (size ft1) with (size ft); lia| |].
  - intros i Hi'. change (node ft1 i) with (node ft i). rewrite (fw_nodes _ _ Ok) by done. f_equal.
    destruct (Z.ltb_spec i (idx + 1)); cbn [andb]; [|lia]. unfold covers. zdec. rewrite andb_false_r. lia.
  - exists ft'. split; [exact E|]. constructor.
    + rewrite S2. apply Ok.
    + rewrite S1, S2. apply Ok.
    + rewrite S1. unfold zlen, add_at. rewrite length_alter. exact Hl.
    + rewrite S1. exact S4.
    + rewrite S3. change (total ft1) with (u64 (total ft + delta)). rewrite (fw_total _ _ Ok), Hz. apply u64_small.
      unfold is_u64. lia.
    + done.
    + lia.
Qed.

(** ** Searches *)

Lemma find_loop_spec j ft a q t0 :
  fw_ok ft a -> 0 <= q -> 2 ^ Z.of_nat (S j) * (q + 1) <= size ft -> t0 < 2 ^ 64 ->
  prefix a (2 ^ Z.of_nat (S j) * q) < t0 <= prefix a (2 ^ Z.of_nat (S j) * (q + 1)) ->
  exists r, find_loop (S j) ft (2 ^ Z.of_nat j) (2 ^ Z.of_nat (S j) * q) (t0 - prefix a (2 ^ Z.of_nat (S j) * q)) = Some r /\
    0 <= r < size ft /\ prefix a r < t0 <= prefix a (r + 1).
Proof.
  intros Ok. revert q. induction j as [|j IH]; intros q Hq Hs Ht Hr.
  - change (2 ^ Z.of_nat 1) with 2 in *. change (2 ^ Z.of_nat 0) with 1. cbn [find_loop].
    rewrite (fw_nodes _ _ Ok) by lia. cbn [mbind option_bind]. unfold span. rewrite (lowbit_odd q).
    replace (2 * q + 1 - 1) with (2 * q) by lia. rewrite Z.gtb_ltb.
    replace (2 * (q + 1)) with (2 * q + 1 + 1) in * by lia. destruct (Z.ltb_spec (prefix a (2 * q + 1) - prefix a (2 * q))
      (t0 - prefix a (2 * q))); eexists; (split; [reflexivity|]); lia.
  - assert (2 ^ Z.of_nat (S (S j)) = 2 * 2 ^ Z.of_nat (S j)) as H2 by (rewrite (Nat2Z.inj_succ (S j)), Z.pow_succ_r; lia).
    rewrite H2 in *. clear H2.
    assert (2 ^ Z.of_nat (S j) = 2 * 2 ^ Z.of_nat j) as HP by (rewrite (Nat2Z.inj_succ j), Z.pow_succ_r; lia).
    set (P := 2 ^ Z.of_nat (S j)) in *. assert (0 < P) by (apply Z.pow_pos_nonneg; lia).
    assert (Z.shiftr P 1 = 2 ^ Z.of_nat j) as Hsh by (rewrite HP, Z.shiftr_div_pow2, Z.mul_comm, Z.div_mul by lia; done).
    remember (S j) as n eqn:En. cbn [find_loop]. subst n.
    replace (2 * P * q + P) with (P * (2 * q + 1)) by lia.
    rewrite (fw_nodes _ _ Ok) by nia. cbn [mbind option_bind]. unfold span.
    replace (lowbit (P * (2 * q + 1))) with P by (subst P; symmetry; apply lowbit_pow; lia).
    replace (P * (2 * q + 1) - P) with (2 * P * q) by lia.
    replace (2 * P * q) with (P * (2 * q)) in * by lia. replace (2 * P * (q + 1)) with (P * (2 * q + 1 + 1)) in * by lia.
    rewrite Z.gtb_ltb, Hsh.
    pose proof (prefix_nonneg a (P * (2 * q)) (fw_nonneg _ _ Ok)).
    destruct (Z.ltb_spec (prefix a (P * (2 * q + 1)) - prefix a (P * (2 * q))) (t0 - prefix a (P * (2 * q)))).
    + pose proof (prefix_nonneg a (P * (2 * q + 1)) (fw_nonneg _ _ Ok)). rewrite u64_small by (unfold is_u64; lia).
      replace (t0 - prefix a (P * (2 * q)) - (prefix a (P * (2 * q + 1)) - prefix a (P * (2 * q))))
        with (t0 - prefix a (P * (2 * q + 1))) by lia.
      apply IH; lia.
    + apply (IH (2 * q)); lia.
Qed.

Lemma find_index_spec ft a t0 :
  fw_ok ft a -> 1 <= t0 <= zsum a ->
  exists r, fwTreeFindIndex ft t0 = Some r /\ 0 <= r < size ft /\ prefix a r < t0 <= prefix a (r + 1).
Proof.
  intros Ok Ht. pose proof (fw_size _ _ Ok) as Hz. pose proof (fw_bits _ _ Ok) as Hb. pose proof (fw_len _ _ Ok) as Hl.
  pose proof (fw_bound _ _ Ok). unfold fwTreeFindIndex. zdec. rewrite Z.shiftl_mul_pow2, Z.mul_1_l by lia.
  assert (0 < 2 ^ size_bits ft) by (apply Z.pow_pos_nonneg; lia).
  cbn [find_loop]. rewrite Z.add_0_l, (fw_nodes _ _ Ok) by lia. cbn [mbind option_bind]. unfold span.
  replace (lowbit (2 ^ size_bits ft)) with (2 ^ size_bits ft)
    by (pose proof (lowbit_pow (size_bits ft) 0 ltac:(lia)) as E; rewrite Z.mul_1_r in E; done).
  rewrite Z.sub_diag, (prefix_0 a 0), (prefix_all a (2 ^ size_bits ft)) by lia. zdec.
  destruct (Z.to_nat (size_bits ft)) as [|j] eqn:Ej.
  - exists 0. split; [done|]. assert (size_bits ft = 0) as E0 by lia. rewrite Hz, E0 in *.
    rewrite prefix_0, prefix_all by lia. lia.
  - assert (2 ^ size_bits ft = 2 ^ Z.of_nat (S j)) as Ep by (f_equal; lia).
    rewrite Ep. replace (Z.shiftr (2 ^ Z.of_nat (S j)) 1) with (2 ^ Z.of_nat j)
      by (rewrite Nat2Z.inj_succ, Z.pow_succ_r, Z.shiftr_div_pow2, Z.mul_comm, Z.div_mul by lia; done).
    pose proof (find_loop_spec j ft a 0 t0 Ok) as F. rewrite Z.mul_0_r, (prefix_0 a 0), Z.sub_0_r in F by lia.
    replace (2 ^ Z.of_nat (S j) * (0 + 1)) with (size ft) in F by (rewrite Hz, Ep; lia).
    rewrite (prefix_all a (size ft)) in F by lia. apply F; lia.
Qed.

Lemma prefix_eq_zero a i j k x :
  Forall (fun x => 0 <= x) a -> 0 <= i <= k -> k < j -> prefix a i = prefix a j -> a !! Z.to_nat k = Some x -> x = 0.
Proof.
  intros Ha Hi Hj E Hx. pose proof (prefix_S a k x ltac:(lia) Hx). pose proof (prefix_mono a i k Ha ltac:(lia)).
  pose proof (prefix_mono a (k + 1) j Ha ltac:(lia)).
  assert (0 <= x) by (exact (Forall_lookup_1 _ _ _ _ Ha Hx)). lia.
Qed.

(** The least index after [idx] that is not empty. *)
Definition next_of (a : list Z) (idx r : Z) : Prop :=
  (idx < r /\ (exists x, a !! Z.to_nat r = Some x /\ 0 < x) /\
   forall k x, idx < k < r -> a !! Z.to_nat k = Some x -> x = 0) \/
  (r = -1 /\ forall k x, idx < k -> a !! Z.to_nat k = Some x -> x = 0).

Lemma next_non_empty_spec ft a idx :
  fw_ok ft a -> 0 <= idx < size ft -> exists r, fwTreeFindNextNonEmpty ft idx = Some r /\ next_of a idx r.
Proof.
  intros Ok Hi. unfold fwTreeFindNextNonEmpty. zdec. rewrite (prefix_sum_spec ft a idx Ok). cbn [mbind option_bind].
  pose proof (fw_bound _ _ Ok). pose proof (prefix_le a (idx + 1) (fw_nonneg _ _ Ok)) as Hp.
  pose proof (prefix_nonneg a (idx + 1) (fw_nonneg _ _ Ok)). pose proof (fw_len _ _ Ok) as Hl.
  rewrite u64_small by (unfold is_u64; lia). rewrite (fw_total _ _ Ok).
  destruct (Z.leb_spec (prefix a (idx + 1) + 1) (zsum a)) as [Hle|Hgt].
  - destruct (find_index_spec ft a (prefix a (idx + 1) + 1) Ok ltac:(lia)) as (r & E & Hr & Hlo & Hhi).
    exists r. split; [done|]. left.
    assert (idx < r) as Hir.
    { destruct (Z.lt_ge_cases idx r); [done|]. pose proof (prefix_mono a (r + 1) (idx + 1) (fw_nonneg _ _ Ok) ltac:(lia)). lia. }
    pose proof (prefix_mono a (idx + 1) r (fw_nonneg _ _ Ok) ltac:(lia)).
    destruct (lookup_lt_is_Some_2 a (Z.to_nat r)) as [x Hx]; [unfold zlen in Hl; lia|].
    split_and!; [done| |].
    + exists x. split; [done|]. pose proof (prefix_S a r x ltac:(lia) Hx). lia.
    + intros k y Hk Hy. apply (prefix_eq_zero a (idx + 1) r k y (fw_nonneg _ _ Ok)); (done || lia).
  - exists (-1). split; [done|]. right. split; [done|]. intros k y Hk Hy.
    pose proof (lookup_lt_Some _ _ _ Hy).
    apply (prefix_eq_zero a (idx + 1) (size ft) k y (fw_nonneg _ _ Ok)); [lia|unfold zlen in Hl; lia| |done].
    rewrite (prefix_all a (size ft)) by lia. lia.
Qed.

(** ** Sequences of updates *)

Lemma create_ok b : 0 <= b < 31 -> fw_ok (fwTreeCreate b) (replicate (Z.to_nat (2 ^ b)) 0).
Proof.
  intros Hb. assert (0 < 2 ^ b) by (apply Z.pow_pos_nonneg; lia).
  assert (forall n, zsum (replicate n 0) = 0) as Z0 by (induction n; simpl; lia).
  assert (Z.shiftl 1 b = 2 ^ b) as Hs by (rewrite Z.shiftl_mul_pow2; lia).
  constructor; cbn [fwTreeCreate size_bits size total tree]; rewrite ?Hs.
  - done.
  - done.
  - unfold zlen. rewrite length_replicate. lia.
  - intros i Hi. unfold node. cbn [tree fwTreeCreate]. rewrite Hs. zdec. rewrite lookup_replicate_2 by lia.
    unfold span, prefix. by rewrite !take_replicate, !Z0.
  - by rewrite Z0.
  - apply Forall_replicate. lia.
  - rewrite Z0. lia.
Qed.

Fixpoint run_updates (ft : fenwickTree) (us : list (Z * Z)) : option fenwickTree :=
  match us with
  | [] => Some ft
  | (idx, delta) :: us => ft ← fwTreeUpdate ft idx delta; run_updates ft us
  end.

Definition add_all (us : list (Z * Z)) (a : list Z) : list Z := foldl (fun a u => add_at (fst u) (snd u) a) a us.

(** No counter goes below zero, and the sum stays within 64 bits. *)
Fixpoint updates_ok (a : list Z) (us : list (Z * Z)) : Prop :=
  match us with
  | [] => True
  | (idx, delta) :: us =>
      0 <= idx < zlen a /\ is_i64 delta /\ 0 <= default 0 (a !! Z.to_nat idx) + delta /\
      zsum a + delta < 2 ^ 64 - 1 /\ updates_ok (add_at idx delta a) us
  end.

Lemma run_updates_spec ft a us :
  fw_ok ft a -> updates_ok a us -> exists ft', run_updates ft us = Some ft' /\ fw_ok ft' (add_all us a).
Proof.
  revert ft a. induction us as [|[idx delta] us IH]; intros ft a Ok Hu; [by exists ft|].
  destruct Hu as (Hi & Hd & Hx & Hs & Hu). cbn [run_updates].
  destruct (lookup_lt_is_Some_2 a (Z.to_nat idx)) as [x Ex]; [unfold zlen in Hi; lia|]. rewrite Ex in Hx.
  destruct (update_spec ft a idx delta x Ok Hd) as (ft1 & E & Ok1); [rewrite <- (fw_len _ _ Ok); lia|done|done|done|].
  rewrite E. cbn [mbind option_bind]. by apply IH.
Qed.

(** ** Properties *)

(** A Fenwick tree is an array of counters with prefix sums: from a new
    tree of [2^b] counters, any sequence of updates that keeps every counter
    non-negative runs without a failed assertion or an access outside the
    nodes, and afterwards every prefix sum is the sum of the counters. *)
Theorem fwtree_prefix_sums b us idx :
  0 <= b < 31 -> updates_ok (replicate (Z.to_nat (2 ^ b)) 0) us ->
  exists ft, run_updates (fwTreeCreate b) us = Some ft /\
    fwTreePrefixSum ft idx = Some (zsum (take (Z.to_nat (idx + 1)) (add_all us (replicate (Z.to_nat (2 ^ b)) 0)))).
Proof.
  intros Hb Hu. destruct (run_updates_spec _ _ us (create_ok b Hb) Hu) as (ft & E & Ok).
  exists ft. split; [done|]. exact (prefix_sum_spec ft _ idx Ok).
Qed.

Lemma fwtree_prefix_sums_witness :
  exists ft, run_updates (fwTreeCreate 2) [(0, 5); (2, 4); (0, -3)] = Some ft /\ fwTreePrefixSum ft 2 = Some 6.
Proof.
  apply (fwtree_prefix_sums 2 [(0, 5); (2, 4); (0, -3)] 2); [lia|].
  vm_compute. intuition congruence.
Defined.

(** The searches are exact: for a target from 1 to the total,
    [fwTreeFindIndex] returns the index at which the cumulative count first
    reaches it, and [fwTreeFindNextNonEmpty] the least later index with a
    positive counter, or -1 when all later counters are zero. *)
Theorem fwtree_searches_exact ft a t idx :
  fw_ok ft a -> 1 <= t <= zsum a -> 0 <= idx < size ft ->
  (exists r, fwTreeFindIndex ft t = Some r /\ 0 <= r < size ft /\ prefix a r < t <= prefix a (r + 1)) /\
  (exists r, fwTreeFindNextNonEmpty ft idx = Some r /\ next_of a idx r).
Proof.
  intros Ok Ht Hi. split; [by apply find_index_spec|by apply next_non_empty_spec].
Qed.

Lemma fwtree_searches_exact_witness :
  exists ft, run_updates (fwTreeCreate 2) [(1, 5); (3, 4)] = Some ft /\
    (exists r, fwTreeFindIndex ft 6 = Some r /\ 0 <= r < 4 /\ prefix [0; 5; 0; 4] r < 6 <= prefix [0; 5; 0; 4] (r + 1)) /\
    (exists r, fwTreeFindNextNonEmpty ft 1 = Some r /\ next_of [0; 5; 0; 4] 1 r).
Proof.
  destruct (run_updates_spec (fwTreeCreate 2) [0; 0; 0; 0] [(1, 5); (3, 4)] (create_ok 2 ltac:(lia)))
    as (ft & E & Ok); [vm_compute; intuition congruence|].
  exists ft. split; [exact E|]. change (add_all [(1, 5); (3, 4)] [0; 0; 0; 0]) with [0; 5; 0; 4] in Ok.
  assert (size ft = 4) as Hs by (rewrite <- (fw_len _ _ Ok); reflexivity).
  destruct (fwtree_searches_exact ft [0; 5; 0; 4] 6 1 Ok) as [F N]; [vm_compute; intuition congruence|rewrite Hs; lia|].
  rewrite Hs in F. split; [exact F|exact N].
Defined.

(** Searching an empty tree leaves the array: where every counter is zero,
    [fwTreeFindFirstNonEmpty] on more than one counter reads past the last
    node instead of returning 0. *)
Theorem fwtree_empty_search_overruns b :
  1 <= b < 31 -> fwTreeFindFirstNonEmpty (fwTreeCreate b) = None.
Proof.
  intros Hb. assert (0 < 2 ^ (b - 1)) by (apply Z.pow_pos_nonneg; lia).
  assert (2 ^ b = 2 * 2 ^ (b - 1)) as H2 by (rewrite <- Z.pow_succ_r by lia; f_equal; lia).
  assert (Z.shiftl 1 b = 2 ^ b) as Hs by (rewrite Z.shiftl_mul_pow2; lia).
  assert (node (fwTreeCreate b) (2 ^ b) = Some 0) as N1.
  { unfold node. cbn [tree fwTreeCreate]. rewrite Hs. zdec. apply lookup_replicate_2. lia. }
  assert (node (fwTreeCreate b) (2 ^ b + 2 ^ (b - 1)) = None) as N2.
  { unfold node. cbn [tree fwTreeCreate]. rewrite Hs. zdec. apply lookup_ge_None_2. rewrite length_replicate. lia. }
  assert (Z.shiftr (2 ^ b) 1 = 2 ^ (b - 1)) as Hr by (rewrite H2, Z.shiftr_div_pow2, Z.mul_comm, Z.div_mul by lia; done).
  unfold fwTreeFindFirstNonEmpty, fwTreeFindIndex. zdec. change (size_bits (fwTreeCreate b)) with b. rewrite Hs.
  destruct (Z.to_nat b) as [|n] eqn:En; [lia|]. cbn [find_loop]. rewrite Z.add_0_l, N1. cbn [mbind option_bind].
  change (1 >? 0) with true. cbn match. by rewrite Hr, N2.
Qed.

Lemma fwtree_empty_search_overruns_witness : fwTreeFindFirstNonEmpty (fwTreeCreate 3) = None.
Proof. apply (fwtree_empty_search_overruns 3). lia. Defined.
