(* ===== verification/Glob.v ===== *)
(** Glob-style pattern matching (src/src/util.c): [stringmatchlen] with its
    early termination, and [prefixmatch].

    Patterns and strings are followed by a NUL byte, so that the byte after the
    pattern is never a star. A [char] is signed. *)

From stdpp Require Import base list numbers strings.
From S2P Require Import Prelude Sds.

Local Open Scope Z_scope.

Definition STAR : Z := 42.
Definition QUESTION : Z := 63.
Definition OPEN : Z := 91.
Definition CLOSE : Z := 93.
Definition CARET : Z := 94.
Definition BACKSLASH : Z := 92.
Definition DASH : Z := 45.

(** A byte as a [char]. *)
Definition schar (c : Z) : Z := swrap 8 c.

(** A range with its ends in either order. *)
Definition in_range (nocase : bool) (a b c : Z) : bool :=
  let start := schar a in let end_ := schar b in
  let '(start, end_) := if start >? end_ then (end_, start) else (start, end_) in
  let fold x := if nocase then tolower x else x in
  (fold (schar c) >=? fold start) && (fold (schar c) <=? fold end_).

Definition same_char (nocase : bool) (a c : Z) : bool :=
  if nocase then tolower (schar a) =? tolower (schar c) else a =? c.

(** The loop inside brackets, for the character [c]: whether it matched, and
    the pattern after the closing bracket (or its end). *)
Fixpoint class_loop (nocase : bool) (c : Z) (p : list Z) (m : bool) : bool * list Z :=
  match p with
  | [] => (m, [])
  | a :: p1 =>
      let lit := class_loop nocase c p1 (m || same_char nocase a c) in
      if a =? BACKSLASH then
        match p1 with
        | x :: p2 => class_loop nocase c p2 (m || (x =? c))
        | [] => lit
        end
      else if a =? CLOSE then (m, p1)
      else
        match p1 with
        | d :: b :: p3 => if d =? DASH then class_loop nocase c p3 (m || in_range nocase a b c) else lit
        | _ => lit
        end
  end.

(** [while (pattern[1] == '*')]: the pattern at the last of a run of stars. *)
Fixpoint skip_stars (p : list Z) : list Z :=
  match p with
  | _ :: ((b :: _) as p1) => if b =? STAR then skip_stars p1 else p
  | _ => p
  end.

(** [while (patternLen && *pattern == '*')]. *)
Fixpoint drop_stars (p : list Z) : list Z :=
  match p with a :: p1 => if a =? STAR then drop_stars p1 else p | [] => [] end.

(** What the end of the loop returns. *)
Definition both_empty (p s : list Z) : bool := match p, s with [], [] => true | _, _ => false end.

(** The rest of the pattern tried at every place of the string. *)
Fixpoint star_loop (call : list Z -> bool -> option (bool * bool)) (s : list Z) (skip : bool) : option (bool * bool) :=
  match s with
  | [] => Some (false, true)
  | _ :: s' =>
      '(b, skip) ← call s skip;
      if (b : bool) then Some (true, skip)
      else if (skip : bool) then Some (false, skip)
      else star_loop call s' skip
  end.

(** The result and [*skipLongerMatches]. Every round consumes a byte of the
    pattern, which is the fuel. *)
Fixpoint match_loop (fuel : nat) (p s : list Z) (nocase skip : bool) (nesting : Z) : option (bool * bool) :=
  match fuel with
  | O => None
  | S fuel =>
      match p, s with
      | a :: p1, c :: s1 =>
          (* the common end of a round that consumed a character *)
          let next (p : list Z) :=
            match s1 with
            | [] => Some (both_empty (drop_stars p) [], skip)
            | _ => match_loop fuel p s1 nocase skip nesting
            end in
          if a =? STAR then
            let p := skip_stars p in
            if zlen p =? 1 then Some (true, skip)
            else
              star_loop (fun s skip => if nesting + 1 >? 1000 then Some (false, skip)
                                       else match_loop fuel (tail p) s nocase skip (nesting + 1)) s skip
          else if a =? QUESTION then next p1
          else if a =? OPEN then
            let '(negated, p2) := match p1 with b :: p2 => if b =? CARET then (true, p2) else (false, p1) | [] => (false, p1) end in
            let '(m, p3) := class_loop nocase c p2 false in
            if negb (xorb negated m) then Some (false, skip) else next p3
          else
            let '(x, p2) := match p1 with b :: p2 => if a =? BACKSLASH then (b, p2) else (a, p1) | [] => (a, p1) end in
            if negb (same_char nocase x c) then Some (false, skip) else next p2
      | _, _ => Some (both_empty p s, skip)
      end
  end.

(** The recursion is entered with a nesting of 0. *)
Definition stringmatchlen (p s : list Z) (nocase : bool) : option bool :=
  fst <$> match_loop (S (length p)) p s nocase false 0.

Definition stringmatch (p s : list Z) (nocase : bool) : option bool := stringmatchlen (cstr p) (cstr s) nocase.

(** The number of backslashes at the end. *)
Fixpoint leading_backslashes (r : list Z) : nat :=
  match r with a :: r => if a =? BACKSLASH then S (leading_backslashes r) else O | [] => O end.

Definition prefixmatch (p prefix : list Z) (nocase : bool) : option bool :=
  b ← stringmatchlen p prefix nocase;
  if negb b then Some false
  else
    match rev p with
    | [] => Some false
    | a :: r => if negb (a =? STAR) then Some false else Some (Nat.even (leading_backslashes r))
    end.

(** ** What a pattern means *)

Inductive item : Type := IExact (c : Z) | ILit (c : Z) | IRange (a b : Z).
Inductive token : Type := TStar | TAny | TClass (negated : bool) (items : list item) | TChar (c : Z).

Definition item_test (nocase : bool) (c : Z) (i : item) : bool :=
  match i with
  | IExact x => x =? c
  | ILit a => same_char nocase a c
  | IRange a b => in_range nocase a b c
  end.

Definition token_test (nocase : bool) (t : token) (c : Z) : bool :=
  match t with
  | TStar => false
  | TAny => true
  | TClass negated items => xorb negated (existsb (item_test nocase c) items)
  | TChar x => same_char nocase x c
  end.

Fixpoint suffixes (s : list Z) : list (list Z) := s :: match s with [] => [] | _ :: s => suffixes s end.

(** A star stands for any number of characters. *)
Fixpoint gmatch (nocase : bool) (ts : list token) (s : list Z) : bool :=
  match ts with
  | [] => match s with [] => true | _ => false end
  | TStar :: ts => existsb (gmatch nocase ts) (suffixes s)
  | t :: ts => match s with [] => false | c :: s => token_test nocase t c && gmatch nocase ts s end
  end.

(** The items between brackets and the rest of the pattern. *)
Fixpoint parse_class (p : list Z) : list item * list Z :=
  match p with
  | [] => ([], [])
  | a :: p1 =>
      let cons_item i r := let '(items, rest) := (r : list item * list Z) in (i :: items, rest) in
      let lit := cons_item (ILit a) (parse_class p1) in
      if a =? BACKSLASH then
        match p1 with
        | x :: p2 => cons_item (IExact x) (parse_class p2)
        | [] => lit
        end
      else if a =? CLOSE then ([], p1)
      else
        match p1 with
        | d :: b :: p3 => if d =? DASH then cons_item (IRange a b) (parse_class p3) else lit
        | _ => lit
        end
  end.

(** The token that starts with [a], and the rest of the pattern. *)
Definition first_token (a : Z) (p1 : list Z) : token * list Z :=
  if a =? STAR then (TStar, p1)
  else if a =? QUESTION then (TAny, p1)
  else if a =? OPEN then
    let '(negated, p2) := match p1 with b :: p2 => if b =? CARET then (true, p2) else (false, p1) | [] => (false, p1) end in
    let '(items, rest) := parse_class p2 in
    (TClass negated items, rest)
  else
    match p1 with b :: p2 => if a =? BACKSLASH then (TChar b, p2) else (TChar a, p1) | [] => (TChar a, p1) end.

Fixpoint parse (fuel : nat) (p : list Z) : list token :=
  match fuel, p with
  | S fuel, a :: p1 => let '(t, rest) := first_token a p1 in t :: parse fuel rest
  | _, _ => []
  end.

Definition tokens (p : list Z) : list token := parse (length p) p.

Definition is_star (t : token) : bool := match t with TStar => true | _ => false end.
Definition stars (ts : list token) : Z := zlen (List.filter is_star ts).

(** ** Parsing *)

Lemma length_ind (P : list Z -> Prop) :
  (forall p, (forall q, (length q < length p)%nat -> P q) -> P p) -> forall p, P p.
Proof. intros H p. induction p as [p IH] using (induction_ltof1 _ (@length Z)). by apply H. Qed.

Lemma parse_class_shorter p : (length (snd (parse_class p)) <= length p)%nat.
Proof.
  induction p as [[|a p1] IH] using length_ind; simpl; [done|].
  repeat case_match; subst; simpl; try lia;
    match goal with E : parse_class ?q = _ |- _ => specialize (IH q); rewrite E in IH; simpl in *; lia end.
Qed.

(** The loop inside brackets tests the items that [parse_class] reads. *)
Lemma class_loop_items nocase c p m :
  class_loop nocase c p m = (m || existsb (item_test nocase c) (fst (parse_class p)), snd (parse_class p)).
Proof.
  revert m. induction p as [[|a p1] IH] using length_ind; intros m; simpl; [by rewrite orb_false_r|].
  repeat case_match; subst; rewrite ?IH by (simpl; lia);
    repeat match goal with E : parse_class _ = _ |- _ => rewrite E; clear E end;
    simpl; by rewrite ?orb_assoc, ?orb_false_r.
Qed.

Lemma first_token_shorter a p1 : (length (snd (first_token a p1)) <= length p1)%nat.
Proof.
  unfold first_token. repeat case_match; simpl; simplify_eq; simpl; try lia;
    match goal with E : parse_class ?q = _ |- _ => pose proof (parse_class_shorter q) as L; rewrite E in L; simpl in *; lia end.
Qed.

Lemma parse_enough n p : (length p <= n)%nat -> parse n p = tokens p.
Proof.
  unfold tokens. revert n. induction p as [p IH] using length_ind; intros n L.
  destruct p as [|a p1]; [by destruct n|]. destruct n as [|n]; simpl in L; [lia|]. simpl.
  pose proof (first_token_shorter a p1) as F. destruct (first_token a p1) as [t rest]. simpl in F.
  f_equal. rewrite (IH rest) by (simpl; lia). symmetry. apply IH; simpl; lia.
Qed.

Lemma tokens_cons a p1 : tokens (a :: p1) = fst (first_token a p1) :: tokens (snd (first_token a p1)).
Proof.
  unfold tokens at 1. simpl. pose proof (first_token_shorter a p1) as F.
  destruct (first_token a p1) as [t rest]. simpl in *. by rewrite parse_enough.
Qed.

Lemma tokens_star p : tokens (STAR :: p) = TStar :: tokens p.
Proof. by rewrite tokens_cons. Qed.

(** ** The loop and the meaning of the pattern *)

Lemma stars_cons t ts : stars (t :: ts) = (if is_star t then 1 else 0) + stars ts.
Proof. unfold stars. simpl. destruct (is_star t); [|done]. by rewrite zlen_cons. Qed.

Lemma stars_nonneg ts : 0 <= stars ts.
Proof. unfold stars, zlen. lia. Qed.

Lemma in_suffixes u s : In u (suffixes s) <-> exists v, s = v ++ u.
Proof.
  induction s as [|c s IH]; simpl.
  - split; [intros [<-|[]]; by exists []|]. intros [v E]. left. by destruct v, u.
  - rewrite IH. split.
    + intros [<-|[v ->]]; [by exists []|by exists (c :: v)].
    + intros [[|d v] E]; simpl in E; [by left|]. right. exists v. congruence.
Qed.

Definition never (nocase : bool) (ts : list token) (s : list Z) : Prop :=
  forall u, In u (suffixes s) -> gmatch nocase ts u = false.

Lemma gmatch_star nocase ts s :
  gmatch nocase (TStar :: ts) s = true <-> exists u, In u (suffixes s) /\ gmatch nocase ts u = true.
Proof. simpl. apply existsb_exists. Qed.

(** No suffix of a suffix matches either. *)
Lemma never_star nocase ts s : never nocase ts s -> never nocase (TStar :: ts) s.
Proof.
  intros N u [v ->]%in_suffixes. apply not_true_iff_false. intros (w & [v' ->]%in_suffixes & G)%gmatch_star.
  rewrite N in G; [done|]. apply in_suffixes. exists (v ++ v'). by rewrite app_assoc.
Qed.

Lemma never_step nocase t ts c s : is_star t = false -> never nocase ts s -> never nocase (t :: ts) (c :: s).
Proof.
  intros T N u U. destruct u as [|d u]; [by destruct t|].
  assert (In u (suffixes s)) as I.
  { apply in_suffixes in U as [[|e v] E]; simpl in E; simplify_eq; apply in_suffixes; [by exists []|].
    exists (v ++ [d]). by rewrite <- app_assoc. }
  destruct t; simpl; [done| | |]; rewrite ?N by done; by rewrite ?andb_false_r.
Qed.

Lemma gmatch_step nocase t ts c s :
  is_star t = false -> gmatch nocase (t :: ts) (c :: s) = token_test nocase t c && gmatch nocase ts s.
Proof. by destruct t. Qed.

(** At the end of the string only stars are left to match. *)
Lemma gmatch_end nocase p : gmatch nocase (tokens p) [] = both_empty (drop_stars p) [].
Proof.
  induction p as [|a p IH]; [done|]. simpl. destruct (a =? STAR) eqn:A.
  - apply Z.eqb_eq in A as ->. rewrite tokens_star. simpl. by rewrite IH, orb_false_r.
  - rewrite tokens_cons. unfold first_token. rewrite A. repeat case_match; done.
Qed.

Lemma first_token_star a p : is_star (fst (first_token a p)) = (a =? STAR).
Proof. unfold first_token. repeat case_match; simplify_eq; done. Qed.

(** A run of stars is one star. *)
Lemma skip_stars_spec p :
  exists p', skip_stars (STAR :: p) = STAR :: p' /\ (length p' <= length p)%nat /\ stars (tokens p') <= stars (tokens p) /\
    (p' = [] \/ gmatch true (tokens p') [] = false) /\
    (forall nocase s, gmatch nocase (TStar :: tokens p) s = gmatch nocase (TStar :: tokens p') s).
Proof.
  induction p as [|a p IH]; [by exists []; split_and!; auto with lia|].
  change (skip_stars (STAR :: a :: p)) with (if a =? STAR then skip_stars (a :: p) else STAR :: a :: p).
  destruct (a =? STAR) eqn:A.
  - apply Z.eqb_eq in A as ->. destruct IH as (p' & E & L & S & T & G). exists p'.
    rewrite tokens_star. split_and!; auto; [simpl; lia|rewrite stars_cons; simpl; lia|].
    intros nocase s. rewrite <- G. apply eq_true_iff_eq. rewrite !gmatch_star. split.
    + intros (u & [v ->]%in_suffixes & (w & [v' ->]%in_suffixes & H)%gmatch_star).
      exists w. split; [|done]. apply in_suffixes. exists (v ++ v'). by rewrite app_assoc.
    + intros (u & U & H). exists u. split; [done|]. apply gmatch_star. exists u. split; [|done].
      apply in_suffixes. by exists [].
  - exists (a :: p). split_and!; auto with lia. right. rewrite gmatch_end. simpl. by rewrite A.
Qed.

(** A call returns; a match is one; and unless the nesting is too deep the
    answer is exact and [*skipLongerMatches] says that no suffix matches. *)
Definition answers (nocase : bool) (ts : list token) (s : list Z) (shallow : Prop) (r : option (bool * bool)) : Prop :=
  exists b skip, r = Some (b, skip) /\ (b = true -> gmatch nocase ts s = true) /\
    (shallow -> b = gmatch nocase ts s /\ (skip = true -> never nocase ts s)).

Lemma suffixes_self s : In s (suffixes s).
Proof. apply in_suffixes. by exists []. Qed.

Lemma gmatch_star_cons nocase ts c s :
  gmatch nocase (TStar :: ts) (c :: s) = gmatch nocase ts (c :: s) || gmatch nocase (TStar :: ts) s.
Proof. done. Qed.

Lemma never_cons nocase ts c s : gmatch nocase ts (c :: s) = false -> never nocase ts s -> never nocase ts (c :: s).
Proof. intros G N u [<-|U]; [done|by apply N]. Qed.

Lemma star_loop_answers nocase ts shallow call s :
  gmatch nocase ts [] = false ->
  (forall s, s <> [] -> answers nocase ts s shallow (call s false)) ->
  exists b skip, star_loop call s false = Some (b, skip) /\ (b = true -> gmatch nocase (TStar :: ts) s = true) /\
    (shallow -> b = gmatch nocase (TStar :: ts) s /\ (skip = true -> never nocase ts s)).
Proof.
  intros E C. induction s as [|c s IH].
  - exists false, true. split_and!; [done..|]. intros _. simpl. rewrite E. split; [done|]. by intros _ u [<-|[]].
  - destruct (C (c :: s)) as (b & skip & R & T & S); [done|]. rewrite gmatch_star_cons.
    cbn [star_loop]. rewrite R. cbn [mbind option_bind].
    destruct b; [exists true, skip; rewrite T by done; split_and!; [done..|]; intros H; by destruct (S H)|].
    destruct skip.
    + exists false, true. split_and!; [done..|]. intros H. destruct (S H) as [G N]. specialize (N eq_refl).
      split; [|done]. rewrite <- gmatch_star_cons. symmetry. apply (never_star _ _ _ N), suffixes_self.
    + destruct IH as (b & skip & R' & T' & S'). exists b, skip. split_and!; [done|intros ->; rewrite T' by done; apply orb_true_r|].
      intros H. destruct (S H) as [G _], (S' H) as [G' N]. rewrite <- G. split; [done|].
      intros B. apply never_cons; auto.
Qed.

(** A round on a token that is not a star tests it and goes on behind it. *)
Lemma round_token fuel a p1 c s1 nocase skip n :
  (a =? STAR) = false ->
  match_loop (S fuel) (a :: p1) (c :: s1) nocase skip n =
    if token_test nocase (fst (first_token a p1)) c then
      match s1 with
      | [] => Some (both_empty (drop_stars (snd (first_token a p1))) [], skip)
      | _ => match_loop fuel (snd (first_token a p1)) s1 nocase skip n
      end
    else Some (false, skip).
Proof.
  intros A. cbn [match_loop]. unfold first_token. rewrite A.
  destruct (a =? QUESTION); [done|]. destruct (a =? OPEN).
  - destruct (match p1 with [] => _ | _ => _ end) as [negated p2]. rewrite class_loop_items.
    destruct (parse_class p2) as [items rest]. cbn [fst snd token_test orb]. by destruct (xorb _ _).
  - destruct p1 as [|b p2]; [|destruct (a =? BACKSLASH)]; cbn [fst snd token_test]; by destruct (same_char _ _ _).
Qed.

Lemma match_loop_answers nocase fuel : forall p s n, (length p < fuel)%nat -> s <> [] -> 0 <= n ->
  answers nocase (tokens p) s (n + stars (tokens p) <= 1000) (match_loop fuel p s nocase false n).
Proof.
  induction fuel as [|fuel IH]; intros p [|c s1] n L Hs Hn; try done; [lia|].
  destruct p as [|a p1]; [by exists false, false|]. destruct (a =? STAR) eqn:A.
  - apply Z.eqb_eq in A as ->. rewrite tokens_star. destruct (skip_stars_spec p1) as (p' & E & L' & S' & T & G).
    unfold answers, never. setoid_rewrite G.
    cbn [match_loop]. rewrite E. cbn [tail]. change (STAR =? STAR) with true. cbn iota. rewrite zlen_cons.
    destruct (decide (p' = [])) as [->|Hp].
    + exists true, false. split_and!; [done| |]; intros _; [|split; [|done]];
        [|symmetry]; apply gmatch_star; exists []; (split; [|done]); apply in_suffixes; exists (c :: s1); by rewrite app_nil_r.
    + assert (0 < zlen p') by (destruct p'; [done|]; rewrite zlen_cons; unfold zlen; lia). zdec.
      destruct T as [T|T]; [done|]. rewrite gmatch_end, <- (gmatch_end nocase) in T.
      edestruct (star_loop_answers nocase (tokens p') (n + stars (TStar :: tokens p1) <= 1000)) as (b & skip & R & B & S);
        [exact T| |exists b, skip; split; [exact R|]; split; [exact B|]].
      * intros s Hs'. zcase.
        -- exists false, false. split_and!; [done..|]. intros H'. rewrite stars_cons in H'. cbn [is_star] in H'.
           pose proof (stars_nonneg (tokens p1)). lia.
        -- destruct (IH p' s (n + 1)) as (b & skip & R & B & S); [simpl in L; lia|done|lia|].
           exists b, skip. split_and!; [done..|]. rewrite stars_cons. cbn [is_star]. intros. apply S. lia.
      * intros H'. destruct (S H') as [Hb N]. split; [done|]. intros K. by apply never_star; auto.
  - rewrite round_token by done. rewrite tokens_cons, stars_cons, first_token_star, A.
    pose proof (first_token_shorter a p1) as L1. pose proof (first_token_star a p1) as T. rewrite A in T.
    destruct (first_token a p1) as [t rest]. cbn [fst snd] in *. unfold answers. rewrite gmatch_step by done.
    destruct (token_test nocase t c); [|by exists false, false].
    destruct s1 as [|d s1]; [rewrite <- gmatch_end with (nocase := nocase); by eexists _, false|].
    destruct (IH rest (d :: s1) n) as (b & skip & R & B & S); [simpl in *; lia|done|done|].
    exists b, skip. split_and!; [done..|]. intros H. destruct S as [G N]; [lia|]. split; [done|]. intros K.
    by apply never_step; auto.
Qed.

Lemma stringmatchlen_nonempty nocase p s :
  s <> [] -> exists b, stringmatchlen p s nocase = Some b /\ (b = true -> gmatch nocase (tokens p) s = true) /\
    (stars (tokens p) <= 1000 -> b = gmatch nocase (tokens p) s).
Proof.
  intros Hs. destruct (match_loop_answers nocase (S (length p)) p s 0) as (b & skip & R & B & S); [lia|done|done|].
  exists b. unfold stringmatchlen. rewrite R. split_and!; [done..|]. intros. by apply S.
Qed.

Lemma stringmatchlen_nil nocase p : stringmatchlen p [] nocase = Some (both_empty p []).
Proof. by destruct p. Qed.

(** ** Patterns that end with a star *)

Lemma gmatch_extend nocase ts s ext :
  gmatch nocase (ts ++ [TStar]) s = true -> gmatch nocase (ts ++ [TStar]) (s ++ ext) = true.
Proof.
  revert s. induction ts as [|t ts IH]; intros s; cbn [app].
  - intros _. apply gmatch_star. exists []. split; [|done]. apply in_suffixes. exists (s ++ ext). by rewrite app_nil_r.
  - destruct (is_star t) eqn:T.
    + destruct t; try done. rewrite !gmatch_star. intros (u & [v ->]%in_suffixes & G). exists (u ++ ext).
      split; [|by apply IH]. apply in_suffixes. exists v. by rewrite app_assoc.
    + destruct s as [|c s]; [by destruct t|]. cbn [app]. rewrite !gmatch_step by done. rewrite !andb_true_iff.
      intros [-> G]. split; [done|by apply IH].
Qed.

Lemma leading_backslashes_other r a : (a =? BACKSLASH) = false -> leading_backslashes (r ++ [a]) = leading_backslashes r.
Proof. intros A. induction r as [|b r IH]; simpl; [by rewrite A|]. by destruct (b =? BACKSLASH); rewrite ?IH. Qed.

Lemma leading_backslashes_escape r b :
  Nat.even (leading_backslashes ((r ++ [b]) ++ [BACKSLASH])) = Nat.even (leading_backslashes r).
Proof.
  induction r as [|a r IH]; simpl; [by destruct (b =? BACKSLASH)|].
  destruct (a =? BACKSLASH); [|done]. by rewrite !Nat.even_succ, <- !Nat.negb_even, IH.
Qed.

Lemma first_token_plain a p1 :
  a <> OPEN -> (a =? BACKSLASH = false \/ p1 = []) -> snd (first_token a p1) = p1.
Proof.
  intros O B. unfold first_token. rewrite (proj2 (Z.eqb_neq a OPEN)) by done.
  destruct B as [->| ->]; repeat case_match; done.
Qed.

(** Without brackets, the parity of the backslashes in front of a final star
    decides whether it is a star of the pattern. *)
Lemma unescaped_star p r :
  ~ In OPEN p -> rev p = STAR :: r -> Nat.even (leading_backslashes r) = true -> last (tokens p) = Some TStar.
Proof.
  revert r. induction p as [[|a p1] IH] using length_ind; intros r O E V; [done|].
  assert (forall q r', (length q <= length p1)%nat -> (forall x, In x q -> In x (a :: p1)) -> rev q = STAR :: r' ->
            Nat.even (leading_backslashes r') = true -> last (tokens q) = Some TStar) as IH'.
  { intros q r' L I E' V'. apply (IH q) with r'; [simpl; lia|auto|done|done]. }
  assert (forall t q, last q = Some TStar -> last (t :: q) = Some TStar) as K by (intros t [|u q]; done).
  assert (a <> OPEN) as Ha by (intros ->; apply O; by left).
  rewrite tokens_cons. simpl in E.
  destruct (rev p1) as [|z r1] eqn:E1.
  { apply (f_equal (@rev Z)) in E1. rewrite rev_involutive in E1. subst p1. by injection E as ->; subst. }
  injection E as -> <-. destruct (a =? BACKSLASH) eqn:B.
  - apply Z.eqb_eq in B as ->. destruct p1 as [|b p2]; [done|].
    change (snd (first_token BACKSLASH (b :: p2))) with p2.
    simpl in E1. destruct (rev p2) as [|z r2] eqn:E2; injection E1 as -> <-; [done|].
    apply K, (IH' p2 r2); [simpl; lia|simpl; tauto|done|]. by rewrite <- V, leading_backslashes_escape.
  - rewrite first_token_plain by auto. apply K, (IH' p1 r1); [done|simpl; tauto|done|].
    by rewrite leading_backslashes_other in V.
Qed.

(** ** Properties *)

(** C26: the pattern matcher returns on every pattern and string; a match it
    reports is a match of the pattern's meaning, in which a star stands for any
    string; and on a pattern of at most 1000 stars its early termination loses
    no match, so that the answer on a non-empty string is exactly the meaning.
    On the empty string it is whether the pattern is empty, so that no pattern
    of stars matches it. *)
Theorem stringmatchlen_exact nocase p s :
  exists b, stringmatchlen p s nocase = Some b /\
    (b = true -> gmatch nocase (tokens p) s = true) /\
    (stars (tokens p) <= 1000 -> b = if decide (s = []) then both_empty p [] else gmatch nocase (tokens p) s).
Proof.
  destruct (decide (s = [])) as [->|Hs]; [|by apply stringmatchlen_nonempty].
  rewrite stringmatchlen_nil. exists (both_empty p []). split_and!; [done| |done]. by destruct p.
Qed.

(** A pattern without brackets that [prefixmatch] accepts for a prefix, as
    the access control lists ask of commands that take a key prefix, matches
    every string that starts with the prefix. *)
Theorem prefixmatch_covers nocase p prefix ext :
  ~ In OPEN p -> stars (tokens p) <= 1000 -> prefixmatch p prefix nocase = Some true ->
  stringmatchlen p (prefix ++ ext) nocase = Some true.
Proof.
  intros O N. unfold prefixmatch. destruct (decide (prefix = [])) as [->|Hp].
  { rewrite stringmatchlen_nil. by destruct p. }
  destruct (stringmatchlen_nonempty nocase p prefix Hp) as (b & -> & B & _). cbn [mbind option_bind].
  destruct b; [|done]. cbn [negb]. destruct (rev p) as [|a r] eqn:E; [done|].
  destruct (a =? STAR) eqn:A; [|done]. cbn [negb]. intros V. apply Z.eqb_eq in A as ->. injection V as V.
  apply (unescaped_star p r O E) in V. apply last_Some in V as [ts V].
  destruct (stringmatchlen_nonempty nocase p (prefix ++ ext)) as (b & -> & _ & S); [by destruct prefix|].
  f_equal. rewrite (S N), V. apply gmatch_extend. rewrite <- V. auto.
Qed.

Lemma prefixmatch_covers_witness : stringmatchlen (bs "user:\**") (bs "user:*1000") false = Some true.
Proof.
  apply (prefixmatch_covers false (bs "user:\**") (bs "user:*") (bs "1000"));
    [by intros I; vm_compute in I; intuition discriminate|by vm_compute|reflexivity].
Defined.

(** With a bracket that is not closed the final star belongs to a class:
    [prefixmatch] then accepts a prefix although the pattern matches no longer
    string that starts with it. *)
Theorem prefixmatch_open_class ext :
  ext <> [] ->
  prefixmatch (bs "[*") (bs "*") false = Some true /\ stringmatchlen (bs "[*") (bs "*" ++ ext) false = Some false.
Proof. intros E. split; [done|]. by destruct ext. Qed.

Lemma prefixmatch_open_class_witness :
  prefixmatch (bs "[*") (bs "*") false = Some true /\ stringmatchlen (bs "[*") (bs "*" ++ bs "a") false = Some false.
Proof. apply (prefixmatch_open_class (bs "a")). discriminate. Defined.
