(* ===== verification/Args.v ===== *)
(** Words of a line (src/src/sds.c): [sdssplitargs], which configuration files,
    inline queries and manifests are read with, and [sdscatrepr] and
    [sdsneedsrepr], which write what it is to read.

    A line is a C string, so that the byte after its last one is NUL. *)

From stdpp Require Import base list numbers strings.
From S2P Require Import Prelude Sds.

Local Open Scope Z_scope.

Definition DQUOTE : Z := 34.
Definition SQUOTE : Z := 39.
Definition ESC : Z := 92.

Definition isspace (c : Z) : bool := (c =? 32) || ((9 <=? c) && (c <=? 13)).
Definition isprint (c : Z) : bool := (32 <=? c) && (c <=? 126).

Definition is_hex_digit (c : Z) : bool :=
  ((48 <=? c) && (c <=? 57)) || ((97 <=? c) && (c <=? 102)) || ((65 <=? c) && (c <=? 70)).

Definition hex_digit_to_int (c : Z) : Z :=
  if (48 <=? c) && (c <=? 57) then c - 48
  else if (97 <=? c) && (c <=? 102) then c - 97 + 10
  else if (65 <=? c) && (c <=? 70) then c - 65 + 10
  else 0.

(** The [%x] digit. *)
Definition hex_digit (n : Z) : Z := if n <? 10 then 48 + n else 97 + (n - 10).

Definition repr_char (c : Z) : list Z :=
  if (c =? ESC) || (c =? DQUOTE) then [ESC; c]
  else if c =? 10 then [ESC; 110]
  else if c =? 13 then [ESC; 114]
  else if c =? 9 then [ESC; 116]
  else if c =? 7 then [ESC; 97]
  else if c =? 8 then [ESC; 98]
  else if isprint c then [c]
  else [ESC; 120; hex_digit (c / 16); hex_digit (c mod 16)].

Definition sdscatrepr (s p : list Z) : list Z := s ++ [DQUOTE] ++ concat (map repr_char p) ++ [DQUOTE].

Definition sdsneedsrepr (s : list Z) : bool :=
  existsb (fun c => (c =? ESC) || (c =? DQUOTE) || (c =? 10) || (c =? 13) || (c =? 9) || (c =? 7) || (c =? 8) ||
                    negb (isprint c) || isspace c) s.

(** Where the reader is: outside quotes, [inq] or [insq]. *)
Inductive quoting : Type := Unquoted | InDouble | InSingle.

Definition unescape (c : Z) : Z :=
  if c =? 110 then 10
  else if c =? 114 then 13
  else if c =? 116 then 9
  else if c =? 98 then 8
  else if c =? 97 then 7
  else c.

(** A closing quote is followed by a space or nothing. *)
Definition close_quote (cur p : list Z) : option (list Z * list Z) :=
  match p with
  | c :: _ => if isspace c then Some (cur, p) else None
  | [] => Some (cur, p)
  end.

(** One token: its text and the rest of the line; [None] is an error. *)
Fixpoint get_token (q : quoting) (p cur : list Z) : option (list Z * list Z) :=
  match p with
  | [] => match q with Unquoted => Some (cur, []) | _ => None end
  | a :: p1 =>
      match q with
      | InDouble =>
          let plain :=
            if a =? DQUOTE then close_quote cur p1 else get_token InDouble p1 (cur ++ [a]) in
          if a =? ESC then
            match p1 with
            | [] => plain
            | x :: p2 =>
                let escaped := get_token InDouble p2 (cur ++ [unescape x]) in
                match p2 with
                | h :: l :: p4 =>
                    if (x =? 120) && is_hex_digit h && is_hex_digit l
                    then get_token InDouble p4 (cur ++ [hex_digit_to_int h * 16 + hex_digit_to_int l])
                    else escaped
                | _ => escaped
                end
            end
          else plain
      | InSingle =>
          let plain :=
            if a =? SQUOTE then close_quote cur p1 else get_token InSingle p1 (cur ++ [a]) in
          if a =? ESC then
            match p1 with
            | x :: p2 => if x =? SQUOTE then get_token InSingle p2 (cur ++ [SQUOTE]) else plain
            | [] => plain
            end
          else plain
      | Unquoted =>
          if (a =? 32) || (a =? 10) || (a =? 13) || (a =? 9) then Some (cur, p1)
          else if a =? DQUOTE then get_token InDouble p1 cur
          else if a =? SQUOTE then get_token InSingle p1 cur
          else get_token Unquoted p1 (cur ++ [a])
      end
  end.

Fixpoint skip_blanks (p : list Z) : list Z :=
  match p with c :: p1 => if isspace c then skip_blanks p1 else p | [] => [] end.

(** Every round reads a token of at least one byte, so the length is enough. *)
Fixpoint split_loop (fuel : nat) (p : list Z) : option (list (list Z)) :=
  match skip_blanks p with
  | [] => Some []
  | p =>
      match fuel with
      | O => None
      | S fuel => '(t, p) ← get_token Unquoted p []; rest ← split_loop fuel p; Some (t :: rest)
      end
  end.

(** [None] is NULL. *)
Definition sdssplitargs (line : list Z) : option (list (list Z)) :=
  split_loop (length (cstr line)) (cstr line).

Fixpoint sdsjoinsds (argv : list (list Z)) (sep : list Z) : list Z :=
  match argv with
  | [] => []
  | [a] => a
  | a :: argv => a ++ sep ++ sdsjoinsds argv sep
  end.

(** ** Lemmas *)

Definition is_bytes (s : list Z) : Prop := Forall is_u8 s.

Lemma hex_digit_back n : 0 <= n < 16 -> is_hex_digit (hex_digit n) = true /\ hex_digit_to_int (hex_digit n) = n.
Proof.
  intros H. unfold hex_digit, is_hex_digit, hex_digit_to_int. destruct (Z.ltb_spec n 10); zdec; (split; [done|lia]).
Qed.

Lemma get_repr_char c p cur :
  is_u8 c -> get_token InDouble (repr_char c ++ p) cur = get_token InDouble p (cur ++ [c]).
Proof.
  intros Hc. unfold repr_char.
  repeat match goal with |- context [(c =? ?k)] => destruct (Z.eqb_spec c k) as [->|?]; [by destruct p as [|? [|]]|] end.
  cbn [orb]. destruct (isprint c) eqn:P.
  - simpl. by rewrite !(proj2 (Z.eqb_neq c _)).
  - assert (0 <= c / 16 < 16 /\ 0 <= c mod 16 < 16) as [H1 H2].
    { unfold is_u8 in Hc. split; [|apply Z.mod_pos_bound; lia]. split; [apply Z.div_pos|apply Z.div_lt_upper_bound]; lia. }
    destruct (hex_digit_back _ H1) as [D1 E1], (hex_digit_back _ H2) as [D2 E2].
    simpl. rewrite D1, D2, E1, E2. simpl. do 3 f_equal. rewrite (Z.div_mod c 16) at 3 by lia. lia.
Qed.

Lemma get_repr_text s p cur :
  is_bytes s -> get_token InDouble (concat (map repr_char s) ++ p) cur = get_token InDouble p (cur ++ s).
Proof.
  intros H. revert cur. induction H as [|c s Hc _ IH]; intros cur; [by rewrite app_nil_r|].
  simpl. by rewrite <- app_assoc, get_repr_char, IH, <- app_assoc.
Qed.

Lemma repr_char_text c : is_u8 c -> Forall (fun x => x <> 0 /\ x <> LF) (repr_char c).
Proof.
  intros Hc. unfold repr_char, isprint, hex_digit, is_u8, ESC, DQUOTE, LF in *.
  pose proof (Z.div_pos c 16). pose proof (Z.mod_pos_bound c 16).
  repeat case_match; repeat constructor; lia.
Qed.

(** A byte that [sdsneedsrepr] does not object to. *)
Definition plain_char (c : Z) : Prop := isprint c = true /\ isspace c = false /\ c <> ESC /\ c <> DQUOTE.

Lemma sdsneedsrepr_plain s : sdsneedsrepr s = false <-> Forall plain_char s.
Proof.
  induction s as [|c s IH]; simpl; [by split|]. rewrite Forall_cons, <- IH, orb_false_iff.
  apply and_iff_compat_r. unfold plain_char. rewrite !orb_false_iff, !Z.eqb_neq, negb_false_iff.
  unfold isprint, isspace. rewrite andb_true_iff, orb_false_iff, andb_false_iff, Z.eqb_neq. lia.
Qed.

Lemma get_plain s p cur :
  Forall plain_char s -> ~ In SQUOTE s -> get_token Unquoted (s ++ p) cur = get_token Unquoted p (cur ++ s).
Proof.
  intros H N. revert cur. induction H as [|c s (Hp & Hs & H1 & H2) _ IH]; intros cur; [by rewrite app_nil_r|].
  assert (c <> SQUOTE) as H3 by (intros ->; apply N; by left).
  simpl. rewrite (proj2 (Z.eqb_neq c DQUOTE)), (proj2 (Z.eqb_neq c SQUOTE)) by done.
  unfold isspace in Hs. rewrite orb_false_iff, andb_false_iff in Hs. zdec.
  rewrite IH, <- app_assoc; [done|]. intros ?. apply N. by right.
Qed.

(** How a word may be written: quoted, or as it is. *)
Inductive written (s : list Z) : list Z -> Prop :=
| written_quoted : is_bytes s -> written s (sdscatrepr [] s)
| written_plain : s <> [] -> sdsneedsrepr s = false -> ~ In SQUOTE s -> written s s.

Definition at_gap (rest : list Z) : Prop := rest = [] \/ exists r, rest = 32 :: r.

Lemma written_reads s w rest :
  written s w -> at_gap rest ->
  exists r, get_token Unquoted (w ++ rest) [] = Some (s, r) /\ skip_blanks r = skip_blanks rest.
Proof.
  intros [Hs|_ N Q] G.
  - exists rest. split; [|done]. unfold sdscatrepr. simpl. rewrite <- app_assoc, get_repr_text by done. simpl.
    unfold close_quote. by destruct G as [->|[r ->]].
  - rewrite sdsneedsrepr_plain in N. rewrite get_plain by done. simpl.
    destruct G as [->|[r ->]]; [by exists []|]. exists r. done.
Qed.

Lemma written_head s w : written s w -> exists c w', w = c :: w' /\ isspace c = false.
Proof.
  intros [_|N P _]; [by exists DQUOTE, (concat (map repr_char s) ++ [DQUOTE])|].
  rewrite sdsneedsrepr_plain in P. destruct P as [|c s (_ & H & _)]; [done|]. by exists c, s.
Qed.

(** A written word is text of one line. *)
Lemma written_text s w : written s w -> Forall (fun x => x <> 0 /\ x <> LF) w.
Proof.
  intros [H|_ P _].
  - unfold sdscatrepr. simpl. constructor; [done|]. apply Forall_app. split; [|by repeat constructor].
    induction H; simpl; [constructor|]. apply Forall_app. split; [by apply repr_char_text|done].
  - rewrite sdsneedsrepr_plain in P. eapply Forall_impl; [exact P|]. intros c (H & H' & _). split; by intros ->.
Qed.

Lemma split_loop_blanks fuel p q : skip_blanks p = skip_blanks q -> split_loop fuel p = split_loop fuel q.
Proof. intros E. destruct fuel; simpl; by rewrite E. Qed.

Lemma split_loop_word fuel s w rest :
  written s w -> at_gap rest ->
  split_loop (S fuel) (w ++ rest) = ts ← split_loop fuel rest; Some (s :: ts).
Proof.
  intros W G. destruct (written_reads s w rest W G) as (r & E & B). destruct (written_head s w W) as (c & w' & -> & C).
  cbn [split_loop]. simpl app in *. simpl skip_blanks. rewrite C, E. simpl. by rewrite (split_loop_blanks fuel r rest B).
Qed.

Lemma split_loop_words args ws : Forall2 written args ws ->
  forall fuel, (length args <= fuel)%nat -> split_loop fuel (sdsjoinsds ws [32]) = Some args.
Proof.
  induction 1 as [|s w args ws W Ws IH]; intros fuel L; [by destruct fuel|].
  destruct fuel as [|fuel]; simpl in L; [lia|]. destruct ws as [|w' ws].
  - inversion Ws; subst. rewrite <- (app_nil_r (sdsjoinsds _ _)). simpl sdsjoinsds. rewrite (split_loop_word _ s) by (auto; by left).
    by destruct fuel.
  - change (sdsjoinsds (w :: w' :: ws) [32]) with (w ++ 32 :: sdsjoinsds (w' :: ws) [32]).
    rewrite (split_loop_word _ s) by (auto; right; eauto). rewrite (split_loop_blanks _ _ (sdsjoinsds (w' :: ws) [32])) by done.
    by rewrite IH by lia.
Qed.

Lemma join_cons w w' ws sep : sdsjoinsds (w :: w' :: ws) sep = w ++ sep ++ sdsjoinsds (w' :: ws) sep.
Proof. done. Qed.

Lemma join_chars (P : Z -> Prop) ws sep : Forall P sep -> Forall (Forall P) ws -> Forall P (sdsjoinsds ws sep).
Proof.
  intros S. induction 1 as [|w [|w' ws] Hw Hws IH]; [constructor|done|]. rewrite join_cons, !Forall_app. auto.
Qed.

Lemma join_last ws w sep : exists pre, sdsjoinsds (ws ++ [w]) sep = pre ++ w.
Proof.
  induction ws as [|v ws [pre IH]]; [by exists []|]. destruct ws as [|v' ws]; simpl in *.
  - exists (v ++ sep). by rewrite <- app_assoc.
  - rewrite IH. exists (v ++ sep ++ pre). by rewrite <- !app_assoc.
Qed.

Lemma written_all_text args ws : Forall2 written args ws -> Forall (fun c => c <> 0 /\ c <> LF) (sdsjoinsds ws [32]).
Proof.
  intros W. apply join_chars; [by repeat constructor|]. induction W; constructor; [by eapply written_text|done].
Qed.

Lemma written_count args ws : Forall2 written args ws -> (length args <= length (sdsjoinsds ws [32%Z]))%nat.
Proof.
  induction 1 as [|s w args ws W Ws IH]; [done|]. destruct (written_head s w W) as (c & w' & -> & _).
  destruct ws as [|v ws]; [inversion Ws; simpl; lia|]. rewrite join_cons, !length_app. simpl in *. lia.
Qed.

Lemma words_split args ws : Forall2 written args ws -> sdssplitargs (sdsjoinsds ws [32]) = Some args.
Proof.
  intros W. unfold sdssplitargs. rewrite cstr_id.
  - apply (split_loop_words args ws W), (written_count args ws W).
  - eapply Forall_impl; [exact (written_all_text args ws W)|]. by intros c [? _].
Qed.

(** ** Properties *)

(** What is written can be read: words of any bytes, each in its quoted
    form, or as it is when it is not empty, [sdsneedsrepr] does not object to it
    and it holds no apostrophe, joined with spaces, are split into exactly those
    words again. *)
Theorem splitargs_reads_words args ws :
  Forall2 written args ws -> sdssplitargs (sdsjoinsds ws [32]) = Some args.
Proof. apply words_split. Qed.

Lemma splitargs_reads_words_witness :
  sdssplitargs (sdsjoinsds [bs "set"; sdscatrepr [] [0; 34; 255]] [32]) = Some [bs "set"; [0; 34; 255]].
Proof.
  apply (splitargs_reads_words [bs "set"; [0; 34; 255]]). constructor.
  - apply written_plain; [discriminate|reflexivity|]. intros I. vm_compute in I. intuition discriminate.
  - constructor; [|constructor]. apply written_quoted. repeat constructor; vm_compute; congruence.
Defined.
