(* ===== verification/AofManifest.v ===== *)
(** The manifest of the append-only file (src/src/aof.c): its format and its
    loader, and the operations that change it together with the copy on disk.

    The disk is the content of the manifest file, if there is one; the outcome
    of each I/O operation is an argument. File names are relative to the
    directory of the append-only files. *)

From stdpp Require Import base list numbers strings relations.
From Stdlib Require Import Sorted.
From coqutil Require Import Datatypes.RecordSetters.
From S2P Require Import Prelude Numbers Sds Args.
Import TriangleBracketNotations.

Local Open Scope Z_scope.

Definition AOF_FILE_TYPE_BASE : Z := 98.
Definition AOF_FILE_TYPE_HIST : Z := 104.
Definition AOF_FILE_TYPE_INCR : Z := 105.

Record aofInfo : Type := {
  file_name : list Z;
  file_seq : Z;
  file_type : Z;
  start_offset : Z;
  end_offset : Z
}.

Record aofManifest : Type := {
  base_aof_info : option aofInfo;
  incr_aof_list : list aofInfo;
  history_aof_list : list aofInfo;
  curr_base_file_seq : Z;
  curr_incr_file_seq : Z;
  dirty : bool
}.

(** A name that is not set yet is NULL in the code; the loader tracks it. *)
Definition aofInfoCreate : aofInfo :=
  {| file_name := []; file_seq := 0; file_type := 0; start_offset := -1; end_offset := -1 |}.

Definition aofManifestCreate : aofManifest :=
  {| base_aof_info := None; incr_aof_list := []; history_aof_list := [];
     curr_base_file_seq := 0; curr_incr_file_seq := 0; dirty := false |}.

(** ** Format *)

Definition aofInfoFormat (buf : list Z) (ai : aofInfo) : list Z :=
  let name := if sdsneedsrepr (file_name ai) then sdscatrepr [] (file_name ai) else cstr (file_name ai) in
  let ret := buf ++ bs "file " ++ name ++ bs " seq " ++ sdec (file_seq ai) ++ bs " type " ++ [file_type ai] in
  let ret :=
    if negb (start_offset ai =? -1) then
      let ret := ret ++ bs " startoffset " ++ sdec (start_offset ai) in
      if negb (end_offset ai =? -1) then ret ++ bs " endoffset " ++ sdec (end_offset ai) else ret
    else ret in
  ret ++ [LF].

Definition appendAofInfoFromList (buf : list Z) (l : list aofInfo) : list Z := foldl aofInfoFormat buf l.

Definition getAofManifestAsString (am : aofManifest) : list Z :=
  let buf := match base_aof_info am with Some ai => aofInfoFormat [] ai | None => [] end in
  appendAofInfoFromList (appendAofInfoFromList buf (history_aof_list am)) (incr_aof_list am).

(** ** Loader *)

Definition MANIFEST_MAX_LINE : nat := 1024.

(** The bytes [fgets] reads, at most [n] and up to a newline, and the rest. *)
Fixpoint fgets (n : nat) (data : list Z) : list Z * list Z :=
  match n, data with
  | S n, c :: data =>
      if c =? LF then ([c], data) else let '(l, rest) := fgets n data in (c :: l, rest)
  | _, _ => ([], data)
  end.

(** [atoll]: blanks, a sign and digits, clamped to the range. *)
Fixpoint digits_value (s : list Z) (acc : Z) : Z :=
  match s with
  | c :: s => if (48 <=? c) && (c <=? 57) then digits_value s (acc * 10 + (c - 48)) else acc
  | [] => acc
  end.

Definition clamp (z : Z) : Z := Z.max LLONG_MIN (Z.min LLONG_MAX z).

Definition atoll (s : list Z) : Z :=
  match skip_blanks (cstr s) with
  | c :: s =>
      if c =? 45 then clamp (- digits_value s 0)
      else if c =? 43 then clamp (digits_value s 0)
      else clamp (digits_value (c :: s) 0)
  | [] => 0
  end.

Definition pathIsBaseName (path : list Z) : bool :=
  negb (existsb (Z.eqb 47) (cstr path)) && negb (existsb (Z.eqb 92) (cstr path)).

Inductive load_error : Type :=
| EmptyManifest | TooLongLine | InvalidFormat | NameIsPath | DuplicateBase | NonMonotonic | UnknownType.

(** The keys and values of a line: the information so far and whether it has a
    name. The number of arguments is even. *)
Fixpoint load_pairs (argv : list (list Z)) (ai : aofInfo) (named : bool) : load_error + (aofInfo * bool) :=
  match argv with
  | k :: v :: argv =>
      if strcaseeq k (bs "file") then
        if negb (pathIsBaseName (cstr v)) then inl NameIsPath else load_pairs argv (ai<| file_name := cstr v |>) true
      else if strcaseeq k (bs "seq") then load_pairs argv (ai<| file_seq := atoll v |>) named
      else if strcaseeq k (bs "type") then load_pairs argv (ai<| file_type := hd 0 (cstr v) |>) named
      else if strcaseeq k (bs "startoffset") then load_pairs argv (ai<| start_offset := atoll v |>) named
      else if strcaseeq k (bs "endoffset") then load_pairs argv (ai<| end_offset := atoll v |>) named
      else load_pairs argv ai named
  | _ => inr (ai, named)
  end.

Definition load_info (am : aofManifest) (maxseq : Z) (ai : aofInfo) : load_error + (aofManifest * Z) :=
  if file_type ai =? AOF_FILE_TYPE_BASE then
    match base_aof_info am with
    | Some _ => inl DuplicateBase
    | None => inr (am<| base_aof_info := Some ai |><| curr_base_file_seq := file_seq ai |>, maxseq)
    end
  else if file_type ai =? AOF_FILE_TYPE_HIST then inr (am<| history_aof_list ::= fun l => l ++ [ai] |>, maxseq)
  else if file_type ai =? AOF_FILE_TYPE_INCR then
    if file_seq ai <=? maxseq then inl NonMonotonic
    else inr (am<| incr_aof_list ::= fun l => l ++ [ai] |><| curr_incr_file_seq := file_seq ai |>, file_seq ai)
  else inl UnknownType.

(** A line that is not a comment. *)
Definition load_line (am : aofManifest) (maxseq : Z) (buf : list Z) : load_error + (aofManifest * Z) :=
  match strchr LF buf with
  | None => inl TooLongLine
  | Some _ =>
      let line := sdstrim (cstr buf) [32; 9; CR; LF] in
      if zlen line =? 0 then inl InvalidFormat
      else
        match sdssplitargs line with
        | None => inl InvalidFormat
        | Some argv =>
            if (zlen argv <? 6) || negb (zlen argv mod 2 =? 0) then inl InvalidFormat
            else
              match load_pairs argv aofInfoCreate false with
              | inl e => inl e
              | inr (ai, named) =>
                  if negb named || (file_seq ai =? 0) || (file_type ai =? 0) then inl InvalidFormat
                  else load_info am maxseq ai
              end
        end
  end.

(** Every line has a byte, so the length of the file is enough. *)
Fixpoint load_lines (fuel : nat) (am : aofManifest) (maxseq linenum : Z) (data : list Z)
    : load_error + aofManifest :=
  match data, fuel with
  | [], _ | _, O => if linenum =? 0 then inl EmptyManifest else inr am
  | _, S fuel =>
      let '(buf, rest) := fgets MANIFEST_MAX_LINE data in
      if hd 0 buf =? 35 then load_lines fuel am maxseq (linenum + 1) rest
      else
        match load_line am maxseq buf with
        | inl e => inl e
        | inr (am, maxseq) => load_lines fuel am maxseq (linenum + 1) rest
        end
  end.

(** An error is the end of the process. *)
Definition aofLoadManifestFromFile (data : list Z) : load_error + aofManifest :=
  load_lines (length data) aofManifestCreate 0 0 data.

(** ** Changing a manifest *)

(** The settings: [server.aof_filename], [aof_use_rdb_preamble],
    [aof_disable_auto_gc]. *)
Record aof_config : Type := {
  aof_filename : list Z;
  aof_use_rdb_preamble : bool;
  aof_disable_auto_gc : bool
}.

Section Changes.
Context (cfg : aof_config).

Definition isValidAOFfilename (val : list Z) : bool :=
  negb (bool_decide (cstr val = [])) && pathIsBaseName val.

Definition base_file_name (seq : Z) : list Z :=
  cstr (aof_filename cfg) ++ bs "." ++ sdec seq ++ bs ".base" ++
  (if aof_use_rdb_preamble cfg then bs ".rdb" else bs ".aof").

Definition incr_file_name (seq : Z) : list Z :=
  cstr (aof_filename cfg) ++ bs "." ++ sdec seq ++ bs ".incr" ++ bs ".aof".

(** The name of the new file is that of the new base. [None] is the failed
    assertion on the type of the old one. *)
Definition getNewBaseFileNameAndMarkPreAsHistory (am : aofManifest) : option aofManifest :=
  am ← match base_aof_info am with
       | Some ai =>
           if negb (file_type ai =? AOF_FILE_TYPE_BASE) then None
           else Some (am<| history_aof_list ::= cons (ai<| file_type := AOF_FILE_TYPE_HIST |>) |>)
       | None => Some am
       end;
  let am := am<| curr_base_file_seq ::= fun n => i64 (n + 1) |> in
  let ai := aofInfoCreate<| file_name := base_file_name (curr_base_file_seq am) |>
              <| file_seq := curr_base_file_seq am |><| file_type := AOF_FILE_TYPE_BASE |> in
  Some (am<| base_aof_info := Some ai |><| dirty := true |>).

Definition getNewIncrAofName (am : aofManifest) (start_reploff : Z) : list Z * aofManifest :=
  let am := am<| curr_incr_file_seq ::= fun n => i64 (n + 1) |> in
  let ai := aofInfoCreate<| file_type := AOF_FILE_TYPE_INCR |><| file_name := incr_file_name (curr_incr_file_seq am) |>
              <| file_seq := curr_incr_file_seq am |><| start_offset := start_reploff |> in
  (file_name ai, am<| incr_aof_list ::= fun l => l ++ [ai] |><| dirty := true |>).

Definition getLastIncrAofName (am : aofManifest) (master_repl_offset : Z) : list Z * aofManifest :=
  match last (incr_aof_list am) with
  | None => getNewIncrAofName am master_repl_offset
  | Some ai => (file_name ai, am)
  end.

(** The loop from the tail, which may skip the file being written. *)
Fixpoint move_to_history (l : list aofInfo) (history : list aofInfo) : option (list aofInfo) :=
  match l with
  | [] => Some history
  | ai :: l =>
      if negb (file_type ai =? AOF_FILE_TYPE_INCR) then None
      else move_to_history l (ai<| file_type := AOF_FILE_TYPE_HIST |> :: history)
  end.

Definition markRewrittenIncrAofAsHistory (aof_fd_open : bool) (am : aofManifest) : option aofManifest :=
  match rev (incr_aof_list am) with
  | [] => Some am
  | (last :: _) as l =>
      let '(kept, moved) := if aof_fd_open then ([last], tail l) else ([], l) in
      h ← move_to_history moved (history_aof_list am);
      Some (am<| history_aof_list := h |><| incr_aof_list := kept |><| dirty := true |>)
  end.

(** ** The manifest and the disk *)

Inductive state : Type := AOF_OFF | AOF_ON | AOF_WAIT_REWRITE.

Record aof : Type := {
  aof_manifest : aofManifest;
  aof_state : state;
  aof_fd : bool;
  temp_start : Z;
  (** the content of the manifest file *)
  disk : option (list Z);
  (** the append-only files there are, and the one the server appends to *)
  files : list (list Z);
  writing : option (list Z)
}.

Definition create (name : list Z) (st : aof) : aof := st<| files ::= cons name |>.
Definition bg_unlink (name : list Z) (st : aof) : aof :=
  st<| files ::= List.filter (fun f => negb (bool_decide (f = name))) |>.

(** What writing the temporary file, renaming it over the manifest and syncing
    the directory come to: an error may be seen after the rename. *)
Inductive write_result : Type := WOk | WErr (renamed : bool).

Definition writeAofManifestFile (r : write_result) (buf : list Z) (st : aof) : bool * aof :=
  match r with
  | WOk => (true, st<| disk := Some buf |>)
  | WErr renamed => (false, if renamed then st<| disk := Some buf |> else st)
  end.

Definition persistAofManifest (r : write_result) (am : aofManifest) (st : aof) : bool * aofManifest * aof :=
  if negb (dirty am) then (true, am, st)
  else
    let '(ret, st) := writeAofManifestFile r (getAofManifestAsString am) st in
    (ret, if ret then am<| dirty := false |> else am, st).

Definition base_name (am : aofManifest) : list Z :=
  match base_aof_info am with Some ai => file_name ai | None => [] end.

(** The manifest of the server itself. *)
Definition persist (r : write_result) (st : aof) : bool * aof :=
  let '(ret, am, st) := persistAofManifest r (aof_manifest st) st in (ret, st<| aof_manifest := am |>).

(** At the start of the server; [None] is the end of the process. *)
Definition aofLoadManifestFromDisk (st : aof) : option aof :=
  match disk st with
  | None => Some (st<| aof_manifest := aofManifestCreate |>)
  | Some data =>
      match aofLoadManifestFromFile data with
      | inr am => Some (st<| aof_manifest := am |>)
      | inl _ => None
      end
  end.

(** An empty dataset gets a base file. *)
Definition base_on_start (st : aof) : option aof :=
  match base_aof_info (aof_manifest st), incr_aof_list (aof_manifest st) with
  | None, [] =>
      am ← getNewBaseFileNameAndMarkPreAsHistory (aof_manifest st);
      Some (create (base_name am) (st<| aof_manifest := am |>))
  | _, _ => Some st
  end.

(** [None] where the server ends: a file that cannot be opened or a manifest that cannot
    be written. *)
Definition aofOpenIfNeededOnServerStart (opened : bool) (r : write_result) (offset : Z) (st : aof) : option aof :=
  match aof_state st with
  | AOF_ON =>
      st ← base_on_start st;
      let '(name, am) := getLastIncrAofName (aof_manifest st) offset in
      if negb opened then None
      else
        let '(ret, st) := persist r (create name (st<| aof_manifest := am |><| aof_fd := true |><| writing := Some name |>)) in
        if ret then Some st else None
  | _ => Some st
  end.

(** At the start of a rewrite. *)
Definition openNewIncrAofForAppend (opened : bool) (r : write_result) (offset : Z) (st : aof) : bool * aof :=
  match aof_state st with
  | AOF_OFF => (true, st)
  | AOF_WAIT_REWRITE =>
      let st := st<| temp_start := offset |> in
      if opened then (true, st<| aof_fd := true |>) else (false, st)
  | AOF_ON =>
      let '(name, temp_am) := getNewIncrAofName (aof_manifest st) offset in
      if negb opened then (false, st)
      else
        let '(ret, temp_am, st) := persistAofManifest r temp_am (create name st) in
        if negb ret then (false, st)
        else (true, st<| aof_fd := true |><| aof_manifest := temp_am |><| writing := Some name |>)
  end.

Definition aofDelHistoryFiles (r : write_result) (st : aof) : aof :=
  let am := aof_manifest st in
  if aof_disable_auto_gc cfg || (zlen (history_aof_list am) =? 0) then st
  else
    let st := (foldl (fun st ai => bg_unlink (file_name ai) st) st (history_aof_list am))
                <| aof_manifest := am<| history_aof_list := [] |><| dirty := true |> |> in
    snd (persist r st).

(** The end of a rewrite whose child succeeded: [base_ok] and [incr_ok] are the
    two renames. *)
Definition backgroundRewriteDoneHandler (base_ok incr_ok : bool) (r r' : write_result) (st : aof) : option aof :=
  temp_am ← getNewBaseFileNameAndMarkPreAsHistory (aof_manifest st);
  let base := base_name temp_am in
  if negb base_ok then Some st
  else
    let st := create base st in
    let '(incr, temp_am) :=
      match aof_state st with
      | AOF_WAIT_REWRITE => let '(name, am) := getNewIncrAofName temp_am (temp_start st) in (Some name, am)
      | _ => (None, temp_am)
      end in
    if match incr with Some _ => negb incr_ok | None => false end then Some (bg_unlink base st)
    else
      let st := match incr with Some name => create name st | None => st end in
      temp_am ← markRewrittenIncrAofAsHistory (aof_fd st) temp_am;
      let '(ret, temp_am, st) := persistAofManifest r temp_am st in
      if negb ret then
        let st := bg_unlink base st in
        Some (match incr with Some name => bg_unlink name st | None => st end)
      else
        let st := aofDelHistoryFiles r' (st<| aof_manifest := temp_am |>) in
        Some (match incr with Some _ => st<| aof_state := AOF_ON |><| writing := incr |> | None => st end).

(** Closing the file at the end of the server or of append-only mode. *)
Definition updateCurIncrAofEndOffset (r : write_result) (offset : Z) (st : aof) : aof :=
  match aof_state st, rev (incr_aof_list (aof_manifest st)) with
  | AOF_ON, ai :: l =>
      let am := (aof_manifest st)<| incr_aof_list := rev l ++ [ai<| end_offset := offset |>] |><| dirty := true |> in
      snd (persist r (st<| aof_manifest := am |>))
  | _, _ => st
  end.

(** After the data is loaded: the offset of the replication stream, which the
    last file gives with its end or with its start and [size], its size. *)
Definition updateReplOffsetAndResetEndOffset (r : write_result) (size offset : Z) (st : aof) : option (Z * aof) :=
  match aof_state st, rev (incr_aof_list (aof_manifest st)) with
  | AOF_ON, ai :: l =>
      if negb (end_offset ai =? -1) then
        let am := (aof_manifest st)<| incr_aof_list := rev l ++ [ai<| end_offset := -1 |>] |><| dirty := true |> in
        let '(ret, st) := persist r (st<| aof_manifest := am |>) in
        if ret then Some (end_offset ai, st) else None
      else Some ((if start_offset ai =? -1 then 0 else start_offset ai) + size, st)
  | _, _ => Some (offset, st)
  end.

Definition stopAppendOnly (r : write_result) (offset : Z) (st : aof) : option aof :=
  match aof_state st with
  | AOF_OFF => None
  | _ =>
      let st := updateCurIncrAofEndOffset r offset st in
      Some (st<| aof_fd := false |><| aof_state := AOF_OFF |><| writing := None |>)
  end.

(** Starting a rewrite: the file for new commands, then the child. *)
Definition rewriteAppendOnlyFileBackground (opened forked : bool) (r : write_result) (offset : Z) (st : aof) : bool * aof :=
  let '(ok, st) := openNewIncrAofForAppend opened r offset st in
  if negb ok then (false, st) else (forked, st).

(** [scheduled]: another child is active or a transaction runs. *)
Definition startAppendOnly (scheduled opened forked : bool) (r : write_result) (offset : Z) (st : aof)
    : option (bool * aof) :=
  match aof_state st with
  | AOF_OFF =>
      let st := st<| aof_state := AOF_WAIT_REWRITE |> in
      if scheduled then Some (true, st)
      else
        let '(ok, st) := rewriteAppendOnlyFileBackground opened forked r offset st in
        Some (if ok then (true, st) else (false, st<| aof_state := AOF_OFF |>))
  | _ => None
  end.
End Changes.

(** ** Lines *)

Definition name_word (n : list Z) : list Z := if sdsneedsrepr n then sdscatrepr [] n else cstr n.

(** A name the manifest can hold: the bound leaves room for the other fields
    of a line. *)
Record name_ok (n : list Z) : Prop := {
  name_nonempty : n <> [];
  name_bytes : is_bytes n;
  name_nonzero : Forall (fun c => c <> 0) n;
  name_base : pathIsBaseName n = true;
  name_quote : In SQUOTE n -> sdsneedsrepr n = true;
  name_short : zlen (name_word n) <= 850
}.

Record info_ok (ty : Z) (ai : aofInfo) : Prop := {
  info_name : name_ok (file_name ai);
  info_type : file_type ai = ty;
  info_seq : 0 < file_seq ai /\ is_i64 (file_seq ai);
  info_start : is_i64 (start_offset ai);
  info_end : is_i64 (end_offset ai)
}.

Definition offsets (ai : aofInfo) : list (list Z) :=
  if start_offset ai =? -1 then []
  else [bs "startoffset"; sdec (start_offset ai)] ++
       (if end_offset ai =? -1 then [] else [bs "endoffset"; sdec (end_offset ai)]).

Definition info_args (ai : aofInfo) (name : list Z) : list (list Z) :=
  [bs "file"; name; bs "seq"; sdec (file_seq ai); bs "type"; [file_type ai]] ++ offsets ai.

Lemma format_words buf ai :
  aofInfoFormat buf ai = buf ++ sdsjoinsds (info_args ai (name_word (file_name ai))) [32] ++ [LF].
Proof.
  unfold aofInfoFormat, info_args, offsets. fold (name_word (file_name ai)). simpl.
  destruct (start_offset ai =? -1); [|destruct (end_offset ai =? -1)]; simpl;
    repeat (rewrite <- app_assoc; simpl); done.
Qed.

Lemma digits_value_val s acc : Forall is_digit s -> digits_value s acc = val_dec acc s.
Proof.
  intros H. revert acc. induction H as [|c s Hc _ IH]; intros acc; [done|]. unfold is_digit in Hc. simpl. zdec.
  by rewrite IH.
Qed.

Lemma sdec_shape v : is_i64 v ->
  Forall plain_char (sdec v) /\ ~ In SQUOTE (sdec v) /\ sdec v <> [] /\ Forall (fun c => c <> 0) (sdec v).
Proof.
  intros Hv. unfold is_i64 in Hv.
  assert (forall u, 0 <= u -> Forall is_digit (dec u)) as D by apply dec_digits.
  assert (exists sg l, sdec v = sg ++ l /\ (sg = [] \/ sg = [45]) /\ Forall is_digit l /\ l <> []) as (sg & l & -> & S & L & N).
  { unfold sdec. destruct (Z.ltb_spec v 0);
      [exists [45], (dec (- v))|exists [], (dec v)]; (split_and!; auto with lia; try (apply D; lia); apply dec_nonempty; lia). }
  assert (Forall (fun c => plain_char c /\ c <> SQUOTE /\ c <> 0) (sg ++ l)) as F.
  { apply Forall_app. split.
    - destruct S as [->| ->]; repeat constructor; try done.
    - eapply Forall_impl; [exact L|]. intros c Hc. unfold is_digit in Hc.
      unfold plain_char, isprint, isspace, ESC, DQUOTE, SQUOTE. zdec. split_and!; (done || lia). }
  split_and!.
  - eapply Forall_impl; [exact F|]. by intros c (H & _).
  - intros I. rewrite List.Forall_forall in F. by destruct (F _ I) as (_ & H & _).
  - destruct sg, l; done.
  - eapply Forall_impl; [exact F|]. by intros c (_ & _ & H).
Qed.

Lemma sdec_written v : is_i64 v -> written (sdec v) (sdec v).
Proof. intros Hv. destruct (sdec_shape v Hv) as (P & Q & N & _). apply written_plain; [done| |done]. by apply sdsneedsrepr_plain. Qed.

Lemma clamp_id v : is_i64 v -> clamp v = v.
Proof. unfold is_i64, clamp, LLONG_MIN, LLONG_MAX. lia. Qed.

Lemma atoll_sdec v : is_i64 v -> atoll (sdec v) = v.
Proof.
  intros Hv. destruct (sdec_shape v Hv) as (P & _ & N & Z0). unfold atoll. rewrite cstr_id by done.
  assert (skip_blanks (sdec v) = sdec v) as ->.
  { destruct P as [|c s (_ & E & _)]; [done|]. simpl. by rewrite E. }
  unfold sdec in *. unfold is_i64 in Hv. destruct (Z.ltb_spec v 0).
  - change (45 =? 45) with true. cbn iota. rewrite digits_value_val, val_dec_dec by (try apply dec_digits; lia).
    rewrite Z.opp_involutive. by apply clamp_id.
  - pose proof (dec_digits v ltac:(lia)) as D. pose proof (digits_value_val (dec v) 0 D) as V.
    rewrite val_dec_dec in V by lia. destruct (dec v) as [|c s]; [done|]. apply Forall_cons in D as [D _].
    unfold is_digit in D. rewrite (proj2 (Z.eqb_neq c 45)), (proj2 (Z.eqb_neq c 43)) by lia. rewrite V. by apply clamp_id.
Qed.

Lemma name_written n : name_ok n -> written n (name_word n).
Proof.
  intros [N B Z0 _ Q _]. unfold name_word. destruct (sdsneedsrepr n) eqn:E; [exact (written_quoted n B)|].
  rewrite cstr_id by done. apply written_plain; [done|done|]. intros I. by specialize (Q I).
Qed.

Lemma literal_written s : s <> [] -> sdsneedsrepr s = false -> existsb (Z.eqb SQUOTE) s = false -> written s s.
Proof.
  intros N R Q. apply written_plain; [done|done|]. intros I. apply not_true_iff_false in Q. apply Q.
  apply existsb_exists. by exists SQUOTE.
Qed.

Definition known_type (ty : Z) : Prop := ty = AOF_FILE_TYPE_BASE \/ ty = AOF_FILE_TYPE_HIST \/ ty = AOF_FILE_TYPE_INCR.

Lemma type_written ty : known_type ty -> written [ty] [ty].
Proof. intros [->|[->| ->]]; by apply literal_written. Qed.

Lemma info_written ty ai : known_type ty -> info_ok ty ai ->
  Forall2 written (info_args ai (file_name ai)) (info_args ai (name_word (file_name ai))).
Proof.
  intros T [N <- [_ S] S1 S2]. unfold info_args, offsets.
  repeat case_match; cbn [app];
    repeat (constructor; [first [by apply name_written | by apply sdec_written | by apply type_written | by apply literal_written]|]);
    constructor.
Qed.

Lemma trim_line x c d :
  hd 0 x = c -> last x = Some d -> in_cset [32; 9; CR; LF] c = false -> in_cset [32; 9; CR; LF] d = false ->
  sdstrim (x ++ [LF]) [32; 9; CR; LF] = x.
Proof.
  intros H L C D. destruct x as [|c' x]; [done|]. simpl in H. subst c'. unfold sdstrim. cbn [app trim_left]. rewrite C.
  cbn [trim_right]. rewrite rev_app_distr. cbn [rev app trim_left]. change (in_cset _ LF) with true. cbn iota. f_equal.
  destruct x as [|y x _] using rev_ind; [done|]. rewrite app_comm_cons, last_snoc in L. injection L as ->.
  rewrite rev_app_distr. cbn [rev app trim_left]. rewrite D. cbn [rev]. by rewrite rev_involutive.
Qed.

Lemma plain_not_blank c : plain_char c -> in_cset [32; 9; CR; LF] c = false.
Proof.
  intros (P & S & _). unfold in_cset, isspace, isprint, CR, LF in *. simpl.
  rewrite andb_true_iff in P. rewrite orb_false_iff, andb_false_iff in S. zdec. done.
Qed.

(** The last word of a line is a number or the type, which end in no blank. *)
Lemma info_last ty ai name : known_type ty -> info_ok ty ai ->
  exists d, last (sdsjoinsds (info_args ai name) [32]) = Some d /\ in_cset [32; 9; CR; LF] d = false.
Proof.
  intros T I.
  assert (exists ws w, info_args ai name = ws ++ [w] /\ Forall plain_char w /\ w <> []) as (ws & w & -> & P & N).
  { destruct I as [_ E [_ S] S1 S2]. unfold info_args, offsets.
    destruct (start_offset ai =? -1); [|destruct (end_offset ai =? -1)].
    - exists [bs "file"; name; bs "seq"; sdec (file_seq ai); bs "type"], [file_type ai]. rewrite E.
      split_and!; [done| |done]. by destruct T as [->|[->| ->]]; repeat constructor.
    - exists [bs "file"; name; bs "seq"; sdec (file_seq ai); bs "type"; [file_type ai]; bs "startoffset"], (sdec (start_offset ai)).
      by destruct (sdec_shape _ S1) as (? & _ & ? & _).
    - exists [bs "file"; name; bs "seq"; sdec (file_seq ai); bs "type"; [file_type ai]; bs "startoffset"; sdec (start_offset ai);
              bs "endoffset"], (sdec (end_offset ai)).
      by destruct (sdec_shape _ S2) as (? & _ & ? & _). }
  destruct (join_last ws w [32]) as [pre ->]. destruct w as [|d w _] using rev_ind; [done|].
  exists d. rewrite app_assoc, last_snoc. split; [done|]. apply plain_not_blank.
  apply Forall_app in P as [_ P]. by apply Forall_cons in P as [P _].
Qed.

Lemma fgets_line n x rest :
  Forall (fun c => c <> LF) x -> (length x < n)%nat -> fgets n (x ++ LF :: rest) = (x ++ [LF], rest).
Proof.
  intros H. revert n. induction H as [|c x Hc _ IH]; intros [|n] L; simpl in L |- *; try lia; [done|].
  rewrite (proj2 (Z.eqb_neq c LF) Hc), IH by lia. done.
Qed.

(** The end of a file without a start is not written. *)
Definition norm (ai : aofInfo) : aofInfo := if start_offset ai =? -1 then ai<| end_offset := -1 |> else ai.

Ltac eval_keys :=
  repeat match goal with
  | |- context [strcaseeq ?a ?b] => let v := eval vm_compute in (strcaseeq a b) in replace (strcaseeq a b) with v by (vm_compute; reflexivity)
  end.

Lemma load_pairs_info ty ai : info_ok ty ai -> load_pairs (info_args ai (file_name ai)) aofInfoCreate false = inr (norm ai, true).
Proof.
  intros [[_ _ Z0 B _ _] _ [_ S] S1 S2]. unfold info_args, offsets, norm. destruct ai as [name seq ty' st en]. simpl in *.
  assert (cstr name = name) as C by by apply cstr_id.
  destruct (Z.eqb_spec st (-1)) as [->|]; [|destruct (Z.eqb_spec en (-1)) as [->|]]; cbn [app load_pairs]; eval_keys;
    cbn iota; rewrite !C, B, !atoll_sdec by done; cbn [negb hd cstr]; destruct (Z.eqb_spec ty' 0) as [->|]; reflexivity.
Qed.

Lemma join_length ws : zlen (sdsjoinsds ws [32]) <= zsum (map (fun w => 1 + zlen w) ws).
Proof.
  induction ws as [|w [|w' ws] IH]; [done|simpl; lia|]. rewrite join_cons, !zlen_app.
  change (zlen [32]) with 1. cbn [map] in *. unfold zsum in *. simpl in *. lia.
Qed.

Lemma args_length ai name : is_i64 (file_seq ai) -> is_i64 (start_offset ai) -> is_i64 (end_offset ai) ->
  zlen name <= 850 -> zlen (sdsjoinsds (info_args ai name) [32]) < 1024.
Proof.
  intros S S1 S2 N.
  eapply Z.le_lt_trans; [apply join_length|]. pose proof (sdec_length _ S). pose proof (sdec_length _ S1).
  pose proof (sdec_length _ S2). unfold info_args, offsets.
  repeat case_match; cbn [app map zsum fold_right];
    repeat match goal with |- context [zlen (bs ?s)] => let v := eval vm_compute in (zlen (bs s)) in change (zlen (bs s)) with v end;
    change (zlen [file_type ai]) with 1; lia.
Qed.

Lemma info_length ty ai : info_ok ty ai -> zlen (sdsjoinsds (info_args ai (name_word (file_name ai))) [32]) < 1024.
Proof. intros [[_ _ _ _ _ N] _ [_ S] S1 S2]. by apply args_length. Qed.

Lemma load_line_info ty ai am maxseq : known_type ty -> info_ok ty ai ->
  load_line am maxseq (sdsjoinsds (info_args ai (name_word (file_name ai))) [32] ++ [LF]) = load_info am maxseq (norm ai).
Proof.
  intros T I. pose proof (info_written ty ai T I) as W.
  set (x := sdsjoinsds (info_args ai (name_word (file_name ai))) [32]).
  assert (Forall (fun c => c <> 0 /\ c <> LF) x) as X by exact (written_all_text _ _ W).
  assert (Forall (fun c => c <> 0) x) as X0 by (eapply Forall_impl; [exact X|]; by intros c [? _]).
  assert (hd 0 x = 102) as Hd by reflexivity.
  destruct (info_last ty ai (name_word (file_name ai)) T I) as (d & L & D). fold x in L.
  unfold load_line. rewrite strchr_app by (eapply Forall_impl; [exact X|]; intros c [? ?]; auto).
  rewrite cstr_id by (apply Forall_app; split; [done|by repeat constructor]).
  rewrite (trim_line x 102 d) by done.
  assert (zlen x =? 0 = false) as -> by (destruct x; [done|]; rewrite zlen_cons; pose proof (zlen_nonneg x); zdec; done).
  subst x. rewrite (words_split _ _ W).
  assert ((zlen (info_args ai (file_name ai)) <? 6) || negb (zlen (info_args ai (file_name ai)) mod 2 =? 0) = false) as ->.
  { unfold info_args, offsets. repeat case_match; reflexivity. }
  rewrite (load_pairs_info ty ai I). destruct I as [_ E [S _] _ _].
  assert (file_seq (norm ai) = file_seq ai /\ file_type (norm ai) = file_type ai) as [-> ->] by (unfold norm; by case_match).
  rewrite E. zdec. destruct T as [->|[->| ->]]; reflexivity.
Qed.

(** ** Manifests *)

Definition line (ai : aofInfo) : list Z := sdsjoinsds (info_args ai (name_word (file_name ai))) [32] ++ [LF].

Definition infos (am : aofManifest) : list aofInfo :=
  match base_aof_info am with Some ai => [ai] | None => [] end ++ history_aof_list am ++ incr_aof_list am.

Lemma append_lines l buf : appendAofInfoFromList buf l = buf ++ concat (map line l).
Proof.
  revert buf. induction l as [|ai l IH]; intros buf; [by rewrite app_nil_r|].
  change (appendAofInfoFromList buf (ai :: l)) with (appendAofInfoFromList (aofInfoFormat buf ai) l).
  rewrite IH, format_words. fold (line ai). simpl. by rewrite <- app_assoc.
Qed.

Lemma manifest_lines am : getAofManifestAsString am = concat (map line (infos am)).
Proof.
  unfold getAofManifestAsString, infos. rewrite !append_lines, !map_app, !concat_app.
  destruct (base_aof_info am) as [ai|]; [|done]. rewrite format_words. simpl. by rewrite app_nil_r, <- app_assoc.
Qed.

Definition some_info (ai : aofInfo) : Prop := exists ty, known_type ty /\ info_ok ty ai.

Fixpoint load_infos (am : aofManifest) (maxseq : Z) (l : list aofInfo) : load_error + (aofManifest * Z) :=
  match l with
  | [] => inr (am, maxseq)
  | ai :: l => match load_info am maxseq (norm ai) with inl e => inl e | inr (am, maxseq) => load_infos am maxseq l end
  end.

Lemma load_lines_cons fuel am maxseq linenum x rest :
  Forall (fun c => c <> LF) x -> zlen x < 1024 -> hd 0 x = 102 ->
  load_lines (S fuel) am maxseq linenum (x ++ LF :: rest) =
    match load_line am maxseq (x ++ [LF]) with
    | inl e => inl e
    | inr (am, maxseq) => load_lines fuel am maxseq (linenum + 1) rest
    end.
Proof.
  intros X L H. destruct x as [|c x]; [done|]. simpl in H. subst c.
  pose proof (fgets_line MANIFEST_MAX_LINE (102 :: x) rest X ltac:(unfold zlen, MANIFEST_MAX_LINE in *; lia)) as G.
  cbn [load_lines app]. cbn [app] in G. rewrite G. done.
Qed.

Lemma load_lines_infos l : Forall some_info l -> forall fuel am maxseq linenum,
  (length (concat (map line l)) <= fuel)%nat -> 0 <= linenum -> (l <> [] \/ 0 < linenum) ->
  load_lines fuel am maxseq linenum (concat (map line l)) =
    match load_infos am maxseq l with inl e => inl e | inr (am, _) => inr am end.
Proof.
  induction 1 as [|ai l (ty & T & I) Hl IH]; intros fuel am maxseq linenum F N E.
  - destruct E as [|E]; [done|]. destruct fuel; simpl; zdec; done.
  - cbn [map concat] in *. rewrite length_app in F. unfold line at 1 in F. rewrite length_app in F. simpl in F.
    destruct fuel as [|fuel]; [lia|].
    assert (Forall (fun c => c <> LF) (sdsjoinsds (info_args ai (name_word (file_name ai))) [32])) as X.
    { eapply Forall_impl; [exact (written_all_text _ _ (info_written ty ai T I))|]. by intros c [_ ?]. }
    unfold line at 1. rewrite <- app_assoc. cbn [app].
    rewrite load_lines_cons; [|done|by eapply info_length|done]. rewrite (load_line_info ty ai am maxseq T I). cbn [load_infos].
    destruct (load_info am maxseq (norm ai)) as [e|[am' m']]; [done|]. apply IH; [lia|lia|right; lia].
Qed.

Record am_ok (am : aofManifest) : Prop := {
  ok_base : forall ai, base_aof_info am = Some ai -> info_ok AOF_FILE_TYPE_BASE ai /\ file_seq ai <= curr_base_file_seq am;
  ok_history : Forall (info_ok AOF_FILE_TYPE_HIST) (history_aof_list am);
  ok_incr : Forall (info_ok AOF_FILE_TYPE_INCR) (incr_aof_list am);
  ok_sorted : StronglySorted Z.lt (map file_seq (incr_aof_list am));
  ok_below : Forall (fun ai => file_seq ai <= curr_incr_file_seq am) (incr_aof_list am);
  ok_base_seq : 0 <= curr_base_file_seq am;
  ok_incr_seq : 0 <= curr_incr_file_seq am;
  ok_nonempty : history_aof_list am <> [] -> base_aof_info am <> None
}.

Definition last_seq (l : list aofInfo) (n : Z) : Z := match last l with Some ai => file_seq ai | None => n end.

(** What a manifest is after a round through the disk. *)
Definition reloaded (am : aofManifest) : aofManifest := {|
  base_aof_info := norm <$> base_aof_info am;
  incr_aof_list := map norm (incr_aof_list am);
  history_aof_list := map norm (history_aof_list am);
  curr_base_file_seq := match base_aof_info am with Some ai => file_seq ai | None => 0 end;
  curr_incr_file_seq := last_seq (incr_aof_list am) 0;
  dirty := false
|}.

Lemma norm_seq ai : file_seq (norm ai) = file_seq ai.
Proof. unfold norm. by case_match. Qed.
Lemma norm_type ai : file_type (norm ai) = file_type ai.
Proof. unfold norm. by case_match. Qed.
Lemma norm_name ai : file_name (norm ai) = file_name ai.
Proof. unfold norm. by case_match. Qed.

Lemma info_some ty l : known_type ty -> Forall (info_ok ty) l -> Forall some_info l.
Proof. intros T H. eapply Forall_impl; [exact H|]. intros ai I. by exists ty. Qed.

Lemma load_infos_app am m l k :
  load_infos am m (l ++ k) = match load_infos am m l with inl e => inl e | inr (am, m) => load_infos am m k end.
Proof.
  revert am m. induction l as [|ai l IH]; intros am m; simpl; [done|].
  by destruct (load_info am m (norm ai)) as [|[am' m']].
Qed.

Lemma load_history l am m : Forall (info_ok AOF_FILE_TYPE_HIST) l ->
  load_infos am m l = inr (am<| history_aof_list ::= fun h => h ++ map norm l |>, m).
Proof.
  intros H. revert am. induction H as [|ai l I _ IH]; intros am; simpl.
  - destruct am; cbn. by rewrite app_nil_r.
  - unfold load_info. rewrite norm_type, (info_type _ _ I). cbn. rewrite IH. destruct am; cbn. by rewrite <- app_assoc.
Qed.

Lemma last_seq_cons ai l n : last_seq (ai :: l) n = last_seq l (file_seq ai).
Proof. unfold last_seq. destruct l as [|b l _] using rev_ind; [done|]. by rewrite app_comm_cons, !last_snoc. Qed.

Lemma load_incr l am m : Forall (info_ok AOF_FILE_TYPE_INCR) l -> StronglySorted Z.lt (map file_seq l) ->
  Forall (fun ai => m < file_seq ai) l ->
  load_infos am m l = inr (am<| incr_aof_list ::= fun h => h ++ map norm l |>
                             <| curr_incr_file_seq ::= last_seq l |>, last_seq l m).
Proof.
  intros H. revert am m. induction H as [|ai l I Hl IH]; intros am m S B; simpl.
  - destruct am; cbn. by rewrite app_nil_r.
  - inversion S as [|? ? S' F]; subst. apply Forall_cons in B as [B _].
    unfold load_info. rewrite norm_type, norm_seq, (info_type _ _ I). cbn. zdec. cbn.
    rewrite IH; [|done|]. { destruct am; cbn. rewrite !last_seq_cons, <- app_assoc. done. }
    rewrite Forall_map in F. exact F.
Qed.

Lemma manifest_loads am : am_ok am -> infos am <> [] -> aofLoadManifestFromFile (getAofManifestAsString am) = inr (reloaded am).
Proof.
  intros [B H I S _ _ _ _] N. unfold aofLoadManifestFromFile. rewrite manifest_lines.
  rewrite load_lines_infos; [|unfold infos|lia|lia|by left].
  - unfold infos. rewrite load_infos_app.
    assert (load_infos aofManifestCreate 0 (match base_aof_info am with Some ai => [ai] | None => [] end) =
            inr (aofManifestCreate<| base_aof_info := norm <$> base_aof_info am |>
                  <| curr_base_file_seq := match base_aof_info am with Some ai => file_seq ai | None => 0 end |>, 0)) as ->.
    { destruct (base_aof_info am) as [ai|]; [|done]. simpl. unfold load_info.
      rewrite norm_type, norm_seq, (info_type _ _ (proj1 (B ai eq_refl))). done. }
    rewrite load_infos_app, load_history by done. rewrite load_incr; [by destruct am|done|done|].
    eapply Forall_impl; [exact I|]. by intros ai [_ _ [? _] _ _].
  - rewrite !Forall_app. split_and!; [|by apply info_some in H; [|right; left]|by apply info_some in I; [|right; right]].
    destruct (base_aof_info am) as [ai|]; [|constructor]. repeat constructor. exists AOF_FILE_TYPE_BASE.
    split; [by left|]. by apply B.
Qed.

(** ** The operations keep manifests loadable *)

Record filename_ok (cfg : aof_config) : Prop := {
  fn_valid : isValidAOFfilename (aof_filename cfg) = true;
  fn_bytes : is_bytes (aof_filename cfg);
  fn_nonzero : Forall (fun c => c <> 0) (aof_filename cfg);
  fn_quote : In SQUOTE (aof_filename cfg) -> sdsneedsrepr (aof_filename cfg) = true;
  fn_short : zlen (aof_filename cfg) <= 150
}.

Lemma repr_length s : zlen (concat (map repr_char s)) <= 4 * zlen s.
Proof.
  induction s as [|c s IH]; [done|]. simpl. rewrite zlen_app, zlen_cons.
  assert (zlen (repr_char c) <= 4); [|lia]. unfold repr_char. repeat case_match; by vm_compute.
Qed.

Lemma name_word_length s : zlen (name_word s) <= 4 * zlen s + 2.
Proof.
  unfold name_word, sdscatrepr. case_match.
  - rewrite !zlen_app. pose proof (repr_length s). change (zlen [DQUOTE]) with 1. rewrite zlen_nil. lia.
  - assert (zlen (cstr s) <= zlen s); [|pose proof (zlen_nonneg s); lia].
    induction s as [|c s IH]; simpl; [done|]. case_match; rewrite ?zlen_cons, ?zlen_nil; pose proof (zlen_nonneg s); [lia|].
    assert (sdsneedsrepr s = false); [|by specialize (IH ltac:(done)); lia]. simpl in H. by apply orb_false_iff in H as [_ ?].
Qed.

(** What the names are made of behind [server.aof_filename]. *)
Definition suffix_char (c : Z) : Prop := plain_char c /\ c <> SQUOTE /\ c <> 47 /\ is_u8 c /\ c <> 0.

Lemma path_app s t : Forall (fun c => c <> 0) (s ++ t) ->
  pathIsBaseName (s ++ t) = pathIsBaseName s && pathIsBaseName t.
Proof.
  intros H. unfold pathIsBaseName. rewrite (cstr_id (s ++ t)) by done. apply Forall_app in H as [Hs Ht].
  rewrite (cstr_id s), (cstr_id t) by done.
  rewrite !existsb_app. by do 4 destruct (existsb _ _).
Qed.

Lemma suffix_base t : Forall suffix_char t -> pathIsBaseName t = true.
Proof.
  intros H. unfold pathIsBaseName. rewrite cstr_id by (eapply Forall_impl; [exact H|]; unfold suffix_char; tauto).
  induction H as [|c t (P & _ & S & _ & _) _ IH]; [done|]. cbn [existsb].
  destruct P as (_ & _ & E & _). unfold ESC in E. rewrite (proj2 (Z.eqb_neq 47 c)), (proj2 (Z.eqb_neq 92 c)) by done. done.
Qed.

Lemma new_name_ok cfg t : filename_ok cfg -> Forall suffix_char t -> zlen t <= 30 -> name_ok (cstr (aof_filename cfg) ++ t).
Proof.
  intros [V B N Q S] T L. rewrite cstr_id by done.
  unfold isValidAOFfilename in V. rewrite andb_true_iff, negb_true_iff, bool_decide_eq_false, cstr_id in V by done.
  assert (Forall (fun c => c <> 0) (aof_filename cfg ++ t)) as N'.
  { apply Forall_app. split; [done|]. eapply Forall_impl; [exact T|]. by intros c (_ & _ & _ & _ & ?). }
  split; auto.
  - by destruct V as [V _], (aof_filename cfg).
  - apply Forall_app. split; [done|]. eapply Forall_impl; [exact T|]. by intros c (_ & _ & _ & ? & _).
  - rewrite path_app, (suffix_base t T) by done. by rewrite (proj2 V).
  - intros [I|I]%in_app_or.
    + unfold sdsneedsrepr in *. rewrite existsb_app, Q by done. done.
    + rewrite List.Forall_forall in T. by destruct (T _ I) as (_ & ? & _).
  - pose proof (name_word_length (aof_filename cfg ++ t)) as W. rewrite zlen_app in W. lia.
Qed.

Lemma digit_suffix c : is_digit c -> suffix_char c.
Proof.
  unfold is_digit. intros H. unfold suffix_char, plain_char, isprint, isspace, ESC, DQUOTE, SQUOTE, is_u8. zdec.
  split_and!; (done || lia).
Qed.

Lemma seq_suffix v a b : 0 <= v -> is_i64 v -> Forall suffix_char a -> Forall suffix_char b -> zlen a + zlen b <= 10 ->
  Forall suffix_char (a ++ sdec v ++ b) /\ zlen (a ++ sdec v ++ b) <= 30.
Proof.
  intros Hv I A B L. split.
  - rewrite !Forall_app. split_and!; auto. unfold sdec. zdec. eapply Forall_impl; [by apply dec_digits|]. apply digit_suffix.
  - rewrite !zlen_app. pose proof (sdec_length v I). lia.
Qed.

Lemma base_name_ok cfg v : filename_ok cfg -> 0 <= v -> is_i64 v -> name_ok (base_file_name cfg v).
Proof.
  intros F Hv I. unfold base_file_name.
  destruct (seq_suffix v (bs ".") (bs ".base" ++ (if aof_use_rdb_preamble cfg then bs ".rdb" else bs ".aof"))) as [S L];
    try done; [| |destruct (aof_use_rdb_preamble cfg); by vm_compute|by apply new_name_ok].
  - repeat constructor; by vm_compute.
  - destruct (aof_use_rdb_preamble cfg); repeat constructor; by vm_compute.
Qed.

Lemma incr_name_ok cfg v : filename_ok cfg -> 0 <= v -> is_i64 v -> name_ok (incr_file_name cfg v).
Proof.
  intros F Hv I. unfold incr_file_name.
  destruct (seq_suffix v (bs ".") (bs ".incr" ++ bs ".aof")) as [S L];
    try done; [| |by apply new_name_ok]; repeat constructor; by vm_compute.
Qed.

(** Evaluates updated fields. *)
Ltac fields := repeat (progress (cbn; try unfold constant)).

(** The sequence numbers have not reached their maximum. *)
Definition room (am : aofManifest) : Prop := curr_base_file_seq am < LLONG_MAX /\ curr_incr_file_seq am < LLONG_MAX.

Lemma next_seq n : 0 <= n < LLONG_MAX -> i64 (n + 1) = n + 1 /\ is_i64 (n + 1).
Proof. unfold LLONG_MAX. intros H. assert (is_i64 (n + 1)) by (unfold is_i64; lia). split; [by apply i64_small|done]. Qed.

Lemma retype_ok ty ty' ai : info_ok ty ai -> info_ok ty' (ai<| file_type := ty' |>).
Proof. intros [N _ S S1 S2]. by split. Qed.

Lemma new_base_ok cfg am : filename_ok cfg -> am_ok am -> room am ->
  exists am', getNewBaseFileNameAndMarkPreAsHistory cfg am = Some am' /\ am_ok am' /\ dirty am' = true /\
    base_aof_info am' <> None /\ curr_incr_file_seq am' = curr_incr_file_seq am /\
    incr_aof_list am' = incr_aof_list am.
Proof.
  destruct am as [b il hl cb ci di]. intros F [B H I S Bl B0 I0 N] [Rb _]. cbn in *. destruct (next_seq _ (conj B0 Rb)) as [E E64].
  unfold getNewBaseFileNameAndMarkPreAsHistory. cbn [base_aof_info].
  assert (forall n, n = cb + 1 -> info_ok AOF_FILE_TYPE_BASE
    (aofInfoCreate<| file_name := base_file_name cfg n |><| file_seq := n |><| file_type := AOF_FILE_TYPE_BASE |>)) as New.
  { intros n ->. split; fields; try done; [apply base_name_ok; (done || lia)|split; [lia|done]]. }
  destruct b as [ai|].
  - destruct (B ai eq_refl) as [J _]. rewrite (info_type _ _ J). eexists. split; [reflexivity|]. fields.
    split_and!; try done. split; fields; try done.
    + intros ? [= <-]. split; [by apply New|fields; lia].
    + constructor; [by eapply retype_ok|done].
    + rewrite E. lia.
  - eexists. split; [reflexivity|]. fields. split_and!; try done. split; fields; try done; [|rewrite E; lia].
    intros ? [= <-]. split; [by apply New|fields; lia].
Qed.

Lemma sorted_snoc l x : StronglySorted Z.lt l -> Forall (fun y => y < x) l -> StronglySorted Z.lt (l ++ [x]).
Proof.
  induction 1 as [|y l Hl IH F]; intros B; simpl; [repeat constructor|].
  apply Forall_cons in B as [B1 B2]. constructor; [by apply IH|]. apply Forall_app. by split; [|repeat constructor].
Qed.

Lemma new_incr_ok cfg am offset : filename_ok cfg -> am_ok am -> curr_incr_file_seq am < LLONG_MAX -> is_i64 offset ->
  let am' := snd (getNewIncrAofName cfg am offset) in
  am_ok am' /\ dirty am' = true /\ infos am' <> [] /\ base_aof_info am' = base_aof_info am.
Proof.
  destruct am as [b il hl cb ci di]. intros F [B H I S Bl B0 I0 N] Ri O am'. cbn in B, H, I, S, Bl, B0, I0, N, Ri. destruct (next_seq _ (conj I0 Ri)) as [E E64].
  unfold am', getNewIncrAofName. fields. rewrite E. split_and!; try done.
  - split; fields; try done; rewrite ?E.
    + apply Forall_app. split; [done|]. constructor; [|constructor].
      split; fields; try done; [apply incr_name_ok; (done || lia)|split; [lia|done]].
    + rewrite map_app. apply sorted_snoc; [done|]. rewrite Forall_map. fields. eapply Forall_impl; [exact Bl|]. fields. lia.
    + apply Forall_app. split; [|by repeat constructor]. eapply Forall_impl; [exact Bl|]. fields. lia.
    + lia.
  - unfold infos. fields. intros Hn. apply app_nil in Hn as [_ Hn]. apply app_nil in Hn as [_ Hn]. by apply app_nil in Hn as [_ ?].
Qed.

Lemma move_ok l h : Forall (info_ok AOF_FILE_TYPE_INCR) l -> Forall (info_ok AOF_FILE_TYPE_HIST) h ->
  exists h', move_to_history l h = Some h' /\ Forall (info_ok AOF_FILE_TYPE_HIST) h'.
Proof.
  intros H. revert h. induction H as [|ai l I _ IH]; intros h Hh; simpl; [by exists h|].
  rewrite (info_type _ _ I). apply IH. constructor; [by eapply retype_ok|done].
Qed.

Lemma mark_ok fd am : am_ok am -> base_aof_info am <> None ->
  exists am', markRewrittenIncrAofAsHistory fd am = Some am' /\ am_ok am' /\ base_aof_info am' = base_aof_info am /\
    (dirty am = true -> dirty am' = true).
Proof.
  destruct am as [b il hl cb ci di]. intros A N0. pose proof A as [B H I S Bl B0 I0 N]. cbn in *.
  unfold markRewrittenIncrAofAsHistory. cbn [incr_aof_list].
  destruct (rev il) as [|ai l] eqn:E; [by eexists|].
  assert (il = rev l ++ [ai]) as E' by (apply (f_equal (@rev _)) in E; by rewrite rev_involutive in E).
  assert (Forall (info_ok AOF_FILE_TYPE_INCR) (ai :: l)) as F.
  { rewrite <- E. by apply Forall_rev. }
  pose proof F as [Fa Fl]%Forall_cons. rewrite E' in Bl. apply Forall_app in Bl as [_ Bl].
  destruct fd; cbn [tail history_aof_list].
  - destruct (move_ok l hl Fl H) as (h & -> & Hh). eexists. split; [reflexivity|]. fields.
    split_and!; try done. split; fields; try done; [by constructor|by repeat constructor].
  - destruct (move_ok (ai :: l) hl F H) as (h & -> & Hh). eexists. split; [reflexivity|]. fields.
    split_and!; try done. split; fields; try done; constructor.
Qed.

Lemma set_end_ok am ai l offset : am_ok am -> rev (incr_aof_list am) = ai :: l -> is_i64 offset ->
  let am' := am<| incr_aof_list := rev l ++ [ai<| end_offset := offset |>] |><| dirty := true |> in
  am_ok am' /\ infos am' <> [].
Proof.
  destruct am as [b il hl cb ci di]. intros [B H I S Bl B0 I0 N] E O am'. cbn in B, H, I, S, Bl, B0, I0, N, E.
  assert (il = rev l ++ [ai]) as E' by (apply (f_equal (@rev _)) in E; by rewrite rev_involutive in E).
  rewrite E' in I, S, Bl. apply Forall_app in I as [I1 I2], Bl as [Bl1 Bl2].
  apply Forall_cons in I2 as [[J1 J2 J3 J4 J5] _], Bl2 as [Bl2 _]. split.
  - split; fields; try done.
    + apply Forall_app. split; [done|]. constructor; [by split; destruct ai|constructor].
    + rewrite map_app in *. by destruct ai.
    + apply Forall_app. split; [done|]. constructor; [by destruct ai|constructor].
  - unfold infos. fields. intros Hn. apply app_nil in Hn as [_ Hn]. apply app_nil in Hn as [_ Hn]. by apply app_nil in Hn as [_ ?].
Qed.

Lemma norm_ok ty ai : info_ok ty ai -> info_ok ty (norm ai).
Proof. intros [N T S S1 S2]. unfold norm. case_match; by split. Qed.

Lemma map_norm_ok ty l : Forall (info_ok ty) l -> Forall (info_ok ty) (map norm l).
Proof. intros H. apply Forall_map. eapply Forall_impl; [exact H|]. apply norm_ok. Qed.

Lemma map_norm_seq l : map file_seq (map norm l) = map file_seq l.
Proof. rewrite map_map. apply map_ext, norm_seq. Qed.

Lemma last_seq_max l n : StronglySorted Z.lt (map file_seq l) -> Forall (fun ai => file_seq ai <= last_seq l n) l.
Proof.
  revert n. induction l as [|ai l IH]; intros n S; [constructor|]. inversion S as [|? ? S' F]; subst.
  rewrite last_seq_cons. constructor; [|by apply IH]. unfold last_seq.
  destruct l as [|b l _] using rev_ind; [simpl; lia|]. rewrite last_snoc. rewrite map_app in F.
  apply Forall_app in F as [_ F]. apply Forall_cons in F as [F _]. cbn in F. lia.
Qed.

Lemma reloaded_ok am : am_ok am -> am_ok (reloaded am).
Proof.
  intros [B H I S Bl B0 I0 N]. split; fields.
  - intros ai E. destruct (base_aof_info am) as [b|]; [|done]. injection E as <-. rewrite norm_seq. destruct (B b eq_refl).
    split; [by apply norm_ok|lia].
  - by apply map_norm_ok.
  - by apply map_norm_ok.
  - by rewrite map_norm_seq.
  - apply Forall_map. fields. eapply Forall_impl; [by apply (last_seq_max _ 0)|]. intros ai. by rewrite norm_seq.
  - destruct (base_aof_info am) as [b|]; [|done]. by destruct (B b eq_refl) as [[_ _ [? _] _ _] _]; lia.
  - unfold last_seq. destruct (last (incr_aof_list am)) as [ai|] eqn:E; [|done]. apply last_Some in E as [l E].
    rewrite E in I. apply Forall_app in I as [_ I]. apply Forall_cons in I as [[_ _ [? _] _ _] _]. lia.
  - destruct (base_aof_info am); [done|]. intros Hn. by destruct (history_aof_list am); [|destruct N].
Qed.

(** ** The manifest on disk *)

Definition disk_ok (d : option (list Z)) : Prop :=
  d = None \/ exists am, am_ok am /\ infos am <> [] /\ d = Some (getAofManifestAsString am).

Record inv (st : aof) : Prop := {
  inv_manifest : am_ok (aof_manifest st);
  inv_disk : disk_ok (disk st);
  inv_temp : is_i64 (temp_start st)
}.

Lemma clean_ok am d : am_ok am -> am_ok (am<| dirty := d |>).
Proof. destruct am. by intros [B H I S Bl B0 I0 N]. Qed.

Lemma persist_ok r am st : am_ok am -> infos am <> [] -> disk_ok (disk st) ->
  exists ret am' d, persistAofManifest r am st = (ret, am', st<| disk := d |>) /\ am_ok am' /\ disk_ok d.
Proof.
  intros A N D. unfold persistAofManifest, writeAofManifestFile.
  assert (disk_ok (Some (getAofManifestAsString am))) as D' by (right; eauto).
  assert (st = st<| disk := disk st |>) as E by by destruct st.
  destruct (dirty am); cbn [negb]; [|exists true, am, (disk st); by rewrite <- E].
  destruct r as [|[]]; [exists true, (am<| dirty := false |>)|exists false, am|exists false, am];
    [exists (Some (getAofManifestAsString am))|exists (Some (getAofManifestAsString am))|exists (disk st)];
    rewrite <- ?E; split_and!; try done. by apply clean_ok.
Qed.

Lemma persist_inv r st : inv st -> infos (aof_manifest st) <> [] -> inv (snd (persist r st)).
Proof.
  intros [A D T] N. unfold persist. destruct (persist_ok r _ st A N D) as (ret & am' & d & -> & A' & D').
  destruct st. by split.
Qed.

Lemma unlink_fields l st : exists f, foldl (fun st ai => bg_unlink (file_name ai) st) st l = st<| files := f |>.
Proof.
  revert st. induction l as [|ai l IH]; intros st; [exists (files st); by destruct st|].
  destruct (IH (bg_unlink (file_name ai) st)) as [f E]. exists f. simpl. rewrite E. by destruct st.
Qed.

Lemma nonempty_base am : base_aof_info am <> None -> infos am <> [].
Proof. unfold infos. by destruct (base_aof_info am). Qed.

Lemma gc_inv cfg r st : inv st -> inv (aofDelHistoryFiles cfg r st).
Proof.
  intros I. pose proof I as [A D T]. unfold aofDelHistoryFiles.
  destruct (aof_disable_auto_gc cfg || (zlen (history_aof_list (aof_manifest st)) =? 0)) eqn:G; [done|].
  destruct (unlink_fields (history_aof_list (aof_manifest st)) st) as [f ->].
  apply orb_false_iff in G as [_ G]. pose proof A as [B H Ic S Bl B0 I0 N].
  apply persist_inv.
  - destruct st as [am state fd temp d fs w]. destruct am. split; [|done|done]. by split.
  - apply nonempty_base. destruct st as [am state fd temp d fs w]. destruct am. apply N. by intros E; cbn in *; rewrite E in G.
Qed.

Lemma load_inv st : inv st -> exists st', aofLoadManifestFromDisk st = Some st' /\ inv st'.
Proof.
  intros [A D T]. unfold aofLoadManifestFromDisk. destruct D as [E|(am & Am & N & E)]; rewrite E.
  - eexists. split; [reflexivity|]. destruct st. split; [|by left|done]. split; cbn; try done; constructor.
  - rewrite (manifest_loads am Am N). eexists. split; [reflexivity|].
    destruct st as [am0 state fd temp d fs w]. cbn in *. subst d. split; [by apply reloaded_ok|right; eauto|done].
Qed.

Lemma base_on_start_inv cfg st : filename_ok cfg -> inv st -> room (aof_manifest st) ->
  exists st', base_on_start cfg st = Some st' /\ inv st' /\ infos (aof_manifest st') <> [] /\
    curr_incr_file_seq (aof_manifest st') < LLONG_MAX.
Proof.
  intros F [A D T] R. pose proof R as [_ R2]. unfold base_on_start.
  destruct (base_aof_info (aof_manifest st)) as [b|] eqn:E; [exists st; split_and!; try done; apply nonempty_base; by rewrite E|].
  destruct (incr_aof_list (aof_manifest st)) as [|ai l] eqn:E'.
  - destruct (new_base_ok cfg _ F A R) as (am & -> & A' & _ & B & C & _). eexists. split; [reflexivity|].
    rewrite <- C in R2. destruct st. split_and!; [done|by apply nonempty_base|exact R2].
  - exists st. split_and!; try done. unfold infos. rewrite E, E'. by destruct (history_aof_list (aof_manifest st)).
Qed.

Lemma open_inv cfg opened r offset st st' : filename_ok cfg -> inv st -> room (aof_manifest st) -> is_i64 offset ->
  aofOpenIfNeededOnServerStart cfg opened r offset st = Some st' -> inv st'.
Proof.
  intros F I R O. unfold aofOpenIfNeededOnServerStart. destruct (aof_state st) eqn:S; [by intros [= <-]| |by intros [= <-]].
  destruct (base_on_start_inv cfg st F I R) as (st1 & -> & [A D T] & N & R1). cbn [mbind option_bind].
  assert (am_ok (snd (getLastIncrAofName cfg (aof_manifest st1) offset)) /\
          infos (snd (getLastIncrAofName cfg (aof_manifest st1) offset)) <> []) as [A1 N1].
  { unfold getLastIncrAofName. destruct (last _) as [ai|]; [done|].
    by destruct (new_incr_ok cfg _ offset F A R1 O) as (? & _ & ? & _). }
  destruct (getLastIncrAofName cfg (aof_manifest st1) offset) as [name am]. cbn [snd] in *.
  destruct opened; [cbn [negb]|done]. match goal with |- context [persist r ?s] => pose proof (persist_inv r s) as P end.
  destruct (persist r _) as [[] st2]; [|done]. intros [= <-]. destruct st1. cbn in *. apply P; [by split|done].
Qed.

Lemma end_inv r offset st : inv st -> is_i64 offset -> inv (updateCurIncrAofEndOffset r offset st).
Proof.
  intros [A D T] O. unfold updateCurIncrAofEndOffset. destruct (aof_state st); [done| |done].
  destruct (rev (incr_aof_list (aof_manifest st))) as [|ai l] eqn:E; [done|].
  destruct (set_end_ok _ ai l offset A E O) as [A' N']. apply persist_inv; [|done]. destruct st. by split.
Qed.

Lemma offset_inv r size offset st off st' : inv st ->
  updateReplOffsetAndResetEndOffset r size offset st = Some (off, st') -> inv st'.
Proof.
  intros I. pose proof I as [A D T]. unfold updateReplOffsetAndResetEndOffset.
  destruct (aof_state st); [by intros [= _ <-]| |by intros [= _ <-]].
  destruct (rev (incr_aof_list (aof_manifest st))) as [|ai l] eqn:E; [by intros [= _ <-]|].
  destruct (end_offset ai =? -1); cbn [negb]; [by intros [= _ <-]|].
  destruct (set_end_ok _ ai l (-1) A E ltac:(done)) as [A' N'].
  match goal with |- context [persist r ?s] => pose proof (persist_inv r s) as P end.
  destruct (persist r _) as [[] st2]; [|done]. intros [= _ <-]. apply P; [|done]. destruct st. by split.
Qed.

Lemma rewrite_inv cfg opened forked r offset st : filename_ok cfg -> inv st -> room (aof_manifest st) -> is_i64 offset ->
  inv (snd (rewriteAppendOnlyFileBackground cfg opened forked r offset st)).
Proof.
  intros F I [_ R] O. pose proof I as [A D T]. unfold rewriteAppendOnlyFileBackground.
  assert (inv (snd (openNewIncrAofForAppend cfg opened r offset st))) as H.
  { unfold openNewIncrAofForAppend. destruct (aof_state st); [done| |destruct opened; by destruct st].
    destruct (new_incr_ok cfg _ offset F A R O) as (A' & _ & N' & _).
    destruct (getNewIncrAofName cfg (aof_manifest st) offset) as [name am]. cbn [snd] in *.
    destruct opened; [cbn [negb]|done].
    destruct (persist_ok r am (create name st) A' N') as (ret & am' & d & -> & A'' & D'); [by destruct st|].
    destruct st, ret; by split. }
  destruct (openNewIncrAofForAppend cfg opened r offset st) as [[] st1]; done.
Qed.

Lemma files_inv f st : inv (st<| files := f |>) <-> inv st.
Proof. destruct st. split; intros [A D T]; by split. Qed.

Lemma done_inv cfg base_ok incr_ok r r' st st' : filename_ok cfg -> inv st -> room (aof_manifest st) ->
  backgroundRewriteDoneHandler cfg base_ok incr_ok r r' st = Some st' -> inv st'.
Proof.
  intros F [A D T] R. unfold backgroundRewriteDoneHandler.
  destruct (new_base_ok cfg _ F A R) as (am & -> & A1 & _ & B & C & _). cbn [mbind option_bind].
  destruct base_ok; [cbn [negb]|by intros [= <-]].
  set (p := match aof_state (create (base_name am) st) with AOF_OFF => _ | _ => _ end).
  assert (am_ok (snd p) /\ base_aof_info (snd p) <> None) as [A2 B2].
  { subst p. destruct (aof_state _); try done. destruct R as [_ R]. rewrite <- C in R.
    destruct (new_incr_ok cfg am (temp_start (create (base_name am) st)) F A1 R) as (A2 & _ & _ & B2); [by destruct st|].
    destruct (getNewIncrAofName cfg am _) as [name am2]. cbn [snd] in *. by rewrite B2. }
  destruct p as [incr am2]. cbn [snd] in *.
  match goal with |- context [if ?b then Some (bg_unlink ?x ?s) else _] => destruct b; [intros [= <-]; destruct st; by split|] end.
  set (st1 := match incr with Some name => create name _ | None => _ end).
  assert (inv st1) as I1 by (subst st1; destruct st, incr; by split).
  destruct (mark_ok (aof_fd st1) am2 A2 B2) as (am3 & -> & A3 & B3 & _). cbn [mbind option_bind].
  pose proof I1 as [_ D1 _]. rewrite <- B3 in B2.
  destruct (persist_ok r am3 st1 A3 (nonempty_base _ B2) D1) as (ret & am4 & d & -> & A4 & D4).
  destruct ret; cbn [negb].
  - assert (inv (aofDelHistoryFiles cfg r' (st1<| disk := d |><| aof_manifest := am4 |>))) as G.
    { apply gc_inv. destruct I1 as [_ _ T1]. destruct st1. by split. }
    intros [= <-]. destruct incr; [|done]. destruct (aofDelHistoryFiles _ _ _), G. by split.
  - assert (inv (st1<| disk := d |>)) as G by (destruct I1; destruct st1; by split).
    intros [= <-]. destruct (st1<| disk := d |>), incr; by destruct G.
Qed.

(** What may happen: a start of the server (after a crash or not) in its parts,
    rewrites, and switching the append-only file off and on. *)
Definition restarted (on : bool) (st : aof) : aof :=
  st<| aof_state := if on then AOF_ON else AOF_OFF |><| aof_fd := false |><| writing := None |>.

Inductive aof_step (cfg : aof_config) (st : aof) : aof -> Prop :=
| step_load on st' : aofLoadManifestFromDisk (restarted on st) = Some st' -> aof_step cfg st st'
| step_offset r size offset off st' :
    updateReplOffsetAndResetEndOffset r size offset st = Some (off, st') -> aof_step cfg st st'
| step_open opened r offset st' : room (aof_manifest st) -> is_i64 offset ->
    aofOpenIfNeededOnServerStart cfg opened r offset st = Some st' -> aof_step cfg st st'
| step_gc r : aof_step cfg st (aofDelHistoryFiles cfg r st)
| step_rewrite opened forked r offset : room (aof_manifest st) -> is_i64 offset ->
    aof_step cfg st (snd (rewriteAppendOnlyFileBackground cfg opened forked r offset st))
| step_done base_ok incr_ok r r' st' : room (aof_manifest st) ->
    backgroundRewriteDoneHandler cfg base_ok incr_ok r r' st = Some st' -> aof_step cfg st st'
| step_stop r offset st' : is_i64 offset -> stopAppendOnly r offset st = Some st' -> aof_step cfg st st'
| step_start scheduled opened forked r offset ok st' : room (aof_manifest st) -> is_i64 offset ->
    startAppendOnly cfg scheduled opened forked r offset st = Some (ok, st') -> aof_step cfg st st'.

Definition aof_init : aof :=
  {| aof_manifest := aofManifestCreate; aof_state := AOF_OFF; aof_fd := false; temp_start := 0; disk := None;
     files := []; writing := None |}.

Lemma init_inv : inv aof_init.
Proof. split; [|by left|done]. split; cbn; try done; constructor. Qed.

Lemma step_inv cfg st st' : filename_ok cfg -> inv st -> aof_step cfg st st' -> inv st'.
Proof.
  intros F I [].
  - destruct (load_inv (restarted on st)) as (st1 & E & I1); [by destruct st, I|]. by simplify_eq.
  - by eapply offset_inv.
  - by eapply open_inv.
  - by apply gc_inv.
  - by apply rewrite_inv.
  - by eapply done_inv.
  - unfold stopAppendOnly in *. pose proof (end_inv r offset st I ltac:(done)) as E.
    destruct (aof_state st); simplify_eq; destruct (updateCurIncrAofEndOffset _ _ _), E; by split.
  - unfold startAppendOnly in *. destruct (aof_state st); simplify_eq.
    assert (inv (st<| aof_state := AOF_WAIT_REWRITE |>)) as I' by (destruct st, I; by split).
    destruct scheduled; simplify_eq; [done|].
    pose proof (rewrite_inv cfg opened forked r offset _ F I' ltac:(by destruct st) ltac:(done)) as W.
    destruct (rewriteAppendOnlyFileBackground _ _ _ _ _ _) as [[] st1]; simplify_eq; [done|]. destruct st1, W. by split.
Qed.

Lemma reachable_inv cfg st : filename_ok cfg -> rtc (aof_step cfg) aof_init st -> inv st.
Proof.
  intros F R. remember aof_init as s0 eqn:E. assert (inv s0) as I by (rewrite E; apply init_inv). clear E.
  induction R as [|s0 s1 s2 S R IH]; [done|]. apply IH. by eapply step_inv.
Qed.

(** ** Names with an apostrophe *)

Lemma single_open p cur : ~ In SQUOTE p -> get_token InSingle p cur = None.
Proof.
  revert cur. induction p as [p IH] using (induction_ltof1 _ (@length Z)). intros cur N.
  destruct p as [|c p]; [done|]. simpl.
  assert (c <> SQUOTE) as Hc by (intros ->; apply N; by left).
  assert (~ In SQUOTE p) as Hp by (intros ?; apply N; by right).
  rewrite (proj2 (Z.eqb_neq c SQUOTE) Hc).
  assert (get_token InSingle p (cur ++ [c]) = None) as E by (apply IH; [unfold ltof; simpl; lia|done]).
  destruct (c =? ESC); [|done]. destruct p as [|x p]; [done|].
  rewrite (proj2 (Z.eqb_neq x SQUOTE)); [done|]. intros ->. apply Hp. by left.
Qed.

Lemma split_open_quote a t fuel : Forall plain_char a -> ~ In SQUOTE a -> ~ In SQUOTE t ->
  (2 <= fuel)%nat -> split_loop fuel (bs "file " ++ a ++ SQUOTE :: t) = None.
Proof.
  intros A Q T L. destruct fuel as [|[|fuel]]; [lia|lia|].
  assert (get_token Unquoted (a ++ SQUOTE :: t) [] = None) as G.
  { rewrite get_plain by done. simpl. by apply single_open. }
  assert (exists c x, a ++ SQUOTE :: t = c :: x /\ isspace c = false) as (c & x & E & S).
  { destruct A as [|c a (_ & S & _) _]; [by exists SQUOTE, t|by exists c, (a ++ SQUOTE :: t)]. }
  change (split_loop (Datatypes.S (Datatypes.S fuel)) (bs "file " ++ a ++ SQUOTE :: t)) with
    (rest ← split_loop (Datatypes.S fuel) (a ++ SQUOTE :: t); Some (bs "file" :: rest)).
  rewrite E in G |- *. cbn [split_loop skip_blanks]. rewrite S, G. done.
Qed.

Lemma suffix_plain t : Forall suffix_char t -> Forall plain_char t /\ ~ In SQUOTE t /\ Forall (fun c => c <> 0 /\ c <> LF) t.
Proof.
  intros H. split_and!.
  - eapply Forall_impl; [exact H|]. by intros c (? & _).
  - intros I. rewrite List.Forall_forall in H. by destruct (H _ I) as (_ & ? & _).
  - eapply Forall_impl; [exact H|]. intros c ((_ & S & _) & _ & _ & _ & Z0). split; [done|]. by intros ->.
Qed.

(** The fields behind the name hold no apostrophe, no NUL and no newline. *)
Lemma fields_text ai : known_type (file_type ai) -> is_i64 (file_seq ai) -> is_i64 (start_offset ai) -> is_i64 (end_offset ai) ->
  Forall (fun c => c <> SQUOTE /\ c <> 0 /\ c <> LF) (sdsjoinsds (tail (tail (info_args ai []))) [32]).
Proof.
  intros T S S1 S2. apply join_chars; [by repeat constructor|].
  assert (forall v, is_i64 v -> Forall (fun c => c <> SQUOTE /\ c <> 0 /\ c <> LF) (sdec v)) as D.
  { intros v V. destruct (sdec_shape v V) as (P & Q & _ & Z0). rewrite List.Forall_forall in *. intros c I.
    split_and!; [by intros ->|auto|]. intros ->. by destruct (P _ I) as (_ & ? & _). }
  unfold info_args, offsets.
  repeat case_match; cbn [app tail]; repeat (constructor; [first [by apply D | by repeat constructor | destruct T as [->|[->| ->]]; by repeat constructor]|]);
    constructor.
Qed.

Lemma quoted_text ai a t : known_type (file_type ai) -> is_i64 (file_seq ai) ->
  is_i64 (start_offset ai) -> is_i64 (end_offset ai) -> Forall suffix_char (a ++ t) ->
  exists rest, sdsjoinsds (info_args ai (a ++ SQUOTE :: t)) [32] = bs "file " ++ a ++ SQUOTE :: t ++ 32 :: rest /\
    ~ In SQUOTE (t ++ 32 :: rest) /\
    Forall (fun c => c <> 0 /\ c <> LF) (sdsjoinsds (info_args ai (a ++ SQUOTE :: t)) [32]).
Proof.
  intros T S S1 S2 P. apply Forall_app in P as [Pa Pt].
  destruct (suffix_plain a Pa) as (A1 & A2 & A3), (suffix_plain t Pt) as (_ & T2 & T3).
  pose proof (fields_text ai T S S1 S2) as F. set (rest := sdsjoinsds (tail (tail (info_args ai []))) [32]) in F.
  assert (sdsjoinsds (info_args ai (a ++ SQUOTE :: t)) [32] = bs "file " ++ a ++ SQUOTE :: t ++ 32 :: rest) as E.
  { change (bs "file " ++ (a ++ SQUOTE :: t) ++ 32 :: rest = bs "file " ++ a ++ SQUOTE :: t ++ 32 :: rest).
    by rewrite <- app_assoc. }
  exists rest. rewrite E. split_and!; [done| |].
  - intros [I|[I|I]]%in_app_or; [done|done|]. rewrite List.Forall_forall in F. by destruct (F _ I).
  - rewrite !Forall_app. split_and!; [by repeat constructor|done|]. constructor; [done|]. apply Forall_app.
    split; [done|]. constructor; [done|]. eapply Forall_impl; [exact F|]. by intros c (_ & ?).
Qed.

Lemma load_quoted_line am m ai a t : known_type (file_type ai) -> 0 < file_seq ai -> is_i64 (file_seq ai) ->
  is_i64 (start_offset ai) -> is_i64 (end_offset ai) -> Forall suffix_char (a ++ t) ->
  load_line am m (sdsjoinsds (info_args ai (a ++ SQUOTE :: t)) [32] ++ [LF]) = inl InvalidFormat.
Proof.
  intros T S0 S S1 S2 P. destruct (quoted_text ai a t T S S1 S2 P) as (rest & E & T2 & X).
  apply Forall_app in P as [Pa _]. destruct (suffix_plain a Pa) as (A1 & A2 & _). rewrite E in X.
  assert (Forall (fun c => c <> 0) (bs "file " ++ a ++ SQUOTE :: t ++ 32 :: rest)) as X0
    by (eapply Forall_impl; [exact X|]; by intros c [? _]).
  destruct (info_last (file_type ai) (ai<| file_name := bs "x" |>) (a ++ SQUOTE :: t) T) as (d & L & D).
  { destruct ai. split; try done. split; try done; [by repeat constructor|by repeat constructor|]. intros I. vm_compute in I. intuition discriminate. }
  replace (info_args (ai<| file_name := bs "x" |>) (a ++ SQUOTE :: t)) with (info_args ai (a ++ SQUOTE :: t)) in L by by destruct ai.
  rewrite E in L |- *. unfold load_line. rewrite strchr_app by (eapply Forall_impl; [exact X|]; intros c [? ?]; auto).
  rewrite cstr_id by (apply Forall_app; split; [done|by repeat constructor]).
  rewrite (trim_line _ 102 d) by done.
  assert (zlen (bs "file " ++ a ++ SQUOTE :: t ++ 32 :: rest) =? 0 = false) as -> by (rewrite zlen_app; pose proof (zlen_nonneg (a ++ SQUOTE :: t ++ 32 :: rest)); change (zlen (bs "file ")) with 5; zdec; done).
  unfold sdssplitargs. rewrite cstr_id by done. rewrite split_open_quote; [done|done|done|done|rewrite length_app; simpl; lia].
Qed.

(** ** Lemmas on the set of files *)

Lemma unlinked_gone n st : ~ In n (files (bg_unlink n st)).
Proof. destruct st. cbn. rewrite filter_In. intros [_ H]. by rewrite bool_decide_eq_true_2 in H. Qed.

Lemma unlink_subset n m st : In n (files (bg_unlink m st)) -> In n (files st).
Proof. destruct st. cbn. rewrite filter_In. by intros [? _]. Qed.

Lemma unlink_all_gone l st n : In n (map file_name l) ->
  ~ In n (files (foldl (fun st ai => bg_unlink (file_name ai) st) st l)).
Proof.
  assert (forall l st, In n (files (foldl (fun st ai => bg_unlink (file_name ai) st) st l)) -> In n (files st)) as Sub.
  { clear. induction l as [|ai l IH]; intros st; [done|]. simpl. intros H%IH. by eapply unlink_subset. }
  revert st. induction l as [|ai l IH]; intros st; [done|]. simpl. intros [<-|I]; [|by apply IH].
  intros H%Sub. by eapply unlinked_gone.
Qed.

Lemma persist_files r st : writing (snd (persist r st)) = writing st /\ files (snd (persist r st)) = files st.
Proof.
  unfold persist, persistAofManifest, writeAofManifestFile.
  destruct (dirty _), r as [|[]]; by destruct st.
Qed.

(** The history files are gone, and the file being written is still the same. *)
Lemma gc_files cfg r st n : aof_disable_auto_gc cfg = false -> In n (map file_name (history_aof_list (aof_manifest st))) ->
  writing (aofDelHistoryFiles cfg r st) = writing st /\ ~ In n (files (aofDelHistoryFiles cfg r st)).
Proof.
  intros G H. unfold aofDelHistoryFiles. rewrite G.
  destruct (zlen (history_aof_list (aof_manifest st)) =? 0) eqn:E.
  { by destruct (history_aof_list (aof_manifest st)). }
  cbn [orb]. pose proof (unlink_all_gone _ st n H) as U. destruct (unlink_fields (history_aof_list (aof_manifest st)) st) as [f Ef].
  rewrite Ef in *. match goal with |- context [persist r ?s] => destruct (persist_files r s) as [-> ->] end. by destruct st.
Qed.

Lemma gc_keeps cfg r st : aof_state (aofDelHistoryFiles cfg r st) = aof_state st /\
  incr_aof_list (aof_manifest (aofDelHistoryFiles cfg r st)) = incr_aof_list (aof_manifest st).
Proof.
  unfold aofDelHistoryFiles. destruct (_ || _); [done|].
  destruct (unlink_fields (history_aof_list (aof_manifest st)) st) as [f ->].
  unfold persist, persistAofManifest, writeAofManifestFile. destruct st as [[] ? ? ? ? ? ?], r as [|[]]; done.
Qed.

Lemma mark_kept fd am am' ai : last (incr_aof_list am) = Some ai -> markRewrittenIncrAofAsHistory fd am = Some am' ->
  incr_aof_list am' = if fd then [ai] else [].
Proof.
  intros [l E]%last_Some. unfold markRewrittenIncrAofAsHistory. rewrite E, rev_app_distr. cbn [rev app tail].
  destruct fd; (destruct (move_to_history _ _); [|done]); intros [= <-]; by destruct am.
Qed.

(** A rewrite while the append-only file is off keeps at most the last
    incremental file, if a file is open. *)
Lemma done_off cfg st ai r' st' : filename_ok cfg -> inv st -> room (aof_manifest st) -> aof_state st = AOF_OFF ->
  last (incr_aof_list (aof_manifest st)) = Some ai ->
  backgroundRewriteDoneHandler cfg true true WOk r' st = Some st' ->
  aof_state st' = AOF_OFF /\ incr_aof_list (aof_manifest st') = if aof_fd st then [ai] else [].
Proof.
  intros F [A D T] R S L. unfold backgroundRewriteDoneHandler.
  destruct (new_base_ok cfg _ F A R) as (am & -> & A1 & _ & B & _ & E). cbn [mbind option_bind negb].
  change (aof_state (create (base_name am) st)) with (aof_state st). rewrite S. cbn iota.
  change (aof_fd (create (base_name am) st)) with (aof_fd st). rewrite <- E in L.
  destruct (markRewrittenIncrAofAsHistory (aof_fd st) am) as [am2|] eqn:M; [|done]. cbn [mbind option_bind].
  apply (mark_kept _ _ _ _ L) in M. rewrite <- M.
  unfold persistAofManifest, writeAofManifestFile.
  destruct (dirty am2); cbn [negb]; intros [= <-];
    match goal with |- context [aofDelHistoryFiles cfg r' ?s] => destruct (gc_keeps cfg r' s) as [-> ->] end;
    by destruct st, am2.
Qed.

(** ** Properties *)

(** C23: the manifest on disk can always be loaded: whatever starts, crashes,
    rewrites, switches of the append-only file and failures of I/O there were,
    the disk holds no manifest yet or one that the loader reads without error,
    giving back the base, history and incremental files it was written from
    with their types, numbers and offsets. (The configured name has no
    apostrophe unless it is quoted for another reason and at most 150 bytes; no
    sequence number has reached its maximum.) *)
Theorem manifest_always_loads cfg st :
  filename_ok cfg -> rtc (aof_step cfg) aof_init st ->
  disk st = None \/
  exists am, disk st = Some (getAofManifestAsString am) /\
    aofLoadManifestFromFile (getAofManifestAsString am) = inr (reloaded am).
Proof.
  intros F R. destruct (reachable_inv cfg st F R) as [_ [D|(am & A & N & D)] _]; [by left|right].
  exists am. split; [done|by apply manifest_loads].
Qed.

Definition example_aof : aof_config :=
  {| aof_filename := bs "appendonly.aof"; aof_use_rdb_preamble := true; aof_disable_auto_gc := false |}.

Lemma example_filename_ok : filename_ok example_aof.
Proof.
  split; [reflexivity| | | |by vm_compute]; try (repeat constructor; vm_compute; congruence).
  intros I. vm_compute in I. intuition discriminate.
Qed.

(** A start with an empty dataset. *)
Definition first_start : aof :=
  default aof_init (st ← aofLoadManifestFromDisk (restarted true aof_init); aofOpenIfNeededOnServerStart example_aof true WOk 0 st).

Lemma first_start_reachable : rtc (aof_step example_aof) aof_init first_start.
Proof.
  eapply rtc_l; [apply (step_load _ _ true); reflexivity|]. eapply rtc_l; [|apply rtc_refl].
  apply (step_open _ _ true WOk 0); [split; vm_compute; reflexivity|split; vm_compute; congruence|vm_compute; reflexivity].
Qed.

Lemma manifest_always_loads_witness :
  disk first_start = None \/
  exists am, disk first_start = Some (getAofManifestAsString am) /\
    aofLoadManifestFromFile (getAofManifestAsString am) = inr (reloaded am).
Proof. apply (manifest_always_loads example_aof). - exact example_filename_ok. - exact first_start_reachable. Defined.

(** [sdsneedsrepr] does not see an apostrophe: with one in the configured
    name, which is accepted as a valid file name, the line of the base file is
    written without quotes, and a server that starts again finds the format of
    its own manifest invalid. *)
Theorem apostrophe_makes_manifest_invalid cfg a b am ai :
  aof_filename cfg = a ++ SQUOTE :: b -> Forall suffix_char (a ++ b) -> zlen (aof_filename cfg) <= 150 ->
  base_aof_info am = Some ai -> file_name ai = base_file_name cfg (file_seq ai) -> file_type ai = AOF_FILE_TYPE_BASE ->
  0 < file_seq ai -> is_i64 (file_seq ai) -> is_i64 (start_offset ai) -> is_i64 (end_offset ai) ->
  isValidAOFfilename (aof_filename cfg) = true /\
  aofLoadManifestFromFile (getAofManifestAsString am) = inl InvalidFormat.
Proof.
  intros E P L B N T S0 S S1 S2. apply Forall_app in P as [Pa Pb].
  destruct (suffix_plain a Pa) as (A1 & A2 & A3), (suffix_plain b Pb) as (B1 & B2 & B3).
  assert (Forall (fun c => c <> 0) (a ++ SQUOTE :: b)) as Z0.
  { apply Forall_app. split; [|constructor; [done|]]; (eapply Forall_impl; [eassumption|]); by intros c [? _]. }
  split.
  { unfold isValidAOFfilename. rewrite E, path_app by done. change (SQUOTE :: b) with ([SQUOTE] ++ b).
    apply Forall_app in Z0 as [_ Z0]. rewrite (path_app [SQUOTE] b), (suffix_base a), (suffix_base b) by done.
    rewrite bool_decide_eq_false_2; [done|]. rewrite cstr_id; [by destruct a|].
    apply Forall_app. split; [|done]. eapply Forall_impl; [exact A3|]. by intros c [? _]. }
  set (t := bs "." ++ sdec (file_seq ai) ++ bs ".base" ++ (if aof_use_rdb_preamble cfg then bs ".rdb" else bs ".aof")).
  assert (file_name ai = a ++ SQUOTE :: b ++ t) as N'.
  { rewrite N. unfold base_file_name. rewrite E, cstr_id by done. by rewrite <- app_assoc. }
  assert (Forall suffix_char t /\ zlen t <= 30) as [Pt Lt].
  { apply seq_suffix; [lia|done|repeat constructor; by vm_compute|destruct (aof_use_rdb_preamble cfg); repeat constructor; by vm_compute|
      destruct (aof_use_rdb_preamble cfg); by vm_compute]. }
  assert (name_word (file_name ai) = a ++ SQUOTE :: b ++ t) as W.
  { unfold name_word. rewrite N'. destruct (suffix_plain t Pt) as (C1 & _ & C3).
    assert (sdsneedsrepr (a ++ SQUOTE :: b ++ t) = false) as ->.
    { apply sdsneedsrepr_plain. rewrite Forall_app, Forall_cons, Forall_app. split_and!; try done. }
    apply cstr_id. rewrite app_comm_cons, app_assoc. apply Forall_app. split; [done|]. eapply Forall_impl; [exact C3|]. by intros c [? _]. }
  unfold aofLoadManifestFromFile. rewrite manifest_lines. unfold infos. rewrite B. cbn [app map concat].
  assert (forall y, aofLoadManifestFromFile (line ai ++ y) = inl InvalidFormat) as K; [|apply K].
  intros y. unfold aofLoadManifestFromFile, line. rewrite W, <- app_assoc. cbn [app].
  assert (exists n, length (sdsjoinsds (info_args ai (a ++ SQUOTE :: b ++ t)) [32] ++ LF :: y) = Datatypes.S n) as [n ->]
    by (rewrite length_app; simpl; eexists; by rewrite Nat.add_succ_r).
  rewrite load_lines_cons.
  - rewrite (load_quoted_line _ _ ai a (b ++ t)); try done; [by rewrite T; left|]. by rewrite !Forall_app.
  - destruct (quoted_text ai a (b ++ t)) as (_ & _ & _ & X); try done; [by rewrite T; left|by rewrite !Forall_app|].
    eapply Forall_impl; [exact X|]. by intros c [_ ?].
  - apply args_length; try done. rewrite E, zlen_app, zlen_cons in L. rewrite zlen_app, zlen_cons, zlen_app. lia.
  - done.
Qed.

Definition quote_aof : aof_config :=
  {| aof_filename := bs "it's.aof"; aof_use_rdb_preamble := true; aof_disable_auto_gc := false |}.

Lemma apostrophe_makes_manifest_invalid_witness :
  isValidAOFfilename (bs "it's.aof") = true /\
  match getNewBaseFileNameAndMarkPreAsHistory quote_aof aofManifestCreate with
  | Some am => aofLoadManifestFromFile (getAofManifestAsString am) = inl InvalidFormat
  | None => False
  end.
Proof.
  apply (apostrophe_makes_manifest_invalid quote_aof (bs "it") (bs "s.aof")
          (default aofManifestCreate (getNewBaseFileNameAndMarkPreAsHistory quote_aof aofManifestCreate))
          {| file_name := bs "it's.aof.1.base.rdb"; file_seq := 1; file_type := AOF_FILE_TYPE_BASE; start_offset := -1; end_offset := -1 |});
    try reflexivity; try (repeat constructor; vm_compute; congruence).
Defined.

(** C34: a failed sync of the directory after the manifest was replaced makes
    the end of a rewrite remove the new base file, while the manifest on disk
    lists it: a server that starts again loads a manifest whose base file is
    not there. *)
Theorem failed_sync_removes_listed_base cfg st incr_ok r' st' :
  filename_ok cfg -> inv st -> room (aof_manifest st) ->
  (aof_state st = AOF_WAIT_REWRITE -> incr_ok = true) ->
  backgroundRewriteDoneHandler cfg true incr_ok (WErr true) r' st = Some st' ->
  exists am ai, disk st' = Some (getAofManifestAsString am) /\
    aofLoadManifestFromFile (getAofManifestAsString am) = inr (reloaded am) /\
    base_aof_info am = Some ai /\ ~ In (file_name ai) (files st').
Proof.
  intros F [A D T] R W. unfold backgroundRewriteDoneHandler.
  destruct (new_base_ok cfg _ F A R) as (am & -> & A1 & D1 & B & C & _). cbn [mbind option_bind negb].
  destruct (base_aof_info am) as [ai|] eqn:Eb; [|done].
  assert (base_name am = file_name ai) as En by (unfold base_name; by rewrite Eb). rewrite En.
  change (aof_state (create (file_name ai) st)) with (aof_state st). change (temp_start (create (file_name ai) st)) with (temp_start st).
  set (p := match aof_state st with AOF_OFF => _ | _ => _ end).
  assert (am_ok (snd p) /\ base_aof_info (snd p) = Some ai /\ dirty (snd p) = true /\
          match fst p with Some _ => negb incr_ok | None => false end = false) as (A2 & B2 & D2 & W2).
  { subst p. destruct (aof_state st); try done. destruct R as [_ R]. rewrite <- C in R.
    destruct (new_incr_ok cfg am (temp_start st) F A1 R T) as (A2 & D2 & _ & B2).
    destruct (getNewIncrAofName cfg am _) as [name am2]. cbn [fst snd] in *. rewrite B2, W by done. by split_and!. }
  destruct p as [incr am2]. cbn [fst snd] in *. rewrite W2.
  set (st1 := match incr with Some name => create name _ | None => _ end).
  destruct (mark_ok (aof_fd st1) am2 A2 ltac:(by rewrite B2)) as (am3 & -> & A3 & B3 & D3). cbn [mbind option_bind].
  unfold persistAofManifest. rewrite (D3 D2). cbn [negb writeAofManifestFile].
  assert (base_aof_info am3 = Some ai) as B3' by by rewrite B3.
  intros E. exists am3, ai. split_and!; [|apply manifest_loads; [done|by apply nonempty_base; rewrite B3']|done|].
  - injection E as <-. by destruct st1, incr.
  - injection E as <-. intros I. destruct incr; [apply unlink_subset in I|]; by apply unlinked_gone in I.
Qed.

Lemma failed_sync_removes_listed_base_witness :
  exists st' am ai, backgroundRewriteDoneHandler example_aof true true (WErr true) WOk first_start = Some st' /\
    disk st' = Some (getAofManifestAsString am) /\
    aofLoadManifestFromFile (getAofManifestAsString am) = inr (reloaded am) /\
    base_aof_info am = Some ai /\ ~ In (file_name ai) (files st').
Proof.
  eexists (default aof_init (backgroundRewriteDoneHandler example_aof true true (WErr true) WOk first_start)).
  destruct (failed_sync_removes_listed_base example_aof first_start true WOk
    (default aof_init (backgroundRewriteDoneHandler example_aof true true (WErr true) WOk first_start)))
    as (am & ai & H); [exact example_filename_ok|apply (reachable_inv example_aof); [exact example_filename_ok|exact first_start_reachable]
      |split; vm_compute; reflexivity|reflexivity|vm_compute; reflexivity|].
  exists am, ai. split; [vm_compute; reflexivity|exact H].
Defined.

(** C35: the loader forgets the numbers of incremental files that became
    history: when the manifest lists none but history files, the next start
    takes the name of the first file again, appends to it, and then removes it
    as a history file while the server writes to it. *)
Theorem restart_removes_written_file cfg st am offset :
  filename_ok cfg -> aof_disable_auto_gc cfg = false -> am_ok am -> is_i64 offset ->
  base_aof_info am <> None -> incr_aof_list am = [] ->
  In (incr_file_name cfg 1) (map file_name (history_aof_list am)) ->
  disk st = Some (getAofManifestAsString am) ->
  exists st1 st2, aofLoadManifestFromDisk (restarted true st) = Some st1 /\
    aofOpenIfNeededOnServerStart cfg true WOk offset st1 = Some st2 /\
    let st3 := aofDelHistoryFiles cfg WOk st2 in
    writing st3 = Some (incr_file_name cfg 1) /\ ~ In (incr_file_name cfg 1) (files st3).
Proof.
  intros F G A O B I H D. unfold aofLoadManifestFromDisk.
  change (disk (restarted true st)) with (disk st). rewrite D, (manifest_loads am A (nonempty_base am B)).
  destruct st as [am0 state fd temp d fs w]. destruct am as [[b|] il hl cb ci di]; [|done]. cbn in I, H. subst il.
  eexists _, _. split; [reflexivity|]. split; [reflexivity|].
  cbv zeta. match goal with |- context [aofDelHistoryFiles cfg WOk ?s] =>
    destruct (gc_files cfg WOk s (incr_file_name cfg 1) G) as [W N]; [|rewrite W; split; [reflexivity|exact N]] end.
  change (In (incr_file_name cfg 1) (map file_name (map norm hl))). rewrite map_map.
  by rewrite (map_ext _ file_name) by apply norm_name.
Qed.

(** The append-only file is switched off. *)
Definition stopped : aof := default aof_init (stopAppendOnly WOk 0 first_start).

Lemma stopped_reachable : rtc (aof_step example_aof) aof_init stopped.
Proof.
  eapply rtc_r; [exact first_start_reachable|].
  apply (step_stop _ _ WOk 0); [split; vm_compute; congruence|vm_compute; reflexivity].
Qed.

Lemma stopped_inv : inv stopped.
Proof. apply (reachable_inv example_aof); [exact example_filename_ok|exact stopped_reachable]. Qed.

(** Then a rewrite turns its files into history, and the server crashes before
    it removes them. *)
Definition history_manifest : aofManifest :=
  default aofManifestCreate (am ← getNewBaseFileNameAndMarkPreAsHistory example_aof (aof_manifest stopped);
                             markRewrittenIncrAofAsHistory (aof_fd stopped) am).

Lemma history_manifest_ok : am_ok history_manifest.
Proof.
  unfold history_manifest.
  destruct (new_base_ok example_aof (aof_manifest stopped)) as (am & -> & A & _ & B & _);
    [exact example_filename_ok|apply stopped_inv|split; vm_compute; reflexivity|].
  cbn [mbind option_bind]. by destruct (mark_ok (aof_fd stopped) am A B) as (am' & -> & A' & _).
Qed.

Definition crashed : aof := stopped<| disk := Some (getAofManifestAsString history_manifest) |>.

Lemma restart_removes_written_file_witness :
  exists st1 st2, aofLoadManifestFromDisk (restarted true crashed) = Some st1 /\
    aofOpenIfNeededOnServerStart example_aof true WOk 0 st1 = Some st2 /\
    let st3 := aofDelHistoryFiles example_aof WOk st2 in
    writing st3 = Some (incr_file_name example_aof 1) /\ ~ In (incr_file_name example_aof 1) (files st3).
Proof.
  apply (restart_removes_written_file example_aof crashed history_manifest 0).
  - exact example_filename_ok.
  - reflexivity.
  - exact history_manifest_ok.
  - split; vm_compute; congruence.
  - vm_compute. discriminate.
  - vm_compute. reflexivity.
  - vm_compute. left. reflexivity.
  - reflexivity.
Defined.

(** A failed attempt to switch the append-only file on leaves a file open:
    when the child of [startAppendOnly] cannot be made, a later rewrite keeps
    the last incremental file of earlier times in the manifest beside the new
    base file, which holds newer data, while without that attempt none is kept. *)
Theorem failed_start_keeps_stale_file cfg st ai r r' offset ok st1 st2 st2' :
  filename_ok cfg -> inv st -> room (aof_manifest st) -> is_i64 offset ->
  aof_state st = AOF_OFF -> aof_fd st = false -> last (incr_aof_list (aof_manifest st)) = Some ai ->
  startAppendOnly cfg false true false r offset st = Some (ok, st1) ->
  backgroundRewriteDoneHandler cfg true true WOk r' st1 = Some st2 ->
  backgroundRewriteDoneHandler cfg true true WOk r' st = Some st2' ->
  ok = false /\ aof_state st2 = AOF_OFF /\
  incr_aof_list (aof_manifest st2) = [ai] /\ incr_aof_list (aof_manifest st2') = [].
Proof.
  intros F I R O S Fd L. unfold startAppendOnly. rewrite S.
  unfold rewriteAppendOnlyFileBackground, openNewIncrAofForAppend.
  change (aof_state (st<| aof_state := AOF_WAIT_REWRITE |>)) with AOF_WAIT_REWRITE. cbn [negb].
  intros [= <- <-] H1 H2. destruct (done_off cfg st ai r' st2' F I R S L H2) as [_ K2]. rewrite Fd in K2.
  match type of H1 with backgroundRewriteDoneHandler _ _ _ _ _ ?s = _ =>
    assert (inv s) as I1 by (destruct st, I; by split);
    destruct (done_off cfg s ai r' st2 F I1) as [K0 K1]; [by destruct st|by destruct st|by destruct st|exact H1|] end.
  split_and!; [done..| |done]. rewrite K1. by destruct st.
Qed.

Lemma failed_start_keeps_stale_file_witness :
  exists st1 st2 ai, startAppendOnly example_aof false true false WOk 0 stopped = Some (false, st1) /\
    backgroundRewriteDoneHandler example_aof true true WOk WOk st1 = Some st2 /\
    aof_state st2 = AOF_OFF /\ incr_aof_list (aof_manifest st2) = [ai].
Proof.
  pose (start := startAppendOnly example_aof false true false WOk 0 stopped).
  pose (st1 := match start with Some (_, st) => st | None => aof_init end).
  pose (done1 := default aof_init (backgroundRewriteDoneHandler example_aof true true WOk WOk st1)).
  pose (done2 := default aof_init (backgroundRewriteDoneHandler example_aof true true WOk WOk stopped)).
  pose (ai := default aofInfoCreate (last (incr_aof_list (aof_manifest stopped)))).
  destruct (failed_start_keeps_stale_file example_aof stopped ai WOk WOk 0 false st1 done1 done2) as (_ & S & I & _);
    [exact example_filename_ok|exact stopped_inv|split; vm_compute; reflexivity|split; vm_compute; congruence
    |reflexivity|reflexivity|vm_compute; reflexivity|vm_compute; reflexivity|vm_compute; reflexivity|vm_compute; reflexivity|].
  exists st1, done1, ai. split; [vm_compute; reflexivity|]. split; [vm_compute; reflexivity|]. split; [exact S|exact I].
Defined.
