(* ===== verification/Query.v ===== *)
(** The input side of a client (src/src/networking.c): the parsers of the two
    request protocols, the queue of parsed commands, the loop that executes
    them, and the replies to protocol errors.

    Executing a command ([processCommand]) and looking it up beforehand
    ([preprocessCommand]) are parameters. The model is the main thread's; a NULL
    query buffer is an empty one, how much a read returns is an argument, and
    statistics and memory accounting are left out. *)

From stdpp Require Import base list numbers strings.
From coqutil Require Import Datatypes.RecordSetters.
From S2P Require Import Prelude Numbers Client ReplyBuffer Sds Reply Args.
Import TriangleBracketNotations.

Local Open Scope Z_scope.

Definition CLIENT_UNBLOCKED : Z := 2 ^ 7.
Definition CLIENT_ASKING : Z := 2 ^ 9.
Definition CLIENT_REPLY_SKIP_NEXT : Z := 2 ^ 23.
Definition CLIENT_EXECUTING_COMMAND : Z := 2 ^ 29.
Definition CLIENT_PENDING_COMMAND : Z := 2 ^ 30.
Definition CLIENT_TRACKING_CACHING : Z := 2 ^ 36.
Definition CLIENT_PROTOCOL_ERROR : Z := 2 ^ 39.

Definition PROTO_INLINE_MAX_SIZE : Z := 1024 * 64.
Definition PROTO_MBULK_BIG_ARG : Z := 1024 * 32.
Definition PROTO_REQ_INLINE : Z := 1.
Definition PROTO_REQ_MULTIBULK : Z := 2.

Definition CLIENT_READ_TOO_BIG_INLINE_REQUEST : Z := 1.
Definition CLIENT_READ_UNBALANCED_QUOTES : Z := 2.
Definition CLIENT_READ_MASTER_USING_INLINE_PROTOCAL : Z := 3.
Definition CLIENT_READ_TOO_BIG_MBULK_COUNT_STRING : Z := 4.
Definition CLIENT_READ_TOO_BIG_BUCK_COUNT_STRING : Z := 5.
Definition CLIENT_READ_EXPECTED_DOLLAR : Z := 6.
Definition CLIENT_READ_INVALID_BUCK_LENGTH : Z := 7.
Definition CLIENT_READ_UNAUTH_BUCK_LENGTH : Z := 8.
Definition CLIENT_READ_INVALID_MULTIBUCK_LENGTH : Z := 9.
Definition CLIENT_READ_UNAUTH_MBUCK_COUNT : Z := 10.
Definition CLIENT_READ_CONN_DISCONNECTED : Z := 11.
Definition CLIENT_READ_CONN_CLOSED : Z := 12.
Definition CLIENT_READ_REACHED_MAX_QUERYBUF : Z := 13.
Definition CLIENT_READ_COMMAND_NOT_FOUND : Z := 14.
Definition CLIENT_READ_BAD_ARITY : Z := 15.
Definition CLIENT_READ_CROSS_SLOT : Z := 16.

Definition PENDING_CMD_FLAG_INCOMPLETE : Z := 1.
Definition PENDING_CMD_FLAG_PREPROCESSED : Z := 2.
Definition PENDING_COMMAND_POOL_MAX_SIZE : Z := 1024.

(** ** State *)

(** [argc] is the length of [p_argv]; [p_argv_len] is the room in the array. *)
Record pendingCommand : Type := {
  p_argv : list (list Z);
  p_argv_len : Z;
  p_argv_len_sum : Z;
  p_input_bytes : Z;
  p_reploff : Z;
  p_flags : Z;
  p_read_error : Z
}.

Definition p_argc (p : pendingCommand) : Z := zlen (p_argv p).
Definition incomplete (p : pendingCommand) : bool := has (p_flags p) PENDING_CMD_FLAG_INCOMPLETE.

(** The settings and the state of the server the input path reads. *)
Record qconfig : Type := {
  proto_max_bulk_len : Z;
  client_max_querybuf_len : Z;
  server_lookahead : Z;
  inside_yielding_command : bool
}.

(** A client with its query buffer. The pool holds the room of the commands in
    it, which are otherwise cleared; [fed] is what went to the replicas of a
    replica, [trace] the commands given to [processCommand], and [alive] whether
    the client was not freed. *)
Record input (E : Type) : Type := {
  world_of : world;
  env : E;
  alive : bool;
  querybuf : list Z;
  qb_pos : Z;
  querybuf_peak : Z;
  reqtype : Z;
  multibulklen : Z;
  bulklen : Z;
  all_argv_len_sum : Z;
  pending_cmds : list pendingCommand;
  ready_len : Z;
  cmd_pool : list Z;
  pool_capacity : Z;
  argv : list (list Z);
  read_error : Z;
  repl_ack_time : Z;
  read_reploff : Z;
  reploff : Z;
  reploff_next : Z;
  repl_applied : Z;
  fed : list Z;
  trace : list (list (list Z))
}.
Arguments world_of {E}.
Arguments env {E}.
Arguments alive {E}.
Arguments querybuf {E}.
Arguments qb_pos {E}.
Arguments querybuf_peak {E}.
Arguments reqtype {E}.
Arguments multibulklen {E}.
Arguments bulklen {E}.
Arguments all_argv_len_sum {E}.
Arguments pending_cmds {E}.
Arguments ready_len {E}.
Arguments cmd_pool {E}.
Arguments pool_capacity {E}.
Arguments argv {E}.
Arguments read_error {E}.
Arguments repl_ack_time {E}.
Arguments read_reploff {E}.
Arguments reploff {E}.
Arguments reploff_next {E}.
Arguments repl_applied {E}.
Arguments fed {E}.
Arguments trace {E}.

Section Query.
Context (cfg : config) (qcfg : qconfig) {E : Type}.
(** What [processCommand] does to the client, and whether it moved the command
    to the transaction's queue; [None] is a client that was freed. *)
Context (processCommand : E -> world -> list (list Z) -> E * option (bool * world)).
(** The error that [preprocessCommand] finds, if any. *)
Context (preprocessCommand : list (list Z) -> Z).
(** Whether the command is ASKING or CLIENT, and the bytes queued in a
    transaction. *)
Context (is_asking is_client : list (list Z) -> bool) (mstate_argv_len_sums : E -> Z).
Implicit Types (q : input E) (p : pendingCommand).

Definition client_of q : client := cl (world_of q).
Definition is_master q : bool := has (flags (client_of q)) CLIENT_MASTER.

(** The part of the query buffer that is not parsed yet. *)
Definition text q : list Z := drop (Z.to_nat (qb_pos q)) (querybuf q).

(** ** The queue of parsed commands *)

Definition new_command (room : Z) : pendingCommand :=
  {| p_argv := []; p_argv_len := room; p_argv_len_sum := 0; p_input_bytes := 0; p_reploff := 0; p_flags := 0; p_read_error := 0 |}.

Definition acquirePendingCommand q : pendingCommand * input E :=
  match cmd_pool q with
  | room :: pool => (new_command room, q<| cmd_pool := pool |>)
  | [] => (new_command 0, q)
  end.

(** [None] is the failed assertion that the sum does not become negative. *)
Definition forget_argv q p : option (input E) :=
  if all_argv_len_sum q <? p_argv_len_sum p then None
  else Some (q<| all_argv_len_sum := all_argv_len_sum q - p_argv_len_sum p |>).

Definition freePendingCommand q p : option (input E) := forget_argv q p.

(** Whether there is room for another command after growing the pool. *)
Definition tryExpandPendingCommandPool q : bool * input E :=
  if zlen (cmd_pool q) <? pool_capacity q then (true, q)
  else if pool_capacity q >=? PENDING_COMMAND_POOL_MAX_SIZE then (false, q)
  else (true, q<| pool_capacity := Z.min (pool_capacity q * 2) PENDING_COMMAND_POOL_MAX_SIZE |>).

Definition reclaimPendingCommand q p : option (input E) :=
  if p_argv_len p <? 64 then
    let '(ok, q) := tryExpandPendingCommandPool q in
    q ← forget_argv q p;
    Some (if ok then q<| cmd_pool ::= cons (p_argv_len p) |> else q)
  else freePendingCommand q p.

Definition addPendingCommand q p : input E :=
  q<| pending_cmds ::= fun l => l ++ [p] |><| ready_len ::= fun n => if incomplete p then n else n + 1 |>.

Definition popPendingCommandFromHead q : option (pendingCommand * input E) :=
  match pending_cmds q with
  | [] => None
  | p :: l => Some (p, q<| pending_cmds := l |><| ready_len ::= fun n => if incomplete p then n else n - 1 |>)
  end.

Definition popPendingCommandFromTail q : option (pendingCommand * input E) :=
  match rev (pending_cmds q) with
  | [] => None
  | p :: l => Some (p, q<| pending_cmds := rev l |><| ready_len ::= fun n => if incomplete p then n else n - 1 |>)
  end.

(** ** Parsing *)

Definition fail p (e : Z) : pendingCommand := p<| p_read_error := e |>.

(** [argv[argc++] = arg]; [None] is a write behind the array. *)
Definition push_arg q p (arg : list Z) : option (pendingCommand * input E) :=
  if p_argc p <? p_argv_len p then
    Some (p<| p_argv := p_argv p ++ [arg] |><| p_argv_len_sum := p_argv_len_sum p + zlen arg |>,
          q<| all_argv_len_sum := all_argv_len_sum q + zlen arg |>)
  else None.

Fixpoint push_args q p (args : list (list Z)) : option (pendingCommand * input E) :=
  match args with
  | [] => Some (p, q)
  | a :: args => '(p, q) ← push_arg q p a; push_args q p args
  end.

(** A parser returns [C_OK] or not, the command and the client; [None] is a
    failed assertion or a write behind the array. *)
Definition parsed : Type := option (bool * pendingCommand * input E).

Definition processInlineBuffer q p : parsed :=
  match strchr LF (text q) with
  | None =>
      Some (false, if zlen (text q) >? PROTO_INLINE_MAX_SIZE then fail p CLIENT_READ_TOO_BIG_INLINE_REQUEST else p, q)
  | Some (line, _) =>
      let '(query, linefeed_chars) :=
        match rev line with c :: l => if c =? CR then (rev l, 2) else (line, 1) | [] => (line, 1) end in
      match sdssplitargs query with
      | None => Some (false, fail p CLIENT_READ_UNBALANCED_QUOTES, q)
      | Some args =>
          let querylen := zlen query in
          let q := if (querylen =? 0) && clientTypeIsSlave (client_of q) then q<| repl_ack_time := unixtime cfg |> else q in
          if negb (querylen =? 0) && is_master q then
            Some (false, fail p CLIENT_READ_MASTER_USING_INLINE_PROTOCAL, q)
          else
            let q := q<| qb_pos := qb_pos q + (querylen + linefeed_chars) |> in
            let p := if zlen args >? p_argv_len p
                     then p<| p_argv_len := zlen args |><| p_argv_len_sum := 0 |> else p in
            '(p, q) ← push_args q (p<| p_argv := [] |>) args;
            Some (true, p<| p_input_bytes := u64 (p_argv_len_sum p + (p_argc p - 1) + 2) |>, q)
      end
  end.

(** [memchr]. *)
Fixpoint memchr (c : Z) (s : list Z) : option (list Z) :=
  match s with
  | [] => None
  | x :: s => if x =? c then Some [] else cons x <$> memchr c s
  end.

(** Where a header leaves the parser: an error, more to read, or the value. *)
Inductive header_result : Type := HFail (e : Z) | HWait | HValue (ll : Z) (slen : Z) (next : Z).

(** The rest of a header once its line is found: the bytes behind the first. *)
Definition mbulk_value q (line : list Z) : header_result :=
  match string2ll (tail line) with
  | None => HFail CLIENT_READ_INVALID_MULTIBUCK_LENGTH
  | Some ll =>
      if ll >? INT_MAX then HFail CLIENT_READ_INVALID_MULTIBUCK_LENGTH
      else if (ll >? 10) && authRequired cfg (client_of q) then HFail CLIENT_READ_UNAUTH_MBUCK_COUNT
      else HValue ll (zlen (tail line)) (qb_pos q + zlen line + 2)
  end.

(** [None] is the failed assertion that the request starts with a star. *)
Definition mbulk_header q : option header_result :=
  match strchr CR (text q) with
  | None => Some (if zlen (text q) >? PROTO_INLINE_MAX_SIZE then HFail CLIENT_READ_TOO_BIG_MBULK_COUNT_STRING else HWait)
  | Some (line, _) =>
      if zlen line >? zlen (text q) - 2 then Some HWait
      else if negb (hd 0 (text q) =? 42) then None
      else Some (mbulk_value q line)
  end.

Definition bulk_value q (line : list Z) : header_result :=
  match string2ll (tail line) with
  | None => HFail CLIENT_READ_INVALID_BUCK_LENGTH
  | Some ll =>
      if (ll <? 0) || (negb (is_master q) && (ll >? proto_max_bulk_len qcfg)) then HFail CLIENT_READ_INVALID_BUCK_LENGTH
      else if (ll >? 16384) && authRequired cfg (client_of q) then HFail CLIENT_READ_UNAUTH_BUCK_LENGTH
      else HValue ll (zlen (tail line)) (qb_pos q + zlen line + 2)
  end.

Definition bulk_header q : header_result :=
  match memchr CR (text q) with
  | None => if zlen (text q) >? PROTO_INLINE_MAX_SIZE then HFail CLIENT_READ_TOO_BIG_BUCK_COUNT_STRING else HWait
  | Some line =>
      if zlen line >? zlen (text q) - 2 then HWait
      else if negb (hd 0 (text q) =? 36) then HFail CLIENT_READ_EXPECTED_DOLLAR
      else bulk_value q line
  end.

(** The query buffer starts at a large argument, so that it may become it. *)
Definition align_big_arg q (ll : Z) : input E :=
  if negb (is_master q) && (ll >=? PROTO_MBULK_BIG_ARG) && (zlen (querybuf q) - qb_pos q <=? u64 (ll + 2)) then
    q<| querybuf := sdsrange (querybuf q) (qb_pos q) (-1) |><| qb_pos := 0 |>
     <| querybuf_peak := Z.max (querybuf_peak q) (u64 (ll + 2)) |>
  else q.

Definition take_arg q p : option (pendingCommand * input E) :=
  let p := if p_argc p >=? p_argv_len p
           then p<| p_argv_len := Z.min (if p_argv_len p <? INT_MAX / 2 then p_argv_len p * 2 else INT_MAX)
                                        (p_argc p + multibulklen q) |> else p in
  '(p, q) ←
    (if negb (is_master q) && (qb_pos q =? 0) && (bulklen q >=? PROTO_MBULK_BIG_ARG) &&
        (zlen (querybuf q) =? u64 (bulklen q + 2)) then
       '(p, q) ← push_arg q p (take (Z.to_nat (bulklen q)) (querybuf q));
       Some (p, q<| querybuf := [] |>)
     else
       '(p, q) ← push_arg q p (take (Z.to_nat (bulklen q)) (text q));
       Some (p, q<| qb_pos := qb_pos q + (bulklen q + 2) |>));
  Some (p, q<| bulklen := -1 |><| multibulklen := multibulklen q - 1 |>).

Definition stop_incomplete q p : parsed := Some (true, p<| p_flags := Z.lor (p_flags p) PENDING_CMD_FLAG_INCOMPLETE |>, q).

(** The argument, when its bytes are there, and then the next ones. *)
Definition read_arg (continue : input E -> pendingCommand -> parsed) q p : parsed :=
  if zlen (text q) <? u64 (bulklen q + 2) then stop_incomplete q p
  else '(p, q) ← take_arg q p; continue q p.

(** One round for each argument that is missing. *)
Fixpoint bulk_loop (n : nat) q p : parsed :=
  match n with
  | O =>
      Some (true, p<| p_input_bytes := u64 (p_input_bytes p + (p_argv_len_sum p + p_argc p * 2)) |>
                   <| p_flags := Z.ldiff (p_flags p) PENDING_CMD_FLAG_INCOMPLETE |>, q)
  | S n =>
      if bulklen q =? -1 then
        match bulk_header q with
        | HFail e => Some (false, fail p e, q)
        | HWait => stop_incomplete q p
        | HValue ll slen next =>
            let q := align_big_arg (q<| qb_pos := next |>) ll in
            read_arg (bulk_loop n) (q<| bulklen := ll |>) (p<| p_input_bytes := u64 (p_input_bytes p + (slen + 3)) |>)
        end
      else if incomplete p then read_arg (bulk_loop n) q p else None
  end.

Definition processMultibulkBuffer q p : parsed :=
  if multibulklen q =? 0 then
    if negb (p_argc p =? 0) then None
    else
      h ← mbulk_header q;
      match h with
      | HFail e => Some (false, fail p e, q)
      | HWait => Some (false, p, q)
      | HValue ll slen next =>
          let q := q<| qb_pos := next |> in
          if ll <=? 0 then Some (true, p, q)
          else
            let p := if ll >? p_argv_len p then p<| p_argv_len := Z.min ll 1024 |><| p_argv_len_sum := 0 |> else p in
            bulk_loop (Z.to_nat ll) (q<| multibulklen := ll |><| bulklen := -1 |>)
              (p<| p_input_bytes := u64 (p_input_bytes p + (slen + 3)) |>)
      end
  else if multibulklen q <? 0 then None
  else bulk_loop (Z.to_nat (multibulklen q)) q p.

Definition resetClientQbufState q : input E := q<| reqtype := 0 |><| multibulklen := 0 |><| bulklen := -1 |>.

(** A parsed command enters the queue; one that is whole is looked up and the
    parser starts afresh. [false] ends the parsing. *)
Definition enqueue q p : bool * input E :=
  if negb (p_read_error p =? 0) || incomplete p then (false, addPendingCommand q p)
  else
    let p := p<| p_reploff := read_reploff q - zlen (querybuf q) + qb_pos q |> in
    let p := if p_argc p =? 0 then p else p<| p_read_error := preprocessCommand (p_argv p) |> in
    let p := p<| p_flags := Z.lor (p_flags p) PENDING_CMD_FLAG_PREPROCESSED |> in
    (true, resetClientQbufState (addPendingCommand q p)).

(** The command to parse into and the parser for it. *)
Definition parse_one q : parsed :=
  if reqtype q =? PROTO_REQ_INLINE then
    let '(p, q) := acquirePendingCommand q in processInlineBuffer q p
  else if reqtype q =? PROTO_REQ_MULTIBULK then
    '(p, q) ← (if negb (zlen (pending_cmds q) =? ready_len q) then popPendingCommandFromTail q
               else Some (acquirePendingCommand q));
    processMultibulkBuffer q p
  else None.

(** Up to [lookahead] commands are parsed: every round but the last one adds a
    ready command, so [lookahead] rounds are enough. *)
Fixpoint parse_loop (n : nat) (lookahead : Z) q : option (input E) :=
  match n with
  | O => Some q
  | S n =>
      if negb (ready_len q <? lookahead) || negb (qb_pos q <? zlen (querybuf q)) then Some q
      else
        let q := if reqtype q =? 0
                 then q<| reqtype := if hd 0 (text q) =? 42 then PROTO_REQ_MULTIBULK else PROTO_REQ_INLINE |> else q in
        '(ok, p, q) ← parse_one q;
        if negb ok && (p_read_error p =? 0) then freePendingCommand q p
        else let '(more, q) := enqueue q p in if (more : bool) then parse_loop n lookahead q else Some q
  end.

(** ** Executing *)

(** The flags that [resetClientInternal] clears or sets. *)
Definition reset_flags (cmd : list (list Z)) (f : Z) : Z :=
  let f := Z.ldiff f CLIENT_EXECUTING_COMMAND in
  let f := if has f CLIENT_ASKING && negb (has f CLIENT_MULTI) && negb (is_asking cmd) then Z.ldiff f CLIENT_ASKING else f in
  let f := if has f CLIENT_TRACKING_CACHING && negb (has f CLIENT_MULTI) && negb (is_client cmd)
           then Z.ldiff f CLIENT_TRACKING_CACHING else f in
  let f := Z.ldiff f CLIENT_REPLY_SKIP in
  if has f CLIENT_REPLY_SKIP_NEXT then Z.ldiff (Z.lor f CLIENT_REPLY_SKIP) CLIENT_REPLY_SKIP_NEXT else f.

(** The head of the queue is done: it was moved to a transaction ([queued]) or
    is reclaimed. [None] is a failed assertion: the queue is not empty, and
    nothing is left of an empty one. *)
Definition prepareForNextCommand (queued : bool) q : option (input E) :=
  '(p, q) ← popPendingCommandFromHead q;
  q ← (if queued then Some (q<| all_argv_len_sum := u64 (all_argv_len_sum q - p_argv_len_sum p) |>)
       else reclaimPendingCommand q p);
  if (zlen (pending_cmds q) =? 0) && negb queued && negb (all_argv_len_sum q =? 0) then None
  else
    let c := client_of q in
    Some (q<| world_of := (world_of q)<| cl := c<| flags := reset_flags (argv q) (flags c) |><| deferred_reply_errors := None |>
                                              <| net_output_bytes_curr_cmd := 0 |> |> |>
           <| argv := [] |>).

(** The replication offset of a replica's master connection moves, and the
    bytes applied go on to its own replicas. *)
Definition commandProcessed (queued : bool) q : option (input E) :=
  if has (flags (client_of q)) CLIENT_BLOCKED then Some q
  else
    q ← prepareForNextCommand queued q;
    if negb (is_master q) then Some q
    else
      let prev_offset := reploff q in
      q ← (if negb (has (flags (client_of q)) CLIENT_MULTI)
           then if reploff_next q <=? 0 then None else Some (q<| reploff := reploff_next q |>) else Some q);
      let applied := reploff q - prev_offset in
      if applied =? 0 then Some q
      else if (applied <? 0) || (zlen (querybuf q) <? repl_applied q + applied) then None
      else Some (q<| fed ::= fun s => s ++ take (Z.to_nat applied) (drop (Z.to_nat (repl_applied q)) (querybuf q)) |>
                  <| repl_applied := repl_applied q + applied |>).

Definition processCommandAndResetClient q : option (input E) :=
  let '(e, r) := processCommand (env q) (world_of q) (argv q) in
  let q := q<| env := e |><| trace ::= fun l => l ++ [argv q] |> in
  match r with
  | None => Some (q<| alive := false |>)
  | Some (queued, w) => commandProcessed queued (q<| world_of := w |>)
  end.

Definition isClientReadErrorFatal q : bool :=
  negb (read_error q =? 0) && negb (read_error q =? CLIENT_READ_COMMAND_NOT_FOUND) &&
  negb (read_error q =? CLIENT_READ_BAD_ARITY) && negb (read_error q =? CLIENT_READ_CROSS_SLOT).

(** The reasons to stop before a round. *)
Definition must_stop q : bool :=
  let f := flags (client_of q) in
  has f CLIENT_BLOCKED || has f CLIENT_UNBLOCKED || has f CLIENT_PENDING_COMMAND ||
  (has f CLIENT_MASTER && inside_yielding_command qcfg) || has f (Z.lor CLIENT_CLOSE_AFTER_REPLY CLIENT_CLOSE_ASAP).

Definition lookahead q : Z := if authRequired cfg (client_of q) then 1 else server_lookahead qcfg.

(** [la] is the lookahead at the start. Every round consumes a ready command,
    and every ready command a byte of the buffer. *)
Fixpoint input_loop (fuel : nat) (la : Z) q : option (input E) :=
  if negb (qb_pos q <? zlen (querybuf q)) && negb (0 <? ready_len q) then Some q
  else if must_stop q then Some q
  else
    match fuel with
    | O => None
    | S fuel =>
        q ← (if ready_len q =? 0 then parse_loop (Z.to_nat la) la q else Some q);
        if ready_len q =? 0 then Some q
        else
          match pending_cmds q with
          | [] => None
          | cur :: _ =>
              let q := q<| argv := p_argv cur |><| reploff_next := p_reploff cur |><| read_error := p_read_error cur |> in
              if isClientReadErrorFatal q then Some q
              else if zlen (argv q) =? 0 then q ← prepareForNextCommand false q; input_loop fuel la q
              else
                q ← processCommandAndResetClient q;
                if alive q then input_loop fuel la q else Some q
          end
    end.

(** The consumed part of the buffer is dropped. *)
Definition trim_querybuf q : option (input E) :=
  if is_master q then
    if repl_applied q =? 0 then Some q
    else if qb_pos q <? repl_applied q then None
    else Some (q<| querybuf := sdsrange (querybuf q) (repl_applied q) (-1) |>
                <| qb_pos := qb_pos q - repl_applied q |><| repl_applied := 0 |>)
  else if qb_pos q =? 0 then Some q
  else Some (q<| querybuf := sdsrange (querybuf q) (qb_pos q) (-1) |><| qb_pos := 0 |>).

Definition processInputBuffer q : option (input E) :=
  q ← input_loop (length (querybuf q) + Z.to_nat (ready_len q)) (lookahead q) q;
  if alive q then trim_querybuf q else Some q.

(** ** Errors *)

Definition setProtocolError (w : world) : world :=
  w<| cl -> flags := Z.lor (flags (cl w)) (Z.lor CLIENT_CLOSE_AFTER_REPLY CLIENT_PROTOCOL_ERROR) |>.

Definition protocol_error (w : world) (err : list Z) : world :=
  setProtocolError (addReplyError cfg w (bs "Protocol error: " ++ err)).

(** [None] is the panic on an unknown error. *)
Definition handleClientReadError q : option (input E) :=
  let e := read_error q in let w := world_of q in
  w ← (if e =? CLIENT_READ_TOO_BIG_INLINE_REQUEST then Some (protocol_error w (bs "too big inline request"))
       else if e =? CLIENT_READ_UNBALANCED_QUOTES then Some (protocol_error w (bs "unbalanced quotes in request"))
       else if e =? CLIENT_READ_MASTER_USING_INLINE_PROTOCAL then Some (setProtocolError w)
       else if e =? CLIENT_READ_TOO_BIG_MBULK_COUNT_STRING then Some (protocol_error w (bs "too big mbulk count string"))
       else if e =? CLIENT_READ_TOO_BIG_BUCK_COUNT_STRING then Some (protocol_error w (bs "too big bulk count string"))
       else if e =? CLIENT_READ_EXPECTED_DOLLAR then
         Some (setProtocolError (addReplyErrorFormat cfg w (bs "Protocol error: expected '$', got '" ++ [hd 0 (text q)] ++ bs "'")))
       else if e =? CLIENT_READ_INVALID_BUCK_LENGTH then Some (protocol_error w (bs "invalid bulk length"))
       else if e =? CLIENT_READ_UNAUTH_BUCK_LENGTH then Some (protocol_error w (bs "unauthenticated bulk length"))
       else if e =? CLIENT_READ_INVALID_MULTIBUCK_LENGTH then Some (protocol_error w (bs "invalid multibulk length"))
       else if e =? CLIENT_READ_UNAUTH_MBUCK_COUNT then Some (protocol_error w (bs "unauthenticated multibulk length"))
       else if (e =? CLIENT_READ_CONN_DISCONNECTED) || (e =? CLIENT_READ_CONN_CLOSED) ||
               (e =? CLIENT_READ_REACHED_MAX_QUERYBUF) then Some w
       else None);
  Some (q<| world_of := w |>).

(** ** Reading *)

(** What [connRead] returns: bytes, nothing yet, an error or the end. *)
Inductive read_result : Type := RData (s : list Z) | RAgain | RDisconnected | RClosed.

Definition over_limit q : bool :=
  let n := mstate_argv_len_sums (env q) + zlen (querybuf q) in
  negb (is_master q) &&
  ((n >? client_max_querybuf_len qcfg) || ((n >? 1024 * 1024) && authRequired cfg (client_of q))).

Definition close_client q (e : Z) : input E :=
  q<| read_error := e |><| world_of := (world_of q)<| cl := freeClientAsync (client_of q) |> |>.

Definition readQueryFromClient (r : read_result) q : option (input E) :=
  let q := q<| read_error := 0 |> in
  q ← match r with
      | RAgain => Some q
      | RDisconnected => Some (close_client q CLIENT_READ_CONN_DISCONNECTED)
      | RClosed => Some (close_client q CLIENT_READ_CONN_CLOSED)
      | RData s =>
          let q := q<| querybuf := querybuf q ++ s |> in
          let q := q<| querybuf_peak := Z.max (querybuf_peak q) (zlen (querybuf q)) |> in
          let q := if is_master q then q<| read_reploff := read_reploff q + zlen s |> else q in
          if over_limit q then Some (close_client q CLIENT_READ_REACHED_MAX_QUERYBUF) else processInputBuffer q
      end;
  if alive q && isClientReadErrorFatal q then handleClientReadError q else Some q.

Fixpoint read_all_chunks (chunks : list (list Z)) q : option (input E) :=
  match chunks with
  | [] => Some q
  | s :: chunks => q ← readQueryFromClient (RData s) q; read_all_chunks chunks q
  end.
End Query.

(** ** What a client sends *)

Definition enc_arg (a : list Z) : list Z := 36 :: sdec (zlen a) ++ CRLF ++ a ++ CRLF.
Definition enc_args (l : list (list Z)) : list Z := concat (map enc_arg l).
Definition enc_cmd (l : list (list Z)) : list Z := 42 :: sdec (zlen l) ++ CRLF ++ enc_args l.
Definition enc_cmds (l : list (list (list Z))) : list Z := concat (map enc_cmd l).

(** ** Lemmas on the buffer *)

Lemma memchr_app c l r : Forall (fun x => x <> c) l -> memchr c (l ++ c :: r) = Some l.
Proof.
  induction 1 as [|x l Hx _ IH]; simpl; [by rewrite Z.eqb_refl|]. by rewrite (proj2 (Z.eqb_neq x c)), IH.
Qed.

Lemma memchr_none c l : Forall (fun x => x <> c) l -> memchr c l = None.
Proof. induction 1 as [|x l Hx _ IH]; simpl; [done|]. by rewrite (proj2 (Z.eqb_neq x c)), IH. Qed.

Lemma strchr_none c l : Forall (fun x => x <> c) l -> strchr c l = None.
Proof.
  induction 1 as [|x l Hx _ IH]; simpl; [done|]. rewrite (proj2 (Z.eqb_neq x c)), IH by done. by destruct (x =? 0).
Qed.

(** A received part [t] of a text that starts with a line [h]: the line is not
    there yet, its second byte is missing, or it is there. *)
Lemma received_line t Y h R : t ++ Y = h ++ CR :: LF :: R ->
  (exists h2, h = t ++ h2) \/ t = h ++ [CR] \/ (exists t', t = h ++ CR :: LF :: t' /\ t' ++ Y = R).
Proof.
  intros H. apply app_eq_inv in H as [(k & -> & E)|(k & -> & ->)].
  - destruct k as [|c k]; [left; exists []; by rewrite !app_nil_r|].
    simpl in E. injection E as <- E. destruct k as [|c k]; [by right; left|].
    simpl in E. injection E as <- E. right. right. by exists k.
  - left. by exists k.
Qed.

Lemma sdec_no_cr n : is_i64 n -> Forall (fun c => c <> CR /\ c <> 0) (sdec n).
Proof.
  intros H. unfold sdec. unfold is_i64 in H.
  assert (forall u, 0 <= u -> Forall (fun c => c <> CR /\ c <> 0) (dec u)) as D.
  { intros u U. eapply Forall_impl; [by apply dec_digits|]. unfold is_digit, CR. intros; lia. }
  destruct (Z.ltb_spec n 0); [constructor; [done|]|]; apply D; lia.
Qed.

Lemma sdsrange_drop s n : 0 <= n <= zlen s -> zlen s < 2 ^ 62 -> sdsrange s n (-1) = drop (Z.to_nat n) s.
Proof.
  intros Hn Hs. unfold sdsrange. destruct (Z.eqb_spec (zlen s) 0) as [E|E].
  { destruct s; [by rewrite drop_nil|rewrite zlen_cons in E; pose proof (zlen_nonneg s); lia]. }
  pose proof (zlen_nonneg s). zdec. rewrite i64_u64, (i64_small (zlen s + -1)), (u64_small n) by (unfold is_u64, is_i64; lia).
  unfold sdssubstr. destruct (Z.ltb_spec (zlen s + -1) n).
  - assert (n = zlen s) as -> by lia. zdec. rewrite (drop_ge s (Z.to_nat (zlen s))) by (unfold zlen; lia). zdec. done.
  - rewrite u64_small by (unfold is_u64; lia). zdec. rewrite take_ge; [done|]. rewrite length_drop. zdec. unfold zlen in *. lia.
Qed.

(** ** One command *)

(** The parser leaves everything but the buffer and its own state alone. *)
Record same {E} (q q' : input E) : Prop := {
  same_world : world_of q' = world_of q;
  same_env : env q' = env q;
  same_alive : alive q' = alive q;
  same_reqtype : reqtype q' = reqtype q;
  same_pending : pending_cmds q' = pending_cmds q;
  same_ready : ready_len q' = ready_len q;
  same_argv : argv q' = argv q;
  same_error : read_error q' = read_error q;
  same_trace : trace q' = trace q
}.

#[export] Instance same_preorder {E} : PreOrder (@same E).
Proof. split; [by intros q; split|]. intros q1 q2 q3 [] []. split; congruence. Qed.

Definition pos_ok {E} (q : input E) : Prop := 0 <= qb_pos q <= zlen (querybuf q) /\ zlen (querybuf q) < 2 ^ 62.

Definition argv_sum (l : list (list Z)) : Z := zsum (map zlen l).

(** The counters of a command agree with its arguments, and they fit. *)
Record counted (p : pendingCommand) : Prop := {
  c_sum : p_argv_len_sum p = argv_sum (p_argv p);
  c_room : p_argc p <= p_argv_len p
}.

Lemma text_length {E} (q : input E) : pos_ok q -> zlen (text q) = zlen (querybuf q) - qb_pos q.
Proof. intros [H _]. unfold text, zlen in *. rewrite length_drop. lia. Qed.

(** Evaluates updated fields everywhere. *)
Ltac fields_in := cbn in *; try unfold constant in *; cbn in *.

Section OneCommand.
Context (cfg : config) (qcfg : qconfig) {E : Type}.
Implicit Types (q : input E) (p : pendingCommand).

(** A client that the parser puts no special limits on. *)
Definition parses q : Prop := is_master q = false /\ authRequired cfg (client_of q) = false.

Lemma parses_same q q' : same q q' -> parses q -> parses q'.
Proof. intros S. unfold parses, is_master, client_of. by rewrite (same_world _ _ S). Qed.

Lemma skip_text q n : pos_ok q -> 0 <= n <= zlen (text q) ->
  let q' := q<| qb_pos := qb_pos q + n |> in text q' = drop (Z.to_nat n) (text q) /\ pos_ok q'.
Proof.
  intros P H. pose proof (text_length q P) as L. destruct P as [P B]. destruct q as [? ? ? b pos]. fields_in.
  unfold text, pos_ok in *. fields_in. split; [|lia]. rewrite drop_drop. f_equal. lia.
Qed.

Lemma align_spec q ll : pos_ok q -> 0 <= ll < 2 ^ 62 ->
  let q' := align_big_arg q ll in
  same q q' /\ text q' = text q /\ pos_ok q' /\ multibulklen q' = multibulklen q /\ all_argv_len_sum q' = all_argv_len_sum q.
Proof.
  intros P L. unfold align_big_arg. destruct (_ && _ && _); [|by split_and!].
  destruct P as [P B]. rewrite sdsrange_drop by done. destruct q. unfold text, pos_ok in *. fields_in. split_and!; try done; unfold zlen in *; rewrite ?length_drop; lia.
Qed.

Lemma push_spec q p a : p_argc p < p_argv_len p ->
  push_arg q p a = Some (p<| p_argv := p_argv p ++ [a] |><| p_argv_len_sum := p_argv_len_sum p + zlen a |>,
                         q<| all_argv_len_sum := all_argv_len_sum q + zlen a |>).
Proof. intros H. unfold push_arg. zdec. done. Qed.

(** The array grows when it is full. *)
Definition grown q p : pendingCommand :=
  if p_argc p >=? p_argv_len p
  then p<| p_argv_len := Z.min (if p_argv_len p <? INT_MAX / 2 then p_argv_len p * 2 else INT_MAX) (p_argc p + multibulklen q) |>
  else p.

Lemma grown_spec q p : counted p -> 0 < p_argv_len p -> 0 < multibulklen q -> p_argc p + multibulklen q <= INT_MAX ->
  let p' := grown q p in
  p_argv p' = p_argv p /\ p_argv_len_sum p' = p_argv_len_sum p /\ p_flags p' = p_flags p /\ p_read_error p' = p_read_error p /\
  p_argc p' < p_argv_len p' /\ 0 < p_argv_len p'.
Proof.
  intros [C R] H M I. unfold grown. destruct (Z.geb_spec (p_argc p) (p_argv_len p)) as [G|G]; [|by split_and!].
  destruct p as [av n sum ib ro fl er]. unfold p_argc in *. fields_in. split_and!; try done; unfold INT_MAX in *; zcase; lia.
Qed.

Lemma pushed_spec p p1 a : counted p -> p_argv p1 = p_argv p -> p_argv_len_sum p1 = p_argv_len_sum p -> p_argc p1 < p_argv_len p1 ->
  let p2 := p1<| p_argv := p_argv p1 ++ [a] |><| p_argv_len_sum := p_argv_len_sum p1 + zlen a |> in
  p_argv p2 = p_argv p ++ [a] /\ counted p2 /\ p_argv_len p2 = p_argv_len p1 /\ p_flags p2 = p_flags p1 /\ p_read_error p2 = p_read_error p1.
Proof.
  intros [C R] A S L. destruct p1. unfold p_argc in *. fields_in. subst. split_and!; try done. split; unfold p_argc; fields_in.
  - rewrite C. unfold argv_sum. rewrite map_app, zsum_app. simpl. lia.
  - rewrite zlen_app. change (zlen [a]) with 1. lia.
Qed.

(** Taking an argument whose bytes are there. *)
Lemma take_spec q p a c d rest : pos_ok q -> bulklen q = zlen a -> text q = a ++ c :: d :: rest ->
  counted p -> 0 < p_argv_len p -> 0 < multibulklen q -> p_argc p + multibulklen q <= INT_MAX ->
  exists p' q', take_arg q p = Some (p', q') /\ same q q' /\ pos_ok q' /\ text q' = rest /\ bulklen q' = -1 /\
    multibulklen q' = multibulklen q - 1 /\ all_argv_len_sum q' = all_argv_len_sum q + zlen a /\
    p_argv p' = p_argv p ++ [a] /\ counted p' /\ 0 < p_argv_len p' /\ p_flags p' = p_flags p /\ p_read_error p' = p_read_error p.
Proof.
  intros P B T C H M I. unfold take_arg. fold (grown q p).
  destruct (grown_spec q p C H M I) as (G1 & G2 & G3 & G4 & G5 & G6). set (p1 := grown q p) in *. clearbody p1.
  assert (zlen (text q) = zlen a + (2 + zlen rest)) as L by (rewrite T, zlen_app, !zlen_cons; lia).
  pose proof (zlen_nonneg a). pose proof (zlen_nonneg rest).
  assert (forall s, take (Z.to_nat (zlen a)) (a ++ s) = a) as Ta.
  { intros s. unfold zlen. rewrite Nat2Z.id. apply take_app_length. }
  destruct (pushed_spec p p1 a C G1 G2 G5) as (A1 & A2 & A3 & A4 & A5). rewrite G3 in A4. rewrite G4 in A5. rewrite <- A3 in G6.
  destruct (_ && _ && _ && _) eqn:Big; rewrite push_spec by done; cbn [mbind option_bind]; rewrite B.
  - rewrite !andb_true_iff in Big. destruct Big as [[[_ Z0] _] Len]. apply Z.eqb_eq in Z0, Len.
    assert (querybuf q = text q) as Q by (unfold text; by rewrite Z0).
    assert (rest = []) as ->.
    { destruct P as [P1 P2]. rewrite Q, L, B, u64_small in Len by (unfold is_u64; rewrite Q, L in P2; lia).
      destruct rest; [done|rewrite zlen_cons in Len; pose proof (zlen_nonneg rest); lia]. }
    rewrite Q, T, Ta. eexists _, _. split; [reflexivity|]. clear Q T L Len P. destruct q. fields_in. subst. by split_and!.
  - rewrite T, Ta. eexists _, _. split; [reflexivity|].
    destruct (skip_text q (zlen a + 2) P ltac:(lia)) as [S1 S2].
    assert (drop (Z.to_nat (zlen a + 2)) (text q) = rest) as D.
    { rewrite T. replace (Z.to_nat (zlen a + 2)) with (length a + 2)%nat by (unfold zlen; lia).
      rewrite drop_app_add. done. }
    rewrite D in S1. clear T L D P. destruct q. fields_in. subst. by split_and!.
Qed.

(** ** Arguments *)

Definition arg_ok (a : list Z) : Prop := zlen a <= proto_max_bulk_len qcfg /\ zlen a < 2 ^ 61.

Lemma arg_i64 a : arg_ok a -> is_i64 (zlen a).
Proof. intros [_ H]. pose proof (zlen_nonneg a). unfold is_i64. lia. Qed.

Lemma bulk_header_spec q a Y R : pos_ok q -> parses q -> arg_ok a -> text q ++ Y = enc_arg a ++ R ->
  (bulk_header cfg qcfg q = HWait /\ zlen (text q) < zlen (enc_arg a)) \/
  (exists t, text q = (36 :: sdec (zlen a)) ++ CR :: LF :: t /\ t ++ Y = a ++ CRLF ++ R /\
    bulk_header cfg qcfg q = HValue (zlen a) (zlen (sdec (zlen a))) (qb_pos q + (zlen (36 :: sdec (zlen a)) + 2))).
Proof.
  intros P [M Au] A T. set (h := 36 :: sdec (zlen a)).
  assert (text q ++ Y = h ++ CR :: LF :: (a ++ CRLF ++ R)) as T'.
  { rewrite T. unfold enc_arg, h, CRLF. cbn [app]. repeat (rewrite <- app_assoc; cbn [app]). done. }
  pose proof (arg_i64 a A) as I. pose proof (sdec_length _ I) as L.
  assert (Forall (fun c => c <> CR) h) as H.
  { constructor; [done|]. eapply Forall_impl; [by apply sdec_no_cr|]. by intros c [? _]. }
  assert (zlen h = 1 + zlen (sdec (zlen a))) as Lh by apply zlen_cons.
  assert (zlen (enc_arg a) = zlen h + zlen a + 4) as La.
  { unfold enc_arg, h, CRLF. rewrite !zlen_cons, !zlen_app, !zlen_cons, zlen_nil. lia. }
  pose proof (zlen_nonneg a).
  unfold bulk_header. destruct (received_line _ _ _ _ T') as [(h2 & Eq)|[Eq|(t & Eq & Et)]].
  - left. split; [|rewrite La, Eq, zlen_app; pose proof (zlen_nonneg h2); lia]. rewrite Eq in H. apply Forall_app in H as [H _]. rewrite memchr_none by done.
    rewrite Eq, zlen_app in Lh. pose proof (zlen_nonneg h2). unfold PROTO_INLINE_MAX_SIZE. zdec. done.
  - left. split; [|rewrite La, Eq, zlen_app; change (zlen [CR]) with 1; lia]. rewrite Eq, memchr_app by done. rewrite zlen_app. change (zlen [CR]) with 1. zdec. done.
  - right. exists t. split_and!; [done|done|]. rewrite Eq, memchr_app by done. rewrite zlen_app, !zlen_cons.
    pose proof (zlen_nonneg t). zdec. change (hd 0 (h ++ CR :: LF :: t) =? 36) with true. cbn [negb].
    unfold bulk_value. change (tail h) with (sdec (zlen a)). rewrite string2ll_sdec, M, Au by done. destruct A as [A _].
    zdec. rewrite andb_false_r. by rewrite <- Z.add_assoc.
Qed.

(** The text that is still to be parsed for the arguments [b]. *)
Definition owed (bl : Z) (b : list (list Z)) : list Z :=
  if bl =? -1 then enc_args b else match b with a :: b => a ++ CRLF ++ enc_args b | [] => [] end.

(** The parser is between the arguments [b], or behind the header of the first. *)
Definition midway q p (b : list (list Z)) : Prop :=
  multibulklen q = zlen b /\
  (bulklen q = -1 \/ exists a b', b = a :: b' /\ bulklen q = zlen a /\ incomplete p = true).

Lemma has_ldiff f k m : has f m = false -> has (Z.ldiff f k) m = false.
Proof.
  unfold has. rewrite !negb_false_iff, !Z.eqb_eq. intros H. apply Z.bits_inj'. intros n Hn.
  apply (f_equal (fun z => Z.testbit z n)) in H. rewrite Z.land_spec, Z.bits_0 in *. rewrite Z.ldiff_spec.
  by destruct (Z.testbit f n), (Z.testbit k n), (Z.testbit m n).
Qed.

Lemma has_ldiff_self f m : has (Z.ldiff f m) m = false.
Proof.
  unfold has. rewrite negb_false_iff, Z.eqb_eq. apply Z.bits_inj'. intros n Hn.
  rewrite Z.land_spec, Z.ldiff_spec, Z.bits_0. by destruct (Z.testbit f n), (Z.testbit m n).
Qed.

Lemma has_lor_self f m : m <> 0 -> has (Z.lor f m) m = true.
Proof.
  intros Hm. unfold has. rewrite negb_true_iff, Z.eqb_neq, Z.land_lor_distr_l, Z.land_diag, Z.lor_eq_0_iff. tauto.
Qed.

Lemma incomplete_set p : incomplete (p<| p_flags := Z.lor (p_flags p) PENDING_CMD_FLAG_INCOMPLETE |>) = true.
Proof. destruct p. by apply has_lor_self. Qed.

(** What parsing some of the arguments [b] comes to. *)
Record advanced q p b Y R (q' : input E) (p' : pendingCommand) (b1 b2 : list (list Z)) : Prop := {
  adv_split : b = b1 ++ b2;
  adv_same : same q q';
  adv_pos : pos_ok q';
  adv_midway : midway q' p' b2;
  adv_text : text q' ++ Y = owed (bulklen q') b2 ++ R;
  adv_argv : p_argv p' = p_argv p ++ b1;
  adv_counted : counted p';
  adv_room : 0 < p_argv_len p';
  adv_error : p_read_error p' = p_read_error p;
  adv_sum : all_argv_len_sum q' = all_argv_len_sum q + argv_sum b1;
  adv_incomplete : incomplete p' = match b2 with [] => false | _ => true end;
  adv_shrinks : zlen (text q') <= zlen (text q);
  adv_wait : b2 <> [] -> zlen (text q') < zlen (owed (bulklen q') b2)
}.

(** The bytes of an argument are there or not. *)
Lemma received_arg t Y a R : t ++ Y = a ++ CRLF ++ R ->
  zlen t < zlen a + 2 \/ (zlen a + 2 <= zlen t /\ exists t', t = a ++ CR :: LF :: t' /\ t' ++ Y = R).
Proof.
  intros H. change (CRLF ++ R) with ([CR; LF] ++ R) in H. rewrite app_assoc in H.
  apply app_eq_inv in H as [(k & -> & Eq)|(k & Eq & ->)].
  - right. rewrite !zlen_app. change (zlen [CR; LF]) with 2. pose proof (zlen_nonneg k). split; [lia|].
    exists k. by rewrite <- app_assoc.
  - destruct k as [|c k].
    + right. rewrite app_nil_r in Eq. subst t. rewrite zlen_app. change (zlen [CR; LF]) with 2. split; [lia|]. by exists [].
    + left. apply (f_equal zlen) in Eq. rewrite !zlen_app, !zlen_cons, zlen_nil in Eq.
      pose proof (zlen_nonneg k). lia.
Qed.

Lemma stop_advanced q p a b Y R : pos_ok q -> multibulklen q = zlen (a :: b) -> bulklen q = -1 \/ bulklen q = zlen a ->
  counted p -> 0 < p_argv_len p -> text q ++ Y = owed (bulklen q) (a :: b) ++ R ->
  zlen (text q) < zlen (owed (bulklen q) (a :: b)) ->
  exists p' q', stop_incomplete q p = Some (true, p', q') /\ advanced q p (a :: b) Y R q' p' [] (a :: b).
Proof.
  intros P M B [C1 C2] Ar T HY. eexists _, q. split; [reflexivity|].
  pose proof (incomplete_set p) as I. destruct p. split; fields_in; try done.
  - split; [done|]. destruct B as [B|B]; [by left|right; eauto].
  - by rewrite app_nil_r.
  - lia.
Qed.

(** The rest of a round: the first of the arguments [a :: b] has its header. *)
Lemma read_arg_spec n q p a b Y R :
  (forall q p, pos_ok q -> parses q -> multibulklen q = zlen b -> bulklen q = -1 -> counted p -> 0 < p_argv_len p ->
     p_argc p + zlen b <= INT_MAX -> text q ++ Y = enc_args b ++ R ->
     exists p' q' b1 b2, bulk_loop cfg qcfg n q p = Some (true, p', q') /\ advanced q p b Y R q' p' b1 b2) ->
  pos_ok q -> parses q -> arg_ok a -> multibulklen q = zlen (a :: b) -> bulklen q = zlen a -> counted p ->
  0 < p_argv_len p -> p_argc p + zlen (a :: b) <= INT_MAX -> text q ++ Y = (a ++ CRLF ++ enc_args b) ++ R ->
  exists p' q' b1 b2,
    read_arg (bulk_loop cfg qcfg n) q p = Some (true, p', q') /\
    advanced q p (a :: b) Y R q' p' b1 b2.
Proof.
  intros IH P Pa A M B C Ar I T. pose proof (arg_i64 a A) as A64. pose proof (zlen_nonneg a). destruct A as [A1 A2].
  unfold read_arg. rewrite B, u64_small by (unfold is_u64; lia). rewrite zlen_cons in M, I. pose proof (zlen_nonneg b).
  assert (text q ++ Y = a ++ CRLF ++ (enc_args b ++ R)) as T' by (rewrite T; by rewrite <- !app_assoc).
  destruct (received_arg _ _ _ _ T') as [L|[L (t & Et & Er)]]; zdec.
  - assert (owed (bulklen q) (a :: b) = a ++ CRLF ++ enc_args b) as O by (unfold owed; rewrite B; by zdec).
    destruct (stop_advanced q p a b Y R P ltac:(by rewrite zlen_cons) (or_intror B) C Ar) as (p' & q' & S1 & S2); rewrite ?O;
      [done| |by exists p', q', [], (a :: b)].
    rewrite !zlen_app. change (zlen CRLF) with 2. pose proof (zlen_nonneg (enc_args b)). lia.
  - destruct (take_spec q p a CR LF t P B Et C Ar ltac:(lia) ltac:(lia))
      as (p1 & q1 & -> & S1 & P1 & T1 & B1 & M1 & Al1 & Av1 & C1 & R1 & F1 & E1).
    cbn [mbind option_bind].
    destruct (IH q1 p1) as (p' & q' & b1 & b2 & -> & [D1 D2 D3 D4 D5 D6 D7 D8 D9 D10 D11 D12 D13]); try done.
    + by eapply parses_same.
    + lia.
    + unfold p_argc in *. rewrite Av1, zlen_app. change (zlen [a]) with 1. lia.
    + by rewrite T1.
    + exists p', q', (a :: b1), b2. split; [done|]. split; try done.
      * by rewrite D1.
      * by transitivity q1.
      * by rewrite D6, Av1, <- app_assoc.
      * by rewrite D9.
      * rewrite D10, Al1. unfold argv_sum. simpl. lia.
      * rewrite T1 in D12. rewrite Et, zlen_app, !zlen_cons. lia.
Qed.

(** Behind the header of an argument. *)
Lemma header_behind q (a t : list Z) : pos_ok q -> zlen a < 2 ^ 61 -> text q = (36 :: sdec (zlen a)) ++ CR :: LF :: t ->
  let q' := (align_big_arg (q<| qb_pos := qb_pos q + (zlen (36 :: sdec (zlen a)) + 2) |>) (zlen a))<| bulklen := zlen a |> in
  same q q' /\ pos_ok q' /\ text q' = t /\ bulklen q' = zlen a /\ multibulklen q' = multibulklen q /\
  all_argv_len_sum q' = all_argv_len_sum q.
Proof.
  intros P A Et. set (h := 36 :: sdec (zlen a)) in *. pose proof (zlen_nonneg a). pose proof (zlen_nonneg h). pose proof (zlen_nonneg t).
  destruct (skip_text q (zlen h + 2) P) as [T1 P1]; [rewrite Et, zlen_app, !zlen_cons; lia|].
  rewrite Et in T1. replace (Z.to_nat (zlen h + 2)) with (length h + 2)%nat in T1 by (unfold zlen; lia).
  rewrite drop_app_add in T1. cbn [drop] in T1.
  set (q1 := q <| qb_pos := _ |>) in *. assert (same q q1 /\ multibulklen q1 = multibulklen q /\ all_argv_len_sum q1 = all_argv_len_sum q) as (S1 & M1 & L1).
  { destruct q. by split_and!. }
  clearbody q1. destruct (align_spec q1 (zlen a) P1 ltac:(lia)) as (S2 & T2 & P2 & M2 & L2).
  set (q2 := align_big_arg q1 (zlen a)) in *. clearbody q2. assert (same q q2) as S by (by transitivity q1).
  rewrite T1 in T2. rewrite M1 in M2. rewrite L1 in L2. clear - S T2 P2 M2 L2. destruct S, q2. unfold pos_ok, text in *. fields_in. split_and!; [by split|try (done || lia)..].
Qed.

Lemma bytes_counted p n : let p' := p<| p_input_bytes := u64 (p_input_bytes p + n) |> in
  p_argv p' = p_argv p /\ p_argv_len p' = p_argv_len p /\ p_argv_len_sum p' = p_argv_len_sum p /\ p_read_error p' = p_read_error p.
Proof. by destruct p. Qed.

Lemma bulk_loop_spec b : forall q p Y R, pos_ok q -> parses q -> Forall arg_ok b -> midway q p b -> counted p ->
  0 < p_argv_len p -> p_argc p + zlen b <= INT_MAX -> text q ++ Y = owed (bulklen q) b ++ R ->
  exists p' q' b1 b2, bulk_loop cfg qcfg (length b) q p = Some (true, p', q') /\ advanced q p b Y R q' p' b1 b2.
Proof.
  induction b as [|a b IH]; intros q p Y R P Pa A [M B] C Ar I T.
  - destruct B as [B|(a & b' & ? & _)]; [|done]. eexists _, q, [], []. split; [reflexivity|].
    pose proof (has_ldiff_self (p_flags p) PENDING_CMD_FLAG_INCOMPLETE) as F. destruct C as [C1 C2]. destruct p. split; fields_in; try done.
    + by split; [|left].
    + by rewrite app_nil_r.
    + lia.
  - apply Forall_cons in A as [A Ab]. cbn [length bulk_loop].
    assert (forall q p, pos_ok q -> parses q -> multibulklen q = zlen b -> bulklen q = -1 -> counted p -> 0 < p_argv_len p ->
      p_argc p + zlen b <= INT_MAX -> text q ++ Y = enc_args b ++ R ->
      exists p' q' b1 b2, bulk_loop cfg qcfg (length b) q p = Some (true, p', q') /\ advanced q p b Y R q' p' b1 b2) as IH'.
    { intros q1 p1 P1 Pa1 M1 B1 C1 R1 I1 T1. apply IH; try done; [by split; [|left]|]. by rewrite B1. }
    destruct B as [B|(a' & b' & [= <- <-] & B & Inc)].
    + rewrite B in T |- *. change (-1 =? -1) with true. cbn iota. change (owed (-1) (a :: b)) with (enc_arg a ++ enc_args b) in T.
      rewrite <- app_assoc in T. destruct (bulk_header_spec q a Y _ P Pa A T) as [[-> HY]|(t & Et & Ey & ->)].
      * assert (owed (bulklen q) (a :: b) = enc_arg a ++ enc_args b) as O by (by rewrite B).
        destruct (stop_advanced q p a b Y R P M (or_introl B) C Ar) as (p' & q' & S1 & S2); rewrite ?O;
          [by rewrite T, <- app_assoc| |by exists p', q', [], (a :: b)].
        rewrite zlen_app. pose proof (zlen_nonneg (enc_args b)). lia.
      * destruct (header_behind q a t P ltac:(by destruct A) Et) as (S1 & P1 & T1 & B1 & M1 & Al1).
        set (q1 := _ <| bulklen := _ |>) in *. clearbody q1.
        destruct (bytes_counted p (zlen (sdec (zlen a)) + 3)) as (V1 & V2 & V3 & V4). set (p1 := p <| p_input_bytes := _ |>) in *. clearbody p1.
        destruct (read_arg_spec (length b) q1 p1 a b Y R IH') as (p' & q' & b1 & b2 & -> & D); try done.
        -- by eapply parses_same.
        -- by rewrite M1.
        -- destruct C as [C1 C2]. split; unfold p_argc in *; congruence.
        -- by rewrite V2.
        -- unfold p_argc in *. by rewrite V1.
        -- rewrite T1, Ey. by rewrite <- !app_assoc.
        -- exists p', q', b1, b2. split; [done|]. destruct D. split; try done; [by transitivity q1|congruence|congruence|lia|].
           rewrite Et, zlen_app, !zlen_cons. pose proof (zlen_nonneg (sdec (zlen a))). rewrite T1 in adv_shrinks0. lia.
    + pose proof (zlen_nonneg a). rewrite B. zdec. rewrite Inc.
      apply read_arg_spec; try done. unfold owed in T. rewrite B, (proj2 (Z.eqb_neq _ _)) in T by lia. done.
Qed.

(** ** A whole command *)

Definition cmd_ok (l : list (list Z)) : Prop := 1 <= zlen l <= INT_MAX /\ Forall arg_ok l.

Lemma mbulk_header_spec q l Y R : parses q -> cmd_ok l -> text q ++ Y = enc_cmd l ++ R ->
  (mbulk_header cfg q = Some HWait /\ zlen (text q) < zlen (enc_cmd l)) \/
  (exists t, text q = (42 :: sdec (zlen l)) ++ CR :: LF :: t /\ t ++ Y = enc_args l ++ R /\
    mbulk_header cfg q = Some (HValue (zlen l) (zlen (sdec (zlen l))) (qb_pos q + (zlen (42 :: sdec (zlen l)) + 2)))).
Proof.
  intros [M Au] [Hl _] T. set (h := 42 :: sdec (zlen l)).
  assert (text q ++ Y = h ++ CR :: LF :: (enc_args l ++ R)) as T'.
  { rewrite T. unfold enc_cmd, h, CRLF. cbn [app]. repeat (rewrite <- app_assoc; cbn [app]). done. }
  assert (is_i64 (zlen l)) as I by (unfold is_i64, INT_MAX in *; lia). pose proof (sdec_length _ I) as L.
  assert (Forall (fun c => c <> CR /\ c <> 0) h) as H by (constructor; [done|by apply sdec_no_cr]).
  assert (zlen h = 1 + zlen (sdec (zlen l))) as Lh by apply zlen_cons. pose proof (zlen_nonneg (enc_args l)).
  assert (zlen (enc_cmd l) = zlen h + 2 + zlen (enc_args l)) as La.
  { unfold enc_cmd, h, CRLF. rewrite !zlen_cons, !zlen_app, !zlen_cons, zlen_nil. lia. }
  unfold mbulk_header. destruct (received_line _ _ _ _ T') as [(h2 & Eq)|[Eq|(t & Eq & Et)]].
  - left. rewrite Eq in H. apply Forall_app in H as [H _].
    rewrite strchr_none by (eapply Forall_impl; [exact H|]; by intros c [? _]).
    rewrite Eq, zlen_app in Lh, La. pose proof (zlen_nonneg h2). unfold PROTO_INLINE_MAX_SIZE. zdec. split; [done|lia].
  - left. rewrite Eq, strchr_app by done. rewrite La, !zlen_app. change (zlen [CR]) with 1. zdec. split; [done|lia].
  - right. exists t. split_and!; [done|done|]. rewrite Eq, strchr_app by done. rewrite zlen_app, !zlen_cons.
    pose proof (zlen_nonneg t). zdec. change (hd 0 (h ++ CR :: LF :: t) =? 42) with true. cbn [negb].
    unfold mbulk_value. change (tail h) with (sdec (zlen l)). rewrite string2ll_sdec, Au by done.
    zdec. rewrite andb_false_r. by rewrite <- Z.add_assoc.
Qed.

(** Parsing starts at a command. *)
Lemma fresh_spec q room l Y R : pos_ok q -> parses q -> cmd_ok l -> multibulklen q = 0 -> text q ++ Y = enc_cmd l ++ R ->
  (processMultibulkBuffer cfg qcfg q (new_command room) = Some (false, new_command room, q) /\ zlen (text q) < zlen (enc_cmd l)) \/
  (exists p' q' b1 b2, processMultibulkBuffer cfg qcfg q (new_command room) = Some (true, p', q') /\
     advanced q (new_command room) l Y R q' p' b1 b2).
Proof.
  intros P Pa Hl M T. unfold processMultibulkBuffer. rewrite M. change (0 =? 0) with true. cbn iota.
  change (p_argc (new_command room) =? 0) with true. cbn [negb].
  destruct (mbulk_header_spec q l Y R Pa Hl T) as [[-> W]|(t & Et & Ey & ->)]; cbn [mbind option_bind]; [by left|right].
  destruct Hl as [Hl Ha]. set (h := 42 :: sdec (zlen l)) in *. pose proof (zlen_nonneg h). pose proof (zlen_nonneg t).
  destruct (skip_text q (zlen h + 2) P) as [T1 P1]; [rewrite Et, zlen_app, !zlen_cons; lia|].
  rewrite Et in T1. replace (Z.to_nat (zlen h + 2)) with (length h + 2)%nat in T1 by (unfold zlen; lia).
  rewrite drop_app_add in T1. cbn [drop] in T1. zdec.
  match goal with |- context [if ?n <? zlen l then ?a else ?b] => set (p1 := if n <? zlen l then a else b) end.
  assert (p_argv p1 = [] /\ p_argv_len_sum p1 = 0 /\ p_read_error p1 = 0 /\ 0 < p_argv_len p1) as (V1 & V2 & V3 & V4).
  { unfold p1. destruct (Z.ltb_spec (p_argv_len (new_command room)) (zlen l)) as [G|G]; fields_in; split_and!; try done; lia. }
  clearbody p1. destruct (bytes_counted p1 (zlen (sdec (zlen l)) + 3)) as (W1 & W2 & W3 & W4).
  set (p2 := p1 <| p_input_bytes := _ |>) in *. clearbody p2.
  set (q1 := q <| qb_pos := _ |>) in *. set (q2 := q1 <| multibulklen := _ |> <| bulklen := _ |>).
  assert (same q q2 /\ text q2 = t /\ pos_ok q2 /\ multibulklen q2 = zlen l /\ bulklen q2 = -1 /\
          all_argv_len_sum q2 = all_argv_len_sum q) as (S1 & T2 & P2 & M2 & B2 & L2).
  { clear - T1 P1. destruct q. by split_and!. }
  clearbody q2. replace (Z.to_nat (zlen l)) with (length l) by (unfold zlen; lia).
  destruct (bulk_loop_spec l q2 p2 Y R P2) as (p' & q' & b1 & b2 & -> & D); try done.
  - by eapply parses_same.
  - split; [done|by left].
  - split; unfold p_argc; [by rewrite W1, W3, V1, V2|rewrite W1, W2, V1, zlen_nil; lia].
  - by rewrite W2.
  - unfold p_argc. rewrite W1, V1, zlen_nil. lia.
  - by rewrite T2, B2.
  - exists p', q', b1, b2. split; [done|]. destruct D. split; try done;
      [by transitivity q2|rewrite adv_argv0, W1, V1; done|rewrite adv_error0, W4, V3; done|by rewrite adv_sum0, L2|].
    rewrite Et, zlen_app, !zlen_cons. rewrite T2 in adv_shrinks0. lia.
Qed.

(** Parsing goes on in the middle of a command. *)
Lemma resumed_spec q p b Y R : pos_ok q -> parses q -> Forall arg_ok b -> b <> [] -> midway q p b -> counted p ->
  0 < p_argv_len p -> p_argc p + zlen b <= INT_MAX -> text q ++ Y = owed (bulklen q) b ++ R ->
  exists p' q' b1 b2, processMultibulkBuffer cfg qcfg q p = Some (true, p', q') /\ advanced q p b Y R q' p' b1 b2.
Proof.
  intros P Pa Hb Nb M C Ar I T. unfold processMultibulkBuffer.
  assert (multibulklen q = zlen b /\ 0 < zlen b) as [Ml Pl].
  { destruct M as [M _]. split; [done|]. destruct b as [|a b]; [done|]. rewrite zlen_cons. pose proof (zlen_nonneg b). lia. }
  rewrite Ml. zdec. replace (Z.to_nat (zlen b)) with (length b) by (unfold zlen; lia). by apply bulk_loop_spec.
Qed.
End OneCommand.

(** ** Delivering commands *)

Lemma enc_args_app l1 l2 : enc_args (l1 ++ l2) = enc_args l1 ++ enc_args l2.
Proof. unfold enc_args. by rewrite map_app, concat_app. Qed.

Lemma enc_cmds_app l1 l2 : enc_cmds (l1 ++ l2) = enc_cmds l1 ++ enc_cmds l2.
Proof. unfold enc_cmds. by rewrite map_app, concat_app. Qed.

Lemma enc_cmds_cons c l : enc_cmds (c :: l) = enc_cmd c ++ enc_cmds l.
Proof. done. Qed.

Lemma zlen_enc_arg a : zlen (enc_arg a) = zlen (sdec (zlen a)) + zlen a + 5.
Proof. unfold enc_arg. rewrite zlen_cons, !zlen_app. change (zlen CRLF) with 2. lia. Qed.

Lemma zlen_enc_cmd l : zlen (enc_cmd l) = zlen (sdec (zlen l)) + zlen (enc_args l) + 3.
Proof. unfold enc_cmd. rewrite zlen_cons, !zlen_app. change (zlen CRLF) with 2. lia. Qed.

Lemma enc_cmd_args l : zlen (enc_args l) + 3 <= zlen (enc_cmd l).
Proof. rewrite zlen_enc_cmd. pose proof (zlen_nonneg (sdec (zlen l))). lia. Qed.

Lemma argv_sum_nonneg l : 0 <= argv_sum l.
Proof. unfold argv_sum. induction l as [|a l IH]; simpl; [done|]. pose proof (zlen_nonneg a). lia. Qed.

Lemma argv_sum_enc l : argv_sum l <= zlen (enc_args l).
Proof.
  induction l as [|a l IH]; [done|]. change (enc_args (a :: l)) with (enc_arg a ++ enc_args l).
  rewrite zlen_app, zlen_enc_arg. unfold argv_sum in *. simpl. pose proof (zlen_nonneg (sdec (zlen a))). lia.
Qed.

Lemma argv_sums_enc l : zsum (map argv_sum l) <= zlen (enc_cmds l).
Proof.
  induction l as [|c l IH]; [done|]. rewrite enc_cmds_cons, zlen_app, zlen_enc_cmd. simpl.
  pose proof (argv_sum_enc c). pose proof (zlen_nonneg (sdec (zlen c))). lia.
Qed.

(** What is owed is at least a byte and at most the arguments. *)
Lemma owed_length bl b : b <> [] -> 0 < zlen (owed bl b) <= zlen (enc_args b).
Proof.
  destruct b as [|a b]; [done|]. intros _. change (enc_args (a :: b)) with (enc_arg a ++ enc_args b).
  pose proof (zlen_nonneg a). pose proof (zlen_nonneg (enc_args b)). pose proof (zlen_nonneg (sdec (zlen a))).
  pose proof (zlen_enc_arg a). unfold owed. destruct (bl =? -1).
  - change (enc_args (a :: b)) with (enc_arg a ++ enc_args b). rewrite zlen_app. lia.
  - rewrite !zlen_app. change (zlen CRLF) with 2. lia.
Qed.

(** [left] is still to be delivered and [Y] is still to arrive: exactly the
    commands before [left] are there completely. *)
Definition settled (Y : list Z) (left : list (list (list Z))) : Prop :=
  match left with [] => Y = [] | c :: l => zlen (enc_cmds l) < zlen Y <= zlen (enc_cmds (c :: l)) end.

Lemma settled_between t Y left : t ++ Y = enc_cmds left ->
  match left with [] => True | c :: _ => zlen t < zlen (enc_cmd c) end -> settled Y left.
Proof.
  intros T W. destruct left as [|c l]; [by apply app_nil in T as [_ ?]|]. unfold settled.
  apply (f_equal zlen) in T. rewrite enc_cmds_cons, !zlen_app in *. pose proof (zlen_nonneg t). lia.
Qed.

Lemma settled_within t Y bl a b left : t ++ Y = owed bl b ++ enc_cmds left -> b <> [] -> zlen t < zlen (owed bl b) ->
  settled Y ((a ++ b) :: left).
Proof.
  intros T B W. unfold settled. apply (f_equal zlen) in T. rewrite enc_cmds_cons, !zlen_app in *. pose proof (owed_length bl b B).
  pose proof (enc_cmd_args (a ++ b)) as A. rewrite enc_args_app, zlen_app in A.
  pose proof (zlen_nonneg t). pose proof (zlen_nonneg (enc_args a)). lia.
Qed.

Section Delivery.
Context (cfg : config) (qcfg : qconfig) {E : Type}.
Context (processCommand : E -> world -> list (list Z) -> E * option (bool * world)).
Context (preprocessCommand : list (list Z) -> Z).
Context (is_asking is_client : list (list Z) -> bool) (mstate_argv_len_sums : E -> Z).
Implicit Types (q : input E) (p : pendingCommand).

(** Nothing holds the client up, and it is logged in. *)
Definition busy_flags : Z :=
  Z.lor CLIENT_BLOCKED (Z.lor CLIENT_UNBLOCKED (Z.lor CLIENT_PENDING_COMMAND (Z.lor CLIENT_MASTER (Z.lor CLIENT_CLOSE_AFTER_REPLY CLIENT_CLOSE_ASAP)))).
Definition calm (w : world) : Prop := has (flags (cl w)) busy_flags = false /\ authRequired cfg (cl w) = false.

(** The bytes a client sends, together with what it queues in a transaction,
    stay below the limit on its query buffer. *)
Context (total : Z).
Definition bounded (e : E) : Prop := mstate_argv_len_sums e + total <= client_max_querybuf_len qcfg.

Definition nonfatal (e : Z) : Prop :=
  e = 0 \/ e = CLIENT_READ_COMMAND_NOT_FOUND \/ e = CLIENT_READ_BAD_ARITY \/ e = CLIENT_READ_CROSS_SLOT.

(** The commands neither block the client nor close it. *)
Hypothesis executes : forall e w cmd, calm w -> bounded e ->
  exists e' queued w', processCommand e w cmd = (e', Some (queued, w')) /\ calm w' /\ bounded e'.
Hypothesis looks_up : forall cmd, nonfatal (preprocessCommand cmd).
Hypothesis looks_ahead : 1 <= server_lookahead qcfg.
Hypothesis total_fits : total < 2 ^ 62.

Lemma has_submask f m k : has f m = false -> Z.land k m = k -> has f k = false.
Proof.
  unfold has. rewrite !negb_false_iff, !Z.eqb_eq. intros H K. rewrite <- K, (Z.land_comm k m), Z.land_assoc, H. done.
Qed.

Lemma calm_bits w k : calm w -> Z.land k busy_flags = k -> has (flags (cl w)) k = false.
Proof. intros [C _] K. by eapply has_submask. Qed.

Lemma calm_parses q : calm (world_of q) -> parses cfg q.
Proof. intros C. split; [by apply calm_bits|by destruct C]. Qed.

Lemma calm_goes_on q : calm (world_of q) -> must_stop qcfg q = false.
Proof. intros C. unfold must_stop, client_of. by rewrite !(calm_bits (world_of q)). Qed.

Lemma calm_lookahead q : calm (world_of q) -> lookahead cfg qcfg q = server_lookahead qcfg.
Proof. intros [_ A]. unfold lookahead, client_of. by rewrite A. Qed.

Lemma reset_flags_calm cmd f : has f busy_flags = false -> has (reset_flags is_asking is_client cmd f) busy_flags = false.
Proof.
  intros H. unfold reset_flags. cbv zeta.
  repeat match goal with
  | |- context [if ?b then Z.ldiff ?g ?k else ?g] => destruct b
  | |- context [if ?b then _ else _] => destruct b
  end; rewrite ?has_ldiff; try done; rewrite ?has_lor by done; by repeat apply has_ldiff.
Qed.

(** A command that waits for its execution. *)
Record ready p : Prop := {
  r_complete : incomplete p = false;
  r_counted : counted p;
  r_error : nonfatal (p_read_error p);
  r_argv : p_argv p <> []
}.

(** Where the parser is: between two commands, or within one. *)
Inductive stage q (Y : list Z) : list pendingCommand -> list (list (list Z)) -> Prop :=
  | StageBetween left : reqtype q = 0 \/ (reqtype q = PROTO_REQ_MULTIBULK /\ left <> []) -> multibulklen q = 0 ->
      text q ++ Y = enc_cmds left -> stage q Y [] left
  | StageWithin p b left : reqtype q = PROTO_REQ_MULTIBULK -> incomplete p = true -> counted p -> 0 < p_argv_len p ->
      p_read_error p = 0 -> b <> [] -> midway q p b -> text q ++ Y = owed (bulklen q) b ++ enc_cmds left ->
      stage q Y [p] ((p_argv p ++ b) :: left).

(** The commands [rs] are parsed, those of [left] are not or not completely,
    and the bytes [Y] have not arrived. *)
Record delivering q (Y : list Z) (rs tl : list pendingCommand) (left : list (list (list Z))) : Prop := {
  d_pending : pending_cmds q = rs ++ tl;
  d_ready_len : ready_len q = zlen rs;
  d_ready : Forall ready rs;
  d_stage : stage q Y tl left;
  d_cmds : Forall (cmd_ok qcfg) left;
  d_total : zlen (enc_cmds (map p_argv rs ++ left)) <= total;
  d_sum : all_argv_len_sum q = zsum (map p_argv_len_sum (pending_cmds q));
  d_pos : pos_ok q;
  d_calm : calm (world_of q);
  d_bounded : bounded (env q);
  d_alive : alive q = true
}.

(** What the parser does not touch. *)
Record kept q q' : Prop := {
  k_world : world_of q' = world_of q;
  k_env : env q' = env q;
  k_alive : alive q' = alive q;
  k_error : read_error q' = read_error q;
  k_trace : trace q' = trace q
}.

#[local] Instance kept_preorder : PreOrder kept.
Proof. split; [by intros q; split|]. intros q1 q2 q3 [] []. split; congruence. Qed.

Lemma acquire_spec q : exists room q', acquirePendingCommand q = (new_command room, q') /\ same q q' /\ text q' = text q /\
  (pos_ok q -> pos_ok q') /\ multibulklen q' = multibulklen q /\ all_argv_len_sum q' = all_argv_len_sum q.
Proof.
  unfold acquirePendingCommand. destruct (cmd_pool q) as [|room pool]; eexists _, _; (split; [reflexivity|]).
  - by split_and!.
  - destruct q. by split_and!.
Qed.

(** A command is parsed up to its arguments [b2]. *)
Record parsed_part q Y rs c left q' p b2 : Prop := {
  pp_split : c = p_argv p ++ b2;
  pp_kept : kept q q';
  pp_reqtype : reqtype q' = PROTO_REQ_MULTIBULK;
  pp_pending : pending_cmds q' = rs;
  pp_ready : ready_len q' = ready_len q;
  pp_pos : pos_ok q';
  pp_midway : midway q' p b2;
  pp_text : text q' ++ Y = owed (bulklen q') b2 ++ enc_cmds left;
  pp_counted : counted p;
  pp_room : 0 < p_argv_len p;
  pp_error : p_read_error p = 0;
  pp_incomplete : incomplete p = match b2 with [] => false | _ => true end;
  pp_wait : b2 <> [] -> zlen (text q') < zlen (owed (bulklen q') b2);
  pp_shrinks : zlen (text q') <= zlen (text q);
  pp_sum : all_argv_len_sum q' = zsum (map p_argv_len_sum rs) + argv_sum (p_argv p)
}.

Lemma advanced_part q q0 p0 a b Y left q' p' b1 b2 : advanced q0 p0 b Y (enc_cmds left) q' p' b1 b2 ->
  text q0 = text q -> kept q q0 -> reqtype q0 = PROTO_REQ_MULTIBULK -> ready_len q0 = ready_len q -> p_read_error p0 = 0 -> p_argv p0 = a ->
  all_argv_len_sum q0 = zsum (map p_argv_len_sum (pending_cmds q0)) + argv_sum a ->
  parsed_part q Y (pending_cmds q0) (a ++ b) left q' p' b2.
Proof.
  intros [] T0 K R L Er A S. rewrite T0 in *. destruct adv_same0. split; try done; try congruence.
  - by rewrite adv_argv0, A, adv_split0, <- app_assoc.
  - transitivity q0; [done|by split].
  - rewrite adv_sum0, S, adv_argv0, A. unfold argv_sum. rewrite map_app, zsum_app. lia.
Qed.

Lemma parse_between q Y rs c left : delivering q Y rs [] (c :: left) -> reqtype q = PROTO_REQ_MULTIBULK ->
  (exists room q', parse_one cfg qcfg q = Some (false, new_command room, q') /\ same q q' /\ text q' = text q /\ pos_ok q' /\
     multibulklen q' = 0 /\ all_argv_len_sum q' = all_argv_len_sum q /\ zlen (text q) < zlen (enc_cmd c)) \/
  (exists p q' b2, parse_one cfg qcfg q = Some (true, p, q') /\ parsed_part q Y rs c left q' p b2).
Proof.
  intros [D1 D2 D3 D4 D5 D6 D7 D8 D9 D10 D11] R. rewrite app_nil_r in D1. inversion D4 as [? _ M T|]; subst.
  unfold parse_one. rewrite R. cbn [Z.eqb]. change (PROTO_REQ_MULTIBULK =? PROTO_REQ_INLINE) with false.
  change (PROTO_REQ_MULTIBULK =? PROTO_REQ_MULTIBULK) with true. cbn iota. rewrite D2, Z.eqb_refl. cbn [negb].
  destruct (acquire_spec q) as (room & q0 & -> & S0 & T0 & P0 & M0 & L0). cbn [mbind option_bind].
  apply Forall_cons in D5 as [Hc _]. rewrite enc_cmds_cons in T. rewrite M in M0. rewrite <- T0 in T.
  destruct (fresh_spec cfg qcfg q0 room c Y (enc_cmds left)) as [[-> W]|(p & q' & b1 & b2 & -> & A)]; auto.
  - eapply parses_same; [done|]. by apply calm_parses.
  - left. exists room, q0. split_and!; auto. by rewrite <- T0.
  - right. exists p, q', b2. split; [done|]. rewrite <- (same_pending _ _ S0).
    eapply (advanced_part q q0 _ []); try done.
    + destruct S0. by split.
    + by rewrite (same_reqtype _ _ S0).
    + by rewrite (same_ready _ _ S0).
    + rewrite L0, D7, (same_pending _ _ S0). unfold argv_sum. simpl. lia.
Qed.

Lemma pop_tail q rs p : pending_cmds q = rs ++ [p] -> incomplete p = true ->
  popPendingCommandFromTail q = Some (p, q<| pending_cmds := rs |><| ready_len := ready_len q |>).
Proof.
  intros H I. unfold popPendingCommandFromTail. rewrite H, rev_app_distr. cbn [rev app]. rewrite rev_involutive.
  destruct q. fields_in. by rewrite I.
Qed.

Lemma parse_within q Y rs p c left : delivering q Y rs [p] (c :: left) ->
  exists p' q' b2, parse_one cfg qcfg q = Some (true, p', q') /\ parsed_part q Y rs c left q' p' b2.
Proof.
  intros [D1 D2 D3 D4 D5 D6 D7 D8 D9 D10 D11]. inversion D4 as [|? b ? R I C Ar Er Nb M T]; subst.
  unfold parse_one. rewrite R. change (PROTO_REQ_MULTIBULK =? PROTO_REQ_INLINE) with false.
  change (PROTO_REQ_MULTIBULK =? PROTO_REQ_MULTIBULK) with true. cbn iota.
  rewrite D1, D2, zlen_app. change (zlen [p]) with 1. zdec. cbn [negb]. rewrite (pop_tail q rs p) by done. cbn [mbind option_bind].
  rewrite D1, map_app, zsum_app in D7. cbn [map zsum] in D7. apply Forall_cons in D5 as [[Hc Ha] _]. apply Forall_app in Ha as [_ Ha].
  set (q0 := q <| pending_cmds := _ |> <| ready_len := _ |>).
  assert (kept q q0 /\ pending_cmds q0 = rs /\ reqtype q0 = reqtype q /\ ready_len q0 = ready_len q /\ pos_ok q0 /\ text q0 = text q /\
    bulklen q0 = bulklen q /\ midway q0 p b /\ all_argv_len_sum q0 = all_argv_len_sum q /\ parses cfg q0)
    as (K0 & P0 & R0 & L0 & Po0 & T0 & B0 & M0 & S0 & Pa0).
  { apply calm_parses in D9. clear - D8 D9 M. destruct q. by split_and!. }
  clearbody q0. rewrite zlen_app in Hc.
  destruct (resumed_spec cfg qcfg q0 p b Y (enc_cmds left)) as (p' & q' & b1 & b2 & -> & A); auto.
  - unfold p_argc. lia.
  - by rewrite T0, B0.
  - exists p', q', b2. split; [done|]. rewrite <- P0. eapply (advanced_part q q0); try done.
    + by rewrite R0.
    + rewrite S0, D7, P0, (c_sum _ C). simpl. lia.
Qed.

Lemma stage_length q Y tl c left : stage q Y tl (c :: left) ->
  zlen (enc_cmds left) < zlen (text q) + zlen Y <= zlen (enc_cmds (c :: left)).
Proof.
  rewrite enc_cmds_cons, zlen_app. intros S. inversion S as [? _ _ T|? b ? _ _ _ _ _ Nb _ T]; subst; apply (f_equal zlen) in T.
  - rewrite enc_cmds_cons, !zlen_app in T. pose proof (enc_cmd_args c). pose proof (zlen_nonneg (enc_args c)). lia.
  - rewrite !zlen_app in T. pose proof (owed_length (bulklen q) b Nb). pose proof (enc_cmd_args (p_argv p ++ b)) as A.
    rewrite enc_args_app, zlen_app in A. pose proof (zlen_nonneg (enc_args (p_argv p))). lia.
Qed.

Lemma enqueue_whole q Y rs tl c left q' p : delivering q Y rs tl (c :: left) -> parsed_part q Y rs c left q' p [] ->
  exists p2 q2, enqueue preprocessCommand q' p = (true, q2) /\ delivering q2 Y (rs ++ [p2]) [] left /\ p_argv p2 = c /\
    kept q q2 /\ zlen (text q2) < zlen (text q).
Proof.
  intros [D1 D2 D3 D4 D5 D6 D7 D8 D9 D10 D11] [P1 P2 P3 P4 P5 P6 P7 P8 P9 P10 P11 P12 P13 P14 P15].
  unfold enqueue. rewrite P11, P12. cbn [negb orb Z.eqb]. apply Forall_cons in D5 as [[Hc _] D5]. rewrite app_nil_r in P1. subst c.
  match goal with |- context [addPendingCommand q' ?x] => set (p2 := x) end.
  assert (p_argv p2 = p_argv p /\ p_argv_len_sum p2 = p_argv_len_sum p /\ ready p2) as (V1 & V2 & V3).
  { subst p2. clear - P9 P12 Hc looks_up. destruct p as [av n sm ib ro fl er]. destruct P9. unfold incomplete, p_argc in *. fields_in.
    rewrite (proj2 (Z.eqb_neq (zlen av) 0)) by lia. fields_in. split_and!; try done. split; fields_in.
    - unfold incomplete. fields_in. rewrite has_lor; done.
    - by split.
    - by apply looks_up.
    - intros ->. rewrite zlen_nil in Hc. lia. }
  clearbody p2. eexists p2, _. split; [reflexivity|].
  apply stage_length in D4. 
  assert (owed (bulklen q') [] = []) as O by (unfold owed; by destruct (_ =? _)). rewrite O in P8. cbn [app] in P8.
  assert (zlen (text q') < zlen (text q)) as Sh by (apply (f_equal zlen) in P8; rewrite zlen_app in P8; lia).
  destruct P2 as [K1 K2 K3 K4 K5]. rewrite <- K1 in D9. rewrite <- K2 in D10. rewrite <- K3 in D11. destruct V3 as [R1 R2 R3 R4].
  destruct q' as [w e al qb pos pk rt ml bl sm pend rl pool cap av re]. unfold addPendingCommand, resetClientQbufState. rewrite R1.
  fields_in. subst pend. split_and!; [|done|by split|done].
  split; fields_in; try done.
  - by rewrite app_nil_r.
  - rewrite zlen_app, P5, D2. done.
  - apply Forall_app. split; [done|]. apply Forall_singleton. by split.
  - apply StageBetween; fields_in; auto.
  - rewrite map_app. cbn [map]. by rewrite V1, <- app_assoc.
  - rewrite map_app, zsum_app, P15. cbn [map]. rewrite V2, (c_sum _ P9). simpl. lia.
Qed.

Lemma enqueue_part q Y rs tl c left q' p b2 : delivering q Y rs tl (c :: left) -> parsed_part q Y rs c left q' p b2 -> b2 <> [] ->
  exists q2, enqueue preprocessCommand q' p = (false, q2) /\ delivering q2 Y rs [p] (c :: left) /\
    kept q q2 /\ zlen (text q2) <= zlen (text q) /\ settled Y (c :: left).
Proof.
  intros [D1 D2 D3 D4 D5 D6 D7 D8 D9 D10 D11] [P1 P2 P3 P4 P5 P6 P7 P8 P9 P10 P11 P12 P13 P14 P15] Nb.
  unfold enqueue. assert (incomplete p = true) as I by (rewrite P12; by destruct b2). rewrite P11, I. cbn [negb orb Z.eqb].
  eexists _. split; [reflexivity|]. specialize (P13 Nb).
  assert (settled Y (c :: left)) as Se by (rewrite P1; by eapply settled_within).
  destruct P2 as [K1 K2 K3 K4 K5]. rewrite <- K1 in D9. rewrite <- K2 in D10. rewrite <- K3 in D11. unfold addPendingCommand. rewrite I. subst c.
  destruct q' as [w e al qb pos pk rt ml bl sm pend rl pool cap av re]. fields_in. subst pend. split; [|split; [by split|by split]].
  split; fields_in; try done.
  - congruence.
  - by apply StageWithin.
  - rewrite map_app, zsum_app, P15. cbn [map]. rewrite (c_sum _ P9). simpl. lia.
Qed.

Lemma settled_empty q Y tl left : stage q Y tl left -> text q = [] -> settled Y left.
Proof.
  intros S T0. inversion S as [? _ _ T|? b l _ _ _ _ _ Nb _ T]; subst; rewrite T0 in T.
  - apply (settled_between [] Y left T). destruct left as [|c l]; [done|]. rewrite zlen_nil.
    pose proof (enc_cmd_args c). pose proof (zlen_nonneg (enc_args c)). lia.
  - eapply (settled_within []); [done..|]. rewrite zlen_nil. by apply owed_length.
Qed.

(** The request type is known once there is a byte. *)
Lemma with_reqtype q Y rs tl left : delivering q Y rs tl left -> text q <> [] ->
  let q1 := if reqtype q =? 0
            then q<| reqtype := if hd 0 (text q) =? 42 then PROTO_REQ_MULTIBULK else PROTO_REQ_INLINE |> else q in
  delivering q1 Y rs tl left /\ reqtype q1 = PROTO_REQ_MULTIBULK /\ kept q q1 /\ text q1 = text q /\ left <> [].
Proof.
  intros [D1 D2 D3 D4 D5 D6 D7 D8 D9 D10 D11] N. assert (left <> []) as Nl.
  { inversion D4 as [? _ _ T|]; subst; [|done]. intros ->. by destruct (text q). }
  inversion D4 as [? [R|[R _]] M T|? b l R I C Ar Er Nb M T]; subst.
  - rewrite R. change (0 =? 0) with true. cbn iota. destruct left as [|c left]; [done|].
    assert (hd 0 (text q) = 42) as ->.
    { rewrite enc_cmds_cons in T. destruct (text q) as [|x t]; [done|]. by injection T. }
    destruct q. unfold text, pos_ok in *. fields_in. split_and!; try done. split; fields_in; try done. apply StageBetween; fields_in; auto.
  - rewrite R. change (PROTO_REQ_MULTIBULK =? 0) with false. by split_and!.
  - rewrite R. change (PROTO_REQ_MULTIBULK =? 0) with false. by split_and!.
Qed.

Lemma stage_sums q Y tl left : stage q Y tl left -> 0 <= zsum (map p_argv_len_sum tl) <= zlen (enc_cmds left).
Proof.
  intros S. inversion S as [? _ _ T|? b l _ _ C _ _ Nb _ T]; subst; [split; [done|apply zlen_nonneg]|].
  simpl. rewrite (c_sum _ C), enc_cmds_cons, zlen_app. pose proof (argv_sum_nonneg (p_argv p)).
  pose proof (argv_sum_enc (p_argv p)). pose proof (enc_cmd_args (p_argv p ++ b)) as A. rewrite enc_args_app, zlen_app in A.
  pose proof (zlen_nonneg (enc_args b)). pose proof (zlen_nonneg (enc_cmds l)). lia.
Qed.

Lemma ready_sums rs : Forall ready rs -> 0 <= zsum (map p_argv_len_sum rs) <= zlen (enc_cmds (map p_argv rs)).
Proof.
  induction 1 as [|p rs [_ C _ _] _ IH]; [done|]. cbn [map]. rewrite enc_cmds_cons, zlen_app.
  change (zsum (p_argv_len_sum p :: map p_argv_len_sum rs)) with (p_argv_len_sum p + zsum (map p_argv_len_sum rs)).
  rewrite (c_sum _ C). pose proof (argv_sum_nonneg (p_argv p)). pose proof (argv_sum_enc (p_argv p)).
  pose proof (enc_cmd_args (p_argv p)). lia.
Qed.

Lemma sum_range q Y rs tl left : delivering q Y rs tl left -> 0 <= all_argv_len_sum q <= total.
Proof.
  intros [D1 D2 D3 D4 D5 D6 D7 D8 D9 D10 D11]. rewrite D7, D1, map_app, zsum_app. rewrite enc_cmds_app, zlen_app in D6.
  pose proof (stage_sums _ _ _ _ D4). pose proof (ready_sums _ D3). lia.
Qed.

(** The header of a command has not arrived. *)
Lemma wait_between q Y rs c left room q' : delivering q Y rs [] (c :: left) -> reqtype q = PROTO_REQ_MULTIBULK -> same q q' ->
  text q' = text q -> pos_ok q' -> multibulklen q' = 0 -> all_argv_len_sum q' = all_argv_len_sum q -> zlen (text q) < zlen (enc_cmd c) ->
  exists q2, freePendingCommand q' (new_command room) = Some q2 /\ delivering q2 Y rs [] (c :: left) /\ kept q q2 /\
    text q2 = text q /\ settled Y (c :: left).
Proof.
  intros D R [] T P M L W. pose proof (sum_range _ _ _ _ _ D) as Rg. destruct D as [D1 D2 D3 D4 D5 D6 D7 D8 D9 D10 D11].
  inversion D4 as [? _ _ T'|]; subst. unfold freePendingCommand, forget_argv. change (p_argv_len_sum (new_command room)) with 0.
  rewrite L. zdec. eexists _. split; [reflexivity|]. rewrite Z.sub_0_r.
  assert (settled Y (c :: left)) as Se by (by eapply settled_between).
  rewrite <- same_world0 in D9. rewrite <- same_env0 in D10. rewrite <- same_alive0 in D11. rewrite <- T in T'.
  destruct q'. fields_in. split; [|by split]. split; fields_in; try congruence; try done.
  - apply StageBetween; fields_in; auto. right. split; congruence.
  - by rewrite D7, same_pending0.
Qed.

(** The result of parsing ahead; [tried] says that there was a round. *)
Definition ahead q Y rs left (tried : Prop) (r : option (input E)) : Prop :=
  exists q' rs' tl' left', r = Some q' /\ delivering q' Y rs' tl' left' /\
    map p_argv rs ++ left = map p_argv rs' ++ left' /\ kept q q' /\ zlen (text q') + zlen rs' <= zlen (text q) + zlen rs /\
    zlen rs <= zlen rs' /\ (tried -> rs' = [] -> settled Y left').

Lemma ahead_from q q1 Y rs left tried r : kept q q1 -> text q1 = text q -> ahead q1 Y rs left tried r -> ahead q Y rs left tried r.
Proof.
  intros K T (q' & rs' & tl' & left' & ? & ? & ? & K' & L & ?). exists q', rs', tl', left'. rewrite T in L.
  do 3 (split; [done|]). split; [by transitivity q1|]. done.
Qed.

(** A parsed command is added, and parsing goes on when it is whole. *)
Lemma parse_on la Y n tried tried' :
  (forall q rs tl left, delivering q Y rs tl left -> ahead q Y rs left tried (parse_loop cfg qcfg preprocessCommand n la q)) ->
  forall q rs tl c left q' p b2, delivering q Y rs tl (c :: left) -> parsed_part q Y rs c left q' p b2 ->
  ahead q Y rs (c :: left) tried'
    (let '(more, q) := enqueue preprocessCommand q' p in if (more : bool) then parse_loop cfg qcfg preprocessCommand n la q else Some q).
Proof.
  intros IH q rs tl c left q' p b2 D Pp. destruct b2 as [|a b2].
  - destruct (enqueue_whole q Y rs tl c left q' p D Pp) as (p2 & q2 & -> & D2 & A2 & K2 & T2).
    destruct (IH q2 _ _ _ D2) as (q3 & rs' & tl' & left' & -> & D3 & S3 & K3 & L3 & Z3 & W3).
    exists q3, rs', tl', left'. rewrite zlen_app in L3, Z3. change (zlen [p2]) with 1 in L3, Z3. pose proof (zlen_nonneg rs). split_and!; try done.
    + rewrite <- S3, map_app, <- app_assoc. cbn [map app]. by rewrite A2.
    + by transitivity q2.
    + lia.
    + lia.
    + intros _ ->. rewrite zlen_nil in Z3. lia.
  - destruct (enqueue_part q Y rs tl c left q' p (a :: b2) D Pp) as (q2 & -> & D2 & K2 & T2 & Se); [done|].
    exists q2, rs, [p], (c :: left). do 4 (split; [done|]). split; [lia|]. by split; [lia|].
Qed.

(** Parsing ahead: every round but the last one makes a command ready. *)
Lemma parse_loop_spec la Y n : forall q rs tl left, delivering q Y rs tl left ->
  ahead q Y rs left ((0 < n)%nat /\ 1 <= la) (parse_loop cfg qcfg preprocessCommand n la q).
Proof.
  induction n as [|n IH]; intros q rs tl left D; cbn [parse_loop].
  { exists q, rs, tl, left. split_and!; try done. intros [? _]. lia. }
  pose proof (text_length q (d_pos _ _ _ _ _ D)) as Lt.
  destruct (negb (ready_len q <? la) || _) eqn:G.
  { exists q, rs, tl, left. split_and!; try done. intros [_ La] ->. pose proof (d_ready_len _ _ _ _ _ D) as Rl. rewrite zlen_nil in Rl.
    rewrite Rl in G. destruct (Z.ltb_spec 0 la); [|lia]. cbn in G. apply negb_true_iff, Z.ltb_ge in G.
    eapply settled_empty; [exact (d_stage _ _ _ _ _ D)|]. destruct (text q); [done|]. rewrite zlen_cons in Lt. pose proof (zlen_nonneg l). lia. }
  apply orb_false_iff in G as [_ G]. apply negb_false_iff, Z.ltb_lt in G.
  assert (text q <> []) as N by (intros Eq; rewrite Eq, zlen_nil in Lt; lia).
  destruct (with_reqtype q Y rs tl left D N) as (D1 & R1 & K1 & T1 & Nl). set (q1 := if reqtype q =? 0 then _ else q) in *. clearbody q1.
  destruct left as [|c left]; [done|].
  apply (ahead_from q q1); [done|done|]. clear G N Lt T1 K1.
  assert (tl = [] \/ exists p, tl = [p]) as [->|[p ->]] by (destruct (d_stage _ _ _ _ _ D); eauto).
  - destruct (parse_between q1 Y rs c left D1 R1) as [(room & q2 & -> & S2 & T2 & P2 & M2 & L2 & W)|(p & q2 & b2 & -> & Pp)]; cbn [mbind option_bind].
    + change (negb false && (p_read_error (new_command room) =? 0)) with true. cbn iota.
      destruct (wait_between q1 Y rs c left room q2) as (q3 & -> & D3 & K3 & T3 & Se); try done.
      exists q3, rs, [], (c :: left). rewrite T3. do 4 (split; [done|]). split; [lia|]. by split; [lia|].
    + by eapply parse_on.
  - destruct (parse_within q1 Y rs p c left D1) as (p2 & q2 & b2 & -> & Pp). cbn [mbind option_bind]. by eapply parse_on.
Qed.

(** ** Executing commands *)

Lemma stage_eq q q' Y tl left : reqtype q' = reqtype q -> multibulklen q' = multibulklen q -> bulklen q' = bulklen q -> text q' = text q ->
  stage q Y tl left -> stage q' Y tl left.
Proof.
  intros R M B T S. inversion S; subst.
  - apply StageBetween; by rewrite ?R, ?M, ?T.
  - apply StageWithin; unfold midway in *; by rewrite ?R, ?M, ?B, ?T.
Qed.

Lemma reclaim_spec q p : p_argv_len_sum p <= all_argv_len_sum q ->
  exists q', reclaimPendingCommand q p = Some q' /\ same q q' /\ multibulklen q' = multibulklen q /\ bulklen q' = bulklen q /\
    querybuf q' = querybuf q /\ qb_pos q' = qb_pos q /\ all_argv_len_sum q' = all_argv_len_sum q - p_argv_len_sum p.
Proof.
  intros H. unfold reclaimPendingCommand, freePendingCommand, tryExpandPendingCommandPool, forget_argv.
  destruct q as [w e al qb pos pk rt ml bl sm pend rl pool cap av re]. fields_in.
  destruct (p_argv_len p <? 64), (zlen pool <? cap), (cap >=? PENDING_COMMAND_POOL_MAX_SIZE); fields_in; zdec; fields_in;
    eexists _; (split; [reflexivity|]); by split_and!.
Qed.

(** The arguments leave the client's sum, also when they move to a transaction. *)
Lemma settle_sum (queued : bool) q p : 0 <= p_argv_len_sum p <= all_argv_len_sum q -> all_argv_len_sum q <= total ->
  exists q', (if queued then Some (q<| all_argv_len_sum := u64 (all_argv_len_sum q - p_argv_len_sum p) |>)
              else reclaimPendingCommand q p) = Some q' /\
    same q q' /\ multibulklen q' = multibulklen q /\ bulklen q' = bulklen q /\
    querybuf q' = querybuf q /\ qb_pos q' = qb_pos q /\ all_argv_len_sum q' = all_argv_len_sum q - p_argv_len_sum p.
Proof.
  intros H T. destruct queued; [|apply reclaim_spec; lia]. eexists _. split; [reflexivity|].
  rewrite u64_small by (unfold is_u64; lia). destruct q. by split_and!.
Qed.

Lemma prepare_spec queued q Y r rs tl left : delivering q Y (r :: rs) tl left ->
  exists q', prepareForNextCommand is_asking is_client queued q = Some q' /\ delivering q' Y rs tl left /\
    trace q' = trace q /\ read_error q' = read_error q /\ text q' = text q.
Proof.
  intros D. pose proof (sum_range _ _ _ _ _ D) as Rg. destruct D as [D1 D2 D3 D4 D5 D6 D7 D8 D9 D10 D11].
  unfold prepareForNextCommand, popPendingCommandFromHead. rewrite D1. cbn [mbind option_bind app].
  apply Forall_cons in D3 as [[R1 R2 R3 R4] D3]. rewrite D1 in D7. cbn [app map] in D7.
  change (zsum (p_argv_len_sum r :: map p_argv_len_sum (rs ++ tl))) with (p_argv_len_sum r + zsum (map p_argv_len_sum (rs ++ tl))) in D7.
  assert (0 <= zsum (map p_argv_len_sum (rs ++ tl)) /\ 0 <= p_argv_len_sum r) as [Np Nr].
  { rewrite map_app, zsum_app, (c_sum _ R2). pose proof (ready_sums _ D3). pose proof (stage_sums _ _ _ _ D4).
    pose proof (argv_sum_nonneg (p_argv r)). lia. }
  rewrite R1. set (q0 := q <| pending_cmds := _ |> <| ready_len ::= _ |>).
  assert (pending_cmds q0 = rs ++ tl /\ ready_len q0 = zlen rs /\ all_argv_len_sum q0 = all_argv_len_sum q /\ kept q q0 /\ reqtype q0 = reqtype q /\
    multibulklen q0 = multibulklen q /\ bulklen q0 = bulklen q /\ querybuf q0 = querybuf q /\ qb_pos q0 = qb_pos q)
    as (P0 & L0 & S0 & K0 & Q1 & Q2 & Q3 & Q4 & Q5).
  { subst q0. rewrite zlen_cons in D2. clear - D2. destruct q. fields_in. split_and!; try done. lia. }
  clearbody q0. rewrite <- S0 in Rg, D7.
  destruct (settle_sum queued q0 r) as (q1 & -> & S1 & M1 & B1 & Qb1 & Qp1 & Al1); [lia|lia|]. cbn [mbind option_bind].
  assert (all_argv_len_sum q1 = zsum (map p_argv_len_sum (rs ++ tl))) as Al by lia.
  assert ((zlen (pending_cmds q1) =? 0) && negb queued && negb (all_argv_len_sum q1 =? 0) = false) as ->.
  { rewrite (same_pending _ _ S1), P0, Al. destruct (rs ++ tl) as [|x l]; [by destruct queued|].
    rewrite zlen_cons. pose proof (zlen_nonneg l). zdec. done. }
  eexists _. split; [reflexivity|]. destruct K0, S1.
  assert (text q1 = text q) as T1 by (unfold text; congruence).
  assert (stage q1 Y tl left) as St by (eapply (stage_eq q); try done; congruence).
  assert (has (reset_flags is_asking is_client (argv q1) (flags (client_of q1))) busy_flags = false) as Rf.
  { apply reset_flags_calm. unfold client_of. rewrite same_world0, k_world0. by destruct D9. }
  unfold pos_ok in D8. rewrite <- Q4, <- Q5, <- Qb1, <- Qp1 in D8.
  assert (authRequired cfg (client_of q1) = false) as Au by (unfold client_of; rewrite same_world0, k_world0; by destruct D9).
  split.
  - split; try (destruct q1; fields_in; congruence); try done.
    + by apply (stage_eq q1); destruct q1.
    + cbn [map app] in D6. rewrite enc_cmds_cons, zlen_app in D6. pose proof (zlen_nonneg (enc_cmd (p_argv r))). lia.
    + rewrite P0 in same_pending0. rewrite <- same_pending0 in Al. by destruct q1.
  - rewrite <- T1, <- k_trace0, <- same_trace0, <- k_error0, <- same_error0. by destruct q1.
Qed.

Lemma execute_spec q Y r rs tl left : delivering q Y (r :: rs) tl left -> argv q = p_argv r -> nonfatal (read_error q) ->
  exists q', processCommandAndResetClient processCommand is_asking is_client q = Some q' /\ delivering q' Y rs tl left /\
    trace q' = trace q ++ [p_argv r] /\ nonfatal (read_error q') /\ text q' = text q.
Proof.
  intros D A N. unfold processCommandAndResetClient.
  destruct (executes (env q) (world_of q) (argv q) (d_calm _ _ _ _ _ D) (d_bounded _ _ _ _ _ D)) as (e & queued & w & -> & C & B).
  set (q1 := _ <| world_of := w |>).
  assert (delivering q1 Y (r :: rs) tl left /\ trace q1 = trace q ++ [p_argv r] /\ read_error q1 = read_error q /\ text q1 = text q /\ world_of q1 = w)
    as (D1 & T1 & E1 & X1 & W1).
  { destruct D as [D1 D2 D3 D4 D5 D6 D7 D8 D9 D10 D11]. split; [split|]; try (by destruct q).
    - by apply (stage_eq q); destruct q.
    - subst q1. rewrite A. by destruct q. }
  clearbody q1. unfold commandProcessed, client_of. rewrite W1, (calm_bits w) by done.
  destruct (prepare_spec queued q1 Y r rs tl left D1) as (q2 & -> & D2 & T2 & E2 & X2). cbn [mbind option_bind].
  unfold is_master, client_of. rewrite (calm_bits (world_of q2)) by (try done; exact (d_calm _ _ _ _ _ D2)). cbn [negb].
  exists q2. rewrite T2, T1, E2, E1, X2. by split_and!.
Qed.

Local Notation loop := (input_loop cfg qcfg processCommand preprocessCommand is_asking is_client).

(** What the input loop leaves when it returns. *)
Definition delivered q Y (cmds : list (list (list Z))) (r : option (input E)) : Prop :=
  exists q' tl done left, r = Some q' /\ delivering q' Y [] tl left /\ cmds = done ++ left /\ trace q' = trace q ++ done /\
    settled Y left /\ nonfatal (read_error q').

Lemma nonfatal_goes_on q : nonfatal (read_error q) -> isClientReadErrorFatal q = false.
Proof. unfold isClientReadErrorFatal. by intros [->|[->|[->| ->]]]. Qed.

(** The first ready command is executed, and the loop goes on. *)
Lemma input_step la Y fuel : (forall q rs tl left, delivering q Y rs tl left -> nonfatal (read_error q) ->
    zlen (text q) + zlen rs <= Z.of_nat fuel -> delivered q Y (map p_argv rs ++ left) (loop fuel la q)) ->
  forall q r rs tl left, delivering q Y (r :: rs) tl left -> zlen (text q) + zlen (r :: rs) <= Z.of_nat (S fuel) ->
  delivered q Y (map p_argv (r :: rs) ++ left)
    (let q := q<| argv := p_argv r |><| reploff_next := p_reploff r |><| read_error := p_read_error r |> in
     if isClientReadErrorFatal q then Some q
     else if zlen (argv q) =? 0 then q ← prepareForNextCommand is_asking is_client false q; loop fuel la q
     else q ← processCommandAndResetClient processCommand is_asking is_client q;
          if alive q then loop fuel la q else Some q).
Proof.
  intros IH q r rs tl left D F. cbv zeta. set (q1 := q <| argv := _ |> <| reploff_next := _ |> <| read_error := _ |>).
  assert (delivering q1 Y (r :: rs) tl left /\ trace q1 = trace q /\ text q1 = text q /\ argv q1 = p_argv r /\ read_error q1 = p_read_error r)
    as (D1 & T1 & X1 & A1 & E1).
  { destruct D as [D1 D2 D3 D4 D5 D6 D7 D8 D9 D10 D11]. split; [split|]; try (by destruct q). by apply (stage_eq q); destruct q. }
  clearbody q1. pose proof (d_ready _ _ _ _ _ D) as Rd. apply Forall_cons in Rd as [[_ _ Rn Ra] _]. rewrite <- E1 in Rn.
  rewrite nonfatal_goes_on by done. rewrite A1.
  assert (zlen (p_argv r) =? 0 = false) as ->.
  { destruct (p_argv r) as [|a l]; [done|]. rewrite zlen_cons. pose proof (zlen_nonneg l). by zdec. }
  destruct (execute_spec q1 Y r rs tl left D1 A1 Rn) as (q2 & -> & D2 & T2 & N2 & X2). cbn [mbind option_bind].
  rewrite (d_alive _ _ _ _ _ D2). rewrite zlen_cons in F.
  destruct (IH q2 rs tl left D2 N2) as (q' & tl' & dn & left' & -> & D3 & S3 & T3 & Se & N3); [rewrite X2, X1; lia|].
  exists q', tl', (p_argv r :: dn), left'. do 2 (split; [done|]). split; [cbn [map app]; by rewrite S3|].
  split; [|done]. rewrite T3, T2, T1, <- app_assoc. done.
Qed.

Lemma input_loop_spec la Y : 1 <= la -> forall fuel q rs tl left, delivering q Y rs tl left -> nonfatal (read_error q) ->
  zlen (text q) + zlen rs <= Z.of_nat fuel ->
  delivered q Y (map p_argv rs ++ left) (loop fuel la q).
Proof.
  intros La. induction fuel as [|fuel IH]; intros q rs tl left D N F; cbn [input_loop];
    pose proof (text_length q (d_pos _ _ _ _ _ D)) as Lt; pose proof (d_ready_len _ _ _ _ _ D) as Lr; rewrite Lr;
    pose proof (zlen_nonneg rs); pose proof (zlen_nonneg (text q)); rewrite calm_goes_on by exact (d_calm _ _ _ _ _ D).
  all: destruct (negb (qb_pos q <? zlen (querybuf q)) && negb (0 <? zlen rs)) eqn:G.
  1, 3: apply andb_true_iff in G as [G1 G2]; apply negb_true_iff, Z.ltb_ge in G1, G2;
    assert (rs = []) as -> by (destruct rs as [|r rs]; [done|rewrite zlen_cons in *; pose proof (zlen_nonneg rs); lia]);
    exists q, tl, [], left; do 3 (split; [done|]); split; [by rewrite app_nil_r|]; split; [|done];
    eapply settled_empty; [exact (d_stage _ _ _ _ _ D)|]; destruct (text q) as [|x t]; [done|rewrite zlen_cons in *; pose proof (zlen_nonneg t); lia].
  { apply andb_false_iff in G as [G|G]; apply negb_false_iff, Z.ltb_lt in G; lia. }
  assert (ahead q Y rs left True (if zlen rs =? 0 then parse_loop cfg qcfg preprocessCommand (Z.to_nat la) la q else Some q))
    as (q1 & rs1 & tl1 & left1 & -> & D1 & S1 & K1 & L1 & _ & W1).
  { destruct rs as [|r rs]; [|rewrite zlen_cons; pose proof (zlen_nonneg rs); zdec; exists q, (r :: rs), tl, left; by split_and!].
    destruct (parse_loop_spec la Y (Z.to_nat la) q [] tl left D) as (q1 & rs1 & tl1 & left1 & ? & ? & ? & ? & ? & ? & W).
    exists q1, rs1, tl1, left1. do 6 (split; [done|]). intros _. apply W. split; lia. }
  cbn [mbind option_bind]. rewrite S1, (d_ready_len _ _ _ _ _ D1). destruct K1 as [_ _ _ K4 K5].
  destruct rs1 as [|r rs1].
  - exists q1, tl1, [], left1. do 3 (split; [done|]). split; [by rewrite app_nil_r|]. split; [by apply W1|]. by rewrite K4.
  - rewrite (d_pending _ _ _ _ _ D1), zlen_cons. pose proof (zlen_nonneg rs1). zdec. cbn [app]. unfold delivered. rewrite <- K5.
    apply (input_step la Y fuel IH q1 r rs1 tl1 left1 D1). lia.
Qed.

(** ** Reading *)

Lemma stage_bound q Y tl left : stage q Y tl left -> zlen (text q) + zlen Y <= zlen (enc_cmds left).
Proof.
  intros S. destruct left as [|c left]; [|by apply (stage_length q Y tl)]. inversion S as [? _ _ T|]; subst.
  apply (f_equal zlen) in T. rewrite zlen_app in T. lia.
Qed.

Lemma stage_received q q' s Y tl left : reqtype q' = reqtype q -> multibulklen q' = multibulklen q -> bulklen q' = bulklen q ->
  text q' = text q ++ s -> stage q (s ++ Y) tl left -> stage q' Y tl left.
Proof.
  intros R M B T S. inversion S; subst; rewrite ?app_assoc in *.
  - apply StageBetween; by rewrite ?R, ?M, ?T.
  - apply StageWithin; unfold midway in *; by rewrite ?R, ?M, ?B, ?T.
Qed.

(** The buffer starts at the unparsed text after every read. *)
Lemma trim_spec q Y tl left : delivering q Y [] tl left ->
  exists q', trim_querybuf q = Some q' /\ delivering q' Y [] tl left /\ qb_pos q' = 0 /\ trace q' = trace q /\ read_error q' = read_error q.
Proof.
  intros D. unfold trim_querybuf. rewrite (proj1 (calm_parses q (d_calm _ _ _ _ _ D))).
  destruct (Z.eqb_spec (qb_pos q) 0) as [Z0|_]; [by exists q|]. eexists _. split; [reflexivity|].
  destruct D as [D1 D2 D3 D4 D5 D6 D7 D8 D9 D10 D11]. destruct D8 as [P1 P2]. rewrite sdsrange_drop by done.
  set (q1 := q <| querybuf := _ |> <| qb_pos := 0 |>).
  assert (text q1 = text q /\ pos_ok q1) as [T1 Po1].
  { subst q1. clear - P1 P2. destruct q. unfold text, pos_ok. fields_in. split; [done|]. unfold zlen in *. rewrite length_drop. lia. }
  split; [split|]; try (by destruct q); try done. by apply (stage_eq q); destruct q.
Qed.

Lemma read_spec q s Y tl left : delivering q (s ++ Y) [] tl left -> qb_pos q = 0 ->
  exists q' tl' dn left',
    readQueryFromClient cfg qcfg processCommand preprocessCommand is_asking is_client mstate_argv_len_sums (RData s) q = Some q' /\
    delivering q' Y [] tl' left' /\ qb_pos q' = 0 /\ left = dn ++ left' /\ trace q' = trace q ++ dn /\ settled Y left'.
Proof.
  intros [D1 D2 D3 D4 D5 D6 D7 D8 D9 D10 D11] P. unfold readQueryFromClient. cbv zeta.
  pose proof (stage_bound _ _ _ _ D4) as Sb. rewrite zlen_app in Sb. cbn [map app] in D6. pose proof (zlen_nonneg Y).
  assert (text q = querybuf q) as Tq by (unfold text; by rewrite P).
  match goal with |- context [is_master ?x] => set (q1 := x) end.
  assert (querybuf q1 = querybuf q ++ s /\ qb_pos q1 = 0 /\ trace q1 = trace q /\ read_error q1 = 0 /\ world_of q1 = world_of q /\ env q1 = env q /\
    delivering q1 Y [] tl left) as (B1 & Q1 & T1 & E1 & W1 & V1 & Dq).
  { split_and!; try (by destruct q). split; try (by destruct q).
    - eapply (stage_received q q1 s); try done; try (by destruct q). rewrite Tq. destruct q. unfold text in *. fields_in. by rewrite P.
    - destruct q. unfold pos_ok in *. fields_in. subst. rewrite zlen_app. rewrite Tq in Sb. unfold zlen in *. lia. }
  clearbody q1. rewrite (proj1 (calm_parses q1 (d_calm _ _ _ _ _ Dq))).
  assert (over_limit cfg qcfg mstate_argv_len_sums q1 = false) as ->.
  { unfold over_limit. destruct (calm_parses q1 (d_calm _ _ _ _ _ Dq)) as [_ ->]. rewrite andb_false_r, orb_false_r, B1, V1, zlen_app, <- Tq.
    unfold bounded in D10. zdec. by rewrite andb_false_r. }
  unfold processInputBuffer. rewrite calm_lookahead by exact (d_calm _ _ _ _ _ Dq).
  destruct (input_loop_spec (server_lookahead qcfg) Y looks_ahead (length (querybuf q1) + Z.to_nat (ready_len q1)) q1 [] tl left Dq)
    as (q2 & tl2 & dn & left2 & -> & D2q & S2 & T2 & Se & N2).
  { rewrite E1. by left. }
  { pose proof (text_length q1 (d_pos _ _ _ _ _ Dq)). unfold zlen in *. cbn [length]. lia. }
  cbn [mbind option_bind]. rewrite (d_alive _ _ _ _ _ D2q).
  destruct (trim_spec q2 Y tl2 left2 D2q) as (q3 & -> & D3q & Q3 & T3 & E3). cbn [mbind option_bind].
  rewrite nonfatal_goes_on, andb_false_r by (by rewrite E3). exists q3, tl2, dn, left2. do 4 (split; [done|]). by rewrite T3, T2, T1.
Qed.

Local Notation reads := (read_all_chunks cfg qcfg processCommand preprocessCommand is_asking is_client mstate_argv_len_sums).

Lemma chunks_spec Y chunks : forall q tl left, delivering q (concat chunks ++ Y) [] tl left -> qb_pos q = 0 -> settled (concat chunks ++ Y) left ->
  exists q' tl' dn left', reads chunks q = Some q' /\ delivering q' Y [] tl' left' /\ qb_pos q' = 0 /\
    left = dn ++ left' /\ trace q' = trace q ++ dn /\ settled Y left'.
Proof.
  induction chunks as [|s chunks IH]; intros q tl left D P Se; cbn [read_all_chunks].
  { exists q, tl, [], left. by rewrite app_nil_r. }
  cbn [concat] in D. rewrite <- app_assoc in D.
  destruct (read_spec q s _ tl left D P) as (q1 & tl1 & dn1 & left1 & -> & D1 & P1 & -> & T1 & Se1). cbn [mbind option_bind].
  destruct (IH q1 tl1 left1 D1 P1 Se1) as (q2 & tl2 & dn2 & left2 & -> & D2 & P2 & -> & T2 & Se2).
  exists q2, tl2, (dn1 ++ dn2), left2. rewrite T2, T1, !app_assoc. done.
Qed.

(** A client between two commands, with nothing in its buffer. *)
Record idle q : Prop := {
  i_alive : alive q = true;
  i_pending : pending_cmds q = [];
  i_ready : ready_len q = 0;
  i_reqtype : reqtype q = 0;
  i_multibulk : multibulklen q = 0;
  i_querybuf : querybuf q = [];
  i_pos : qb_pos q = 0;
  i_sum : all_argv_len_sum q = 0;
  i_calm : calm (world_of q);
  i_bounded : bounded (env q)
}.

Lemma idle_delivering q cmds : idle q -> Forall (cmd_ok qcfg) cmds -> zlen (enc_cmds cmds) <= total ->
  delivering q (enc_cmds cmds) [] [] cmds.
Proof.
  intros [I1 I2 I3 I4 I5 I6 I7 I8 I9 I10] C T. split; try done.
  - apply StageBetween; [by left|done|]. unfold text. by rewrite I6, drop_nil.
  - by rewrite I8, I2.
  - unfold pos_ok. rewrite I6, I7. done.
Qed.

Lemma delivering_idle q tl : delivering q [] [] tl [] -> qb_pos q = 0 -> idle q.
Proof.
  intros [D1 D2 D3 D4 D5 D6 D7 D8 D9 D10 D11] P. inversion D4 as [? [R|[_ ?]] M T|]; subst; [|done].
  rewrite app_nil_r in T. unfold text in T. rewrite P in T. split; try done. by rewrite D7, D1.
Qed.

(** C3: Pipelined commands are delivered exactly once, in order and as soon as
    they are complete, however the stream is cut into reads. The bytes of [cmds]
    arrive in [chunks], with [Y] still to come. All reads succeed: no assertion
    of the parser or of the command queue fails, no write goes behind an
    argument array. The commands executed by then are the longest prefix whose
    bytes are all there, with exactly the arguments sent, and after the last
    byte the client is idle again. The commands are within the limits of the
    configuration and neither block nor close the client, which is logged in and
    no master. *)
Theorem commands_delivered cmds chunks Y q :
  Forall (cmd_ok qcfg) cmds -> zlen (enc_cmds cmds) <= total -> concat chunks ++ Y = enc_cmds cmds -> idle q ->
  exists q' dn left, reads chunks q = Some q' /\ cmds = dn ++ left /\ trace q' = trace q ++ dn /\
    zlen (enc_cmds dn) <= zlen (concat chunks) /\
    match left with [] => idle q' | c :: _ => zlen (concat chunks) < zlen (enc_cmds (dn ++ [c])) end.
Proof.
  intros C T S I. pose proof (idle_delivering q cmds I C T) as D. rewrite <- S in D.
  assert (settled (concat chunks ++ Y) cmds) as Se.
  { eapply settled_empty; [exact (d_stage _ _ _ _ _ D)|]. unfold text. by rewrite (i_querybuf _ I), drop_nil. }
  destruct (chunks_spec Y chunks q [] cmds D (i_pos _ I) Se) as (q' & tl & dn & left & R & D' & P' & Sp & Tr & Se').
  exists q', dn, left. do 3 (split; [done|]). apply (f_equal zlen) in S. rewrite Sp, enc_cmds_app, !zlen_app in S.
  destruct left as [|c left]; cbn [settled] in Se'.
  - subst Y. change (zlen (enc_cmds [])) with 0 in S. rewrite zlen_nil in S. split; [lia|]. by eapply delivering_idle.
  - rewrite enc_cmds_app, enc_cmds_cons, !zlen_app in *. change (zlen (enc_cmds [])) with 0. lia.
Qed.
End Delivery.

(** ** Errors in the middle of a command *)

Section LateErrors.
Context (cfg : config) (qcfg : qconfig) {E : Type}.
Context (processCommand : E -> world -> list (list Z) -> E * option (bool * world)).
Context (preprocessCommand : list (list Z) -> Z).
Context (is_asking is_client : list (list Z) -> bool) (mstate_argv_len_sums : E -> Z).
Implicit Types (q : input E) (p : pendingCommand).

Local Notation reads := (read_all_chunks cfg qcfg processCommand preprocessCommand is_asking is_client mstate_argv_len_sums).

Hypothesis looks_ahead : 1 <= server_lookahead qcfg.

(** The client waits for arguments of a command it has started, and the next
    line is one that the parser rejects. *)
Record stuck q : Prop := {
  st_alive : alive q = true;
  st_calm : calm cfg (world_of q);
  st_pending : exists p, pending_cmds q = [p] /\ incomplete p = true;
  st_ready : ready_len q = 0;
  st_reqtype : reqtype q = PROTO_REQ_MULTIBULK;
  st_multibulk : 0 < multibulklen q;
  st_bulk : bulklen q = -1;
  st_pos : qb_pos q = 0;
  st_size : zlen (querybuf q) < 2 ^ 62;
  st_line : exists line c rest, querybuf q = line ++ CR :: c :: rest /\ Forall (fun x => x <> CR) line;
  st_rejected : exists e, bulk_header cfg qcfg q = HFail e
}.

Lemma bulk_header_line q line c rest : text q = line ++ CR :: c :: rest -> Forall (fun x => x <> CR) line ->
  bulk_header cfg qcfg q = if negb (hd CR line =? 36) then HFail CLIENT_READ_EXPECTED_DOLLAR else bulk_value cfg qcfg q line.
Proof.
  intros T F. unfold bulk_header. rewrite T, memchr_app by done. rewrite zlen_app, !zlen_cons. pose proof (zlen_nonneg rest). zdec.
  by destruct line.
Qed.

Lemma rejected_nonzero q e : bulk_header cfg qcfg q = HFail e -> e <> 0.
Proof.
  unfold bulk_header, bulk_value. intros H. repeat case_match; simplify_eq; done.
Qed.

(** Parsing finds the error again, and leaves the command where it was. *)
Lemma stuck_parses q la n : stuck q -> 1 <= la -> exists p e,
  parse_loop cfg qcfg preprocessCommand (S n) la q = Some (q<| pending_cmds := [fail p e] |>) /\ incomplete p = true.
Proof.
  intros [S1 S2 (p & S3 & Sp) S4 S5 S6 S7 S8 S9 (line & c & rest & S10 & S11) (e & S12)] La. exists p, e. split; [|done].
  cbn [parse_loop]. rewrite S4, S8, S10, zlen_app, !zlen_cons. pose proof (zlen_nonneg line). pose proof (zlen_nonneg rest). zdec.
  cbn [negb orb]. rewrite S5. change (PROTO_REQ_MULTIBULK =? 0) with false. cbn iota. unfold parse_one. rewrite S5.
  change (PROTO_REQ_MULTIBULK =? PROTO_REQ_INLINE) with false. change (PROTO_REQ_MULTIBULK =? PROTO_REQ_MULTIBULK) with true. cbn iota.
  rewrite S3, S4. change (negb (zlen [p] =? 0)) with true. cbn iota.
  rewrite (pop_tail q [] p) by done. cbn [mbind option_bind]. pose proof (rejected_nonzero q e S12) as Ne.
  set (q0 := q <| pending_cmds := _ |> <| ready_len := _ |>).
  assert (bulk_header cfg qcfg q0 = HFail e /\ multibulklen q0 = multibulklen q /\ bulklen q0 = bulklen q) as (Hq & M0 & B0) by (by destruct q).
  unfold processMultibulkBuffer. rewrite M0. zdec. destruct (Z.to_nat (multibulklen q)) as [|m] eqn:M; [lia|].
  cbn [bulk_loop]. rewrite B0, S7. change (-1 =? -1) with true. cbn iota. rewrite Hq. cbn [mbind option_bind].
  assert (p_read_error (fail p e) = e /\ incomplete (fail p e) = true) as [F1 F2] by (by destruct p).
  rewrite F1. zdec. cbn [negb andb]. unfold enqueue. rewrite F1. zdec. cbn [negb orb]. unfold addPendingCommand. rewrite F2.
  subst q0. by destruct q.
Qed.

Definition ignores q (s : list Z) q' : Prop :=
  world_of q' = world_of q /\ env q' = env q /\ trace q' = trace q /\ querybuf q' = querybuf q ++ s.

(** More bytes do not help. *)
Lemma stuck_received q s (q1 : input E) : stuck q -> zlen (querybuf q) + zlen s < 2 ^ 62 ->
  world_of q1 = world_of q -> alive q1 = alive q -> pending_cmds q1 = pending_cmds q -> ready_len q1 = ready_len q -> reqtype q1 = reqtype q ->
  multibulklen q1 = multibulklen q -> bulklen q1 = bulklen q -> qb_pos q1 = qb_pos q -> querybuf q1 = querybuf q ++ s -> stuck q1.
Proof.
  intros [S1 S2 S3 S4 S5 S6 S7 S8 S9 (line & c & rest & S10 & S11) (e & S12)] L W A Pe R Rt M B P Q.
  assert (querybuf q1 = line ++ CR :: c :: (rest ++ s)) as Q1 by (rewrite Q, S10, <- app_assoc; done).
  rewrite <- W in S2. rewrite <- Pe in S3. split; try done; try congruence.
  - rewrite Q, zlen_app. lia.
  - by exists line, c, (rest ++ s).
  - exists e. rewrite (bulk_header_line q line c rest) in S12; [|unfold text; by rewrite S8|done].
    rewrite (bulk_header_line q1 line c (rest ++ s)); [|unfold text; by rewrite P, S8|done].
    unfold bulk_value, is_master, client_of in *. by rewrite W, P.
Qed.

Lemma stuck_reads q s : stuck q -> mstate_argv_len_sums (env q) + zlen (querybuf q) + zlen s <= client_max_querybuf_len qcfg ->
  zlen (querybuf q) + zlen s < 2 ^ 62 -> exists q',
  readQueryFromClient cfg qcfg processCommand preprocessCommand is_asking is_client mstate_argv_len_sums (RData s) q = Some q' /\
  stuck q' /\ ignores q s q' /\ read_error q' = 0.
Proof.
  intros S Lm Ls. unfold readQueryFromClient. cbv zeta. match goal with |- context [is_master ?x] => set (q1 := x) end.
  assert (querybuf q1 = querybuf q ++ s /\ read_error q1 = 0 /\ ignores q s q1 /\ stuck q1) as (Q1 & E1 & I1 & S1).
  { split_and!; try (by destruct q). by apply (stuck_received q s); destruct q. }
  clearbody q1. destruct (calm_parses cfg q1 (st_calm _ S1)) as [Ma Au]. rewrite Ma.
  assert (over_limit cfg qcfg mstate_argv_len_sums q1 = false) as ->.
  { unfold over_limit. destruct I1 as (_ & -> & _). rewrite Au, Q1, zlen_app, andb_false_r. zdec. by rewrite andb_false_r. }
  unfold processInputBuffer. rewrite calm_lookahead by exact (st_calm _ S1).
  pose proof (st_line _ S1) as (line & c & rest & Ql & _). pose proof (zlen_nonneg line). pose proof (zlen_nonneg rest).
  destruct (length (querybuf q1) + _)%nat as [|fuel] eqn:Fu; [rewrite Ql, length_app in Fu; cbn in Fu; lia|]. cbn [input_loop].
  rewrite (st_ready _ S1), (st_pos _ S1), (calm_goes_on cfg) by exact (st_calm _ S1).
  assert (0 < zlen (querybuf q1)) by (rewrite Ql, zlen_app, !zlen_cons; lia). zdec. cbn [negb andb].
  destruct (Z.to_nat (server_lookahead qcfg)) as [|n] eqn:Ln; [lia|].
  destruct (stuck_parses q1 (server_lookahead qcfg) n S1 looks_ahead) as (p & e & -> & Ip). cbn [mbind option_bind].
  set (q2 := q1 <| pending_cmds := _ |>).
  assert (stuck q2 /\ ignores q s q2 /\ read_error q2 = 0) as (S2 & I2 & E2).
  { destruct S1. split; [split|]; try (by destruct q1). exists (fail p e). split; [by destruct q1|by destruct p]. }
  clearbody q2. rewrite (st_ready _ S2). change (0 =? 0) with true. cbn iota. cbn [mbind option_bind].
  unfold trim_querybuf. rewrite (st_alive _ S2), (proj1 (calm_parses cfg q2 (st_calm _ S2))), (st_pos _ S2). change (0 =? 0) with true. cbn iota. cbn [mbind option_bind].
  rewrite nonfatal_goes_on by (rewrite E2; by left). rewrite andb_false_r. by exists q2.
Qed.

(** C37: A protocol error in a command that is already half received is never
    reported. The parser leaves the rejected command flagged as incomplete, so
    it is not counted as ready and the error it carries is never looked at: every
    read, of whatever bytes, parses the same line again, with no reply, no
    command executed and the connection left open, while the query buffer grows. *)
Theorem late_protocol_error_ignored chunks q : stuck q ->
  mstate_argv_len_sums (env q) + zlen (querybuf q) + zlen (concat chunks) <= client_max_querybuf_len qcfg ->
  zlen (querybuf q) + zlen (concat chunks) < 2 ^ 62 ->
  exists q', reads chunks q = Some q' /\ stuck q' /\ ignores q (concat chunks) q'.
Proof.
  revert q. induction chunks as [|s chunks IH]; intros q S Lm Ls; cbn [read_all_chunks concat] in *.
  { exists q. unfold ignores. by rewrite app_nil_r. }
  rewrite zlen_app in Lm, Ls. pose proof (zlen_nonneg (concat chunks)).
  destruct (stuck_reads q s S ltac:(lia) ltac:(lia)) as (q1 & -> & S1 & (W1 & V1 & T1 & Q1) & _). cbn [mbind option_bind].
  destruct (IH q1 S1) as (q2 & R2 & S2 & (W2 & V2 & T2 & Q2)); [rewrite V1, Q1, zlen_app; lia|rewrite Q1, zlen_app; lia|].
  exists q2. do 2 (split; [done|]). unfold ignores. rewrite W2, W1, V2, V1, T2, T1, Q2, Q1, app_assoc. done.
Qed.
End LateErrors.

(** ** Examples *)

Definition example_qconfig : qconfig :=
  {| proto_max_bulk_len := 512 * 1024 * 1024; client_max_querybuf_len := 1024 * 1024 * 1024; server_lookahead := 16;
     inside_yielding_command := false |}.

Definition example_input : input Z :=
  {| world_of := example_world; env := 0; alive := true; querybuf := []; qb_pos := 0; querybuf_peak := 0; reqtype := 0;
     multibulklen := 0; bulklen := -1; all_argv_len_sum := 0; pending_cmds := []; ready_len := 0; cmd_pool := []; pool_capacity := 16;
     argv := []; read_error := 0; repl_ack_time := 0; read_reploff := 0; reploff := 0; reploff_next := 0; repl_applied := 0;
     fed := []; trace := [] |}.

(** Counts the commands. *)
Definition example_process (e : Z) (w : world) (cmd : list (list Z)) : Z * option (bool * world) := (e + 1, Some (false, w)).

Definition example_reads := read_all_chunks example_config example_qconfig example_process (fun _ => 0) (fun _ => false) (fun _ => false) (fun _ => 0).

Definition crlf (s : string) : list Z := bs s ++ CRLF.

Definition example_cmds : list (list (list Z)) := [[bs "GET"; bs "k"]; [bs "PING"]].

Lemma example_idle : idle example_config example_qconfig (fun _ => 0) 1000 example_input.
Proof. by split. Qed.

Lemma commands_delivered_witness : exists q' dn left,
  example_reads [bs "*2"; CRLF ++ crlf "$3" ++ bs "GE"; crlf "T" ++ crlf "$1" ++ crlf "k" ++ bs "*"; crlf "1" ++ crlf "$4" ++ crlf "PING"] example_input = Some q' /\
  example_cmds = dn ++ left /\ trace q' = trace example_input ++ dn /\
  zlen (enc_cmds dn) <= zlen (concat [bs "*2"; CRLF ++ crlf "$3" ++ bs "GE"; crlf "T" ++ crlf "$1" ++ crlf "k" ++ bs "*"; crlf "1" ++ crlf "$4" ++ crlf "PING"]) /\
  match left with
  | [] => idle example_config example_qconfig (fun _ => 0) 1000 q'
  | c :: _ => zlen (concat [bs "*2"; CRLF ++ crlf "$3" ++ bs "GE"; crlf "T" ++ crlf "$1" ++ crlf "k" ++ bs "*"; crlf "1" ++ crlf "$4" ++ crlf "PING"]) <
              zlen (enc_cmds (dn ++ [c]))
  end.
Proof.
  apply (commands_delivered example_config example_qconfig example_process (fun _ => 0) (fun _ => false) (fun _ => false) (fun _ => 0) 1000)
    with (Y := []).
  - intros e w cmd C B. by exists (e + 1), false, w.
  - intros cmd. by left.
  - done.
  - done.
  - repeat constructor; vm_compute; done.
  - by vm_compute.
  - by vm_compute.
  - exact example_idle.
Defined.

(** "*2", "GET" and then a line that is not a bulk length. *)
Definition example_stuck : option (input Z) :=
  example_reads [crlf "*2" ++ crlf "$3" ++ crlf "GET"; crlf "#foo"] example_input.

Lemma late_protocol_error_ignored_witness : exists q q', example_stuck = Some q /\
  example_reads [crlf "$3" ++ crlf "key"; crlf "*1" ++ crlf "$4" ++ crlf "PING"] q = Some q' /\
  stuck example_config example_qconfig q' /\ ignores q (concat [crlf "$3" ++ crlf "key"; crlf "*1" ++ crlf "$4" ++ crlf "PING"]) q'.
Proof.
  destruct example_stuck as [q|] eqn:Eq; [|by vm_compute in Eq]. vm_compute in Eq. injection Eq as Eq.
  assert (1 <= server_lookahead example_qconfig) as La by done.
  destruct (late_protocol_error_ignored example_config example_qconfig example_process (fun _ => 0) (fun _ => false) (fun _ => false) (fun _ => 0)
    La [crlf "$3" ++ crlf "key"; crlf "*1" ++ crlf "$4" ++ crlf "PING"] q) as (q' & R & H).
  - subst q. split; try done; [by eexists|by exists (bs "#foo"), LF, []; split; [|repeat constructor]|by eexists].
  - subst q. by vm_compute.
  - subst q. by vm_compute.
  - by exists q, q'.
Defined.
