(* ===== verification/Dict.v ===== *)
(** Hash tables (src/src/dict.c): two tables of chains with incremental
    rehashing from the first to the second.

    The hash function and the type's answer to a resize are parameters, and
    comparing keys decides their equality. A chain is the list of its entries:
    the tagged pointers that save the entry of a key without a value are not
    modelled. [None] is a failed assertion or an access outside a table. *)

From stdpp Require Import base list numbers gmap.
From coqutil Require Import Datatypes.RecordSetters.
From S2P Require Import Prelude.
Import TriangleBracketNotations.

Local Open Scope Z_scope.

Definition HASHTABLE_MIN_FILL : Z := 8.
Definition DICT_HT_INITIAL_EXP : Z := 2.
Definition DICT_HT_INITIAL_SIZE : Z := 4.
Definition LONG_MAX : Z := 2 ^ 63 - 1.
Definition dict_force_resize_ratio : Z := 4.
Definition sizeof_pointer : Z := 8.

Inductive dictResizeEnable : Type := DICT_RESIZE_ENABLE | DICT_RESIZE_AVOID | DICT_RESIZE_FORBID.

#[export] Instance dictResizeEnable_eq_dec : EqDecision dictResizeEnable.
Proof. solve_decision. Defined.

Definition DICTHT_SIZE (exp : Z) : Z := if exp =? -1 then 0 else 2 ^ exp.
Definition DICTHT_SIZE_MASK (exp : Z) : Z := if exp =? -1 then 0 else DICTHT_SIZE exp - 1.

(** [8*sizeof(long) - __builtin_clzl(size-1)] is the number of bits of [size-1]. *)
Definition _dictNextExp (size : Z) : Z :=
  if size <=? DICT_HT_INITIAL_SIZE then DICT_HT_INITIAL_EXP
  else if size >=? LONG_MAX then 63
  else Z.log2 (size - 1) + 1.

(** One of the two tables; a table that is NULL has no buckets and exponent -1. *)
Record hashtable (K V : Type) : Type := { ht_table : list (list (K * V)); ht_size_exp : Z; ht_used : Z }.
Arguments ht_table {K V}.
Arguments ht_size_exp {K V}.
Arguments ht_used {K V}.

(** The calls of the type's [rehashingStarted] and [rehashingCompleted], with the
    size of the old table that [dictRehashingInfo] gives them, and of
    [bucketChanged]. *)
Inductive dictEvent : Type :=
  | RehashingStarted (from : Z)
  | RehashingCompleted (from : Z)
  | BucketChanged (delta : Z).

(** [told] is what the callbacks of the type were called with, oldest first. *)
Record dict (K V : Type) : Type := {
  ht0 : hashtable K V;
  ht1 : hashtable K V;
  rehashidx : Z;
  pauserehash : Z;
  pauseAutoResize : Z;
  told : list dictEvent
}.
Arguments ht0 {K V}.
Arguments ht1 {K V}.
Arguments rehashidx {K V}.
Arguments pauserehash {K V}.
Arguments pauseAutoResize {K V}.
Arguments told {K V}.

(** The members of [dictType] that the code consults: [resizeAllowed] gets the
    bytes of the new table, and the use and size of the old one. *)
Record dictType (K : Type) : Type := {
  hashFunction : K -> Z;
  resizeAllowed : Z -> Z -> Z -> bool;
  force_full_rehash : bool
}.
Arguments hashFunction {K}.
Arguments resizeAllowed {K}.
Arguments force_full_rehash {K}.

(** A position in a chain: the table, the bucket and the entries before it. *)
Record dictEntryLink : Type := { in_second : bool; bucket : Z; depth : nat }.

Section Dict.
Context {K V : Type} `{EqDecision K} (type : dictType K).
Implicit Types (d : dict K V) (t : hashtable K V) (can : dictResizeEnable).

Definition _dictReset : hashtable K V := {| ht_table := []; ht_size_exp := -1; ht_used := 0 |}.

Definition dictCreate : dict K V :=
  {| ht0 := _dictReset; ht1 := _dictReset; rehashidx := -1; pauserehash := 0; pauseAutoResize := 0;
     told := [] |}.

Definition dictIsRehashing d : bool := negb (rehashidx d =? -1).
Definition dictSize d : Z := u64 (ht_used (ht0 d) + ht_used (ht1 d)).
Definition dictBuckets d : Z := DICTHT_SIZE (ht_size_exp (ht0 d)) + DICTHT_SIZE (ht_size_exp (ht1 d)).
Definition dictPauseRehashing d : dict K V := d<| pauserehash := u32 (pauserehash d + 1) |>.
Definition dictResumeRehashing d : dict K V := d<| pauserehash := u32 (pauserehash d - 1) |>.
Definition dictGetHash (k : K) : Z := hashFunction type k.
Definition tell (events : list dictEvent) d : dict K V := d<| told := told d ++ events |>.

(** [d->ht_table[i][idx]], and storing to it. *)
Definition ht (b : bool) d : hashtable K V := if b then ht1 d else ht0 d.
Definition chain t (idx : Z) : option (list (K * V)) := if idx <? 0 then None else ht_table t !! Z.to_nat idx.
Definition set_chain t (idx : Z) (c : list (K * V)) : option (hashtable K V) :=
  _ ← chain t idx; Some (t<| ht_table := <[Z.to_nat idx := c]> (ht_table t) |>).

Definition index_of t (h : Z) : Z := Z.land h (DICTHT_SIZE_MASK (ht_size_exp t)).

(** ** Rehashing *)

(** The entries of a chain go, one by one, to the heads of their new chains. *)
Fixpoint move_entries (idx : Z) (de : list (K * V)) d : option (dict K V) :=
  match de with
  | [] => Some d
  | e :: nextde =>
      let h := if ht_size_exp (ht1 d) >? ht_size_exp (ht0 d) then index_of (ht1 d) (dictGetHash e.1)
               else index_of (ht1 d) idx in
      c ← chain (ht1 d) h;
      t1 ← set_chain (ht1 d) h (e :: c);
      move_entries idx nextde
        (d<| ht0 := (ht0 d)<| ht_used := u64 (ht_used (ht0 d) - 1) |> |>
          <| ht1 := t1<| ht_used := u64 (ht_used t1 + 1) |> |>)
  end.

Definition rehashEntriesInBucketAtIndex d (idx : Z) : option (dict K V) :=
  c ← chain (ht0 d) idx;
  d ← move_entries idx c d;
  t0 ← set_chain (ht0 d) idx [];
  Some (d<| ht0 := t0 |>).

Definition completed d : dict K V :=
  let from := DICTHT_SIZE (ht_size_exp (ht0 d)) in tell [RehashingCompleted from; BucketChanged (- from)] d.

Definition dictCheckRehashingCompleted d : bool * dict K V :=
  if negb (ht_used (ht0 d) =? 0) then (false, d)
  else
    let d := completed d in
    (true, d<| ht0 := ht1 d |><| ht1 := _dictReset |><| rehashidx := -1 |>).

(** The global setting or the ratio of the sizes forbid to rehash now. *)
Definition rehash_forbidden can d : bool :=
  let s0 := DICTHT_SIZE (ht_size_exp (ht0 d)) in
  let s1 := DICTHT_SIZE (ht_size_exp (ht1 d)) in
  bool_decide (can = DICT_RESIZE_FORBID) || negb (dictIsRehashing d) ||
  (bool_decide (can = DICT_RESIZE_AVOID) &&
   (((s1 >? s0) && (s1 <? dict_force_resize_ratio * s0)) ||
    ((s1 <? s0) && (s0 <? HASHTABLE_MIN_FILL * dict_force_resize_ratio * s1)))).

(** The next bucket with entries, unless the visits of empty ones run out
    before ([false]). A table has no more buckets than the fuel. *)
Fixpoint skip_empty (fuel : nat) (empty_visits : Z) d : option (bool * Z * dict K V) :=
  match fuel with
  | O => None
  | S fuel =>
      c ← chain (ht0 d) (rehashidx d);
      match c with
      | [] =>
          let d := d<| rehashidx := rehashidx d + 1 |> in
          if empty_visits - 1 =? 0 then Some (false, 0, d) else skip_empty fuel (empty_visits - 1) d
      | _ => Some (true, empty_visits, d)
      end
  end.

(** [None] is also the failed assertion on [rehashidx]; [false] returns early. *)
Fixpoint rehash_loop (n : nat) (empty_visits : Z) d : option (bool * dict K V) :=
  match n with
  | O => Some (true, d)
  | S n =>
      if ht_used (ht0 d) =? 0 then Some (true, d)
      else if negb (DICTHT_SIZE (ht_size_exp (ht0 d)) >? rehashidx d) then None
      else
        '(found, empty_visits, d) ← skip_empty (S (length (ht_table (ht0 d)))) empty_visits d;
        if (found : bool) then
          d ← rehashEntriesInBucketAtIndex d (rehashidx d);
          rehash_loop n empty_visits (d<| rehashidx := rehashidx d + 1 |>)
        else Some (false, d)
  end.

(** Whether there are entries left to move. [n] is small enough for [n * 10] to be an
    [int], as where it is called. *)
Definition dictRehash can d (n : nat) : option (bool * dict K V) :=
  if rehash_forbidden can d then Some (false, d)
  else
    '(finished, d) ← rehash_loop n (Z.of_nat n * 10) d;
    if (finished : bool) then let '(done, d) := dictCheckRehashingCompleted d in Some (negb done, d)
    else Some (true, d).

(** [while (dictRehash(d, n))]: every round moves [rehashidx]. *)
Fixpoint rehash_all can (fuel : nat) (n : nat) d : option (dict K V) :=
  match fuel with
  | O => None
  | S fuel =>
      '(more, d) ← dictRehash can d n;
      if (more : bool) then rehash_all can fuel n d else Some d
  end.

Definition _dictRehashStep can d : option (dict K V) :=
  if pauserehash d =? 0 then '(_, d) ← dictRehash can d 1; Some d else Some d.

Definition _dictBucketRehash can d (idx : Z) : option (dict K V) :=
  if negb (pauserehash d =? 0) then Some d
  else if rehash_forbidden can d then Some d
  else
    d ← rehashEntriesInBucketAtIndex d idx;
    let '(_, d) := dictCheckRehashingCompleted d in Some d.

Definition _dictRehashStepIfNeeded can d (visitedIdx : Z) : option (dict K V) :=
  if negb (dictIsRehashing d) || negb (pauserehash d =? 0) then Some d
  else
    c ← (if visitedIdx >=? rehashidx d then chain (ht0 d) visitedIdx else Some []);
    match c with
    | [] => '(_, d) ← dictRehash can d 1; Some d
    | _ => _dictBucketRehash can d visitedIdx
    end.

(** ** Resizing *)

(** [malloc_ok] is the answer to the allocation where it may fail. *)
Definition _dictResize can d (size : Z) (malloc_ok : bool) : option (bool * dict K V) :=
  if dictIsRehashing d then None
  else
    let exp := _dictNextExp size in
    let newsize := DICTHT_SIZE exp in
    if (newsize <? size) || (u64 (newsize * sizeof_pointer) <? newsize) then Some (false, d)
    else if exp =? ht_size_exp (ht0 d) then Some (false, d)
    else if negb malloc_ok then Some (false, d)
    else
      let new := {| ht_table := replicate (Z.to_nat newsize) []; ht_size_exp := exp; ht_used := 0 |} in
      let d := tell [RehashingStarted (DICTHT_SIZE (ht_size_exp (ht0 d))); BucketChanged newsize] (d<| ht1 := new |><| rehashidx := 0 |>) in
      if (ht_size_exp (ht0 d) =? -1) || (ht_used (ht0 d) =? 0) then
        let d := completed d in
        Some (true, d<| ht0 := new |><| ht1 := _dictReset |><| rehashidx := -1 |>)
      else if force_full_rehash type then
        d ← rehash_all can (S (Z.to_nat (DICTHT_SIZE (ht_size_exp (ht0 d))))) 1000 d; Some (true, d)
      else Some (true, d).

Definition _dictExpand can d (size : Z) (malloc_ok : bool) : option (bool * dict K V) :=
  if dictIsRehashing d || (ht_used (ht0 d) >? size) || (DICTHT_SIZE (ht_size_exp (ht0 d)) >=? size) then Some (false, d)
  else _dictResize can d size malloc_ok.

Definition dictExpand can d (size : Z) : option (bool * dict K V) := _dictExpand can d size true.

Definition dictShrink can d (size : Z) : option (bool * dict K V) :=
  if dictIsRehashing d || (ht_used (ht0 d) >? size) || (DICTHT_SIZE (ht_size_exp (ht0 d)) <=? size) then Some (false, d)
  else _dictResize can d size true.

Definition dictTypeResizeAllowed d (size : Z) : bool :=
  resizeAllowed type (u64 (DICTHT_SIZE (_dictNextExp size) * sizeof_pointer)) (ht_used (ht0 d)) (DICTHT_SIZE (ht_size_exp (ht0 d))).

Definition dictExpandIfNeeded can d : option (dict K V) :=
  let size := DICTHT_SIZE (ht_size_exp (ht0 d)) in
  let used := ht_used (ht0 d) in
  if dictIsRehashing d then Some d
  else if size =? 0 then '(_, d) ← dictExpand can d DICT_HT_INITIAL_SIZE; Some d
  else if (bool_decide (can = DICT_RESIZE_ENABLE) && (used >=? size)) ||
          (bool_decide (can <> DICT_RESIZE_FORBID) && (used >=? u64 (dict_force_resize_ratio * size))) then
    if dictTypeResizeAllowed d (u64 (used + 1)) then '(_, d) ← dictExpand can d (u64 (used + 1)); Some d else Some d
  else Some d.

Definition _dictExpandIfNeeded can d : option (dict K V) :=
  if pauseAutoResize d >? 0 then Some d else dictExpandIfNeeded can d.

(** Whether [DICT_OK] is returned. *)
Definition dictShrinkIfNeeded can d : option (bool * dict K V) :=
  let size := DICTHT_SIZE (ht_size_exp (ht0 d)) in
  let used := ht_used (ht0 d) in
  if dictIsRehashing d then Some (true, d)
  else if size <=? DICT_HT_INITIAL_SIZE then Some (true, d)
  else if (bool_decide (can = DICT_RESIZE_ENABLE) && (u64 (used * HASHTABLE_MIN_FILL) <=? size)) ||
          (bool_decide (can <> DICT_RESIZE_FORBID) && (u64 (used * HASHTABLE_MIN_FILL * dict_force_resize_ratio) <=? size)) then
    if dictTypeResizeAllowed d used then '(_, d) ← dictShrink can d used; Some (true, d) else Some (true, d)
  else Some (false, d).

Definition _dictShrinkIfNeeded can d : option (dict K V) :=
  if pauseAutoResize d >? 0 then Some d else '(_, d) ← dictShrinkIfNeeded can d; Some d.

(** ** Finding *)

(** The position of a key in a chain. *)
Fixpoint find_in (k : K) (c : list (K * V)) : option nat :=
  match c with
  | [] => None
  | e :: c => if bool_decide (k = e.1) then Some O else S <$> find_in k c
  end.

(** Searching the chain of a hash in one table. *)
Definition search (b : bool) (h : Z) (k : K) d : option (option dictEntryLink) :=
  let idx := index_of (ht b d) h in
  c ← chain (ht b d) idx;
  Some ((fun n => {| in_second := b; bucket := idx; depth := n |}) <$> find_in k c).

(** The first table is skipped below [rehashidx], the second one is searched
    while rehashing: [idx] is the index in the first table. *)
Definition search_tables (idx h : Z) (k : K) d : option (option dictEntryLink) :=
  r ← (if idx <? rehashidx d then Some None else search false h k d);
  match r with
  | Some l => Some (Some l)
  | None => if dictIsRehashing d then search true h k d else Some None
  end.

(** The link of the key, and the bucket that was searched last. *)
Definition dictFindLinkInternal can d (k : K) : option (option dictEntryLink * (bool * Z) * dict K V) :=
  let h := dictGetHash k in
  let idx := index_of (ht0 d) h in
  d ← _dictRehashStepIfNeeded can d idx;
  l ← search_tables idx h k d;
  Some (l, match l with
           | Some l => (in_second l, bucket l)
           | None => let b := dictIsRehashing d in (b, index_of (ht b d) h)
           end, d).

Definition dictFindLink can d (k : K) : option (option dictEntryLink * option (bool * Z) * dict K V) :=
  if dictSize d =? 0 then Some (None, None, d)
  else '(l, b, d) ← dictFindLinkInternal can d k; Some (l, Some b, d).

(** [*link]. *)
Definition entry_at d (l : dictEntryLink) : option (K * V) :=
  c ← chain (ht (in_second l) d) (bucket l); c !! depth l.

Definition dictFind can d (k : K) : option (option (K * V) * dict K V) :=
  '(l, _, d) ← dictFindLink can d k;
  match l with
  | None => Some (None, d)
  | Some l => e ← entry_at d l; Some (Some e, d)
  end.

Definition dictFetchValue can d (k : K) : option (option V * dict K V) :=
  '(e, d) ← dictFind can d k; Some (option_map snd e, d).

(** ** Adding *)

Definition put (b : bool) (t : hashtable K V) d : dict K V := if b then d<| ht1 := t |> else d<| ht0 := t |>.

(** The key is there, or the bucket where it is to be added: in the second
    table while rehashing. *)
Definition dictFindLinkForInsert can d (k : K) : option ((dictEntryLink + bool * Z) * dict K V) :=
  let h := dictGetHash k in
  let idx := index_of (ht0 d) h in
  d ← _dictRehashStepIfNeeded can d idx;
  d ← _dictExpandIfNeeded can d;
  l ← search_tables idx h k d;
  match l with
  | Some l => Some (inl l, d)
  | None => let b := dictIsRehashing d in Some (inr (b, index_of (ht b d) h), d)
  end.

(** A new entry at the head of the bucket. [None] is the failed assertion that
    the bucket is one of the table that takes new entries. *)
Definition dictInsertKeyAtLink d (k : K) (v : V) (l : bool * Z) : option (dict K V) :=
  let b := dictIsRehashing d in
  if negb (Bool.eqb l.1 b) then None
  else
    c ← chain (ht b d) l.2;
    t ← set_chain (ht b d) l.2 ((k, v) :: c);
    Some (put b (t<| ht_used := u64 (ht_used t + 1) |>) d).

Definition set_entry d (l : dictEntryLink) (f : K * V -> K * V) : option (dict K V) :=
  c ← chain (ht (in_second l) d) (bucket l);
  e ← c !! depth l;
  t ← set_chain (ht (in_second l) d) (bucket l) (<[depth l := f e]> c);
  Some (put (in_second l) t d).

Definition dictSetVal d (l : dictEntryLink) (v : V) : option (dict K V) := set_entry d l (fun e => (e.1, v)).

(** [garbage] is what the memory of a new entry holds as its value. *)
Definition dictAddRaw can (garbage : V) d (k : K) : option ((dictEntryLink + dictEntryLink) * dict K V) :=
  '(r, d) ← dictFindLinkForInsert can d k;
  match r with
  | inl l => Some (inl l, d)
  | inr b => d ← dictInsertKeyAtLink d k garbage b; Some (inr {| in_second := b.1; bucket := b.2; depth := 0 |}, d)
  end.

Definition dictAdd can garbage d (k : K) (v : V) : option (bool * dict K V) :=
  '(r, d) ← dictAddRaw can garbage d k;
  match r with
  | inl _ => Some (false, d)
  | inr l => d ← dictSetVal d l v; Some (true, d)
  end.

(** Whether the key was added rather than overwritten. *)
Definition dictReplace can garbage d (k : K) (v : V) : option (bool * dict K V) :=
  '(r, d) ← dictAddRaw can garbage d k;
  match r with
  | inl l => d ← dictSetVal d l v; Some (false, d)
  | inr l => d ← dictSetVal d l v; Some (true, d)
  end.

(** A new entry for a key that is not there, at the bucket that [dictFindLink]
    returned unless the tables have changed since. [None] is also the failed
    assertion that the key is not there. *)
Definition dictSetKeyAtLink_new can d (k : K) (v : V) (link : option (bool * Z)) : option (dict K V) :=
  let e0 := ht_size_exp (ht0 d) in
  let e1 := ht_size_exp (ht1 d) in
  d ← dictExpandIfNeeded can d;
  '(l, d) ← (match link with
             | Some l => if (e0 =? ht_size_exp (ht0 d)) && (e1 =? ht_size_exp (ht1 d)) then Some (l, d)
                         else '(f, b, d) ← dictFindLinkInternal can d k;
                              match f with None => Some (b, d) | Some _ => None end
             | None => '(f, b, d) ← dictFindLinkInternal can d k;
                       match f with None => Some (b, d) | Some _ => None end
             end);
  dictInsertKeyAtLink d k v l.

(** ** Deleting *)

Definition unlink d (l : dictEntryLink) : option ((K * V) * dict K V) :=
  c ← chain (ht (in_second l) d) (bucket l);
  e ← c !! depth l;
  t ← set_chain (ht (in_second l) d) (bucket l) (delete (depth l) c);
  Some (e, put (in_second l) (t<| ht_used := u64 (ht_used t - 1) |>) d).

(** The entry that was removed. *)
Definition dictGenericDelete can d (k : K) : option (option (K * V) * dict K V) :=
  if dictSize d =? 0 then Some (None, d)
  else
    let h := dictGetHash k in
    let idx := index_of (ht0 d) h in
    d ← _dictRehashStepIfNeeded can d idx;
    l ← search_tables idx h k d;
    match l with
    | None => Some (None, d)
    | Some l => '(e, d) ← unlink d l; d ← _dictShrinkIfNeeded can d; Some (Some e, d)
    end.

(** Rehashing is paused between finding an entry and freeing it. *)
Definition dictTwoPhaseUnlinkFind can d (k : K) : option (option dictEntryLink * dict K V) :=
  if dictSize d =? 0 then Some (None, d)
  else
    d ← (if dictIsRehashing d then _dictRehashStep can d else Some d);
    let h := dictGetHash k in
    l ← search_tables (index_of (ht0 d) h) h k d;
    Some (l, match l with Some _ => dictPauseRehashing d | None => d end).

Definition dictTwoPhaseUnlinkFree can d (l : option dictEntryLink) : option (option (K * V) * dict K V) :=
  match l with
  | None => Some (None, d)
  | Some l =>
      '(e, d) ← unlink d l;
      d ← _dictShrinkIfNeeded can d;
      Some (Some e, dictResumeRehashing d)
  end.

(** The entries a table frees, bucket by bucket while some are left. *)
Fixpoint clear_buckets (buckets : list (list (K * V))) (used : Z) : list (K * V) :=
  match buckets with
  | [] => []
  | c :: buckets => if used >? 0 then c ++ clear_buckets buckets (u64 (used - zlen c)) else []
  end.

Definition _dictClear (t : hashtable K V) : list (K * V) * hashtable K V := (clear_buckets (ht_table t) (ht_used t), _dictReset).

Definition dictEmpty d : list (K * V) * dict K V :=
  let d := if dictIsRehashing d then tell [RehashingCompleted (DICTHT_SIZE (ht_size_exp (ht0 d)))] d else d in
  let d := tell [BucketChanged (- dictBuckets d)] d in
  let '(f0, t0) := _dictClear (ht0 d) in
  let '(f1, t1) := _dictClear (ht1 d) in
  (f0 ++ f1, d<| ht0 := t0 |><| ht1 := t1 |><| rehashidx := -1 |><| pauserehash := 0 |><| pauseAutoResize := 0 |>).

(** ** Iterators *)

(** [it_entry] is whether an entry was returned last, [it_rest] the chain behind
    it. The check of an unsafe iterator that the dictionary is unchanged, made
    when it is released, is left out. *)
Record dictIterator : Type := { it_index : Z; it_second : bool; it_safe : bool; it_entry : bool; it_rest : list (K * V) }.

Definition dictInitIterator (safe : bool) : dictIterator :=
  {| it_index := -1; it_second := false; it_safe := safe; it_entry := false; it_rest := [] |}.

(** The bucket that follows: the first call pauses rehashing for a safe iterator
    and skips what was rehashed. *)
Definition next_bucket (it : dictIterator) d : dictIterator * dict K V :=
  let first := (it_index it =? -1) && negb (it_second it) in
  let d := if first && it_safe it then dictPauseRehashing d else d in
  let index := (if first && dictIsRehashing d then rehashidx d - 1 else it_index it) + 1 in
  if (index >=? DICTHT_SIZE (ht_size_exp (ht (it_second it) d))) && (dictIsRehashing d && negb (it_second it)) then
    (it<| it_index := 0 |><| it_second := true |>, d)
  else (it<| it_index := index |>, d).

(** Every round but the last moves to another bucket. *)
Fixpoint dictNext (fuel : nat) (it : dictIterator) d : option (option (K * V) * dictIterator * dict K V) :=
  match fuel with
  | O => None
  | S fuel =>
      if it_entry it then
        match it_rest it with
        | e :: c => Some (Some e, it<| it_rest := c |>, d)
        | [] => dictNext fuel (it<| it_entry := false |>) d
        end
      else
        let '(it, d) := next_bucket it d in
        if it_index it >=? DICTHT_SIZE (ht_size_exp (ht (it_second it) d)) then Some (None, it, d)
        else
          c ← chain (ht (it_second it) d) (it_index it);
          match c with
          | e :: c => Some (Some e, it<| it_entry := true |><| it_rest := c |>, d)
          | [] => dictNext fuel it d
          end
  end.

Definition dictResetIterator (it : dictIterator) d : dict K V :=
  if negb ((it_index it =? -1) && negb (it_second it)) && it_safe it then dictResumeRehashing d else d.

(** [while ((de = dictNext(iter)) != NULL)] *)
Fixpoint iterate (n : nat) (it : dictIterator) d : option (list (K * V) * dict K V) :=
  match n with
  | O => None
  | S n =>
      '(e, it, d) ← dictNext (Z.to_nat (dictBuckets d) + 3) it d;
      match e with
      | None => Some ([], dictResetIterator it d)
      | Some e => '(l, d) ← iterate n it d; Some (e :: l, d)
      end
  end.

(** ** Scanning *)

(** [while ((s >>= 1) > 0)] from 64 down: one step swaps the halves of [2s] bits. *)
Definition swap_step (s mask v : Z) : Z :=
  Z.lor (Z.land (Z.shiftr v s) mask) (Z.land (u64 (Z.shiftl v s)) (u64 (Z.lnot mask))).

Fixpoint rev_loop (n : nat) (s mask v : Z) : Z :=
  let s := Z.shiftr s 1 in
  match n with
  | O => v
  | S n => if s >? 0 then let mask := Z.lxor mask (u64 (Z.shiftl mask s)) in rev_loop n s mask (swap_step s mask v) else v
  end.

Definition rev (v : Z) : Z := rev_loop 7 64 (2 ^ 64 - 1) v.

(** The cursor is incremented from the highest bit of the mask down. *)
Definition next_cursor (m v : Z) : Z := rev (u64 (rev (Z.lor v (u64 (Z.lnot m))) + 1)).

(** The expansions of the cursor in the larger table. *)
Fixpoint scan_larger (fuel : nat) (t : hashtable K V) (m0 m1 v : Z) : option (list (K * V) * Z) :=
  match fuel with
  | O => None
  | S fuel =>
      c ← chain t (Z.land v m1);
      let v := next_cursor m1 v in
      if Z.land v (Z.lxor m0 m1) =? 0 then Some (c, v)
      else '(l, v) ← scan_larger fuel t m0 m1 v; Some (c ++ l, v)
  end.

(** The entries given to the callback, which does not change the dictionary,
    and the new cursor. *)
Definition dictScan d (v : Z) : option (list (K * V) * Z) :=
  if dictSize d =? 0 then Some ([], 0)
  else if negb (dictIsRehashing d) then
    let m0 := DICTHT_SIZE_MASK (ht_size_exp (ht0 d)) in
    c ← chain (ht0 d) (Z.land v m0);
    Some (c, next_cursor m0 v)
  else
    let b := DICTHT_SIZE (ht_size_exp (ht0 d)) >? DICTHT_SIZE (ht_size_exp (ht1 d)) in
    let small := ht b d in
    let large := ht (negb b) d in
    let m0 := DICTHT_SIZE_MASK (ht_size_exp small) in
    let m1 := DICTHT_SIZE_MASK (ht_size_exp large) in
    c ← chain small (Z.land v m0);
    '(l, v) ← scan_larger (Z.to_nat (DICTHT_SIZE (ht_size_exp large))) large m0 m1 v;
    Some (c ++ l, v).
End Dict.

(** ** Well-formed tables *)

Lemma concat_insert {A} (l : list (list A)) i c c' : l !! i = Some c -> concat (<[i := c']> l) ++ c ≡ₚ concat l ++ c'.
Proof.
  revert i. induction l as [|x l IH]; intros [|i] H; simplify_eq/=.
  - rewrite <- !app_assoc, (Permutation_app_comm c' (concat l ++ c)), <- !app_assoc.
    by rewrite app_assoc, (Permutation_app_comm (concat l) c), <- app_assoc.
  - rewrite <- !app_assoc. by rewrite IH.
Qed.

Section Proofs.
Context {K V : Type} `{EqDecision K} (type : dictType K).
Implicit Types (d : dict K V) (t : hashtable K V) (can : dictResizeEnable).

Hypothesis hash_range : forall k, is_u64 (hashFunction type k).

Notation hash := (hashFunction type).

Definition entries_of t : list (K * V) := concat (ht_table t).
Definition entries d : list (K * V) := entries_of (ht0 d) ++ entries_of (ht1 d).

(** The entries [c] belong in the bucket [i]. *)
Definition belong t (i : Z) (c : list (K * V)) : Prop := Forall (fun e => index_of t (hash e.1) = i) c.

Record ht_ok t : Prop := {
  ok_exp : 2 <= ht_size_exp t <= 60;
  ok_length : zlen (ht_table t) = 2 ^ ht_size_exp t;
  ok_placed : forall i c, ht_table t !! i = Some c -> belong t (Z.of_nat i) c;
  ok_used : ht_used t = zlen (entries_of t)
}.

Lemma size_ok t : 0 <= ht_size_exp t -> DICTHT_SIZE (ht_size_exp t) = 2 ^ ht_size_exp t.
Proof. intros H. unfold DICTHT_SIZE. by zdec. Qed.

Lemma index_mod t h : 0 <= ht_size_exp t -> index_of t h = h mod 2 ^ ht_size_exp t.
Proof.
  intros H. unfold index_of, DICTHT_SIZE_MASK. rewrite size_ok by done. zdec.
  rewrite <- Z.land_ones by done. by rewrite Z.ones_equiv.
Qed.

Lemma index_range t h : ht_ok t -> 0 <= index_of t h < zlen (ht_table t).
Proof. intros [E L _ _]. rewrite index_mod, L by lia. apply Z.mod_pos_bound. lia. Qed.

Lemma chain_some t i : 0 <= i < zlen (ht_table t) -> exists c, chain t i = Some c.
Proof.
  intros [H1 H2]. unfold chain. zdec. destruct (lookup_lt_is_Some_2 (ht_table t) (Z.to_nat i)) as [c Hc]; [unfold zlen in H2; lia|eauto].
Qed.

Lemma chain_inv t i c : chain t i = Some c -> 0 <= i /\ ht_table t !! Z.to_nat i = Some c.
Proof. unfold chain. destruct (Z.ltb_spec i 0); [done|auto]. Qed.

Lemma chain_belong t i c : ht_ok t -> chain t i = Some c -> belong t i c.
Proof. intros O H. apply chain_inv in H as [H1 H2]. replace i with (Z.of_nat (Z.to_nat i)) by lia. by eapply ok_placed. Qed.

Lemma chain_subseteq t i c : chain t i = Some c -> zlen c <= zlen (entries_of t).
Proof.
  intros H. apply chain_inv in H as [_ H]. pose proof (concat_insert _ _ _ [] H) as P. apply Permutation_length in P.
  rewrite !length_app in P. simpl in P. unfold zlen, entries_of. lia.
Qed.

(** Replacing a chain: the one lemma behind adding, moving, changing and
    removing an entry. *)
Lemma update_chain t i c c' u : ht_ok t -> chain t i = Some c -> belong t i c' -> u = ht_used t - zlen c + zlen c' ->
  exists t', set_chain t i c' = Some t' /\ ht_ok (t'<| ht_used := u |>) /\ ht_size_exp t' = ht_size_exp t /\ ht_used t' = ht_used t /\
    ht_table t' = <[Z.to_nat i := c']> (ht_table t) /\ entries_of t' ++ c ≡ₚ entries_of t ++ c'.
Proof.
  intros [E L P U] H B ->. pose proof (chain_inv _ _ _ H) as [Hi Hc]. unfold set_chain. rewrite H. cbn [mbind option_bind].
  eexists. split; [reflexivity|]. pose proof (concat_insert _ _ _ c' Hc) as Pm. pose proof (Permutation_length Pm) as Pl.
  rewrite !length_app in Pl. destruct t as [tb e u]. unfold entries_of, belong, index_of in *. cbn in *. unfold constant in *. cbn in *.
  split_and!; try done. split; cbn; unfold constant; cbn.
  - done.
  - unfold zlen in *. by rewrite length_insert.
  - intros j c0. destruct (decide (j = Z.to_nat i)) as [->|N].
    + rewrite list_lookup_insert_eq by (by eapply lookup_lt_Some). intros [= <-]. unfold belong, index_of. cbn. by rewrite Z2Nat.id.
    + rewrite list_lookup_insert_ne by done. intros Hj. unfold belong, index_of. cbn. by eapply P.
  - unfold entries_of, zlen in *. cbn. lia.
Qed.

Lemma mod_mod_pow a m n : 0 <= m <= n -> (a mod 2 ^ n) mod 2 ^ m = a mod 2 ^ m.
Proof. intros H. rewrite <- Znumtheory.Zmod_div_mod; [done|lia|lia|]. exists (2 ^ (n - m)). rewrite <- Z.pow_add_r by lia. f_equal. lia. Qed.

(** The bucket in a smaller table follows from the one in the larger table. *)
Lemma new_index d (e : K * V) idx : 0 <= ht_size_exp (ht0 d) -> 0 <= ht_size_exp (ht1 d) -> index_of (ht0 d) (hash e.1) = idx ->
  (if ht_size_exp (ht1 d) >? ht_size_exp (ht0 d) then index_of (ht1 d) (dictGetHash type e.1) else index_of (ht1 d) idx) =
  index_of (ht1 d) (hash e.1).
Proof.
  intros E0 E1 <-. destruct (Z.gtb_spec (ht_size_exp (ht1 d)) (ht_size_exp (ht0 d))); [done|].
  rewrite !index_mod by done. apply mod_mod_pow. lia.
Qed.

Lemma move_entries_spec idx de : forall d, ht_ok (ht1 d) -> 0 <= ht_size_exp (ht0 d) -> belong (ht0 d) idx de ->
  zlen de <= ht_used (ht0 d) < 2 ^ 62 -> ht_used (ht1 d) + zlen de < 2 ^ 62 ->
  exists t1, move_entries type idx de d = Some (d<| ht0 := (ht0 d)<| ht_used := ht_used (ht0 d) - zlen de |> |><| ht1 := t1 |>) /\
    ht_ok t1 /\ ht_size_exp t1 = ht_size_exp (ht1 d) /\ entries_of t1 ≡ₚ de ++ entries_of (ht1 d).
Proof.
  induction de as [|e de IH]; intros d O1 E0 B U0 U1; cbn [move_entries].
  { exists (ht1 d). split_and!; try done. rewrite zlen_nil, Z.sub_0_r. by destruct d as [[] ?]. }
  apply Forall_cons in B as [Be B]. rewrite zlen_cons in *. pose proof (zlen_nonneg de).
  pose proof (ok_exp _ O1) as E1. rewrite (new_index d e idx) by (done || lia).
  destruct (chain_some (ht1 d) (index_of (ht1 d) (hash e.1)) (index_range _ _ O1)) as [c Hc]. rewrite Hc. cbn [mbind option_bind].
  pose proof (ok_used _ O1) as Us. pose proof (zlen_nonneg (entries_of (ht1 d))).
  destruct (update_chain (ht1 d) _ c (e :: c) (u64 (ht_used (ht1 d) + 1)) O1 Hc) as (t1 & -> & O' & X' & U' & _ & P').
  { constructor; [done|]. by apply chain_belong. }
  { rewrite u64_small by (unfold is_u64; lia). rewrite zlen_cons. lia. }
  cbn [mbind option_bind]. rewrite U'. set (d1 := _ <| ht1 := _ |>).
  assert (ht0 d1 = (ht0 d)<| ht_used := ht_used (ht0 d) - 1 |> /\ ht1 d1 = t1<| ht_used := u64 (ht_used (ht1 d) + 1) |>) as [Q0 Q1].
  { subst d1. rewrite (u64_small (ht_used (ht0 d) - 1)) by (unfold is_u64; lia). clear. by destruct d. }
  destruct (IH d1) as (t2 & R2 & O2 & X2 & P2).
  - by rewrite Q1.
  - rewrite Q0. by destruct (ht0 d).
  - rewrite Q0. by destruct (ht0 d).
  - rewrite Q0. destruct (ht0 d). cbn in *. unfold constant in *. cbn in *. lia.
  - rewrite Q1. destruct t1. cbn in *. unfold constant in *. cbn in *. rewrite u64_small by (unfold is_u64; lia). lia.
  - exists t2. rewrite R2. split_and!; [|done| |].
    + rewrite Q0, Z.sub_add_distr. subst d1. clear. by destruct d as [[? ? u0] ?].
    + rewrite X2, Q1, <- X'. by destruct t1.
    + rewrite P2, Q1. assert (entries_of (t1<| ht_used := u64 (ht_used (ht1 d) + 1) |>) = entries_of t1) as -> by by destruct t1.
      change (e :: c) with ([e] ++ c) in P'. rewrite (Permutation_app_comm [e] c), app_assoc, (Permutation_app_comm (entries_of (ht1 d) ++ c)) in P'.
      rewrite app_assoc in P'. apply Permutation_app_inv_r in P'. rewrite P'. by rewrite app_assoc, (Permutation_app_comm de [e]).
Qed.

(** While rehashing, the buckets before [rehashidx] are empty. *)
Record rehashing d : Prop := {
  rh_0 : ht_ok (ht0 d);
  rh_1 : ht_ok (ht1 d);
  rh_exp : ht_size_exp (ht0 d) <> ht_size_exp (ht1 d);
  rh_idx : 0 <= rehashidx d <= zlen (ht_table (ht0 d));
  rh_done : forall i, 0 <= i < rehashidx d -> chain (ht0 d) i = Some []
}.

Inductive shape d : Prop :=
  | ShapeIdle : rehashidx d = -1 -> ht1 d = _dictReset -> ht0 d = _dictReset \/ ht_ok (ht0 d) -> shape d
  | ShapeRehashing : rehashing d -> shape d.

(** What the events amount to: whether a rehashing is going on, the size of the
    tables that are being replaced, and the number of buckets. A rehashing that
    starts twice, or completes without having started, amounts to nothing. *)
Definition hear (s : option (bool * Z * Z)) (e : dictEvent) : option (bool * Z * Z) :=
  '(r, o, b) ← s;
  match e with
  | RehashingStarted from => if (r : bool) then None else Some (true, o + from, b)
  | RehashingCompleted from => if (r : bool) then Some (false, o - from, b) else None
  | BucketChanged delta => Some (r, o, b + delta)
  end.

Definition heard (events : list dictEvent) : option (bool * Z * Z) := foldl hear (Some (false, 0, 0)) events.

Definition account d : bool * Z * Z :=
  (dictIsRehashing d, if dictIsRehashing d then DICTHT_SIZE (ht_size_exp (ht0 d)) else 0, dictBuckets d).

Lemma heard_tell d events : heard (told (tell events d)) = foldl hear (heard (told d)) events.
Proof. unfold heard. destruct d. cbn. by rewrite foldl_app. Qed.

Record wf d : Prop := {
  w_shape : shape d;
  w_nodup : NoDup (entries d).*1;
  w_size : zlen (entries d) < 2 ^ 62;
  w_told : heard (told d) = Some (account d)
}.

(** The counters that rehashing leaves alone. *)
Definition counters d : Z * Z := (pauserehash d, pauseAutoResize d).

(** Those, and the callbacks that were called before. *)
Record kept d d' : Prop := {
  kp_counters : counters d' = counters d;
  kp_told : told d `prefix_of` told d'
}.

Lemma kept_refl d : kept d d.
Proof. by split. Qed.

Lemma kept_trans d1 d2 d3 : kept d1 d2 -> kept d2 d3 -> kept d1 d3.
Proof. intros [] []. split; [congruence|by etrans]. Qed.

Lemma kept_same d d' : counters d' = counters d -> told d' = told d -> kept d d'.
Proof. intros C T. split; [done|by rewrite T]. Qed.

Lemma zlen_entries d : zlen (entries d) = zlen (entries_of (ht0 d)) + zlen (entries_of (ht1 d)).
Proof. unfold entries. by rewrite zlen_app. Qed.

Lemma rehash_bucket_spec d idx : rehashing d -> zlen (entries d) < 2 ^ 62 -> 0 <= idx < zlen (ht_table (ht0 d)) ->
  exists d', rehashEntriesInBucketAtIndex type d idx = Some d' /\ rehashing d' /\ entries d' ≡ₚ entries d /\
    chain (ht0 d') idx = Some [] /\ (forall j, j <> idx -> chain (ht0 d') j = chain (ht0 d) j) /\
    zlen (ht_table (ht0 d')) = zlen (ht_table (ht0 d)) /\ rehashidx d' = rehashidx d /\ counters d' = counters d /\
    told d' = told d /\ account d' = account d /\
    ht_size_exp (ht0 d') = ht_size_exp (ht0 d) /\ ht_size_exp (ht1 d') = ht_size_exp (ht1 d).
Proof.
  intros [O0 O1 X I Dn] L R. rewrite zlen_entries in L. pose proof (ok_used _ O0) as U0. pose proof (ok_used _ O1) as U1.
  destruct (chain_some _ _ R) as [c Hc]. unfold rehashEntriesInBucketAtIndex. rewrite Hc. cbn [mbind option_bind].
  pose proof (chain_subseteq _ _ _ Hc) as Sc. pose proof (zlen_nonneg c). pose proof (zlen_nonneg (entries_of (ht1 d))). pose proof (ok_exp _ O0) as E0.
  destruct (move_entries_spec idx c d O1) as (t1 & -> & O1' & X1 & P1); [lia|by apply chain_belong|lia|lia|]. cbn [mbind option_bind].
  set (d1 := d <| ht0 := _ |> <| ht1 := t1 |>).
  destruct (update_chain (ht0 d) idx c [] (ht_used (ht0 d) - zlen c) O0 Hc) as (t0 & S0 & O0' & X0 & Ut & T0 & P0); [constructor|rewrite zlen_nil; lia|].
  assert (set_chain (ht0 d1) idx [] = Some (t0<| ht_used := ht_used (ht0 d) - zlen c |>)) as ->.
  { unfold set_chain in *. rewrite Hc in S0. cbn [mbind option_bind] in S0. injection S0 as <-.
    assert (chain (ht0 d1) idx = Some c) as -> by (rewrite <- Hc; by destruct d as [[] ?]). cbn [mbind option_bind]. by destruct d as [[] ?]. }
  cbn [mbind option_bind]. eexists. split; [reflexivity|]. set (d2 := d1 <| ht0 := _ |>).
  assert (ht0 d2 = t0<| ht_used := ht_used (ht0 d) - zlen c |> /\ ht1 d2 = t1 /\ rehashidx d2 = rehashidx d /\ counters d2 = counters d /\
    told d2 = told d) as (Q0 & Q1 & Q2 & Q3 & Q4) by (by destruct d).
  clearbody d2. assert (ht_table (ht0 d2) = ht_table t0 /\ ht_size_exp (ht0 d2) = ht_size_exp t0 /\ ht_used (ht0 d2) = ht_used (ht0 d) - zlen c) as (Q6 & Q7 & Q8)
    by (rewrite Q0; by destruct t0).
  assert (chain (ht0 d2) idx = Some []) as Ci.
  { unfold chain. zdec. rewrite Q6, T0, list_lookup_insert_eq; [done|]. unfold zlen in R. lia. }
  assert (forall j, j <> idx -> chain (ht0 d2) j = chain (ht0 d) j) as Cj.
  { intros j N. unfold chain. destruct (Z.ltb_spec j 0); [done|]. rewrite Q6, T0, list_lookup_insert_ne by lia. done. }
  assert (zlen (ht_table (ht0 d2)) = zlen (ht_table (ht0 d))) as Zl by (unfold zlen; by rewrite Q6, T0, length_insert).
  split_and!; try done; try lia.
  - split; rewrite ?Q0, ?Q1, ?Q2; try done; [rewrite <- Q0, Q7, X0, X1; done|rewrite <- Q0, Zl; done|rewrite <- Q0].
    intros i Hi. destruct (decide (i = idx)) as [->|N]; [done|]. rewrite Cj by done. by apply Dn.
  - unfold entries. assert (entries_of (ht0 d2) = entries_of t0) as -> by (unfold entries_of; by rewrite Q6). rewrite Q1, P1.
    rewrite app_nil_r in P0. by rewrite app_assoc, P0.
  - unfold account, dictBuckets, dictIsRehashing. by rewrite Q2, Q7, X0, Q1, X1.
  - by rewrite Q1.
Qed.

Lemma shape_rehashing d : shape d -> dictIsRehashing d = true -> rehashing d.
Proof. unfold dictIsRehashing. intros [I _ _|R] H; [by rewrite I in H|done]. Qed.

Lemma rehashing_on d : rehashing d -> dictIsRehashing d = true.
Proof. intros R. unfold dictIsRehashing. pose proof (rh_idx _ R). by zdec. Qed.

(** What every operation that only reorganises the tables keeps. *)
Record reorganised d d' : Prop := {
  ro_wf : wf d';
  ro_entries : entries d' ≡ₚ entries d;
  ro_kept : kept d d';
  ro_table : ht_ok (ht0 d) -> ht_ok (ht0 d')
}.

Lemma reorganised_refl d : wf d -> reorganised d d.
Proof. split; [done|done|apply kept_refl|done]. Qed.

Lemma reorganised_trans d1 d2 d3 : reorganised d1 d2 -> reorganised d2 d3 -> reorganised d1 d3.
Proof. intros [] []. split; [done|by etrans|by eapply kept_trans|auto]. Qed.

Lemma reorganise d d' : wf d -> shape d' -> ht_ok (ht0 d') -> entries d' ≡ₚ entries d -> kept d d' ->
  heard (told d') = Some (account d') -> reorganised d d'.
Proof.
  intros [W1 W2 W3 W4] S O P C T. split; [|done|done|done]. split; try done.
  - by rewrite P.
  - unfold zlen in *. by rewrite P.
Qed.

Lemma no_entries t : ht_ok t -> ht_used t = 0 -> entries_of t = [].
Proof. intros O U. rewrite (ok_used _ O) in U. unfold zlen in U. destruct (entries_of t); [done|simpl in U; lia]. Qed.

Lemma reset_entries : entries_of (_dictReset : hashtable K V) = [].
Proof. done. Qed.

Lemma check_spec d : wf d -> rehashing d ->
  reorganised d (dictCheckRehashingCompleted d).2 /\ ((dictCheckRehashingCompleted d).1 = false -> (dictCheckRehashingCompleted d).2 = d) /\
  ((dictCheckRehashingCompleted d).1 = true -> dictIsRehashing (dictCheckRehashingCompleted d).2 = false).
Proof.
  intros W R. unfold dictCheckRehashingCompleted. destruct (Z.eqb_spec (ht_used (ht0 d)) 0) as [Z0|N]; cbn [negb fst snd]; [|split; [by apply reorganised_refl|done]].
  split; [|split; [done|by destruct d]]. pose proof (no_entries _ (rh_0 _ R) Z0) as E0. pose proof (w_told _ W) as T. unfold account in T.
  rewrite (rehashing_on _ R) in T. pose proof (rh_1 _ R) as O1.
  apply reorganise; try done; unfold completed.
  - apply ShapeIdle; [by destruct d|by destruct d|right]. by destruct d.
  - unfold entries. rewrite E0. destruct d. cbn. by rewrite app_nil_r.
  - split; [by destruct d|]. destruct d. cbn. by apply prefix_app_r.
  - assert (forall x : dict K V, told x = told (completed d) -> ht0 x = ht1 d -> ht1 x = _dictReset -> rehashidx x = -1 -> heard (told x) = Some (account x)) as A.
    { intros x X1 X2 X3 X4. rewrite X1. unfold completed. rewrite heard_tell, T. unfold account, dictBuckets, dictIsRehashing. rewrite X2, X3, X4. cbn.
      change (DICTHT_SIZE (-1)) with 0. do 2 f_equal; [f_equal|]; lia. }
    apply A; by destruct d.
Qed.

(** Entries are left behind [rehashidx]. *)
Lemma entries_left d : rehashing d -> ht_used (ht0 d) <> 0 ->
  exists i e c, rehashidx d <= i < zlen (ht_table (ht0 d)) /\ chain (ht0 d) i = Some (e :: c).
Proof.
  intros [O0 O1 X I Dn] N. rewrite (ok_used _ O0) in N. unfold entries_of in N.
  destruct (concat (ht_table (ht0 d))) as [|e l] eqn:C; [done|].
  assert (e ∈ concat (ht_table (ht0 d))) as He by (rewrite C; left). rewrite list_elem_of_In, in_concat in He.
  destruct He as (c & Hc & He). apply list_elem_of_In, list_elem_of_lookup in Hc as [i Hi].
  destruct c as [|e' c]; [done|]. exists (Z.of_nat i), e', c. pose proof (lookup_lt_Some _ _ _ Hi) as Li.
  assert (chain (ht0 d) (Z.of_nat i) = Some (e' :: c)) as Ch by (unfold chain; zdec; by rewrite Nat2Z.id).
  split; [|done]. split; [|unfold zlen; lia]. destruct (Z.le_gt_cases (rehashidx d) (Z.of_nat i)); [done|].
  rewrite Dn in Ch by lia. done.
Qed.

Definition at_index d (r : Z) : dict K V := d<| rehashidx := r |>.

Lemma at_index_fields d r : ht0 (at_index d r) = ht0 d /\ ht1 (at_index d r) = ht1 d /\ rehashidx (at_index d r) = r /\
  entries (at_index d r) = entries d /\ counters (at_index d r) = counters d /\ told (at_index d r) = told d /\
  dictBuckets (at_index d r) = dictBuckets d.
Proof. by destruct d. Qed.

Lemma at_index_rehashing d r : rehashing d -> rehashidx d <= r <= zlen (ht_table (ht0 d)) ->
  (forall i, rehashidx d <= i < r -> chain (ht0 d) i = Some []) -> rehashing (at_index d r).
Proof.
  intros [O0 O1 X I Dn] H E. destruct (at_index_fields d r) as (F0 & F1 & F2 & _). split; rewrite ?F0, ?F1, ?F2; try done; [lia|].
  intros i Hi. destruct (Z.lt_ge_cases i (rehashidx d)); [apply Dn|apply E]; lia.
Qed.

Lemma at_index_wf d r : wf d -> rehashing d -> rehashing (at_index d r) -> reorganised d (at_index d r).
Proof.
  intros W R R'. destruct (at_index_fields d r) as (F0 & F1 & F2 & F3 & F4 & F5 & F6).
  apply reorganise; [done|by apply ShapeRehashing|apply R'|by rewrite F3|by apply kept_same|].
  rewrite F5, (w_told _ W). unfold account. by rewrite (rehashing_on _ R), (rehashing_on _ R'), F0, F6.
Qed.

Lemma at_index_twice d r r' : at_index (at_index d r) r' = at_index d r'.
Proof. by destruct d. Qed.

Lemma skip_empty_spec fuel : forall ev d, rehashing d -> ht_used (ht0 d) <> 0 -> zlen (ht_table (ht0 d)) - rehashidx d < Z.of_nat fuel ->
  exists found ev' r, skip_empty fuel ev d = Some (found, ev', at_index d r) /\ rehashing (at_index d r) /\ rehashidx d <= r /\
    (if (found : bool) then exists e c, chain (ht0 d) r = Some (e :: c) /\ r < zlen (ht_table (ht0 d)) else rehashidx d < r).
Proof.
  induction fuel as [|fuel IH]; intros ev d R N F.
  { pose proof (rh_idx _ R). lia. }
  destruct (entries_left d R N) as (i & e & c & Hi & Hc). cbn [skip_empty].
  pose proof (rh_idx _ R) as [R0 R1]. destruct (chain_some (ht0 d) (rehashidx d)) as [c0 Hc0]; [lia|]. rewrite Hc0. cbn [mbind option_bind].
  destruct c0 as [|e0 c0].
  - assert (rehashidx d < i) as Lt.
    { destruct (Z.eq_dec (rehashidx d) i) as [Eq|]; [|lia]. rewrite <- Eq, Hc0 in Hc. done. }
    fold (at_index d (rehashidx d + 1)).
    assert (rehashing (at_index d (rehashidx d + 1))) as R'.
    { apply at_index_rehashing; [done|lia|]. intros j Hj. by replace j with (rehashidx d) by lia. }
    destruct (at_index_fields d (rehashidx d + 1)) as (F0 & _ & F2 & _).
    destruct (ev - 1 =? 0).
    + exists false, 0, (rehashidx d + 1). split_and!; try done; lia.
    + destruct (IH (ev - 1) (at_index d (rehashidx d + 1)) R') as (found & ev' & r & -> & R2 & L2 & H2); rewrite ?F0, ?F2 in *; [done|lia|].
      rewrite at_index_twice in *. exists found, ev', r. split_and!; try done; [lia|]. destruct found; [done|lia].
  - exists true, ev, (rehashidx d). replace (at_index d (rehashidx d)) with d by (by destruct d). split_and!; try done.
    exists e0, c0. split; [done|lia].
Qed.

(** Rehashing goes on: [rehashidx] has not moved back. *)
Record rehashed d d' : Prop := {
  rd_reorganised : reorganised d d';
  rd_rehashing : rehashing d';
  rd_length : zlen (ht_table (ht0 d')) = zlen (ht_table (ht0 d));
  rd_exp0 : ht_size_exp (ht0 d') = ht_size_exp (ht0 d);
  rd_exp1 : ht_size_exp (ht1 d') = ht_size_exp (ht1 d);
  rd_index : rehashidx d <= rehashidx d'
}.

Lemma rehash_next d r e c : wf d -> rehashing d -> rehashing (at_index d r) -> rehashidx d <= r < zlen (ht_table (ht0 d)) -> chain (ht0 d) r = Some (e :: c) ->
  exists d', rehashEntriesInBucketAtIndex type (at_index d r) r = Some d' /\ rehashidx d' = r /\ rehashed d (at_index d' (r + 1)).
Proof.
  intros W R Ra Hr Hc. destruct (at_index_fields d r) as (F0 & F1 & F2 & F3 & F4 & F5 & F6).
  destruct (rehash_bucket_spec (at_index d r) r Ra) as (d' & -> & R' & P' & C1 & C2 & L' & I' & K' & T' & A' & X0 & X1); rewrite ?F0, ?F3; [by apply W|pose proof (rh_idx _ R); lia|].
  exists d'. rewrite F2 in I'. split_and!; try done. rewrite F0 in L'.
  destruct (at_index_fields d' (r + 1)) as (H0 & H1 & H2 & H3 & H4 & H5 & H6).
  assert (rehashing (at_index d' (r + 1))) as R2.
  { apply at_index_rehashing; [done|lia|]. intros i Hi. by replace i with r by lia. }
  rewrite F0 in X0. rewrite F1 in X1. split; [|done|by rewrite H0|by rewrite H0|by rewrite H1|lia]. apply reorganise; [done|by apply ShapeRehashing|apply R2|by rewrite H3, P', F3|apply kept_same; [by rewrite H4, K', F4|by rewrite H5, T', F5]|].
  rewrite H5, T', F5, (w_told _ W). f_equal. unfold account in *. rewrite (rehashing_on _ R), (rehashing_on _ R2), H0, H6.
  rewrite (rehashing_on _ Ra), (rehashing_on _ R') in A'. injection A' as E1 E2. by rewrite E1, E2, ?F0, ?F6.
Qed.

Lemma rehashed_refl d : wf d -> rehashing d -> rehashed d d.
Proof. intros W R. by split. Qed.

Lemma rehashed_trans d1 d2 d3 : rehashed d1 d2 -> rehashed d2 d3 -> rehashed d1 d3.
Proof. intros [] []. split; [by eapply reorganised_trans|done|congruence|congruence|congruence|lia]. Qed.

Lemma used_nonneg t : ht_ok t -> 0 <= ht_used t.
Proof. intros O. rewrite (ok_used _ O). apply zlen_nonneg. Qed.

Lemma rehash_loop_spec n : forall ev d, wf d -> rehashing d ->
  exists finished d', rehash_loop type n ev d = Some (finished, d') /\ rehashed d d' /\
    ((0 < n)%nat -> ht_used (ht0 d) <> 0 -> rehashidx d < rehashidx d') /\ (finished = false -> rehashidx d < rehashidx d').
Proof.
  induction n as [|n IH]; intros ev d W R; cbn [rehash_loop].
  { exists true, d. split_and!; [done|by apply rehashed_refl|lia|done]. }
  destruct (Z.eqb_spec (ht_used (ht0 d)) 0) as [Z0|N].
  { exists true, d. split_and!; [done|by apply rehashed_refl|done|done]. }
  destruct (entries_left d R N) as (i & e & c & Hi & Hc). pose proof (rh_0 _ R) as O0. pose proof (ok_exp _ O0).
  rewrite size_ok, <- (ok_length _ O0) by lia. zdec. cbn [negb].
  destruct (skip_empty_spec (S (length (ht_table (ht0 d)))) ev d R N) as (found & ev' & r & -> & Ra & Lr & Hf).
  { pose proof (rh_idx _ R). unfold zlen. lia. }
  cbn [mbind option_bind]. destruct found.
  - destruct Hf as (e1 & c1 & Hc1 & Hr1). destruct (at_index_fields d r) as (_ & _ & -> & _).
    destruct (rehash_next d r e1 c1 W R Ra ltac:(lia) Hc1) as (d' & -> & I' & Rd). cbn [mbind option_bind]. rewrite I'. fold (at_index d' (r + 1)).
    destruct (IH ev' (at_index d' (r + 1)) (ro_wf _ _ (rd_reorganised _ _ Rd)) (rd_rehashing _ _ Rd)) as (fin & d2 & -> & R2 & _).
    pose proof (rd_index _ _ R2) as Ix. destruct (at_index_fields d' (r + 1)) as (_ & _ & F2 & _). rewrite F2 in Ix.
    exists fin, d2. split_and!; [done|by eapply rehashed_trans|lia|lia].
  - exists false, (at_index d r). destruct (at_index_fields d r) as (F0 & F1 & F2 & _). split_and!; [done| |by rewrite F2|by rewrite F2].
    split; [by apply at_index_wf|done|by rewrite F0|by rewrite F0|by rewrite F1|by rewrite F2].
Qed.

Lemma rehash_forbidden_idle can d : wf d -> rehash_forbidden can d = false -> rehashing d.
Proof.
  intros W H. apply shape_rehashing; [by apply W|]. unfold rehash_forbidden in H. apply orb_false_iff in H as [H _].
  apply orb_false_iff in H as [_ H]. by apply negb_false_iff in H.
Qed.

(** Rehashing keeps the entries; while it has more to do, it makes progress. *)
Lemma dictRehash_spec can d n : wf d -> exists more d', dictRehash type can d n = Some (more, d') /\ reorganised d d' /\
  (more = true -> rehashing d /\ rehashed d d' /\ ((0 < n)%nat -> rehashidx d < rehashidx d')) /\
  (if rehash_forbidden can d then more = false /\ d' = d else more = dictIsRehashing d') /\
  (dictIsRehashing d' = true -> ht_size_exp (ht0 d') = ht_size_exp (ht0 d)).
Proof.
  intros W. unfold dictRehash. destruct (rehash_forbidden can d) eqn:F.
  { exists false, d. split_and!; try done. }
  apply rehash_forbidden_idle in F as R; [|done].
  destruct (rehash_loop_spec n (Z.of_nat n * 10) d W R) as (fin & d1 & E1 & R1 & P1 & P2). pose proof (rehashing_on _ (rd_rehashing _ _ R1)) as On.
  assert (ht_used (ht0 d1) <> 0 -> (0 < n)%nat -> rehashidx d < rehashidx d1) as Pg.
  { intros U Hn. apply P1; [done|]. intros Z0. apply U. destruct n as [|n]; [lia|]. cbn [rehash_loop] in E1. rewrite Z0 in E1. cbn in E1. by simplify_eq. }
  rewrite E1. cbn [mbind option_bind]. destruct fin; [|exists true, d1; split_and!; [done|apply R1|auto|done|intros _; apply R1]].
  destruct (check_spec d1 (ro_wf _ _ (rd_reorganised _ _ R1)) (rd_rehashing _ _ R1)) as (C1 & C2 & C3).
  destruct (dictCheckRehashingCompleted d1) as [done' d2] eqn:Ec. cbn [fst snd] in *. exists (negb done'), d2.
  destruct done'; cbn [negb]; [rewrite (C3 eq_refl)|rewrite (C2 eq_refl) in *].
  - split_and!; try done. by eapply reorganised_trans; [apply R1|].
  - split_and!; [done|apply R1| |done|intros _; apply R1]. intros _. do 2 (split; [done|]). apply Pg.
    unfold dictCheckRehashingCompleted in Ec. destruct (Z.eqb_spec (ht_used (ht0 d1)) 0); [done|]. done.
Qed.

Lemma rehash_forbidden_same can d d' : dictIsRehashing d' = dictIsRehashing d -> ht_size_exp (ht0 d') = ht_size_exp (ht0 d) ->
  ht_size_exp (ht1 d') = ht_size_exp (ht1 d) -> rehash_forbidden can d' = rehash_forbidden can d.
Proof. intros R X0 X1. unfold rehash_forbidden. by rewrite R, X0, X1. Qed.

Lemma rehash_all_spec can n fuel : (0 < n)%nat -> forall d, wf d -> (0 < fuel)%nat ->
  (rehashing d -> zlen (ht_table (ht0 d)) - rehashidx d < Z.of_nat fuel) ->
  exists d', rehash_all type can fuel n d = Some d' /\ reorganised d d' /\
    (if rehash_forbidden can d then d' = d else dictIsRehashing d' = false).
Proof.
  intros Hn. induction fuel as [|fuel IH]; intros d W F0 F; [lia|]. cbn [rehash_all].
  destruct (dictRehash_spec can d n W) as (more & d1 & -> & R1 & M1 & Fb & _). cbn [mbind option_bind].
  destruct more; [|exists d1; split_and!; [done|done|]; by destruct (rehash_forbidden can d); [destruct Fb|]].
  destruct (M1 eq_refl) as (R & Rd & Pg). specialize (Pg Hn). pose proof (rd_length _ _ Rd) as L. pose proof (rh_idx _ (rd_rehashing _ _ Rd)) as Ix.
  specialize (F R). destruct (rehash_forbidden can d) eqn:Fd; [by destruct Fb|].
  assert (rehash_forbidden can d1 = false) as Fd1.
  { rewrite <- Fd. apply rehash_forbidden_same; [by rewrite <- Fb, (rehashing_on _ R)|apply Rd..]. }
  destruct (IH d1) as (d2 & -> & R2 & Fb2); [by apply R1|lia|intros _; lia|]. rewrite Fd1 in Fb2. exists d2. split_and!; [done|by eapply reorganised_trans|done].
Qed.

Lemma next_exp_range size : 2 <= _dictNextExp size <= 63.
Proof.
  unfold _dictNextExp, DICT_HT_INITIAL_SIZE, DICT_HT_INITIAL_EXP, LONG_MAX. destruct (Z.leb_spec size 4); [done|].
  destruct (Z.geb_spec size (2 ^ 63 - 1)); [done|].
  pose proof (Z.log2_le_mono 4 (size - 1) ltac:(lia)) as L. change (Z.log2 4) with 2 in L.
  pose proof (proj1 (Z.log2_lt_pow2 (size - 1) 63 ltac:(lia)) ltac:(lia)). lia.
Qed.

(** The test for overflow bounds the exponent. *)
Lemma exp_bound exp : 2 <= exp <= 63 -> u64 (2 ^ exp * sizeof_pointer) <? 2 ^ exp = false -> exp <= 60.
Proof.
  intros E H. destruct (Z.le_gt_cases exp 60); [done|]. assert (exp = 61 \/ exp = 62 \/ exp = 63) as [->|[->| ->]] by lia; by vm_compute in H.
Qed.

Definition new_table (exp : Z) : hashtable K V := {| ht_table := replicate (Z.to_nat (2 ^ exp)) []; ht_size_exp := exp; ht_used := 0 |}.

Lemma new_table_entries exp : entries_of (new_table exp) = [].
Proof. unfold entries_of, new_table. cbn. induction (Z.to_nat (2 ^ exp)); [done|]. done. Qed.

Lemma new_table_ok exp : 2 <= exp <= 60 -> ht_ok (new_table exp).
Proof.
  intros H. split; [done| | |by rewrite new_table_entries].
  - unfold zlen, new_table. cbn [ht_table ht_size_exp]. rewrite length_replicate, Z2Nat.id; [done|]. apply Z.pow_nonneg. lia.
  - intros i c Hc. apply lookup_replicate in Hc as [-> _]. constructor.
Qed.

Definition started d (exp : Z) : dict K V :=
  tell [RehashingStarted (DICTHT_SIZE (ht_size_exp (ht0 d))); BucketChanged (2 ^ exp)] (d<| ht1 := new_table exp |><| rehashidx := 0 |>).

Lemma started_fields d exp : ht0 (started d exp) = ht0 d /\ ht1 (started d exp) = new_table exp /\ rehashidx (started d exp) = 0 /\
  kept d (started d exp) /\ heard (told (started d exp)) = foldl hear (heard (told d)) [RehashingStarted (DICTHT_SIZE (ht_size_exp (ht0 d))); BucketChanged (2 ^ exp)].
Proof. split_and!; try (by destruct d); [split; destruct d; [done|by apply prefix_app_r]|]. unfold started. rewrite heard_tell. by destruct d. Qed.

(** A new second table: it takes the place of an empty first one. *)
Lemma resize_started d exp : wf d -> dictIsRehashing d = false -> 2 <= exp <= 60 -> exp <> ht_size_exp (ht0 d) ->
  let d1 := started d exp in
  let d2 := (completed d1)<| ht0 := new_table exp |><| ht1 := _dictReset |><| rehashidx := -1 |> in
  ((ht_size_exp (ht0 d) =? -1) || (ht_used (ht0 d) =? 0) = true -> reorganised d d2 /\ ht_ok (ht0 d2)) /\
  ((ht_size_exp (ht0 d) =? -1) || (ht_used (ht0 d) =? 0) = false -> reorganised d d1 /\ rehashing d1 /\ rehashidx d1 = 0).
Proof.
  intros W R E Ne d1 d2. pose proof (new_table_ok exp E) as On. pose proof (new_table_entries exp) as En.
  pose proof (w_told _ W) as T. unfold account, dictBuckets in T. rewrite R in T. destruct (started_fields d exp) as (F0 & F1 & F2 & F3 & F4). fold d1 in F0, F1, F2, F3, F4.
  destruct (w_shape _ W) as [I R1 R0|Rh]; [|by rewrite (rehashing_on _ Rh) in R]. rewrite R1 in T. change (DICTHT_SIZE (ht_size_exp _dictReset)) with 0 in T. rewrite T in F4. cbn [foldl hear mbind option_bind] in F4.
  assert (DICTHT_SIZE exp = 2 ^ exp) as Hs by (unfold DICTHT_SIZE; by zdec).
  split; intros Em.
  - assert (entries_of (ht0 d) = []) as E0.
    { destruct R0 as [->|O0]; [done|]. apply no_entries; [done|]. apply orb_true_iff in Em as [Em|Em]; apply Z.eqb_eq in Em; [|done].
      pose proof (ok_exp _ O0). lia. }
    assert (ht0 d2 = new_table exp /\ ht1 d2 = _dictReset /\ rehashidx d2 = -1 /\ kept d1 d2 /\ told d2 = told (completed d1)) as (G0 & G1 & G2 & G3 & G4) by (split_and!; try (by destruct d1); split; destruct d1; [done|by apply prefix_app_r]).
    clearbody d2. split; [|by rewrite G0]. apply reorganise; rewrite ?G0; try done.
    + apply ShapeIdle; [done|done|right; by rewrite G0].
    + unfold entries. by rewrite G0, G1, R1, E0, En.
    + by eapply kept_trans.
    + rewrite G4. unfold completed. rewrite heard_tell, F4, F0. cbn [foldl hear mbind option_bind]. unfold account, dictBuckets, dictIsRehashing. rewrite G0, G1, G2.
      cbn [ht_size_exp new_table _dictReset]. rewrite Hs. change (DICTHT_SIZE (-1)) with 0. cbn. do 2 f_equal; [f_equal|]; lia.
  - apply orb_false_iff in Em as [Em1 Em2]. destruct R0 as [Eq|O0]; [by rewrite Eq in Em1|].
    assert (rehashing d1) as Rh.
    { split; rewrite ?F0, ?F1, ?F2; try done; [pose proof (zlen_nonneg (ht_table (ht0 d))); lia|lia]. }
    split; [|by split]. clearbody d1. apply reorganise; rewrite ?F0; try done.
    + by apply ShapeRehashing.
    + unfold entries. by rewrite F0, F1, R1, En.
    + rewrite F4. unfold account, dictBuckets. rewrite (rehashing_on _ Rh), F0, F1. cbn [ht_size_exp new_table]. rewrite Hs. do 2 f_equal. lia.
Qed.

Lemma resize_spec can d size mok : wf d -> dictIsRehashing d = false ->
  exists ok d', _dictResize type can d size mok = Some (ok, d') /\ reorganised d d' /\ (dictIsRehashing d' = true -> rehashidx d' = 0) /\
    (ht0 d = _dictReset -> mok = true -> size = DICT_HT_INITIAL_SIZE -> ht_ok (ht0 d')).
Proof.
  intros W R. unfold _dictResize. rewrite R. pose proof (next_exp_range size) as E. set (exp := _dictNextExp size) in *.
  assert (DICTHT_SIZE exp = 2 ^ exp) as Hs by (unfold DICTHT_SIZE; by zdec). rewrite Hs.
  assert (forall b : bool, b = false -> (ht0 d = _dictReset -> mok = true -> size = DICT_HT_INITIAL_SIZE -> b = true) ->
    exists ok d', Some (false, d) = Some (ok, d') /\ reorganised d d' /\ (dictIsRehashing d' = true -> rehashidx d' = 0) /\
      (ht0 d = _dictReset -> mok = true -> size = DICT_HT_INITIAL_SIZE -> ht_ok (ht0 d'))) as Skip.
  { intros b -> Hb. exists false, d. split_and!; [done|by apply reorganised_refl|by rewrite R|]. intros A1 A2 A3. by specialize (Hb A1 A2 A3). }
  destruct (_ || _) eqn:Ov.
  { apply (Skip false); [done|]. intros _ _ Hz. subst size. by vm_compute in Ov. }
  apply orb_false_iff in Ov as [_ Ov]. apply exp_bound in Ov; [|done].
  destruct (Z.eqb_spec exp (ht_size_exp (ht0 d))) as [Eq|Ne].
  { apply (Skip false); [done|]. intros Hr. rewrite Hr in Eq. cbn in Eq. lia. }
  destruct mok; cbn [negb]; [|apply (Skip false); [done|by intros]]. clear Skip.
  change {| ht_table := replicate (Z.to_nat (2 ^ exp)) []; ht_size_exp := exp; ht_used := 0 |} with (new_table exp).
  pose proof (resize_started d exp W R ltac:(lia) Ne) as (S1 & S2). unfold started in *. set (d1 := tell _ (d <| ht1 := _ |> <| rehashidx := _ |>)) in *.
  assert (ht0 d1 = ht0 d) as H0 by (by destruct d). rewrite H0. clearbody d1. destruct (_ || _) eqn:Em.
  - destruct (S1 eq_refl) as [Ro On]. eexists true, _. split; [reflexivity|]. split_and!; [done|by destruct d1|done].
  - destruct (S2 eq_refl) as (Ro & Rh & I0). destruct (force_full_rehash type).
    + destruct (rehash_all_spec can 1000 (S (Z.to_nat (DICTHT_SIZE (ht_size_exp (ht0 d))))) ltac:(lia) d1) as (d2 & -> & R2 & Fb); [by apply Ro|lia| |].
      { intros _. pose proof (rh_0 _ Rh) as O0. rewrite H0 in *. pose proof (ok_exp _ O0). rewrite (ok_length _ O0), size_ok by lia. lia. }
      cbn [mbind option_bind]. exists true, d2. split_and!; [done|by eapply reorganised_trans| |intros Hr; by rewrite Hr in Em].
      destruct (rehash_forbidden can d1); [by rewrite Fb|by rewrite Fb].
    + exists true, d1. split_and!; [done|done|done|]. intros Hr. by rewrite Hr in Em.
Qed.

(** A resize on the way: nothing is lost, and a rehashing that it started is at
    its beginning. *)
Record resized d d' : Prop := {
  rz_reorganised : reorganised d d';
  rz_start : dictIsRehashing d = false -> dictIsRehashing d' = true -> rehashidx d' = 0;
  rz_same : dictIsRehashing d = true -> d' = d
}.

Lemma resized_refl d : wf d -> resized d d.
Proof. intros W. split; [by apply reorganised_refl|congruence|done]. Qed.

Lemma expand_spec can d size : wf d -> exists ok d', dictExpand type can d size = Some (ok, d') /\ resized d d' /\
  (ht0 d = _dictReset -> size = DICT_HT_INITIAL_SIZE -> ht_ok (ht0 d')).
Proof.
  intros W. unfold dictExpand, _dictExpand. destruct (_ || _ || _) eqn:G.
  { exists false, d. split_and!; [done|by apply resized_refl|]. intros Hr ->. destruct (w_shape _ W) as [I R1 R0|Rh].
    - unfold dictIsRehashing in G. rewrite I, Hr in G. by vm_compute in G.
    - by apply Rh. }
  apply orb_false_iff in G as [G _]. apply orb_false_iff in G as [R _].
  destruct (resize_spec can d size true W R) as (ok & d' & -> & Ro & St & In). exists ok, d'. split_and!; [done| |auto]. split; [done|auto|congruence].
Qed.

Lemma shrink_spec can d size : wf d -> exists ok d', dictShrink type can d size = Some (ok, d') /\ resized d d'.
Proof.
  intros W. unfold dictShrink. destruct (_ || _ || _) eqn:G; [exists false, d; split; [done|by apply resized_refl]|].
  apply orb_false_iff in G as [G _]. apply orb_false_iff in G as [R _].
  destruct (resize_spec can d size true W R) as (ok & d' & -> & Ro & St & In). exists ok, d'. split; [done|]. split; [done|auto|congruence].
Qed.

Lemma expand_if_needed_spec can d : wf d -> exists d', dictExpandIfNeeded type can d = Some d' /\ resized d d' /\ ht_ok (ht0 d').
Proof.
  intros W. unfold dictExpandIfNeeded. destruct (dictIsRehashing d) eqn:R.
  { exists d. split_and!; [done|by apply resized_refl|]. apply shape_rehashing in R; [|apply W]. apply R. }
  destruct (w_shape _ W) as [I R1 [R0|O0]|Rh]; [| |by rewrite (rehashing_on _ Rh) in R].
  - rewrite R0. cbn [ht_size_exp _dictReset]. change (DICTHT_SIZE (-1) =? 0) with true. cbn iota.
    destruct (expand_spec can d DICT_HT_INITIAL_SIZE W) as (ok & d' & -> & Rz & In). cbn [mbind option_bind]. exists d'. split_and!; auto.
  - pose proof (ok_exp _ O0). rewrite size_ok by lia. assert (0 < 2 ^ ht_size_exp (ht0 d)) by (apply Z.pow_pos_nonneg; lia). zdec.
    destruct (_ || _); [|exists d; split_and!; [done|by apply resized_refl|done]].
    destruct (dictTypeResizeAllowed _ _ _); [|exists d; split_and!; [done|by apply resized_refl|done]].
    destruct (expand_spec can d (u64 (ht_used (ht0 d) + 1)) W) as (ok & d' & -> & Rz & _). cbn [mbind option_bind].
    exists d'. split_and!; [done|done|]. by apply Rz.
Qed.

Lemma try_shrink_spec can d : wf d -> exists ok d', dictShrinkIfNeeded type can d = Some (ok, d') /\ reorganised d d'.
Proof.
  intros W. unfold dictShrinkIfNeeded.
  repeat match goal with |- context [if ?b then Some (true, d) else _] => destruct b; [exists true, d; split; [done|by apply reorganised_refl]|] end.
  destruct (_ || _); [|exists false, d; split; [done|by apply reorganised_refl]].
  destruct (dictTypeResizeAllowed _ _ _); [|exists true, d; split; [done|by apply reorganised_refl]].
  destruct (shrink_spec can d (ht_used (ht0 d)) W) as (ok & d' & -> & Rz). cbn [mbind option_bind]. exists true, d'. split; [done|]. by apply Rz.
Qed.

Lemma shrink_if_needed_spec can d : wf d -> exists d', _dictShrinkIfNeeded type can d = Some d' /\ reorganised d d'.
Proof.
  intros W. unfold _dictShrinkIfNeeded. destruct (pauseAutoResize d >? 0); [exists d; split; [done|by apply reorganised_refl]|].
  destruct (try_shrink_spec can d W) as (ok & d' & -> & Ro). by exists d'.
Qed.

Lemma step_spec can d idx : wf d -> (dictIsRehashing d = true -> 0 <= idx < zlen (ht_table (ht0 d))) ->
  exists d', _dictRehashStepIfNeeded type can d idx = Some d' /\ reorganised d d' /\
    (dictIsRehashing d' = true -> dictIsRehashing d = true /\ ht_size_exp (ht0 d') = ht_size_exp (ht0 d)).
Proof.
  intros W I. unfold _dictRehashStepIfNeeded. destruct (dictIsRehashing d) eqn:R; [|exists d; split_and!; [done|by apply reorganised_refl|congruence]].
  cbn [negb orb]. destruct (pauserehash d =? 0) eqn:Ps; cbn [negb]; [|exists d; split_and!; [done|by apply reorganised_refl|done]].
  specialize (I eq_refl). destruct (chain_some _ _ I) as [c Hc]. apply shape_rehashing in R as Rh; [|apply W].
  assert (exists d', ('(_, d) ← dictRehash type can d 1; Some d) = Some d' /\ reorganised d d' /\
    (dictIsRehashing d' = true -> true = true /\ ht_size_exp (ht0 d') = ht_size_exp (ht0 d))) as Step.
  { destruct (dictRehash_spec can d 1 W) as (more & d' & -> & Ro & _ & _ & X). cbn [mbind option_bind]. exists d'. split_and!; auto. }
  assert (exists c', (if idx >=? rehashidx d then chain (ht0 d) idx else Some []) = Some c' /\ (c' = [] \/ (c' = c /\ rehashidx d <= idx))) as (c' & -> & Hc').
  { destruct (Z.geb_spec idx (rehashidx d)); [exists c; auto|exists []; auto]. }
  cbn [mbind option_bind]. destruct c' as [|e c']; [done|]. destruct Hc' as [?|[<- Hi]]; [done|]. clear Step.
  unfold _dictBucketRehash. rewrite Ps. cbn [negb]. destruct (rehash_forbidden can d); [exists d; split_and!; [done|by apply reorganised_refl|done]|].
  destruct (rehash_bucket_spec d idx Rh (w_size _ W) I) as (d1 & -> & Rh1 & P1 & _ & _ & L1 & I1 & K1 & T1 & A1 & X0 & X1). cbn [mbind option_bind].
  assert (reorganised d d1) as Ro.
  { apply reorganise; [done|by apply ShapeRehashing|apply Rh1|done|by apply kept_same|by rewrite T1, A1, (w_told _ W)]. }
  destruct (check_spec d1 (ro_wf _ _ Ro) Rh1) as (C1 & C2 & C3). destruct (dictCheckRehashingCompleted d1) as [b d2]. cbn [fst snd] in *.
  exists d2. split_and!; [done|by eapply reorganised_trans|]. destruct b; [by rewrite (C3 eq_refl)|]. rewrite (C2 eq_refl). auto.
Qed.

(** ** Finding keys *)

Lemma find_in_some k (c : list (K * V)) n : find_in k c = Some n -> exists v, c !! n = Some (k, v).
Proof.
  revert n. induction c as [|[k' v] c IH]; intros n; simpl; [done|]. case_bool_decide as Eq; [intros [= <-]; subst; by exists v|].
  destruct (find_in k c) as [m|]; [|done]. intros [= <-]. by apply IH.
Qed.

Lemma find_in_none k (c : list (K * V)) : find_in k c = None -> k ∉ c.*1.
Proof.
  induction c as [|[k' v] c IH]; simpl; [set_solver|]. case_bool_decide; [done|]. destruct (find_in k c); [done|]. set_solver.
Qed.

(** A key is in the chain of its hash. *)
Lemma key_in_chain t k v c : ht_ok t -> (k, v) ∈ entries_of t -> chain t (index_of t (hash k)) = Some c -> (k, v) ∈ c.
Proof.
  intros O H Hc. unfold entries_of in H. rewrite list_elem_of_In, in_concat in H. destruct H as (c' & Hc' & He).
  apply list_elem_of_In in Hc', He. apply list_elem_of_lookup in Hc' as [i Hi].
  pose proof (ok_placed _ O _ _ Hi) as B. unfold belong in B. rewrite Forall_forall in B. specialize (B _ He). cbn in B.
  apply chain_inv in Hc as [_ Hc]. rewrite B, Nat2Z.id, Hi in Hc. by injection Hc as <-.
Qed.

Lemma chain_entries t i c : chain t i = Some c -> c ⊆ entries_of t.
Proof.
  intros H x Hx. apply chain_inv in H as [_ H]. unfold entries_of. apply list_elem_of_In, in_concat. exists c.
  split; apply list_elem_of_In; [by eapply list_elem_of_lookup_2|done].
Qed.

(** The link [l] is that of the key, with the value [v] in the chain [c]. *)
Record linked d (l : dictEntryLink) k v c : Prop := {
  lk_table : ht_ok (ht (in_second l) d);
  lk_second : in_second l = true -> rehashing d;
  lk_bucket : bucket l = index_of (ht (in_second l) d) (hash k);
  lk_chain : chain (ht (in_second l) d) (bucket l) = Some c;
  lk_entry : c !! depth l = Some (k, v)
}.

Lemma linked_entries d l k v c : linked d l k v c -> (k, v) ∈ entries d.
Proof.
  intros [L1 L2 L3 L4 L5]. apply chain_entries in L4. apply list_elem_of_lookup_2 in L5. apply L4 in L5. unfold entries.
  destruct (in_second l); set_solver.
Qed.

(** One table: the link of the key, or the key is not in it. *)
Lemma search_spec b d k : ht_ok (ht b d) -> (b = true -> rehashing d) ->
  exists r, search b (hash k) k d = Some r /\
    match r with Some l => in_second l = b /\ exists v c, linked d l k v c | None => k ∉ (entries_of (ht b d)).*1 end.
Proof.
  intros O Rh. unfold search. destruct (chain_some _ _ (index_range (ht b d) (hash k) O)) as [c Hc]. rewrite Hc. cbn [mbind option_bind].
  eexists. split; [reflexivity|]. destruct (find_in k c) as [n|] eqn:F.
  - apply find_in_some in F as [v Hv]. split; [done|]. exists v, c. by split.
  - apply find_in_none in F. intros H. apply list_elem_of_fmap in H as ([k' v] & -> & H). cbn in *.
    pose proof (key_in_chain _ _ _ _ O H Hc) as H'. apply F. by apply (list_elem_of_fmap_2 fst) in H'.
Qed.

Definition skips d idx k : Prop := idx < rehashidx d -> chain (ht0 d) (index_of (ht0 d) (hash k)) = Some [].

Lemma search_tables_spec d idx k : wf d -> ht_ok (ht0 d) -> skips d idx k ->
  exists r, search_tables idx (hash k) k d = Some r /\
    match r with Some l => exists v c, linked d l k v c | None => k ∉ (entries d).*1 end.
Proof.
  intros W O0 Sk. unfold search_tables, entries. rewrite fmap_app.
  assert (exists r, (if idx <? rehashidx d then Some None else search false (hash k) k d) = Some r /\
    match r with Some l => exists v c, linked d l k v c | None => k ∉ (entries_of (ht0 d)).*1 end) as (r0 & -> & H0).
  { destruct (Z.ltb_spec idx (rehashidx d)) as [Lt|_].
    - exists None. split; [done|]. intros H. apply list_elem_of_fmap in H as ([k' v] & -> & H).
      pose proof (key_in_chain _ _ _ _ O0 H (Sk Lt)) as H'. set_solver.
    - destruct (search_spec false d k O0 ltac:(done)) as (r & -> & Hr). exists r. split; [done|]. destruct r as [l|]; [by destruct Hr|done]. }
  cbn [mbind option_bind]. destruct r0 as [l|]; [by exists (Some l)|].
  destruct (dictIsRehashing d) eqn:R.
  - apply shape_rehashing in R as Rh; [|apply W]. destruct (search_spec true d k (rh_1 _ Rh) ltac:(done)) as (r & -> & Hr). exists r. split; [done|].
    destruct r as [l|]; [by destruct Hr|]. cbn [ht] in Hr. set_solver.
  - exists None. split; [done|]. destruct (w_shape _ W) as [_ R1 _|Rh]; [|by rewrite (rehashing_on _ Rh) in R]. rewrite R1. cbn. set_solver.
Qed.

Lemma size_spec d : wf d -> dictSize d = zlen (entries d).
Proof.
  intros W. unfold dictSize. rewrite zlen_entries. pose proof (w_size _ W) as L. rewrite zlen_entries in L.
  pose proof (zlen_nonneg (entries_of (ht0 d))). pose proof (zlen_nonneg (entries_of (ht1 d))).
  assert (ht_used (ht0 d) = zlen (entries_of (ht0 d)) /\ ht_used (ht1 d) = zlen (entries_of (ht1 d))) as [-> ->].
  { destruct (w_shape _ W) as [_ -> [->|O0]|[O0 O1 _ _ _]]; split; try done; by apply ok_used. }
  rewrite u64_small; [done|]. unfold is_u64. lia.
Qed.

Lemma table_ok d : wf d -> dictSize d <> 0 -> ht_ok (ht0 d).
Proof.
  intros W N. rewrite size_spec in N by done. destruct (w_shape _ W) as [_ R1 [R0|O0]|Rh]; [|done|apply Rh].
  unfold entries in N. rewrite R0, R1 in N. done.
Qed.

Lemma index_nonneg t h : 0 <= h -> 0 <= index_of t h.
Proof. intros H. unfold index_of. apply Z.land_nonneg. by left. Qed.

Lemma hash_nonneg k : 0 <= hash k.
Proof. pose proof (hash_range k). unfold is_u64 in *. lia. Qed.

Lemma skips_same d (e0 : hashtable K V) k : wf d -> (dictIsRehashing d = true -> ht_size_exp (ht0 d) = ht_size_exp e0) -> skips d (index_of e0 (hash k)) k.
Proof.
  intros W X Lt. pose proof (index_nonneg e0 (hash k) (hash_nonneg k)) as N.
  assert (dictIsRehashing d = true) as R by (unfold dictIsRehashing; by zdec). specialize (X R). apply shape_rehashing in R; [|apply W].
  assert (index_of (ht0 d) (hash k) = index_of e0 (hash k)) as -> by (unfold index_of; by rewrite X). apply R. lia.
Qed.

Lemma rehashing_index d k : wf d -> dictIsRehashing d = true -> 0 <= index_of (ht0 d) (hash k) < zlen (ht_table (ht0 d)).
Proof. intros W R. apply shape_rehashing in R; [|apply W]. apply index_range, R. Qed.

(** Looking a key up, after a step of rehashing. *)
Lemma locate_spec can d k : wf d -> ht_ok (ht0 d) ->
  exists d' l, _dictRehashStepIfNeeded type can d (index_of (ht0 d) (hash k)) = Some d' /\
    search_tables (index_of (ht0 d) (hash k)) (hash k) k d' = Some l /\ reorganised d d' /\
    match l with Some l => exists v c, linked d' l k v c | None => k ∉ (entries d').*1 end.
Proof.
  intros W O. destruct (step_spec can d (index_of (ht0 d) (hash k)) W (rehashing_index d k W)) as (d' & E1 & Ro & X).
  destruct (search_tables_spec d' (index_of (ht0 d) (hash k)) k (ro_wf _ _ Ro) (ro_table _ _ Ro O)) as (l & E2 & Hl).
  { apply skips_same; [apply Ro|]. intros R. by apply X. }
  by exists d', l.
Qed.

Lemma entry_at_linked d l k v c : linked d l k v c -> entry_at d l = Some (k, v).
Proof. intros [L1 L2 L3 L4 L5]. unfold entry_at. rewrite L4. done. Qed.

Lemma dict_find_spec can d k : wf d -> exists r d', dictFind type can d k = Some (r, d') /\ reorganised d d' /\
  match r with Some e => e.1 = k /\ e ∈ entries d | None => k ∉ (entries d).*1 end.
Proof.
  intros W. unfold dictFind, dictFindLink. destruct (Z.eqb_spec (dictSize d) 0) as [Z0|N].
  - cbn [mbind option_bind]. exists None, d. split_and!; [done|by apply reorganised_refl|]. rewrite size_spec in Z0 by done.
    destruct (entries d); [set_solver|rewrite zlen_cons in Z0; pose proof (zlen_nonneg l); lia].
  - destruct (locate_spec can d k W (table_ok d W N)) as (d' & l & E1 & E2 & Ro & Hl). unfold dictFindLinkInternal, dictGetHash. rewrite E1.
    cbn [mbind option_bind]. rewrite E2. cbn [mbind option_bind]. destruct l as [l|].
    + destruct Hl as (v & c & L). rewrite (entry_at_linked _ _ _ _ _ L). cbn [mbind option_bind]. exists (Some (k, v)), d'.
      split_and!; [done|done|done|]. rewrite <- (ro_entries _ _ Ro). by eapply linked_entries.
    + exists None, d'. split_and!; [done|done|]. by rewrite <- (ro_entries _ _ Ro).
Qed.

(** ** Changing a chain *)

(** The chain [c] has become [c']. *)
Record changed d d' (c c' : list (K * V)) : Prop := {
  ch_shape : shape d';
  ch_table : ht_ok (ht0 d');
  ch_entries : entries d' ++ c ≡ₚ entries d ++ c';
  ch_kept : kept d d';
  ch_told : heard (told d') = Some (account d');
  ch_on : dictIsRehashing d' = dictIsRehashing d
}.

Lemma put_fields b t d : ht b (put b t d) = t /\ ht (negb b) (put b t d) = ht (negb b) d /\ rehashidx (put b t d) = rehashidx d /\
  counters (put b t d) = counters d /\ told (put b t d) = told d.
Proof. by destruct b, d. Qed.

Lemma put_shape b t d : shape d -> ht_ok (ht b d) -> ht_ok t -> ht_size_exp t = ht_size_exp (ht b d) -> (b = true -> rehashing d) ->
  (b = false -> forall i, 0 <= i < rehashidx d -> chain t i = Some []) -> shape (put b t d) /\ ht_ok (ht0 (put b t d)).
Proof.
  intros S O O' X Rb E. assert (zlen (ht_table t) = zlen (ht_table (ht b d))) as Zl by (rewrite !ok_length, X; done).
  destruct S as [I R1 R0|[O0 O1 N Ix Dn]]; destruct b; cbn [ht] in *.
  - specialize (Rb eq_refl). rewrite R1 in O. pose proof (ok_exp _ O). cbn in *. lia.
  - split; [|by destruct d]. apply ShapeIdle; [by destruct d|by destruct d|right; by destruct d].
  - split; [|by destruct d]. apply ShapeRehashing. split; try (by destruct d); destruct d; cbn in *; unfold constant; cbn; rewrite ?X; done.
  - specialize (E eq_refl). split; [|by destruct d]. apply ShapeRehashing.
    split; try (by destruct d); destruct d; cbn in *; unfold constant; cbn; rewrite ?X, ?Zl; done.
Qed.

Lemma change_chain b d i c c' u : wf d -> ht_ok (ht b d) -> (b = true -> rehashing d) -> chain (ht b d) i = Some c -> belong (ht b d) i c' ->
  (b = false -> 0 <= i < rehashidx d -> c' = []) -> u = ht_used (ht b d) - zlen c + zlen c' ->
  exists t, set_chain (ht b d) i c' = Some t /\ ht_used t = ht_used (ht b d) /\ changed d (put b (t<| ht_used := u |>) d) c c' /\
    ht_ok (t<| ht_used := u |>) /\ chain (t<| ht_used := u |>) i = Some c' /\ ht_size_exp (t<| ht_used := u |>) = ht_size_exp (ht b d).
Proof.
  intros W O Rb Hc B Em ->. destruct (update_chain (ht b d) i c c' _ O Hc B eq_refl) as (t & S & O' & X & U & T & P).
  exists t. do 2 (split; [done|]). set (t' := t <| ht_used := _ |>) in *.
  assert (ht_size_exp t' = ht_size_exp t /\ entries_of t' = entries_of t /\ ht_table t' = ht_table t) as (X' & E' & T') by (by destruct t).
  destruct (put_shape b t' d (w_shape _ W) O O') as [Sh Ot]; [congruence|done| |].
  { intros -> j Hj. unfold chain. zdec. rewrite T', T. destruct (decide (Z.to_nat j = Z.to_nat i)) as [Eq|Ne].
    - assert (j = i) as -> by (pose proof (chain_inv _ _ _ Hc); lia). rewrite Em by done. apply list_lookup_insert_eq.
      apply chain_inv in Hc as [_ Hc]. by eapply lookup_lt_Some.
    - rewrite list_lookup_insert_ne by done. destruct (w_shape _ W) as [I _ _|Rh]; [lia|]. pose proof (rh_done _ Rh j Hj) as Hd. by apply chain_inv in Hd as [_ ?]. }
  destruct (put_fields b t' d) as (F0 & F1 & F2 & F3 & F4).
  assert (dictIsRehashing (put b t' d) = dictIsRehashing d) as R by (unfold dictIsRehashing; by rewrite F2).
  split; [|split_and!; [done| |congruence]; apply chain_inv in Hc as [Hi Hc]; unfold chain; zdec; rewrite T', T; apply list_lookup_insert_eq; by eapply lookup_lt_Some].
  split; try done; [|by apply kept_same|].
  - unfold entries. destruct b; cbn [ht negb] in *; rewrite F0, F1, E'.
    + by rewrite <- !app_assoc, P.
    + rewrite <- app_assoc, (Permutation_app_comm (entries_of (ht1 d)) c), app_assoc, P, <- !app_assoc. apply Permutation_app_head, Permutation_app_comm.
  - rewrite F4, (w_told _ W). unfold account, dictBuckets. rewrite R. destruct b; cbn [ht negb] in *; by rewrite F0, F1, X', X.
Qed.

Lemma changed_wf d d' c c' : changed d d' c c' -> NoDup (entries d').*1 -> zlen (entries d') < 2 ^ 62 -> wf d'.
Proof. intros [] N L. by split. Qed.

(** A chain with an entry is not behind [rehashidx]. *)
Lemma linked_ahead d l k v c : wf d -> linked d l k v c -> in_second l = false -> ~ 0 <= bucket l < rehashidx d.
Proof.
  intros W [L1 L2 L3 L4 L5] F H. rewrite F in L4. destruct (w_shape _ W) as [I _ _|Rh]; [lia|]. cbn [ht] in L4.
  rewrite (rh_done _ Rh) in L4 by done. by injection L4 as <-.
Qed.

Lemma insert_perm {A} (l : list A) n x y : l !! n = Some x -> <[n := y]> l ≡ₚ y :: delete n l.
Proof.
  revert n. induction l as [|z l IH]; intros [|n] H; simplify_eq/=; [done|]. rewrite IH by done. apply Permutation_swap.
Qed.

Lemma perm_exchange {A} (x y : A) l l' r m : l' ++ x :: m ≡ₚ l ++ y :: m -> l ≡ₚ x :: r -> l' ≡ₚ y :: r.
Proof.
  intros P Q. rewrite Q, <- Permutation_middle in P. cbn in P. apply Permutation_cons_inv in P.
  rewrite <- Permutation_middle in P. change (y :: r ++ m) with ((y :: r) ++ m) in P. by apply Permutation_app_inv_r in P.
Qed.

Lemma put_same_used b t d : put b (t<| ht_used := ht_used t |>) d = put b t d.
Proof. by destruct t. Qed.

Lemma belong_insert t i (c : list (K * V)) n e e' : belong t i c -> c !! n = Some e -> e'.1 = e.1 -> belong t i (<[n := e']> c).
Proof.
  intros B H E. apply Forall_insert; [done|]. rewrite E. unfold belong in B. rewrite Forall_lookup in B. by eapply B.
Qed.

(** Setting the value of an entry. *)
Lemma set_val_spec d l k v c v' : wf d -> linked d l k v c -> exists d' rest, dictSetVal d l v' = Some d' /\ wf d' /\ kept d d' /\ ht_ok (ht0 d') /\
  entries d ≡ₚ (k, v) :: rest /\ entries d' ≡ₚ (k, v') :: rest.
Proof.
  intros W L. pose proof (linked_ahead d l k v c W L) as A. destruct L as [L1 L2 L3 L4 L5]. unfold dictSetVal, set_entry. rewrite L4. cbn [mbind option_bind].
  rewrite L5. cbn [mbind option_bind]. set (c' := <[depth l := _]> c).
  assert (c ≡ₚ (k, v) :: delete (depth l) c /\ c' ≡ₚ (k, v') :: delete (depth l) c) as [P1 P2] by (split; [by apply delete_Permutation|by apply (insert_perm c _ (k, v))]).
  destruct (change_chain (in_second l) d (bucket l) c c' (ht_used (ht (in_second l) d)) W L1 L2 L4) as (t & -> & U & Ch & _).
  - by eapply belong_insert; [apply chain_belong| |].
  - intros F H. by destruct (A F).
  - unfold zlen. apply Permutation_length in P1, P2. rewrite P1, P2. simpl. lia.
  - cbn [mbind option_bind]. rewrite <- U, put_same_used in Ch. eexists. pose proof (ch_entries _ _ _ _ Ch) as P. rewrite P1, P2 in P.
    assert (exists rest, entries d ≡ₚ (k, v) :: rest) as [rest Pr].
    { assert ((k, v) ∈ entries d) as He by (eapply linked_entries; by split). by apply elem_of_Permutation in He. }
    exists rest. pose proof (perm_exchange _ _ _ _ _ _ P Pr) as P'.
    split_and!; [reflexivity| |apply Ch|apply Ch|done|done].
    pose proof (w_nodup _ W) as Nd. pose proof (w_size _ W) as Sz. eapply changed_wf; [done| |].
    + rewrite P'. rewrite Pr in Nd. done.
    + unfold zlen in *. rewrite P'. rewrite Pr in Sz. done.
Qed.

(** A new entry at the head of its bucket. *)
Lemma insert_spec d k v : wf d -> ht_ok (ht0 d) -> k ∉ (entries d).*1 -> zlen (entries d) + 1 < 2 ^ 62 ->
  let b := dictIsRehashing d in let i := index_of (ht b d) (hash k) in
  exists d' c, dictInsertKeyAtLink d k v (b, i) = Some d' /\ wf d' /\ kept d d' /\ entries d' ≡ₚ (k, v) :: entries d /\
    linked d' {| in_second := b; bucket := i; depth := 0 |} k v c.
Proof.
  intros W O N L b i. unfold dictInsertKeyAtLink. fold b. rewrite Bool.eqb_reflx. cbn [negb fst snd].
  assert (ht_ok (ht b d) /\ (b = true -> rehashing d)) as [Ob Rb].
  { destruct b eqn:Eb; [|done]. apply shape_rehashing in Eb; [|apply W]. split; [apply Eb|done]. }
  destruct (chain_some _ _ (index_range (ht b d) (hash k) Ob)) as [c Hc]. fold i in Hc. rewrite Hc. cbn [mbind option_bind].
  pose proof (ok_used _ Ob) as U. pose proof (zlen_nonneg (entries_of (ht b d))).
  assert (zlen (entries_of (ht b d)) <= zlen (entries d)) as Le.
  { rewrite zlen_entries. pose proof (zlen_nonneg (entries_of (ht0 d))). pose proof (zlen_nonneg (entries_of (ht1 d))). destruct b; cbn [ht]; lia. }
  destruct (change_chain b d i c ((k, v) :: c) (u64 (ht_used (ht b d) + 1)) W Ob Rb Hc) as (t & -> & Ut & Ch & Ot & Ct & Xt).
  - constructor; [done|by apply chain_belong].
  - intros F Hi. unfold b in F. unfold dictIsRehashing in F. apply negb_false_iff, Z.eqb_eq in F. lia.
  - rewrite u64_small by (unfold is_u64; lia). rewrite zlen_cons. lia.
  - cbn [mbind option_bind]. rewrite Ut. eexists _, ((k, v) :: c). split; [reflexivity|].
    assert (entries (put b (t<| ht_used := u64 (ht_used (ht b d) + 1) |>) d) ≡ₚ (k, v) :: entries d) as P.
    { pose proof (ch_entries _ _ _ _ Ch) as P. rewrite <- Permutation_middle in P. change ((k, v) :: entries d ++ c) with (((k, v) :: entries d) ++ c) in P.
      by apply Permutation_app_inv_r in P. }
    split_and!; [|apply Ch|done|].
    + eapply changed_wf; [done| |].
      * rewrite P. cbn. constructor; [done|apply W].
      * unfold zlen in *. rewrite P. cbn [length]. lia.
    + destruct (put_fields b (t<| ht_used := u64 (ht_used (ht b d) + 1) |>) d) as (F0 & _). split; cbn [in_second bucket depth]; rewrite ?F0; try done.
      * intros Eb. apply shape_rehashing; [apply Ch|]. by rewrite (ch_on _ _ _ _ Ch).
      * unfold i, index_of. by rewrite Xt.
Qed.

(** Removing an entry. *)
Lemma unlink_spec d l k v c : wf d -> linked d l k v c -> exists d', unlink d l = Some ((k, v), d') /\ wf d' /\ kept d d' /\ ht_ok (ht0 d') /\
  entries d ≡ₚ (k, v) :: entries d'.
Proof.
  intros W L. pose proof (linked_ahead d l k v c W L) as A. pose proof (linked_entries _ _ _ _ _ L) as He. destruct L as [L1 L2 L3 L4 L5].
  unfold unlink. rewrite L4. cbn [mbind option_bind]. rewrite L5. cbn [mbind option_bind].
  pose proof (delete_Permutation c (depth l) (k, v) L5) as Pc. pose proof (Permutation_length Pc) as Lc. cbn [length] in Lc.
  pose proof (ok_used _ L1) as U. pose proof (chain_subseteq _ _ _ L4) as Sc. pose proof (w_size _ W) as Sz.
  assert (zlen (entries_of (ht (in_second l) d)) <= zlen (entries d)) as Le.
  { rewrite zlen_entries. pose proof (zlen_nonneg (entries_of (ht0 d))). pose proof (zlen_nonneg (entries_of (ht1 d))). destruct (in_second l); cbn [ht]; lia. }
  destruct (change_chain (in_second l) d (bucket l) c (delete (depth l) c) (u64 (ht_used (ht (in_second l) d) - 1)) W L1 L2 L4) as (t & -> & Ut & Ch & _).
  - unfold belong. pose proof (chain_belong _ _ _ L1 L4) as B. unfold belong in B. rewrite Pc in B. by apply Forall_cons in B as [_ B].
  - intros F H. by destruct (A F).
  - rewrite u64_small; unfold is_u64, zlen in *; lia.
  - cbn [mbind option_bind]. rewrite Ut. eexists. split; [reflexivity|].
    assert (entries d ≡ₚ (k, v) :: entries (put (in_second l) (t<| ht_used := u64 (ht_used (ht (in_second l) d) - 1) |>) d)) as P.
    { pose proof (ch_entries _ _ _ _ Ch) as P. generalize dependent (delete (depth l) c). intros m Pc _ _ P. rewrite Pc, <- Permutation_middle in P.
      symmetry. by apply (Permutation_app_inv_r m (_ :: _)). }
    split_and!; [|apply Ch|apply Ch|done]. pose proof (w_nodup _ W) as Nd. eapply changed_wf; [done| |].
    + rewrite P in Nd. cbn in Nd. by apply NoDup_cons in Nd as [_ Nd].
    + unfold zlen in *. rewrite P in Sz. cbn [length] in Sz. lia.
Qed.

(** ** Operations *)

(** Automatic resizing is only paused on a table that has buckets. *)
Definition can_insert d : Prop := pauseAutoResize d <= 0 \/ ht_ok (ht0 d).

Lemma can_insert_reorganised d d' : reorganised d d' -> can_insert d -> can_insert d'.
Proof. intros [_ _ [C _] T] [P|O]; [left|right; auto]. injection C as _ ->. done. Qed.

Lemma find_for_insert_spec can d k : wf d -> can_insert d -> exists r d', dictFindLinkForInsert type can d k = Some (r, d') /\ reorganised d d' /\
  ht_ok (ht0 d') /\ match r with
                    | inl l => exists v c, linked d' l k v c
                    | inr p => p = (dictIsRehashing d', index_of (ht (dictIsRehashing d') d') (hash k)) /\ k ∉ (entries d').*1
                    end.
Proof.
  intros W Ci. unfold dictFindLinkForInsert, dictGetHash.
  destruct (step_spec can d (index_of (ht0 d) (hash k)) W (rehashing_index d k W)) as (d1 & -> & Ro1 & X1). cbn [mbind option_bind].
  pose proof (ro_wf _ _ Ro1) as W1. apply (can_insert_reorganised _ _ Ro1) in Ci.
  assert (exists d2, _dictExpandIfNeeded type can d1 = Some d2 /\ resized d1 d2 /\ ht_ok (ht0 d2)) as (d2 & -> & Rz & O2).
  { unfold _dictExpandIfNeeded. destruct (Z.gtb_spec (pauseAutoResize d1) 0); [|by apply expand_if_needed_spec].
    exists d1. split_and!; [done|by apply resized_refl|]. destruct Ci; [lia|done]. }
  cbn [mbind option_bind]. pose proof (rz_reorganised _ _ Rz) as Ro2. pose proof (ro_wf _ _ Ro2) as W2.
  assert (skips d2 (index_of (ht0 d) (hash k)) k) as Sk.
  { destruct (dictIsRehashing d1) eqn:R1.
    - rewrite (rz_same _ _ Rz R1). apply skips_same; [done|]. intros _. by apply X1.
    - intros Lt. pose proof (index_nonneg (ht0 d) (hash k) (hash_nonneg k)).
      assert (dictIsRehashing d2 = true) as R2 by (unfold dictIsRehashing; by zdec). rewrite (rz_start _ _ Rz R1 R2) in Lt. lia. }
  destruct (search_tables_spec d2 _ k W2 O2 Sk) as (l & -> & Hl). cbn [mbind option_bind].
  assert (reorganised d d2) as Ro by (by eapply reorganised_trans).
  destruct l as [l|]; eexists _, d2; (split; [reflexivity|]); by split_and!.
Qed.

Lemma add_raw_spec can g d k : wf d -> can_insert d -> zlen (entries d) + 1 < 2 ^ 62 -> exists r d', dictAddRaw type can g d k = Some (r, d') /\ wf d' /\
  kept d d' /\ ht_ok (ht0 d') /\
  match r with
  | inl l => (exists v c, linked d' l k v c) /\ entries d' ≡ₚ entries d
  | inr l => (exists c, linked d' l k g c) /\ entries d' ≡ₚ (k, g) :: entries d /\ k ∉ (entries d).*1
  end.
Proof.
  intros W Ci L. unfold dictAddRaw. destruct (find_for_insert_spec can d k W Ci) as (r & d1 & -> & Ro & O1 & Hr). cbn [mbind option_bind].
  pose proof (ro_wf _ _ Ro) as W1. pose proof (ro_entries _ _ Ro) as P1. destruct r as [l|p].
  - exists (inl l), d1. split_and!; [done|done|apply Ro|done|done|done].
  - destruct Hr as [-> N]. destruct (insert_spec d1 k g W1 O1 N) as (d2 & c & -> & W2 & C2 & P2 & L2); [unfold zlen in *; rewrite P1; lia|].
    cbn [mbind option_bind fst snd]. eexists _, d2. split; [reflexivity|]. rewrite P1 in N, P2. split_and!; try done.
    + eapply kept_trans; [apply Ro|done].
    + destruct (w_shape _ W2) as [_ R1 [R0|Ok]|Rh]; [|done|apply Rh]. exfalso. unfold entries in P2. rewrite R0, R1 in P2.
      apply Permutation_length in P2. cbn in P2. lia.
    + by exists c.
Qed.

Lemma dict_add_spec can g d k v : wf d -> can_insert d -> zlen (entries d) + 1 < 2 ^ 62 -> exists r d', dictAdd type can g d k v = Some (r, d') /\ wf d' /\ can_insert d' /\ kept d d' /\
  (if (r : bool) then entries d' ≡ₚ (k, v) :: entries d /\ k ∉ (entries d).*1 else entries d' ≡ₚ entries d /\ k ∈ (entries d).*1).
Proof.
  intros W Ci L. unfold dictAdd. destruct (add_raw_spec can g d k W Ci L) as (r & d1 & -> & W1 & C1 & O1 & Hr). cbn [mbind option_bind]. destruct r as [l|l].
  - destruct Hr as [(v0 & c & Lk) P]. exists false, d1. split_and!; [done|done|by right|done|done|]. rewrite <- P.
    apply linked_entries in Lk. by apply (list_elem_of_fmap_2 fst) in Lk.
  - destruct Hr as [[c Lk] [P N]]. destruct (set_val_spec d1 l k g c v W1 Lk) as (d2 & rest & -> & W2 & C2 & O2 & P1 & P2). cbn [mbind option_bind].
    exists true, d2. split_and!; [done|done|by right|by eapply kept_trans| |done]. rewrite P in P1. apply Permutation_cons_inv in P1. by rewrite P2, P1.
Qed.

Lemma replace_spec can g d k v : wf d -> can_insert d -> zlen (entries d) + 1 < 2 ^ 62 -> exists r d' rest, dictReplace type can g d k v = Some (r, d') /\ wf d' /\ can_insert d' /\ kept d d' /\
  entries d' ≡ₚ (k, v) :: rest /\ (if (r : bool) then rest ≡ₚ entries d /\ k ∉ (entries d).*1 else exists v0, entries d ≡ₚ (k, v0) :: rest).
Proof.
  intros W Ci L. unfold dictReplace. destruct (add_raw_spec can g d k W Ci L) as (r & d1 & -> & W1 & C1 & O1 & Hr). cbn [mbind option_bind]. destruct r as [l|l].
  - destruct Hr as [(v0 & c & Lk) P]. destruct (set_val_spec d1 l k v0 c v W1 Lk) as (d2 & rest & -> & W2 & C2 & O2 & P1 & P2). cbn [mbind option_bind].
    exists false, d2, rest. split_and!; [done|done|by right|by eapply kept_trans|done|]. exists v0. by rewrite <- P.
  - destruct Hr as [[c Lk] [P N]]. destruct (set_val_spec d1 l k g c v W1 Lk) as (d2 & rest & -> & W2 & C2 & O2 & P1 & P2). cbn [mbind option_bind].
    exists true, d2, rest. split_and!; [done|done|by right|by eapply kept_trans|done| |done]. rewrite P in P1. by apply Permutation_cons_inv in P1.
Qed.

Lemma delete_spec can d k : wf d -> exists r d', dictGenericDelete type can d k = Some (r, d') /\ wf d' /\ (can_insert d -> can_insert d') /\ kept d d' /\
  match r with Some e => e.1 = k /\ entries d ≡ₚ e :: entries d' | None => entries d' ≡ₚ entries d /\ k ∉ (entries d).*1 end.
Proof.
  intros W. unfold dictGenericDelete, dictGetHash. destruct (Z.eqb_spec (dictSize d) 0) as [Z0|N].
  - exists None, d. split_and!; [done|done|done|apply kept_refl|done|]. rewrite size_spec in Z0 by done.
    destruct (entries d); [set_solver|rewrite zlen_cons in Z0; pose proof (zlen_nonneg l); lia].
  - destruct (locate_spec can d k W (table_ok d W N)) as (d1 & l & -> & E2 & Ro & Hl). cbn [mbind option_bind]. rewrite E2. cbn [mbind option_bind].
    destruct l as [l|].
    + destruct Hl as (v & c & L). destruct (unlink_spec d1 l k v c (ro_wf _ _ Ro) L) as (d2 & -> & W2 & C2 & O2 & P2). cbn [mbind option_bind].
      destruct (shrink_if_needed_spec can d2 W2) as (d3 & -> & Ro3). cbn [mbind option_bind]. exists (Some (k, v)), d3.
      split_and!; [done|apply Ro3| | |done|].
      * intros _. right. by apply Ro3.
      * eapply kept_trans; [apply Ro|]. eapply kept_trans; [done|apply Ro3].
      * by rewrite <- (ro_entries _ _ Ro), P2, (ro_entries _ _ Ro3).
    + exists None, d1. split_and!; [done|apply Ro|by apply can_insert_reorganised|apply Ro|apply Ro|]. by rewrite <- (ro_entries _ _ Ro).
Qed.
End Proofs.
