(* ===== verification/DictMap.v ===== *)
(** Hash tables as finite maps: the remaining operations of src/src/dict.c keep
    the tables well formed, and any sequence of operations behaves as on a map. *)

From stdpp Require Import base list numbers gmap.
From coqutil Require Import Datatypes.RecordSetters.
From S2P Require Import Prelude Dict.
Import TriangleBracketNotations.

Local Open Scope Z_scope.

Section Operations.
Context {K V : Type} `{EqDecision K} (type : dictType K).
Implicit Types (d : dict K V) (t : hashtable K V) (can : dictResizeEnable).

Hypothesis hash_range : forall k, is_u64 (hashFunction type k).

Notation hash := (hashFunction type).

(** ** Pausing *)

(** Only the counters of pauses may differ. *)
Record same_tables d d' : Prop := {
  st_0 : ht0 d' = ht0 d;
  st_1 : ht1 d' = ht1 d;
  st_idx : rehashidx d' = rehashidx d;
  st_auto : pauseAutoResize d' = pauseAutoResize d;
  st_told : told d' = told d
}.

Lemma pause_same d : same_tables d (dictPauseRehashing d).
Proof. by destruct d. Qed.

Lemma resume_same d : same_tables d (dictResumeRehashing d).
Proof. by destruct d. Qed.

Lemma same_tables_shape d d' : same_tables d d' -> shape type d -> shape type d'.
Proof.
  intros [S0 S1 Si _ _] [I R1 R0|[]]; [apply ShapeIdle|apply ShapeRehashing; split]; rewrite ?S0, ?S1, ?Si; auto.
Qed.

Lemma same_tables_wf d d' : same_tables d d' -> wf type d -> wf type d' /\ entries d' = entries d.
Proof.
  intros S [W1 W2 W3 W4]. pose proof (same_tables_shape _ _ S W1) as W1'. destruct S as [S0 S1 Si Sa St].
  assert (entries d' = entries d) as E by (unfold entries; by rewrite S0, S1). split; [|done].
  split; rewrite ?E; try done. rewrite St, W4. unfold account, dictBuckets, dictIsRehashing. by rewrite S0, S1, Si.
Qed.

Lemma same_tables_can d d' : same_tables d d' -> can_insert type d -> can_insert type d'.
Proof. intros [S0 S1 Si Sa St]. unfold can_insert. by rewrite S0, Sa. Qed.

Lemma same_tables_linked d d' l k v c : same_tables d d' -> linked type d l k v c -> linked type d' l k v c.
Proof.
  intros S [L1 L2 L3 L4 L5]. pose proof (same_tables_shape _ _ S) as Sh. destruct S as [S0 S1 Si _ _].
  assert (ht (in_second l) d' = ht (in_second l) d) as Eh by (destruct (in_second l); done).
  split; rewrite ?Eh; try done. intros Hs. specialize (L2 Hs). assert (shape type d') as S' by (apply Sh; by apply ShapeRehashing).
  apply shape_rehashing in S'; [done|]. unfold dictIsRehashing. rewrite Si. by apply rehashing_on in L2.
Qed.

(** ** Deleting in two phases *)

Lemma two_phase_find_spec can d k : wf type d -> exists r d', dictTwoPhaseUnlinkFind type can d k = Some (r, d') /\ wf type d' /\
  (can_insert type d -> can_insert type d') /\ told d `prefix_of` told d' /\ entries d' ≡ₚ entries d /\
  match r with Some l => exists v c, linked type d' l k v c | None => k ∉ (entries d).*1 end.
Proof.
  intros W. unfold dictTwoPhaseUnlinkFind, dictGetHash. destruct (Z.eqb_spec (dictSize d) 0) as [Z0|N].
  - exists None, d. split_and!; try done. rewrite (size_spec type) in Z0 by done.
    destruct (entries d); [set_solver|rewrite zlen_cons in Z0; pose proof (zlen_nonneg l); lia].
  - assert (exists d1, (if dictIsRehashing d then _dictRehashStep type can d else Some d) = Some d1 /\ reorganised type d d1) as (d1 & -> & Ro).
    { unfold _dictRehashStep. destruct (dictIsRehashing d), (pauserehash d =? 0); try (exists d; split; [done|by apply reorganised_refl]).
      destruct (dictRehash_spec type can d 1 W) as (more & d' & -> & Ro & _). by exists d'. }
    cbn [mbind option_bind]. pose proof (ro_wf _ _ _ Ro) as W1. pose proof (ro_table _ _ _ Ro (table_ok type d W N)) as O1.
    destruct (search_tables_spec type hash_range d1 (index_of (ht0 d1) (hash k)) k W1 O1) as (l & -> & Hl); [by apply skips_same|].
    cbn [mbind option_bind]. destruct l as [l|].
    + destruct (same_tables_wf _ _ (pause_same d1) W1) as [W2 E2]. exists (Some l), (dictPauseRehashing d1). split_and!; [done|done| |by destruct Ro as [_ _ [_ ?] _], d1| |].
      * intros C. eapply same_tables_can; [apply pause_same|]. by eapply can_insert_reorganised.
      * rewrite E2. apply Ro.
      * destruct Hl as (v & c & L). exists v, c. eapply same_tables_linked; [apply pause_same|done].
    + exists None, d1. split_and!; [done|done|by apply can_insert_reorganised|apply Ro|apply Ro|]. by rewrite <- (ro_entries _ _ _ Ro).
Qed.

Lemma two_phase_free_spec can d l k v c : wf type d -> linked type d l k v c ->
  exists d', dictTwoPhaseUnlinkFree type can d (Some l) = Some (Some (k, v), d') /\ wf type d' /\ can_insert type d' /\ told d `prefix_of` told d' /\ entries d ≡ₚ (k, v) :: entries d'.
Proof.
  intros W L. unfold dictTwoPhaseUnlinkFree. destruct (unlink_spec type hash_range d l k v c W L) as (d2 & -> & W2 & C2 & O2 & P2). cbn [mbind option_bind].
  destruct (shrink_if_needed_spec type can d2 W2) as (d3 & -> & Ro3). cbn [mbind option_bind].
  destruct (same_tables_wf _ _ (resume_same d3) (ro_wf _ _ _ Ro3)) as [W4 E4]. eexists. split_and!; [done|done| | |].
  - eapply same_tables_can; [apply resume_same|]. right. by apply Ro3.
  - rewrite (st_told _ _ (resume_same d3)). etrans; [apply C2|apply Ro3].
  - by rewrite E4, P2, (ro_entries _ _ _ Ro3).
Qed.

(** ** Setting at a link *)

Lemma find_link_internal_spec can d k : wf type d -> ht_ok type (ht0 d) -> exists r b d', dictFindLinkInternal type can d k = Some (r, b, d') /\
  reorganised type d d' /\ match r with
                           | Some l => exists v c, linked type d' l k v c
                           | None => b = (dictIsRehashing d', index_of (ht (dictIsRehashing d') d') (hash k)) /\ k ∉ (entries d').*1
                           end.
Proof.
  intros W O. unfold dictFindLinkInternal, dictGetHash. destruct (locate_spec type hash_range can d k W O) as (d1 & l & -> & E2 & Ro & Hl).
  cbn [mbind option_bind]. rewrite E2. cbn [mbind option_bind]. eexists _, _, _. split; [reflexivity|]. split; [done|]. by destruct l.
Qed.

Lemma rehashing_by_exp d : wf type d -> dictIsRehashing d = negb (ht_size_exp (ht1 d) =? -1).
Proof.
  intros W. destruct (w_shape _ _ W) as [I R1 _|Rh]; [unfold dictIsRehashing; by rewrite I, R1|].
  rewrite (rehashing_on _ _ Rh). pose proof (ok_exp _ _ (rh_1 _ _ Rh)). by zdec.
Qed.

(** A link stays right as long as the tables keep their sizes. *)
Definition link_for d k (b : bool * Z) : Prop := b = (dictIsRehashing d, index_of (ht (dictIsRehashing d) d) (hash k)).

Lemma link_for_same d d' k b : wf type d -> wf type d' -> ht_size_exp (ht0 d) = ht_size_exp (ht0 d') -> ht_size_exp (ht1 d) = ht_size_exp (ht1 d') ->
  link_for d k b -> link_for d' k b.
Proof.
  unfold link_for. intros W W' X0 X1 ->. rewrite !rehashing_by_exp, X1 by done. f_equal. unfold index_of. by destruct (negb _); cbn [ht]; rewrite ?X0, ?X1.
Qed.

Lemma set_key_at_link_spec can d k v link : wf type d -> k ∉ (entries d).*1 -> zlen (entries d) + 1 < 2 ^ 62 ->
  (forall b, link = Some b -> link_for d k b) ->
  exists d', dictSetKeyAtLink_new type can d k v link = Some d' /\ wf type d' /\ can_insert type d' /\ told d `prefix_of` told d' /\ entries d' ≡ₚ (k, v) :: entries d.
Proof.
  intros W N L Hl. unfold dictSetKeyAtLink_new. destruct (expand_if_needed_spec type can d W) as (d1 & -> & Rz & O1). cbn [mbind option_bind].
  pose proof (rz_reorganised _ _ _ Rz) as Ro. pose proof (ro_wf _ _ _ Ro) as W1. pose proof (ro_entries _ _ _ Ro) as P1.
  assert (exists b d2, match link with
    | Some l => if (ht_size_exp (ht0 d) =? ht_size_exp (ht0 d1)) && (ht_size_exp (ht1 d) =? ht_size_exp (ht1 d1)) then Some (l, d1)
                else '(f, b, d) ← dictFindLinkInternal type can d1 k; match f with None => Some (b, d) | Some _ => None end
    | None => '(f, b, d) ← dictFindLinkInternal type can d1 k; match f with None => Some (b, d) | Some _ => None end
    end = Some (b, d2) /\ reorganised type d1 d2 /\ link_for d2 k b) as (b & d2 & E & Ro2 & Lb).
  { assert (exists b d2, ('(f, b, d) ← dictFindLinkInternal type can d1 k; match f with None => Some (b, d) | Some _ => None end) = Some (b, d2) /\
      reorganised type d1 d2 /\ link_for d2 k b) as Fd.
    { destruct (find_link_internal_spec can d1 k W1 O1) as (r & b & d2 & -> & Ro2 & Hr). cbn [mbind option_bind]. destruct r as [l|].
      - exfalso. destruct Hr as (v0 & c & Lk). apply (linked_entries _ hash_range) in Lk. apply (list_elem_of_fmap_2 fst) in Lk. apply N.
        rewrite <- P1, <- (ro_entries _ _ _ Ro2). exact Lk.
      - destruct Hr as [-> _]. by eexists _, d2. }
    destruct link as [b|]; [|done]. destruct (_ && _) eqn:X; [|done]. apply andb_true_iff in X as [X0%Z.eqb_eq X1%Z.eqb_eq].
    exists b, d1. split_and!; [done|by apply reorganised_refl|]. eapply (link_for_same d); auto. }
  rewrite E. cbn [mbind option_bind]. rewrite Lb. pose proof (ro_entries _ _ _ Ro2) as P2. rewrite P1 in P2.
  destruct (insert_spec type d2 k v) as (d3 & c & -> & W3 & C3 & P3 & L3); [apply Ro2|by apply Ro2|by rewrite P2|unfold zlen in *; by rewrite P2|].
  exists d3. split_and!; [done|done| |etrans; [apply Ro|etrans; [apply Ro2|apply C3]]|by rewrite P3, P2]. right. apply (table_ok type); [done|]. rewrite (size_spec type) by done.
  unfold zlen. rewrite P3. cbn [length]. lia.
Qed.

(** ** Emptying *)

Lemma clear_all (l : list (list (K * V))) : zlen (concat l) < 2 ^ 64 -> clear_buckets l (zlen (concat l)) = concat l.
Proof.
  induction l as [|c l IH]; intros L; [done|]. cbn [clear_buckets concat] in *. rewrite zlen_app in *.
  pose proof (zlen_nonneg c). pose proof (zlen_nonneg (concat l)). rewrite u64_small by (unfold is_u64; lia).
  replace (zlen c + zlen (concat l) - zlen c) with (zlen (concat l)) by lia. rewrite IH by lia. zcase; [done|].
  assert (c ++ concat l = []) as -> by (apply length_zero_iff_nil; rewrite length_app; unfold zlen in *; lia). done.
Qed.

Lemma empty_spec d : wf type d -> (dictEmpty d).1 = entries d /\ wf type (dictEmpty d).2 /\ entries (dictEmpty d).2 = [] /\
  pauseAutoResize (dictEmpty d).2 = 0 /\ told d `prefix_of` told (dictEmpty d).2 /\ dictIsRehashing (dictEmpty d).2 = false /\ dictBuckets (dictEmpty d).2 = 0.
Proof.
  intros W. pose proof (w_size _ _ W) as L. rewrite zlen_entries in L. pose proof (zlen_nonneg (entries_of (ht0 d))). pose proof (zlen_nonneg (entries_of (ht1 d))).
  assert (clear_buckets (ht_table (ht0 d)) (ht_used (ht0 d)) = entries_of (ht0 d) /\ clear_buckets (ht_table (ht1 d)) (ht_used (ht1 d)) = entries_of (ht1 d)) as [C0 C1].
  { destruct (w_shape _ _ W) as [_ -> [->|O0]|[O0 O1 _ _ _]]; split; try done; rewrite ok_used with (type := type) by done; apply clear_all; fold (entries_of (ht0 d)) (entries_of (ht1 d)); lia. }
  unfold dictEmpty. set (d0 := if dictIsRehashing d then tell _ d else d). set (d1 := tell _ d0).
  assert (ht0 d1 = ht0 d /\ ht1 d1 = ht1 d) as [T0 T1] by (unfold d1, d0; by destruct (dictIsRehashing d), d).
  assert (told d `prefix_of` told d1) as Pf by (unfold d1, d0; destruct (dictIsRehashing d), d; cbn; rewrite <- ?app_assoc; by apply prefix_app_r).
  assert (heard (told d1) = Some (false, 0, 0)) as Hd.
  { unfold d1. rewrite heard_tell. assert (dictBuckets d0 = dictBuckets d) as -> by (unfold d0; by destruct (dictIsRehashing d), d).
    pose proof (w_told _ _ W) as T. unfold account in T. unfold d0. destruct (dictIsRehashing d); [rewrite heard_tell|]; rewrite T; cbn; repeat f_equal; lia. }
  clearbody d1. unfold _dictClear. rewrite T0, T1, C0, C1. cbn [fst snd]. split; [done|]. set (d2 := d1 <| ht0 := _ |> <| ht1 := _ |> <| rehashidx := _ |> <| pauserehash := _ |> <| pauseAutoResize := _ |>).
  assert (ht0 d2 = _dictReset /\ ht1 d2 = _dictReset /\ rehashidx d2 = -1 /\ pauseAutoResize d2 = 0 /\ told d2 = told d1) as (X0 & X1 & X2 & X3 & X4) by (by destruct d1).
  clearbody d2. assert (entries d2 = []) as E by (unfold entries; by rewrite X0, X1).
  assert (dictIsRehashing d2 = false /\ dictBuckets d2 = 0) as [I B] by (unfold dictIsRehashing, dictBuckets; by rewrite X0, X1, X2). split_and!; try done; [|by rewrite X4].
  split; rewrite ?E; [apply ShapeIdle; [done|done|by left]|apply NoDup_nil_2|done|]. rewrite X4, Hd. unfold account. by rewrite I, B.
Qed.

(** ** Iterating *)

Notation dictIterator := (@Dict.dictIterator K V).

(** The entries an iterator has not returned yet: with the bucket [it_index]
    still to be visited, and with its chain being followed. *)
Definition from_bucket (it : dictIterator) d (i : Z) : list (K * V) :=
  concat (drop (Z.to_nat i) (ht_table (ht (it_second it) d))) ++ (if it_second it then [] else entries_of (ht1 d)).

Definition remaining (it : dictIterator) d : list (K * V) := (if it_entry it then it_rest it else []) ++ from_bucket it d (it_index it + 1).

Definition started (it : dictIterator) d : Prop := 0 <= it_index it /\ (it_second it = true -> rehashing type d).

(** The buckets that are left. *)
Definition ahead (it : dictIterator) d : Z :=
  Z.max 0 (zlen (ht_table (ht (it_second it) d)) - it_index it) + (if it_second it then 0 else zlen (ht_table (ht1 d)) + 1).

(** What [dictNext] does with [l] left. *)
Definition gives_next (r : option (option (K * V) * dictIterator * dict K V)) (safe : bool) d (l : list (K * V)) : Prop :=
  exists e it, r = Some (e, it, d) /\ it_safe it = safe /\ started it d /\
    match e with None => l = [] | Some e => l = e :: remaining it d end.

Lemma table_length b d : wf type d -> zlen (ht_table (ht b d)) = DICTHT_SIZE (ht_size_exp (ht b d)).
Proof.
  intros W. assert (forall t, ht_ok type t -> zlen (ht_table t) = DICTHT_SIZE (ht_size_exp t)) as Ok.
  { intros t O. pose proof (ok_exp _ _ O). rewrite (ok_length _ _ O), size_ok; [done|lia]. }
  destruct (w_shape _ _ W) as [_ R1 [R0|O0]|[O0 O1 _ _ _]], b; cbn [ht]; rewrite ?R0, ?R1; auto.
Qed.

Lemma from_bucket_step it d i c : chain (ht (it_second it) d) i = Some c -> from_bucket it d i = c ++ from_bucket it d (i + 1).
Proof.
  intros H. apply chain_inv in H as [H1 H2]. unfold from_bucket. rewrite (drop_S _ _ _ H2). cbn [concat].
  replace (Z.to_nat (i + 1)) with (S (Z.to_nat i)) by lia. by rewrite app_assoc.
Qed.

Lemma from_bucket_end it d i : zlen (ht_table (ht (it_second it) d)) <= i -> from_bucket it d i = if it_second it then [] else entries_of (ht1 d).
Proof. intros H. unfold from_bucket. rewrite drop_ge by (unfold zlen in H; lia). done. Qed.

(** The part of [dictNext] that follows the choice of the bucket. *)
Definition visit (fuel : nat) (it : dictIterator) d : option (option (K * V) * dictIterator * dict K V) :=
  if it_index it >=? DICTHT_SIZE (ht_size_exp (ht (it_second it) d)) then Some (None, it, d)
  else
    c ← chain (ht (it_second it) d) (it_index it);
    match c with
    | e :: c => Some (Some e, it<| it_entry := true |><| it_rest := c |>, d)
    | [] => dictNext fuel it d
    end.

Lemma visit_spec fuel it d : wf type d -> started it d -> it_entry it = false ->
  (zlen (ht_table (ht (it_second it) d)) <= it_index it -> it_second it = true \/ dictIsRehashing d = false) ->
  gives_next (dictNext fuel it d) (it_safe it) d (remaining it d) \/ zlen (ht_table (ht (it_second it) d)) <= it_index it ->
  gives_next (visit fuel it d) (it_safe it) d (from_bucket it d (it_index it)).
Proof.
  intros W [I R] En E Nx. unfold visit. rewrite <- table_length by done. rewrite Z.geb_leb. destruct (Z.leb_spec (zlen (ht_table (ht (it_second it) d))) (it_index it)); revgoals.
  - destruct Nx as [Nx|]; [|lia]. destruct (chain_some (ht (it_second it) d) (it_index it)) as [c Hc]; [lia|]. rewrite Hc. cbn [mbind option_bind].
    rewrite (from_bucket_step _ _ _ _ Hc). destruct c as [|e c].
    + unfold remaining in Nx. by rewrite En in Nx.
    + eexists _, _. split; [reflexivity|]. destruct it; cbn in *. by split_and!.
  - eexists _, _. split; [reflexivity|]. split_and!; [done|done|]. rewrite from_bucket_end by lia. destruct (it_second it) eqn:Sc; [done|].
    destruct E as [E|E]; [lia|done|]. destruct (w_shape _ _ W) as [_ R1 _|Rh]; [by rewrite R1|]. by rewrite (rehashing_on _ _ Rh) in E.
Qed.

(** The bucket that follows, once the first one is chosen. *)
Lemma next_bucket_spec it d : wf type d -> started it d -> it_entry it = false ->
  exists it', next_bucket it d = (it', d) /\ started it' d /\ it_entry it' = false /\ it_safe it' = it_safe it /\
    (zlen (ht_table (ht (it_second it') d)) <= it_index it' -> it_second it' = true \/ dictIsRehashing d = false) /\
    remaining it d = from_bucket it' d (it_index it') /\
    (zlen (ht_table (ht (it_second it') d)) <= it_index it' \/ ahead it' d < ahead it d).
Proof.
  intros W [I R] En. unfold next_bucket, remaining. rewrite En. assert (it_index it =? -1 = false) as -> by lia. cbn [andb].
  rewrite <- table_length by done. cbn [app]. rewrite Z.geb_leb. destruct (Z.leb_spec (zlen (ht_table (ht (it_second it) d))) (it_index it + 1)); cbn [andb]; revgoals.
  - eexists. split; [reflexivity|]. destruct it as [ix sc sf en rs]; cbn in *; unfold constant; cbn. split_and!; try done; [by split; cbn; [lia|]|lia|].
    unfold ahead; cbn. lia.
  - destruct (dictIsRehashing d && negb (it_second it)) eqn:B.
    + apply andb_true_iff in B as [Rh Sc%negb_true_iff]. apply shape_rehashing with (type := type) in Rh; [|apply W].
      eexists. split; [reflexivity|]. rewrite from_bucket_end by lia. destruct it as [ix sc sf en rs]; cbn in *; unfold constant; cbn. subst.
      pose proof (zlen_nonneg (ht_table (ht1 d))). split_and!; try done; [by left|unfold from_bucket; cbn; by rewrite drop_0, app_nil_r|]. right.
      unfold ahead; cbn. lia.
    + eexists. split; [reflexivity|]. destruct it as [ix sc sf en rs]; cbn in *; unfold constant; cbn. split_and!; try done; [by split; cbn; [lia|]| |by left].
      intros _. apply andb_false_iff in B as [B|B%negb_false_iff]; [by right|by left].
Qed.

Lemma next_spec fuel it d : wf type d -> started it d -> ahead it d + (if it_entry it then 1 else 0) < Z.of_nat fuel ->
  gives_next (dictNext fuel it d) (it_safe it) d (remaining it d).
Proof.
  intros W. revert it. induction fuel as [|fuel IH]; intros it S F.
  { unfold ahead in F. pose proof (zlen_nonneg (ht_table (ht1 d))). destruct (it_second it), (it_entry it); lia. }
  cbn [dictNext]. destruct (it_entry it) eqn:En.
  - unfold remaining. rewrite En. destruct (it_rest it) as [|e c] eqn:Rs.
    + specialize (IH (it<| it_entry := false |>)). destruct it as [ix sc sf en rs]; cbn in *; unfold constant in *; cbn in *. apply IH; [done|].
      unfold ahead in *; cbn in *. lia.
    + eexists _, _. split; [reflexivity|]. destruct it as [ix sc sf en rs]; cbn in *; unfold constant in *; cbn in *. split_and!; try done.
      unfold remaining; cbn. by rewrite En.
  - destruct (next_bucket_spec it d W S En) as (it' & -> & S' & En' & <- & E' & -> & Ah). apply visit_spec; try done.
    destruct Ah as [Ah|Ah]; [by right|left]. apply IH; [done|]. rewrite En'. lia.
Qed.

Definition paused (safe : bool) d : dict K V := if safe then dictPauseRehashing d else d.
Definition resumed (safe : bool) d : dict K V := if safe then dictResumeRehashing d else d.

Lemma paused_same safe d : same_tables d (paused safe d).
Proof. destruct safe; [apply pause_same|done]. Qed.

Lemma buckets_length d : wf type d -> dictBuckets d = zlen (ht_table (ht0 d)) + zlen (ht_table (ht1 d)).
Proof. intros W. pose proof (table_length false d W). pose proof (table_length true d W). unfold dictBuckets. cbn [ht] in *. lia. Qed.

Lemma ahead_bound it d : wf type d -> started it d -> ahead it d < dictBuckets d + 2.
Proof.
  intros W [I _]. rewrite buckets_length by done. unfold ahead. pose proof (zlen_nonneg (ht_table (ht0 d))). pose proof (zlen_nonneg (ht_table (ht1 d))).
  destruct (it_second it); cbn [ht]; lia.
Qed.

Lemma reset_started it d : started it d -> dictResetIterator it d = resumed (it_safe it) d.
Proof. intros [I _]. unfold dictResetIterator. by assert (it_index it =? -1 = false) as -> by lia. Qed.

(** The first bucket: those that were rehashed are empty. *)
Lemma first_bucket_spec safe d : wf type d -> exists it, next_bucket (dictInitIterator safe) d = (it, paused safe d) /\ started it d /\
  it_entry it = false /\ it_safe it = safe /\
  (zlen (ht_table (ht (it_second it) d)) <= it_index it -> it_second it = true \/ dictIsRehashing d = false) /\
  from_bucket it d (it_index it) = entries d.
Proof.
  intros W. assert (dictIsRehashing (paused safe d) = dictIsRehashing d /\ rehashidx (paused safe d) = rehashidx d /\ ht0 (paused safe d) = ht0 d) as (R & I & T0) by (by destruct safe, d).
  unfold next_bucket. cbn [dictInitIterator it_index it_second it_safe andb Z.eqb negb Pos.eqb ht]. fold (paused safe d). rewrite R, I, T0.
  pose proof (table_length false d W) as Tl. cbn [ht] in Tl. rewrite <- Tl. destruct (dictIsRehashing d) eqn:Rh; cbn [andb negb].
  - apply shape_rehashing with (type := type) in Rh; [|apply W]. destruct (Rh) as [O0 O1 X Ix Dn]. replace (rehashidx d - 1 + 1) with (rehashidx d) by lia.
    assert (concat (drop (Z.to_nat (rehashidx d)) (ht_table (ht0 d))) = entries_of (ht0 d)) as Sk.
    { unfold entries_of. rewrite <- (take_drop (Z.to_nat (rehashidx d)) (ht_table (ht0 d))) at 2.
      rewrite concat_app. assert (concat (take (Z.to_nat (rehashidx d)) (ht_table (ht0 d))) = []) as ->; [|done].
      apply concat_nil_Forall, Forall_forall. intros c Hc. apply list_elem_of_lookup in Hc as [i Hi]. apply lookup_take_Some in Hi as [Hi Li].
      assert (chain (ht0 d) (Z.of_nat i) = Some c) as Hc by (unfold chain; zdec; by rewrite Nat2Z.id). rewrite Dn in Hc by lia. congruence. }
    destruct (Z.geb_spec (rehashidx d) (zlen (ht_table (ht0 d)))) as [G|G]; cbn [andb]; eexists; (split; [reflexivity|]); cbn; unfold constant; cbn; unfold started; cbn.
    + assert (entries_of (ht0 d) = []) as E0 by (rewrite <- Sk, drop_ge; [done|unfold zlen in G; lia]).
      split_and!; try done; [by left|]. unfold from_bucket, entries; cbn. by rewrite E0, drop_0, app_nil_r.
    + split_and!; try done; [lia|lia|]. unfold from_bucket, entries; cbn. by rewrite Sk.
  - rewrite andb_false_r. eexists; (split; [reflexivity|]); cbn; unfold constant; cbn; unfold started; cbn. split_and!; try done; by right.
Qed.

Lemma iterate_started n it d : wf type d -> started it d -> zlen (remaining it d) < Z.of_nat n ->
  iterate n it d = Some (remaining it d, resumed (it_safe it) d).
Proof.
  intros W. revert it. induction n as [|n IH]; intros it S L; [pose proof (zlen_nonneg (remaining it d)); lia|]. cbn [iterate].
  pose proof (ahead_bound it d W S) as B. destruct (next_spec (Z.to_nat (dictBuckets d) + 3) it d W S) as (e & it' & -> & Sf & S' & E); [destruct (it_entry it); lia|].
  cbn [mbind option_bind]. rewrite <- Sf. destruct e as [e|]; rewrite E in *.
  - rewrite zlen_cons in L. by rewrite IH by (done || lia).
  - by rewrite reset_started by done.
Qed.

Lemma same_tables_started d d' it : same_tables d d' -> started it d -> started it d'.
Proof.
  intros S [I R]. split; [done|]. intros Sc. specialize (R Sc). assert (shape type d') as S' by (eapply same_tables_shape; [done|by apply ShapeRehashing]).
  apply shape_rehashing in S'; [done|]. unfold dictIsRehashing. rewrite (st_idx _ _ S). by apply rehashing_on in R.
Qed.

Lemma same_tables_ht d d' b : same_tables d d' -> ht b d' = ht b d.
Proof. intros [S0 S1 _ _ _]. by destruct b. Qed.

(** The first call of [dictNext]. *)
Lemma first_next safe d : wf type d -> gives_next (dictNext (Z.to_nat (dictBuckets d) + 3) (dictInitIterator safe) d) safe (paused safe d) (entries d).
Proof.
  intros W. destruct (first_bucket_spec safe d W) as (it & Fb & St & En & <- & E & Fe). pose proof (paused_same (it_safe it) d) as Sm.
  set (d1 := paused (it_safe it) d) in *. destruct (same_tables_wf _ _ Sm W) as [W1 _]. pose proof (same_tables_started _ _ _ Sm St) as S1.
  assert (from_bucket it d1 (it_index it) = entries d) as Fe1 by (rewrite <- Fe; unfold from_bucket; by rewrite (same_tables_ht _ _ _ Sm), (st_1 _ _ Sm)).
  replace (Z.to_nat (dictBuckets d) + 3)%nat with (S (Z.to_nat (dictBuckets d) + 2))%nat by lia. cbn [dictNext].
  change (it_entry (dictInitIterator (it_safe it))) with false. cbn iota. rewrite Fb, <- Fe1. apply visit_spec; try done.
  - rewrite (same_tables_ht _ _ _ Sm). unfold dictIsRehashing. rewrite (st_idx _ _ Sm). exact E.
  - left. apply next_spec; [done|done|]. rewrite En. pose proof (ahead_bound it d1 W1 S1) as B.
    assert (dictBuckets d1 = dictBuckets d) as Bd by (unfold dictBuckets; by rewrite (st_0 _ _ Sm), (st_1 _ _ Sm)). lia.
Qed.

(** Iterating returns every entry once, and resumes what it paused. *)
Lemma iterate_spec n safe d : wf type d -> zlen (entries d) < Z.of_nat n ->
  iterate n (dictInitIterator safe) d = Some (entries d, resumed safe (paused safe d)).
Proof.
  intros W L. destruct n as [|n]; [pose proof (zlen_nonneg (entries d)); lia|]. destruct (first_next safe d W) as (e & it' & Dn & Sf & S' & Ee).
  destruct (same_tables_wf _ _ (paused_same safe d) W) as [W1 _]. cbn [iterate]. rewrite Dn. cbn [mbind option_bind]. destruct e as [e|]; rewrite Ee in *.
  - rewrite zlen_cons in L. rewrite iterate_started by (done || lia). cbn [mbind option_bind]. by rewrite Sf.
  - by rewrite reset_started, Sf by done.
Qed.
End Operations.

(** ** Finite maps *)

Section Map.
Context {K V : Type} `{Countable K} (type : dictType K).
Implicit Types (d : dict K V) (m : gmap K V).

(** Calls of the interface, and their answers. Emptying and iterating answer the
    entries freed or returned as a map, and how many they were. *)
Inductive op : Type :=
  | Add (k : K) (v : V)
  | Replace (k : K) (v : V)
  | FindAndSet (k : K) (v : V)
  | Delete (k : K)
  | UnlinkInTwoPhases (k : K)
  | Find (k : K)
  | Fetch (k : K)
  | Size
  | Iterate (safe : bool)
  | Empty
  | Expand (size : Z)
  | Shrink (size : Z)
  | Rehash (n : nat)
  | PauseRehashing
  | ResumeRehashing.

Inductive answer : Type :=
  | Done
  | Added (b : bool)
  | Entry (e : option (K * V))
  | Value (v : option V)
  | Count (n : Z)
  | Entries (m : gmap K V) (n : Z).

(** The caller's pattern around a link: overwrite what was found, or add a new
    entry at the bucket searched. *)
Definition find_and_set can d (k : K) (v : V) : option (bool * dict K V) :=
  '(l, b, d) ← dictFindLink type can d k;
  match l with
  | Some l => d ← dictSetVal d l v; Some (false, d)
  | None => d ← dictSetKeyAtLink_new type can d k v b; Some (true, d)
  end.

Definition exec (can : dictResizeEnable) (garbage : V) (o : op) d : option (answer * dict K V) :=
  match o with
  | Add k v => '(b, d) ← dictAdd type can garbage d k v; Some (Added b, d)
  | Replace k v => '(b, d) ← dictReplace type can garbage d k v; Some (Added b, d)
  | FindAndSet k v => '(b, d) ← find_and_set can d k v; Some (Added b, d)
  | Delete k => '(e, d) ← dictGenericDelete type can d k; Some (Entry e, d)
  | UnlinkInTwoPhases k =>
      '(l, d) ← dictTwoPhaseUnlinkFind type can d k; '(e, d) ← dictTwoPhaseUnlinkFree type can d l; Some (Entry e, d)
  | Find k => '(e, d) ← dictFind type can d k; Some (Entry e, d)
  | Fetch k => '(v, d) ← dictFetchValue type can d k; Some (Value v, d)
  | Size => Some (Count (dictSize d), d)
  | Iterate safe => '(l, d) ← iterate (S (length (entries d))) (dictInitIterator safe) d; Some (Entries (list_to_map l) (zlen l), d)
  | Empty => let '(l, d) := dictEmpty d in Some (Entries (list_to_map l) (zlen l), d)
  | Expand size => '(_, d) ← dictExpand type can d size; Some (Done, d)
  | Shrink size => '(_, d) ← dictShrink type can d size; Some (Done, d)
  | Rehash n => '(_, d) ← dictRehash type can d n; Some (Done, d)
  | PauseRehashing => Some (Done, dictPauseRehashing d)
  | ResumeRehashing => Some (Done, dictResumeRehashing d)
  end.

(** Every call may come with another resize policy. *)
Fixpoint run (ops : list (dictResizeEnable * V * op)) d : option (list answer * dict K V) :=
  match ops with
  | [] => Some ([], d)
  | (can, garbage, o) :: ops => '(a, d) ← exec can garbage o d; '(l, d) ← run ops d; Some (a :: l, d)
  end.

(** The same calls on a map. *)
Definition map_exec (o : op) m : answer * gmap K V :=
  match o with
  | Add k v => match m !! k with Some _ => (Added false, m) | None => (Added true, <[k := v]> m) end
  | Replace k v | FindAndSet k v => (Added (bool_decide (m !! k = None)), <[k := v]> m)
  | Delete k | UnlinkInTwoPhases k => (Entry (pair k <$> m !! k), delete k m)
  | Find k => (Entry (pair k <$> m !! k), m)
  | Fetch k => (Value (m !! k), m)
  | Size => (Count (Z.of_nat (size m)), m)
  | Iterate _ => (Entries m (Z.of_nat (size m)), m)
  | Empty => (Entries m (Z.of_nat (size m)), ∅)
  | Expand _ | Shrink _ | Rehash _ | PauseRehashing | ResumeRehashing => (Done, m)
  end.

Fixpoint map_run (ops : list op) m : list answer * gmap K V :=
  match ops with
  | [] => ([], m)
  | o :: ops => let '(a, m) := map_exec o m in let '(l, m) := map_run ops m in (a :: l, m)
  end.

(** ** Refinement *)

Hypothesis hash_range : forall k, is_u64 (hashFunction type k).

Record models d m : Prop := {
  md_wf : wf type d;
  md_can : can_insert type d;
  md_map : list_to_map (entries d) = m
}.

Lemma models_create : models dictCreate ∅.
Proof.
  split; [|left; cbn; lia|done]. split; [|apply NoDup_nil_2|done|done]. apply ShapeIdle; [done|done|by left].
Qed.

Lemma models_size d m : models d m -> zlen (entries d) = Z.of_nat (size m).
Proof. intros [W _ <-]. rewrite map_size_list_to_map by apply W. done. Qed.

Lemma models_some d m k v : models d m -> (k, v) ∈ entries d -> m !! k = Some v.
Proof. intros [W _ <-]. apply elem_of_list_to_map, W. Qed.

Lemma models_none d m k : models d m -> k ∉ (entries d).*1 -> m !! k = None.
Proof. intros [W _ <-]. apply not_elem_of_list_to_map_1. Qed.

Lemma models_perm d d' m : models d m -> wf type d' -> can_insert type d' -> entries d' ≡ₚ entries d -> models d' m.
Proof. intros [W _ <-] W' C P. split; [done|done|]. apply list_to_map_proper; [apply W'|done]. Qed.

Lemma models_reorganised d d' m : models d m -> reorganised type d d' -> models d' m.
Proof. intros M R. pose proof M as [W C _]. eapply models_perm; [done|apply R|by eapply can_insert_reorganised|apply R]. Qed.

Lemma models_same d d' m : models d m -> same_tables d d' -> models d' m.
Proof.
  intros M S. pose proof M as [W C _]. destruct (same_tables_wf _ _ _ S W) as [W' E]. eapply models_perm; [done|done|by eapply same_tables_can|by rewrite E].
Qed.

Lemma map_of_cons (l rest : list (K * V)) k v : NoDup l.*1 -> l ≡ₚ (k, v) :: rest -> (list_to_map l : gmap K V) = <[k := v]> (list_to_map rest).
Proof. intros N P. rewrite <- list_to_map_cons. by apply list_to_map_proper. Qed.

Lemma models_insert d d' m k v : models d m -> wf type d' -> can_insert type d' -> entries d' ≡ₚ (k, v) :: entries d -> models d' (<[k := v]> m).
Proof.
  intros [W _ <-] W' C P. split; [done|done|]. apply map_of_cons; [apply W'|done].
Qed.

Lemma models_overwrite d d' m k v v0 rest : models d m -> wf type d' -> can_insert type d' -> entries d ≡ₚ (k, v0) :: rest ->
  entries d' ≡ₚ (k, v) :: rest -> models d' (<[k := v]> m) /\ m !! k = Some v0.
Proof.
  intros M W' C P P'. pose proof M as [W _ <-].
  assert ((list_to_map (entries d) : gmap K V) = <[k := v0]> (list_to_map rest)) as Em by (apply map_of_cons; [apply W|done]).
  split.
  - split; [done|done|]. rewrite Em, insert_insert_eq. apply map_of_cons; [apply W'|done].
  - rewrite Em. apply lookup_insert_eq.
Qed.

Lemma models_delete d d' m k v : models d m -> wf type d' -> can_insert type d' -> entries d ≡ₚ (k, v) :: entries d' ->
  models d' (delete k m) /\ m !! k = Some v.
Proof.
  intros M W' C P. pose proof M as [W _ <-].
  assert ((list_to_map (entries d) : gmap K V) = <[k := v]> (list_to_map (entries d'))) as -> by (apply map_of_cons; [apply W|done]).
  split; [|apply lookup_insert_eq]. split; [done|done|]. rewrite delete_insert_id; [done|]. apply not_elem_of_list_to_map_1.
  pose proof (w_nodup _ _ W) as N. rewrite P in N. cbn in N. by apply NoDup_cons in N as [N _].
Qed.

(** A call answers what the map answers, and the tables model the new map. *)
Definition implements can g (o : op) d m : Prop := exists d', exec can g o d = Some ((map_exec o m).1, d') /\ models d' (map_exec o m).2.

Lemma size_bound d m : models d m -> Z.of_nat (size m) + 1 < 2 ^ 62 -> zlen (entries d) + 1 < 2 ^ 62.
Proof. intros M. by rewrite (models_size d m M). Qed.

Lemma exec_add can g d m k v : models d m -> Z.of_nat (size m) + 1 < 2 ^ 62 -> implements can g (Add k v) d m.
Proof.
  intros M L. unfold implements. cbn [exec map_exec]. destruct (dict_add_spec type hash_range can g d k v) as (r & d' & -> & W' & C' & _ & E);
    [apply M|apply M|by eapply size_bound|]. cbn [mbind option_bind]. exists d'. destruct r; destruct E as [P I].
  - rewrite (models_none d m k M I). split; [done|]. by eapply models_insert.
  - apply list_elem_of_fmap in I as ([k' v0] & -> & I). cbn in *. rewrite (models_some _ _ _ _ M I). split; [done|]. by eapply models_perm.
Qed.

Lemma exec_replace can g d m k v : models d m -> Z.of_nat (size m) + 1 < 2 ^ 62 -> implements can g (Replace k v) d m.
Proof.
  intros M L. unfold implements. cbn [exec map_exec fst snd].
  destruct (replace_spec type hash_range can g d k v) as (r & d' & rest & -> & W' & C' & _ & P & E); [apply M|apply M|by eapply size_bound|].
  cbn [mbind option_bind]. exists d'. destruct r.
  - destruct E as [P' I]. rewrite (models_none d m k M I), bool_decide_eq_true_2 by done. split; [done|]. eapply models_insert; [done|done|done|by rewrite P, P'].
  - destruct E as [v0 P']. destruct (models_overwrite d d' m k v v0 rest) as [M' ->]; try done.
Qed.

Lemma exec_find_and_set can g d m k v : models d m -> Z.of_nat (size m) + 1 < 2 ^ 62 -> implements can g (FindAndSet k v) d m.
Proof.
  intros M L. pose proof M as [W C _]. pose proof (size_bound d m M L) as Lz. unfold implements. cbn [exec map_exec fst snd]. unfold find_and_set, dictFindLink.
  assert (forall d1 b, models d1 m -> k ∉ (entries d1).*1 -> (forall l, b = Some l -> link_for type d1 k l) -> exists d',
    ('(b, d) ← (d ← dictSetKeyAtLink_new type can d1 k v b; Some (true, d)); Some (Added b, d)) = Some (Added (bool_decide (m !! k = None)), d') /\ models d' (<[k := v]> m)) as New.
  { intros d1 b M1 N Lb. destruct (set_key_at_link_spec type hash_range can d1 k v b) as (d' & -> & W' & C' & _ & P); [apply M1|done|by eapply size_bound|done|].
    cbn [mbind option_bind]. exists d'. rewrite (models_none d1 m k M1 N), bool_decide_eq_true_2 by done. split; [done|]. by eapply models_insert. }
  destruct (Z.eqb_spec (dictSize d) 0) as [Z0|N]; cbn [mbind option_bind].
  - apply New; [done| |done]. rewrite (size_spec type) in Z0 by done.
    destruct (entries d); [set_solver|rewrite zlen_cons in Z0; pose proof (zlen_nonneg l); lia].
  - destruct (find_link_internal_spec type hash_range can d k W (table_ok type d W N)) as (r & b & d1 & -> & Ro & Hr). cbn [mbind option_bind].
    pose proof (models_reorganised _ _ _ M Ro) as M1. destruct r as [l|].
    + destruct Hr as (v0 & c & Lk). destruct (set_val_spec type hash_range d1 l k v0 c v (ro_wf _ _ _ Ro) Lk) as (d2 & rest & -> & W2 & C2 & O2 & P1 & P2).
      cbn [mbind option_bind]. destruct (models_overwrite d1 d2 m k v v0 rest) as [M' ->]; [done|done|by right|done|done|]. by exists d2.
    + destruct Hr as [-> Hn]. apply New; [done|done|]. by intros l [= <-].
Qed.

Lemma exec_delete can g d m k : models d m -> implements can g (Delete k) d m.
Proof.
  intros M. unfold implements. cbn [exec map_exec fst snd]. destruct (delete_spec type hash_range can d k) as (r & d' & -> & W' & C' & _ & E); [apply M|].
  specialize (C' (md_can _ _ M)). cbn [mbind option_bind]. exists d'. destruct r as [[k' v]|]; cbn in E; destruct E as [P I].
  - subst k'. destruct (models_delete d d' m k v) as [M' ->]; done.
  - rewrite delete_id by (by apply (models_none d m)). rewrite (models_none d m k M I). split; [done|]. by eapply models_perm.
Qed.

Lemma exec_unlink can g d m k : models d m -> implements can g (UnlinkInTwoPhases k) d m.
Proof.
  intros M. unfold implements. cbn [exec map_exec fst snd].
  destruct (two_phase_find_spec type hash_range can d k (md_wf _ _ M)) as (r & d1 & -> & W1 & C1 & _ & P1 & E). specialize (C1 (md_can _ _ M)). cbn [mbind option_bind].
  assert (models d1 m) as M1 by (by eapply models_perm). destruct r as [l|].
  - destruct E as (v & c & Lk). destruct (two_phase_free_spec type hash_range can d1 l k v c W1 Lk) as (d2 & -> & W2 & C2 & _ & P2). cbn [mbind option_bind].
    exists d2. by destruct (models_delete d1 d2 m k v) as [M' ->].
  - exists d1. cbn [dictTwoPhaseUnlinkFree mbind option_bind]. rewrite delete_id by (by apply (models_none d m)). by rewrite (models_none d m k M E).
Qed.

Lemma exec_find can g d m k : models d m -> implements can g (Find k) d m.
Proof.
  intros M. unfold implements. cbn [exec map_exec fst snd]. destruct (dict_find_spec type hash_range can d k (md_wf _ _ M)) as (r & d' & -> & Ro & E). cbn [mbind option_bind].
  exists d'. split; [|by eapply models_reorganised]. destruct r as [[k' v]|].
  - destruct E as [E I]. cbn in E. subst k'. by rewrite (models_some d m k v M I).
  - by rewrite (models_none d m k M E).
Qed.

Lemma exec_fetch can g d m k : models d m -> implements can g (Fetch k) d m.
Proof.
  intros M. destruct (exec_find can g d m k M) as (d' & E & M'). exists d'. split; [|done]. cbn [exec map_exec fst snd] in *. unfold dictFetchValue.
  destruct (dictFind type can d k) as [[e d1]|]; [|done]. cbn [mbind option_bind] in *. injection E as -> ->. by destruct (m !! k).
Qed.

Lemma exec_iterate can g d m safe : models d m -> implements can g (Iterate safe) d m.
Proof.
  intros M. unfold implements. cbn [exec map_exec fst snd]. rewrite (iterate_spec type) by (apply M || (unfold zlen; lia)). cbn [mbind option_bind].
  rewrite (models_size d m M), (md_map _ _ M). eexists. split; [done|]. destruct safe; cbn [paused resumed]; [|done].
  eapply models_same; [|apply resume_same]. eapply models_same; [done|apply pause_same].
Qed.

Lemma exec_empty can g d m : models d m -> implements can g Empty d m.
Proof.
  intros M. unfold implements. cbn [exec map_exec fst snd]. destruct (empty_spec type d (md_wf _ _ M)) as (E1 & W & E2 & A & _).
  destruct (dictEmpty d) as [l d']. cbn in *. subst l. exists d'. rewrite (models_size d m M), (md_map _ _ M). split; [done|]. split; [done|left; lia|by rewrite E2].
Qed.

Lemma exec_spec can g o d m : models d m -> Z.of_nat (size m) + 1 < 2 ^ 62 -> implements can g o d m.
Proof.
  intros M L. pose proof (md_wf _ _ M) as W. destruct o as [k v|k v|k v|k|k|k|k| |safe| |n|n|n| |];
    eauto using exec_add, exec_replace, exec_find_and_set, exec_delete, exec_unlink, exec_find, exec_fetch, exec_iterate, exec_empty; unfold implements; cbn [exec map_exec fst snd].
  - exists d. by rewrite (size_spec type), (models_size d m M) by done.
  - destruct (expand_spec type can d n W) as (ok & d' & -> & Rz & _). exists d'. split; [done|]. eapply models_reorganised; [done|apply Rz].
  - destruct (shrink_spec type can d n W) as (ok & d' & -> & Rz). exists d'. split; [done|]. eapply models_reorganised; [done|apply Rz].
  - destruct (dictRehash_spec type can d n W) as (ok & d' & -> & Ro & _). exists d'. split; [done|]. by eapply models_reorganised.
  - eexists. split; [done|]. eapply models_same; [done|apply pause_same].
  - eexists. split; [done|]. eapply models_same; [done|apply resume_same].
Qed.

Lemma map_exec_size o m : (size (map_exec o m).2 <= S (size m))%nat.
Proof.
  assert (forall k v, (size (<[k := v]> m) <= S (size m))%nat) as I by (intros k v; rewrite map_size_insert; destruct (m !! k); cbn; lia).
  assert (forall k, (size (delete k m) <= S (size m))%nat) as D by (intros k; rewrite map_size_delete; destruct (m !! k); cbn; lia).
  destruct o; cbn; auto.
  - destruct (m !! k); cbn; auto.
  - rewrite map_size_empty. lia.
Qed.

Lemma run_spec ops : forall d m, models d m -> Z.of_nat (size m + length ops) < 2 ^ 62 ->
  exists d', run ops d = Some ((map_run ops.*2 m).1, d') /\ models d' (map_run ops.*2 m).2.
Proof.
  induction ops as [|[[can g] o] ops IH]; intros d m M L; [by exists d|]. cbn [run fmap list_fmap map_run snd length] in *.
  destruct (exec_spec can g o d m M) as (d1 & -> & M1); [lia|]. cbn [mbind option_bind]. pose proof (map_exec_size o m) as Sz.
  destruct (map_exec o m) as [a m1]. cbn [fst snd] in *. destruct (IH d1 m1 M1) as (d2 & -> & M2); [lia|]. cbn [mbind option_bind]. exists d2.
  cbn in M2 |- *. by destruct (map_run ops.*2 m1).
Qed.

(** C7: any sequence of calls on a new dictionary - adding, replacing, finding,
    finding and setting at a link, deleting at once or in two phases, iterating,
    emptying, resizing, rehashing and pausing it, each under any resize policy -
    fails no assertion and reads no bucket outside a table, answers what the same
    calls on a finite map answer, and leaves exactly the entries of that map,
    each key once, with the right count of entries; what the callbacks of the
    type heard amounts to the buckets of the tables and to whether they are being
    rehashed. *)
Theorem dict_implements_map ops : Z.of_nat (length ops) < 2 ^ 62 ->
  exists d, run ops dictCreate = Some ((map_run ops.*2 ∅).1, d) /\ list_to_map (entries d) = (map_run ops.*2 ∅).2 /\
    NoDup (entries d).*1 /\ dictSize d = Z.of_nat (size (map_run ops.*2 ∅).2) /\ heard (told d) = Some (account d).
Proof.
  intros L. destruct (run_spec ops dictCreate ∅ models_create) as (d & E & M); [by rewrite map_size_empty|].
  exists d. pose proof (md_wf _ _ M) as W. split_and!; [done|apply M|apply W| |apply W].
  by rewrite (size_spec type), (models_size _ _ M).
Qed.
End Map.

(** ** Witness *)

Definition sample_type : dictType Z := {| hashFunction := fun k => u64 (k * 7); resizeAllowed := fun _ _ _ => true; force_full_rehash := false |}.

Definition sample_ops : list (dictResizeEnable * Z * op) :=
  ((fun k => (DICT_RESIZE_ENABLE, 0, Add k (k * k))) <$> [1; 2; 3; 4; 5; 6; 7; 8; 9])
  ++ [(DICT_RESIZE_AVOID, 0, Replace 3 10); (DICT_RESIZE_ENABLE, 0, Find 3); (DICT_RESIZE_ENABLE, 0, Delete 4);
      (DICT_RESIZE_ENABLE, 0, PauseRehashing); (DICT_RESIZE_ENABLE, 0, FindAndSet 4 17); (DICT_RESIZE_ENABLE, 0, Iterate true);
      (DICT_RESIZE_ENABLE, 0, ResumeRehashing); (DICT_RESIZE_FORBID, 0, UnlinkInTwoPhases 5); (DICT_RESIZE_ENABLE, 0, Add 4 1); (DICT_RESIZE_ENABLE, 0, Size)].

Lemma dict_implements_map_witness : exists d, run sample_type sample_ops dictCreate = Some ((map_run sample_ops.*2 ∅).1, d) /\
  list_to_map (entries d) = (map_run sample_ops.*2 ∅).2 /\ dictSize d = 8 /\ last (map_run sample_ops.*2 ∅).1 = Some (Count 8).
Proof.
  destruct (dict_implements_map sample_type (fun k => u64_range (k * 7)) sample_ops) as (d & E & M & _ & Sz & _); [vm_compute; reflexivity|].
  exists d. split_and!; [exact E|exact M| |vm_compute; reflexivity]. rewrite Sz. vm_compute. reflexivity.
Defined.
