(* ===== verification/DictScan.v ===== *)
(** Scanning a hash table with a cursor (dictScan in src/src/dict.c): the bits of
    the cursor are counted from the highest one down, so that the buckets that
    were visited stay visited when the table changes its size between calls. *)

From stdpp Require Import base list numbers gmap.
From coqutil Require Import Datatypes.RecordSetters.
From S2P Require Import Prelude Dict DictMap.
Import TriangleBracketNotations.

Local Open Scope Z_scope.

(** ** Reversing the bits *)

Definition step_index (s mask i : Z) : Z := if Z.testbit mask i then i + s else i - s.

Definition below64 : list Z := seqZ 0 64.

Lemma below64_spec i : 0 <= i < 64 -> i ∈ below64.
Proof. intros H. apply elem_of_seqZ. lia. Qed.

(** A mask that keeps every bit inside the word. *)
Definition mask_ok (s mask : Z) : bool :=
  (0 <=? s) && (0 <=? mask) && (mask <? 2 ^ 64) && forallb (fun i => (0 <=? step_index s mask i) && (step_index s mask i <? 64)) below64.

Lemma high_bit v i : is_u64 v -> 64 <= i -> Z.testbit v i = false.
Proof. intros [H1 H2] Hi. apply Z.bits_above_log2; [done|]. destruct (Z.eq_dec v 0) as [->|N]; [cbn; lia|]. assert (Z.log2 v < 64) by (apply Z.log2_lt_pow2; lia). lia. Qed.

Lemma bits_u64 v : 0 <= v -> (forall i, 64 <= i -> Z.testbit v i = false) -> is_u64 v.
Proof.
  intros H B. split; [done|]. destruct (Z.lt_ge_cases v (2 ^ 64)) as [L|L]; [done|]. exfalso. assert (64 <= Z.log2 v) as Hl by (apply Z.log2_le_pow2; lia).
  specialize (B _ Hl). rewrite Z.bit_log2 in B by lia. done.
Qed.

Lemma u64_bit v i : 0 <= i < 64 -> Z.testbit (u64 v) i = Z.testbit v i.
Proof. intros H. unfold u64. by rewrite Z.mod_pow2_bits_low by lia. Qed.

Lemma swap_step_u64 s mask v : mask_ok s mask = true -> is_u64 v -> is_u64 (swap_step s mask v).
Proof.
  unfold mask_ok. rewrite !andb_true_iff. intros [[[H1 H2] H3] _] [Hv _]. unfold swap_step. pose proof (u64_range (Z.lnot mask)) as N.
  apply bits_u64; [apply Z.lor_nonneg; split; apply Z.land_nonneg; right; [lia|apply N]|].
  intros i Hi. rewrite Z.lor_spec, !Z.land_spec, (high_bit mask), (high_bit (u64 (Z.lnot mask))) by (done || split; lia). by rewrite !andb_false_r.
Qed.

Lemma swap_step_bit s mask v i : mask_ok s mask = true -> 0 <= i < 64 -> Z.testbit (swap_step s mask v) i = Z.testbit v (step_index s mask i) /\ 0 <= step_index s mask i < 64.
Proof.
  unfold mask_ok. rewrite !andb_true_iff, forallb_forall. intros [[[H1 H2] H3] F] Hi. specialize (F i). rewrite <- list_elem_of_In in F. specialize (F (below64_spec i Hi)).
  assert (0 <= step_index s mask i < 64) as R by lia. split; [|done]. unfold swap_step, step_index in *.
  rewrite Z.lor_spec, !Z.land_spec, !u64_bit, Z.lnot_spec, Z.shiftr_spec by lia. destruct (Z.testbit mask i); cbn.
  - by rewrite andb_true_r, andb_false_r, orb_false_r.
  - rewrite andb_false_r, andb_true_r. cbn. rewrite Z.shiftl_spec by lia. done.
Qed.

(** The masks of the six steps. *)
Definition masks : list (Z * Z) :=
  [(32, 0xFFFFFFFF); (16, 0x0000FFFF0000FFFF); (8, 0x00FF00FF00FF00FF); (4, 0x0F0F0F0F0F0F0F0F); (2, 0x3333333333333333); (1, 0x5555555555555555)].

Lemma rev_steps v : rev v = foldl (fun v sm => swap_step sm.1 sm.2 v) v masks.
Proof. unfold rev. cbv -[swap_step]. reflexivity. Qed.

Lemma steps_bit l : forallb (fun sm => mask_ok sm.1 sm.2) l = true -> forall v i, is_u64 v -> 0 <= i < 64 ->
  is_u64 (foldl (fun v sm => swap_step sm.1 sm.2 v) v l) /\
  Z.testbit (foldl (fun v sm => swap_step sm.1 sm.2 v) v l) i = Z.testbit v (foldr (fun sm i => step_index sm.1 sm.2 i) i l).
Proof.
  assert (forall l i, forallb (fun sm => mask_ok sm.1 sm.2) l = true -> 0 <= i < 64 -> 0 <= foldr (fun sm i => step_index sm.1 sm.2 i) i l < 64) as R.
  { induction l0 as [|sm l0 IH]; intros i F Hi; [done|]. cbn in F |- *. apply andb_true_iff in F as [F1 F2]. apply (swap_step_bit _ _ 0 _ F1). auto. }
  induction l as [|sm l IH]; intros F v i U Hi; [done|]. cbn in F |- *. apply andb_true_iff in F as [F1 F2].
  destruct (IH F2 (swap_step sm.1 sm.2 v) i) as [U' ->]; [by apply swap_step_u64|done|]. split; [done|]. apply swap_step_bit; auto.
Qed.

Lemma masks_reverse : forallb (fun i => foldr (fun sm i => step_index sm.1 sm.2 i) i masks =? 63 - i) below64 = true.
Proof. vm_compute. reflexivity. Qed.

Lemma rev_u64 v : is_u64 v -> is_u64 (rev v).
Proof. intros U. rewrite rev_steps. apply (steps_bit masks) with (i := 0); [vm_compute; reflexivity|done|lia]. Qed.

Lemma rev_bit v i : is_u64 v -> 0 <= i < 64 -> Z.testbit (rev v) i = Z.testbit v (63 - i).
Proof.
  intros U Hi. rewrite rev_steps. destruct (steps_bit masks) with (v := v) (i := i) as [_ ->]; [vm_compute; reflexivity|done|done|].
  pose proof masks_reverse as M. rewrite forallb_forall in M. specialize (M i). rewrite <- list_elem_of_In in M.
  specialize (M (below64_spec i Hi)). apply Z.eqb_eq in M. by rewrite M.
Qed.

Lemma u64_ext v w : is_u64 v -> is_u64 w -> (forall i, 0 <= i < 64 -> Z.testbit v i = Z.testbit w i) -> v = w.
Proof. intros V W B. apply Z.bits_inj'. intros i Hi. destruct (Z.lt_ge_cases i 64); [auto|]. by rewrite !high_bit. Qed.

Lemma rev_rev v : is_u64 v -> rev (rev v) = v.
Proof. intros U. apply u64_ext; [by apply rev_u64, rev_u64|done|]. intros i Hi. rewrite !rev_bit by (by apply rev_u64 || lia || done). f_equal. lia. Qed.

#[local] Opaque rev.

(** ** Cursors *)

Lemma lor_ones r j : 0 <= r -> 0 <= j -> Z.lor r (Z.ones j) = r / 2 ^ j * 2 ^ j + (2 ^ j - 1).
Proof.
  intros Hr Hj. rewrite <- Z.shiftr_div_pow2, <- Z.shiftl_mul_pow2 by lia. replace (2 ^ j - 1) with (Z.ones j) by (rewrite Z.ones_equiv; lia).
  assert (Z.land (Z.shiftl (Z.shiftr r j) j) (Z.ones j) = 0) as D.
  { apply Z.bits_inj'. intros i Hi. rewrite Z.land_spec, Z.bits_0, Z.shiftl_spec, Z.testbit_ones_nonneg by lia.
    destruct (Z.ltb_spec i j); [by rewrite Z.testbit_neg_r by lia|apply andb_false_r]. }
  rewrite Z.add_nocarry_lxor, Z.lxor_lor by done. apply Z.bits_inj'. intros i Hi. rewrite !Z.lor_spec, Z.testbit_ones_nonneg, Z.shiftl_spec by lia.
  destruct (Z.ltb_spec i j); [by rewrite !orb_true_r|]. rewrite Z.shiftr_spec by lia. repeat f_equal. lia.
Qed.

(** The buckets of a table with [2 ^ k] buckets, in the order of the reversed
    cursor: blocks of [2 ^ (64 - k)]. *)
Definition block (k r : Z) : Z := r / 2 ^ (64 - k).

Lemma same_bucket k v w : 0 <= k <= 64 -> is_u64 v -> is_u64 w -> block k (rev v) = block k (rev w) -> Z.land v (2 ^ k - 1) = Z.land w (2 ^ k - 1).
Proof.
  intros Hk V W B. replace (2 ^ k - 1) with (Z.ones k) by (rewrite Z.ones_equiv; lia). apply Z.bits_inj'. intros i Hi.
  rewrite !Z.land_spec, Z.testbit_ones_nonneg by lia. destruct (Z.ltb_spec i k); [|by rewrite !andb_false_r]. rewrite !andb_true_r.
  unfold block in B. apply (f_equal (fun x => Z.testbit x (k - 1 - i))) in B. rewrite <- !Z.shiftr_div_pow2, !Z.shiftr_spec, !rev_bit in B by (done || lia).
  replace (63 - (k - 1 - i + (64 - k))) with i in B by lia. done.
Qed.

Lemma next_cursor_rev k v : 0 <= k <= 64 -> is_u64 v -> is_u64 (next_cursor (2 ^ k - 1) v) /\
  rev (next_cursor (2 ^ k - 1) v) = u64 ((block k (rev v) + 1) * 2 ^ (64 - k)).
Proof.
  intros Hk V. unfold next_cursor. split; [apply rev_u64, u64_range|]. rewrite rev_rev by apply u64_range. f_equal.
  pose proof (rev_u64 v V) as R. assert (is_u64 (Z.lor v (u64 (Z.lnot (2 ^ k - 1))))) as L.
  { pose proof (u64_range (Z.lnot (2 ^ k - 1))). apply bits_u64; [apply Z.lor_nonneg; split; [apply V|apply H]|]. intros i Hi. by rewrite Z.lor_spec, !high_bit. }
  assert (rev (Z.lor v (u64 (Z.lnot (2 ^ k - 1)))) = Z.lor (rev v) (Z.ones (64 - k))) as ->.
  { assert (is_u64 (Z.ones (64 - k))) as O.
    { rewrite Z.ones_equiv. assert (0 < 2 ^ (64 - k) <= 2 ^ 64) by (split; [lia|apply Z.pow_le_mono_r; lia]). unfold is_u64. lia. }
    apply u64_ext; [by apply rev_u64| |].
    - apply bits_u64; [apply Z.lor_nonneg; split; [apply R|apply O]|]. intros i Hi. by rewrite Z.lor_spec, !high_bit.
    - intros i Hi. rewrite Z.lor_spec, !rev_bit, Z.lor_spec, u64_bit, Z.lnot_spec, Z.testbit_ones_nonneg by (done || lia). f_equal.
      replace (2 ^ k - 1) with (Z.ones k) by (rewrite Z.ones_equiv; lia). rewrite Z.testbit_ones_nonneg by lia.
      destruct (Z.ltb_spec (63 - i) k), (Z.ltb_spec i (64 - k)); (done || lia). }
  rewrite lor_ones by (apply R || lia). unfold block. lia.
Qed.

Lemma mod_pow_bits r j : 0 <= j -> r mod 2 ^ j = 0 <-> forall i, 0 <= i < j -> Z.testbit r i = false.
Proof.
  intros Hj. split.
  - intros H i Hi. rewrite <- (Z.mod_pow2_bits_low r j) by lia. by rewrite H, Z.bits_0.
  - intros H. apply Z.bits_inj'. intros i Hi. rewrite Z.bits_0. destruct (Z.lt_ge_cases i j); [rewrite Z.mod_pow2_bits_low by lia; auto|by rewrite Z.mod_pow2_bits_high by lia].
Qed.

(** The bits between the two masks are zero when the reversed cursor is at the
    start of a block of the smaller table. *)
Lemma cursor_aligned k0 k1 v : 0 <= k0 <= k1 -> k1 <= 64 -> is_u64 v -> rev v mod 2 ^ (64 - k1) = 0 ->
  Z.land v (Z.lxor (2 ^ k0 - 1) (2 ^ k1 - 1)) = 0 <-> rev v mod 2 ^ (64 - k0) = 0.
Proof.
  intros K0 K1 V D. assert (forall i, 0 <= i -> Z.testbit (Z.lxor (2 ^ k0 - 1) (2 ^ k1 - 1)) i = (k0 <=? i) && (i <? k1)) as M.
  { intros i Hi. replace (2 ^ k0 - 1) with (Z.ones k0) by (rewrite Z.ones_equiv; lia). replace (2 ^ k1 - 1) with (Z.ones k1) by (rewrite Z.ones_equiv; lia).
    rewrite Z.lxor_spec, !Z.testbit_ones_nonneg by lia. destruct (Z.ltb_spec i k0), (Z.ltb_spec i k1), (Z.leb_spec k0 i); (done || lia). }
  rewrite mod_pow_bits in * by lia. split.
  - intros L i Hi. destruct (Z.lt_ge_cases i (64 - k1)); [auto with lia|]. apply (f_equal (fun x => Z.testbit x (63 - i))) in L.
    rewrite Z.land_spec, M, Z.bits_0 in L by lia. rewrite rev_bit by (done || lia).
    assert ((k0 <=? 63 - i) && (63 - i <? k1) = true) as Q by lia. by rewrite Q, andb_true_r in L.
  - intros L. apply Z.bits_inj'. intros i Hi. rewrite Z.land_spec, M, Z.bits_0 by lia. destruct (Z.leb_spec k0 i), (Z.ltb_spec i k1); cbn; rewrite ?andb_false_r; try done.
    specialize (L (63 - i)). rewrite rev_bit in L by (done || lia). replace (63 - (63 - i)) with i in L by lia. rewrite L by lia. done.
Qed.

Section Scan.
Context {K V : Type} `{EqDecision K} (type : dictType K).
Implicit Types (d : dict K V) (t : hashtable K V).

Hypothesis hash_range : forall k, is_u64 (hashFunction type k).

Notation hash := (hashFunction type).

(** The end of the block of a reversed cursor, and the entries whose reversed
    hashes are in a range. *)
Definition block_end (k r : Z) : Z := (block k r + 1) * 2 ^ (64 - k).

Definition covers (es : list (K * V)) (lo hi : Z) (l : list (K * V)) : Prop := forall k v, (k, v) ∈ es -> lo <= rev (hash k) < hi -> (k, v) ∈ l.

Lemma block_bounds k r : 0 <= k <= 64 -> is_u64 r -> block k r * 2 ^ (64 - k) <= r < block_end k r /\ block_end k r <= 2 ^ 64 /\ 0 <= block k r < 2 ^ k.
Proof.
  intros Hk [R0 R1]. unfold block_end, block. pose proof (Z.pow_pos_nonneg 2 (64 - k)) as P. pose proof (Z_div_mod_eq_full r (2 ^ (64 - k))) as E.
  pose proof (Z.mod_pos_bound r (2 ^ (64 - k))) as B. assert (2 ^ 64 = 2 ^ k * 2 ^ (64 - k)) as X by (rewrite <- Z.pow_add_r by lia; f_equal; lia).
  assert (r / 2 ^ (64 - k) < 2 ^ k) by (apply Z.div_lt_upper_bound; lia). assert (0 <= r / 2 ^ (64 - k)) by (apply Z.div_pos; lia).
  split_and!; try lia; nia.
Qed.

Lemma block_unique k r q : 0 <= k <= 64 -> q * 2 ^ (64 - k) <= r < (q + 1) * 2 ^ (64 - k) -> block k r = q.
Proof. intros Hk B. unfold block. symmetry. apply (Z.div_unique_pos r _ q (r - q * 2 ^ (64 - k))); lia. Qed.

Lemma mask_exp t : ht_ok type t -> DICTHT_SIZE_MASK (ht_size_exp t) = 2 ^ ht_size_exp t - 1.
Proof. intros O. pose proof (ok_exp _ _ O). unfold DICTHT_SIZE_MASK. rewrite size_ok by lia. zdec. done. Qed.

Lemma bucket_covers t v : ht_ok type t -> is_u64 v -> exists c, chain t (Z.land v (2 ^ ht_size_exp t - 1)) = Some c /\ c ⊆ entries_of t /\
  covers (entries_of t) (rev v) (block_end (ht_size_exp t) (rev v)) c.
Proof.
  intros O U. pose proof (ok_exp _ _ O) as X. pose proof (index_range type t v O) as R. unfold index_of in R. rewrite mask_exp in R by done.
  destruct (chain_some _ _ R) as [c Hc]. exists c. split_and!; [done|by eapply chain_entries|]. intros k x He B.
  apply (key_in_chain type t k x c O He). rewrite <- Hc. f_equal. unfold index_of. rewrite mask_exp by done. symmetry. apply same_bucket; [lia|done|done|].
  destruct (block_bounds (ht_size_exp t) (rev v)) as (B1 & B2 & B3); [lia|by apply rev_u64|]. symmetry. apply block_unique; [lia|]. unfold block_end in B. lia.
Qed.

Lemma u64_multiple q j : 0 <= j <= 64 -> u64 (q * 2 ^ j) mod 2 ^ j = 0.
Proof. intros Hj. apply mod_pow_bits; [lia|]. intros i Hi. rewrite u64_bit by lia. apply Z.mul_pow2_bits_low. lia. Qed.

(** The smaller table's block ends where a block of the larger one does. *)
Lemma block_nested k0 k1 r : 0 <= k0 <= k1 -> k1 <= 64 -> is_u64 r -> block_end k1 r <= block_end k0 r /\
  block_end k0 r = (block k0 r + 1) * 2 ^ (k1 - k0) * 2 ^ (64 - k1) /\ block k1 r < (block k0 r + 1) * 2 ^ (k1 - k0).
Proof.
  intros K0 K1 R. destruct (block_bounds k0 r) as (B1 & B2 & B3); [lia|done|]. destruct (block_bounds k1 r) as (C1 & C2 & C3); [lia|done|].
  assert (2 ^ (64 - k0) = 2 ^ (k1 - k0) * 2 ^ (64 - k1)) as X by (rewrite <- Z.pow_add_r by lia; f_equal; lia).
  unfold block_end in *. rewrite X, Z.mul_assoc in *. pose proof (Z.pow_pos_nonneg 2 (64 - k1)) as P.
  assert (block k1 r < (block k0 r + 1) * 2 ^ (k1 - k0)) as L by (apply (Zmult_lt_reg_r _ _ (2 ^ (64 - k1))); lia).
  split_and!; [apply Zmult_le_compat_r; lia|done|done].
Qed.

Lemma larger_spec fuel t k0 : ht_ok type t -> 0 <= k0 < ht_size_exp t -> forall v, is_u64 v ->
  (block k0 (rev v) + 1) * 2 ^ (ht_size_exp t - k0) - block (ht_size_exp t) (rev v) <= Z.of_nat fuel ->
  exists l v', scan_larger fuel t (2 ^ k0 - 1) (2 ^ ht_size_exp t - 1) v = Some (l, v') /\ is_u64 v' /\ rev v' = u64 (block_end k0 (rev v)) /\
    l ⊆ entries_of t /\ covers (entries_of t) (rev v) (block_end k0 (rev v)) l.
Proof.
  intros O K0. pose proof (ok_exp _ _ O) as X. remember (ht_size_exp t) as k1 eqn:Ek. induction fuel as [|fuel IH]; intros v U F.
  { destruct (block_nested k0 k1 (rev v)) as (_ & _ & B); [lia|lia|by apply rev_u64|lia]. }
  cbn [scan_larger]. destruct (bucket_covers t v O U) as (c & Hc & Sc & Cc). rewrite <- Ek in Hc, Cc. rewrite Hc. cbn [mbind option_bind].
  destruct (next_cursor_rev k1 v) as [U1 R1]; [lia|done|]. set (v1 := next_cursor (2 ^ k1 - 1) v) in *. fold (block_end k1 (rev v)) in R1.
  pose proof (rev_u64 v U) as R. destruct (block_nested k0 k1 (rev v)) as (B1 & B2 & B3); [lia|lia|done|]. destruct (block_bounds k0 (rev v)) as (C1 & C2 & C3); [lia|done|].
  destruct (block_bounds k1 (rev v)) as (D1 & D2 & D3); [lia|done|].
  pose proof (cursor_aligned k0 k1 v1) as Al. rewrite R1 in Al. specialize (Al ltac:(lia) ltac:(lia) U1 (u64_multiple (block k1 (rev v) + 1) (64 - k1) ltac:(lia))).
  destruct (Z.eq_dec (block_end k1 (rev v)) (block_end k0 (rev v))) as [E|N].
  - assert (Z.land v1 (Z.lxor (2 ^ k0 - 1) (2 ^ k1 - 1)) = 0) as -> by (apply Al; rewrite E; apply u64_multiple; lia). cbn [Z.eqb].
    exists c, v1. rewrite <- E. by split_and!.
  - assert (is_u64 (block_end k1 (rev v))) as U2 by (split; [pose proof (proj1 R)|]; lia). rewrite (u64_small _ U2) in *.
    assert (block k0 (rev v1) = block k0 (rev v)) as Eb by (rewrite R1; apply block_unique; [lia|unfold block_end in *; lia]).
    assert (block k1 (rev v1) = block k1 (rev v) + 1) as Eb1 by (rewrite R1; apply block_unique; [lia|unfold block_end in *; pose proof (Z.pow_pos_nonneg 2 (64 - k1)); lia]).
    destruct (Z.eqb_spec (Z.land v1 (Z.lxor (2 ^ k0 - 1) (2 ^ k1 - 1))) 0) as [L|_].
    { exfalso. apply Al, Z.mod_divide in L as [q L]; [|lia]. pose proof (Z.pow_pos_nonneg 2 (64 - k0)) as P. rewrite L in *.
      assert (block k0 (rev v) < q) by (apply (Zmult_lt_reg_r _ _ (2 ^ (64 - k0))); lia).
      assert (q < block k0 (rev v) + 1) by (apply (Zmult_lt_reg_r _ _ (2 ^ (64 - k0))); [lia|]; fold (block_end k0 (rev v)); lia). lia. }
    destruct (IH v1 U1) as (l & v' & -> & U' & R' & Sl & Cl); [rewrite Eb, Eb1; lia|]. cbn [mbind option_bind]. exists (c ++ l), v'.
    unfold block_end at 1 in R'. rewrite Eb in R'. unfold block_end at 1 in Cl. rewrite Eb, R1 in Cl. split_and!; [done|done|done|set_solver|].
    intros k x He Hr. apply elem_of_app. destruct (Z.lt_ge_cases (rev (hash k)) (block_end k1 (rev v))); [left; apply Cc; [done|lia]|right; apply Cl; [done|unfold block_end in *; lia]].
Qed.

(** One call: the entries whose reversed hashes are from the cursor to the end of
    its block of the smaller table, where the next call starts. *)
Lemma scan_spec d v : wf type d -> is_u64 v -> dictSize d <> 0 -> exists l v' k0, dictScan d v = Some (l, v') /\ is_u64 v' /\
  2 <= k0 <= ht_size_exp (ht0 d) /\ k0 <= 60 /\ rev v' = u64 (block_end k0 (rev v)) /\ l ⊆ entries d /\ covers (entries d) (rev v) (block_end k0 (rev v)) l.
Proof.
  intros W U N. unfold dictScan. assert (dictSize d =? 0 = false) as -> by lia. pose proof (table_ok type d W N) as O0. pose proof (ok_exp _ _ O0) as X0.
  destruct (dictIsRehashing d) eqn:Rh; cbn [negb].
  - apply shape_rehashing with (type := type) in Rh; [|apply W]. pose proof (rh_1 _ _ Rh) as O1. pose proof (ok_exp _ _ O1) as X1. pose proof (rh_exp _ _ Rh) as Nx.
    set (b := DICTHT_SIZE (ht_size_exp (ht0 d)) >? DICTHT_SIZE (ht_size_exp (ht1 d))).
    assert (ht_ok type (ht b d) /\ ht_ok type (ht (negb b) d) /\ ht_size_exp (ht b d) < ht_size_exp (ht (negb b) d) /\ ht_size_exp (ht b d) <= ht_size_exp (ht0 d) /\
      (forall e, e ∈ entries d <-> e ∈ entries_of (ht b d) \/ e ∈ entries_of (ht (negb b) d))) as (Os & Ol & Lt & Le & En).
    { unfold b, entries. rewrite !size_ok by lia. destruct (Z.gtb_spec (2 ^ ht_size_exp (ht0 d)) (2 ^ ht_size_exp (ht1 d))) as [G|G]; cbn [ht negb].
      - apply Z.pow_lt_mono_r_iff in G; [|lia|lia]. split_and!; [done|done|lia|lia|set_solver].
      - apply Z.pow_le_mono_r_iff in G; [|lia|lia]. split_and!; [done|done|lia|lia|set_solver]. }
    clearbody b. rewrite !(mask_exp _ Os), !(mask_exp _ Ol). destruct (bucket_covers (ht b d) v Os U) as (c & -> & Sc & Cc). cbn [mbind option_bind].
    pose proof (ok_exp _ _ Os) as Xs. pose proof (ok_exp _ _ Ol) as Xl. pose proof (rev_u64 v U) as R.
    destruct (larger_spec (Z.to_nat (DICTHT_SIZE (ht_size_exp (ht (negb b) d)))) (ht (negb b) d) (ht_size_exp (ht b d)) Ol) with (v := v) as (l & v' & -> & U' & R' & Sl & Cl); [lia|done| |].
    { rewrite size_ok by lia. destruct (block_bounds (ht_size_exp (ht b d)) (rev v)) as (_ & _ & B); [lia|done|]. destruct (block_bounds (ht_size_exp (ht (negb b) d)) (rev v)) as (_ & _ & B'); [lia|done|].
      assert (2 ^ ht_size_exp (ht (negb b) d) = 2 ^ ht_size_exp (ht b d) * 2 ^ (ht_size_exp (ht (negb b) d) - ht_size_exp (ht b d))) as E by (rewrite <- Z.pow_add_r by lia; f_equal; lia).
      pose proof (Z.mul_le_mono_nonneg_r (block (ht_size_exp (ht b d)) (rev v) + 1) (2 ^ ht_size_exp (ht b d)) (2 ^ (ht_size_exp (ht (negb b) d) - ht_size_exp (ht b d)))) as M.
      rewrite Z2Nat.id by lia. lia. }
    cbn [mbind option_bind]. eexists _, v', (ht_size_exp (ht b d)). split; [reflexivity|]. split_and!; try done; try lia.
    + intros e He. apply En. apply elem_of_app in He as [He|He]; [left; by apply Sc|right; by apply Sl].
    + intros k x He B. apply elem_of_app. apply En in He as [He|He]; [left; by apply Cc|right; by apply Cl].
  - assert (entries d = entries_of (ht0 d)) as En.
    { destruct (w_shape _ _ W) as [_ R1 _|Rg]; [unfold entries; rewrite R1; apply app_nil_r|by rewrite (rehashing_on _ _ Rg) in Rh]. }
    rewrite !(mask_exp _ O0). destruct (bucket_covers (ht0 d) v O0 U) as (c & -> & Sc & Cc). cbn [mbind option_bind].
    destruct (next_cursor_rev (ht_size_exp (ht0 d)) v) as [U' R']; [lia|done|]. eexists _, _, (ht_size_exp (ht0 d)). split; [reflexivity|]. rewrite En. split_and!; try done; lia.
Qed.
End Scan.

(** ** Whole scans *)

Section Session.
Context {K V : Type} `{Countable K} (type : dictType K).
Implicit Types (d : dict K V) (m : gmap K V).

(** Calls of [dictScan], each with the cursor of the one before and after the
    dictionary was changed by any operations. *)
Fixpoint scan_session (calls : list (list (dictResizeEnable * V * op))) d (v : Z) : option (list (list (K * V)) * Z) :=
  match calls with
  | [] => Some ([], v)
  | ops :: calls =>
      '(_, d) ← run type ops d;
      '(l, v) ← dictScan d v;
      '(ls, v) ← scan_session calls d v;
      Some (l :: ls, v)
  end.

(** What the dictionary holds at each call. *)
Fixpoint contents (calls : list (list (dictResizeEnable * V * op))) m : list (gmap K V) :=
  match calls with
  | [] => []
  | ops :: calls => let m := (map_run ops.*2 m).2 in m :: contents calls m
  end.

(** The calls with the dictionary as it is at each of them. *)
Fixpoint scan_states (ds : list (dict K V)) (v : Z) : option (list (list (K * V)) * Z) :=
  match ds with
  | [] => Some ([], v)
  | d :: ds => '(l, v) ← dictScan d v; '(ls, v) ← scan_states ds v; Some (l :: ls, v)
  end.

Hypothesis hash_range : forall k, is_u64 (hashFunction type k).

Notation hash := (hashFunction type).

Lemma map_run_size ops : forall m, (size (map_run ops m).2 <= size m + length ops)%nat.
Proof.
  induction ops as [|o ops IH]; intros m; cbn [map_run length]; [cbn; lia|]. pose proof (map_exec_size o m) as Sz. destruct (map_exec o m) as [a m1].
  specialize (IH m1). destruct (map_run ops m1). cbn in *. lia.
Qed.

Lemma empty_no_keys d m k : models type d m -> dictSize d = 0 -> m !! k = None.
Proof.
  intros M Z0. apply (models_none type d m k M). rewrite (size_spec type) in Z0 by apply M.
  destruct (entries d); [set_solver|rewrite zlen_cons in Z0; pose proof (zlen_nonneg l); lia].
Qed.

(** What is in the map under [k] is in the answer of the same call. *)
Definition returned (ls : list (list (K * V))) (ms : list (gmap K V)) (k : K) : Prop :=
  exists i l m x, ls !! i = Some l /\ ms !! i = Some m /\ m !! k = Some x /\ (k, x) ∈ l.

Definition of_map (l : list (K * V)) m : Prop := forall k x, (k, x) ∈ l -> m !! k = Some x.

Lemma returned_cons l ls m ms k : returned ls ms k -> returned (l :: ls) (m :: ms) k.
Proof. intros (i & l' & m' & x & L). by exists (S i), l', m', x. Qed.

(** A call on a dictionary: it returns entries of the map, and those whose
    reversed hashes are from the cursor to the next one; the end is 0. *)
Lemma scan_call d m v : models type d m -> is_u64 v -> exists l v', dictScan d v = Some (l, v') /\ is_u64 v' /\ of_map l m /\
  forall k x, m !! k = Some x -> rev v <= rev (hash k) -> (k, x) ∈ l \/ (v' <> 0 /\ rev v' <= rev (hash k)).
Proof.
  intros M U. destruct (Z.eq_dec (dictSize d) 0) as [Z0|N].
  { exists [], 0. unfold dictScan. rewrite Z0. split_and!; [done|split; lia|by intros k x ?%elem_of_nil|]. intros k x E. by rewrite (empty_no_keys d m k M Z0) in E. }
  destruct (scan_spec type hash_range d v (md_wf _ _ _ M) U N) as (l & v' & k0 & E & U' & K0 & K0' & R' & Sl & Cl). exists l, v'.
  split_and!; [done|done| |].
  - intros k x He. apply (models_some type d m k x M). by apply Sl.
  - intros k x Hm Hr. destruct (Z.lt_ge_cases (rev (hash k)) (block_end k0 (rev v))) as [L|L].
    + left. apply Cl; [|lia]. destruct M as [W _ <-]. apply elem_of_list_to_map in Hm; [done|apply W].
    + right. pose proof (rev_u64 _ (hash_range k)) as [_ Hk]. destruct (block_bounds k0 (rev v)) as (B1 & B2 & B3); [lia|by apply rev_u64|].
      pose proof (rev_u64 v U) as [V0 _]. rewrite u64_small in R' by (split; lia). split; [|lia]. intros ->. assert (rev 0 = 0) as R0 by (vm_compute; reflexivity). lia.
Qed.

Lemma session_spec calls : forall d m v, models type d m -> is_u64 v -> Z.of_nat (size m + length (concat calls)) < 2 ^ 62 ->
  exists ls v', scan_session calls d v = Some (ls, v') /\ Forall2 of_map ls (contents calls m) /\
    (v' = 0 -> calls <> [] \/ v <> 0 -> forall k, rev v <= rev (hash k) -> Forall (fun m => is_Some (m !! k)) (contents calls m) -> returned ls (contents calls m) k).
Proof.
  induction calls as [|ops calls IH]; intros d m v M U L.
  { exists [], v. split_and!; [done|constructor|]. intros -> [|]; done. }
  cbn [scan_session contents concat] in *. rewrite length_app in L. destruct (run_spec type hash_range ops d m M) as (d1 & -> & M1); [lia|]. cbn [mbind option_bind].
  set (m1 := (map_run ops.*2 m).2) in *. destruct (scan_call d1 m1 v M1 U) as (l & v1 & -> & U1 & Om & Cv). cbn [mbind option_bind].
  assert (size m1 <= size m + length ops)%nat as Sz by (unfold m1; rewrite <- (length_fmap snd ops); apply map_run_size).
  destruct (IH d1 m1 v1 M1 U1) as (ls & v' & -> & F & C); [lia|]. cbn [mbind option_bind]. exists (l :: ls), v'. split_and!; [done|by constructor|].
  intros E _ k Hr P. apply Forall_cons in P as [[x Hx] P]. destruct (Cv k x Hx Hr) as [He|[N1 R1]].
  - by exists O, l, m1, x.
  - apply returned_cons. apply C; auto.
Qed.

(** C8: calls of [dictScan], the first with cursor 0 and each other one with the
    cursor of the call before, while any operations grow, shrink, rehash or
    change the dictionary between them: every call reads buckets of the tables
    only and returns entries that are there, and when the cursor is 0 again every
    key that was there at all the calls has been returned by one of them. *)
Theorem scan_returns_all calls : Z.of_nat (length (concat calls)) < 2 ^ 62 ->
  exists ls v, scan_session calls dictCreate 0 = Some (ls, v) /\ Forall2 of_map ls (contents calls ∅) /\
    (v = 0 -> calls <> [] -> forall k, Forall (fun m => is_Some (m !! k)) (contents calls ∅) -> returned ls (contents calls ∅) k).
Proof.
  intros L. destruct (session_spec calls dictCreate ∅ 0 (models_create type)) as (ls & v & E & F & C); [split; lia|by rewrite map_size_empty|].
  exists ls, v. split_and!; [done|done|]. intros Hv N k P. apply C; auto. assert (rev 0 = 0) as -> by (vm_compute; reflexivity). apply rev_u64, hash_range.
Qed.

(** Tables with at most [2 ^ e] buckets: every call goes to a later block. *)
Lemma scan_advances d v e : wf type d -> is_u64 v -> ht_size_exp (ht0 d) <= e <= 64 ->
  exists l v', dictScan d v = Some (l, v') /\ is_u64 v' /\ (v' = 0 \/ block e (rev v) + 1 <= block e (rev v')).
Proof.
  intros W U He. destruct (Z.eq_dec (dictSize d) 0) as [Z0|N].
  { exists [], 0. unfold dictScan. rewrite Z0. split_and!; [done|split; lia|by left]. }
  destruct (scan_spec type hash_range d v W U N) as (l & v' & k0 & E & U' & K0 & K0' & R' & _). exists l, v'. split_and!; [done|done|].
  pose proof (rev_u64 v U) as R. destruct (block_nested k0 e (rev v)) as (B1 & _); [lia|lia|done|]. destruct (block_bounds k0 (rev v)) as (B2 & B3 & _); [lia|done|].
  destruct (Z.eq_dec (block_end k0 (rev v)) (2 ^ 64)) as [T|T].
  - left. rewrite <- (rev_rev v' U'), R', T. vm_compute. reflexivity.
  - right. rewrite R', u64_small by (pose proof (proj1 R); split; lia). apply Z.div_le_lower_bound; [lia|]. unfold block_end in B1 at 1. lia.
Qed.

Lemma states_terminate e ds : Forall (fun d => wf type d /\ ht_size_exp (ht0 d) <= e <= 64) ds -> 0 <= e <= 64 -> forall v, is_u64 v ->
  2 ^ e - block e (rev v) <= zlen ds ->
  exists n ls, scan_states (take n ds) v = Some (ls, 0) /\ 0 < Z.of_nat n <= 2 ^ e - block e (rev v).
Proof.
  intros F He. induction F as [|d ds [W X] F IH]; intros v U L; destruct (block_bounds e (rev v)) as (_ & _ & B); try done; try (by apply rev_u64).
  { rewrite zlen_nil in L. lia. }
  rewrite zlen_cons in L. destruct (scan_advances d v e W U X) as (l & v' & E & U' & [->|A]).
  - exists 1%nat, [l]. cbn [take scan_states]. rewrite E. cbn [mbind option_bind]. rewrite take_0. split; [done|lia].
  - destruct (IH v' U') as (n & ls & En & Hn); [lia|]. exists (S n), (l :: ls). cbn [take scan_states]. rewrite E. cbn [mbind option_bind]. rewrite En. split; [done|lia].
Qed.

(** C9: a scan ends: on dictionaries whose tables have at most [2 ^ e] buckets,
    changed in any way between the calls, the cursor is 0 again after at most
    [2 ^ e] calls. *)
Theorem scan_terminates e ds : 0 <= e <= 64 -> Forall (fun d => wf type d /\ ht_size_exp (ht0 d) <= e) ds -> 2 ^ e <= zlen ds ->
  exists n ls, scan_states (take n ds) 0 = Some (ls, 0) /\ 0 < Z.of_nat n <= 2 ^ e.
Proof.
  intros He F L. assert (rev 0 = 0) as R0 by (vm_compute; reflexivity). assert (block e (rev 0) = 0) as B0 by (rewrite R0; apply Z.div_0_l; lia).
  destruct (states_terminate e ds) with (v := 0) as (n & ls & E & Hn); [|done|split; lia|lia|exists n, ls; split; [done|lia]].
  eapply Forall_impl; [done|]. cbn. intros d [W X]. split; [done|lia].
Qed.
End Session.

(** ** Witnesses *)

(** Four keys, then more while a scan goes on, so that the table grows. *)
Definition sample_calls : list (list (dictResizeEnable * Z * op)) :=
  let add k := (DICT_RESIZE_ENABLE, 0, Add k (k * k)) in
  [add <$> [1; 2; 3; 4]; add <$> [5; 6; 7; 8; 9]; [(DICT_RESIZE_ENABLE, 0, Delete 2)]; []; []; []; []].

Lemma scan_returns_all_witness : exists ls, scan_session sample_type sample_calls dictCreate 0 = Some (ls, 0) /\
  returned ls (contents sample_calls ∅) 1 /\ returned ls (contents sample_calls ∅) 4.
Proof.
  destruct (scan_returns_all sample_type (fun k => u64_range (k * 7)) sample_calls) as (ls & v & E & _ & C); [vm_compute; reflexivity|].
  assert (v = 0) as -> by (vm_compute in E; congruence).
  exists ls. split_and!; [exact E| |]; (apply C; [reflexivity|discriminate|]; eapply bool_decide_unpack; vm_compute; exact I).
Defined.

Definition sample_dict : dict Z Z :=
  match run sample_type (concat (take 1 sample_calls)) dictCreate with Some (_, d) => d | None => dictCreate end.

Lemma sample_dict_wf : wf sample_type sample_dict.
Proof.
  destruct (run_spec sample_type (fun k => u64_range (k * 7)) (concat (take 1 sample_calls)) dictCreate ∅ (models_create sample_type)) as (d & E & M); [vm_compute; reflexivity|].
  unfold sample_dict. rewrite E. apply M.
Qed.

Lemma scan_terminates_witness : exists n ls, scan_states (take n (replicate 4 sample_dict)) 0 = Some (ls, 0) /\ 0 < Z.of_nat n <= 2 ^ 2.
Proof.
  apply (scan_terminates sample_type (fun k => u64_range (k * 7)) 2 (replicate 4 sample_dict)); [lia| |vm_compute; discriminate].
  apply Forall_replicate. split; [apply sample_dict_wf|vm_compute; discriminate].
Defined.
