(* ===== verification/Kvstore.v ===== *)
(** The key-value store (src/src/kvstore.c): an array of dictionaries, one for
    each slot, with the counts kept over all of them: keys, buckets, non-empty
    and allocated dictionaries, those being rehashed, and a Fenwick tree of their
    sizes.

    A dictionary that is NULL is [None] in the array; an index outside the array,
    a NULL that is dereferenced and a failed assertion are [None]. The callbacks
    that a dictionary calls during an operation are applied to the store when it
    returns: they do not read the dictionary's tables. *)

From stdpp Require Import base list numbers gmap.
From coqutil Require Import Datatypes.RecordSetters.
From S2P Require Import Prelude FwTree Dict DictMap DictScan.
Import TriangleBracketNotations.

Local Open Scope Z_scope.

Definition KVSTORE_ALLOCATE_DICTS_ON_DEMAND : Z := 1.
Definition KVSTORE_FREE_EMPTY_DICTS : Z := 2.

Record kvstore (K V : Type) : Type := {
  kvs_flags : Z;
  dicts : list (option (dict K V));
  num_dicts : Z;
  num_dicts_bits : Z;
  kvs_rehashing : list Z;
  resize_cursor : Z;
  allocated_dicts : Z;
  non_empty_dicts : Z;
  key_count : Z;
  bucket_count : Z;
  dict_sizes : option fenwickTree;
  overhead_hashtable_rehashing : Z
}.
Arguments kvs_flags {K V}.
Arguments dicts {K V}.
Arguments num_dicts {K V}.
Arguments num_dicts_bits {K V}.
Arguments kvs_rehashing {K V}.
Arguments resize_cursor {K V}.
Arguments allocated_dicts {K V}.
Arguments non_empty_dicts {K V}.
Arguments key_count {K V}.
Arguments bucket_count {K V}.
Arguments dict_sizes {K V}.
Arguments overhead_hashtable_rehashing {K V}.

Section Kvstore.
Context {K V : Type} `{EqDecision K} (type : dictType K).
Implicit Types (kvs : kvstore K V) (d : dict K V) (can : dictResizeEnable).

(** The store type's check before an empty dictionary is freed. *)
Variable canFreeDict : kvstore K V -> Z -> bool.

Definition kvstoreGetDict kvs (didx : Z) : option (option (dict K V)) := if didx <? 0 then None else dicts kvs !! Z.to_nat didx.

Definition set_dict kvs (didx : Z) (d : option (dict K V)) : kvstore K V := kvs<| dicts := <[Z.to_nat didx := d]> (dicts kvs) |>.

Definition kvs_has kvs (mask : Z) : bool := negb (Z.land (kvs_flags kvs) mask =? 0).

(** ** Callbacks of the dictionaries *)

Definition kvstoreDictRehashingStarted (didx from : Z) kvs : kvstore K V :=
  kvs<| kvs_rehashing := kvs_rehashing kvs ++ [didx] |>
     <| overhead_hashtable_rehashing := u64 (overhead_hashtable_rehashing kvs + from) |>.

(** [node] is whether the dictionary's [rehashing_node] is set. *)
Definition kvstoreDictRehashingCompleted (node : bool) (didx from : Z) kvs : kvstore K V :=
  kvs<| kvs_rehashing := if node then filter (fun i => i <> didx) (kvs_rehashing kvs) else kvs_rehashing kvs |>
     <| overhead_hashtable_rehashing := u64 (overhead_hashtable_rehashing kvs - from) |>.

Definition kvstoreDictBucketChanged (delta : Z) kvs : kvstore K V := kvs<| bucket_count := u64 (bucket_count kvs + delta) |>.

(** [rehashing_node] is the dictionary's node in the list, unless [clear] says
    that it was set to NULL. *)
Definition callback (clear : bool) (didx : Z) kvs (e : dictEvent) : kvstore K V :=
  match e with
  | RehashingStarted from => kvstoreDictRehashingStarted didx from kvs
  | RehashingCompleted from => kvstoreDictRehashingCompleted (negb clear && bool_decide (didx ∈ kvs_rehashing kvs)) didx from kvs
  | BucketChanged delta => kvstoreDictBucketChanged delta kvs
  end.

(** What the dictionary called on its way from [d] to [d']. *)
Definition callbacks (clear : bool) (didx : Z) d d' kvs : kvstore K V :=
  foldl (callback clear didx) kvs (drop (length (told d)) (told d')).

Definition update_dict (didx : Z) d d' kvs : kvstore K V := callbacks false didx d d' (set_dict kvs didx (Some d')).

(** ** Helpers *)

Definition addDictIndexToCursor kvs (didx cursor : Z) : Z :=
  if num_dicts kvs =? 1 then cursor
  else if didx <? 0 then cursor
  else Z.lor (u64 (Z.shiftl cursor (num_dicts_bits kvs))) didx.

(** The index and the cursor without it. *)
Definition getAndClearDictIndexFromCursor kvs (cursor : Z) : Z * Z :=
  if num_dicts kvs =? 1 then (0, cursor)
  else (Z.land cursor (num_dicts kvs - 1), Z.shiftr cursor (num_dicts_bits kvs)).

Definition cumulativeKeyCountAdd kvs (didx delta : Z) : option (kvstore K V) :=
  let kvs := kvs<| key_count := u64 (key_count kvs + delta) |> in
  d ← kvstoreGetDict kvs didx;
  d ← d;
  let dsize := dictSize d in
  let non_empty_dicts_delta := if (dsize =? 1) && (delta >? 0) then 1 else if dsize =? 0 then -1 else 0 in
  let kvs := kvs<| non_empty_dicts := i32 (non_empty_dicts kvs + non_empty_dicts_delta) |> in
  if num_dicts kvs =? 1 then Some kvs
  else match dict_sizes kvs with
       | None => Some kvs
       | Some ft => ft ← fwTreeUpdate ft didx delta; Some (kvs<| dict_sizes := Some ft |>)
       end.

Definition createDictIfNeeded kvs (didx : Z) : option (dict K V * kvstore K V) :=
  d ← kvstoreGetDict kvs didx;
  match d with
  | Some d => Some (d, kvs)
  | None => Some (dictCreate, (set_dict kvs didx (Some dictCreate))<| allocated_dicts := i32 (allocated_dicts kvs + 1) |>)
  end.

Definition kvstoreDictSize kvs (didx : Z) : option Z := d ← kvstoreGetDict kvs didx; Some (match d with None => 0 | Some d => dictSize d end).

(** The entries that are freed, and the dictionary for the sake of the callbacks
    it has called. *)
Definition dictRelease d : list (K * V) * dict K V :=
  let d := if dictIsRehashing d then tell [RehashingCompleted (DICTHT_SIZE (ht_size_exp (ht0 d)))] d else d in
  let d := tell [BucketChanged (- dictBuckets d)] d in
  ((_dictClear (ht0 d)).1 ++ (_dictClear (ht1 d)).1, d).

Definition freeDictIfNeeded kvs (didx : Z) : option (kvstore K V) :=
  d ← kvstoreGetDict kvs didx;
  match d with
  | None => Some kvs
  | Some d =>
      if negb (kvs_has kvs KVSTORE_FREE_EMPTY_DICTS) || negb (dictSize d =? 0) || (pauserehash d >? 0) then Some kvs
      else if negb (canFreeDict kvs didx) then Some kvs
      else
        let kvs := callbacks false didx d (dictRelease d).2 kvs in
        Some ((set_dict kvs didx None)<| allocated_dicts := i32 (allocated_dicts kvs - 1) |>)
  end.

(** [for (int i = 0; i < kvs->num_dicts; i++)] *)
Definition for_dicts (f : Z -> kvstore K V -> option (kvstore K V)) kvs : option (kvstore K V) :=
  foldl (fun o i => kvs ← o; f i kvs) (Some kvs) (seqZ 0 (num_dicts kvs)).

(** ** The store *)

Definition kvstoreCreate (num_dicts_bits flags : Z) : option (kvstore K V) :=
  if num_dicts_bits >? 16 then None
  else
    let n := Z.shiftl 1 num_dicts_bits in
    let kvs := {| kvs_flags := flags; dicts := replicate (Z.to_nat n) None; num_dicts := n; num_dicts_bits := num_dicts_bits;
                  kvs_rehashing := []; resize_cursor := 0; allocated_dicts := 0; non_empty_dicts := 0; key_count := 0; bucket_count := 0;
                  dict_sizes := if n >? 1 then Some (fwTreeCreate num_dicts_bits) else None; overhead_hashtable_rehashing := 0 |} in
    if negb (kvs_has kvs KVSTORE_ALLOCATE_DICTS_ON_DEMAND) then for_dicts (fun i kvs => '(_, kvs) ← createDictIfNeeded kvs i; Some kvs) kvs
    else Some kvs.

Definition empty_dict (didx : Z) kvs : option (kvstore K V) :=
  d ← kvstoreGetDict kvs didx;
  match d with
  | None => Some kvs
  | Some d => let d' := (dictEmpty d).2 in freeDictIfNeeded (callbacks true didx d d' (set_dict kvs didx (Some d'))) didx
  end.

Definition kvstoreEmpty kvs : option (kvstore K V) :=
  kvs ← for_dicts empty_dict kvs;
  Some (kvs<| kvs_rehashing := [] |><| key_count := 0 |><| non_empty_dicts := 0 |><| resize_cursor := 0 |><| bucket_count := 0 |>
           <| dict_sizes := option_map fwTreeClear (dict_sizes kvs) |><| overhead_hashtable_rehashing := 0 |>).

Definition kvstoreSize kvs : Z := key_count kvs.

Definition kvstoreBuckets kvs : option Z :=
  if negb (num_dicts kvs =? 1) then Some (bucket_count kvs)
  else d ← kvstoreGetDict kvs 0; Some (match d with Some d => dictBuckets d | None => 0 end).

Definition kvstoreFindDictIndexByKeyIndex kvs (target : Z) : option Z :=
  if (num_dicts kvs =? 1) || (kvstoreSize kvs =? 0) then Some 0
  else if negb (target <=? kvstoreSize kvs) then None
  else ft ← dict_sizes kvs; fwTreeFindIndex ft target.

Definition kvstoreGetFirstNonEmptyDictIndex kvs : option Z :=
  if kvstoreSize kvs =? 0 then Some (-1)
  else if num_dicts kvs =? 1 then Some 0
  else ft ← dict_sizes kvs; fwTreeFindFirstNonEmpty ft.

Definition kvstoreGetNextNonEmptyDictIndex kvs (didx : Z) : option Z :=
  if num_dicts kvs =? 1 then if didx =? 0 then Some (-1) else None
  else match dict_sizes kvs with None => Some (-1) | Some ft => fwTreeFindNextNonEmpty ft didx end.

(** The entries given to the callback, which does not change the store, the new
    cursor and the store. *)
Definition kvstoreScan kvs (cursor onlydidx : Z) (skip_cb : dict K V -> Z -> bool) : option (list (K * V) * Z * kvstore K V) :=
  let '(didx, cursor) := getAndClearDictIndexFromCursor kvs cursor in
  if (onlydidx >=? 0) && (didx <? onlydidx) && negb (onlydidx <? num_dicts kvs) then None
  else if (onlydidx >=? 0) && (didx >? onlydidx) then Some ([], 0, kvs)
  else
    let '(didx, cursor) := if (onlydidx >=? 0) && (didx <? onlydidx) then (onlydidx, 0) else (didx, cursor) in
    d ← kvstoreGetDict kvs didx;
    '(skip, l, _cursor, kvs) ←
      (match d with
       | Some d => if skip_cb d didx then Some (true, [], 0, kvs)
                   else '(l, v) ← dictScan d cursor; kvs ← freeDictIfNeeded kvs didx; Some (false, l, v, kvs)
       | None => Some (true, [], 0, kvs)
       end);
    if (_cursor =? 0) || (skip : bool) then
      if onlydidx >=? 0 then Some (l, 0, kvs)
      else
        didx ← kvstoreGetNextNonEmptyDictIndex kvs didx;
        if didx =? -1 then Some (l, 0, kvs) else Some (l, addDictIndexToCursor kvs didx _cursor, kvs)
    else if didx =? -1 then Some (l, 0, kvs)
    else Some (l, addDictIndexToCursor kvs didx _cursor, kvs).

(** ** Operations on one dictionary *)

Definition kvstoreDictExpand can kvs (didx size : Z) : option (bool * kvstore K V) :=
  '(d, kvs) ← createDictIfNeeded kvs didx;
  '(ok, d') ← dictExpand type can d size;
  Some (ok, update_dict didx d d' kvs).

Definition kvstoreDictFind can kvs (didx : Z) (k : K) : option (option (K * V) * kvstore K V) :=
  d ← kvstoreGetDict kvs didx;
  match d with
  | None => Some (None, kvs)
  | Some d => '(e, d') ← dictFind type can d k; Some (e, update_dict didx d d' kvs)
  end.

Definition kvstoreDictFetchValue can kvs (didx : Z) (k : K) : option (option V * kvstore K V) :=
  d ← kvstoreGetDict kvs didx;
  match d with
  | None => Some (None, kvs)
  | Some d => '(v, d') ← dictFetchValue type can d k; Some (v, update_dict didx d d' kvs)
  end.

(** The link of the key, and the bucket. *)
Definition kvstoreDictFindLink can kvs (didx : Z) (k : K) : option (option dictEntryLink * option (bool * Z) * kvstore K V) :=
  d ← kvstoreGetDict kvs didx;
  match d with
  | None => Some (None, None, kvs)
  | Some d => '(l, b, d') ← dictFindLink type can d k; Some (l, b, update_dict didx d d' kvs)
  end.

(** With [newItem]: the bucket that [kvstoreDictFindLink] gave. *)
Definition kvstoreDictSetAtLink_new can kvs (didx : Z) (k : K) (v : V) (link : option (bool * Z)) : option (kvstore K V) :=
  '(d, kvs) ← createDictIfNeeded kvs didx;
  d' ← dictSetKeyAtLink_new type can d k v link;
  cumulativeKeyCountAdd (update_dict didx d d' kvs) didx 1.

Definition kvstoreDictSetVal kvs (didx : Z) (l : dictEntryLink) (v : V) : option (kvstore K V) :=
  d ← kvstoreGetDict kvs didx;
  d ← d;
  d' ← dictSetVal d l v;
  Some (update_dict didx d d' kvs).

(** [inl] is the link of the key that is there, [inr] that of the new entry. *)
Definition kvstoreDictAddRaw can (garbage : V) kvs (didx : Z) (k : K) : option ((dictEntryLink + dictEntryLink) * kvstore K V) :=
  '(d, kvs) ← createDictIfNeeded kvs didx;
  '(r, d') ← dictAddRaw type can garbage d k;
  let kvs := update_dict didx d d' kvs in
  match r with
  | inl l => Some (inl l, kvs)
  | inr l => kvs ← cumulativeKeyCountAdd kvs didx 1; Some (inr l, kvs)
  end.

Definition kvstoreDictTwoPhaseUnlinkFind can kvs (didx : Z) (k : K) : option (option dictEntryLink * kvstore K V) :=
  d ← kvstoreGetDict kvs didx;
  match d with
  | None => Some (None, kvs)
  | Some d => '(l, d') ← dictTwoPhaseUnlinkFind type can d k; Some (l, update_dict didx d d' kvs)
  end.

Definition kvstoreDictTwoPhaseUnlinkFree can kvs (didx : Z) (l : option dictEntryLink) : option (option (K * V) * kvstore K V) :=
  d ← kvstoreGetDict kvs didx;
  d ← d;
  '(e, d') ← dictTwoPhaseUnlinkFree type can d l;
  kvs ← cumulativeKeyCountAdd (update_dict didx d d' kvs) didx (-1);
  kvs ← freeDictIfNeeded kvs didx;
  Some (e, kvs).

(** The entry that was deleted. *)
Definition kvstoreDictDelete can kvs (didx : Z) (k : K) : option (option (K * V) * kvstore K V) :=
  d ← kvstoreGetDict kvs didx;
  match d with
  | None => Some (None, kvs)
  | Some d =>
      '(e, d') ← dictGenericDelete type can d k;
      let kvs := update_dict didx d d' kvs in
      match e with
      | None => Some (None, kvs)
      | Some e => kvs ← cumulativeKeyCountAdd kvs didx (-1); kvs ← freeDictIfNeeded kvs didx; Some (Some e, kvs)
      end
  end.

(** ** Resizing all the dictionaries *)

(** With [dictExpand], that is without [try_expand]. *)
Definition kvstoreExpand can kvs (newsize : Z) (skip_cb : Z -> bool) : option (kvstore K V) :=
  for_dicts (fun i kvs => if skip_cb i then Some kvs else '(_, kvs) ← kvstoreDictExpand can kvs i newsize; Some kvs) kvs.

Definition resize_one can kvs : option (kvstore K V) :=
  let didx := resize_cursor kvs in
  d ← kvstoreGetDict kvs didx;
  kvs ← (match d with
         | None => Some kvs
         | Some d =>
             '(ok, d') ← dictShrinkIfNeeded type can d;
             d' ← (if (ok : bool) then Some d' else dictExpandIfNeeded type can d');
             Some (update_dict didx d d' kvs)
         end);
  Some (kvs<| resize_cursor := (didx + 1) mod num_dicts kvs |>).

Fixpoint resize_loop can (n : nat) kvs : option (kvstore K V) :=
  match n with
  | O => Some kvs
  | S n => kvs ← resize_one can kvs; resize_loop can n kvs
  end.

Definition kvstoreTryResizeDicts can kvs (limit : Z) : option (kvstore K V) :=
  resize_loop can (Z.to_nat (if limit >? num_dicts kvs then num_dicts kvs else limit)) kvs.

(** ** Moving a dictionary to another store *)

(** The source store gives the dictionary up. *)
Definition move_out kvs (didx : Z) d : option (kvstore K V) :=
  let kvs := kvs<| allocated_dicts := i32 (allocated_dicts kvs - 1) |> in
  kvs ← cumulativeKeyCountAdd kvs didx (- dictSize d);
  let kvs := kvstoreDictBucketChanged (- dictBuckets d) kvs in
  let kvs := if dictIsRehashing d then kvstoreDictRehashingCompleted (bool_decide (didx ∈ kvs_rehashing kvs)) didx (DICTHT_SIZE (ht_size_exp (ht0 d))) kvs else kvs in
  let kvs := set_dict kvs didx None in
  if kvs_has kvs (Z.lor KVSTORE_ALLOCATE_DICTS_ON_DEMAND KVSTORE_FREE_EMPTY_DICTS) then Some kvs
  else '(_, kvs) ← createDictIfNeeded kvs didx; Some kvs.

(** The destination takes it. *)
Definition move_in (dst : kvstore K V) (didx : Z) d : option (kvstore K V) :=
  let dst := (set_dict dst didx (Some d))<| allocated_dicts := i32 (allocated_dicts dst + 1) |> in
  dst ← cumulativeKeyCountAdd dst didx (dictSize d);
  let dst := kvstoreDictBucketChanged (dictBuckets d) dst in
  Some (if dictIsRehashing d then kvstoreDictRehashingStarted didx (DICTHT_SIZE (ht_size_exp (ht0 d))) dst else dst).

Definition kvstoreMoveDict kvs (dst : kvstore K V) (didx : Z) : option (kvstore K V * kvstore K V) :=
  if negb (num_dicts kvs >? didx) || negb (num_dicts kvs =? num_dicts dst) then None
  else
    there ← kvstoreGetDict dst didx;
    match there with
    | Some _ => None
    | None =>
        d ← kvstoreGetDict kvs didx;
        match d with
        | None => Some (kvs, dst)
        | Some d => kvs ← move_out kvs didx d; dst ← move_in dst didx d; Some (kvs, dst)
        end
    end.

(** ** Iterating over all the dictionaries *)

(** [ki_di] is the safe iterator of the dictionary [ki_didx], once there is one. *)
Record kvstoreIterator : Type := { ki_didx : Z; ki_next_didx : Z; ki_di : option (@dictIterator K V) }.

Definition kvstoreIteratorInit kvs : option kvstoreIterator :=
  next ← kvstoreGetFirstNonEmptyDictIndex kvs;
  Some {| ki_didx := -1; ki_next_didx := next; ki_di := None |}.

(** [None] also if the dictionary of the iterator is gone. *)
Definition reset_dict_iterator (it : kvstoreIterator) kvs : option (kvstore K V) :=
  d ← kvstoreGetDict kvs (ki_didx it);
  match ki_di it with
  | Some di => d ← d; Some (update_dict (ki_didx it) d (dictResetIterator di d) kvs)
  | None => Some kvs
  end.

Definition kvstoreIteratorReset (it : kvstoreIterator) kvs : option (kvstore K V) :=
  if negb (ki_didx it =? -1) then kvs ← reset_dict_iterator it kvs; freeDictIfNeeded kvs (ki_didx it) else Some kvs.

(** The index of the next dictionary. *)
Definition kvstoreIteratorNextDict (it : kvstoreIterator) kvs : option (option Z * kvstoreIterator * kvstore K V) :=
  if ki_next_didx it =? -1 then Some (None, it, kvs)
  else
    kvs ← (if negb (ki_didx it =? -1) then
             d ← kvstoreGetDict kvs (ki_didx it);
             match d with
             | Some _ => kvs ← reset_dict_iterator it kvs; freeDictIfNeeded kvs (ki_didx it)
             | None => Some kvs
             end
           else Some kvs);
    let didx := ki_next_didx it in
    next ← kvstoreGetNextNonEmptyDictIndex kvs didx;
    Some (Some didx, it<| ki_didx := didx |><| ki_next_didx := next |>, kvs).

(** [dictNext] on the dictionary of the iterator. *)
Definition next_in_dict (it : kvstoreIterator) (di : dictIterator) kvs : option (option (K * V) * kvstoreIterator * kvstore K V) :=
  d ← kvstoreGetDict kvs (ki_didx it);
  d ← d;
  '(e, di, d') ← dictNext (Z.to_nat (dictBuckets d) + 3) di d;
  Some (e, it<| ki_di := Some di |>, update_dict (ki_didx it) d d' kvs).

Definition kvstoreIteratorNext (it : kvstoreIterator) kvs : option (option (K * V) * kvstoreIterator * kvstore K V) :=
  '(e, it, kvs) ← (match ki_di it with Some di => next_in_dict it di kvs | None => Some (None, it, kvs) end);
  match e with
  | Some e => Some (Some e, it, kvs)
  | None =>
      '(d, it, kvs) ← kvstoreIteratorNextDict it kvs;
      match d with
      | None => Some (None, it, kvs)
      | Some _ => next_in_dict it (dictInitIterator true) kvs
      end
  end.

(** [while ((de = kvstoreIteratorNext(&it)))] *)
Fixpoint iterate_store (n : nat) (it : kvstoreIterator) kvs : option (list (K * V) * kvstore K V) :=
  match n with
  | O => None
  | S n =>
      '(e, it, kvs) ← kvstoreIteratorNext it kvs;
      match e with
      | None => kvs ← kvstoreIteratorReset it kvs; Some ([], kvs)
      | Some e => '(l, kvs) ← iterate_store n it kvs; Some (e :: l, kvs)
      end
  end.

(** ** Iterating over one dictionary *)

Record kvstoreDictIterator : Type := { kd_didx : Z; kd_di : @dictIterator K V }.

Definition kvstoreInitDictSafeIterator kvs (didx : Z) : option kvstoreDictIterator :=
  _ ← kvstoreGetDict kvs didx; Some {| kd_didx := didx; kd_di := dictInitIterator true |}.

Definition kvstoreDictIteratorNext (it : kvstoreDictIterator) kvs : option (option (K * V) * kvstoreDictIterator * kvstore K V) :=
  d ← kvstoreGetDict kvs (kd_didx it);
  match d with
  | None => Some (None, it, kvs)
  | Some d => '(e, di, d') ← dictNext (Z.to_nat (dictBuckets d) + 3) (kd_di it) d; Some (e, it<| kd_di := di |>, update_dict (kd_didx it) d d' kvs)
  end.

Definition kvstoreResetDictIterator (it : kvstoreDictIterator) kvs : option (kvstore K V) :=
  d ← kvstoreGetDict kvs (kd_didx it);
  match d with
  | None => Some kvs
  | Some d => freeDictIfNeeded (update_dict (kd_didx it) d (dictResetIterator (kd_di it) d) kvs) (kd_didx it)
  end.
End Kvstore.
