(* ===== verification/KvstoreMap.v ===== *)
(** The key-value store as an array of finite maps: its counts, the list of the
    dictionaries being rehashed and the Fenwick tree of their sizes stay right
    under every operation, and scanning it returns every key. *)

From stdpp Require Import base list numbers gmap.
From coqutil Require Import Datatypes.RecordSetters.
From S2P Require Import Prelude FwTree Dict DictMap DictScan Kvstore.
Import TriangleBracketNotations.

Local Open Scope Z_scope.

Lemma zsum_cons x l : zsum (x :: l) = x + zsum l.
Proof. done. Qed.

Lemma zsum_insert l i x y : l !! i = Some x -> zsum (<[i := y]> l) = zsum l - x + y.
Proof.
  revert i. induction l as [|z l IH]; intros [|i] Hx; simplify_eq/=; rewrite ?zsum_cons; [lia|]. rewrite (IH i Hx). lia.
Qed.

Lemma zsum_replicate n : zsum (replicate n 0) = 0.
Proof. induction n; [done|]. cbn [replicate]. rewrite zsum_cons. lia. Qed.

Lemma zsum_bound l b : Forall (fun x => 0 <= x <= b) l -> 0 <= zsum l <= b * zlen l.
Proof. induction 1 as [|x l Hx _ IH]; [change (zsum []) with 0; change (zlen (@nil Z)) with 0; lia|]. rewrite zsum_cons, zlen_cons. lia. Qed.

Lemma hear_none events : foldl hear None events = None.
Proof. induction events; [done|]. by cbn. Qed.

Lemma u64_idemp x y : u64 (u64 x + y) = u64 (x + y).
Proof. unfold u64. by rewrite Z.add_mod_idemp_l by lia. Qed.

Lemma u64_twice x : u64 (u64 x) = u64 x.
Proof. apply u64_small, u64_range. Qed.

Section Map.
Context {K V : Type} `{Countable K} (type : dictType K).
Implicit Types (kvs : kvstore K V) (d : dict K V) (can : dictResizeEnable) (m : gmap K V) (ms : list (gmap K V)).

(** ** Callbacks *)

(** The fields that the callbacks leave alone. *)
Record same_store kvs kvs' : Prop := {
  ss_flags : kvs_flags kvs' = kvs_flags kvs;
  ss_dicts : dicts kvs' = dicts kvs;
  ss_num : num_dicts kvs' = num_dicts kvs;
  ss_bits : num_dicts_bits kvs' = num_dicts_bits kvs;
  ss_cursor : resize_cursor kvs' = resize_cursor kvs;
  ss_allocated : allocated_dicts kvs' = allocated_dicts kvs;
  ss_non_empty : non_empty_dicts kvs' = non_empty_dicts kvs;
  ss_keys : key_count kvs' = key_count kvs;
  ss_sizes : dict_sizes kvs' = dict_sizes kvs
}.

Lemma same_store_trans kvs1 kvs2 kvs3 : same_store kvs1 kvs2 -> same_store kvs2 kvs3 -> same_store kvs1 kvs3.
Proof. intros [] []. split; congruence. Qed.

Lemma callback_same clear didx kvs e : same_store kvs (callback clear didx kvs e).
Proof. by destruct kvs, e. Qed.

(** The dictionary [didx] has its node in the list while it is rehashing. *)
Record listed kvs (didx : Z) (r : bool) : Prop := {
  ls_nodup : NoDup (kvs_rehashing kvs);
  ls_node : didx ∈ kvs_rehashing kvs <-> r = true
}.

Lemma callback_spec didx kvs e r o b r' o' b' : listed kvs didx r -> hear (Some (r, o, b)) e = Some (r', o', b') ->
  let kvs' := callback false didx kvs e in
  listed kvs' didx r' /\ (forall i, i <> didx -> i ∈ kvs_rehashing kvs' <-> i ∈ kvs_rehashing kvs) /\
  u64 (bucket_count kvs') = u64 (bucket_count kvs + (b' - b)) /\
  u64 (overhead_hashtable_rehashing kvs') = u64 (overhead_hashtable_rehashing kvs + (o' - o)).
Proof.
  intros [N Hn] E. destruct kvs as [fl ds n bits rh cu al ne kc bc sz ov]. cbn in N, Hn. destruct e as [from|from|delta]; cbn in E |- *; unfold constant; cbn.
  - destruct r; [done|]. injection E as <- <- <-. assert (didx ∉ rh) as Nd by (rewrite Hn; done). split_and!; [split; cbn| | |].
    + apply NoDup_app. split_and!; [done|set_solver|apply NoDup_singleton].
    + split; [done|set_solver].
    + set_solver.
    + f_equal. lia.
    + rewrite u64_twice. f_equal. lia.
  - destruct r; [|done]. injection E as <- <- <-. rewrite bool_decide_eq_true_2 by (by apply Hn). cbn. split_and!; [split; cbn| | |].
    + by apply NoDup_filter.
    + rewrite list_elem_of_filter. naive_solver.
    + intros i Ni. rewrite list_elem_of_filter. naive_solver.
    + f_equal. lia.
    + rewrite u64_twice. f_equal. lia.
  - injection E as <- <- <-. split_and!; [by split|done| |].
    + rewrite u64_twice. f_equal. lia.
    + f_equal. lia.
Qed.

Lemma callbacks_run didx events : forall kvs r o b r' o' b', listed kvs didx r -> foldl hear (Some (r, o, b)) events = Some (r', o', b') ->
  let kvs' := foldl (callback false didx) kvs events in
  same_store kvs kvs' /\ listed kvs' didx r' /\ (forall i, i <> didx -> i ∈ kvs_rehashing kvs' <-> i ∈ kvs_rehashing kvs) /\
  u64 (bucket_count kvs') = u64 (bucket_count kvs + (b' - b)) /\
  u64 (overhead_hashtable_rehashing kvs') = u64 (overhead_hashtable_rehashing kvs + (o' - o)).
Proof.
  induction events as [|e events IH]; intros kvs r o b r' o' b' L E; cbn [foldl] in *.
  { injection E as <- <- <-. split_and!; [by destruct kvs|done|done|f_equal; lia|f_equal; lia]. }
  destruct (hear (Some (r, o, b)) e) as [[[r1 o1] b1]|] eqn:He; [|by rewrite hear_none in E].
  destruct (callback_spec didx kvs e r o b r1 o1 b1 L He) as (L1 & M1 & B1 & O1).
  destruct (IH _ r1 o1 b1 r' o' b' L1 E) as (S2 & L2 & M2 & B2 & O2). split_and!; [|done| | |].
  - eapply same_store_trans; [apply callback_same|done].
  - intros i Ni. by rewrite M2, M1.
  - rewrite B2, <- u64_idemp, B1, u64_idemp. f_equal. lia.
  - rewrite O2, <- u64_idemp, O1, u64_idemp. f_equal. lia.
Qed.

Definition ranged kvs : Prop := is_u64 (bucket_count kvs) /\ is_u64 (overhead_hashtable_rehashing kvs).

Lemma callbacks_ranged clear didx events : forall kvs, ranged kvs -> ranged (foldl (callback clear didx) kvs events).
Proof.
  induction events as [|e events IH]; intros kvs [B O]; [by split|]. cbn [foldl]. apply IH. destruct kvs, e; cbn; split; cbn; try done; apply u64_range.
Qed.

(** ** The structure of a store *)

Definition holds (od : option (dict K V)) m : Prop := match od with Some d => models type d m | None => m = ∅ end.
Definition allocated_of (od : option (dict K V)) : Z := match od with Some _ => 1 | None => 0 end.
Definition buckets_of (od : option (dict K V)) : Z := match od with Some d => dictBuckets d | None => 0 end.
Definition rehashing_of (od : option (dict K V)) : bool := match od with Some d => dictIsRehashing d | None => false end.
Definition overhead_of (od : option (dict K V)) : Z :=
  match od with Some d => if dictIsRehashing d then DICTHT_SIZE (ht_size_exp (ht0 d)) else 0 | None => 0 end.

Record structure kvs ms : Prop := {
  sr_bits : 0 <= num_dicts_bits kvs <= 16;
  sr_num : num_dicts kvs = 2 ^ num_dicts_bits kvs;
  sr_length : zlen (dicts kvs) = num_dicts kvs;
  sr_dicts : Forall2 holds (dicts kvs) ms;
  sr_allocated : allocated_dicts kvs = zsum (allocated_of <$> dicts kvs);
  sr_buckets : bucket_count kvs = u64 (zsum (buckets_of <$> dicts kvs));
  sr_overhead : overhead_hashtable_rehashing kvs = u64 (zsum (overhead_of <$> dicts kvs));
  sr_nodup : NoDup (kvs_rehashing kvs);
  sr_rehashing : forall i, i ∈ kvs_rehashing kvs <-> exists od, kvstoreGetDict kvs i = Some od /\ rehashing_of od = true;
  sr_cursor : 0 <= resize_cursor kvs < num_dicts kvs
}.

Lemma get_dict kvs i od : kvstoreGetDict kvs i = Some od -> 0 <= i /\ dicts kvs !! Z.to_nat i = Some od.
Proof. unfold kvstoreGetDict. destruct (Z.ltb_spec i 0); [done|auto]. Qed.

Lemma structure_slot kvs ms didx : structure kvs ms -> 0 <= didx < num_dicts kvs ->
  exists od m, kvstoreGetDict kvs didx = Some od /\ ms !! Z.to_nat didx = Some m /\ holds od m.
Proof.
  intros S R. destruct (lookup_lt_is_Some_2 (dicts kvs) (Z.to_nat didx)) as [od Ho]; [pose proof (sr_length _ _ S) as L; unfold zlen in L; lia|].
  destruct (Forall2_lookup_l _ _ _ _ _ (sr_dicts _ _ S) Ho) as (m & Hm & Hh). exists od, m. split_and!; [|done|done]. unfold kvstoreGetDict. by zdec.
Qed.

Lemma u64_replace x a b : u64 (u64 x - a + b) = u64 (x - a + b).
Proof. rewrite <- (Z.add_opp_r (u64 x)), <- Z.add_assoc, u64_idemp. f_equal. lia. Qed.

Lemma zsum_fmap_insert {A} (f : A -> Z) l i x y : l !! i = Some x -> zsum (f <$> <[i := y]> l) = zsum (f <$> l) - f x + f y.
Proof. intros Hx. rewrite list_fmap_insert. apply zsum_insert. by rewrite list_lookup_fmap, Hx. Qed.

(** Another dictionary in the slot, with the counts adapted. *)
Lemma replace_slot kvs kvs' ms didx od od' m' : structure kvs ms -> kvstoreGetDict kvs didx = Some od -> holds od' m' ->
  dicts kvs' = <[Z.to_nat didx := od']> (dicts kvs) -> num_dicts kvs' = num_dicts kvs -> num_dicts_bits kvs' = num_dicts_bits kvs ->
  resize_cursor kvs' = resize_cursor kvs -> allocated_dicts kvs' = allocated_dicts kvs - allocated_of od + allocated_of od' ->
  bucket_count kvs' = u64 (bucket_count kvs - buckets_of od + buckets_of od') ->
  overhead_hashtable_rehashing kvs' = u64 (overhead_hashtable_rehashing kvs - overhead_of od + overhead_of od') ->
  NoDup (kvs_rehashing kvs') -> (forall i, i <> didx -> i ∈ kvs_rehashing kvs' <-> i ∈ kvs_rehashing kvs) ->
  (didx ∈ kvs_rehashing kvs' <-> rehashing_of od' = true) -> structure kvs' (<[Z.to_nat didx := m']> ms).
Proof.
  intros S G Hh Ds N B C A Bc Ov Nd Ot Me. destruct (get_dict _ _ _ G) as [P L]. pose proof (lookup_lt_Some _ _ _ L) as Lt.
  split; rewrite ?N, ?B, ?C; try apply S; rewrite ?Ds; try done.
  - unfold zlen. rewrite length_insert. apply S.
  - apply Forall2_insert; [apply S|done].
  - rewrite A, (sr_allocated _ _ S). symmetry. by apply zsum_fmap_insert.
  - rewrite Bc, (sr_buckets _ _ S), u64_replace, (zsum_fmap_insert _ _ _ od) by done. done.
  - rewrite Ov, (sr_overhead _ _ S), u64_replace, (zsum_fmap_insert _ _ _ od) by done. done.
  - intros i. destruct (decide (i = didx)) as [->|Ne].
    + rewrite Me. unfold kvstoreGetDict. rewrite Ds. zdec. rewrite list_lookup_insert_eq by done. naive_solver.
    + rewrite Ot, (sr_rehashing _ _ S) by done. unfold kvstoreGetDict. rewrite Ds. destruct (Z.ltb_spec i 0); [naive_solver|].
      by rewrite list_lookup_insert_ne by lia.
Qed.

Lemma structure_listed kvs ms didx od : structure kvs ms -> kvstoreGetDict kvs didx = Some od -> listed kvs didx (rehashing_of od).
Proof. intros S G. split; [apply S|]. rewrite (sr_rehashing _ _ S). rewrite G. naive_solver. Qed.

Lemma structure_ranged kvs ms : structure kvs ms -> ranged kvs.
Proof. intros S. split; [rewrite (sr_buckets _ _ S)|rewrite (sr_overhead _ _ S)]; apply u64_range. Qed.

(** What the callbacks of a dictionary do to the store. *)
Lemma callbacks_spec kvs ms didx d d' r o b : structure kvs ms -> kvstoreGetDict kvs didx = Some (Some d) -> wf type d ->
  told d `prefix_of` told d' -> heard (told d') = Some (r, o, b) -> forall kvs0, kvs_rehashing kvs0 = kvs_rehashing kvs ->
  bucket_count kvs0 = bucket_count kvs -> overhead_hashtable_rehashing kvs0 = overhead_hashtable_rehashing kvs ->
  let kvs' := callbacks false didx d d' kvs0 in
  same_store kvs0 kvs' /\ listed kvs' didx r /\ (forall i, i <> didx -> i ∈ kvs_rehashing kvs' <-> i ∈ kvs_rehashing kvs) /\
  bucket_count kvs' = u64 (bucket_count kvs - dictBuckets d + b) /\
  overhead_hashtable_rehashing kvs' = u64 (overhead_hashtable_rehashing kvs - overhead_of (Some d) + o).
Proof.
  intros S G W [ev Ev] Hd kvs0 Er Eb Eo. unfold callbacks. rewrite Ev, drop_app_length. set (kvs' := foldl _ kvs0 ev). unfold heard in Hd. rewrite Ev, foldl_app in Hd.
  fold (heard (told d)) in Hd. rewrite (w_told _ _ W) in Hd. unfold account in Hd. pose proof (structure_listed _ _ _ _ S G) as [L1 L2]. cbn [rehashing_of] in L2.
  destruct (callbacks_run didx ev kvs0 _ _ _ _ _ _ (Build_listed _ _ _ ltac:(by rewrite Er) ltac:(by rewrite Er)) Hd) as (Ss & Ls & Mb & Bc & Ov).
  destruct (callbacks_ranged false didx ev kvs0) as [Rb Ro]; [unfold ranged; rewrite Eb, Eo; by eapply structure_ranged|]. fold kvs' in Ss, Ls, Mb, Bc, Ov, Rb, Ro.
  rewrite (u64_small _ Rb), Eb in Bc. rewrite (u64_small _ Ro), Eo in Ov. split_and!; [done|done|by rewrite <- Er| |].
  - rewrite Bc. f_equal. lia.
  - rewrite Ov. cbn [overhead_of]. f_equal. lia.
Qed.

(** The counts of keys are left alone. *)
Record same_counts kvs kvs' : Prop := {
  sc_flags : kvs_flags kvs' = kvs_flags kvs;
  sc_num : num_dicts kvs' = num_dicts kvs;
  sc_bits : num_dicts_bits kvs' = num_dicts_bits kvs;
  sc_non_empty : non_empty_dicts kvs' = non_empty_dicts kvs;
  sc_keys : key_count kvs' = key_count kvs;
  sc_sizes : dict_sizes kvs' = dict_sizes kvs
}.

Lemma same_counts_refl kvs : same_counts kvs kvs.
Proof. by split. Qed.

Lemma same_counts_trans kvs1 kvs2 kvs3 : same_counts kvs1 kvs2 -> same_counts kvs2 kvs3 -> same_counts kvs1 kvs3.
Proof. intros [] []. split; congruence. Qed.

Lemma same_store_counts kvs kvs' : same_store kvs kvs' -> same_counts kvs kvs'.
Proof. intros []. by split. Qed.

Lemma set_dict_fields kvs didx od : same_counts kvs (set_dict kvs didx od) /\ dicts (set_dict kvs didx od) = <[Z.to_nat didx := od]> (dicts kvs) /\
  resize_cursor (set_dict kvs didx od) = resize_cursor kvs /\ allocated_dicts (set_dict kvs didx od) = allocated_dicts kvs /\
  kvs_rehashing (set_dict kvs didx od) = kvs_rehashing kvs /\ bucket_count (set_dict kvs didx od) = bucket_count kvs /\
  overhead_hashtable_rehashing (set_dict kvs didx od) = overhead_hashtable_rehashing kvs.
Proof. by destruct kvs. Qed.

Lemma get_set kvs kvs' didx od od' : kvstoreGetDict kvs didx = Some od -> dicts kvs' = <[Z.to_nat didx := od']> (dicts kvs) -> kvstoreGetDict kvs' didx = Some od'.
Proof.
  intros G D. destruct (get_dict _ _ _ G) as [P L]. unfold kvstoreGetDict. rewrite D. zdec. apply list_lookup_insert_eq. by eapply lookup_lt_Some.
Qed.

Lemma update_dict_spec kvs ms didx d d' m' : structure kvs ms -> kvstoreGetDict kvs didx = Some (Some d) -> models type d' m' -> told d `prefix_of` told d' ->
  let kvs' := update_dict didx d d' kvs in
  structure kvs' (<[Z.to_nat didx := m']> ms) /\ kvstoreGetDict kvs' didx = Some (Some d') /\ same_counts kvs kvs'.
Proof.
  intros S G M Pf. unfold update_dict. destruct (set_dict_fields kvs didx (Some d')) as (F1 & F2 & F3 & F4 & F5 & F6 & F7). set (kvs0 := set_dict kvs didx (Some d')) in *. clearbody kvs0.
  assert (wf type d) as W.
  { destruct (get_dict _ _ _ G) as [_ L]. destruct (Forall2_lookup_l _ _ _ _ _ (sr_dicts _ _ S) L) as (m & _ & Hm). apply Hm. }
  pose proof (w_told _ _ (md_wf _ _ _ M)) as Hd. unfold account in Hd.
  destruct (callbacks_spec kvs ms didx d d' _ _ _ S G W Pf Hd kvs0 F5 F6 F7) as (Ss & [L1 L2] & Mb & Bc & Ov). set (kvs' := callbacks false didx d d' kvs0) in *. clearbody kvs'.
  assert (dicts kvs' = <[Z.to_nat didx := Some d']> (dicts kvs)) as Ds by (by rewrite (ss_dicts _ _ Ss)).
  pose proof (same_counts_trans _ _ _ F1 (same_store_counts _ _ Ss)) as Sc. split_and!; [|by eapply get_set|done].
  apply (replace_slot kvs kvs' ms didx (Some d) (Some d') m'); try done; [apply Sc|apply Sc|by rewrite (ss_cursor _ _ Ss)|]. rewrite (ss_allocated _ _ Ss), F4. cbn. lia.
Qed.

Lemma allocated_bounds kvs ms : structure kvs ms -> 0 <= zsum (allocated_of <$> dicts kvs) <= num_dicts kvs /\ 1 <= num_dicts kvs <= 2 ^ 16.
Proof.
  intros S. assert (Forall (fun x => 0 <= x <= 1) (allocated_of <$> dicts kvs)) as F by (apply Forall_fmap, Forall_forall; intros [|] _; cbn; lia).
  apply zsum_bound in F. pose proof (sr_length _ _ S) as L. unfold zlen in *. rewrite length_fmap in F.
  assert (1 <= num_dicts kvs <= 2 ^ 16); [|lia]. rewrite (sr_num _ _ S). pose proof (sr_bits _ _ S).
  split; [|apply Z.pow_le_mono_r; lia]. assert (0 < 2 ^ num_dicts_bits kvs) by (apply Z.pow_pos_nonneg; lia). lia.
Qed.

Lemma allocated_count kvs ms : structure kvs ms -> 0 <= allocated_dicts kvs <= 2 ^ 16.
Proof. intros S. destruct (allocated_bounds kvs ms S). rewrite (sr_allocated _ _ S). lia. Qed.

Lemma insert_same ms i m : ms !! i = Some m -> <[i := m]> ms = ms.
Proof. apply list_insert_id. Qed.

Lemma create_dict_spec kvs ms didx : structure kvs ms -> 0 <= didx < num_dicts kvs ->
  exists d kvs' m, createDictIfNeeded kvs didx = Some (d, kvs') /\ structure kvs' ms /\ kvstoreGetDict kvs' didx = Some (Some d) /\ same_counts kvs kvs' /\
    ms !! Z.to_nat didx = Some m /\ models type d m.
Proof.
  intros S R. destruct (structure_slot kvs ms didx S R) as (od & m & G & Hm & Hh). unfold createDictIfNeeded. rewrite G. cbn [mbind option_bind]. destruct od as [d|].
  { exists d, kvs, m. by split_and!. }
  cbn in Hh. subst m. destruct (set_dict_fields kvs didx (Some dictCreate)) as (F1 & F2 & F3 & F4 & F5 & F6 & F7). eexists _, _, ∅. split; [reflexivity|].
  match goal with |- structure ?x _ /\ _ => set (kvs' := x) end. assert (dicts kvs' = <[Z.to_nat didx := Some dictCreate]> (dicts kvs)) as D by (by destruct kvs).
  assert (same_counts kvs kvs') as Sc by (by destruct kvs). pose proof (allocated_count _ _ S).
  split_and!; [|by eapply get_set|done|done|apply models_create]. rewrite <- (insert_same ms _ ∅ Hm).
  apply (replace_slot kvs kvs' ms didx None (Some dictCreate) ∅); try done; try (by destruct kvs); try (by apply (models_create type)).
  - change (allocated_dicts kvs') with (i32 (allocated_dicts kvs + 1)). rewrite i32_small by (unfold is_i32; lia). cbn. lia.
  - rewrite (sr_buckets _ _ S). change (bucket_count kvs') with (bucket_count kvs). rewrite (sr_buckets _ _ S). cbn. change (dictBuckets dictCreate) with 0. by rewrite !Z.sub_0_r, !Z.add_0_r, u64_twice.
  - change (overhead_hashtable_rehashing kvs') with (overhead_hashtable_rehashing kvs). rewrite (sr_overhead _ _ S). cbn. by rewrite !Z.sub_0_r, !Z.add_0_r, u64_twice.
  - change (kvs_rehashing kvs') with (kvs_rehashing kvs). apply S.
  - change (kvs_rehashing kvs') with (kvs_rehashing kvs). rewrite (sr_rehashing _ _ S), G. cbn. naive_solver.
Qed.

(** ** The counts of keys *)

Definition msize m : Z := Z.of_nat (base.size m).
Definition sizes ms : list Z := msize <$> ms.
Definition non_empty (s : Z) : Z := if s =? 0 then 0 else 1.

Record counted kvs (sz : list Z) : Prop := {
  ct_length : zlen sz = num_dicts kvs;
  ct_num : 1 <= num_dicts kvs <= 2 ^ 16;
  ct_nonneg : Forall (fun x => 0 <= x) sz;
  ct_total : zsum sz < 2 ^ 62;
  ct_keys : key_count kvs = zsum sz;
  ct_non_empty : non_empty_dicts kvs = zsum (non_empty <$> sz);
  ct_tree : if num_dicts kvs =? 1 then dict_sizes kvs = None else exists ft, dict_sizes kvs = Some ft /\ fw_ok ft sz
}.

Lemma counted_same kvs kvs' sz : same_counts kvs kvs' -> counted kvs sz -> counted kvs' sz.
Proof. intros [F1 F2 F3 F4 F5 F6] []. split; rewrite ?F2, ?F4, ?F5, ?F6; done. Qed.

Lemma non_empty_bounds sz : 0 <= zsum (non_empty <$> sz) <= zlen sz.
Proof.
  assert (Forall (fun x => 0 <= x <= 1) (non_empty <$> sz)) as F by (apply Forall_fmap, Forall_forall; intros x _; unfold non_empty, compose; destruct (x =? 0); lia).
  apply zsum_bound in F. unfold zlen in *. rewrite length_fmap in F. lia.
Qed.

Lemma size_le_total sz i s : Forall (fun x => 0 <= x) sz -> sz !! i = Some s -> 0 <= s <= zsum sz.
Proof.
  intros F Hs. pose proof (zsum_nonneg _ F). pose proof (Forall_lookup_1 _ _ _ _ F Hs). cbn in *.
  assert (0 <= zsum (<[i := 0]> sz)) as P by (apply zsum_nonneg, Forall_insert; [done|lia]). rewrite (zsum_insert _ _ s) in P by done. lia.
Qed.

Lemma add_at_insert sz didx delta s : sz !! Z.to_nat didx = Some s -> add_at didx delta sz = <[Z.to_nat didx := s + delta]> sz.
Proof.
  unfold add_at. generalize (Z.to_nat didx) as i. induction sz as [|x sz IH]; intros [|i] Hs; simplify_eq/=; [done|]. by rewrite IH.
Qed.

(** The counts but that of the dictionaries with keys. *)
Record totals kvs (sz : list Z) : Prop := {
  tt_length : zlen sz = num_dicts kvs;
  tt_num : 1 <= num_dicts kvs <= 2 ^ 16;
  tt_nonneg : Forall (fun x => 0 <= x) sz;
  tt_total : zsum sz < 2 ^ 62;
  tt_keys : key_count kvs = zsum sz;
  tt_tree : if num_dicts kvs =? 1 then dict_sizes kvs = None else exists ft, dict_sizes kvs = Some ft /\ fw_ok ft sz
}.

Lemma counted_totals kvs sz : counted kvs sz <-> totals kvs sz /\ non_empty_dicts kvs = zsum (non_empty <$> sz).
Proof. split; [intros []; split; [by split|done]|intros [[] ?]; by split]. Qed.

Lemma totals_same kvs kvs' sz : same_counts kvs kvs' -> totals kvs sz -> totals kvs' sz.
Proof. intros [F1 F2 F3 F4 F5 F6] []. split; rewrite ?F2, ?F5, ?F6; done. Qed.

(** Everything but the counts of keys is left alone. *)
Record same_shape kvs kvs' : Prop := {
  sh_flags : kvs_flags kvs' = kvs_flags kvs;
  sh_dicts : dicts kvs' = dicts kvs;
  sh_num : num_dicts kvs' = num_dicts kvs;
  sh_bits : num_dicts_bits kvs' = num_dicts_bits kvs;
  sh_rehashing : kvs_rehashing kvs' = kvs_rehashing kvs;
  sh_cursor : resize_cursor kvs' = resize_cursor kvs;
  sh_allocated : allocated_dicts kvs' = allocated_dicts kvs;
  sh_buckets : bucket_count kvs' = bucket_count kvs;
  sh_overhead : overhead_hashtable_rehashing kvs' = overhead_hashtable_rehashing kvs
}.

Lemma shape_get kvs kvs' didx : same_shape kvs kvs' -> kvstoreGetDict kvs' didx = kvstoreGetDict kvs didx.
Proof. intros Sh. unfold kvstoreGetDict. by rewrite (sh_dicts _ _ Sh). Qed.

Lemma shape_structure kvs kvs' ms : same_shape kvs kvs' -> structure kvs ms -> structure kvs' ms.
Proof.
  intros Sh S. pose proof (fun i => shape_get _ _ i Sh) as G. destruct Sh as [F1 F2 F3 F4 F5 F6 F7 F8 F9]. destruct S. split; rewrite ?F2, ?F3, ?F4, ?F5, ?F6, ?F7, ?F8, ?F9; try done.
  intros i. by rewrite G.
Qed.

(** What the count of the dictionaries with keys changes by. *)
Definition non_empty_delta (dsize delta : Z) : Z := if (dsize =? 1) && (delta >? 0) then 1 else if dsize =? 0 then -1 else 0.

(** Keys more or less in a dictionary. *)
Lemma count_add kvs sz didx d s delta : totals kvs sz -> kvstoreGetDict kvs didx = Some (Some d) -> sz !! Z.to_nat didx = Some s ->
  0 <= s + delta -> zsum sz + delta < 2 ^ 62 ->
  exists kvs', cumulativeKeyCountAdd kvs didx delta = Some kvs' /\ same_shape kvs kvs' /\ totals kvs' (<[Z.to_nat didx := s + delta]> sz) /\
    non_empty_dicts kvs' = i32 (non_empty_dicts kvs + non_empty_delta (dictSize d) delta).
Proof.
  intros [C1 C2 C3 C4 C5 C7] G Hs P L. pose proof (size_le_total _ _ _ C3 Hs) as Sb. pose proof (zsum_insert _ _ s (s + delta) Hs) as Zs.
  assert (Forall (fun x => 0 <= x) (<[Z.to_nat didx := s + delta]> sz)) as Fn by (by apply Forall_insert). pose proof (zsum_nonneg _ Fn) as Zn.
  unfold cumulativeKeyCountAdd. set (kvs1 := kvs <| key_count := _ |>). assert (kvstoreGetDict kvs1 didx = Some (Some d)) as -> by (by destruct kvs). cbn [mbind option_bind].
  fold (non_empty_delta (dictSize d) delta). set (kvs2 := kvs1 <| non_empty_dicts := _ |>).
  assert (key_count kvs2 = zsum (<[Z.to_nat didx := s + delta]> sz)) as K2.
  { change (key_count kvs2) with (u64 (key_count kvs + delta)). rewrite C5, u64_small; [lia|]. unfold is_u64. lia. }
  assert (same_shape kvs kvs2 /\ dict_sizes kvs2 = dict_sizes kvs /\ non_empty_dicts kvs2 = i32 (non_empty_dicts kvs + non_empty_delta (dictSize d) delta)) as (Sh & Q2 & N2) by (by destruct kvs).
  clearbody kvs2. pose proof (sh_num _ _ Sh) as Q1. rewrite Q1, Q2. destruct (Z.eqb_spec (num_dicts kvs) 1) as [E1|N1].
  { exists kvs2. split; [done|]. split; [done|]. split; [|done]. split; rewrite ?Q1, ?Q2; try done; try lia; [unfold zlen; rewrite length_insert; done|]. by rewrite (proj2 (Z.eqb_eq _ _) E1). }
  destruct C7 as (ft & Et & Of). rewrite Et. destruct (get_dict _ _ _ G) as [Pi Li]. pose proof (lookup_lt_Some _ _ _ Hs) as Lt.
  destruct (update_spec ft sz didx delta s Of) as (ft' & -> & Of'); [unfold is_i64; lia|rewrite <- (fw_len _ _ Of); unfold zlen; lia|done|done|lia|]. cbn [mbind option_bind].
  rewrite (add_at_insert _ _ _ s Hs) in Of'. eexists. split; [reflexivity|]. match goal with |- same_shape _ ?x /\ _ => set (kvs' := x) end.
  assert (same_shape kvs2 kvs' /\ key_count kvs' = key_count kvs2 /\ non_empty_dicts kvs' = non_empty_dicts kvs2 /\ dict_sizes kvs' = Some ft') as (Sh' & X2 & X3 & X4) by (by destruct kvs2).
  clearbody kvs'. assert (num_dicts kvs' = num_dicts kvs) as X1 by (by rewrite (sh_num _ _ Sh')). split; [destruct Sh, Sh'; split; congruence|]. split; [|by rewrite X3].
  split; rewrite ?X1, ?X2, ?X4; try done; [unfold zlen; by rewrite length_insert|lia|]. destruct (Z.eqb_spec (num_dicts kvs) 1); [done|]. by exists ft'.
Qed.

(** One key more or less in a dictionary that has already changed. *)
Lemma count_spec kvs ms sz didx d s delta : structure kvs ms -> counted kvs sz -> kvstoreGetDict kvs didx = Some (Some d) -> sz !! Z.to_nat didx = Some s ->
  dictSize d = s + delta -> delta = 1 \/ delta = -1 -> 0 <= s + delta -> zsum sz + delta < 2 ^ 62 ->
  exists kvs', cumulativeKeyCountAdd kvs didx delta = Some kvs' /\ structure kvs' ms /\ counted kvs' (<[Z.to_nat didx := s + delta]> sz) /\
    kvstoreGetDict kvs' didx = Some (Some d) /\ kvs_flags kvs' = kvs_flags kvs /\ num_dicts kvs' = num_dicts kvs /\ num_dicts_bits kvs' = num_dicts_bits kvs.
Proof.
  intros S C G Hs Hd Dl P L. pose proof C as [T N]%counted_totals. destruct (count_add kvs sz didx d s delta T G Hs P L) as (kvs' & E & Sh & T' & N'). exists kvs'.
  split_and!; [done|by eapply shape_structure| |by rewrite (shape_get _ _ _ Sh)|apply Sh|apply Sh|apply Sh]. apply counted_totals. split; [done|]. rewrite N', N, Hd.
  pose proof (zsum_fmap_insert non_empty sz _ s (s + delta) Hs) as Zne. pose proof (non_empty_bounds (<[Z.to_nat didx := s + delta]> sz)) as Nb.
  unfold zlen in Nb. rewrite length_insert in Nb. pose proof (tt_num _ _ T). pose proof (tt_length _ _ T) as Tl. unfold zlen in Tl. pose proof (size_le_total _ _ _ (tt_nonneg _ _ T) Hs).
  assert (non_empty_delta (s + delta) delta = non_empty (s + delta) - non_empty s) as ->.
  { unfold non_empty_delta, non_empty. destruct Dl as [-> | ->]; cbn [Z.gtb Z.compare]; rewrite ?andb_true_r, ?andb_false_r; repeat case_match; lia. }
  rewrite i32_small by (unfold is_i32; lia). lia.
Qed.

(** ** Freeing an empty dictionary *)

Variable canFreeDict : kvstore K V -> Z -> bool.

Hypothesis hash_range : forall k, is_u64 (hashFunction type k).

Lemma release_spec d : wf type d -> told d `prefix_of` told (dictRelease d).2 /\ heard (told (dictRelease d).2) = Some (false, 0, 0).
Proof.
  intros W. unfold dictRelease. cbn [snd]. pose proof (w_told _ _ W) as T. unfold account in T. destruct (dictIsRehashing d).
  - split; [destruct d; cbn; rewrite <- app_assoc; by apply prefix_app_r|]. rewrite !heard_tell, T.
    assert (dictBuckets (tell [RehashingCompleted (DICTHT_SIZE (ht_size_exp (ht0 d)))] d) = dictBuckets d) as -> by (by destruct d). cbn. repeat f_equal; lia.
  - split; [destruct d; by apply prefix_app_r|]. rewrite heard_tell, T. cbn. repeat f_equal; lia.
Qed.

Lemma empty_models d m : models type d m -> dictSize d = 0 -> m = ∅.
Proof. intros M Z0. apply map_empty. intros k. by apply (empty_no_keys type hash_range d m k M). Qed.

Lemma free_spec kvs ms didx : structure kvs ms -> 0 <= didx < num_dicts kvs ->
  exists kvs', freeDictIfNeeded canFreeDict kvs didx = Some kvs' /\ structure kvs' ms /\ same_counts kvs kvs'.
Proof.
  intros S R. destruct (structure_slot kvs ms didx S R) as (od & m & G & Hm & Hh). unfold freeDictIfNeeded. rewrite G. cbn [mbind option_bind].
  destruct od as [d|]; [|exists kvs; by split_and!]. destruct (_ || _ || _) eqn:Gd; [exists kvs; by split_and!|].
  destruct (negb (canFreeDict kvs didx)); [exists kvs; by split_and!|]. apply orb_false_iff in Gd as [Gd _]. apply orb_false_iff in Gd as [_ Gd%negb_false_iff%Z.eqb_eq].
  cbn in Hh. pose proof (empty_models d m Hh Gd) as ->. destruct (release_spec d (md_wf _ _ _ Hh)) as [Pf Hd].
  destruct (callbacks_spec kvs ms didx d _ _ _ _ S G (md_wf _ _ _ Hh) Pf Hd kvs eq_refl eq_refl eq_refl) as (Ss & [L1 L2] & Mb & Bc & Ov).
  set (kvs1 := callbacks false didx d (dictRelease d).2 kvs) in *. clearbody kvs1. eexists. split; [reflexivity|].
  match goal with |- structure ?x _ /\ _ => set (kvs' := x) end. pose proof (allocated_count _ _ S). pose proof (ss_allocated _ _ Ss) as Al.
  assert (allocated_dicts kvs' = i32 (allocated_dicts kvs1 - 1) /\ dicts kvs' = <[Z.to_nat didx := None]> (dicts kvs1) /\ same_counts kvs1 kvs' /\ resize_cursor kvs' = resize_cursor kvs1 /\
    kvs_rehashing kvs' = kvs_rehashing kvs1 /\ bucket_count kvs' = bucket_count kvs1 /\ overhead_hashtable_rehashing kvs' = overhead_hashtable_rehashing kvs1)
    as (Q1 & Q2 & Q3 & Q4 & Q5 & Q6 & Q7) by (by destruct kvs1).
  clearbody kvs'. pose proof (same_counts_trans _ _ _ (same_store_counts _ _ Ss) Q3) as Sc. split; [|done]. rewrite <- (insert_same ms _ ∅ Hm).
  destruct (get_dict _ _ _ G) as [_ Lk]. assert (1 <= allocated_dicts kvs) as A1.
  { rewrite (sr_allocated _ _ S). apply (size_le_total _ (Z.to_nat didx) 1); [apply Forall_fmap, Forall_forall; intros [|] _; cbn; lia|]. by rewrite list_lookup_fmap, Lk. }
  apply (replace_slot kvs kvs' ms didx (Some d) None ∅); rewrite ?Q4, ?Q5, ?Q6, ?Q7; try done.
  - by rewrite Q2, (ss_dicts _ _ Ss).
  - apply Sc.
  - apply Sc.
  - apply Ss.
  - rewrite Q1, Al, i32_small by (unfold is_i32; lia). cbn. lia.
Qed.

Record store_ok kvs ms : Prop := {
  so_structure : structure kvs ms;
  so_counted : counted kvs (sizes ms)
}.

Lemma sizes_lookup ms i m : ms !! i = Some m -> sizes ms !! i = Some (msize m).
Proof. intros Hm. unfold sizes. by rewrite list_lookup_fmap, Hm. Qed.

Lemma sizes_insert ms i m : sizes (<[i := m]> ms) = <[i := msize m]> (sizes ms).
Proof. apply list_fmap_insert. Qed.

(** An operation on a dictionary that keeps the number of its keys. *)
Lemma store_update kvs ms didx d d' m m' : store_ok kvs ms -> kvstoreGetDict kvs didx = Some (Some d) -> ms !! Z.to_nat didx = Some m -> models type d' m' ->
  msize m' = msize m -> told d `prefix_of` told d' ->
  store_ok (update_dict didx d d' kvs) (<[Z.to_nat didx := m']> ms) /\ kvstoreGetDict (update_dict didx d d' kvs) didx = Some (Some d').
Proof.
  intros [S C] G Hm M Sz Pf. destruct (update_dict_spec kvs ms didx d d' m' S G M Pf) as (S' & G' & Sc). split; [|done]. split; [done|].
  rewrite sizes_insert, Sz, list_insert_id by (by apply sizes_lookup). by eapply counted_same.
Qed.

Lemma store_keep kvs ms didx d d' m : store_ok kvs ms -> kvstoreGetDict kvs didx = Some (Some d) -> ms !! Z.to_nat didx = Some m -> models type d' m -> told d `prefix_of` told d' ->
  store_ok (update_dict didx d d' kvs) ms /\ kvstoreGetDict (update_dict didx d d' kvs) didx = Some (Some d').
Proof. intros S G Hm M Pf. destruct (store_update kvs ms didx d d' m m S G Hm M eq_refl Pf) as [S' G']. by rewrite (insert_same _ _ _ Hm) in S'. Qed.

(** One that adds or removes a key, with the count that follows. *)
Lemma store_count kvs ms didx d d' m m' delta : store_ok kvs ms -> kvstoreGetDict kvs didx = Some (Some d) -> ms !! Z.to_nat didx = Some m -> models type d' m' ->
  msize m' = msize m + delta -> delta = 1 \/ delta = -1 -> zsum (sizes ms) + delta < 2 ^ 62 -> told d `prefix_of` told d' ->
  exists kvs', cumulativeKeyCountAdd (update_dict didx d d' kvs) didx delta = Some kvs' /\ store_ok kvs' (<[Z.to_nat didx := m']> ms) /\
    kvstoreGetDict kvs' didx = Some (Some d') /\ num_dicts kvs' = num_dicts kvs.
Proof.
  intros [S C] G Hm M Sz Dl L Pf. destruct (update_dict_spec kvs ms didx d d' m' S G M Pf) as (S' & G' & Sc).
  destruct (count_spec _ _ (sizes ms) didx d' (msize m) delta S' (counted_same _ _ _ Sc C) G') as (kvs' & E & S2 & C2 & G2 & F2 & N2 & B2).
  - by apply sizes_lookup.
  - rewrite (size_spec type), (models_size type d' m' M) by apply M. by rewrite <- Sz.
  - done.
  - rewrite <- Sz. unfold msize. lia.
  - done.
  - exists kvs'. split_and!; [done| |done|rewrite N2; apply Sc]. split; [done|]. by rewrite sizes_insert, Sz.
Qed.

(** ** Operations *)

Lemma slot_range kvs didx od : kvstoreGetDict kvs didx = Some od -> 0 <= didx < zlen (dicts kvs).
Proof. intros G. apply get_dict in G as [P L]. apply lookup_lt_Some in L. unfold zlen. lia. Qed.

Lemma map_range kvs ms didx m : structure kvs ms -> 0 <= didx -> ms !! Z.to_nat didx = Some m -> 0 <= didx < num_dicts kvs.
Proof.
  intros S P Hm. pose proof (Forall2_length _ _ _ (sr_dicts _ _ S)) as L. pose proof (sr_length _ _ S) as Ln. apply lookup_lt_Some in Hm. unfold zlen in Ln. lia.
Qed.

(** What is in the slot of a map. *)
Lemma store_slot kvs ms didx m : store_ok kvs ms -> 0 <= didx -> ms !! Z.to_nat didx = Some m ->
  exists od, kvstoreGetDict kvs didx = Some od /\ holds od m /\ 0 <= didx < num_dicts kvs.
Proof.
  intros [S _] P Hm. pose proof (map_range _ _ _ _ S P Hm) as R. destruct (structure_slot kvs ms didx S R) as (od & m' & G & Hm' & Hh).
  rewrite Hm in Hm'. injection Hm' as <-. by exists od.
Qed.

Lemma store_create kvs ms didx m : store_ok kvs ms -> 0 <= didx -> ms !! Z.to_nat didx = Some m ->
  exists d kvs', createDictIfNeeded kvs didx = Some (d, kvs') /\ store_ok kvs' ms /\ kvstoreGetDict kvs' didx = Some (Some d) /\ models type d m /\
    (kvstoreGetDict kvs didx = Some (Some d) \/ (kvstoreGetDict kvs didx = Some None /\ d = dictCreate)).
Proof.
  intros St P Hm. destruct (store_slot _ _ _ _ St P Hm) as (od & G & Hh & R). destruct St as [S C].
  destruct (create_dict_spec kvs ms didx S R) as (d & kvs' & m' & E & S' & G' & Sc & Hm' & M). exists d, kvs'. rewrite Hm in Hm'. injection Hm' as <-.
  split_and!; try done; [split; [done|by eapply counted_same]|]. unfold createDictIfNeeded in E. rewrite G in E. cbn [mbind option_bind] in E.
  destruct od as [d0|]; injection E as <- <-; auto.
Qed.

Lemma store_free kvs ms didx : store_ok kvs ms -> 0 <= didx < num_dicts kvs -> exists kvs', freeDictIfNeeded canFreeDict kvs didx = Some kvs' /\ store_ok kvs' ms.
Proof.
  intros [S C] R. destruct (free_spec kvs ms didx S R) as (kvs' & E & S' & Sc). exists kvs'. split; [done|]. split; [done|]. by eapply counted_same.
Qed.

Lemma msize_insert_new m k v : m !! k = None -> msize (<[k := v]> m) = msize m + 1.
Proof. intros N. unfold msize. rewrite map_size_insert_None by done. lia. Qed.

Lemma msize_insert_old m k v v0 : m !! k = Some v0 -> msize (<[k := v]> m) = msize m.
Proof. intros N. unfold msize. by rewrite map_size_insert_Some. Qed.

Lemma msize_delete m k v : m !! k = Some v -> msize (delete k m) = msize m + -1.
Proof. intros N. unfold msize. rewrite map_size_delete, N. destruct (base.size m) eqn:E; [|cbn; lia]. apply map_size_empty_inv in E. by rewrite E in N. Qed.

Definition room ms : Prop := zsum (sizes ms) + 1 < 2 ^ 62.

Lemma dict_room kvs ms didx d m : store_ok kvs ms -> ms !! Z.to_nat didx = Some m -> models type d m -> room ms -> zlen (entries d) + 1 < 2 ^ 62.
Proof.
  intros [_ C] Hm M R. rewrite (models_size type d m M). fold (msize m). pose proof (size_le_total _ _ _ (ct_nonneg _ _ C) (sizes_lookup _ _ _ Hm)). unfold room in R. lia.
Qed.

(** Adding a key that is not there, with its value. *)
Definition add_key can g kvs (didx : Z) (k : K) (v : V) : option (bool * kvstore K V) :=
  '(r, kvs) ← kvstoreDictAddRaw type can g kvs didx k;
  match r with
  | inl _ => Some (false, kvs)
  | inr l => kvs ← kvstoreDictSetVal kvs didx l v; Some (true, kvs)
  end.

Lemma add_key_spec can g kvs ms didx k v m : store_ok kvs ms -> room ms -> 0 <= didx -> ms !! Z.to_nat didx = Some m ->
  exists kvs', add_key can g kvs didx k v = Some (bool_decide (m !! k = None), kvs') /\
    store_ok kvs' (if bool_decide (m !! k = None) then <[Z.to_nat didx := <[k := v]> m]> ms else ms).
Proof.
  intros St Rm P Hm. unfold add_key, kvstoreDictAddRaw. destruct (store_create kvs ms didx m St P Hm) as (d & kvs1 & -> & St1 & G1 & M & _). cbn [mbind option_bind].
  destruct (add_raw_spec type hash_range can g d k (md_wf _ _ _ M) (md_can _ _ _ M) (dict_room _ _ _ _ _ St1 Hm M Rm)) as (r & d1 & -> & W1 & [_ Pf] & O1 & Hr). cbn [mbind option_bind].
  destruct r as [l|l].
  - destruct Hr as [(v0 & c & Lk) Pm]. apply (linked_entries _ hash_range) in Lk. rewrite Pm in Lk. rewrite (models_some type d m k v0 M Lk), bool_decide_eq_false_2 by done.
    eexists. split; [reflexivity|]. eapply store_keep; try done. eapply models_perm; [done|done|by right|done].
  - destruct Hr as ([c Lk] & Pm & N). rewrite (models_none type d m k M N), bool_decide_eq_true_2 by done. pose proof (models_none type d m k M N) as Nm.
    assert (models type d1 (<[k := g]> m)) as M1 by (eapply models_insert; [done|done|by right|done]).
    destruct (store_count kvs1 ms didx d d1 m (<[k := g]> m) 1 St1 G1 Hm M1 (msize_insert_new _ _ _ Nm) ltac:(by left) Rm Pf) as (kvs2 & -> & St2 & G2 & _). cbn [mbind option_bind].
    unfold kvstoreDictSetVal. rewrite G2. cbn [mbind option_bind]. destruct (set_val_spec type hash_range d1 l k g c v W1 Lk) as (d2 & rest & -> & W2 & [_ Pf2] & O2 & P1 & P2).
    cbn [mbind option_bind]. eexists. split; [reflexivity|].
    destruct (models_overwrite type d1 d2 (<[k := g]> m) k v g rest M1 W2 ltac:(by right) P1 P2) as [M2 _]. rewrite insert_insert_eq in M2.
    destruct (store_update kvs2 _ didx d1 d2 (<[k := g]> m) (<[k := v]> m) St2 G2) as [St3 _]; try done.
    + apply list_lookup_insert_eq. by eapply lookup_lt_Some.
    + by rewrite !msize_insert_new.
    + by rewrite list_insert_insert_eq in St3.
Qed.

(** The caller's pattern around a link. *)
Definition set_key can kvs (didx : Z) (k : K) (v : V) : option (bool * kvstore K V) :=
  '(l, b, kvs) ← kvstoreDictFindLink type can kvs didx k;
  match l with
  | Some l => kvs ← kvstoreDictSetVal kvs didx l v; Some (false, kvs)
  | None => kvs ← kvstoreDictSetAtLink_new type can kvs didx k v b; Some (true, kvs)
  end.

Lemma set_at_link_spec can kvs ms didx k v m b : store_ok kvs ms -> room ms -> 0 <= didx -> ms !! Z.to_nat didx = Some m -> m !! k = None ->
  (forall d l, kvstoreGetDict kvs didx = Some (Some d) -> b = Some l -> link_for type d k l) -> (kvstoreGetDict kvs didx = Some None -> b = None) ->
  exists kvs', kvstoreDictSetAtLink_new type can kvs didx k v b = Some kvs' /\ store_ok kvs' (<[Z.to_nat didx := <[k := v]> m]> ms).
Proof.
  intros St Rm P Hm N Lb Ln. unfold kvstoreDictSetAtLink_new. destruct (store_create kvs ms didx m St P Hm) as (d & kvs1 & -> & St1 & G1 & M & Or). cbn [mbind option_bind].
  assert (k ∉ (entries d).*1) as Nk.
  { intros He. apply list_elem_of_fmap in He as ([k' v'] & -> & He). cbn in N. by rewrite (models_some type d m k' v' M He) in N. }
  destruct (set_key_at_link_spec type hash_range can d k v b (md_wf _ _ _ M) Nk (dict_room _ _ _ _ _ St1 Hm M Rm)) as (d' & -> & W' & C' & Pf & Pm).
  { intros l ->. destruct Or as [G|[G _]]; [by eapply Lb|by specialize (Ln G)]. }
  cbn [mbind option_bind]. assert (models type d' (<[k := v]> m)) as M' by (by eapply models_insert).
  destruct (store_count kvs1 ms didx d d' m _ 1 St1 G1 Hm M' (msize_insert_new _ _ _ N) ltac:(by left) Rm Pf) as (kvs2 & -> & St2 & _). by exists kvs2.
Qed.

Lemma set_key_spec can kvs ms didx k v m : store_ok kvs ms -> room ms -> 0 <= didx -> ms !! Z.to_nat didx = Some m ->
  exists kvs', set_key can kvs didx k v = Some (bool_decide (m !! k = None), kvs') /\ store_ok kvs' (<[Z.to_nat didx := <[k := v]> m]> ms).
Proof.
  intros St Rm P Hm. unfold set_key, kvstoreDictFindLink. destruct (store_slot _ _ _ _ St P Hm) as (od & G & Hh & R). rewrite G. cbn [mbind option_bind]. destruct od as [d|].
  - assert (exists l b d1, dictFindLink type can d k = Some (l, b, d1) /\ reorganised type d d1 /\
      match l with Some l => exists v0 c, linked type d1 l k v0 c | None => k ∉ (entries d1).*1 /\ forall p, b = Some p -> link_for type d1 k p end) as (l & b & d1 & -> & Ro & Hl).
    { unfold dictFindLink. destruct (Z.eqb_spec (dictSize d) 0) as [Z0|Nz].
      - exists None, None, d. split_and!; [done|apply reorganised_refl, Hh| |done]. rewrite (size_spec type) in Z0 by apply Hh. destruct (entries d); [set_solver|].
        rewrite zlen_cons in Z0. pose proof (zlen_nonneg l). lia.
      - destruct (find_link_internal_spec type hash_range can d k (md_wf _ _ _ Hh) (table_ok type d (md_wf _ _ _ Hh) Nz)) as (r & b & d1 & -> & Ro & Hr). cbn [mbind option_bind].
        eexists _, _, _. split; [reflexivity|]. split; [done|]. destruct r; [done|]. destruct Hr as [-> Hr]. split; [done|]. by intros p [= <-]. }
    cbn [mbind option_bind]. pose proof (models_reorganised type d d1 m Hh Ro) as M1. destruct (store_keep kvs ms didx d d1 m St G Hm M1) as [St1 G1]; [apply Ro|]. destruct l as [l|].
    + destruct Hl as (v0 & c & Lk). unfold kvstoreDictSetVal. rewrite G1. cbn [mbind option_bind].
      destruct (set_val_spec type hash_range d1 l k v0 c v (md_wf _ _ _ M1) Lk) as (d2 & rest & -> & W2 & [_ Pf2] & O2 & P1 & P2). cbn [mbind option_bind].
      destruct (models_overwrite type d1 d2 m k v v0 rest M1 W2 ltac:(by right) P1 P2) as [M2 Hk]. rewrite Hk, bool_decide_eq_false_2 by done.
      eexists. split; [reflexivity|]. eapply store_update; try done. by eapply msize_insert_old.
    + destruct Hl as [Nk Lb]. pose proof (models_none type d1 m k M1 Nk) as N. rewrite N, bool_decide_eq_true_2 by done.
      destruct (set_at_link_spec can (update_dict didx d d1 kvs) ms didx k v m b St1 Rm P Hm N) as (kvs' & -> & St'); [|by rewrite G1|by exists kvs'].
      intros d2 p G2 Eb. rewrite G1 in G2. injection G2 as <-. by apply Lb.
  - cbn in Hh. subst m. rewrite bool_decide_eq_true_2 by done. cbn [mbind option_bind].
    destruct (set_at_link_spec can kvs ms didx k v ∅ None St Rm P Hm) as (kvs' & -> & St'); [done|done|done|by exists kvs'].
Qed.

Lemma delete_key_spec can kvs ms didx k m : store_ok kvs ms -> 0 <= didx -> ms !! Z.to_nat didx = Some m ->
  exists kvs', kvstoreDictDelete type canFreeDict can kvs didx k = Some (pair k <$> m !! k, kvs') /\ store_ok kvs' (<[Z.to_nat didx := delete k m]> ms).
Proof.
  intros St P Hm. unfold kvstoreDictDelete. destruct (store_slot _ _ _ _ St P Hm) as (od & G & Hh & R). rewrite G. cbn [mbind option_bind]. destruct od as [d|].
  - destruct (delete_spec type hash_range can d k (md_wf _ _ _ Hh)) as (r & d' & -> & W' & C' & [_ Pf] & E). specialize (C' (md_can _ _ _ Hh)). cbn [mbind option_bind].
    destruct r as [[k' v]|]; destruct E as [E I].
    + cbn in E. subst k'. destruct (models_delete type d d' m k v Hh W' C' I) as [M' Hk]. rewrite Hk. pose proof (ct_total _ _ (so_counted _ _ St)).
      destruct (store_count kvs ms didx d d' m _ (-1) St G Hm M' (msize_delete _ _ _ Hk) ltac:(by right) ltac:(lia) Pf) as (kvs2 & -> & St2 & _ & N2). cbn [mbind option_bind].
      destruct (store_free kvs2 _ didx St2 ltac:(lia)) as (kvs3 & -> & St3). by exists kvs3.
    + rewrite (models_none type d m k Hh I), delete_id, (insert_same _ _ _ Hm) by (by apply (models_none type d m k Hh)). eexists. split; [reflexivity|].
      eapply store_keep; try done. by eapply models_perm.
  - cbn in Hh. subst m. rewrite delete_id, (insert_same _ _ _ Hm) by done. by exists kvs.
Qed.

(** Unlinking in two phases. *)
Definition unlink_key can kvs (didx : Z) (k : K) : option (option (K * V) * kvstore K V) :=
  '(l, kvs) ← kvstoreDictTwoPhaseUnlinkFind type can kvs didx k;
  match l with
  | None => Some (None, kvs)
  | Some l => kvstoreDictTwoPhaseUnlinkFree type canFreeDict can kvs didx (Some l)
  end.

Lemma unlink_key_spec can kvs ms didx k m : store_ok kvs ms -> 0 <= didx -> ms !! Z.to_nat didx = Some m ->
  exists kvs', unlink_key can kvs didx k = Some (pair k <$> m !! k, kvs') /\ store_ok kvs' (<[Z.to_nat didx := delete k m]> ms).
Proof.
  intros St P Hm. unfold unlink_key, kvstoreDictTwoPhaseUnlinkFind. destruct (store_slot _ _ _ _ St P Hm) as (od & G & Hh & R). rewrite G. cbn [mbind option_bind]. destruct od as [d|].
  - destruct (two_phase_find_spec type hash_range can d k (md_wf _ _ _ Hh)) as (r & d1 & -> & W1 & C1 & Pf & P1 & E). specialize (C1 (md_can _ _ _ Hh)). cbn [mbind option_bind].
    assert (models type d1 m) as M1 by (by eapply models_perm). destruct (store_keep kvs ms didx d d1 m St G Hm M1 Pf) as [St1 G1]. destruct r as [l|].
    + destruct E as (v & c & Lk). unfold kvstoreDictTwoPhaseUnlinkFree. rewrite G1. cbn [mbind option_bind].
      destruct (two_phase_free_spec type hash_range can d1 l k v c W1 Lk) as (d2 & -> & W2 & C2 & Pf2 & P2). cbn [mbind option_bind].
      destruct (models_delete type d1 d2 m k v M1 W2 C2 P2) as [M2 Hk]. rewrite Hk. pose proof (ct_total _ _ (so_counted _ _ St)).
      destruct (store_count _ ms didx d1 d2 m _ (-1) St1 G1 Hm M2 (msize_delete _ _ _ Hk) ltac:(by right) ltac:(lia) Pf2) as (kvs2 & -> & St2 & _ & N2). cbn [mbind option_bind].
      destruct (store_free kvs2 _ didx St2) as (kvs3 & -> & St3); [|by exists kvs3]. rewrite N2. pose proof (slot_range _ _ _ G1) as Sr. by rewrite (sr_length _ _ (so_structure _ _ St1)) in Sr.
    + rewrite (models_none type d m k Hh E), delete_id, (insert_same _ _ _ Hm) by (by apply (models_none type d m k Hh)). by eexists.
  - cbn in Hh. subst m. rewrite delete_id, (insert_same _ _ _ Hm) by done. by exists kvs.
Qed.

Lemma find_key_spec can kvs ms didx k m : store_ok kvs ms -> 0 <= didx -> ms !! Z.to_nat didx = Some m ->
  exists kvs', kvstoreDictFind type can kvs didx k = Some (pair k <$> m !! k, kvs') /\ store_ok kvs' ms.
Proof.
  intros St P Hm. unfold kvstoreDictFind. destruct (store_slot _ _ _ _ St P Hm) as (od & G & Hh & R). rewrite G. cbn [mbind option_bind].
  destruct od as [d|]; [|cbn in Hh; subst m; by exists kvs]. destruct (dict_find_spec type hash_range can d k (md_wf _ _ _ Hh)) as (r & d' & -> & Ro & E). cbn [mbind option_bind].
  exists (update_dict didx d d' kvs). split; [|eapply store_keep; try done; [by eapply models_reorganised|apply Ro]]. do 2 f_equal. destruct r as [[k' v]|].
  - destruct E as [E I]. cbn in E. subst k'. by rewrite (models_some type d m k v Hh I).
  - by rewrite (models_none type d m k Hh E).
Qed.

Lemma fetch_key_spec can kvs ms didx k m : store_ok kvs ms -> 0 <= didx -> ms !! Z.to_nat didx = Some m ->
  exists kvs', kvstoreDictFetchValue type can kvs didx k = Some (m !! k, kvs') /\ store_ok kvs' ms.
Proof.
  intros St P Hm. destruct (find_key_spec can kvs ms didx k m St P Hm) as (kvs' & E & St'). exists kvs'. split; [|done].
  unfold kvstoreDictFind, kvstoreDictFetchValue, dictFetchValue in *. destruct (store_slot _ _ _ _ St P Hm) as (od & G & Hh & R). rewrite G in *. cbn [mbind option_bind] in *.
  destruct od as [d|]; [|cbn in Hh; subst m; by injection E as <-].
  destruct (dictFind type can d k) as [[e d1]|]; [|done]. cbn [mbind option_bind] in *. injection E as -> <-. by destruct (m !! k).
Qed.

Lemma expand_one_spec can kvs ms didx n m : store_ok kvs ms -> 0 <= didx -> ms !! Z.to_nat didx = Some m ->
  exists ok kvs', kvstoreDictExpand type can kvs didx n = Some (ok, kvs') /\ store_ok kvs' ms.
Proof.
  intros St P Hm. unfold kvstoreDictExpand. destruct (store_create kvs ms didx m St P Hm) as (d & kvs1 & -> & St1 & G1 & M & _). cbn [mbind option_bind].
  destruct (expand_spec type can d n (md_wf _ _ _ M)) as (ok & d' & -> & Rz & _). pose proof (rz_reorganised _ _ _ Rz) as Ro. cbn [mbind option_bind].
  eexists _, _. split; [reflexivity|]. eapply store_keep; try done; [by eapply models_reorganised|apply Ro].
Qed.

(** A loop over the indices that keeps an invariant. *)
Lemma loop_spec (f : Z -> kvstore K V -> option (kvstore K V)) (inv : Z -> kvstore K V -> Prop) (n : nat) :
  (forall i kvs, 0 <= i < Z.of_nat n -> inv i kvs -> exists kvs', f i kvs = Some kvs' /\ inv (i + 1) kvs') ->
  forall kvs, inv 0 kvs -> exists kvs', foldl (fun o i => kvs ← o; f i kvs) (Some kvs) (seqZ 0 (Z.of_nat n)) = Some kvs' /\ inv (Z.of_nat n) kvs'.
Proof.
  induction n as [|n IH]; intros Step kvs I0; [by exists kvs|].
  assert (seqZ 0 (Z.of_nat (S n)) = seqZ 0 (Z.of_nat n) ++ [Z.of_nat n]) as ->.
  { replace (Z.of_nat (S n)) with (Z.of_nat n + 1) by lia. rewrite seqZ_app by lia. f_equal. }
  rewrite foldl_app. destruct (IH ltac:(intros i kvs0 Hi; apply Step; lia) kvs I0) as (kvs1 & -> & I1). cbn [foldl mbind option_bind].
  destruct (Step (Z.of_nat n) kvs1 ltac:(lia) I1) as (kvs2 & -> & I2). exists kvs2. split; [done|]. by replace (Z.of_nat (S n)) with (Z.of_nat n + 1) by lia.
Qed.

Lemma for_dicts_spec (f : Z -> kvstore K V -> option (kvstore K V)) (inv : Z -> kvstore K V -> Prop) kvs : 0 <= num_dicts kvs ->
  (forall i kvs', 0 <= i < num_dicts kvs -> inv i kvs' -> exists kvs'', f i kvs' = Some kvs'' /\ inv (i + 1) kvs'') -> inv 0 kvs ->
  exists kvs', for_dicts f kvs = Some kvs' /\ inv (num_dicts kvs) kvs'.
Proof.
  intros N Step I0. unfold for_dicts. rewrite <- (Z2Nat.id (num_dicts kvs)) in * by done. apply loop_spec; [|done]. intros i kvs' Hi. apply Step. lia.
Qed.

Lemma store_map kvs ms didx : store_ok kvs ms -> 0 <= didx < zlen ms -> exists m, ms !! Z.to_nat didx = Some m.
Proof. intros St R. apply lookup_lt_is_Some_2. unfold zlen in R. lia. Qed.

Lemma store_length kvs ms : store_ok kvs ms -> num_dicts kvs = zlen ms.
Proof. intros [S _]. rewrite <- (sr_length _ _ S). unfold zlen. by rewrite (Forall2_length _ _ _ (sr_dicts _ _ S)). Qed.

Lemma expand_all_spec can kvs ms n skip : store_ok kvs ms -> exists kvs', kvstoreExpand type can kvs n skip = Some kvs' /\ store_ok kvs' ms.
Proof.
  intros St. pose proof (store_length _ _ St) as L. pose proof (zlen_nonneg ms). unfold kvstoreExpand.
  destruct (for_dicts_spec (fun i kvs => if skip i then Some kvs else '(_, kvs) ← kvstoreDictExpand type can kvs i n; Some kvs) (fun _ kvs => store_ok kvs ms) kvs) as (kvs' & E & St');
    [lia| |done|by exists kvs'].
  intros i kvs1 Hi St1. destruct (skip i); [by exists kvs1|]. destruct (store_map kvs1 ms i St1) as [m Hm]; [lia|].
  destruct (expand_one_spec can kvs1 ms i n m St1 ltac:(lia) Hm) as (ok & kvs2 & -> & St2). by exists kvs2.
Qed.

Lemma set_cursor_ok kvs ms c : store_ok kvs ms -> 0 <= c < num_dicts kvs -> store_ok (kvs<| resize_cursor := c |>) ms.
Proof. intros [S C] R. split; [destruct S; by split|destruct C; by split]. Qed.

Lemma resize_one_spec can kvs ms : store_ok kvs ms -> exists kvs', resize_one type can kvs = Some kvs' /\ store_ok kvs' ms.
Proof.
  intros St. unfold resize_one. pose proof (sr_cursor _ _ (so_structure _ _ St)) as R. destruct (store_map kvs ms (resize_cursor kvs) St) as [m Hm]; [rewrite <- (store_length _ _ St); done|].
  destruct (store_slot kvs ms (resize_cursor kvs) m St (proj1 R) Hm) as (od & G & Hh & _). rewrite G. cbn [mbind option_bind].
  assert (exists kvs1, (match od with
    | None => Some kvs
    | Some d => '(ok, d') ← dictShrinkIfNeeded type can d; d' ← (if (ok : bool) then Some d' else dictExpandIfNeeded type can d'); Some (update_dict (resize_cursor kvs) d d' kvs)
    end) = Some kvs1 /\ store_ok kvs1 ms /\ num_dicts kvs1 = num_dicts kvs) as (kvs1 & -> & St1 & N1).
  { destruct od as [d|]; [|by exists kvs]. destruct (try_shrink_spec type can d (md_wf _ _ _ Hh)) as (ok & d1 & -> & Ro1). cbn [mbind option_bind].
    assert (exists d2, (if ok then Some d1 else dictExpandIfNeeded type can d1) = Some d2 /\ reorganised type d1 d2) as (d2 & -> & Ro2).
    { destruct ok; [exists d1; split; [done|apply reorganised_refl, Ro1]|]. destruct (expand_if_needed_spec type can d1 (ro_wf _ _ _ Ro1)) as (d2 & -> & Rz & _). exists d2. split; [done|apply Rz]. }
    cbn [mbind option_bind]. eexists. split; [reflexivity|]. pose proof (reorganised_trans _ _ _ _ Ro1 Ro2) as Ro.
    destruct (store_keep kvs ms _ d d2 m St G Hm (models_reorganised _ _ _ _ Hh Ro)) as [St1 _]; [apply Ro|]. split; [done|]. by rewrite (store_length _ _ St1), (store_length _ _ St). }
  cbn [mbind option_bind]. eexists. split; [reflexivity|]. apply set_cursor_ok; [done|]. rewrite N1. apply Z.mod_pos_bound. lia.
Qed.

Lemma try_resize_spec can kvs ms limit : store_ok kvs ms -> exists kvs', kvstoreTryResizeDicts type can kvs limit = Some kvs' /\ store_ok kvs' ms.
Proof.
  intros St. unfold kvstoreTryResizeDicts. generalize (Z.to_nat (if limit >? num_dicts kvs then num_dicts kvs else limit)) as n. intros n. revert kvs St.
  induction n as [|n IH]; intros kvs St; [by exists kvs|]. cbn [resize_loop]. destruct (resize_one_spec can kvs ms St) as (kvs1 & -> & St1). cbn [mbind option_bind]. by apply IH.
Qed.

(** ** Searching by the number of keys *)

(** The dictionary of the [t]-th key, and the next one that is not empty. *)
Fixpoint nth_key_dict (sz : list Z) (t : Z) : Z :=
  match sz with
  | [] => 0
  | s :: sz => if t <=? s then 0 else 1 + nth_key_dict sz (t - s)
  end.

Fixpoint first_non_empty (sz : list Z) (i : Z) : Z :=
  match sz with
  | [] => -1
  | s :: sz => if s =? 0 then first_non_empty sz (i + 1) else i
  end.

Lemma prefix_cons s sz r : 0 < r -> prefix (s :: sz) r = s + prefix sz (r - 1).
Proof. intros R. unfold prefix. replace (Z.to_nat r) with (S (Z.to_nat (r - 1))) by lia. done. Qed.

Lemma nth_key_dict_eq sz : Forall (fun x => 0 <= x) sz -> forall r t, 0 <= r < zlen sz -> prefix sz r < t <= prefix sz (r + 1) -> nth_key_dict sz t = r.
Proof.
  induction 1 as [|s sz Hs F IH]; intros r t R P; [change (zlen (@nil Z)) with 0 in R; lia|]. rewrite zlen_cons in R. rewrite (prefix_cons s sz (r + 1)) in P by lia.
  cbn [nth_key_dict]. destruct (Z.eq_dec r 0) as [->|N].
  - rewrite (prefix_0 sz (0 + 1 - 1)) in P by lia. zdec. done.
  - rewrite prefix_cons in P by lia. pose proof (prefix_nonneg sz (r - 1) F). replace (r + 1 - 1) with (r - 1 + 1) in P by lia.
    rewrite (IH (r - 1) (t - s)) by lia. zdec. lia.
Qed.

Lemma first_non_empty_eq sz : forall i r, 0 <= i ->
  (i <= r /\ (exists x, sz !! Z.to_nat (r - i) = Some x /\ x <> 0) /\ (forall k x, i <= k < r -> sz !! Z.to_nat (k - i) = Some x -> x = 0)) \/
  (r = -1 /\ forall k x, i <= k -> sz !! Z.to_nat (k - i) = Some x -> x = 0) -> first_non_empty sz i = r.
Proof.
  induction sz as [|s sz IH]; intros i r Hi Hr; cbn [first_non_empty].
  { destruct Hr as [(_ & (x & Hx & _) & _)|[-> _]]; [by rewrite lookup_nil in Hx|done]. }
  assert (forall k, i < k -> (s :: sz) !! Z.to_nat (k - i) = sz !! Z.to_nat (k - (i + 1))) as Sh.
  { intros k Hk. replace (Z.to_nat (k - i)) with (S (Z.to_nat (k - (i + 1)))) by lia. done. }
  assert ((s :: sz) !! Z.to_nat (i - i) = Some s) as S0 by (by rewrite Z.sub_diag). destruct (Z.eqb_spec s 0) as [->|Ns].
  - apply IH; [lia|]. destruct Hr as [(R & (x & Hx & Nx) & Ze)|[-> Ze]].
    + destruct (Z.eq_dec r i) as [->|Ne]; [rewrite S0 in Hx; congruence|]. left. split_and!; [lia|rewrite Sh in Hx by lia; eauto|].
      intros k y Hk Hy. apply (Ze k); [lia|by rewrite Sh by lia].
    + right. split; [done|]. intros k y Hk Hy. apply (Ze k); [lia|by rewrite Sh by lia].
  - destruct Hr as [(R & _ & Ze)|[_ Ze]].
    + destruct (Z.eq_dec r i) as [->|Ne]; [done|]. destruct Ns. apply (Ze i); [lia|done].
    + destruct Ns. apply (Ze i); [lia|done].
Qed.

Lemma next_of_eq sz idx r : 0 <= idx -> next_of sz idx r -> first_non_empty (drop (Z.to_nat (idx + 1)) sz) (idx + 1) = r.
Proof.
  intros Hi Hn. apply first_non_empty_eq; [lia|]. assert (forall k, idx + 1 <= k -> drop (Z.to_nat (idx + 1)) sz !! Z.to_nat (k - (idx + 1)) = sz !! Z.to_nat k) as Sh.
  { intros k Hk. rewrite lookup_drop. f_equal. lia. }
  destruct Hn as [(R & (x & Hx & Nx) & Ze)|[-> Ze]].
  - left. split_and!; [lia|exists x; rewrite Sh by lia; split; [done|lia]|]. intros k y Hk Hy. rewrite Sh in Hy by lia. apply (Ze k); [lia|done].
  - right. split; [done|]. intros k y Hk Hy. rewrite Sh in Hy by lia. apply (Ze k); [lia|done].
Qed.

Lemma single_size kvs ms : store_ok kvs ms -> num_dicts kvs = 1 -> exists m, ms = [m].
Proof.
  intros St N. rewrite (store_length _ _ St) in N. destruct ms as [|m [|m' ms]]; rewrite ?zlen_cons in N; [done|by exists m|pose proof (zlen_nonneg ms); lia].
Qed.

Lemma find_index_ok kvs ms t : store_ok kvs ms -> 0 <= t <= zsum (sizes ms) -> kvstoreFindDictIndexByKeyIndex kvs t = Some (nth_key_dict (sizes ms) t).
Proof.
  intros St R. pose proof (so_counted _ _ St) as C. unfold kvstoreFindDictIndexByKeyIndex, kvstoreSize. rewrite (ct_keys _ _ C). pose proof (ct_tree _ _ C) as Tr. pose proof (ct_nonneg _ _ C) as F.
  assert (t = 0 -> nth_key_dict (sizes ms) t = 0) as Z0.
  { intros ->. destruct (sizes ms) as [|s l]; [done|]. cbn. apply Forall_cons in F as [F _]. by zdec. }
  destruct (Z.eqb_spec (num_dicts kvs) 1) as [N1|N1]; cbn [orb].
  { destruct (single_size kvs ms St N1) as [m ->]. change (sizes [m]) with [msize m] in *. cbn in R |- *. zdec. done. }
  destruct (Z.eqb_spec (zsum (sizes ms)) 0) as [E0|E0]; [rewrite Z0 by lia; done|]. zdec. cbn [negb]. destruct Tr as (ft & -> & Of). cbn [mbind option_bind].
  destruct (Z.eq_dec t 0) as [->|Nt]; [rewrite Z0 by done; by unfold fwTreeFindIndex|]. destruct (find_index_spec ft (sizes ms) t Of) as (r & -> & Rr & Rp); [lia|].
  f_equal. symmetry. apply nth_key_dict_eq; [done|rewrite (fw_len _ _ Of); done|done].
Qed.

Lemma first_index_ok kvs ms : store_ok kvs ms ->
  kvstoreGetFirstNonEmptyDictIndex kvs = Some (if zsum (sizes ms) =? 0 then -1 else nth_key_dict (sizes ms) 1).
Proof.
  intros St. pose proof (so_counted _ _ St) as C. pose proof (zsum_nonneg _ (ct_nonneg _ _ C)). pose proof (find_index_ok kvs ms 1 St) as Fi.
  unfold kvstoreGetFirstNonEmptyDictIndex, kvstoreFindDictIndexByKeyIndex, kvstoreSize, fwTreeFindFirstNonEmpty in *. rewrite (ct_keys _ _ C) in *.
  destruct (Z.eqb_spec (zsum (sizes ms)) 0) as [E0|E0]; [done|]. rewrite orb_false_r in Fi. specialize (Fi ltac:(lia)). destruct (num_dicts kvs =? 1); [done|].
  by assert (1 <=? zsum (sizes ms) = true) as Q by lia; rewrite Q in Fi.
Qed.

Lemma next_index_ok kvs ms didx : store_ok kvs ms -> 0 <= didx < num_dicts kvs ->
  kvstoreGetNextNonEmptyDictIndex kvs didx = Some (first_non_empty (drop (Z.to_nat (didx + 1)) (sizes ms)) (didx + 1)).
Proof.
  intros St R. pose proof (so_counted _ _ St) as C. unfold kvstoreGetNextNonEmptyDictIndex. pose proof (ct_tree _ _ C) as Tr. destruct (Z.eqb_spec (num_dicts kvs) 1) as [N1|N1].
  { assert (didx = 0) as -> by lia. destruct (single_size kvs ms St N1) as [m ->]. done. }
  destruct Tr as (ft & -> & Of). destruct (next_non_empty_spec ft (sizes ms) didx Of) as (r & -> & Hr); [rewrite <- (fw_len _ _ Of), (ct_length _ _ C); lia|].
  f_equal. symmetry. by apply next_of_eq; [lia|].
Qed.

(** ** Emptying and creating *)

Lemma callbacks_same clear didx events : forall kvs, same_store kvs (foldl (callback clear didx) kvs events).
Proof.
  induction events as [|e events IH]; intros kvs; [by destruct kvs|]. cbn [foldl]. eapply same_store_trans; [apply callback_same|apply IH].
Qed.

Definition blank (od : option (dict K V)) : Prop := holds od ∅ /\ buckets_of od = 0 /\ rehashing_of od = false.

(** While the dictionaries are emptied one by one: those before [i] are blank,
    and the counts are to be cleared afterwards. *)
Record emptying kvs0 ms (i : Z) kvs : Prop := {
  em_flags : kvs_flags kvs = kvs_flags kvs0;
  em_num : num_dicts kvs = num_dicts kvs0;
  em_bits : num_dicts_bits kvs = num_dicts_bits kvs0;
  em_sizes : dict_sizes kvs = dict_sizes kvs0;
  em_length : zlen (dicts kvs) = num_dicts kvs0;
  em_allocated : allocated_dicts kvs = zsum (allocated_of <$> dicts kvs);
  em_done : forall j od, Z.of_nat j < i -> dicts kvs !! j = Some od -> blank od;
  em_left : forall j od, i <= Z.of_nat j -> dicts kvs !! j = Some od -> exists m, holds od m
}.

Lemma emptying_step kvs0 ms i kvs kvs' od od' : emptying kvs0 ms i kvs -> 0 <= i -> dicts kvs !! Z.to_nat i = Some od -> blank od' ->
  kvs_flags kvs' = kvs_flags kvs -> num_dicts kvs' = num_dicts kvs -> num_dicts_bits kvs' = num_dicts_bits kvs -> dict_sizes kvs' = dict_sizes kvs ->
  dicts kvs' = <[Z.to_nat i := od']> (dicts kvs) -> allocated_dicts kvs' = allocated_dicts kvs - allocated_of od + allocated_of od' ->
  emptying kvs0 ms (i + 1) kvs'.
Proof.
  intros [E1 E2 E3 E4 E5 E6 E7 E8] Hi Lo Bl Q1 Q2 Q3 Q4 Q5 Q6. split; rewrite ?Q5; try congruence.
  - unfold zlen. rewrite length_insert. done.
  - rewrite Q6, E6, (zsum_fmap_insert _ _ _ od) by done. done.
  - intros j x Hj Hx. destruct (decide (j = Z.to_nat i)) as [->|N].
    + rewrite list_lookup_insert_eq in Hx by (by eapply lookup_lt_Some). by injection Hx as <-.
    + rewrite list_lookup_insert_ne in Hx by done. apply (E7 j); [lia|done].
  - intros j x Hj Hx. rewrite list_lookup_insert_ne in Hx by lia. apply (E8 j); [lia|done].
Qed.

Lemma emptied_blank d m : models type d m -> blank (Some (dictEmpty d).2) /\ dictSize (dictEmpty d).2 = 0.
Proof.
  intros M. destruct (empty_spec type d (md_wf _ _ _ M)) as (_ & W & E & A & _ & R & B). split; [|by rewrite (size_spec type), E by done].
  split_and!; [|done|done]. split; [done|left; lia|by rewrite E].
Qed.

Lemma empty_dict_spec kvs0 ms i kvs : 1 <= num_dicts kvs0 <= 2 ^ 16 -> 0 <= i < num_dicts kvs0 -> emptying kvs0 ms i kvs ->
  exists kvs', empty_dict canFreeDict i kvs = Some kvs' /\ emptying kvs0 ms (i + 1) kvs'.
Proof.
  intros Nb Hi E. pose proof (em_length _ _ _ _ E) as L. destruct (lookup_lt_is_Some_2 (dicts kvs) (Z.to_nat i)) as [od Lo]; [unfold zlen in L; lia|].
  unfold empty_dict, kvstoreGetDict. destruct (Z.ltb_spec i 0); [lia|]. rewrite Lo. cbn [mbind option_bind].
  destruct od as [d|]; [|exists kvs; split; [done|]; apply (emptying_step kvs0 ms i kvs kvs None None); [done|lia|done|done|done|done|done|done|by rewrite list_insert_id|cbn; lia]].
  destruct (em_left _ _ _ _ E (Z.to_nat i) _ ltac:(lia) Lo) as [m M]. cbn in M. destruct (emptied_blank d m M) as [Bl Z0]. set (d' := (dictEmpty d).2) in *. clearbody d'.
  destruct (set_dict_fields kvs i (Some d')) as ([F1 F2 F3 F4 F5 F6] & F7 & F8 & F9 & _). set (kvs1 := set_dict kvs i (Some d')) in *. clearbody kvs1.
  pose proof (callbacks_same true i (drop (length (told d)) (told d')) kvs1) as Ss. fold (callbacks true i d d' kvs1) in Ss. set (kvs2 := callbacks true i d d' kvs1) in *. clearbody kvs2.
  assert (dicts kvs2 !! Z.to_nat i = Some (Some d')) as L2 by (rewrite (ss_dicts _ _ Ss), F7; apply list_lookup_insert_eq; by eapply lookup_lt_Some).
  assert (emptying kvs0 ms (i + 1) kvs2) as E2.
  { destruct Ss as [T1 T2 T3 T4 T5 T6 T7 T8 T9]. apply (emptying_step kvs0 ms i kvs kvs2 (Some d) (Some d')); [done|lia|done|done|congruence|congruence|congruence|congruence|congruence|]. cbn. rewrite T6, F9. lia. }
  unfold freeDictIfNeeded, kvstoreGetDict. destruct (Z.ltb_spec i 0); [lia|]. rewrite L2. cbn [mbind option_bind].
  destruct (_ || _ || _); [by exists kvs2|]. destruct (negb (canFreeDict kvs2 i)); [by exists kvs2|]. eexists. split; [reflexivity|].
  pose proof (callbacks_same false i (drop (length (told d')) (told (dictRelease d').2)) kvs2) as S3. fold (callbacks false i d' (dictRelease d').2 kvs2) in S3.
  set (kvs3 := callbacks false i d' (dictRelease d').2 kvs2) in *. clearbody kvs3.
  assert (1 <= allocated_dicts kvs2 <= 2 ^ 16) as Ab.
  { rewrite (em_allocated _ _ _ _ E2). assert (Forall (fun x => 0 <= x <= 1) (allocated_of <$> dicts kvs2)) as F by (apply Forall_fmap, Forall_forall; intros [|] _; cbn; lia).
    pose proof (zsum_bound _ _ F) as Zb. pose proof (em_length _ _ _ _ E2) as L3. unfold zlen in Zb, L3. rewrite length_fmap in Zb. split; [|lia].
    apply (size_le_total _ (Z.to_nat i) 1); [eapply Forall_impl; [done|cbn; lia]|]. by rewrite list_lookup_fmap, L2. }
  destruct E2 as [G1 G2 G3 G4 G5 G6 G7 G8], S3 as [T1 T2 T3 T4 T5 T6 T7 T8 T9].
  assert (emptying kvs0 ms i kvs2) as E2i by (split; try done; [intros j x Hj; apply G7; lia|]; intros j x Hj Hx; destruct (decide (j = Z.to_nat i)) as [->|N]; [|apply (G8 j); [lia|done]];
    rewrite L2 in Hx; injection Hx as <-; exists ∅; apply Bl).
  eapply (emptying_step kvs0 ms i kvs2 _ (Some d') None); [done|lia|done|done|exact T1|exact T3|exact T4|exact T9|rewrite <- T2; reflexivity|].
  change (i32 (allocated_dicts kvs3 - 1) = allocated_dicts kvs2 - 1 + 0). rewrite T6, i32_small by (unfold is_i32; lia). lia.
Qed.

Lemma blank_sums (l : list (option (dict K V))) : Forall blank l -> zsum (buckets_of <$> l) = 0 /\ zsum (overhead_of <$> l) = 0.
Proof.
  induction 1 as [|od l (_ & B & R) _ [IH1 IH2]]; [done|]. cbn [fmap list_fmap]. rewrite !zsum_cons. change (buckets_of <$> l) with (list_fmap _ _ buckets_of l) in *.
  split; [rewrite B; exact IH1|]. assert (overhead_of od = 0) as -> by (destruct od; cbn in *; [by rewrite R|done]). exact IH2.
Qed.

Lemma msize_empties n : sizes (replicate n ∅) = replicate n 0.
Proof. unfold sizes. rewrite fmap_replicate. done. Qed.

Lemma non_empty_zeros n : zsum (non_empty <$> replicate n 0) = 0.
Proof. rewrite fmap_replicate. apply zsum_replicate. Qed.

(** A store whose dictionaries are all blank and whose counts are cleared. *)
Lemma blank_store kvs : 0 <= num_dicts_bits kvs <= 16 -> num_dicts kvs = 2 ^ num_dicts_bits kvs -> zlen (dicts kvs) = num_dicts kvs -> Forall blank (dicts kvs) ->
  allocated_dicts kvs = zsum (allocated_of <$> dicts kvs) -> bucket_count kvs = 0 -> overhead_hashtable_rehashing kvs = 0 -> kvs_rehashing kvs = [] -> resize_cursor kvs = 0 ->
  key_count kvs = 0 -> non_empty_dicts kvs = 0 ->
  (if num_dicts kvs =? 1 then dict_sizes kvs = None else dict_sizes kvs = Some (fwTreeCreate (num_dicts_bits kvs))) ->
  store_ok kvs (replicate (Z.to_nat (2 ^ num_dicts_bits kvs)) ∅).
Proof.
  intros B N L F A Bc Ov Rh Cu Kc Ne Tr. destruct (blank_sums _ F) as [S1 S2]. assert (1 <= num_dicts kvs <= 2 ^ 16) as Nb.
  { rewrite N. split; [assert (0 < 2 ^ num_dicts_bits kvs) by (apply Z.pow_pos_nonneg; lia); lia|apply Z.pow_le_mono_r; lia]. }
  split; [split|split]; rewrite ?msize_empties, ?Bc, ?Ov, ?Rh, ?Cu, ?Kc, ?Ne, ?S1, ?S2; try done; try lia.
  - unfold zlen in L. rewrite <- N, <- L, Nat2Z.id. apply Forall2_same_length_lookup_2; [by rewrite length_replicate|]. intros i od m Ho Hm. apply lookup_replicate in Hm as [-> _].
    rewrite Forall_lookup in F. by apply (F i).
  - apply NoDup_nil_2.
  - intros i. split; [set_solver|]. intros (od & G & R). apply get_dict in G as [_ G]. rewrite Forall_lookup in F. destruct (F _ _ G) as (_ & _ & R'). congruence.
  - unfold zlen. rewrite length_replicate. lia.
  - apply Forall_replicate. lia.
  - rewrite zsum_replicate. lia.
  - by rewrite zsum_replicate.
  - by rewrite non_empty_zeros.
  - destruct (num_dicts kvs =? 1); [done|]. exists (fwTreeCreate (num_dicts_bits kvs)). split; [done|]. apply create_ok. lia.
Qed.

Lemma clear_tree ft sz : fw_ok ft sz -> fwTreeClear ft = fwTreeCreate (size_bits ft).
Proof.
  intros O. pose proof (fw_bits _ _ O). unfold fwTreeClear, fwTreeCreate. rewrite Z.shiftl_mul_pow2, Z.mul_1_l by lia. rewrite <- (fw_size _ _ O). by destruct ft.
Qed.

Lemma tree_bits kvs ms ft : store_ok kvs ms -> fw_ok ft (sizes ms) -> size_bits ft = num_dicts_bits kvs.
Proof.
  intros [S C] O. pose proof (fw_len _ _ O) as L. rewrite (ct_length _ _ C), (sr_num _ _ S), (fw_size _ _ O) in L. pose proof (fw_bits _ _ O). pose proof (sr_bits _ _ S).
  apply Z.pow_inj_r in L; lia.
Qed.

Lemma empty_store_spec kvs ms : store_ok kvs ms -> exists kvs', kvstoreEmpty canFreeDict kvs = Some kvs' /\ store_ok kvs' (replicate (length ms) ∅).
Proof.
  intros St. pose proof St as [S C]. pose proof (ct_num _ _ C) as Nb. unfold kvstoreEmpty.
  destruct (for_dicts_spec (empty_dict canFreeDict) (fun i kvs' => emptying kvs ms i kvs') kvs) as (kvs1 & -> & [E1 E2 E3 E4 E5 E6 E7 E8]); [lia| | |].
  - intros i kvs' Hi. by apply empty_dict_spec.
  - split; try done; try apply S; [lia|]. intros j od _ Ho. destruct (Forall2_lookup_l _ _ _ _ _ (sr_dicts _ _ S) Ho) as (m & _ & Hm). by exists m.
  - cbn [mbind option_bind]. eexists. split; [reflexivity|]. match goal with |- store_ok ?x _ => set (kvs' := x) end.
    assert (length ms = Z.to_nat (2 ^ num_dicts_bits kvs')) as ->.
    { change (num_dicts_bits kvs') with (num_dicts_bits kvs1). rewrite E3, <- (sr_num _ _ S), (store_length _ _ St). unfold zlen. lia. }
    apply blank_store; try done.
    + change (num_dicts_bits kvs') with (num_dicts_bits kvs1). rewrite E3. apply S.
    + change (num_dicts kvs1 = 2 ^ num_dicts_bits kvs1). rewrite E2, E3. apply S.
    + change (zlen (dicts kvs1) = num_dicts kvs1). by rewrite E2.
    + change (Forall blank (dicts kvs1)). apply Forall_lookup. intros j od Ho. apply (E7 j); [|done]. apply lookup_lt_Some in Ho. unfold zlen in E5. lia.
    + change (if num_dicts kvs1 =? 1 then option_map fwTreeClear (dict_sizes kvs1) = None else option_map fwTreeClear (dict_sizes kvs1) = Some (fwTreeCreate (num_dicts_bits kvs1))).
      rewrite E2, E3, E4. pose proof (ct_tree _ _ C) as Tr. destruct (num_dicts kvs =? 1); [by rewrite Tr|]. destruct Tr as (ft & -> & O). cbn [option_map]. by rewrite (clear_tree _ _ O), (tree_bits _ _ _ St O).
Qed.

Lemma create_store_spec bits flags : 0 <= bits <= 16 -> exists kvs, kvstoreCreate bits flags = Some kvs /\ store_ok kvs (replicate (Z.to_nat (2 ^ bits)) ∅).
Proof.
  intros B. unfold kvstoreCreate. destruct (Z.gtb_spec bits 16); [lia|]. rewrite Z.shiftl_mul_pow2, Z.mul_1_l by lia. set (kvs0 := Build_kvstore K V _ _ _ _ _ _ _ _ _ _ _ _).
  assert (1 <= 2 ^ bits) as Pw by (assert (0 < 2 ^ bits) by (apply Z.pow_pos_nonneg; lia); lia).
  assert (store_ok kvs0 (replicate (Z.to_nat (2 ^ bits)) ∅)) as St.
  { apply (blank_store kvs0); try done.
    - unfold zlen. cbn. rewrite length_replicate. lia.
    - apply Forall_replicate. done.
    - cbn. rewrite fmap_replicate. symmetry. apply zsum_replicate.
    - cbn. destruct (Z.eqb_spec (2 ^ bits) 1), (Z.gtb_spec (2 ^ bits) 1); (done || lia). }
  destruct (negb _); [|by exists kvs0].
  destruct (for_dicts_spec (fun i kvs => '(_, kvs) ← createDictIfNeeded kvs i; Some kvs) (fun _ kvs => store_ok kvs (replicate (Z.to_nat (2 ^ bits)) ∅)) kvs0) as (kvs' & E & St');
    [cbn; lia| |done|by exists kvs'].
  intros i kvs1 Hi St1. cbn in Hi. destruct (store_create kvs1 _ i ∅ St1) as (d & kvs2 & -> & St2 & _); [lia|apply lookup_replicate_2; lia|by exists kvs2].
Qed.

(** ** Any sequence of operations *)

Inductive store_op : Type :=
  | KAdd (didx : Z) (k : K) (v : V)
  | KSet (didx : Z) (k : K) (v : V)
  | KDelete (didx : Z) (k : K)
  | KUnlink (didx : Z) (k : K)
  | KFind (didx : Z) (k : K)
  | KFetch (didx : Z) (k : K)
  | KSize
  | KDictSize (didx : Z)
  | KNumNonEmpty
  | KNthKey (target : Z)
  | KFirst
  | KNext (didx : Z)
  | KExpand (didx size : Z)
  | KExpandAll (size : Z)
  | KTryResize (limit : Z)
  | KEmpty.

Inductive store_answer : Type :=
  | KDone
  | KAdded (b : bool)
  | KEntry (e : option (K * V))
  | KValue (v : option V)
  | KCount (n : Z).

Definition store_exec can g (o : store_op) kvs : option (store_answer * kvstore K V) :=
  match o with
  | KAdd didx k v => '(b, kvs) ← add_key can g kvs didx k v; Some (KAdded b, kvs)
  | KSet didx k v => '(b, kvs) ← set_key can kvs didx k v; Some (KAdded b, kvs)
  | KDelete didx k => '(e, kvs) ← kvstoreDictDelete type canFreeDict can kvs didx k; Some (KEntry e, kvs)
  | KUnlink didx k => '(e, kvs) ← unlink_key can kvs didx k; Some (KEntry e, kvs)
  | KFind didx k => '(e, kvs) ← kvstoreDictFind type can kvs didx k; Some (KEntry e, kvs)
  | KFetch didx k => '(v, kvs) ← kvstoreDictFetchValue type can kvs didx k; Some (KValue v, kvs)
  | KSize => Some (KCount (kvstoreSize kvs), kvs)
  | KDictSize didx => n ← kvstoreDictSize kvs didx; Some (KCount n, kvs)
  | KNumNonEmpty => Some (KCount (non_empty_dicts kvs), kvs)
  | KNthKey t => n ← kvstoreFindDictIndexByKeyIndex kvs t; Some (KCount n, kvs)
  | KFirst => n ← kvstoreGetFirstNonEmptyDictIndex kvs; Some (KCount n, kvs)
  | KNext didx => n ← kvstoreGetNextNonEmptyDictIndex kvs didx; Some (KCount n, kvs)
  | KExpand didx n => '(_, kvs) ← kvstoreDictExpand type can kvs didx n; Some (KDone, kvs)
  | KExpandAll n => kvs ← kvstoreExpand type can kvs n (fun _ => false); Some (KDone, kvs)
  | KTryResize limit => kvs ← kvstoreTryResizeDicts type can kvs limit; Some (KDone, kvs)
  | KEmpty => kvs ← kvstoreEmpty canFreeDict kvs; Some (KDone, kvs)
  end.

Fixpoint store_run (ops : list (dictResizeEnable * V * store_op)) kvs : option (list store_answer * kvstore K V) :=
  match ops with
  | [] => Some ([], kvs)
  | (can, g, o) :: ops => '(a, kvs) ← store_exec can g o kvs; '(l, kvs) ← store_run ops kvs; Some (a :: l, kvs)
  end.

(** The same operations on an array of maps; [None] where an index is not one of
    the array, or a key's number is above the number of keys. *)
Definition on_map ms (didx : Z) (f : gmap K V -> store_answer * gmap K V) : option (store_answer * list (gmap K V)) :=
  if didx <? 0 then None
  else m ← ms !! Z.to_nat didx; let '(a, m') := f m in Some (a, <[Z.to_nat didx := m']> ms).

Definition maps_exec (o : store_op) ms : option (store_answer * list (gmap K V)) :=
  match o with
  | KAdd didx k v => on_map ms didx (fun m => (KAdded (bool_decide (m !! k = None)), if bool_decide (m !! k = None) then <[k := v]> m else m))
  | KSet didx k v => on_map ms didx (fun m => (KAdded (bool_decide (m !! k = None)), <[k := v]> m))
  | KDelete didx k | KUnlink didx k => on_map ms didx (fun m => (KEntry (pair k <$> m !! k), delete k m))
  | KFind didx k => on_map ms didx (fun m => (KEntry (pair k <$> m !! k), m))
  | KFetch didx k => on_map ms didx (fun m => (KValue (m !! k), m))
  | KSize => Some (KCount (zsum (sizes ms)), ms)
  | KDictSize didx => on_map ms didx (fun m => (KCount (msize m), m))
  | KNumNonEmpty => Some (KCount (zsum (non_empty <$> sizes ms)), ms)
  | KNthKey t => if (0 <=? t) && (t <=? zsum (sizes ms)) then Some (KCount (nth_key_dict (sizes ms) t), ms) else None
  | KFirst => Some (KCount (if zsum (sizes ms) =? 0 then -1 else nth_key_dict (sizes ms) 1), ms)
  | KNext didx => on_map ms didx (fun m => (KCount (first_non_empty (drop (Z.to_nat (didx + 1)) (sizes ms)) (didx + 1)), m))
  | KExpand didx _ => on_map ms didx (fun m => (KDone, m))
  | KExpandAll _ | KTryResize _ => Some (KDone, ms)
  | KEmpty => Some (KDone, replicate (length ms) ∅)
  end.

Fixpoint maps_run (ops : list store_op) ms : option (list store_answer * list (gmap K V)) :=
  match ops with
  | [] => Some ([], ms)
  | o :: ops => '(a, ms) ← maps_exec o ms; '(l, ms) ← maps_run ops ms; Some (a :: l, ms)
  end.

Lemma on_map_inv ms didx f a ms' : on_map ms didx f = Some (a, ms') ->
  exists m, 0 <= didx /\ ms !! Z.to_nat didx = Some m /\ a = (f m).1 /\ ms' = <[Z.to_nat didx := (f m).2]> ms.
Proof.
  unfold on_map. destruct (Z.ltb_spec didx 0); [done|]. destruct (ms !! Z.to_nat didx) as [m|]; [|done]. cbn [mbind option_bind].
  destruct (f m) as [a0 m'] eqn:Ef. intros [= <- <-]. exists m. by rewrite Ef.
Qed.

Lemma maps_exec_length o ms a ms' : maps_exec o ms = Some (a, ms') -> length ms' = length ms.
Proof.
  intros E. destruct o; cbn [maps_exec] in E; try (apply on_map_inv in E as (m & _ & _ & _ & ->); by rewrite length_insert);
    try (destruct (_ && _); [|done]); injection E as _ <-; rewrite ?length_replicate; done.
Qed.

Lemma maps_run_length ops : forall ms l ms', maps_run ops ms = Some (l, ms') -> length ms' = length ms.
Proof.
  induction ops as [|o ops IH]; intros ms l ms' E; cbn [maps_run] in E; [by injection E as <- <-|]. destruct (maps_exec o ms) as [[a ms1]|] eqn:E1; [|done].
  cbn [mbind option_bind] in E. destruct (maps_run ops ms1) as [[l1 ms2]|] eqn:E2; [|done]. injection E as <- <-. apply maps_exec_length in E1. apply IH in E2. congruence.
Qed.

Lemma dict_size_ok kvs ms didx m : store_ok kvs ms -> 0 <= didx -> ms !! Z.to_nat didx = Some m -> kvstoreDictSize kvs didx = Some (msize m).
Proof.
  intros St P Hm. unfold kvstoreDictSize. destruct (store_slot _ _ _ _ St P Hm) as (od & -> & Hh & _). cbn [mbind option_bind]. f_equal. destruct od as [d|]; cbn in Hh; [|by subst m].
  rewrite (size_spec type), (models_size type d m Hh) by apply Hh. done.
Qed.

Lemma store_exec_spec can g o kvs ms a ms' : store_ok kvs ms -> room ms -> maps_exec o ms = Some (a, ms') ->
  exists kvs', store_exec can g o kvs = Some (a, kvs') /\ store_ok kvs' ms'.
Proof.
  intros St Rm E. destruct o as [didx k v|didx k v|didx k|didx k|didx k|didx k| |didx| |t| |didx|didx n|n|n|]; cbn [maps_exec store_exec] in *;
    try (apply on_map_inv in E as (m & P & Hm & -> & ->); cbn [fst snd]; rewrite ?(insert_same _ _ _ Hm)).
  - destruct (add_key_spec can g kvs ms didx k v m St Rm P Hm) as (kvs' & -> & St'). exists kvs'. split; [done|]. destruct (bool_decide _); [done|]. by rewrite (insert_same _ _ _ Hm).
  - destruct (set_key_spec can kvs ms didx k v m St Rm P Hm) as (kvs' & -> & St'). by exists kvs'.
  - destruct (delete_key_spec can kvs ms didx k m St P Hm) as (kvs' & -> & St'). by exists kvs'.
  - destruct (unlink_key_spec can kvs ms didx k m St P Hm) as (kvs' & -> & St'). by exists kvs'.
  - destruct (find_key_spec can kvs ms didx k m St P Hm) as (kvs' & -> & St'). by exists kvs'.
  - destruct (fetch_key_spec can kvs ms didx k m St P Hm) as (kvs' & -> & St'). by exists kvs'.
  - injection E as <- <-. exists kvs. unfold kvstoreSize. by rewrite (ct_keys _ _ (so_counted _ _ St)).
  - rewrite (dict_size_ok kvs ms didx m St P Hm). by exists kvs.
  - injection E as <- <-. exists kvs. by rewrite (ct_non_empty _ _ (so_counted _ _ St)).
  - destruct (_ && _) eqn:R; [|done]. injection E as <- <-. rewrite (find_index_ok kvs ms t St) by lia. by exists kvs.
  - injection E as <- <-. rewrite (first_index_ok kvs ms St). by exists kvs.
  - rewrite (next_index_ok kvs ms didx St (map_range _ _ _ _ (so_structure _ _ St) P Hm)). by exists kvs.
  - destruct (expand_one_spec can kvs ms didx n m St P Hm) as (ok & kvs' & -> & St'). by exists kvs'.
  - injection E as <- <-. destruct (expand_all_spec can kvs ms n (fun _ => false) St) as (kvs' & -> & St'). by exists kvs'.
  - injection E as <- <-. destruct (try_resize_spec can kvs ms n St) as (kvs' & -> & St'). by exists kvs'.
  - injection E as <- <-. destruct (empty_store_spec kvs ms St) as (kvs' & -> & St'). by exists kvs'.
Qed.

Lemma total_insert ms i m m' : ms !! i = Some m -> zsum (sizes (<[i := m']> ms)) = zsum (sizes ms) - msize m + msize m'.
Proof. intros Hm. rewrite sizes_insert, (zsum_insert _ _ (msize m)); [done|]. by apply sizes_lookup. Qed.

Lemma msize_insert_le m k v : msize (<[k := v]> m) <= msize m + 1.
Proof. unfold msize. rewrite map_size_insert. destruct (m !! k); cbn; lia. Qed.

Lemma msize_delete_le m k : msize (delete k m) <= msize m.
Proof. unfold msize. rewrite map_size_delete. destruct (m !! k); cbn; lia. Qed.

Lemma maps_exec_total o ms a ms' : maps_exec o ms = Some (a, ms') -> zsum (sizes ms') <= zsum (sizes ms) + 1.
Proof.
  intros E. assert (0 <= zsum (sizes ms)) by (apply zsum_nonneg, Forall_fmap, Forall_forall; intros m _; unfold msize, compose; lia).
  destruct o; cbn [maps_exec] in E; try (apply on_map_inv in E as (m & P & Hm & _ & ->); cbn [fst snd]; rewrite (total_insert _ _ _ _ Hm));
    try (injection E as _ <-); try (pose proof (msize_delete_le m k); lia); try (pose proof (msize_insert_le m k v); lia); try lia.
  - pose proof (msize_insert_le m k v). destruct (bool_decide _); lia.
  - destruct (_ && _); [|done]. injection E as _ <-. lia.
  - rewrite msize_empties, zsum_replicate. lia.
Qed.

Lemma store_run_spec ops : forall kvs ms l ms', store_ok kvs ms -> zsum (sizes ms) + zlen ops < 2 ^ 62 -> maps_run ops.*2 ms = Some (l, ms') ->
  exists kvs', store_run ops kvs = Some (l, kvs') /\ store_ok kvs' ms'.
Proof.
  induction ops as [|[[can g] o] ops IH]; intros kvs ms l ms' St L E; cbn [fmap list_fmap maps_run store_run snd] in *; [injection E as <- <-; by exists kvs|].
  rewrite zlen_cons in L. pose proof (zlen_nonneg ops). destruct (maps_exec o ms) as [[a ms1]|] eqn:E1; [|done]. cbn [mbind option_bind] in E.
  destruct (store_exec_spec can g o kvs ms a ms1 St) as (kvs1 & -> & St1); [unfold room; lia|done|]. cbn [mbind option_bind]. pose proof (maps_exec_total _ _ _ _ E1) as T.
  change (list_fmap _ _ snd ops) with (ops.*2) in E. destruct (maps_run ops.*2 ms1) as [[l1 ms2]|] eqn:E2; [|done]. cbn [mbind option_bind] in E. injection E as <- <-.
  destruct (IH kvs1 ms1 l1 ms2 St1 ltac:(lia) E2) as (kvs2 & -> & St2). by exists kvs2.
Qed.

(** What is in the dictionaries. *)
Definition store_contents kvs : list (gmap K V) := (fun od => match od with Some d => list_to_map (entries d) | None => ∅ end) <$> dicts kvs.

(** What the counts of a store should be. *)
Record consistent kvs : Prop := {
  cs_allocated : allocated_dicts kvs = zsum (allocated_of <$> dicts kvs);
  cs_buckets : bucket_count kvs = u64 (zsum (buckets_of <$> dicts kvs));
  cs_overhead : overhead_hashtable_rehashing kvs = u64 (zsum (overhead_of <$> dicts kvs));
  cs_nodup : NoDup (kvs_rehashing kvs);
  cs_rehashing : forall i, i ∈ kvs_rehashing kvs <-> exists d, kvstoreGetDict kvs i = Some (Some d) /\ dictIsRehashing d = true
}.

Lemma structure_contents kvs ms : structure kvs ms -> store_contents kvs = ms.
Proof.
  intros S. apply list_eq_same_length with (n := length ms); [done|unfold store_contents; rewrite length_fmap; eapply Forall2_length, S|]. intros i m m' Hi Hm Hm'.
  unfold store_contents in Hm. rewrite list_lookup_fmap in Hm. destruct (dicts kvs !! i) as [od|] eqn:Ho; [|done]. injection Hm as <-.
  pose proof (Forall2_lookup_lr _ _ _ _ _ _ (sr_dicts _ _ S) Ho Hm') as Hh. destruct od as [d|]; cbn in *; [apply Hh|done].
Qed.

Lemma structure_consistent kvs ms : structure kvs ms -> consistent kvs.
Proof.
  intros []. split; try done. intros i. rewrite sr_rehashing0. split; [intros ([d|] & G & R'); [by exists d|done]|intros (d & G & R'); by exists (Some d)].
Qed.

(** C10: any sequence of operations on a new store of [2 ^ bits] dictionaries, on
    its dictionaries or on all of them, under any flags, any answers to whether
    an empty dictionary may be freed and any resize policy, answers what the
    same operations on an array of maps answer: keys and values, the numbers of
    keys and of non-empty dictionaries, the dictionary of the n-th key and the
    next one that is not empty. It leaves those maps in the dictionaries, the
    counts of allocated dictionaries and of buckets right, and exactly the
    dictionaries being rehashed in the list of those, each once. Moving a dictionary
    to another store is not among the operations; KvstoreMove.v has it. *)
Theorem kvstore_implements_maps bits flags ops l ms : 0 <= bits <= 16 -> zlen ops < 2 ^ 62 ->
  maps_run ops.*2 (replicate (Z.to_nat (2 ^ bits)) ∅) = Some (l, ms) ->
  exists kvs0 kvs, kvstoreCreate bits flags = Some kvs0 /\ store_run ops kvs0 = Some (l, kvs) /\ store_contents kvs = ms /\ consistent kvs.
Proof.
  intros B L E. destruct (create_store_spec bits flags B) as (kvs0 & C & St0). pose proof (zlen_nonneg ops).
  destruct (store_run_spec ops kvs0 _ l ms St0) as (kvs & R & St); [rewrite msize_empties, zsum_replicate; lia|done|]. exists kvs0, kvs.
  split_and!; [done|done|by apply structure_contents, St|by eapply structure_consistent, St].
Qed.
(** The fields of a dictionary within their C types and bounds, and its entries
    where they belong. *)
Record dict_typed d : Prop := {
  dt_exp : forall b, -1 <= ht_size_exp (ht b d) <= 60;
  dt_table : forall b, zlen (ht_table (ht b d)) = DICTHT_SIZE (ht_size_exp (ht b d));
  dt_used : forall b, ht_used (ht b d) = zlen (concat (ht_table (ht b d))) /\ is_u64 (ht_used (ht b d));
  dt_idx : -1 <= rehashidx d <= DICTHT_SIZE (ht_size_exp (ht0 d));
  dt_bucket : forall b i c k v, chain (ht b d) i = Some c -> (k, v) ∈ c -> index_of (ht b d) (hashFunction type k) = i
}.

Record store_typed kvs : Prop := {
  ty_num : is_i64 (num_dicts kvs) /\ num_dicts kvs = zlen (dicts kvs);
  ty_cursor : is_i32 (resize_cursor kvs) /\ 0 <= resize_cursor kvs < num_dicts kvs;
  ty_allocated : is_i32 (allocated_dicts kvs) /\ 0 <= non_empty_dicts kvs <= allocated_dicts kvs;
  ty_keys : is_u64 (key_count kvs);
  ty_buckets : is_u64 (bucket_count kvs);
  ty_overhead : is_u64 (overhead_hashtable_rehashing kvs);
  ty_rehashing : Forall (fun i => 0 <= i < num_dicts kvs) (kvs_rehashing kvs);
  ty_dicts : forall d, Some d ∈ dicts kvs -> dict_typed d
}.

Lemma wf_typed d : wf type d -> dict_typed d.
Proof.
  intros W. pose proof (w_size _ _ W) as L. rewrite zlen_entries in L. pose proof (zlen_nonneg (entries_of (ht0 d))). pose proof (zlen_nonneg (entries_of (ht1 d))).
  assert (forall b, ht b d = _dictReset \/ ht_ok type (ht b d)) as Sh by (destruct (w_shape _ _ W) as [_ R1 [R0|O0]|[]]; intros []; cbn [ht]; auto).
  split.
  - intros b. destruct (Sh b) as [-> |O]; [done|]. pose proof (ok_exp _ _ O). lia.
  - intros b. by apply (table_length type).
  - intros b. destruct (Sh b) as [Eq|O]; [rewrite Eq; done|]. rewrite (ok_used _ _ O). split; [done|]. pose proof (zlen_nonneg (entries_of (ht b d))). unfold is_u64. destruct b; cbn [ht] in *; lia.
  - pose proof (table_length type false d W) as T. cbn [ht] in T. rewrite <- T. pose proof (zlen_nonneg (ht_table (ht0 d))). destruct (w_shape _ _ W) as [-> _ _|R]; [lia|]. pose proof (rh_idx _ _ R). lia.
  - intros b i c k v Hc Hk. apply chain_inv in Hc as [Pi Hc]. destruct (Sh b) as [Eq|O]; [by rewrite Eq in Hc|]. pose proof (ok_placed _ _ O _ _ Hc) as Bl. unfold belong in Bl.
    rewrite Forall_forall in Bl. specialize (Bl _ Hk). cbn in Bl. rewrite Bl. lia.
Qed.

Lemma non_empty_allocated ods ms : Forall2 holds ods ms -> zsum (non_empty <$> sizes ms) <= zsum (allocated_of <$> ods).
Proof.
  induction 1 as [|od m ods ms Hh _ IH]; [done|]. cbn [sizes fmap list_fmap] in *. rewrite !zsum_cons. unfold sizes in IH. assert (non_empty (msize m) <= allocated_of od); [|lia].
  destruct od as [d|]; cbn in *; [unfold non_empty; case_match; lia|by subst m].
Qed.

Lemma store_ok_typed kvs ms : store_ok kvs ms -> store_typed kvs.
Proof.
  intros [S C]. pose proof (ct_num _ _ C) as N. pose proof (allocated_count _ _ S) as Al. pose proof (zsum_nonneg _ (ct_nonneg _ _ C)). pose proof (ct_total _ _ C). split.
  - rewrite (sr_length _ _ S). split; [unfold is_i64; lia|done].
  - pose proof (sr_cursor _ _ S). split; [unfold is_i32; lia|done].
  - split; [unfold is_i32; lia|]. rewrite (ct_non_empty _ _ C), (sr_allocated _ _ S). split; [apply non_empty_bounds|by apply non_empty_allocated, S].
  - rewrite (ct_keys _ _ C). unfold is_u64. lia.
  - rewrite (sr_buckets _ _ S). apply u64_range.
  - rewrite (sr_overhead _ _ S). apply u64_range.
  - apply Forall_forall. intros i Hi. apply (sr_rehashing _ _ S) in Hi as (od & G & _). apply slot_range in G. by rewrite <- (sr_length _ _ S).
  - intros d Hd. apply list_elem_of_lookup in Hd as [i Hd]. destruct (Forall2_lookup_l _ _ _ _ _ (sr_dicts _ _ S) Hd) as (m & _ & M). by apply wf_typed, M.
Qed.

(** C13: whatever operations are done on a new store, every field of it and of its
    dictionaries stays within its C type and its bounds: the arrays have the
    lengths that the sizes and exponents say, the indexes and cursors are of
    the arrays, the counts do not wrap, and every entry is in the bucket of its
    hash. Moving a dictionary to another store is not among the operations. *)
Theorem store_fields_typed bits flags ops l ms : 0 <= bits <= 16 -> zlen ops < 2 ^ 62 ->
  maps_run ops.*2 (replicate (Z.to_nat (2 ^ bits)) ∅) = Some (l, ms) ->
  exists kvs0 kvs, kvstoreCreate bits flags = Some kvs0 /\ store_run ops kvs0 = Some (l, kvs) /\ store_typed kvs.
Proof.
  intros B L E. destruct (create_store_spec bits flags B) as (kvs0 & C & St0). pose proof (zlen_nonneg ops).
  destruct (store_run_spec ops kvs0 _ l ms St0) as (kvs & R & St); [rewrite msize_empties, zsum_replicate; lia|done|]. exists kvs0, kvs. split_and!; [done|done|by eapply store_ok_typed].
Qed.
End Map.

(** ** Witness *)

(** Four dictionaries, made on demand and freed when empty; the second one grows. *)
Definition sample_store_ops : list (dictResizeEnable * Z * store_op) :=
  (fun o => (DICT_RESIZE_ENABLE, 0, o)) <$>
  ((fun k => KAdd 1 k (k * k)) <$> [1; 2; 3; 4; 5; 6]) ++
  [KSet 3 7 70; KSet 3 7 71; KAdd 0 8 80; KUnlink 0 8; KDelete 1 2; KFind 1 3; KFetch 3 7; KNthKey 6; KFirst; KNext 1; KNumNonEmpty; KDictSize 1; KTryResize 4; KSize].

Lemma kvstore_implements_maps_witness : exists l ms kvs0 kvs,
  kvstoreCreate 2 (Z.lor KVSTORE_ALLOCATE_DICTS_ON_DEMAND KVSTORE_FREE_EMPTY_DICTS) = Some kvs0 /\
  store_run sample_type (fun _ _ => true) sample_store_ops kvs0 = Some (l, kvs) /\ store_contents kvs = ms /\ consistent kvs /\ ms !! 3%nat = Some {[ 7 := 71 ]} /\
  l !! 13%nat = Some (KCount 3) /\ allocated_dicts kvs = 2.
Proof.
  destruct (maps_run sample_store_ops.*2 (replicate (Z.to_nat (2 ^ 2)) ∅)) as [[l ms]|] eqn:E; [|vm_compute in E; discriminate].
  destruct (kvstore_implements_maps sample_type (fun _ _ => true) (fun k => u64_range (k * 7)) 2 (Z.lor KVSTORE_ALLOCATE_DICTS_ON_DEMAND KVSTORE_FREE_EMPTY_DICTS) sample_store_ops l ms)
    as (kvs0 & kvs & C & R & Cn & Cs); [lia|vm_compute; reflexivity|exact E|].
  exists l, ms, kvs0, kvs. split_and!; [exact C|exact R|exact Cn|exact Cs| | |].
  - vm_compute in E. injection E as <- <-. reflexivity.
  - vm_compute in E. injection E as <- <-. reflexivity.
  - vm_compute in C. injection C as <-. vm_compute in R. injection R as <- <-. reflexivity.
Defined.

Lemma store_fields_typed_witness : exists l kvs0 kvs, kvstoreCreate 2 0 = Some kvs0 /\
  store_run sample_type (fun _ _ => true) sample_store_ops kvs0 = Some (l, kvs) /\ store_typed sample_type kvs /\ allocated_dicts kvs = 4 /\ bucket_count kvs = 20.
Proof.
  destruct (maps_run sample_store_ops.*2 (replicate (Z.to_nat (2 ^ 2)) ∅)) as [[l ms]|] eqn:E; [|vm_compute in E; discriminate].
  destruct (store_fields_typed sample_type (fun _ _ => true) (fun k => u64_range (k * 7)) 2 0 sample_store_ops l ms) as (kvs0 & kvs & C & R & Ty); [lia|vm_compute; reflexivity|exact E|].
  exists l, kvs0, kvs. split; [exact C|]. split; [exact R|]. split; [exact Ty|]. vm_compute in C. injection C as <-. vm_compute in R. injection R as _ <-. split; reflexivity.
Defined.
