(* ===== verification/KvstoreScan.v ===== *)
(** Scanning a key-value store ([kvstoreScan] of src/src/kvstore.c): the index of
    the dictionary in the low bits of the cursor, and that a scan returns every
    key that was there throughout, across the dictionaries. *)

From stdpp Require Import base list numbers gmap.
From coqutil Require Import Datatypes.RecordSetters.
From S2P Require Import Prelude FwTree Dict DictMap DictScan Kvstore KvstoreMap.
Import TriangleBracketNotations.

Local Open Scope Z_scope.

(** A cursor whose reversal is a multiple of [2 ^ (64 - k)] has [k] bits. *)
Lemma cursor_width k v : 0 <= k <= 64 -> is_u64 v -> rev v mod 2 ^ (64 - k) = 0 -> v < 2 ^ k.
Proof.
  intros Hk U M. rewrite mod_pow_bits in M by lia. destruct (Z.lt_ge_cases v (2 ^ k)) as [L|L]; [done|]. exfalso. destruct U as [U0 U1].
  assert (0 < 2 ^ k) by (apply Z.pow_pos_nonneg; lia). assert (k <= Z.log2 v) as Hl by (apply Z.log2_le_pow2; lia). assert (Z.log2 v < 64) by (apply Z.log2_lt_pow2; lia).
  specialize (M (63 - Z.log2 v)). rewrite rev_bit in M by (split; lia || lia). replace (63 - (63 - Z.log2 v)) with (Z.log2 v) in M by lia. rewrite Z.bit_log2 in M by lia. by specialize (M ltac:(lia)).
Qed.

Section Scan.
Context {K V : Type} `{Countable K} (type : dictType K).
Implicit Types (kvs : kvstore K V) (d : dict K V) (m : gmap K V) (ms : list (gmap K V)).

Variable canFreeDict : kvstore K V -> Z -> bool.

Hypothesis hash_range : forall k, is_u64 (hashFunction type k).

Notation hash := (hashFunction type).
Notation store_ok := (KvstoreMap.store_ok type).

(** ** Cursors *)

(** The index of the dictionary and its cursor. *)
Definition decode (bits c : Z) : Z * Z := (c mod 2 ^ bits, c / 2 ^ bits).

Lemma get_cursor kvs ms c : store_ok kvs ms -> is_u64 c -> getAndClearDictIndexFromCursor kvs c = decode (num_dicts_bits kvs) c /\
  0 <= (decode (num_dicts_bits kvs) c).1 < num_dicts kvs /\ is_u64 (decode (num_dicts_bits kvs) c).2.
Proof.
  intros St [C0 C1]. pose proof (so_structure _ _ _ St) as S. pose proof (sr_bits _ _ _ S) as B. pose proof (sr_num _ _ _ S) as N. unfold getAndClearDictIndexFromCursor, decode. cbn [fst snd].
  assert (0 < 2 ^ num_dicts_bits kvs) as P by (apply Z.pow_pos_nonneg; lia). rewrite N. split_and!.
  - destruct (Z.eqb_spec (2 ^ num_dicts_bits kvs) 1) as [E|E]; [by rewrite E, Z.mod_1_r, Z.div_1_r|]. rewrite Z.shiftr_div_pow2 by lia. f_equal.
    rewrite <- Z.land_ones, Z.ones_equiv by lia. f_equal; lia.
  - apply Z.mod_pos_bound. lia.
  - apply Z.mod_pos_bound. lia.
  - assert (c / 2 ^ num_dicts_bits kvs <= c / 1) by (apply Z.div_le_compat_l; lia). rewrite Z.div_1_r in *. split; [apply Z.div_pos; lia|lia].
Qed.

Lemma add_cursor kvs ms didx v : store_ok kvs ms -> 0 <= didx < num_dicts kvs -> 0 <= v < 2 ^ (64 - num_dicts_bits kvs) ->
  let c := addDictIndexToCursor kvs didx v in is_u64 c /\ decode (num_dicts_bits kvs) c = (didx, v) /\ (c = 0 -> didx = 0 /\ v = 0).
Proof.
  intros St R Hv. pose proof (so_structure _ _ _ St) as S. pose proof (sr_bits _ _ _ S) as B. pose proof (sr_num _ _ _ S) as N. set (b := num_dicts_bits kvs) in *.
  assert (0 < 2 ^ b) as P by (apply Z.pow_pos_nonneg; lia). assert (2 ^ 64 = 2 ^ (64 - b) * 2 ^ b) as X by (rewrite <- Z.pow_add_r by lia; f_equal; lia).
  assert (addDictIndexToCursor kvs didx v = v * 2 ^ b + didx) as E.
  { unfold addDictIndexToCursor. fold b. destruct (Z.eqb_spec (num_dicts kvs) 1) as [N1|N1].
    - assert (2 ^ b = 1) as -> by lia. lia.
    - destruct (Z.ltb_spec didx 0); [lia|]. rewrite Z.shiftl_mul_pow2 by lia. rewrite u64_small by (unfold is_u64; nia).
      assert (Z.land (v * 2 ^ b) didx = 0) as D.
      { apply Z.bits_inj'. intros i Hi. rewrite Z.land_spec, Z.bits_0. destruct (Z.lt_ge_cases i b) as [L|L]; [by rewrite Z.mul_pow2_bits_low by lia|].
        assert (Z.testbit didx i = false) as ->; [|apply andb_false_r]. destruct (Z.eq_dec didx 0) as [->|Nz]; [apply Z.bits_0|]. apply Z.bits_above_log2; [lia|].
        assert (Z.log2 didx < b) by (apply Z.log2_lt_pow2; lia). lia. }
      rewrite <- Z.lxor_lor by done. by rewrite <- Z.add_nocarry_lxor. }
  cbn zeta. rewrite E. split_and!.
  - unfold is_u64. nia.
  - unfold decode. f_equal; [rewrite Z.add_comm, Z.mod_add by lia; apply Z.mod_small; lia|]. rewrite Z.add_comm, Z.div_add, Z.div_small by lia. lia.
  - nia.
Qed.

(** ** Scanning *)

(** The cursor of every dictionary leaves room for the index. *)
Definition fits kvs : bool :=
  forallb (fun od => match od with Some d => ht_size_exp (ht0 d) <=? 64 - num_dicts_bits kvs | None => true end) (dicts kvs).

(** A place in the order in which a scan visits the keys. *)
Definition before (p q : Z * Z) : Prop := p.1 < q.1 \/ (p.1 = q.1 /\ p.2 <= q.2).

Definition place (bits c : Z) : Z * Z := ((decode bits c).1, rev (decode bits c).2).

Lemma dict_scan_call d m v : models type d m -> is_u64 v -> exists l v', dictScan d v = Some (l, v') /\ is_u64 v' /\ of_map l m /\
  (forall k x, m !! k = Some x -> rev v <= rev (hash k) -> (k, x) ∈ l \/ (v' <> 0 /\ rev v' <= rev (hash k))) /\
  (forall b, 0 <= b <= 64 -> ht_size_exp (ht0 d) <= b -> v' < 2 ^ b).
Proof.
  intros M U. destruct (scan_call type hash_range d m v M U) as (l & v' & E & U' & Om & Cv). exists l, v'. split_and!; try done. intros b Hb Hx.
  destruct (Z.eq_dec (dictSize d) 0) as [Z0|N].
  { unfold dictScan in E. rewrite Z0 in E. injection E as <- <-. apply Z.pow_pos_nonneg; lia. }
  destruct (scan_spec type hash_range d v (md_wf _ _ _ M) U N) as (l' & v'' & k0 & E' & _ & K0 & K1 & R & _). rewrite E in E'. injection E' as <- <-.
  assert (v' < 2 ^ k0) as L by (apply cursor_width; [lia|done|rewrite R; apply u64_multiple; lia]). assert (2 ^ k0 <= 2 ^ b) by (apply Z.pow_le_mono_r; lia). lia.
Qed.

Lemma first_non_empty_spec sz : forall i, let r := first_non_empty sz i in
  (r = -1 /\ forall j x, sz !! j = Some x -> x = 0) \/
  (exists j : nat, r = i + Z.of_nat j /\ (j < length sz)%nat /\ forall j' x, (j' < j)%nat -> sz !! j' = Some x -> x = 0).
Proof.
  induction sz as [|s sz IH]; intros i; cbn [first_non_empty]; [left; split; [done|]; by intros j x|]. destruct (Z.eqb_spec s 0) as [->|Ns].
  - destruct (IH (i + 1)) as [[-> Ze]|(j & -> & L & Ze)].
    + left. split; [done|]. intros [|j] x Hx; [by injection Hx|by apply (Ze j)].
    + right. exists (S j). split_and!; [lia|cbn; lia|]. intros [|j'] x Hj Hx; [by injection Hx|apply (Ze j'); [lia|done]].
  - right. exists O. split_and!; [lia|cbn; lia|]. intros j' x Hj. lia.
Qed.

Lemma msize_zero m : msize m = 0 -> m = ∅.
Proof. unfold msize. intros E. apply map_size_empty_inv. lia. Qed.

(** The next dictionary: there are no keys in between. *)
Lemma next_dict_spec kvs ms didx : store_ok kvs ms -> 0 <= didx < num_dicts kvs -> exists r, kvstoreGetNextNonEmptyDictIndex kvs didx = Some r /\
  ((r = -1 /\ forall i m, didx < i -> ms !! Z.to_nat i = Some m -> m = ∅) \/
   (didx < r < num_dicts kvs /\ forall i m, didx < i < r -> ms !! Z.to_nat i = Some m -> m = ∅)).
Proof.
  intros St R. rewrite (next_index_ok type kvs ms didx St R). eexists. split; [reflexivity|]. set (l := drop (Z.to_nat (didx + 1)) (sizes ms)).
  assert (forall i m, didx < i -> ms !! Z.to_nat i = Some m -> l !! Z.to_nat (i - (didx + 1)) = Some (msize m)) as Lk.
  { intros i m Hi Hm. unfold l. rewrite lookup_drop. replace (Z.to_nat (didx + 1) + Z.to_nat (i - (didx + 1)))%nat with (Z.to_nat i) by lia. by apply sizes_lookup. }
  destruct (first_non_empty_spec l (didx + 1)) as [[-> Ze]|(j & -> & Lj & Ze)].
  - left. split; [done|]. intros i m Hi Hm. apply msize_zero. by eapply Ze, Lk.
  - right. split.
    + unfold l in Lj. rewrite length_drop in Lj. pose proof (store_length type _ _ St) as Ln. unfold sizes in Lj. rewrite length_fmap in Lj. unfold zlen in Ln. lia.
    + intros i m Hi Hm. apply msize_zero. apply (Ze (Z.to_nat (i - (didx + 1)))); [lia|]. apply Lk; [lia|done].
Qed.

Lemma add_cursor_u64 kvs ms didx v : store_ok kvs ms -> 0 <= didx < num_dicts kvs -> is_u64 v -> is_u64 (addDictIndexToCursor kvs didx v).
Proof.
  intros St R U. unfold addDictIndexToCursor. destruct (num_dicts kvs =? 1); [done|]. destruct (Z.ltb_spec didx 0); [lia|]. pose proof (u64_range (Z.shiftl v (num_dicts_bits kvs))) as Us.
  assert (is_u64 didx) as Ud. { pose proof (ct_num _ _ (so_counted _ _ _ St)). unfold is_u64. lia. }
  apply bits_u64; [apply Z.lor_nonneg; split; [apply Us|lia]|]. intros i Hi. by rewrite Z.lor_spec, !high_bit.
Qed.

(** The part of a call that scans one dictionary. *)
Lemma scan_dict_spec kvs ms didx v od m : store_ok kvs ms -> kvstoreGetDict kvs didx = Some od -> ms !! Z.to_nat didx = Some m -> is_u64 v ->
  exists (skip : bool) l v' kvs', (match od with
      | Some d => if (fun (_ : dict K V) (_ : Z) => false) d didx then Some (true, [], 0, kvs)
                  else '(l, v) ← dictScan d v; kvs ← freeDictIfNeeded canFreeDict kvs didx; Some (false, l, v, kvs)
      | None => Some (true, [], 0, kvs)
      end) = Some (skip, l, v', kvs') /\ (skip = true -> v' = 0) /\ store_ok kvs' ms /\ num_dicts_bits kvs' = num_dicts_bits kvs /\ is_u64 v' /\ of_map l m /\
    (forall k x, m !! k = Some x -> rev v <= rev (hash k) -> (k, x) ∈ l \/ (v' <> 0 /\ rev v' <= rev (hash k))) /\
    (fits kvs = true -> v' < 2 ^ (64 - num_dicts_bits kvs)).
Proof.
  intros St G Hm U. pose proof St as [S C]. pose proof (sr_bits _ _ _ S) as B. destruct (get_dict _ _ _ G) as [P L].
  pose proof (Forall2_lookup_lr _ _ _ _ _ _ (sr_dicts _ _ _ S) L Hm) as Hh. destruct od as [d|]; cbn in Hh.
  - destruct (dict_scan_call d m v Hh U) as (l & v' & -> & U' & Om & Cv & Wd). cbn [mbind option_bind].
    pose proof (map_range type _ _ _ _ S P Hm) as R. destruct (free_spec type canFreeDict hash_range kvs ms didx S R) as (kvs' & -> & S' & Sc). cbn [mbind option_bind].
    eexists _, _, _, _. split; [reflexivity|]. split_and!; try done; [split; [done|by eapply counted_same]|apply Sc|].
    intros F. apply Wd; [lia|]. unfold fits in F. rewrite forallb_forall in F. specialize (F (Some d)). rewrite <- list_elem_of_In in F. apply list_elem_of_lookup_2 in L. apply Z.leb_le, (F L).
  - subst m. eexists _, _, _, _. split; [reflexivity|]. split_and!; try done; [intros k x Hx; by apply elem_of_nil in Hx|]. intros _. apply Z.pow_pos_nonneg; lia.
Qed.

(** One call: what it returns is in the dictionary the cursor names, and every
    entry from the cursor on is returned or is from the next cursor on. *)
Lemma store_scan_call kvs ms c : store_ok kvs ms -> is_u64 c -> let didx := (decode (num_dicts_bits kvs) c).1 in
  exists l c' kvs' m, kvstoreScan canFreeDict kvs c (-1) (fun _ _ => false) = Some (l, c', kvs') /\ store_ok kvs' ms /\ num_dicts_bits kvs' = num_dicts_bits kvs /\ is_u64 c' /\
    ms !! Z.to_nat didx = Some m /\ of_map l m /\
    (fits kvs = true -> forall i mi k x, 0 <= i -> ms !! Z.to_nat i = Some mi -> mi !! k = Some x -> before (place (num_dicts_bits kvs) c) (i, rev (hash k)) ->
      (i = didx /\ (k, x) ∈ l) \/ (c' <> 0 /\ before (place (num_dicts_bits kvs) c') (i, rev (hash k)))).
Proof.
  intros St U didx. destruct (get_cursor kvs ms c St U) as (G & R & Uv). fold didx in R. unfold kvstoreScan. rewrite G. unfold place. set (v := (decode _ c).2) in *. 
  rewrite (surjective_pairing (decode _ c)). fold didx v. cbn [Z.geb Z.compare andb]. destruct (structure_slot type kvs ms didx (so_structure _ _ _ St) R) as (od & m & Gd & Hm & _). rewrite Gd. cbn [mbind option_bind].
  destruct (scan_dict_spec kvs ms didx v od m St Gd Hm Uv) as (skip & l & v' & kvs' & Es & Sk & St' & Bt & Uv' & Om & Cv & Wd).
  cbn zeta beta in Es. rewrite Es. cbn [mbind option_bind]. clear Es.
  assert ((v' =? 0) || skip = (v' =? 0)) as -> by (destruct skip; [rewrite (Sk eq_refl); done|apply orb_false_r]).
  assert (num_dicts kvs' = num_dicts kvs) as Nd by (rewrite (sr_num _ _ _ (so_structure _ _ _ St)), (sr_num _ _ _ (so_structure _ _ _ St')); congruence).
  pose proof (sr_bits _ _ _ (so_structure _ _ _ St)) as B. rewrite <- Nd in R. destruct (Z.eqb_spec v' 0) as [->|Nv].
  - destruct (next_dict_spec kvs' ms didx St' R) as (r & -> & Hr). cbn [mbind option_bind]. destruct (Z.eqb_spec r (-1)) as [->|Nr].
    + eexists _, _, _, m. do 3 (split; [done|]). split; [split; lia|]. do 2 (split; [done|]). destruct Hr as [[_ Ze]|Hr]; [|lia]. intros F i mi k x Pi Hi Hk Be; unfold before in Be; cbn [fst snd] in Be. left.
      assert (i = didx) as ->. { destruct Be as [Be|Be]; [|by destruct Be]. rewrite (Ze i mi Be Hi) in Hk. by rewrite lookup_empty in Hk. }
      rewrite Hm in Hi. injection Hi as <-. split; [done|]. destruct Be as [Be|[_ Be]]; [lia|]. destruct (Cv k x Hk Be) as [Hl|[Nl _]]; [exact Hl|by elim Nl].
    + destruct Hr as [[? _]|[Rr Ze]]; [done|]. eexists _, _, _, m. do 3 (split; [done|]). split; [apply (add_cursor_u64 _ _ _ _ St'); [lia|done]|]. do 2 (split; [done|]). intros F i mi k x Pi Hi Hk Be; unfold before in Be; cbn [fst snd] in Be.
      destruct (add_cursor kvs' ms r 0 St') as (_ & D & Nz); [lia|split; [done|apply Z.pow_pos_nonneg; lia]|]. rewrite Bt in D. rewrite D. cbn [fst snd].
      assert (rev 0 = 0) as R0 by (vm_compute; reflexivity). destruct Be as [Be|[Ei Be]].
      * right. split; [intros Ez; apply Nz in Ez; lia|]. assert (r <= i) as Lr. { destruct (Z.lt_ge_cases i r); [|done]. rewrite (Ze i mi) in Hk by done || lia. by rewrite lookup_empty in Hk. }
        destruct (Z.eq_dec i r) as [->|]; [right|left]; cbn [fst snd]; [split; [done|]|lia]. rewrite R0. apply rev_u64, hash_range.
      * left. subst i. rewrite Hm in Hi. injection Hi as <-. split; [done|]. destruct (Cv k x Hk Be) as [Hl|[Nl _]]; [exact Hl|by elim Nl].
  - destruct (Z.eqb_spec didx (-1)); [lia|]. eexists _, _, _, m. do 3 (split; [done|]). split; [by apply (add_cursor_u64 _ _ _ _ St')|]. do 2 (split; [done|]). intros F i mi k x Pi Hi Hk Be; unfold before in Be; cbn [fst snd] in Be.
    destruct (add_cursor kvs' ms didx v' St') as (_ & D & Nz); [done|rewrite Bt; split; [apply Uv'|by apply Wd]|]. rewrite Bt in D. rewrite D. cbn [fst snd].
    assert (addDictIndexToCursor kvs' didx v' <> 0) by (intros Ez; apply Nz in Ez; lia). destruct Be as [Be|[Ei Be]]; [by right; split; [|left]|].
    subst i. rewrite Hm in Hi. injection Hi as <-. destruct (Cv k x Hk Be) as [Hl|[_ Hv]]; [by left|]. right. split; [done|]. right. done.
Qed.

(** ** Scans of a store that is changed between the calls *)

(** Calls of [kvstoreScan], each with the cursor of the one before and after any
    operations on the store: the dictionary scanned and the entries, whether the
    cursors had room for the index, and the last cursor. *)
Fixpoint store_session (calls : list (list (dictResizeEnable * V * store_op))) kvs (c : Z) : option (list (Z * list (K * V)) * bool * Z) :=
  match calls with
  | [] => Some ([], true, c)
  | ops :: calls =>
      '(_, kvs) ← store_run type canFreeDict ops kvs;
      '(l, c', kvs') ← kvstoreScan canFreeDict kvs c (-1) (fun _ _ => false);
      '(ls, fit, last) ← store_session calls kvs' c';
      Some (((getAndClearDictIndexFromCursor kvs c).1, l) :: ls, fits kvs && fit, last)
  end.

(** What the dictionaries hold at each call. *)
Fixpoint maps_at (calls : list (list (dictResizeEnable * V * store_op))) ms : option (list (list (gmap K V))) :=
  match calls with
  | [] => Some []
  | ops :: calls => '(_, ms) ← maps_run ops.*2 ms; mss ← maps_at calls ms; Some (ms :: mss)
  end.

Definition store_holds ms (i : Z) (k : K) (x : V) : Prop := 0 <= i /\ exists m, ms !! Z.to_nat i = Some m /\ m !! k = Some x.

(** The entries are in the dictionary named. *)
Definition of_store (r : Z * list (K * V)) ms : Prop := forall k x, (k, x) ∈ r.2 -> store_holds ms r.1 k x.

Definition store_returned (ls : list (Z * list (K * V))) (mss : list (list (gmap K V))) (i : Z) (k : K) : Prop :=
  exists n l ms x, ls !! n = Some (i, l) /\ mss !! n = Some ms /\ store_holds ms i k x /\ (k, x) ∈ l.

Lemma store_returned_cons r ls ms mss i k : store_returned ls mss i k -> store_returned (r :: ls) (ms :: mss) i k.
Proof. intros (n & l & ms' & x & L). by exists (S n), l, ms', x. Qed.

Lemma maps_run_total ops : forall ms l ms', maps_run ops ms = Some (l, ms') -> zsum (sizes ms') <= zsum (sizes ms) + zlen ops.
Proof.
  induction ops as [|o ops IH]; intros ms l ms' E; cbn [maps_run] in E; [injection E as <- <-; rewrite zlen_nil; lia|]. rewrite zlen_cons.
  destruct (maps_exec o ms) as [[a ms1]|] eqn:E1; [|done]. cbn [mbind option_bind] in E. destruct (maps_run ops ms1) as [[l1 ms2]|] eqn:E2; [|done]. injection E as <- <-.
  apply maps_exec_total in E1. apply IH in E2. lia.
Qed.

(** The number of dictionaries does not change. *)
Lemma bits_of_maps kvs ms kvs' ms' : store_ok kvs ms -> store_ok kvs' ms' -> length ms' = length ms -> num_dicts_bits kvs' = num_dicts_bits kvs.
Proof.
  intros St St' Ln. pose proof (store_length type _ _ St) as L. pose proof (store_length type _ _ St') as L'. pose proof (so_structure _ _ _ St) as S. pose proof (so_structure _ _ _ St') as S'.
  pose proof (sr_bits _ _ _ S). pose proof (sr_bits _ _ _ S'). rewrite (sr_num _ _ _ S) in L. rewrite (sr_num _ _ _ S') in L'. unfold zlen in *.
  apply (Z.pow_inj_r 2); lia.
Qed.

Lemma store_session_spec calls : forall kvs ms mss c, store_ok kvs ms -> is_u64 c -> zsum (sizes ms) + zlen (concat calls) < 2 ^ 62 -> maps_at calls ms = Some mss ->
  exists ls fit last, store_session calls kvs c = Some (ls, fit, last) /\ Forall2 of_store ls mss /\
    (last = 0 -> fit = true -> calls <> [] \/ c <> 0 -> forall i k, before (place (num_dicts_bits kvs) c) (i, rev (hash k)) ->
      Forall (fun ms => exists x, store_holds ms i k x) mss -> store_returned ls mss i k).
Proof.
  induction calls as [|ops calls IH]; intros kvs ms mss c St U L E; cbn [store_session maps_at concat] in *.
  { injection E as <-. exists [], true, c. split_and!; [done|constructor|]. intros -> _ [|]; done. }
  rewrite zlen_app in L. pose proof (zlen_nonneg (concat calls)). destruct (maps_run ops.*2 ms) as [[al ms1]|] eqn:E1; [|done]. cbn [mbind option_bind] in E.
  destruct (maps_at calls ms1) as [mss1|] eqn:E2; [|done]. injection E as <-. destruct (store_run_spec type canFreeDict hash_range ops kvs ms al ms1 St) as (kvs1 & -> & St1); [lia|done|]. cbn [mbind option_bind].
  assert (num_dicts_bits kvs1 = num_dicts_bits kvs) as Bt by (by eapply (bits_of_maps kvs ms kvs1 ms1), maps_run_length).
  destruct (store_scan_call kvs1 ms1 c St1 U) as (l & c' & kvs2 & m & -> & St2 & B2 & U2 & Hm & Om & Cv). cbn [mbind option_bind]. destruct (get_cursor kvs1 ms1 c St1 U) as (Gc & Rc & _). rewrite Gc.
  apply maps_run_total in E1. unfold zlen in E1, L. rewrite length_fmap in E1. destruct (IH kvs2 ms1 mss1 c' St2 U2) as (ls & fit & last & -> & F & C); [unfold zlen; lia|done|]. cbn [mbind option_bind].
  eexists _, _, _. split; [reflexivity|]. split.
  { constructor; [|done]. intros k x Hk. split; [apply Rc|]. exists m. split; [done|by apply Om]. }
  intros El [Ft1 Ft]%andb_true_iff _ i k Be P. apply Forall_cons in P as [(x & Pi & mi & Hi & Hk) P]. rewrite <- Bt in Be.
  destruct (Cv Ft1 i mi k x Pi Hi Hk Be) as [[-> Hl]|[Nc Be']].
  - exists O, l, ms1, x. split_and!; [done|done| |done]. split; [done|]. by exists mi.
  - apply store_returned_cons, C; auto. by rewrite B2.
Qed.

(** C11: calls of [kvstoreScan], the first with cursor 0 and each other one with
    the cursor of the call before, while any operations change the store between
    them (creating, growing, shrinking, rehashing, emptying and freeing its
    dictionaries): every call returns entries of the dictionary its cursor names,
    and when the cursor is 0 again every key that was in a dictionary at all the
    calls has been returned from it, as long as the tables leave the cursor the
    bits of the index. *)
Theorem kvstore_scan_returns_all bits flags calls mss : 0 <= bits <= 16 -> zlen (concat calls) < 2 ^ 62 ->
  maps_at calls (replicate (Z.to_nat (2 ^ bits)) ∅) = Some mss ->
  exists kvs ls fit last, kvstoreCreate bits flags = Some kvs /\ store_session calls kvs 0 = Some (ls, fit, last) /\ Forall2 of_store ls mss /\
    (last = 0 -> fit = true -> calls <> [] -> forall i k, Forall (fun ms => exists x, store_holds ms i k x) mss -> store_returned ls mss i k).
Proof.
  intros B L E. destruct (create_store_spec (V:=V) type hash_range bits flags B) as (kvs & C & St). 
  destruct (store_session_spec calls kvs _ mss 0 St) as (ls & fit & last & Es & F & Cv); [split; lia|rewrite msize_empties, zsum_replicate; lia|done|].
  exists kvs, ls, fit, last. split_and!; [done|done|done|]. intros El Ft N i k P. apply Cv; auto. pose proof (sr_bits _ _ _ (so_structure _ _ _ St)).
  assert (0 < 2 ^ num_dicts_bits kvs) by (apply Z.pow_pos_nonneg; lia). unfold place, decode. cbn [fst snd]. rewrite Z.mod_0_l, Z.div_0_l by lia.
  assert (rev 0 = 0) as -> by (vm_compute; reflexivity). pose proof (rev_u64 _ (hash_range k)) as [Hr _].
  destruct calls as [|ops calls]; [done|]. cbn [maps_at] in E. destruct (maps_run _ _) as [[al ms]|]; [|done]. cbn [mbind option_bind] in E. destruct (maps_at calls ms) as [mss'|]; [|done]. injection E as <-.
  apply Forall_cons in P as [(x & Pi & _) _]. destruct (Z.eq_dec i 0) as [->|]; [by right|left; cbn; lia].
Qed.
End Scan.

(** ** Witness *)

(** A scan over two dictionaries, the first of which grows meanwhile. *)
Definition sample_store_calls : list (list (dictResizeEnable * Z * store_op)) :=
  let op o := (DICT_RESIZE_ENABLE, 0, o) in let add i k := op (KAdd i k (k * k)) in
  [(add 1 <$> [1; 2; 3; 4]) ++ [add 3 9]; add 1 <$> [5; 6; 7; 8; 9]; [op (KDelete 1 2)]; []; []; []; [op (KTryResize 4)]; []; []; []; []; []; []].

Lemma kvstore_scan_returns_all_witness : exists kvs ls mss, kvstoreCreate 2 (Z.lor KVSTORE_ALLOCATE_DICTS_ON_DEMAND KVSTORE_FREE_EMPTY_DICTS) = Some kvs /\
  store_session sample_type (fun _ _ => true) sample_store_calls kvs 0 = Some (ls, true, 0) /\ store_returned ls mss 1 1 /\ store_returned ls mss 1 4 /\ store_returned ls mss 3 9.
Proof.
  set (ms0 := replicate (Z.to_nat (2 ^ 2)) (∅ : gmap Z Z)).
  assert (forall i k x, 0 <= i -> match maps_at sample_store_calls ms0 with Some mss => forallb (fun ms => bool_decide ((ms !! Z.to_nat i) ≫= (.!! k) = Some x)) mss | None => false end = true ->
    exists mss, maps_at sample_store_calls ms0 = Some mss /\ Forall (fun ms => exists x, store_holds ms i k x) mss) as Fa.
  { intros i k x P F. destruct (maps_at sample_store_calls ms0) as [mss|]; [|discriminate]. exists mss. split; [reflexivity|]. apply Forall_forall. intros ms Hin. rewrite forallb_forall in F. apply list_elem_of_In in Hin. apply F in Hin. apply bool_decide_eq_true in Hin.
    destruct (ms !! Z.to_nat i) as [m|] eqn:Hm; [|discriminate]. exists x. split; [exact P|]. exists m. split; [exact Hm|exact Hin]. }
  destruct (Fa 1 1 1 ltac:(lia) ltac:(vm_cast_no_check (eq_refl true))) as (mss & E & F1). destruct (Fa 1 4 16 ltac:(lia) ltac:(vm_cast_no_check (eq_refl true))) as (mss2 & E2 & F2).
  destruct (Fa 3 9 81 ltac:(lia) ltac:(vm_cast_no_check (eq_refl true))) as (mss3 & E3 & F3). rewrite E in E2, E3. injection E2 as <-. injection E3 as <-.
  destruct (kvstore_scan_returns_all sample_type (fun _ _ => true) (fun k => u64_range (k * 7)) 2 (Z.lor KVSTORE_ALLOCATE_DICTS_ON_DEMAND KVSTORE_FREE_EMPTY_DICTS) sample_store_calls mss)
    as (kvs & ls & fit & last & C & Ss & _ & Cv); [lia|vm_compute; reflexivity|exact E|].
  assert (fit = true /\ last = 0) as [-> ->] by (vm_compute in C; injection C as <-; vm_compute in Ss; injection Ss as <- <- <-; split; reflexivity).
  exists kvs, ls, mss. split; [exact C|]. split; [exact Ss|]. split_and!; (apply Cv; [reflexivity|reflexivity|discriminate|assumption]).
Defined.
