(* ===== verification/KvstoreIter.v ===== *)
(** Iterating over a key-value store ([kvstoreIterator] of src/src/kvstore.c): the
    iterator goes from a dictionary to the next non-empty one, with the safe
    iterator of each, and returns every entry of the store once. *)

From stdpp Require Import base list numbers gmap.
From coqutil Require Import Datatypes.RecordSetters.
From S2P Require Import Prelude FwTree Dict DictMap DictScan Kvstore KvstoreMap.
Import TriangleBracketNotations.

Local Open Scope Z_scope.

(** ** Lists of lists *)

Lemma first_non_empty_concat {A} (E : list (list A)) : forall i, let r := first_non_empty (zlen <$> E) i in
  (r = -1 /\ concat E = []) \/ (exists j l, r = i + Z.of_nat j /\ E !! j = Some l /\ zlen l <> 0 /\ concat E = l ++ concat (drop (S j) E)).
Proof.
  induction E as [|l E IH]; intros i; [by left|]. cbn [fmap list_fmap first_non_empty concat]. destruct (Z.eqb_spec (zlen l) 0) as [Z0|N].
  - assert (l = []) as -> by (destruct l; [done|rewrite zlen_cons in Z0; pose proof (zlen_nonneg l); lia]).
    destruct (IH (i + 1)) as [[-> ->]|(j & l & -> & Hl & Nl & ->)]; [by left|]. right. exists (S j), l. split_and!; [lia|done|done|done].
  - right. exists O, l. split_and!; [lia|done|done|]. cbn [drop]. done.
Qed.

Lemma zlen_concat {A} (E : list (list A)) : zlen (concat E) = zsum (zlen <$> E).
Proof. induction E as [|l E IH]; [done|]. cbn [concat fmap list_fmap]. rewrite zlen_app, zsum_cons. by f_equal. Qed.

Lemma nth_key_first sz : Forall (fun x => 0 <= x) sz -> forall i, 0 <= i -> (if zsum sz =? 0 then -1 else i + nth_key_dict sz 1) = first_non_empty sz i.
Proof.
  intros F. induction F as [|s sz Hs F IH]; intros i P; [done|]. cbn [first_non_empty nth_key_dict]. rewrite zsum_cons. pose proof (zsum_nonneg _ F) as Zn.
  destruct (Z.eqb_spec s 0) as [->|N].
  - rewrite <- IH by lia. rewrite Z.add_0_l. destruct (zsum sz =? 0); [done|]. destruct (Z.leb_spec 1 0); [lia|]. replace (1 - 0) with 1 by lia. lia.
  - destruct (Z.eqb_spec (s + zsum sz) 0); [lia|]. destruct (Z.leb_spec 1 s); lia.
Qed.

Section Iter.
Context {K V : Type} `{Countable K} (type : dictType K).
Implicit Types (kvs : kvstore K V) (d : dict K V) (m : gmap K V) (ms : list (gmap K V)) (it : @kvstoreIterator K V).

Variable canFreeDict : kvstore K V -> Z -> bool.

Hypothesis hash_range : forall k, is_u64 (hashFunction type k).

Notation store_ok := (KvstoreMap.store_ok type).

Definition slot_entries (od : option (dict K V)) : list (K * V) := match od with Some d => entries d | None => [] end.
Definition all_entries kvs : list (list (K * V)) := slot_entries <$> dicts kvs.

(** The entries from a dictionary on. *)
Definition rest_from kvs (i : Z) : list (K * V) := concat (drop (Z.to_nat i) (all_entries kvs)).

Lemma entries_sizes kvs ms : store_ok kvs ms -> zlen <$> all_entries kvs = sizes ms.
Proof.
  intros [S _]. unfold all_entries, sizes. rewrite <- list_fmap_compose. pose proof (sr_dicts _ _ _ S) as F. revert F. generalize (dicts kvs). clear S. intros ods F. induction F as [|od m ods ms Hh _ IH]; [done|]. cbn [fmap list_fmap]. f_equal; [|done].
  unfold compose. destruct od as [d|]; cbn in *; [by rewrite (models_size type d m Hh)|by subst m].
Qed.

(** The dictionary that follows. *)
Lemma rest_next kvs ms i : store_ok kvs ms -> 0 <= i -> let r := first_non_empty (drop (Z.to_nat i) (sizes ms)) i in
  (r = -1 /\ rest_from kvs i = []) \/
  (exists d m, i <= r /\ kvstoreGetDict kvs r = Some (Some d) /\ ms !! Z.to_nat r = Some m /\ models type d m /\ dictSize d <> 0 /\ rest_from kvs i = entries d ++ rest_from kvs (r + 1)).
Proof.
  intros St P. rewrite <- (entries_sizes kvs ms St), <- fmap_drop. unfold rest_from. cbn zeta.
  destruct (first_non_empty_concat (drop (Z.to_nat i) (all_entries kvs)) i) as [[-> ->]|(j & l & -> & Hl & Nl & ->)]; [by left|]. right.
  rewrite lookup_drop in Hl. unfold all_entries in Hl. rewrite list_lookup_fmap in Hl. replace (Z.to_nat i + j)%nat with (Z.to_nat (i + Z.of_nat j)) in Hl by lia.
  destruct (dicts kvs !! Z.to_nat (i + Z.of_nat j)) as [od|] eqn:Ho; [|done]. injection Hl as <-. destruct od as [d|]; [|done]. cbn [slot_entries] in *.
  destruct (Forall2_lookup_l _ _ _ _ _ (sr_dicts _ _ _ (so_structure _ _ _ St)) Ho) as (m & Hm & M). cbn in M. exists d, m. split_and!; try done; [lia| | |].
  - unfold kvstoreGetDict. by zdec.
  - by rewrite (size_spec type) by apply M.
  - rewrite drop_drop. do 3 f_equal. lia.
Qed.

(** Pausing and resuming a dictionary. *)
Lemma keep_entries kvs ms didx d d' m : store_ok kvs ms -> kvstoreGetDict kvs didx = Some (Some d) -> ms !! Z.to_nat didx = Some m -> models type d m -> same_tables d d' ->
  let kvs' := update_dict didx d d' kvs in
  store_ok kvs' ms /\ kvstoreGetDict kvs' didx = Some (Some d') /\ models type d' m /\ entries d' = entries d /\ all_entries kvs' = all_entries kvs.
Proof.
  intros St G Hm M Sm kvs'. destruct (same_tables_wf type _ _ Sm (md_wf _ _ _ M)) as [W' E']. pose proof (models_same type d d' m M Sm) as M'.
  destruct (store_keep type kvs ms didx d d' m St G Hm M') as [St' G']; [by rewrite (st_told _ _ Sm)|]. split_and!; try done. destruct (get_dict _ _ _ G) as [P Lk].
  unfold all_entries. assert (dicts kvs' = <[Z.to_nat didx := Some d']> (dicts kvs)) as -> by (unfold kvs', update_dict, callbacks; rewrite (st_told _ _ Sm), drop_all; by destruct kvs).
  rewrite list_fmap_insert. cbn [slot_entries]. apply list_insert_id. by rewrite list_lookup_fmap, Lk, E'.
Qed.

Lemma free_no_op kvs didx d : kvstoreGetDict kvs didx = Some (Some d) -> dictSize d <> 0 -> freeDictIfNeeded canFreeDict kvs didx = Some kvs.
Proof.
  intros G N. unfold freeDictIfNeeded. rewrite G. cbn [mbind option_bind]. destruct (Z.eqb_spec (dictSize d) 0); [done|]. cbn [negb]. by rewrite orb_true_r.
Qed.

(** The store while a dictionary is iterated over: [d] is its dictionary. *)
Record in_dict it kvs ms (di : @dictIterator K V) d m : Prop := {
  id_ok : store_ok kvs ms;
  id_get : kvstoreGetDict kvs (ki_didx it) = Some (Some d);
  id_map : ms !! Z.to_nat (ki_didx it) = Some m;
  id_models : models type d m;
  id_size : dictSize d <> 0;
  id_di : ki_di it = Some di;
  id_safe : it_safe di = true;
  id_started : started type di d;
  id_next : ki_next_didx it = first_non_empty (drop (Z.to_nat (ki_didx it + 1)) (sizes ms)) (ki_didx it + 1)
}.

Lemma same_size d d' m : models type d m -> models type d' m -> dictSize d' = dictSize d.
Proof. intros M M'. by rewrite !(size_spec type), (models_size type d m M), (models_size type d' m M') by (apply M || apply M'). Qed.

Lemma refl_tables d : same_tables d d.
Proof. by split. Qed.

(** The current dictionary is left. *)
Lemma leave_dict it kvs ms di d m : in_dict it kvs ms di d m -> exists kvs',
  (kvs ← reset_dict_iterator it kvs; freeDictIfNeeded canFreeDict kvs (ki_didx it)) = Some kvs' /\ store_ok kvs' ms /\ all_entries kvs' = all_entries kvs.
Proof.
  intros [St G Hm M N Di Sf Sd Nx]. unfold reset_dict_iterator. rewrite G. cbn [mbind option_bind]. rewrite Di. cbn [mbind option_bind]. rewrite (reset_started type) by done. rewrite Sf. cbn [resumed].
  destruct (keep_entries kvs ms _ d (dictResumeRehashing d) m St G Hm M) as (St' & G' & M' & E' & A'); [by destruct d|].
  rewrite (free_no_op _ _ _ G') by (by rewrite (same_size d _ m M M')). by eexists.
Qed.

(** A dictionary is entered, with its first entry. *)
Lemma enter_dict it kvs ms r : store_ok kvs ms -> 0 <= r -> forall d m, kvstoreGetDict kvs r = Some (Some d) -> ms !! Z.to_nat r = Some m -> models type d m -> dictSize d <> 0 ->
  exists e it' kvs' di d', (next ← kvstoreGetNextNonEmptyDictIndex kvs r; next_in_dict (it<| ki_didx := r |><| ki_next_didx := next |>) (dictInitIterator true) kvs) = Some (Some e, it', kvs') /\
    in_dict it' kvs' ms di d' m /\ ki_didx it' = r /\ all_entries kvs' = all_entries kvs /\ entries d = e :: remaining di d' /\ entries d' = entries d.
Proof.
  intros St P d m G Hm M N. rewrite (next_index_ok type kvs ms r St (map_range type _ _ _ _ (so_structure _ _ _ St) P Hm)). cbn [mbind option_bind].
  set (it1 := it <| ki_didx := r |> <| ki_next_didx := _ |>). assert (ki_didx it1 = r /\ ki_next_didx it1 = first_non_empty (drop (Z.to_nat (r + 1)) (sizes ms)) (r + 1)) as [I1 I2] by (by destruct it).
  clearbody it1. unfold next_in_dict. rewrite I1, G. cbn [mbind option_bind]. destruct (first_next type true d (md_wf _ _ _ M)) as (e & di & -> & Sf & Sd & Ee). cbn [mbind option_bind].
  destruct e as [e|]; [|exfalso; apply N; by rewrite (size_spec type), Ee by apply M].
  destruct (keep_entries kvs ms r d _ m St G Hm M (paused_same true d)) as (St' & G' & M' & E' & A'). eexists e, _, _, di, (paused true d). split; [reflexivity|].
  split_and!; try done. destruct it1; cbn in *; unfold constant in *; cbn in *. subst. by split.
Qed.

Lemma next_in_spec it kvs ms di d m : in_dict it kvs ms di d m -> exists e it' kvs' di',
  next_in_dict it di kvs = Some (e, it', kvs') /\ in_dict it' kvs' ms di' d m /\ ki_didx it' = ki_didx it /\ all_entries kvs' = all_entries kvs /\
  match e with None => remaining di d = [] | Some e => remaining di d = e :: remaining di' d end.
Proof.
  intros [St G Hm M N Di Sf Sd Nx]. unfold next_in_dict. rewrite G. cbn [mbind option_bind]. pose proof (ahead_bound type di d (md_wf _ _ _ M) Sd) as B.
  destruct (next_spec type (Z.to_nat (dictBuckets d) + 3) di d (md_wf _ _ _ M) Sd) as (e & di' & -> & Sf' & Sd' & Ee); [destruct (it_entry di); lia|]. cbn [mbind option_bind].
  destruct (keep_entries kvs ms _ d d m St G Hm M (refl_tables d)) as (St' & G' & _ & _ & A'). eexists e, _, _, di'. split; [reflexivity|]. split_and!; try done.
  destruct it; cbn in *; unfold constant; cbn. split; cbn; try done. congruence.
Qed.

(** What the loop returns, and that the store stays as it was. *)
Definition loops (n : nat) it kvs ms (l : list (K * V)) : Prop :=
  exists kvs', iterate_store canFreeDict n it kvs = Some (l, kvs') /\ store_ok kvs' ms /\ all_entries kvs' = all_entries kvs.

(** An iterator past the last entry of its dictionary, or in none yet. *)
Definition at_end it kvs ms : Prop :=
  (ki_didx it = -1 /\ ki_di it = None /\ ki_next_didx it = first_non_empty (sizes ms) 0 /\ store_ok kvs ms) \/
  (exists di d m, in_dict it kvs ms di d m).

Lemma reset_spec it kvs ms : at_end it kvs ms -> exists kvs', kvstoreIteratorReset canFreeDict it kvs = Some kvs' /\ store_ok kvs' ms /\ all_entries kvs' = all_entries kvs.
Proof.
  intros [(E1 & _ & _ & St)|(di & d & m & I)]; unfold kvstoreIteratorReset; [rewrite E1; by exists kvs|].
  destruct (get_dict _ _ _ (id_get _ _ _ _ _ _ I)) as [Pd _]. destruct (Z.eqb_spec (ki_didx it) (-1)); [lia|]. cbn [negb]. by apply (leave_dict it kvs ms di d m).
Qed.

(** It goes on to the next dictionary, if there is one. *)
Lemma next_dict it kvs ms : at_end it kvs ms -> exists o it' kvs', kvstoreIteratorNextDict canFreeDict it kvs = Some (o, it', kvs') /\ all_entries kvs' = all_entries kvs /\
  match o with
  | None => it' = it /\ kvs' = kvs /\ rest_from kvs (ki_didx it + 1) = []
  | Some r => exists e it2 kvs2 di d m, next_in_dict it' (dictInitIterator true) kvs' = Some (Some e, it2, kvs2) /\ in_dict it2 kvs2 ms di d m /\ all_entries kvs2 = all_entries kvs /\ entries d = e :: remaining di d /\
                rest_from kvs (ki_didx it + 1) = e :: remaining di d ++ rest_from kvs (ki_didx it2 + 1)
  end.
Proof.
  intros Ae. unfold kvstoreIteratorNextDict. assert (store_ok kvs ms /\ -1 <= ki_didx it /\ ki_next_didx it = first_non_empty (drop (Z.to_nat (ki_didx it + 1)) (sizes ms)) (ki_didx it + 1)) as (St & P & Nx).
  { destruct Ae as [(E1 & _ & E3 & St)|(di & d & m & I)]; [by rewrite E1|]. split_and!; [apply I| |apply I]. pose proof (proj1 (get_dict _ _ _ (id_get _ _ _ _ _ _ I))). lia. }
  destruct (rest_next kvs ms (ki_didx it + 1) St ltac:(lia)) as [[Er Rn]|(d2 & m2 & Lr & G2 & Hm2 & M2 & N2 & Rn)]; rewrite <- Nx in *; [rewrite Er; by eexists _, _, _|].
  assert (exists kvs1, (if negb (ki_didx it =? -1) then d ← kvstoreGetDict kvs (ki_didx it);
      match d with Some _ => kvs ← reset_dict_iterator it kvs; freeDictIfNeeded canFreeDict kvs (ki_didx it) | None => Some kvs end else Some kvs) = Some kvs1 /\
    store_ok kvs1 ms /\ all_entries kvs1 = all_entries kvs) as (kvs1 & El & St1 & A1).
  { destruct Ae as [(E1 & _)|(di & d & m & I)]; [rewrite E1; by exists kvs|]. destruct (get_dict _ _ _ (id_get _ _ _ _ _ _ I)) as [Pd _]. destruct (Z.eqb_spec (ki_didx it) (-1)); [lia|]. cbn [negb].
    rewrite (id_get _ _ _ _ _ _ I). cbn [mbind option_bind]. by apply (leave_dict it kvs ms di d m). }
  destruct (Z.eqb_spec (ki_next_didx it) (-1)); [lia|]. rewrite El. cbn [mbind option_bind]. set (r := ki_next_didx it) in *.
  assert (ms !! Z.to_nat r = Some m2) as Hm1 by done. destruct (rest_next kvs1 ms (ki_didx it + 1) St1 ltac:(lia)) as [[Er _]|(d3 & m3 & _ & G3 & Hm3 & M3 & N3 & Rn3)]; rewrite <- Nx in *; [lia|].
  destruct (enter_dict it kvs1 ms r St1 ltac:(lia) d3 m3 G3 Hm3 M3 N3) as (e & it2 & kvs2 & di & d' & E2 & I2 & Ir & A2 & Ee & Ed).
  destruct (kvstoreGetNextNonEmptyDictIndex kvs1 r) as [nx|]; [|done]. cbn [mbind option_bind] in *. eexists (Some r), _, kvs1. split; [reflexivity|]. split; [done|].
  exists e, it2, kvs2, di, d', m3. split_and!; [done|done|congruence|by rewrite Ed|]. assert (forall i, rest_from kvs1 i = rest_from kvs i) as Rf by (intros j; unfold rest_from; by rewrite A1).
  rewrite <- !Rf, Rn3, Ee, Ir. done.
Qed.

(** A round of the loop, from the choice of the dictionary on. *)
Definition go_on (n : nat) it kvs : option (list (K * V) * kvstore K V) :=
  '(e, it, kvs) ← ('(d, it, kvs) ← kvstoreIteratorNextDict canFreeDict it kvs;
                   match d with None => Some (None, it, kvs) | Some _ => next_in_dict it (dictInitIterator true) kvs end);
  match e with
  | None => kvs ← kvstoreIteratorReset canFreeDict it kvs; Some ([], kvs)
  | Some e => '(l, kvs) ← iterate_store canFreeDict n it kvs; Some (e :: l, kvs)
  end.

Definition loops_in (n : nat) ms : Prop := forall it kvs di d m, in_dict it kvs ms di d m ->
  let l := remaining di d ++ rest_from kvs (ki_didx it + 1) in zlen l < Z.of_nat n -> loops n it kvs ms l.

Lemma go_on_spec n it kvs ms : loops_in n ms -> at_end it kvs ms -> zlen (rest_from kvs (ki_didx it + 1)) < Z.of_nat (S n) ->
  exists kvs', go_on n it kvs = Some (rest_from kvs (ki_didx it + 1), kvs') /\ store_ok kvs' ms /\ all_entries kvs' = all_entries kvs.
Proof.
  intros Lp Ae L. unfold go_on. destruct (next_dict it kvs ms Ae) as (o & it' & kvs' & -> & A' & Ho). cbn [mbind option_bind]. destruct o as [r|].
  - destruct Ho as (e & it2 & kvs2 & di & d & m & -> & I2 & A2 & _ & Rn). cbn [mbind option_bind]. rewrite Rn, zlen_cons in L. rewrite Rn.
    assert (forall i, rest_from kvs2 i = rest_from kvs i) as Rf by (intros i; unfold rest_from; by rewrite A2). rewrite <- !Rf in *.
    destruct (Lp it2 kvs2 di d m I2 ltac:(lia)) as (kvs3 & -> & St3 & A3). cbn [mbind option_bind]. exists kvs3. split_and!; [done|done|congruence].
  - destruct Ho as (-> & -> & ->). cbn [mbind option_bind]. destruct (reset_spec it kvs ms Ae) as (kvs2 & -> & St2 & A2). by exists kvs2.
Qed.

Lemma iterate_in n ms : loops_in n ms.
Proof.
  induction n as [|n IH]; intros it kvs di d m I l L; [pose proof (zlen_nonneg l); lia|]. unfold loops. cbn [iterate_store]. unfold kvstoreIteratorNext. rewrite (id_di _ _ _ _ _ _ I).
  destruct (next_in_spec it kvs ms di d m I) as (e & it' & kvs' & di' & -> & I' & Ii & A' & Ee). cbn [mbind option_bind].
  assert (forall i, rest_from kvs' i = rest_from kvs i) as Rf by (intros i; unfold rest_from; by rewrite A'). unfold l in *. rewrite <- !Rf in *. rewrite <- Ii in *. destruct e as [e|].
  - rewrite Ee, <- app_comm_cons in *. rewrite zlen_cons in L. cbn [mbind option_bind]. destruct (IH it' kvs' di' d m I' ltac:(lia)) as (kvs2 & -> & St2 & A2). cbn [mbind option_bind].
    exists kvs2. split_and!; [done|done|congruence].
  - rewrite Ee in *. cbn [app] in *. destruct (go_on_spec n it' kvs' ms IH) as (kvs2 & E2 & St2 & A2); [right; by eauto|done|]. unfold go_on in E2. rewrite E2.
    exists kvs2. split_and!; [done|done|congruence].
Qed.

(** The whole loop. *)
Lemma iterate_all n kvs ms : store_ok kvs ms -> zlen (concat (all_entries kvs)) < Z.of_nat n ->
  exists it, kvstoreIteratorInit kvs = Some it /\ loops n it kvs ms (concat (all_entries kvs)).
Proof.
  intros St L. unfold kvstoreIteratorInit. rewrite (first_index_ok type kvs ms St). cbn [mbind option_bind]. eexists. split; [reflexivity|]. set (it := {| ki_didx := -1 |}).
  destruct n as [|n]; [pose proof (zlen_nonneg (concat (all_entries kvs))); lia|]. unfold loops. cbn [iterate_store]. unfold kvstoreIteratorNext. cbn [it ki_di mbind option_bind].
  destruct (go_on_spec n it kvs ms (iterate_in n ms)) as (kvs' & E & St' & A').
  - left. split_and!; [done|done| |done]. cbn [it ki_next_didx]. rewrite <- (nth_key_first (sizes ms)); [done|apply St|done].
  - exact L.
  - unfold go_on in E. cbn [mbind option_bind] in E. rewrite E. by exists kvs'.
Qed.

(** ** One step at a time *)

(** The iterator is in front of the entries [es]. *)
Definition iter_at it kvs ms (es : list (K * V)) : Prop :=
  (ki_didx it = -1 /\ ki_di it = None /\ ki_next_didx it = first_non_empty (sizes ms) 0 /\ store_ok kvs ms /\ es = rest_from kvs 0) \/
  (exists di d m, in_dict it kvs ms di d m /\ (exists pre, entries d = pre ++ remaining di d) /\ es = remaining di d ++ rest_from kvs (ki_didx it + 1)).

Lemma iter_end it kvs ms es : iter_at it kvs ms es -> at_end it kvs ms.
Proof. intros [(? & ? & ? & ? & _)|(di & d & m & I & _)]; [by left|right; by eauto]. Qed.

(** The entry is one of the map with the index of the iterator. *)
Definition of_dict it ms (e : K * V) : Prop := exists m, 0 <= ki_didx it /\ ms !! Z.to_nat (ki_didx it) = Some m /\ m !! e.1 = Some e.2.

Lemma models_entry d m e : models type d m -> e ∈ entries d -> m !! e.1 = Some e.2.
Proof. intros M E. rewrite <- (md_map _ _ _ M). apply elem_of_list_to_map; [apply M|by destruct e]. Qed.

Lemma in_dict_entry it kvs ms di d m e : in_dict it kvs ms di d m -> e ∈ entries d -> of_dict it ms e.
Proof. intros I E. exists m. split_and!; [apply (get_dict _ _ _ (id_get _ _ _ _ _ _ I))|apply I|]. by apply (models_entry d m e (id_models _ _ _ _ _ _ I)). Qed.

Lemma iter_next it kvs ms es : iter_at it kvs ms es -> exists e it' kvs', kvstoreIteratorNext canFreeDict it kvs = Some (e, it', kvs') /\ all_entries kvs' = all_entries kvs /\
  match es with [] => e = None /\ at_end it' kvs' ms | x :: es => e = Some x /\ iter_at it' kvs' ms es /\ of_dict it' ms x end.
Proof.
  intros It. assert (forall it kvs l, at_end it kvs ms -> rest_from kvs (ki_didx it + 1) = l -> exists e it' kvs',
    ('(d, it, kvs) ← kvstoreIteratorNextDict canFreeDict it kvs; match d with None => Some (None, it, kvs) | Some _ => next_in_dict it (dictInitIterator true) kvs end) = Some (e, it', kvs') /\ all_entries kvs' = all_entries kvs /\
    match l with [] => e = None /\ at_end it' kvs' ms | x :: es => e = Some x /\ iter_at it' kvs' ms es /\ of_dict it' ms x end) as Nd.
  { clear it kvs es It. intros it kvs l Ae <-. destruct (next_dict it kvs ms Ae) as (o & it' & kvs' & -> & A' & Ho). cbn [mbind option_bind]. destruct o as [r|].
    - destruct Ho as (e & it2 & kvs2 & di & d & m & -> & I2 & A2 & Ee & ->). exists (Some e), it2, kvs2. split_and!; [done|done|done| |].
      + right. exists di, d, m. split; [done|]. split; [by exists [e]|]. f_equal. unfold rest_from. by rewrite A2.
      + eapply in_dict_entry; [done|]. rewrite Ee. by left.
    - destruct Ho as (-> & -> & ->). by exists None, it, kvs. }
  unfold kvstoreIteratorNext. destruct It as [(E1 & E2 & E3 & St & ->)|(di & d & m & I & (pre & Pe) & ->)].
  - rewrite E2. cbn [mbind option_bind]. apply Nd; [by left|by rewrite E1].
  - rewrite (id_di _ _ _ _ _ _ I). destruct (next_in_spec it kvs ms di d m I) as (e & it' & kvs' & di' & -> & I' & Ii & A' & Ee). cbn [mbind option_bind]. destruct e as [e|].
    + rewrite Ee. cbn [app]. exists (Some e), it', kvs'. split_and!; [done|done|done| |].
      * right. exists di', d, m. split; [done|]. rewrite Ee in Pe. split; [exists (pre ++ [e]); by rewrite <- app_assoc|]. rewrite Ii. f_equal. unfold rest_from. by rewrite A'.
      * eapply in_dict_entry; [done|]. rewrite Pe, Ee. apply elem_of_app. right. by left.
    + rewrite Ee. cbn [app]. destruct (Nd it' kvs' (rest_from kvs (ki_didx it + 1))) as (e2 & it2 & kvs2 & -> & A2 & H2); [right; by eauto|rewrite Ii; unfold rest_from; by rewrite A'|].
      exists e2, it2, kvs2. split_and!; [done|congruence|done].
Qed.

(** The iterator of one dictionary. *)
Record in_one (it : @kvstoreDictIterator K V) kvs ms d m : Prop := {
  io_ok : store_ok kvs ms;
  io_get : kvstoreGetDict kvs (kd_didx it) = Some (Some d);
  io_map : ms !! Z.to_nat (kd_didx it) = Some m;
  io_models : models type d m;
  io_size : dictSize d <> 0;
  io_safe : it_safe (kd_di it) = true;
  io_started : started type (kd_di it) d
}.

Definition one_at (it : @kvstoreDictIterator K V) kvs ms (es : list (K * V)) : Prop :=
  (exists d m, kd_di it = dictInitIterator true /\ store_ok kvs ms /\ kvstoreGetDict kvs (kd_didx it) = Some (Some d) /\ ms !! Z.to_nat (kd_didx it) = Some m /\ models type d m /\ dictSize d <> 0 /\ es = entries d) \/
  (exists d m, in_one it kvs ms d m /\ es = remaining (kd_di it) d).

Lemma one_next (it : @kvstoreDictIterator K V) kvs ms es : one_at it kvs ms es -> exists e (it' : @kvstoreDictIterator K V) kvs', kvstoreDictIteratorNext it kvs = Some (e, it', kvs') /\ all_entries kvs' = all_entries kvs /\
  match es with [] => e = None /\ exists d m, in_one it' kvs' ms d m | x :: es => e = Some x /\ one_at it' kvs' ms es end.
Proof.
  unfold kvstoreDictIteratorNext. intros [(d & m & Di & St & G & Hm & M & N & ->)|(d & m & [St G Hm M N Sf Sd] & ->)]; rewrite G; cbn [mbind option_bind].
  - rewrite Di. destruct (first_next type true d (md_wf _ _ _ M)) as (e & di & -> & Sf & Sd & Ee). cbn [mbind option_bind].
    destruct (keep_entries kvs ms _ d _ m St G Hm M (paused_same true d)) as (St' & G' & M' & E' & A'). eexists e, _, _. split; [reflexivity|]. split; [done|].
    assert (in_one (it<| kd_di := di |>) (update_dict (kd_didx it) d (paused true d) kvs) ms (paused true d) m) as I by (destruct it; split; cbn; unfold constant; cbn; try done; by rewrite (same_size d _ m M M')).
    destruct e as [e|]; rewrite Ee; [split; [done|]; right; exists (paused true d), m; split; [done|by destruct it]|]. split; [done|]. by exists (paused true d), m.
  - pose proof (ahead_bound type (kd_di it) d (md_wf _ _ _ M) Sd) as B. destruct (next_spec type (Z.to_nat (dictBuckets d) + 3) (kd_di it) d (md_wf _ _ _ M) Sd) as (e & di & -> & Sf' & Sd' & Ee); [destruct (it_entry (kd_di it)); lia|]. cbn [mbind option_bind].
    destruct (keep_entries kvs ms _ d d m St G Hm M (refl_tables d)) as (St' & G' & _ & _ & A'). eexists e, _, _. split; [reflexivity|]. split; [done|].
    assert (in_one (it<| kd_di := di |>) (update_dict (kd_didx it) d d kvs) ms d m) as I by (destruct it; split; cbn in *; unfold constant in *; cbn in *; try done; congruence).
    destruct e as [e|]; rewrite Ee; [split; [done|]; right; exists d, m; split; [done|by destruct it]|]. split; [done|]. by exists d, m.
Qed.

Lemma one_reset (it : @kvstoreDictIterator K V) kvs ms d m : in_one it kvs ms d m -> exists kvs', kvstoreResetDictIterator canFreeDict it kvs = Some kvs' /\ store_ok kvs' ms /\ all_entries kvs' = all_entries kvs.
Proof.
  intros [St G Hm M N Sf Sd]. unfold kvstoreResetDictIterator. rewrite G. cbn [mbind option_bind]. rewrite (reset_started type) by done. rewrite Sf. cbn [resumed].
  destruct (keep_entries kvs ms _ d (dictResumeRehashing d) m St G Hm M) as (St' & G' & M' & E' & A'); [by destruct d|].
  rewrite (free_no_op _ _ _ G') by (by rewrite (same_size d _ m M M')). by eexists.
Qed.

(** C12: on a store after any operations, the loop over [kvstoreIteratorNext] ends
    and returns the entries of the dictionaries in the order of their indexes,
    every entry of each once, whether or not dictionaries are rehashing; and the
    store holds after it what it held before. *)
Theorem kvstore_iterates_all bits flags ops l ms n : 0 <= bits <= 16 -> zlen ops < 2 ^ 62 ->
  maps_run ops.*2 (replicate (Z.to_nat (2 ^ bits)) ∅) = Some (l, ms) -> zsum (sizes ms) < Z.of_nat n ->
  exists kvs0 kvs it es kvs', kvstoreCreate bits flags = Some kvs0 /\ store_run type canFreeDict ops kvs0 = Some (l, kvs) /\
    kvstoreIteratorInit kvs = Some it /\ iterate_store canFreeDict n it kvs = Some (concat es, kvs') /\
    Forall2 (fun e m => e ≡ₚ map_to_list m) es ms /\ store_contents kvs' = ms /\ consistent kvs'.
Proof.
  intros B L E F. destruct (create_store_spec (V:=V) type hash_range bits flags B) as (kvs0 & C & St0). pose proof (zlen_nonneg ops).
  destruct (store_run_spec type canFreeDict hash_range ops kvs0 _ l ms St0) as (kvs & R & St); [rewrite msize_empties, zsum_replicate; lia|done|].
  destruct (iterate_all n kvs ms St) as (it & Ei & kvs' & El & St' & A'); [by rewrite zlen_concat, (entries_sizes kvs ms St)|].
  exists kvs0, kvs, it, (all_entries kvs), kvs'. split_and!; [done|done|done|done| |apply (structure_contents type), St'|eapply (structure_consistent type), St'].
  unfold all_entries. apply Forall2_fmap_l. eapply Forall2_impl; [apply (sr_dicts _ _ _ (so_structure _ _ _ St))|]. intros [d|] m Hh; cbn in *; [|by subst m; rewrite map_to_list_empty].
  destruct Hh as [W _ <-]. symmetry. apply map_to_list_to_map, W.
Qed.
End Iter.

(** ** Witness *)

Lemma kvstore_iterates_all_witness : exists l ms kvs0 kvs it es kvs',
  kvstoreCreate 2 (Z.lor KVSTORE_ALLOCATE_DICTS_ON_DEMAND KVSTORE_FREE_EMPTY_DICTS) = Some kvs0 /\ store_run sample_type (fun _ _ => true) sample_store_ops kvs0 = Some (l, kvs) /\
  kvstoreIteratorInit kvs = Some it /\ iterate_store (fun _ _ => true) 7 it kvs = Some (concat es, kvs') /\ Forall2 (fun e m => e ≡ₚ map_to_list m) es ms /\ zlen (concat es) = 6.
Proof.
  destruct (maps_run sample_store_ops.*2 (replicate (Z.to_nat (2 ^ 2)) ∅)) as [[l ms]|] eqn:E; [|vm_compute in E; discriminate].
  destruct (kvstore_iterates_all sample_type (fun _ _ => true) (fun k => u64_range (k * 7)) 2 (Z.lor KVSTORE_ALLOCATE_DICTS_ON_DEMAND KVSTORE_FREE_EMPTY_DICTS) sample_store_ops l ms 7)
    as (kvs0 & kvs & it & es & kvs' & C & R & I & L & F & _); [lia|vm_compute; reflexivity|exact E|vm_compute in E; injection E as <- <-; vm_compute; reflexivity|].
  exists l, ms, kvs0, kvs, it, es, kvs'. split_and!; [exact C|exact R|exact I|exact L|exact F|].
  vm_compute in C. injection C as <-. vm_compute in R. injection R as <- <-. vm_compute in I. injection I as <-.
  revert L. generalize (concat es). intros r L. vm_compute in L. injection L as <- <-. reflexivity.
Defined.
