(* ===== verification/KvstoreMove.v ===== *)
(** Moving a dictionary from a store to another ([kvstoreMoveDict] of
    src/src/kvstore.c): the dictionary, the counts of keys and buckets and the
    lists of rehashing dictionaries move with it; the counts of the dictionaries
    that have keys do not. *)

From stdpp Require Import base list numbers gmap.
From coqutil Require Import Datatypes.RecordSetters.
From S2P Require Import Prelude FwTree Dict DictMap DictScan Kvstore KvstoreMap.
Import TriangleBracketNotations.

Local Open Scope Z_scope.

Section Move.
Context {K V : Type} `{Countable K} (type : dictType K).
Implicit Types (kvs dst : kvstore K V) (d : dict K V) (m : gmap K V) (ms : list (gmap K V)).

Hypothesis hash_range : forall k, is_u64 (hashFunction type k).

Notation store_ok := (KvstoreMap.store_ok type).
Notation structure := (KvstoreMap.structure type).

Lemma msize_nonneg m : 0 <= msize m.
Proof. unfold msize. lia. Qed.

Lemma models_dictSize d m : models type d m -> dictSize d = msize m.
Proof. intros M. rewrite (size_spec type), (models_size type d m M) by apply M. done. Qed.

(** A slot is given another dictionary, with counts that were adapted before. *)
Lemma allocated_positive kvs ms didx d : structure kvs ms -> kvstoreGetDict kvs didx = Some (Some d) -> 1 <= allocated_dicts kvs <= 2 ^ 16.
Proof.
  intros S G. destruct (get_dict _ _ _ G) as [_ Lk]. split; [|by apply (allocated_count type _ _ S)]. rewrite (sr_allocated _ _ _ S).
  apply (size_le_total _ (Z.to_nat didx) 1); [apply Forall_fmap, Forall_forall; intros [|] _; cbn; lia|]. by rewrite list_lookup_fmap, Lk.
Qed.

Lemma move_out_spec kvs ms didx d m : store_ok kvs ms -> kvstoreGetDict kvs didx = Some (Some d) -> ms !! Z.to_nat didx = Some m ->
  exists kvs', move_out kvs didx d = Some kvs' /\ structure kvs' (<[Z.to_nat didx := ∅]> ms) /\ totals kvs' (sizes (<[Z.to_nat didx := ∅]> ms)) /\
    non_empty_dicts kvs' = i32 (non_empty_dicts kvs + non_empty_delta (msize m) (- msize m)).
Proof.
  intros [S C] G Hm. apply counted_totals in C as [T _]. destruct (get_dict _ _ _ G) as [P Lk]. pose proof (Forall2_lookup_lr _ _ _ _ _ _ (sr_dicts _ _ _ S) Lk Hm) as M. cbn in M.
  pose proof (allocated_positive _ _ _ _ S G) as Al. unfold move_out. rewrite (models_dictSize d m M). set (kvs0 := kvs <| allocated_dicts := _ |>).
  assert (totals kvs0 (sizes ms)) as T0 by (destruct T; by split). assert (kvstoreGetDict kvs0 didx = Some (Some d)) as G0 by (by destruct kvs). pose proof (tt_total _ _ T).
  destruct (count_add kvs0 (sizes ms) didx d (msize m) (- msize m) T0 G0) as (kvs1 & -> & Sh & T1 & N1); [by apply sizes_lookup|unfold msize; lia|unfold msize; lia|]. cbn [mbind option_bind].
  rewrite (models_dictSize d m M) in N1. replace (msize m + - msize m) with (msize (∅ : gmap K V)) in T1 by (unfold msize; rewrite map_size_empty; lia). rewrite <- sizes_insert in T1.
  set (kvs2 := set_dict _ didx None).
  assert (same_counts kvs1 kvs2 /\ dicts kvs2 = <[Z.to_nat didx := None]> (dicts kvs1) /\ resize_cursor kvs2 = resize_cursor kvs1 /\ allocated_dicts kvs2 = allocated_dicts kvs1 /\
    bucket_count kvs2 = u64 (bucket_count kvs1 + - dictBuckets d) /\
    overhead_hashtable_rehashing kvs2 = (if dictIsRehashing d then u64 (overhead_hashtable_rehashing kvs1 - DICTHT_SIZE (ht_size_exp (ht0 d))) else overhead_hashtable_rehashing kvs1) /\
    kvs_rehashing kvs2 = (if dictIsRehashing d then if bool_decide (didx ∈ kvs_rehashing kvs1) then filter (fun i => i <> didx) (kvs_rehashing kvs1) else kvs_rehashing kvs1 else kvs_rehashing kvs1))
    as (Sc & F2 & F3 & F4 & F5 & F6 & F7) by (destruct kvs1; unfold kvs2; by destruct (dictIsRehashing d)).
  clearbody kvs2. pose proof (structure_listed _ _ _ _ _ S G) as [Nd Me]. cbn [rehashing_of] in Me.
  assert (structure kvs2 (<[Z.to_nat didx := ∅]> ms)) as S2.
  { apply (replace_slot type kvs kvs2 ms didx (Some d) None ∅); try done; rewrite ?F2, ?F3, ?F4, ?F5, ?F6, ?F7, ?(sc_num _ _ Sc), ?(sc_bits _ _ Sc), ?(sh_dicts _ _ Sh), ?(sh_num _ _ Sh), ?(sh_bits _ _ Sh),
      ?(sh_cursor _ _ Sh), ?(sh_allocated _ _ Sh), ?(sh_buckets _ _ Sh), ?(sh_overhead _ _ Sh), ?(sh_rehashing _ _ Sh); try done; change (kvs_rehashing kvs0) with (kvs_rehashing kvs);
      change (bucket_count kvs0) with (bucket_count kvs); change (overhead_hashtable_rehashing kvs0) with (overhead_hashtable_rehashing kvs).
    - change (allocated_dicts kvs0) with (i32 (allocated_dicts kvs - 1)). rewrite i32_small by (unfold is_i32; lia). cbn. lia.
    - cbn. f_equal. lia.
    - cbn. destruct (dictIsRehashing d); [f_equal; lia|]. rewrite (sr_overhead _ _ _ S). by rewrite Z.sub_0_r, Z.add_0_r, u64_twice.
    - repeat case_match; try done; by apply NoDup_filter.
    - intros i Ni. repeat case_match; try done; rewrite list_elem_of_filter; naive_solver.
    - cbn. destruct (dictIsRehashing d); [|naive_solver]. rewrite bool_decide_eq_true_2 by naive_solver. rewrite list_elem_of_filter. naive_solver. }
  pose proof (totals_same _ _ _ Sc T1) as T2. rewrite <- (sc_non_empty _ _ Sc) in N1. destruct (kvs_has _ _); [by exists kvs2|].
  destruct (create_dict_spec type kvs2 _ didx S2) as (d' & kvs3 & m' & -> & S3 & _ & Sc3 & _); [rewrite (sc_num _ _ Sc), (sh_num _ _ Sh); exact (map_range type kvs ms didx m S P Hm)|]. cbn [mbind option_bind].
  exists kvs3. split_and!; [done|done|by eapply totals_same|]. by rewrite (sc_non_empty _ _ Sc3).
Qed.

Lemma move_in_spec dst ms didx d m : store_ok dst ms -> kvstoreGetDict dst didx = Some None -> models type d m -> zsum (sizes ms) + msize m < 2 ^ 62 ->
  exists dst', move_in dst didx d = Some dst' /\ structure dst' (<[Z.to_nat didx := m]> ms) /\ totals dst' (sizes (<[Z.to_nat didx := m]> ms)) /\
    non_empty_dicts dst' = i32 (non_empty_dicts dst + non_empty_delta (msize m) (msize m)).
Proof.
  intros [S C] G M L. apply counted_totals in C as [T _]. destruct (get_dict _ _ _ G) as [P Lk]. destruct (Forall2_lookup_l _ _ _ _ _ (sr_dicts _ _ _ S) Lk) as (m0 & Hm & ->).
  pose proof (allocated_count type _ _ S) as Al. unfold move_in. rewrite (models_dictSize d m M). set (dst0 := (set_dict dst didx (Some d)) <| allocated_dicts := _ |>).
  assert (totals dst0 (sizes ms)) as T0 by (destruct T; by split). assert (kvstoreGetDict dst0 didx = Some (Some d)) as G0 by (apply (get_set dst _ _ None); [done|by destruct dst]).
  destruct (count_add dst0 (sizes ms) didx d 0 (msize m) T0 G0) as (dst1 & -> & Sh & T1 & N1); [by rewrite (sizes_lookup _ _ _ Hm)|unfold msize; lia|lia|]. cbn [mbind option_bind].
  rewrite (models_dictSize d m M) in N1. rewrite Z.add_0_l, <- sizes_insert in T1. eexists. split; [reflexivity|]. match goal with |- structure ?x _ /\ _ => set (dst2 := x) end.
  assert (same_counts dst1 dst2 /\ dicts dst2 = dicts dst1 /\ resize_cursor dst2 = resize_cursor dst1 /\ allocated_dicts dst2 = allocated_dicts dst1 /\
    bucket_count dst2 = u64 (bucket_count dst1 + dictBuckets d) /\
    overhead_hashtable_rehashing dst2 = (if dictIsRehashing d then u64 (overhead_hashtable_rehashing dst1 + DICTHT_SIZE (ht_size_exp (ht0 d))) else overhead_hashtable_rehashing dst1) /\
    kvs_rehashing dst2 = kvs_rehashing dst1 ++ (if dictIsRehashing d then [didx] else []))
    as (Sc & F2 & F3 & F4 & F5 & F6 & F7) by (destruct dst1; unfold dst2; destruct (dictIsRehashing d); [done|]; split_and!; try done; by rewrite app_nil_r).
  clearbody dst2. pose proof (structure_listed _ _ _ _ _ S G) as [Nd Me]. cbn [rehashing_of] in Me. rewrite <- (sc_non_empty _ _ Sc) in N1. split_and!; [|by eapply totals_same|done].
  apply (replace_slot type dst dst2 ms didx None (Some d) m); try done; rewrite ?F2, ?F3, ?F4, ?F5, ?F6, ?F7, ?(sc_num _ _ Sc), ?(sc_bits _ _ Sc), ?(sh_dicts _ _ Sh), ?(sh_num _ _ Sh), ?(sh_bits _ _ Sh),
    ?(sh_cursor _ _ Sh), ?(sh_allocated _ _ Sh), ?(sh_buckets _ _ Sh), ?(sh_overhead _ _ Sh), ?(sh_rehashing _ _ Sh); try done; change (kvs_rehashing dst0) with (kvs_rehashing dst);
    change (bucket_count dst0) with (bucket_count dst); change (overhead_hashtable_rehashing dst0) with (overhead_hashtable_rehashing dst).
  - change (allocated_dicts dst0) with (i32 (allocated_dicts dst + 1)). rewrite i32_small by (unfold is_i32; lia). cbn. lia.
  - cbn. f_equal. lia.
  - cbn. destruct (dictIsRehashing d); [f_equal; lia|]. rewrite (sr_overhead _ _ _ S). by rewrite Z.sub_0_r, Z.add_0_r, u64_twice.
  - apply NoDup_app. split_and!; [done| |destruct (dictIsRehashing d); [apply NoDup_singleton|constructor]]. intros i Hi. destruct (dictIsRehashing d); set_solver.
  - intros i Ni. destruct (dictIsRehashing d); set_solver.
  - cbn. destruct (dictIsRehashing d); set_solver.
Qed.

(** The counts of a store that are right. *)
Definition well_counted kvs ms : Prop := store_contents kvs = ms /\ consistent kvs /\ kvstoreSize kvs = zsum (sizes ms) /\
  forall i m, 0 <= i -> ms !! Z.to_nat i = Some m -> kvstoreDictSize kvs i = Some (msize m).

Lemma well_counted_of kvs ms : structure kvs ms -> totals kvs (sizes ms) -> well_counted kvs ms.
Proof.
  intros S T. split_and!; [by apply (structure_contents type)|by eapply (structure_consistent type)|apply T|]. intros i m P Hm. unfold kvstoreDictSize.
  destruct (structure_slot type kvs ms i S (map_range type _ _ _ _ S P Hm)) as (od & m' & -> & Hm' & Hh). rewrite Hm in Hm'. injection Hm' as <-. cbn [mbind option_bind]. f_equal.
  destruct od as [d|]; cbn in Hh; [by apply models_dictSize|by subst m].
Qed.

Lemma non_empty_delta_range s delta : -1 <= non_empty_delta s delta <= 1.
Proof. unfold non_empty_delta. repeat case_match; lia. Qed.

(** How far the count is off once the size of a dictionary is [s'] and not [s]. *)
Lemma miscount kvs sz i s s' delta : counted kvs sz -> sz !! i = Some s -> 0 <= s' -> -1 <= delta <= 1 ->
  i32 (non_empty_dicts kvs + delta) = zsum (non_empty <$> <[i := s']> sz) + (delta - (non_empty s' - non_empty s)).
Proof.
  intros C Hs P D. pose proof (non_empty_bounds sz) as Nb. rewrite (ct_length _ _ C) in Nb. pose proof (ct_num _ _ C). rewrite (zsum_fmap_insert non_empty sz i s s' Hs), (ct_non_empty _ _ C).
  rewrite i32_small by (unfold is_i32; lia). lia.
Qed.

(** C38: moving a dictionary to a store that has none at its index moves its entries
    and keeps the contents, the numbers of keys, dictionaries and buckets and the
    lists of rehashing dictionaries of both stores right; but the source store
    still counts the dictionary among the non-empty ones when it had keys (and
    counts one too few when it had none), and the destination does not count it
    unless it has exactly one key. *)
Theorem move_dict_miscounts kvs dst ms mt didx d m : store_ok kvs ms -> store_ok dst mt -> num_dicts kvs = num_dicts dst ->
  kvstoreGetDict kvs didx = Some (Some d) -> kvstoreGetDict dst didx = Some None -> ms !! Z.to_nat didx = Some m -> zsum (sizes mt) + msize m < 2 ^ 62 ->
  let ms' := <[Z.to_nat didx := ∅]> ms in let mt' := <[Z.to_nat didx := m]> mt in
  exists kvs' dst', kvstoreMoveDict kvs dst didx = Some (kvs', dst') /\ well_counted kvs' ms' /\ well_counted dst' mt' /\
    non_empty_dicts kvs' = zsum (non_empty <$> sizes ms') + (if msize m =? 0 then -1 else 1) /\
    non_empty_dicts dst' = zsum (non_empty <$> sizes mt') + (if msize m =? 1 then 0 else -1).
Proof.
  intros St Sd Hn G Gd Hm L ms' mt'. unfold kvstoreMoveDict. pose proof (so_structure _ _ _ St) as S. destruct (get_dict _ _ _ G) as [P Lk]. destruct (get_dict _ _ _ Gd) as [_ Ld].
  pose proof (map_range type _ _ _ _ S P Hm) as R. rewrite Hn, Z.eqb_refl. destruct (Z.gtb_spec (num_dicts dst) didx); [|lia]. cbn [negb orb]. rewrite Gd. cbn [mbind option_bind]. rewrite G. cbn [mbind option_bind].
  pose proof (Forall2_lookup_lr _ _ _ _ _ _ (sr_dicts _ _ _ S) Lk Hm) as M. cbn in M. destruct (Forall2_lookup_l _ _ _ _ _ (sr_dicts _ _ _ (so_structure _ _ _ Sd)) Ld) as (m0 & Hm0 & ->).
  destruct (move_out_spec kvs ms didx d m St G Hm) as (kvs' & -> & S1 & T1 & N1). destruct (move_in_spec dst mt didx d m Sd Gd M L) as (dst' & -> & S2 & T2 & N2). cbn [mbind option_bind].
  exists kvs', dst'. split; [done|]. do 2 (split; [by apply well_counted_of|]). split.
  - rewrite N1. unfold ms'. rewrite sizes_insert, (miscount kvs _ _ _ (msize (∅ : gmap K V)) _ (so_counted _ _ _ St) (sizes_lookup _ _ _ Hm)); [|done|apply non_empty_delta_range]. f_equal.
    change (msize ∅) with 0. pose proof (msize_nonneg m). generalize dependent (msize m). intros n **. unfold non_empty_delta, non_empty. repeat case_match; lia.
  - rewrite N2. unfold mt'. rewrite sizes_insert, (miscount dst _ _ _ (msize m) _ (so_counted _ _ _ Sd) (sizes_lookup _ _ _ Hm0)); [|unfold msize; lia|apply non_empty_delta_range]. f_equal.
    change (msize ∅) with 0. pose proof (msize_nonneg m). generalize dependent (msize m). intros n **. unfold non_empty_delta, non_empty. repeat case_match; lia.
Qed.
End Move.

(** ** Witness *)

(** The stores of the witness, of the model's own operations. *)
Lemma sample_store : exists kvs dst ms l, maps_run sample_store_ops.*2 (replicate (Z.to_nat (2 ^ 2)) ∅) = Some (l, ms) /\
  kvstoreCreate 2 (Z.lor KVSTORE_ALLOCATE_DICTS_ON_DEMAND KVSTORE_FREE_EMPTY_DICTS) = Some dst /\ KvstoreMap.store_ok sample_type dst (replicate (Z.to_nat (2 ^ 2)) ∅) /\
  store_run sample_type (fun _ _ => true) sample_store_ops dst = Some (l, kvs) /\ KvstoreMap.store_ok sample_type kvs ms.
Proof.
  destruct (maps_run sample_store_ops.*2 (replicate (Z.to_nat (2 ^ 2)) ∅)) as [[l ms]|] eqn:E; [|vm_compute in E; discriminate].
  destruct (create_store_spec (V:=Z) sample_type (fun k => u64_range (k * 7)) 2 (Z.lor KVSTORE_ALLOCATE_DICTS_ON_DEMAND KVSTORE_FREE_EMPTY_DICTS)) as (dst & C & Sd); [lia|].
  destruct (store_run_spec sample_type (fun _ _ => true) (fun k => u64_range (k * 7)) sample_store_ops dst _ l ms Sd) as (kvs & R & St); [vm_compute; reflexivity|exact E|].
  by exists kvs, dst, ms, l.
Qed.

Lemma move_dict_miscounts_witness : exists kvs dst kvs' dst' : kvstore Z Z, kvstoreMoveDict kvs dst 1 = Some (kvs', dst') /\
  non_empty_dicts kvs = 2 /\ non_empty_dicts dst = 0 /\ non_empty_dicts kvs' = 2 /\ non_empty_dicts dst' = 0 /\ kvstoreSize kvs' = 1 /\ kvstoreSize dst' = 5.
Proof.
  destruct sample_store as (kvs & dst & ms & l & E & C & Sd & R & St).
  assert (exists d, kvstoreGetDict kvs 1 = Some (Some d)) as [d G] by (vm_compute in C; injection C as <-; vm_compute in R; injection R as _ <-; eexists; reflexivity).
  destruct (ms !! 1%nat) as [m|] eqn:Hm; [|vm_compute in E; injection E as _ <-; discriminate].
  assert (num_dicts kvs = num_dicts dst /\ kvstoreGetDict dst 1 = Some None /\ non_empty_dicts kvs = 2 /\ non_empty_dicts dst = 0) as (N & Gd & Q1 & Q2)
    by (vm_compute in C; injection C as <-; vm_compute in R; injection R as _ <-; split_and!; reflexivity).
  destruct (move_dict_miscounts sample_type (fun k => u64_range (k * 7)) kvs dst ms _ 1 d m St Sd N G Gd Hm) as (kvs' & dst' & Mv & (_ & _ & W1 & _) & (_ & _ & W2 & _) & N1 & N2).
  { vm_compute in E. injection E as _ <-. injection Hm as <-. vm_compute. reflexivity. }
  exists kvs, dst, kvs', dst'. split; [exact Mv|]. rewrite N1, N2, W1, W2. split; [exact Q1|]. split; [exact Q2|]. clear - E Hm.
  vm_compute in E. injection E as _ <-. injection Hm as <-. vm_compute. split_and!; reflexivity.
Defined.
