(* ===== verification/Lzf.v ===== *)
(** LZF compression (src/src/lzf_c.c, src/src/lzf_d.c): the compressor with its
    uninitialised hash table of pointers, the decompressor with its checks, and
    that decompressing what was compressed gives the input back. *)

From stdpp Require Import base list numbers strings.
From coqutil Require Import Datatypes.RecordSetters.
From S2P Require Import Prelude Memory.
Import TriangleBracketNotations.

Local Open Scope Z_scope.

Definition HLOG : Z := 16.
Definition HSIZE : Z := 2 ^ HLOG.
Definition MAX_LIT : Z := Z.shiftl 1 5.
Definition MAX_OFF : Z := Z.shiftl 1 13.
Definition MAX_REF : Z := Z.shiftl 1 8 + Z.shiftl 1 3.

Definition put (m : list Z) (i v : Z) : option (list Z) := mem_write m i [u8 v].

(** ** Compressing *)

Definition FRST (p : list Z) (i : Z) : option Z := a ← byte_at p i; b ← byte_at p (i + 1); Some (Z.lor (Z.shiftl a 8) b).
Definition NEXT (v : Z) (p : list Z) (i : Z) : option Z := c ← byte_at p (i + 2); Some (u32 (Z.lor (Z.shiftl v 8) c)).
Definition IDX (h : Z) : Z := Z.land (u32 (Z.shiftr h (3 * 8 - HLOG) - h * 5)) (HSIZE - 1).

(** [ip] and [op] are offsets into the input and the output; the hash table holds
    addresses. *)
Record lzf : Type := { ip : Z; op : Z; lit : Z; hval : Z; htab : Z -> Z; out : list Z }.

(** What a round of the loop ends with. *)
Inductive control : Type := Continue (s : lzf) | Break (s : lzf) | Return (m : list Z).

Definition set_slot (h : Z) (v : Z) (t : Z -> Z) : Z -> Z := fun i => if i =? IDX h then v else t i.

(** [len++; if (ref[len] != ip[len]) break;] [n] times; whether all were equal. *)
Fixpoint unrolled (n : nat) (p : list Z) (ref i len : Z) : option (Z * bool) :=
  match n with
  | O => Some (len, true)
  | S n =>
      let len := len + 1 in
      a ← byte_at p (ref + len);
      b ← byte_at p (i + len);
      if negb (a =? b) then Some (len, false) else unrolled n p ref i len
  end.

(** [do len++; while (len < maxlen && ref[len] == ip[len]);] *)
Fixpoint do_while (n : nat) (p : list Z) (ref i maxlen len : Z) : option Z :=
  match n with
  | O => None
  | S n =>
      let len := len + 1 in
      if len <? maxlen then
        a ← byte_at p (ref + len);
        b ← byte_at p (i + len);
        if a =? b then do_while n p ref i maxlen len else Some len
      else Some len
  end.

Definition match_length (p : list Z) (ref i maxlen : Z) : option Z :=
  '(len, all) ← (if maxlen >? 16 then unrolled 16 p ref i 2 else Some (2, true));
  if (all : bool) then do_while (S (Z.to_nat maxlen)) p ref i maxlen len else Some len.

Section Compress.
Variable in_data : list Z.

(** The address of the input. *)
Variable base : Z.

Notation in_len := (zlen in_data).

(** The distance of a match and the offset of what it matches. *)
Definition find_match (ref i : Z) : option (option (Z * Z)) :=
  let off := u64 (base + i - ref - 1) in
  if negb (off <? MAX_OFF) || negb (ref >? base) then Some None
  else
    let r := ref - base in
    a ← byte_at in_data (r + 2); b ← byte_at in_data (i + 2);
    if negb (a =? b) then Some None
    else
      a0 ← byte_at in_data r; a1 ← byte_at in_data (r + 1); b0 ← byte_at in_data i; b1 ← byte_at in_data (i + 1);
      if Z.lor (Z.shiftl a1 8) a0 =? Z.lor (Z.shiftl b1 8) b0 then Some (Some (off, r)) else Some None.

(** [op [- lit - 1] = lit - 1; op -= !lit;] *)
Definition stop_run (s : lzf) : option lzf :=
  m ← put (out s) (op s - lit s - 1) (lit s - 1);
  Some (s<| out := m |><| op := op s - (if lit s =? 0 then 1 else 0) |>).

Definition start_run (s : lzf) : lzf := s<| lit := 0 |><| op := op s + 1 |>.

Definition emit (v : Z) (s : lzf) : option lzf := m ← put (out s) (op s) v; Some (s<| out := m |><| op := op s + 1 |>).

(** The hash of the position, which is also stored; [ip++]. *)
Definition hash_next (s : lzf) : option lzf :=
  h ← NEXT (hval s) in_data (ip s);
  Some (s<| hval := h |><| htab := set_slot h (base + ip s) (htab s) |><| ip := ip s + 1 |>).

Definition add_match (off r : Z) (s : lzf) : option control :=
  let maxlen := in_len - ip s - 2 in
  let maxlen := if maxlen >? MAX_REF then MAX_REF else maxlen in
  if (op s + 3 + 1 >=? zlen (out s)) && (op s - (if lit s =? 0 then 1 else 0) + 3 + 1 >=? zlen (out s)) then Some (Return (out s))
  else
    s ← stop_run s;
    len ← match_length in_data r (ip s) maxlen;
    let len := len - 2 in
    let s := s<| ip := ip s + 1 |> in
    s ← (if len <? 7 then emit (Z.shiftr off 8 + Z.shiftl len 5) s
         else s ← emit (Z.shiftr off 8 + Z.shiftl 7 5) s; emit (len - 7) s);
    s ← emit off s;
    let s := start_run s in
    let s := s<| ip := ip s + len + 1 |> in
    if ip s >=? in_len - 2 then Some (Break s)
    else
      let s := s<| ip := ip s - 2 |> in
      h ← FRST in_data (ip s);
      s ← hash_next (s<| hval := h |>);
      s ← hash_next s;
      Some (Continue s).

(** [lit++; *op++ = *ip++;] and the end of a run that is full. *)
Definition copy_literal (s : lzf) : option lzf :=
  b ← byte_at in_data (ip s);
  s ← emit b s;
  let s := s<| lit := lit s + 1 |><| ip := ip s + 1 |> in
  if lit s =? MAX_LIT then m ← put (out s) (op s - lit s - 1) (lit s - 1); Some (start_run (s<| out := m |>)) else Some s.

Definition add_literal (s : lzf) : option control :=
  if op s >=? zlen (out s) then Some (Return (out s)) else s ← copy_literal s; Some (Continue s).

Definition round (s : lzf) : option control :=
  h ← NEXT (hval s) in_data (ip s);
  let ref := htab s (IDX h) in
  let s := s<| hval := h |><| htab := set_slot h (base + ip s) (htab s) |> in
  m ← find_match ref (ip s);
  match m with
  | Some (off, r) => add_match off r s
  | None => add_literal s
  end.

(** [while (ip < in_end - 2)]; every round moves [ip]. *)
Fixpoint rounds (n : nat) (s : lzf) : option control :=
  if ip s <? in_len - 2 then
    match n with
    | O => None
    | S n => c ← round s; match c with Continue s => rounds n s | _ => Some c end
    end
  else Some (Break s).

(** [while (ip < in_end)] *)
Fixpoint last_bytes (n : nat) (s : lzf) : option lzf :=
  if ip s <? in_len then
    match n with
    | O => None
    | S n => s ← copy_literal s; last_bytes n s
    end
  else Some s.

(** The length and the output block. *)
Definition lzf_compress (garbage : Z -> Z) (out_data : list Z) : option (Z * list Z) :=
  if (in_len =? 0) || (zlen out_data =? 0) then Some (0, out_data)
  else
    h ← FRST in_data 0;
    c ← rounds (length in_data) {| ip := 0; op := 1; lit := 0; hval := h; htab := garbage; out := out_data |};
    match c with
    | Return m => Some (0, m)
    | Continue s | Break s =>
        if op s + 3 >? zlen (out s) then Some (0, out s)
        else
          s ← last_bytes 3 s;
          s ← stop_run s;
          Some (op s, out s)
    end.
End Compress.

(** ** Decompressing *)

(** [*op++ = *ref++] [n] times. *)
Fixpoint octets (n : nat) (m : list Z) (dst src : Z) : option (list Z) :=
  match n with
  | O => Some m
  | S n => b ← byte_at m src; m ← mem_write m dst [b]; octets n m (dst + 1) (src + 1)
  end.

Definition copy_back (m : list Z) (dst src len : Z) : option (list Z) :=
  if (len >? 9) && (dst >=? src + (len + 2)) then mem_move m dst src (len + 2)
  else octets (Z.to_nat (len + 2)) m dst src.

(** A round: the rest of the input and the output with its offset, or [inl] for a
    return of 0. *)
Definition decompress_step (input : list Z) (i : Z) (m : list Z) (o : Z) : option (list Z + Z * list Z * Z) :=
  ctrl ← byte_at input i;
  let i := i + 1 in
  if ctrl <? Z.shiftl 1 5 then
    let ctrl := ctrl + 1 in
    if o + ctrl >? zlen m then Some (inl m)
    else if i + ctrl >? zlen input then Some (inl m)
    else b ← mem_read input i ctrl; m ← mem_write m o b; Some (inr (i + ctrl, m, o + ctrl))
  else
    let len := Z.shiftr ctrl 5 in
    let ref := o - Z.shiftl (Z.land ctrl 31) 8 - 1 in
    if i >=? zlen input then Some (inl m)
    else
      '(len, i) ← (if len =? 7 then b ← byte_at input i; Some (len + b, i + 1) else Some (len, i));
      if (Z.shiftr ctrl 5 =? 7) && (i >=? zlen input) then Some (inl m)
      else
        b ← byte_at input i;
        let ref := ref - b in
        let i := i + 1 in
        if o + len + 2 >? zlen m then Some (inl m)
        else if ref <? 0 then Some (inl m)
        else m ← copy_back m o ref len; Some (inr (i, m, o + len + 2)).

Fixpoint decompress_loop (n : nat) (input : list Z) (i : Z) (m : list Z) (o : Z) : option (Z * list Z) :=
  if i <? zlen input then
    match n with
    | O => None
    | S n =>
        r ← decompress_step input i m o;
        match r with
        | inl m => Some (0, m)
        | inr (i, m, o) => decompress_loop n input i m o
        end
    end
  else Some (o, m).

Definition lzf_decompress (input out_data : list Z) : option (Z * list Z) := decompress_loop (length input) input 0 out_data 0.

(** ** The format *)

(** A run of literals, or a reference: the distance less one and the number of
    octets less two. *)
Inductive token : Type := Lit (l : list Z) | Ref (off n : Z).

Definition token_bytes (t : token) : list Z :=
  match t with
  | Lit l => (zlen l - 1) :: l
  | Ref off n => if n <? 7 then [off / 256 + 32 * n; off mod 256] else [off / 256 + 224; n - 7; off mod 256]
  end.

Fixpoint extend (n : nat) (off : Z) (o : list Z) : list Z :=
  match n with
  | O => o
  | S n => match byte_at o (zlen o - off - 1) with Some b => extend n off (o ++ [b]) | None => o end
  end.

Definition apply_token (o : list Z) (t : token) : list Z :=
  match t with Lit l => o ++ l | Ref off n => extend (Z.to_nat (n + 2)) off o end.

Definition token_ok (o : list Z) (t : token) : Prop :=
  match t with
  | Lit l => 1 <= zlen l <= 32
  | Ref off n => 0 <= off < 2 ^ 13 /\ off < zlen o /\ 1 <= n <= 262
  end.

Inductive decodes : list Z -> list Z -> Prop :=
  | decodes_nil : decodes [] []
  | decodes_token c o t : decodes c o -> token_ok o t -> decodes (c ++ token_bytes t) (apply_token o t).

(** ** Bytes *)

Lemma take_next m n b : byte_at m n = Some b -> take (Z.to_nat (n + 1)) m = take (Z.to_nat n) m ++ [b].
Proof.
  intros H. pose proof (byte_at_bound _ _ _ H). unfold byte_at in H. destruct (Z.ltb_spec n 0); [done|].
  replace (Z.to_nat (n + 1)) with (S (Z.to_nat n)) by lia. by apply take_S_r.
Qed.

Lemma put_mid a x b v i : i = zlen a -> put (a ++ x :: b) i v = Some (a ++ u8 v :: b).
Proof. intros ->. unfold put. by apply (mem_write_app a [x] b [u8 v]). Qed.

(** ** What a reference copies *)

Lemma extend_length n off : forall o, 0 <= off < zlen o -> zlen (extend n off o) = zlen o + Z.of_nat n.
Proof.
  induction n as [|n IH]; intros o Ho; cbn [extend]; [lia|]. destruct (byte_at_some o (zlen o - off - 1)) as [b ->]; [lia|].
  rewrite IH; rewrite zlen_snoc; lia.
Qed.

(** The [n] octets at [r] and at [i] are equal. *)
Definition agree (p : list Z) (r i n : Z) : Prop := forall j, 0 <= j < n -> byte_at p (r + j) = byte_at p (i + j).

Lemma extend_agree p off : forall n i, 0 <= off < i -> i + Z.of_nat n <= zlen p -> agree p (i - off - 1) i (Z.of_nat n) ->
  extend n off (take (Z.to_nat i) p) = take (Z.to_nat (i + Z.of_nat n)) p.
Proof.
  induction n as [|n IH]; intros i Hi L A; cbn [extend]; [by rewrite Z.add_0_r|]. rewrite zlen_take by lia. rewrite byte_at_take by lia.
  destruct (byte_at_some p i) as [b Hb]; [lia|]. pose proof (A 0 ltac:(lia)) as A0. rewrite !Z.add_0_r, Hb in A0. rewrite A0, <- (take_next p i b Hb), IH by (lia || (intros j Hj;
    specialize (A (j + 1) ltac:(lia)); by replace (i + 1 - off - 1 + j) with (i - off - 1 + (j + 1)) by lia; replace (i + 1 + j) with (i + (j + 1)) by lia)).
  do 2 f_equal. lia.
Qed.

(** ** Decompressing *)

Lemma octets_spec off rest : forall n o, 0 <= off < zlen o -> Z.of_nat n <= zlen rest ->
  octets n (o ++ rest) (zlen o) (zlen o - off - 1) = Some (extend n off o ++ drop n rest).
Proof.
  intros n. revert rest. induction n as [|n IH]; intros rest o Ho L; cbn [octets extend]; [by rewrite drop_0|].
  destruct (byte_at_some o (zlen o - off - 1)) as [b Hb]; [lia|]. rewrite byte_at_app_l, Hb by lia. cbn [mbind option_bind].
  destruct rest as [|x rest]; [rewrite zlen_nil in L; lia|]. rewrite (mem_write_app o [x] rest [b]) by done. cbn [mbind option_bind]. rewrite (app_assoc o [b] rest).
  rewrite zlen_cons in L. replace (zlen o + 1) with (zlen (o ++ [b])) by (rewrite zlen_snoc; lia).
  replace (zlen o - off - 1 + 1) with (zlen (o ++ [b]) - off - 1) by (rewrite zlen_snoc; lia). rewrite IH; [done| |lia]. rewrite zlen_snoc. lia.
Qed.

(** Without overlap the octets are those before. *)
Lemma extend_disjoint off : forall n o, 0 <= off < zlen o -> Z.of_nat n <= off + 1 ->
  extend n off o = o ++ take n (drop (Z.to_nat (zlen o - off - 1)) o).
Proof.
  induction n as [|n IH]; intros o Ho L; cbn [extend]; [by rewrite take_0, app_nil_r|]. destruct (byte_at_some o (zlen o - off - 1)) as [b Hb]; [lia|]. rewrite Hb, IH by (rewrite ?zlen_snoc; lia).
  rewrite <- app_assoc. f_equal. unfold byte_at in Hb. destruct (Z.ltb_spec (zlen o - off - 1) 0); [done|]. rewrite (drop_S _ _ _ Hb). cbn [take app]. f_equal.
  replace (Z.to_nat (zlen (o ++ [b]) - off - 1)) with (S (Z.to_nat (zlen o - off - 1))) by (rewrite zlen_snoc; lia).
  assert (S (Z.to_nat (zlen o - off - 1)) <= length o)%nat by (unfold zlen in *; lia). rewrite drop_app_le by done. rewrite take_app_le; [done|]. rewrite length_drop. unfold zlen in *. lia.
Qed.

Lemma copy_back_spec o rest off len : 0 <= off < zlen o -> 0 <= len -> len + 2 <= zlen rest ->
  copy_back (o ++ rest) (zlen o) (zlen o - off - 1) len = Some (extend (Z.to_nat (len + 2)) off o ++ drop (Z.to_nat (len + 2)) rest).
Proof.
  intros Ho Hl L. unfold copy_back. destruct ((len >? 9) && _) eqn:D; [|apply octets_spec; lia]. apply andb_true_iff in D as [_ D]. rewrite Z.geb_leb in D. apply Z.leb_le in D.
  unfold mem_move, mem_read. rewrite zlen_app. zdec. cbn [mbind option_bind]. rewrite drop_app_le, take_app_le by (rewrite ?length_drop; unfold zlen in *; lia).
  set (b := take _ _). assert (zlen b = len + 2) as Lb by (unfold b; rewrite zlen_take; [lia|]; rewrite zlen_drop; lia). rewrite <- (take_drop (Z.to_nat (len + 2)) rest) at 1.
  rewrite (mem_write_app o (take (Z.to_nat (len + 2)) rest) _ b); [|done|unfold zlen in *; rewrite length_take; lia]. by rewrite extend_disjoint, <- app_assoc by lia.
Qed.

Lemma ctrl_fields a n : 0 <= a < 32 -> 0 <= n -> Z.shiftr (a + 32 * n) 5 = n /\ Z.land (a + 32 * n) 31 = a.
Proof.
  intros Ha Hn. rewrite Z.shiftr_div_pow2 by lia. change 31 with (Z.ones 5). rewrite Z.land_ones by lia. change (2 ^ 5) with 32. rewrite (Z.mul_comm 32).
  rewrite Z.div_add, Z.mod_add, Z.div_small, Z.mod_small by lia. lia.
Qed.

Lemma apply_length o t : token_ok o t -> zlen (apply_token o t) = zlen o + match t with Lit l => zlen l | Ref _ n => n + 2 end.
Proof. destruct t as [l|off n]; cbn; [by rewrite zlen_app|]. intros (H1 & H2 & H3). rewrite extend_length by lia. lia. Qed.

Lemma step_token c t rest o tl : token_ok o t -> zlen (apply_token o t) <= zlen (o ++ tl) ->
  decompress_step (c ++ token_bytes t ++ rest) (zlen c) (o ++ tl) (zlen o) =
    Some (inr (zlen (c ++ token_bytes t), apply_token o t ++ drop (Z.to_nat (zlen (apply_token o t) - zlen o)) tl, zlen (apply_token o t))).
Proof.
  intros Ok L. pose proof (apply_length o t Ok) as Al. rewrite Al in *. rewrite zlen_app in L. pose proof (zlen_nonneg rest). unfold decompress_step. destruct t as [l|off n]; cbn [token_bytes apply_token token_ok] in *.
  - cbn [app]. rewrite (byte_at_mid c _ _ (zlen c)) by done. cbn [mbind option_bind]. change (Z.shiftl 1 5) with 32. destruct (Z.ltb_spec (zlen l - 1) 32); [|lia]. replace (zlen l - 1 + 1) with (zlen l) by lia.
    rewrite !zlen_app, !zlen_cons, !zlen_app. rewrite !Z.gtb_ltb. destruct (Z.ltb_spec (zlen o + zlen tl) (zlen o + zlen l)); [lia|].
    destruct (Z.ltb_spec (zlen c + (1 + (zlen l + zlen rest))) (zlen c + 1 + zlen l)); [lia|].
    replace (c ++ zlen l - 1 :: l ++ rest) with ((c ++ [zlen l - 1]) ++ l ++ rest) by (by rewrite <- app_assoc). rewrite mem_read_app by (rewrite ?zlen_snoc; done). cbn [mbind option_bind].
    rewrite <- (take_drop (Z.to_nat (zlen l)) tl) at 1. rewrite (mem_write_app o (take (Z.to_nat (zlen l)) tl) _ l); [|done|unfold zlen in *; rewrite length_take; lia]. cbn [mbind option_bind].
    rewrite <- app_assoc. replace (zlen o + zlen l - zlen o) with (zlen l) by lia. do 3 f_equal. f_equal. lia.
  - destruct Ok as (H1 & H2 & H3). assert (0 <= off / 256 < 32) as Hq by (split; [apply Z.div_pos; lia|apply Z.div_lt_upper_bound; lia]). pose proof (Z.mod_pos_bound off 256). pose proof (Z.div_mod off 256).
    change (Z.shiftl 1 5) with 32. replace (zlen o + (n + 2) - zlen o) with (n + 2) by lia. destruct (Z.ltb_spec n 7) as [N7|N7]; cbn [app]; rewrite (byte_at_mid c _ _ (zlen c)) by done; cbn [mbind option_bind].
    + destruct (ctrl_fields (off / 256) n Hq ltac:(lia)) as [-> ->]. destruct (Z.ltb_spec (off / 256 + 32 * n) 32); [lia|]. rewrite !zlen_app, !zlen_cons. change (zlen (@nil Z)) with 0. rewrite !Z.geb_leb. 
      destruct (Z.leb_spec (zlen c + (1 + (1 + zlen rest))) (zlen c + 1)); [lia|]. destruct (Z.eqb_spec n 7); [lia|]. cbn [mbind option_bind andb].
      replace (c ++ off / 256 + 32 * n :: off mod 256 :: rest) with ((c ++ [off / 256 + 32 * n]) ++ off mod 256 :: rest) by (by rewrite <- app_assoc). rewrite byte_at_mid by (by rewrite zlen_snoc).
      cbn [mbind option_bind]. rewrite Z.shiftl_mul_pow2 by lia. replace (zlen o - off / 256 * 2 ^ 8 - 1 - off mod 256) with (zlen o - off - 1) by lia. rewrite Z.gtb_ltb.
      destruct (Z.ltb_spec (zlen o + zlen tl) (zlen o + n + 2)); [lia|]. destruct (Z.ltb_spec (zlen o - off - 1) 0); [lia|]. rewrite copy_back_spec by lia. cbn [mbind option_bind].
      replace (zlen o + n + 2) with (zlen o + (n + 2)) by lia. replace (zlen c + 1 + 1) with (zlen c + (1 + (1 + 0))) by lia. done.
    + destruct (ctrl_fields (off / 256) 7 Hq ltac:(lia)) as [E1 E2]. change (32 * 7) with 224 in *. rewrite E1, E2. destruct (Z.ltb_spec (off / 256 + 224) 32); [lia|]. rewrite !zlen_app, !zlen_cons. change (zlen (@nil Z)) with 0. rewrite !Z.geb_leb.
      destruct (Z.leb_spec (zlen c + (1 + (1 + (1 + zlen rest)))) (zlen c + 1)); [lia|]. cbn [Z.eqb Pos.eqb].
      replace (c ++ off / 256 + 224 :: n - 7 :: off mod 256 :: rest) with ((c ++ [off / 256 + 224]) ++ n - 7 :: off mod 256 :: rest) by (by rewrite <- app_assoc). rewrite byte_at_mid by (by rewrite zlen_snoc).
      cbn [mbind option_bind andb]. rewrite Z.geb_leb. destruct (Z.leb_spec (zlen c + (1 + (1 + (1 + zlen rest)))) (zlen c + 1 + 1)); [lia|].
      replace ((c ++ [off / 256 + 224]) ++ n - 7 :: off mod 256 :: rest) with (((c ++ [off / 256 + 224]) ++ [n - 7]) ++ off mod 256 :: rest) by (by rewrite <- !app_assoc). rewrite byte_at_mid by (by rewrite !zlen_snoc).
      cbn [mbind option_bind]. replace (7 + (n - 7)) with n by lia. rewrite Z.shiftl_mul_pow2 by lia. replace (zlen o - off / 256 * 2 ^ 8 - 1 - off mod 256) with (zlen o - off - 1) by lia. rewrite Z.gtb_ltb.
      destruct (Z.ltb_spec (zlen o + zlen tl) (zlen o + n + 2)); [lia|]. destruct (Z.ltb_spec (zlen o - off - 1) 0); [lia|]. rewrite copy_back_spec by lia. cbn [mbind option_bind].
      replace (zlen o + n + 2) with (zlen o + (n + 2)) by lia. replace (zlen c + 1 + 1 + 1) with (zlen c + (1 + (1 + (1 + 0)))) by lia. done.
Qed.

Lemma loop_reaches c o : decodes c o -> forall rest buf, zlen o <= zlen buf -> exists k : nat, (k <= length c)%nat /\
  forall n, decompress_loop (k + n) (c ++ rest) 0 buf 0 = decompress_loop n (c ++ rest) (zlen c) (o ++ drop (Z.to_nat (zlen o)) buf) (zlen o).
Proof.
  induction 1 as [|c o t D IH Ok]; intros rest buf L; [by exists O|]. pose proof (apply_length o t Ok) as Al. pose proof (zlen_nonneg o).
  assert (zlen o <= zlen (apply_token o t)) as Lo by (destruct t; cbn in *; [pose proof (zlen_nonneg l)|]; lia).
  destruct (IH (token_bytes t ++ rest) buf ltac:(lia)) as (k & Hk & E). exists (k + 1)%nat.
  assert (1 <= length (token_bytes t))%nat as Lt by (destruct t as [l|off n]; cbn; [lia|destruct (n <? 7); cbn; lia]). split; [rewrite length_app; lia|]. intros n.
  rewrite <- app_assoc. replace (k + 1 + n)%nat with (k + S n)%nat by lia. rewrite E. cbn [decompress_loop]. rewrite !zlen_app. pose proof (zlen_nonneg rest).
  destruct (Z.ltb_spec (zlen c) (zlen c + (zlen (token_bytes t) + zlen rest))); [|unfold zlen in *; lia]. rewrite step_token; [|done|rewrite zlen_app, zlen_drop by lia; lia].
  cbn [mbind option_bind]. rewrite drop_drop, zlen_app. do 2 f_equal. f_equal. lia.
Qed.

Lemma extend_prefix n off : forall o, exists x, extend n off o = o ++ x.
Proof.
  induction n as [|n IH]; intros o; cbn [extend]; [exists []; by rewrite app_nil_r|]. destruct (byte_at o (zlen o - off - 1)) as [b|]; [|exists []; by rewrite app_nil_r].
  destruct (IH (o ++ [b])) as [x ->]. exists ([b] ++ x). by rewrite app_assoc.
Qed.

Lemma decodes_bytes c o : decodes c o -> Forall is_u8 o -> Forall is_u8 c.
Proof.
  induction 1 as [|c o t _ IH Ok]; [done|]. intros B. unfold is_u8 in *. destruct t as [l|off n]; cbn [apply_token token_ok token_bytes] in *.
  - apply Forall_app in B as [Bo Bl]. apply Forall_app. split; [by apply IH|]. constructor; [lia|done].
  - destruct (extend_prefix (Z.to_nat (n + 2)) off o) as [x Ex]. rewrite Ex in B. apply Forall_app in B as [Bo _]. apply Forall_app. split; [by apply IH|].
    assert (0 <= off / 256 < 32) by (split; [apply Z.div_pos; lia|apply Z.div_lt_upper_bound; lia]). pose proof (Z.mod_pos_bound off 256 ltac:(lia)). destruct (Z.ltb_spec n 7); repeat constructor; lia.
Qed.

Lemma decompress_decodes c o buf : decodes c o -> zlen o <= zlen buf -> lzf_decompress c buf = Some (zlen o, o ++ drop (Z.to_nat (zlen o)) buf).
Proof.
  intros D L. destruct (loop_reaches c o D [] buf L) as (k & Hk & E). rewrite app_nil_r in E. unfold lzf_decompress. replace (length c) with (k + (length c - k))%nat by lia. rewrite E.
  destruct (length c - k)%nat; cbn [decompress_loop]; by rewrite Z.ltb_irrefl.
Qed.

Lemma copy_back_safe m o ref len : 0 <= ref < o -> 0 <= len -> o + len + 2 <= zlen m -> exists m', copy_back m o ref len = Some m' /\ zlen m' = zlen m.
Proof.
  intros Hr Hl L. pose proof (copy_back_spec (take (Z.to_nat o) m) (drop (Z.to_nat o) m) (o - ref - 1) len) as E. rewrite take_drop, zlen_take, zlen_drop in E by lia.
  replace (o - (o - ref - 1) - 1) with ref in E by lia. eexists. split; [apply E; lia|]. rewrite zlen_app, extend_length, zlen_take by (rewrite ?zlen_take; lia).
  rewrite zlen_drop by (rewrite zlen_drop; lia). rewrite zlen_drop; lia.
Qed.

(** A round on any input stays within both blocks. *)
Lemma step_safe input i m o : Forall is_u8 input -> 0 <= i < zlen input -> 0 <= o <= zlen m ->
  exists r, decompress_step input i m o = Some r /\
    match r with inl m' => zlen m' = zlen m | inr (i', m', o') => i < i' /\ zlen m' = zlen m /\ 0 <= o' <= zlen m end.
Proof.
  intros B Hi Ho. assert (forall j b, byte_at input j = Some b -> 0 <= b < 256) as Br.
  { intros j b Hb. unfold byte_at in Hb. destruct (j <? 0); [done|]. exact (Forall_lookup_1 _ _ _ _ B Hb). }
  unfold decompress_step. destruct (byte_at_some input i Hi) as [ctrl Hc]. pose proof (Br _ _ Hc) as Rc. rewrite Hc. cbn [mbind option_bind]. change (Z.shiftl 1 5) with 32. rewrite !Z.gtb_ltb, !Z.geb_leb. 
  destruct (Z.ltb_spec ctrl 32).
  - destruct (Z.ltb_spec (zlen m) (o + (ctrl + 1))); [by eexists|]. destruct (Z.ltb_spec (zlen input) (i + 1 + (ctrl + 1))); [by eexists|]. unfold mem_read, mem_write. zdec. cbn [mbind option_bind].
    set (b := take _ (drop _ input)). assert (zlen b = ctrl + 1) as Lb by (unfold b; rewrite zlen_take; [lia|rewrite zlen_drop; lia]). rewrite Lb. zdec. cbn [mbind option_bind]. eexists. split; [done|].
    split_and!; [lia| |lia|lia]. rewrite !zlen_app, Lb, zlen_take by lia. replace (Z.to_nat o + length b)%nat with (Z.to_nat (o + (ctrl + 1))) by (unfold zlen in *; lia). rewrite zlen_drop by lia. lia.
  - destruct (Z.leb_spec (zlen input) (i + 1)); [by eexists|]. assert (0 <= Z.shiftr ctrl 5 <= 7) as Sh.
    { rewrite Z.shiftr_div_pow2 by lia. change (2 ^ 5) with 32. split; [apply Z.div_pos; lia|]. assert (ctrl / 32 < 8); [apply Z.div_lt_upper_bound; lia|lia]. }
    assert (0 <= Z.shiftl (Z.land ctrl 31) 8) as Sl by (rewrite Z.shiftl_nonneg, Z.land_nonneg; lia).
    assert (exists len j, (if Z.shiftr ctrl 5 =? 7 then b ← byte_at input (i + 1); Some (Z.shiftr ctrl 5 + b, i + 1 + 1) else Some (Z.shiftr ctrl 5, i + 1)) = Some (len, j) /\ 0 <= len /\ i < j /\
      (Z.shiftr ctrl 5 =? 7 = false -> j < zlen input)) as (len & j & -> & Hl & Hj & Nj).
    { destruct (Z.shiftr ctrl 5 =? 7); [|eexists _, _; split; [done|]; lia]. destruct (byte_at_some input (i + 1)) as [b Hb]; [lia|]. pose proof (Br _ _ Hb). rewrite Hb. eexists _, _. split; [done|]. lia. }
    cbn [mbind option_bind]. rewrite Z.geb_leb. destruct (Z.eqb_spec (Z.shiftr ctrl 5) 7) as [E7|E7]; cbn [andb]; [destruct (Z.leb_spec (zlen input) j); [by eexists|]|specialize (Nj eq_refl)];
      (destruct (byte_at_some input j) as [b Hb]; [lia|]; pose proof (Br _ _ Hb); rewrite Hb; cbn [mbind option_bind]; rewrite Z.gtb_ltb; destruct (Z.ltb_spec (zlen m) (o + len + 2)); [by eexists|];
       set (ref := o - _ - 1 - b); destruct (Z.ltb_spec ref 0); [by eexists|]; destruct (copy_back_safe m o ref len) as (m' & -> & Lm); [lia|lia|lia|]; cbn [mbind option_bind]; eexists;
       split; [done|]; split_and!; lia).
Qed.

Lemma decompress_safe input out_data : Forall is_u8 input ->
  exists n m, lzf_decompress input out_data = Some (n, m) /\ zlen m = zlen out_data /\ 0 <= n <= zlen out_data.
Proof.
  intros B. unfold lzf_decompress. assert (forall k i m o, 0 <= i -> zlen input - i <= Z.of_nat k -> 0 <= o <= zlen m ->
    exists n m', decompress_loop k input i m o = Some (n, m') /\ zlen m' = zlen m /\ 0 <= n <= zlen m) as Lp; [|apply Lp; [done|unfold zlen; lia|pose proof (zlen_nonneg out_data); lia]].
  induction k as [|k IH]; intros i m o Pi L Ho; cbn [decompress_loop]; (destruct (Z.ltb_spec i (zlen input)); [|by eexists _, _]); [lia|].
  destruct (step_safe input i m o B ltac:(lia) Ho) as (r & -> & Hr). cbn [mbind option_bind]. destruct r as [m'|[[i' m'] o']].
  - exists 0, m'. split_and!; [done|done|lia|lia].
  - destruct Hr as (H1 & H2 & H3). destruct (IH i' m' o' ltac:(lia) ltac:(lia) ltac:(lia)) as (n & m2 & -> & E1 & E2). exists n, m2. split_and!; [done|lia|lia|lia].
Qed.

(** C22: on any input, well-formed or not, and any output block the decompressor
    ends, never reads or writes outside the two blocks, and reports a length
    within the output. *)
Theorem lzf_decompress_safe input out_data : Forall is_u8 input ->
  exists n m, lzf_decompress input out_data = Some (n, m) /\ zlen m = zlen out_data /\ 0 <= n <= zlen out_data.
Proof. apply decompress_safe. Qed.

(** ** Compressing *)

Section CompressProofs.
Variables (in_data : list Z) (base : Z).

Hypothesis bytes : Forall is_u8 in_data.
Hypothesis base_low : MAX_OFF <= base.
Hypothesis base_high : base + zlen in_data <= 2 ^ 64.

Notation in_len := (zlen in_data).

Lemma byte_range i b : byte_at in_data i = Some b -> 0 <= b < 256.
Proof. unfold byte_at. destruct (i <? 0); [done|]. intros Hb. exact (Forall_lookup_1 _ _ _ _ bytes Hb). Qed.

Lemma pair_inj a0 a1 b0 b1 : 0 <= a0 < 256 -> 0 <= b0 < 256 -> Z.lor (Z.shiftl a1 8) a0 = Z.lor (Z.shiftl b1 8) b0 -> a0 = b0 /\ a1 = b1.
Proof.
  intros Ha Hb E. rewrite !lor_shiftl_add in E by lia. change (2 ^ 8) with 256 in E. lia.
Qed.

(** A match is of three octets before the position, at most [MAX_OFF] away. *)
Lemma find_match_spec ref i : is_u64 ref -> 0 <= i -> i + 3 <= in_len ->
  exists r, find_match in_data base ref i = Some r /\
    forall off p, r = Some (off, p) -> p = i - off - 1 /\ 0 <= p /\ 0 <= off < 2 ^ 13 /\ agree in_data p i 3.
Proof.
  intros Rr Pi L. change MAX_OFF with (2 ^ 13) in base_low. unfold find_match. change MAX_OFF with (2 ^ 13). set (off := u64 (base + i - ref - 1)).
  destruct (Z.ltb_spec off (2 ^ 13)) as [Lo|]; cbn [negb orb]; [|by eexists]. rewrite Z.gtb_ltb. destruct (Z.ltb_spec base ref) as [Lb|]; cbn [negb]; [|by eexists].
  pose proof (u64_range (base + i - ref - 1)) as Ro. fold off in Ro. unfold is_u64 in *.
  assert (off = base + i - ref - 1) as Eo.
  { destruct (Z.le_gt_cases ref (base + i - 1)) as [C|C]; [unfold off; apply u64_small; unfold is_u64; lia|]. exfalso.
    assert (off = base + i - ref - 1 + 2 ^ 64) as E; [|lia]. unfold off, u64. rewrite <- (Z.mod_add _ 1) by lia. apply Z.mod_small. lia. }
  clearbody off. set (p := ref - base). assert (p = i - off - 1 /\ 0 <= p /\ p < i) as (Ep & P0 & P1) by (unfold p; lia). clearbody p.
  destruct (byte_at_some in_data p) as [a0 A0]; [lia|]. destruct (byte_at_some in_data (p + 1)) as [a1 A1]; [lia|]. destruct (byte_at_some in_data (p + 2)) as [a2 A2]; [lia|].
  destruct (byte_at_some in_data i) as [b0 B0]; [lia|]. destruct (byte_at_some in_data (i + 1)) as [b1 B1]; [lia|]. destruct (byte_at_some in_data (i + 2)) as [b2 B2]; [lia|].
  rewrite A0, A1, A2, B0, B1, B2. cbn [mbind option_bind]. destruct (Z.eqb_spec a2 b2) as [->|]; cbn [negb]; [|by eexists].
  destruct (Z.eqb_spec (Z.lor (Z.shiftl a1 8) a0) (Z.lor (Z.shiftl b1 8) b0)) as [E|]; [|by eexists]. apply pair_inj in E as [-> ->]; [|by eapply byte_range|by eapply byte_range].
  eexists. split; [done|]. intros off' p' [= <- <-]. split_and!; try lia. intros j Hj. assert (j = 0 \/ j = 1 \/ j = 2) as [->|[->| ->]] by lia; rewrite ?Z.add_0_r; congruence.
Qed.

Lemma agree_snoc p r i n : agree in_data r i n -> byte_at in_data (r + n) = byte_at in_data (i + n) -> p = n + 1 -> agree in_data r i p.
Proof. intros A E -> j Hj. destruct (Z.eq_dec j n) as [->|]; [done|]. apply A. lia. Qed.

Lemma unrolled_spec r i : forall n len, 0 <= r < i -> 0 <= len -> i + len + Z.of_nat n < in_len -> agree in_data r i (len + 1) ->
  exists len' all, unrolled n in_data r i len = Some (len', all) /\ len <= len' <= len + Z.of_nat n /\ agree in_data r i len' /\
    (if all : bool then len' = len + Z.of_nat n /\ agree in_data r i (len' + 1) else len < len').
Proof.
  induction n as [|n IH]; intros len Hr Hl L A; cbn [unrolled].
  { exists len, true. split_and!; [done|lia|lia| |lia|done]. intros j Hj. apply A. lia. }
  destruct (byte_at_some in_data (r + (len + 1))) as [a Ha]; [lia|]. destruct (byte_at_some in_data (i + (len + 1))) as [b Hb]; [lia|]. rewrite Ha, Hb. cbn [mbind option_bind].
  destruct (Z.eqb_spec a b) as [->|]; cbn [negb].
  - destruct (IH (len + 1) Hr ltac:(lia) ltac:(lia)) as (len' & all & -> & B & A' & F); [eapply agree_snoc; [exact A|congruence|lia]|]. exists len', all. split_and!; [done|lia|lia|done|].
    destruct all; [destruct F as [-> F]; split; [lia|done]|lia].
  - exists (len + 1), false. split_and!; [done|lia|lia|done|lia].
Qed.

Lemma do_while_spec r i maxlen : forall n len, 0 <= r < i -> 0 <= len -> i + maxlen <= in_len -> Z.max 1 (maxlen - len) <= Z.of_nat n -> agree in_data r i (len + 1) ->
  exists len', do_while n in_data r i maxlen len = Some len' /\ len < len' <= Z.max (len + 1) maxlen /\ agree in_data r i len'.
Proof.
  induction n as [|n IH]; intros len Hr Hl L F A; cbn [do_while].
  { lia. }
  destruct (Z.ltb_spec (len + 1) maxlen); [|exists (len + 1); split_and!; [done|lia|lia|done]].
  destruct (byte_at_some in_data (r + (len + 1))) as [a Ha]; [lia|]. destruct (byte_at_some in_data (i + (len + 1))) as [b Hb]; [lia|]. rewrite Ha, Hb. cbn [mbind option_bind].
  destruct (Z.eqb_spec a b) as [->|]; [|exists (len + 1); split_and!; [done|lia|lia|done]].
  destruct (IH (len + 1) Hr ltac:(lia) L ltac:(lia)) as (len' & -> & B & A'); [eapply agree_snoc; [exact A|congruence|lia]|]. exists len'. split_and!; [done|lia|lia|done].
Qed.

Lemma match_length_spec r i maxlen : 0 <= r < i -> i + 3 <= in_len -> agree in_data r i 3 -> maxlen = Z.min (in_len - i - 2) MAX_REF ->
  exists len, match_length in_data r i maxlen = Some len /\ 3 <= len <= Z.min (in_len - i) MAX_REF /\ agree in_data r i len.
Proof.
  intros Hr L A Em. change MAX_REF with 264 in *. unfold match_length. rewrite Z.gtb_ltb. destruct (Z.ltb_spec 16 maxlen).
  - destruct (unrolled_spec r i 16 2 Hr ltac:(lia) ltac:(lia) A) as (len & all & -> & B & A' & F). cbn [mbind option_bind]. destruct all; [|exists len; split_and!; [done|lia|lia|done]].
    destruct F as [Fl Fa]. destruct (do_while_spec r i maxlen (S (Z.to_nat maxlen)) len Hr ltac:(lia) ltac:(lia) ltac:(lia) Fa) as (len' & -> & B' & A2). exists len'. split_and!; [done|lia|lia|done].
  - cbn [mbind option_bind]. destruct (do_while_spec r i maxlen (S (Z.to_nat maxlen)) 2 Hr ltac:(lia) ltac:(lia) ltac:(lia) A) as (len' & -> & B' & A2). exists len'. split_and!; [done|lia|lia|done].
Qed.

(** What was written decodes to the input before the run [l] of literals, which
    is written behind the place of its length. *)
Record compressing (c o l : list Z) (s : lzf) : Prop := {
  cp_decodes : decodes c o;
  cp_out : exists tl, out s = c ++ tl /\ (l = [] \/ exists h rest, tl = h :: l ++ rest);
  cp_op : op s = zlen c + 1 + zlen l;
  cp_lit : lit s = zlen l /\ zlen l < 32;
  cp_in : o ++ l = take (Z.to_nat (ip s)) in_data;
  cp_ip : 0 <= ip s <= in_len;
  cp_htab : forall j, is_u64 (htab s j)
}.

Lemma u8_id v : 0 <= v < 256 -> u8 v = v.
Proof. intros H. apply u8_small. exact H. Qed.

(** The run is ended; the output is then [c'] up to [op]. *)
Lemma stop_run_spec c o l s : compressing c o l s -> op s <= zlen (out s) ->
  exists c' tl s', stop_run s = Some s' /\ decodes c' (take (Z.to_nat (ip s)) in_data) /\ out s' = c' ++ tl /\ op s' = zlen c' /\ zlen (out s') = zlen (out s) /\
    op s' = op s - (if lit s =? 0 then 1 else 0) /\ ip s' = ip s /\ htab s' = htab s /\ hval s' = hval s.
Proof.
  intros [D (tl & Eo & T) Op [Li Lm] In _ _] Lo. destruct s as [i0 o0 l0 hv ht m]; cbn in *. subst. unfold stop_run; cbn. pose proof (zlen_nonneg l).
  replace (zlen c + 1 + zlen l - zlen l - 1) with (zlen c) by lia. rewrite zlen_app in Lo. destruct (Z.eqb_spec (zlen l) 0) as [Z0|N0].
  - assert (l = []) as -> by (destruct l; [done|rewrite zlen_cons in Z0; pose proof (zlen_nonneg l); lia]). destruct tl as [|h tl]; [rewrite zlen_nil in Lo; lia|]. rewrite put_mid by done. cbn [mbind option_bind].
    rewrite app_nil_r in In. eexists c, _, _. split; [done|]. cbn. unfold constant; cbn. change (zlen (@nil Z)) with 0 in *. rewrite <- In. rewrite !zlen_app, !zlen_cons. split_and!; try done; lia.
  - destruct T as [->|(h & rest & ->)]; [by rewrite zlen_nil in N0|]. rewrite put_mid by done. cbn [mbind option_bind]. rewrite u8_id by lia.
    eexists (c ++ token_bytes (Lit l)), rest, _. split; [done|]. cbn. unfold constant; cbn. rewrite <- In, !zlen_app, !zlen_cons, !zlen_app. split_and!; try done; try lia; [|by rewrite <- app_assoc].
    apply (decodes_token c o (Lit l)); [done|]. cbn. lia.
Qed.

Lemma take_byte n b : byte_at in_data n = Some b -> take (Z.to_nat (n + 1)) in_data = take (Z.to_nat n) in_data ++ [b].
Proof. apply take_next. Qed.

Lemma copy_literal_spec c o l s : compressing c o l s -> op s < zlen (out s) -> ip s < in_len ->
  exists c' o' l' s', copy_literal in_data s = Some s' /\ compressing c' o' l' s' /\ ip s' = ip s + 1 /\ zlen (out s') = zlen (out s) /\
    (op s' = op s + 1 \/ (op s' = op s + 2 /\ lit s = 31 /\ lit s' = 0)) /\ (op s' = op s + 1 -> lit s' = lit s + 1).
Proof.
  intros [D (tl & Eo & T) Op [Li Lm] In Ip Ht] Lo Lp. destruct s as [i0 o0 l0 hv ht m]; cbn in *. subst. unfold copy_literal; cbn. pose proof (zlen_nonneg l). pose proof (zlen_nonneg c).
  destruct (byte_at_some in_data i0) as [b Hb]; [lia|]. rewrite Hb. cbn [mbind option_bind]. unfold emit; cbn. rewrite zlen_app in Lo.
  assert (exists h x rest, tl = h :: l ++ x :: rest) as (h & x & rest & ->).
  { destruct T as [->|(h & rest & ->)].
    - destruct tl as [|h [|x rest]]; [rewrite zlen_nil in *; lia|rewrite zlen_cons, zlen_nil in *; lia|]. by exists h, x, rest.
    - rewrite zlen_cons, zlen_app in Lo. destruct rest as [|x rest]; [rewrite zlen_nil in *; lia|]. by exists h, x, rest. }
  replace (c ++ h :: l ++ x :: rest) with ((c ++ h :: l) ++ x :: rest) by (by rewrite <- app_assoc). rewrite put_mid by (rewrite zlen_app, zlen_cons; lia). cbn. rewrite u8_id by (by eapply byte_range). unfold constant, start_run; cbn.
  change (zlen l + 1 =? MAX_LIT) with (zlen l + 1 =? 32). rewrite <- app_assoc. cbn [app]. destruct (Z.eqb_spec (zlen l + 1) 32) as [E32|N32].
  - rewrite put_mid by lia. cbn. rewrite u8_id by lia. eexists (c ++ token_bytes (Lit (l ++ [b]))), (o ++ l ++ [b]), [], _. split; [done|]. cbn. unfold constant; cbn. split_and!; try lia; [|rewrite !zlen_app, !zlen_cons, !zlen_app, !zlen_cons; lia].
    split; cbn; try done; try lia.
    + apply (decodes_token c o (Lit (l ++ [b]))); [done|]. cbn. rewrite zlen_snoc. lia.
    + exists rest. split; [|by left]. rewrite zlen_snoc, <- app_assoc. cbn [app]. replace (zlen l + 1 - 1) with (zlen l) by lia. by rewrite <- app_assoc.
    + rewrite zlen_app, zlen_cons, zlen_snoc, zlen_nil. lia.
    + rewrite app_nil_r, app_assoc, In. symmetry. by apply take_byte.
  - eexists c, o, (l ++ [b]), _. split; [done|]. cbn. unfold constant; cbn. split_and!; try lia; [|rewrite !zlen_app, !zlen_cons, !zlen_app, !zlen_cons; lia].
    split; cbn; try done; try (rewrite zlen_snoc); try lia.
    + exists (h :: l ++ b :: rest). split; [done|]. right. exists h, rest. by rewrite <- app_assoc.
    + rewrite app_assoc, In. symmetry. by apply take_byte.
Qed.

(** Nothing but the output and its offset differ. *)
Definition same_input (s s' : lzf) : Prop := ip s' = ip s /\ htab s' = htab s /\ hval s' = hval s /\ lit s' = lit s.

Lemma emit_spec v a x b s : out s = a ++ x :: b -> op s = zlen a ->
  exists s', emit v s = Some s' /\ out s' = (a ++ [u8 v]) ++ b /\ op s' = zlen (a ++ [u8 v]) /\ same_input s s'.
Proof.
  intros Eo Op. unfold emit. rewrite Eo, put_mid by done. cbn [mbind option_bind]. eexists. split; [done|]. destruct s; cbn in *. unfold constant; cbn. rewrite zlen_snoc, <- app_assoc. split_and!; try done. lia.
Qed.

Lemma emit_ref off n c tl s : 0 <= off < 2 ^ 13 -> 1 <= n <= 262 -> out s = c ++ tl -> op s = zlen c -> 4 <= zlen tl ->
  exists s' tl', (s ← (if n <? 7 then emit (Z.shiftr off 8 + Z.shiftl n 5) s else s ← emit (Z.shiftr off 8 + Z.shiftl 7 5) s; emit (n - 7) s); emit off s) = Some s' /\
    out s' = (c ++ token_bytes (Ref off n)) ++ tl' /\ op s' = zlen (c ++ token_bytes (Ref off n)) /\ zlen (out s') = zlen (out s) /\ same_input s s'.
Proof.
  intros Ho Hn Eo Op L. assert (0 <= off / 256 < 32) as Hq by (split; [apply Z.div_pos; lia|apply Z.div_lt_upper_bound; lia]). rewrite Z.shiftr_div_pow2 by lia. change (2 ^ 8) with 256.
  destruct tl as [|x1 [|x2 [|x3 tl]]]; rewrite ?zlen_cons, ?zlen_nil in L; try lia. rewrite Z.shiftl_mul_pow2 by lia. change (2 ^ 5) with 32. change (Z.shiftl 7 5) with 224. cbn [token_bytes].
  destruct (Z.ltb_spec n 7).
  - destruct (emit_spec (off / 256 + n * 32) c x1 (x2 :: x3 :: tl) s Eo Op) as (s1 & -> & E1 & O1 & (I1 & I2 & I3 & I4)). cbn [mbind option_bind].
    destruct (emit_spec off _ x2 (x3 :: tl) s1 E1 O1) as (s2 & -> & E2 & O2 & (J1 & J2 & J3 & J4)). rewrite (u8_id (off / 256 + n * 32)) in E2, O2 by lia. change (u8 off) with (off mod 256) in *. rewrite <- (app_assoc c) in E2, O2. cbn [app] in E2, O2.
    replace (32 * n) with (n * 32) by lia. exists s2, (x3 :: tl). split_and!; [done|done|done| |]; [rewrite E2, Eo, !zlen_app, !zlen_cons; change (zlen (@nil Z)) with 0; lia|]. unfold same_input. split_and!; congruence.
  - destruct (emit_spec (off / 256 + 224) c x1 (x2 :: x3 :: tl) s Eo Op) as (s1 & -> & E1 & O1 & (I1 & I2 & I3 & I4)). cbn [mbind option_bind].
    destruct (emit_spec (n - 7) _ x2 (x3 :: tl) s1 E1 O1) as (s2 & -> & E2 & O2 & (J1 & J2 & J3 & J4)). cbn [mbind option_bind].
    destruct (emit_spec off _ x3 tl s2 E2 O2) as (s3 & -> & E3 & O3 & (K1 & K2 & K3 & K4)). rewrite (u8_id (off / 256 + 224)), (u8_id (n - 7)) in E3, O3 by lia. change (u8 off) with (off mod 256) in *. rewrite <- !(app_assoc c) in E3, O3. cbn [app] in E3, O3.
    exists s3, tl. split_and!; [done|done|done| |]; [rewrite E3, Eo, !zlen_app, !zlen_cons; change (zlen (@nil Z)) with 0; lia|]. unfold same_input. split_and!; congruence.
Qed.

Lemma hash_next_spec s : 0 <= ip s -> ip s + 3 <= in_len -> (forall j, is_u64 (htab s j)) ->
  exists s', hash_next in_data base s = Some s' /\ ip s' = ip s + 1 /\ out s' = out s /\ op s' = op s /\ lit s' = lit s /\ (forall j, is_u64 (htab s' j)).
Proof.
  intros P L Ht. unfold hash_next, NEXT. destruct (byte_at_some in_data (ip s + 2)) as [b ->]; [lia|]. cbn [mbind option_bind]. eexists. split; [done|]. destruct s; cbn in *. unfold constant; cbn.
  split_and!; try done. intros j. unfold set_slot. destruct (j =? _); [|done]. change MAX_OFF with (2 ^ 13) in base_low. unfold is_u64. lia.
Qed.

(** What a round gives. *)
Definition round_ok (s : lzf) (r : option control) : Prop :=
  exists ctl, r = Some ctl /\
    match ctl with
    | Return m => zlen m = zlen (out s)
    | Continue s' | Break s' => zlen (out s') = zlen (out s) /\ ip s < ip s' /\ (exists c o l, compressing c o l s') /\
        match ctl with Break _ => in_len - 2 <= ip s' | _ => True end
    end.

Lemma add_match_spec c o l off r s : compressing c o l s -> ip s + 3 <= in_len -> r = ip s - off - 1 -> 0 <= r -> 0 <= off < 2 ^ 13 -> agree in_data r (ip s) 3 ->
  round_ok s (add_match in_data base off r s).
Proof.
  intros C L Er Hr Ho A. unfold add_match. set (maxlen := if _ >? MAX_REF then _ else _).
  assert (maxlen = Z.min (in_len - ip s - 2) MAX_REF) as Em by (unfold maxlen; rewrite Z.gtb_ltb; destruct (Z.ltb_spec MAX_REF (in_len - ip s - 2)); lia). clearbody maxlen.
  destruct (_ && _) eqn:G; [by eexists|]. rewrite !Z.geb_leb in G. assert (op s - (if lit s =? 0 then 1 else 0) + 4 < zlen (out s)) as G'.
  { apply andb_false_iff in G as [G|G]; apply Z.leb_gt in G; destruct (lit s =? 0); lia. }
  pose proof (cp_ip _ _ _ _ C) as Ip. pose proof (cp_htab _ _ _ _ C) as Ht.
  destruct (stop_run_spec c o l s C) as (c' & tl & s1 & -> & D & Eo & Op & Lo & Op' & I1 & I2 & I3); [destruct (lit s =? 0); lia|]. cbn [mbind option_bind]. rewrite I1.
  destruct (match_length_spec r (ip s) maxlen ltac:(lia) L A Em) as (len & -> & Bl & Al). cbn [mbind option_bind]. change MAX_REF with 264 in *.
  set (s2 := s1 <| ip := _ |>). assert (out s2 = c' ++ tl /\ op s2 = zlen c' /\ ip s2 = ip s + 1 /\ htab s2 = htab s) as (E2 & O2 & P2 & H2) by (unfold s2; destruct s1; cbn in *; unfold constant; cbn; done).
  assert (zlen (out s2) = zlen (out s)) as L2 by (by rewrite E2, <- Lo, Eo). clearbody s2. rewrite Eo in Lo. rewrite zlen_app in Lo.
  destruct (emit_ref off (len - 2) c' tl s2 Ho ltac:(lia) E2 O2 ltac:(lia)) as (s3 & tl' & Em3 & E3 & O3 & L3 & (J1 & J2 & J3 & J4)).
  set (c3 := c' ++ token_bytes (Ref off (len - 2))) in *. assert (decodes c3 (take (Z.to_nat (ip s + len)) in_data)) as D3.
  { replace (take (Z.to_nat (ip s + len)) in_data) with (apply_token (take (Z.to_nat (ip s)) in_data) (Ref off (len - 2))); [apply decodes_token; [done|]; cbn; rewrite zlen_take; lia|].
    cbn [apply_token]. rewrite extend_agree; [f_equal; lia|lia|lia|]. subst r. replace (Z.of_nat (Z.to_nat (len - 2 + 2))) with len by lia. done. }
  match goal with |- round_ok _ (_ ≫= ?g) => set (k := g) end. destruct (if len - 2 <? 7 then _ else _) as [s2'|]; [|done]. cbn [mbind option_bind] in Em3 |- *. unfold k. rewrite Em3. cbn [mbind option_bind]. clear k Em3 s2'.
  set (s4 := (start_run s3) <| ip := ip (start_run s3) + (len - 2) + 1 |>). assert (out s4 = c3 ++ tl' /\ op s4 = zlen c3 + 1 /\ ip s4 = ip s + len /\ htab s4 = htab s /\ lit s4 = 0) as (E4 & O4 & P4 & H4 & Li4).
  { unfold s4, start_run. destruct s3; cbn in *. unfold constant; cbn. split_and!; try done; try lia. congruence. }
  assert (zlen (out s4) = zlen (out s)) as L4 by congruence. clearbody s4. change (zlen (@nil Z)) with 0 in *.
  assert (forall s', out s' = out s4 -> op s' = op s4 -> ip s' = ip s4 -> lit s' = lit s4 -> (forall j, is_u64 (htab s' j)) -> compressing c3 (take (Z.to_nat (ip s + len)) in_data) [] s') as Cs.
  { intros s' X1 X2 X3 X4 X5. split; [done|exists tl'; rewrite X1; by split; [|left]|rewrite X2, O4; change (zlen (@nil Z)) with 0; lia|rewrite X4, Li4; change (zlen (@nil Z)) with 0; lia|rewrite app_nil_r, X3, P4; done|rewrite X3, P4; lia|done]. }
  rewrite Z.geb_leb. destruct (Z.leb_spec (in_len - 2) (ip s4)).
  { eexists. split; [done|]. split_and!; [done|lia| |done]. eexists _, _, _. apply Cs; try done. intros j. by rewrite H4. }
  set (s5 := s4 <| ip := _ |>). assert (ip s5 = ip s4 - 2) as P5 by (by destruct s4). unfold FRST. destruct (byte_at_some in_data (ip s5)) as [b0 ->]; [lia|]. cbn [mbind option_bind].
  destruct (byte_at_some in_data (ip s5 + 1)) as [b1 ->]; [lia|]. cbn [mbind option_bind]. set (s6 := s5 <| hval := _ |>).
  assert (ip s6 = ip s4 - 2 /\ out s6 = out s4 /\ op s6 = op s4 /\ lit s6 = lit s4 /\ htab s6 = htab s) as (P6 & E6 & O6 & Li6 & H6) by (unfold s6, s5; destruct s4; cbn in *; unfold constant; cbn; by rewrite H4).
  clearbody s6. destruct (hash_next_spec s6) as (s7 & -> & P7 & E7 & O7 & Li7 & H7); [lia|lia|intros j; by rewrite H6|]. cbn [mbind option_bind].
  destruct (hash_next_spec s7) as (s8 & -> & P8 & E8 & O8 & Li8 & H8); [lia|lia|done|]. cbn [mbind option_bind]. eexists. split; [done|]. split_and!; [congruence|lia| |done].
  eexists _, _, _. apply Cs; try congruence; [lia|done].
Qed.

Lemma add_literal_spec c o l s : compressing c o l s -> ip s < in_len -> round_ok s (add_literal in_data s).
Proof.
  intros C L. unfold add_literal. rewrite Z.geb_leb. destruct (Z.leb_spec (zlen (out s)) (op s)); [by eexists|].
  destruct (copy_literal_spec c o l s C) as (c' & o' & l' & s' & -> & C' & P' & L' & _); [done|done|]. cbn [mbind option_bind]. eexists. split; [done|]. split_and!; [done|lia|eauto|done].
Qed.

Lemma round_spec c o l s : compressing c o l s -> ip s < in_len - 2 -> round_ok s (round in_data base s).
Proof.
  intros C L. unfold round, NEXT. pose proof (cp_ip _ _ _ _ C) as Ip. destruct (byte_at_some in_data (ip s + 2)) as [b ->]; [lia|]. cbn [mbind option_bind]. set (h := u32 _).
  set (s1 := s <| hval := _ |> <| htab := _ |>). assert (ip s1 = ip s /\ out s1 = out s) as [P1 E1] by (by destruct s).
  assert (compressing c o l s1) as C1.
  { destruct C as [D Ou Op Li In Ip' Ht]. destruct s; cbn in *. split; try done. cbn. unfold constant; cbn. intros j. unfold set_slot. destruct (j =? _); [|done]. change MAX_OFF with (2 ^ 13) in base_low. unfold is_u64. lia. }
  clearbody s1. assert (forall r, round_ok s1 r -> round_ok s r) as Same by (intros r Hr; unfold round_ok; by rewrite <- E1, <- P1).
  destruct (find_match_spec (htab s (IDX h)) (ip s1)) as (m & -> & Hm); [apply C|lia|lia|]. cbn [mbind option_bind]. apply Same. destruct m as [[off r]|]; [|eapply add_literal_spec; [done|lia]].
  destruct (Hm off r eq_refl) as (Er & Hr & Ho & A). eapply add_match_spec; try done. lia.
Qed.

Lemma rounds_spec : forall n c o l s, compressing c o l s -> in_len - ip s <= Z.of_nat n ->
  exists ctl, rounds in_data base n s = Some ctl /\
    match ctl with
    | Return m => zlen m = zlen (out s)
    | Break s' => zlen (out s') = zlen (out s) /\ in_len - 2 <= ip s' /\ exists c o l, compressing c o l s'
    | Continue _ => False
    end.
Proof.
  induction n as [|n IH]; intros c o l s C L; cbn [rounds]; (destruct (Z.ltb_spec (ip s) (in_len - 2)); [|eexists; split; [done|]; split_and!; [done|lia|eauto]]); [pose proof (cp_ip _ _ _ _ C); lia|].
  destruct (round_spec c o l s C) as (ctl & -> & Hc); [done|]. cbn [mbind option_bind]. destruct ctl as [s'|s'|m].
  - destruct Hc as (L' & P' & (c' & o' & l' & C') & _). destruct (IH c' o' l' s' C') as (ctl & -> & Hc); [lia|]. eexists. split; [done|]. by destruct ctl; rewrite <- ?L'.
  - destruct Hc as (L' & P' & C' & E'). eexists. split; [done|]. by split_and!.
  - by eexists.
Qed.

(** The two bytes that may be left fit in the three that are. *)
Lemma last_bytes_spec c o l s : compressing c o l s -> in_len - 2 <= ip s -> op s + 3 <= zlen (out s) ->
  exists c' o' l' s', last_bytes in_data 3 s = Some s' /\ compressing c' o' l' s' /\ ip s' = in_len /\ op s' <= zlen (out s') /\ zlen (out s') = zlen (out s).
Proof.
  intros C P L. cbn [last_bytes]. pose proof (cp_ip _ _ _ _ C) as Ip. destruct (Z.ltb_spec (ip s) in_len); [|eexists c, o, l, s; split_and!; [done|done|lia|lia|done]].
  destruct (copy_literal_spec c o l s C) as (c1 & o1 & l1 & s1 & -> & C1 & P1 & L1 & O1 & Q1); [lia|done|]. cbn [mbind option_bind]. pose proof (cp_ip _ _ _ _ C1).
  destruct (Z.ltb_spec (ip s1) in_len); [|exists c1, o1, l1, s1; split_and!; [done|done|lia|lia|done]].
  destruct (copy_literal_spec c1 o1 l1 s1 C1) as (c2 & o2 & l2 & s2 & -> & C2 & P2 & L2 & O2 & Q2); [lia|done|]. cbn [mbind option_bind].
  destruct (Z.ltb_spec (ip s2) in_len); [lia|]. exists c2, o2, l2, s2. split_and!; [done|done| |lia|lia]. pose proof (cp_ip _ _ _ _ C2). lia.
Qed.

Lemma compress_spec garbage out_data : 2 <= in_len -> (forall j, is_u64 (garbage j)) ->
  exists n m, lzf_compress in_data base garbage out_data = Some (n, m) /\ zlen m = zlen out_data /\ 0 <= n <= zlen m /\ (n <> 0 -> decodes (take (Z.to_nat n) m) in_data).
Proof.
  intros L Hg. unfold lzf_compress. pose proof (zlen_nonneg out_data). destruct (Z.eqb_spec in_len 0); [lia|]. cbn [orb]. destruct (Z.eqb_spec (zlen out_data) 0); [by exists 0, out_data|].
  unfold FRST. destruct (byte_at_some in_data 0) as [b0 ->]; [lia|]. destruct (byte_at_some in_data (0 + 1)) as [b1 ->]; [lia|]. cbn [mbind option_bind]. set (s0 := {| ip := 0 |}).
  assert (compressing [] [] [] s0) as C0 by (split; cbn; try done; [constructor|exists out_data; by split; [|left]|lia]).
  destruct (rounds_spec (length in_data) [] [] [] s0 C0) as (ctl & -> & Hc); [unfold zlen; cbn; lia|]. cbn [mbind option_bind]. destruct ctl as [s|s|m]; [done| |].
  - destruct Hc as (L1 & P1 & c & o & l & C1). cbn in L1. rewrite Z.gtb_ltb. destruct (Z.ltb_spec (zlen (out s)) (op s + 3)); [exists 0, (out s); split_and!; [done|done|lia|lia|done]|].
    destruct (last_bytes_spec c o l s C1 P1) as (c2 & o2 & l2 & s2 & -> & C2 & P2 & L2 & E2); [lia|]. cbn [mbind option_bind].
    destruct (stop_run_spec c2 o2 l2 s2 C2 L2) as (c3 & tl & s3 & -> & D3 & Eo & Op & Lo & _). cbn [mbind option_bind]. exists (op s3), (out s3). rewrite Op, Eo, zlen_app in *.
    pose proof (zlen_nonneg c3). pose proof (zlen_nonneg tl). split_and!; [done|lia|lia|lia|]. intros _. unfold zlen at 1. rewrite Nat2Z.id, take_app_length. rewrite P2 in D3. unfold zlen in D3.
    by rewrite Nat2Z.id, take_ge in D3.
  - exists 0, m. cbn in Hc. split_and!; [done|done|lia|lia|done].
Qed.
End CompressProofs.

(** C21: compressing any input of at least two bytes ends without leaving the two
    blocks, whatever pointers the uninitialised hash table holds; when it
    reports a length, decompressing that many bytes of the output into a block
    that is large enough gives the input back. *)
Theorem lzf_roundtrip in_data base garbage out_data : Forall is_u8 in_data -> 2 <= zlen in_data -> MAX_OFF <= base -> base + zlen in_data <= 2 ^ 64 -> (forall j, is_u64 (garbage j)) ->
  exists n m, lzf_compress in_data base garbage out_data = Some (n, m) /\ zlen m = zlen out_data /\ 0 <= n <= zlen m /\
    (n <> 0 -> forall buf, zlen in_data <= zlen buf ->
      lzf_decompress (take (Z.to_nat n) m) buf = Some (zlen in_data, in_data ++ drop (Z.to_nat (zlen in_data)) buf)).
Proof.
  intros B L Lo Hi Hg. destruct (compress_spec in_data base B Lo Hi garbage out_data L Hg) as (n & m & E & Lm & Hn & D). exists n, m. split_and!; try done; try lia.
  intros Nz buf Lb. by apply decompress_decodes; [apply D|].
Qed.

(** ** Witnesses *)

Definition sample_text : list Z := bs "abcabcabcabcabcabcabcabcabcabcabcabcabcabcxyzxyzxyzxyz  hello"%string.

Lemma lzf_roundtrip_witness : exists m, lzf_compress sample_text 65536 (fun i => 65536 + i mod 64) (replicate 60 0) = Some (23, m) /\
  lzf_decompress (take 23 m) (replicate 61 0) = Some (61, sample_text).
Proof.
  destruct (lzf_roundtrip sample_text 65536 (fun i => 65536 + i mod 64) (replicate 60 0)) as (n & m & E & _ & _ & D).
  - eapply bool_decide_unpack. vm_compute. exact I.
  - vm_compute. discriminate.
  - vm_compute. discriminate.
  - vm_compute. discriminate.
  - intros j. pose proof (Z.mod_pos_bound j 64). unfold is_u64. lia.
  - exists m. assert (n = 23) as -> by (vm_compute in E; congruence). split; [exact E|]. exact (D ltac:(discriminate) (replicate 61 0) ltac:(vm_compute; discriminate)).
Defined.

Lemma lzf_decompress_safe_witness : exists n m, lzf_decompress [3; 97; 98; 99; 97; 224; 29; 9] (replicate 40 0) = Some (n, m) /\ 0 <= n <= 40.
Proof.
  destruct (lzf_decompress_safe [3; 97; 98; 99; 97; 224; 29; 9] (replicate 40 0)) as (n & m & E & _ & L); [eapply bool_decide_unpack; vm_compute; exact I|]. exists n, m. split; [exact E|exact L].
Defined.
