(* ===== verification/Rdb.v ===== *)
(** The strings of a snapshot (src/src/rdb.c) on a stream (src/src/rio.h): lengths,
    integers in 8, 16 and 32 bits, LZF blobs and plain strings, and that what was
    saved is loaded again. *)

From stdpp Require Import base list numbers.
From coqutil Require Import Datatypes.RecordSetters.
From S2P Require Import Prelude Numbers Memory Lzf.
Import TriangleBracketNotations.

Local Open Scope Z_scope.

(** ** Streams *)

Definition RIO_FLAG_READ_ERROR : Z := 1.
Definition RIO_FLAG_WRITE_ERROR : Z := 2.

(** A stream over a buffer; [processed_bytes] wraps like its type. *)
Record rio : Type := { rio_buf : list Z; rio_pos : Z; rio_cksum : Z; rio_flags : Z; processed_bytes : Z; max_processing_chunk : Z }.

(** The checksum function of a stream, if there is one. *)
Definition cksum_fn : Type := option (Z -> list Z -> Z).

Definition sum_of (update : cksum_fn) (c : Z) (b : list Z) : Z := match update with Some f => f c b | None => c end.

Section Rio.
(** Whether the target takes a block after what was written, and the checksum
    functions of a stream that is written and of one that is read. *)
Variable write_ok : list Z -> list Z -> bool.
Variables update_cksum load_cksum : cksum_fn.

Definition has_flag (r : rio) (f : Z) : bool := negb (Z.land (rio_flags r) f =? 0).

Definition sum_block (update : cksum_fn) (r : rio) (b : list Z) : rio := r<| rio_cksum := sum_of update (rio_cksum r) b |>.

Definition chunk_of (r : rio) (len : Z) : Z :=
  if negb (max_processing_chunk r =? 0) && (max_processing_chunk r <? len) then max_processing_chunk r else len.

Fixpoint write_loop (n : nat) (r : rio) (buf : list Z) : option (bool * rio) :=
  if zlen buf =? 0 then Some (true, r)
  else match n with
  | O => None
  | S n =>
      let k := chunk_of r (zlen buf) in
      let b := take (Z.to_nat k) buf in
      let r := sum_block update_cksum r b in
      if write_ok (rio_buf r) b then
        write_loop n (r<| rio_buf := rio_buf r ++ b |><| rio_pos := rio_pos r + k |><| processed_bytes := u64 (processed_bytes r + k) |>) (drop (Z.to_nat k) buf)
      else Some (false, r<| rio_flags := Z.lor (rio_flags r) RIO_FLAG_WRITE_ERROR |>)
  end.

Definition rioWrite (r : rio) (buf : list Z) : option (bool * rio) :=
  if has_flag r RIO_FLAG_WRITE_ERROR then Some (false, r) else write_loop (length buf) r buf.

(** [rioBufferRead] *)
Definition rioBufferRead (r : rio) (len : Z) : option (list Z * rio) :=
  if zlen (rio_buf r) - rio_pos r <? len then None
  else Some (take (Z.to_nat len) (drop (Z.to_nat (rio_pos r)) (rio_buf r)), r<| rio_pos := rio_pos r + len |>).

(** The bytes read; [inl] is a return of 0. *)
Fixpoint read_loop (n : nat) (r : rio) (len : Z) (acc : list Z) : option ((rio + list Z * rio)) :=
  if len =? 0 then Some (inr (acc, r))
  else match n with
  | O => None
  | S n =>
      let k := chunk_of r len in
      match rioBufferRead r k with
      | None => Some (inl (r<| rio_flags := Z.lor (rio_flags r) RIO_FLAG_READ_ERROR |>))
      | Some (b, r) => read_loop n ((sum_block load_cksum r b)<| processed_bytes := u64 (processed_bytes r + k) |>) (len - k) (acc ++ b)
      end
  end.

Definition rioRead (r : rio) (len : Z) : option (rio + list Z * rio) :=
  if has_flag r RIO_FLAG_READ_ERROR then Some (inl r) else read_loop (Z.to_nat len) r len [].

(** ** Saving *)

Definition RDB_6BITLEN : Z := 0.
Definition RDB_14BITLEN : Z := 1.
Definition RDB_32BITLEN : Z := 128.
Definition RDB_64BITLEN : Z := 129.
Definition RDB_ENCVAL : Z := 3.
Definition RDB_LENERR : Z := 2 ^ 64 - 1.
Definition RDB_ENC_INT8 : Z := 0.
Definition RDB_ENC_INT16 : Z := 1.
Definition RDB_ENC_INT32 : Z := 2.
Definition RDB_ENC_LZF : Z := 3.

(** The stream may be NULL; the result is the number of bytes, or -1. *)
Definition rdbWriteRaw (rdb : option rio) (p : list Z) : option (Z * option rio) :=
  match rdb with
  | None => Some (zlen p, None)
  | Some r => '(ok, r) ← rioWrite r p; Some (if (ok : bool) then zlen p else -1, Some r)
  end.

(** [if ((n = f(rdb)) == -1) return -1; nwritten += n;] and on. *)
Definition then_write (f g : option rio -> option (Z * option rio)) (rdb : option rio) : option (Z * option rio) :=
  '(n, rdb) ← f rdb;
  if n =? -1 then Some (-1, rdb) else '(k, rdb) ← g rdb; if k =? -1 then Some (-1, rdb) else Some (n + k, rdb).

Definition rdbSaveType (rdb : option rio) (type : Z) : option (Z * option rio) := rdbWriteRaw rdb [u8 type].

(** [htonl] and [htonu64] on a little-endian host: the bytes in memory. *)
Definition be_bytes (n : nat) (v : Z) : list Z := rev (le_bytes n v).
Definition be_val (l : list Z) : Z := le_val (rev l).

Definition rdbSaveLen (len : Z) : option rio -> option (Z * option rio) :=
  if len <? Z.shiftl 1 6 then fun rdb => rdbWriteRaw rdb [Z.lor (Z.land len 255) (Z.shiftl RDB_6BITLEN 6)]
  else if len <? Z.shiftl 1 14 then fun rdb => rdbWriteRaw rdb [Z.lor (Z.land (Z.shiftr len 8) 255) (Z.shiftl RDB_14BITLEN 6); Z.land len 255]
  else if len <=? 2 ^ 32 - 1 then then_write (fun rdb => rdbWriteRaw rdb [RDB_32BITLEN]) (fun rdb => rdbWriteRaw rdb (be_bytes 4 len))
  else then_write (fun rdb => rdbWriteRaw rdb [RDB_64BITLEN]) (fun rdb => rdbWriteRaw rdb (be_bytes 8 len)).

(** The bytes of the encoding, none for a return of 0. *)
Definition rdbEncodeInteger (value : Z) : list Z :=
  if (value >=? - Z.shiftl 1 7) && (value <=? Z.shiftl 1 7 - 1) then [Z.lor (Z.shiftl RDB_ENCVAL 6) RDB_ENC_INT8; Z.land value 255]
  else if (value >=? - Z.shiftl 1 15) && (value <=? Z.shiftl 1 15 - 1) then
    [Z.lor (Z.shiftl RDB_ENCVAL 6) RDB_ENC_INT16; Z.land value 255; Z.land (Z.shiftr value 8) 255]
  else if (value >=? - Z.shiftl 1 31) && (value <=? Z.shiftl 1 31 - 1) then
    [Z.lor (Z.shiftl RDB_ENCVAL 6) RDB_ENC_INT32; Z.land value 255; Z.land (Z.shiftr value 8) 255; Z.land (Z.shiftr value 16) 255; Z.land (Z.shiftr value 24) 255]
  else [].

Definition rdbTryIntegerEncoding (s : list Z) : list Z :=
  match string2ll s with Some value => rdbEncodeInteger value | None => [] end.

Definition rdbSaveLzfBlob (data : list Z) (original_len : Z) : option rio -> option (Z * option rio) :=
  then_write (fun rdb => rdbWriteRaw rdb [Z.lor (Z.shiftl RDB_ENCVAL 6) RDB_ENC_LZF])
    (then_write (rdbSaveLen (zlen data)) (then_write (rdbSaveLen original_len) (fun rdb => rdbWriteRaw rdb data))).

(** What the compressor meets: the address of the string, the garbage in its hash
    table and in a fresh block. *)
Variables (addr : Z) (garbage : Z -> Z) (fresh : nat -> Z).

Definition block (n : Z) : list Z := map fresh (seq 0 (Z.to_nat n)).

Definition rdbSaveLzfStringObject (s : list Z) (rdb : option rio) : option (Z * option rio) :=
  let len := zlen s in
  if len <=? 4 then Some (0, rdb)
  else
    let outlen := len - 4 in
    '(comprlen, out) ← lzf_compress s addr garbage (block outlen);
    if comprlen =? 0 then Some (0, rdb) else rdbSaveLzfBlob (take (Z.to_nat comprlen) out) len rdb.

Definition rdbSaveRawString (rdb_compression : bool) (s : list Z) (rdb : option rio) : option (Z * option rio) :=
  let len := zlen s in
  let enc := if len <=? 11 then rdbTryIntegerEncoding s else [] in
  if zlen enc >? 0 then '(n, rdb) ← rdbWriteRaw rdb enc; Some (if n =? -1 then -1 else zlen enc, rdb)
  else
    '(n, rdb) ← (if rdb_compression && (len >? 20) then rdbSaveLzfStringObject s rdb else Some (0, rdb));
    if n =? -1 then Some (-1, rdb)
    else if n >? 0 then Some (n, rdb)
    else
      '(n, rdb) ← rdbSaveLen len rdb;
      if n =? -1 then Some (-1, rdb)
      else if len >? 0 then '(k, rdb) ← rdbWriteRaw rdb s; if k =? -1 then Some (-1, rdb) else Some (n + len, rdb)
      else Some (n, rdb).

Definition rdbSaveLongLongAsStringObject (value : Z) (rdb : option rio) : option (Z * option rio) :=
  let enc := rdbEncodeInteger value in
  if zlen enc >? 0 then rdbWriteRaw rdb enc
  else
    let '(enclen, buf) := ll2string (repeat 0 32) value in
    if enclen >=? 32 then None
    else then_write (rdbSaveLen enclen) (fun rdb => rdbWriteRaw rdb (take (Z.to_nat enclen) buf)) rdb.

(** A string object: its text, or an integer. *)
Inductive string_object : Type := Raw (s : list Z) | Int (v : Z).

Definition rdbSaveStringObject (rdb_compression : bool) (o : string_object) (rdb : option rio) : option (Z * option rio) :=
  match o with
  | Int v => rdbSaveLongLongAsStringObject v rdb
  | Raw s => rdbSaveRawString rdb_compression s rdb
  end.

(** ** Loading *)

(** A result; [inl] is the error return with what it leaves of the stream. *)
Notation load A := (option (rio + A * rio)).

Definition load_bind {A B} (m : load A) (f : A -> rio -> load B) : load B :=
  match m with None => None | Some (inl r) => Some (inl r) | Some (inr (a, r)) => f a r end.

Definition read (n : Z) (r : rio) : load (list Z) := rioRead r n.

(** Whether the length describes an encoding, and the length. *)
Definition rdbLoadLenByRef (r : rio) : load (bool * Z) :=
  load_bind (read 1 r) (fun buf r =>
    b0 ← buf !! O;
    let type := Z.shiftr (Z.land b0 192) 6 in
    if type =? RDB_ENCVAL then Some (inr ((true, Z.land b0 63), r))
    else if type =? RDB_6BITLEN then Some (inr ((false, Z.land b0 63), r))
    else if type =? RDB_14BITLEN then
      load_bind (read 1 r) (fun buf r => b1 ← buf !! O; Some (inr ((false, Z.lor (Z.shiftl (Z.land b0 63) 8) b1), r)))
    else if b0 =? RDB_32BITLEN then load_bind (read 4 r) (fun buf r => Some (inr ((false, be_val buf), r)))
    else if b0 =? RDB_64BITLEN then load_bind (read 8 r) (fun buf r => Some (inr ((false, be_val buf), r)))
    else Some (inl r)).

(** [RDB_LENERR] is the error. *)
Definition rdbLoadLen (r : rio) : load (bool * Z) :=
  load_bind (rdbLoadLenByRef r) (fun '(isencoded, len) r => if len =? RDB_LENERR then Some (inl r) else Some (inr ((isencoded, len), r))).

(** The text of the integer, or the integer where an object may be encoded as one. *)
Definition rdbLoadIntegerObject (enctype : Z) (encode : bool) (r : rio) : load string_object :=
  let object (val : Z) (r : rio) : load string_object :=
    Some (inr ((if encode then Int val else Raw (ll_text (Z.to_nat LONG_STR_SIZE) val)), r)) in
  if enctype =? RDB_ENC_INT8 then load_bind (read 1 r) (fun enc r => e0 ← enc !! 0%nat; object (swrap 8 e0) r)
  else if enctype =? RDB_ENC_INT16 then
    load_bind (read 2 r) (fun enc r => e0 ← enc !! 0%nat; e1 ← enc !! 1%nat; object (i16 (u16 (Z.lor e0 (Z.shiftl e1 8)))) r)
  else if enctype =? RDB_ENC_INT32 then
    load_bind (read 4 r) (fun enc r =>
      e0 ← enc !! 0%nat; e1 ← enc !! 1%nat; e2 ← enc !! 2%nat; e3 ← enc !! 3%nat;
      object (i32 (u32 (Z.lor (Z.lor (Z.lor e0 (Z.shiftl e1 8)) (Z.shiftl e2 16)) (Z.shiftl e3 24)))) r)
  else Some (inl r).

(** Allocations that are allowed to fail. *)
Variable alloc_ok : Z -> bool.

Definition rdbLoadLzfStringObject (r : rio) : load string_object :=
  load_bind (rdbLoadLen r) (fun '(_, clen) r =>
  load_bind (rdbLoadLen r) (fun '(_, len) r =>
    if negb (alloc_ok clen) then Some (inl r)
    else if negb (alloc_ok len) then Some (inl r)
    else load_bind (read clen r) (fun c r =>
      '(n, val) ← lzf_decompress c (block len);
      if negb (n =? len) then Some (inl r) else Some (inr (Raw val, r))))).

Definition rdbGenericLoadStringObjectUsable (encode : bool) (r : rio) : load string_object :=
  load_bind (rdbLoadLen r) (fun '(isencoded, len) r =>
    if (isencoded : bool) then
      if (len =? RDB_ENC_INT8) || (len =? RDB_ENC_INT16) || (len =? RDB_ENC_INT32) then rdbLoadIntegerObject len encode r
      else if len =? RDB_ENC_LZF then rdbLoadLzfStringObject r
      else Some (inl r)
    else if negb (alloc_ok len) then Some (inl r)
    else load_bind (if negb (len =? 0) then read len r else Some (inr ([], r))) (fun buf r => Some (inr (Raw buf, r)))).

(** ** Writing *)

Definition rio_ok (r : rio) : Prop := 0 <= max_processing_chunk r.

(** Bytes in memory. *)
Definition sane (b : list Z) : Prop := Forall is_u8 b /\ zlen b < 2 ^ 64.

(** A checksum that can be computed in pieces. *)
Definition lawful (update : cksum_fn) : Prop :=
  (forall c b, is_u64 c -> sane b -> is_u64 (sum_of update c b)) /\ (forall c, is_u64 c -> sum_of update c [] = c) /\
  forall c a b, is_u64 c -> sane (a ++ b) -> sum_of update (sum_of update c a) b = sum_of update c (a ++ b).

(** The checksum went over [b]. *)
Definition summed (update : cksum_fn) (r r' : rio) (b : list Z) : Prop :=
  lawful update -> is_u64 (rio_cksum r) -> sane b -> rio_cksum r' = sum_of update (rio_cksum r) b.

Lemma sane_app a b : sane (a ++ b) -> sane a /\ sane b.
Proof. intros [B L]. apply Forall_app in B as [Ba Bb]. rewrite zlen_app in L. pose proof (zlen_nonneg a). pose proof (zlen_nonneg b). split; (split; [done|lia]). Qed.

Lemma summed_refl u r r' : rio_cksum r' = rio_cksum r -> summed u r r' [].
Proof. intros Er (_ & E & _) U _. by rewrite Er, E. Qed.

Lemma summed_trans u r1 r2 r3 a b : summed u r1 r2 a -> summed u r2 r3 b -> summed u r1 r3 (a ++ b).
Proof.
  intros S1 S2 Lw U B. destruct (sane_app a b B) as [Ba Bb]. pose proof (S1 Lw U Ba) as E1. pose proof Lw as (R & E & C). rewrite S2, E1, C; [done|done|done|done| |done]. rewrite E1. by apply R.
Qed.

(** [f] writes [enc] or reports the error; without a stream it gives the length. *)
Definition saves (f : option rio -> option (Z * option rio)) (enc : list Z) : Prop :=
  f None = Some (zlen enc, None) /\
  forall r, rio_ok r -> exists n r', f (Some r) = Some (n, Some r') /\ rio_ok r' /\
    ((n = zlen enc /\ rio_buf r' = rio_buf r ++ enc /\ summed update_cksum r r' enc) \/ (n = -1 /\ has_flag r' RIO_FLAG_WRITE_ERROR = true)) /\
    ((forall a b, write_ok a b = true) -> has_flag r RIO_FLAG_WRITE_ERROR = false -> n = zlen enc /\ has_flag r' RIO_FLAG_WRITE_ERROR = false).

Lemma lor_flag f m : m <> 0 -> negb (Z.land (Z.lor f m) m =? 0) = true.
Proof.
  intros N. assert (Z.land (Z.lor f m) m = m) as -> by (apply Z.bits_inj'; intros i Hi; rewrite Z.land_spec, Z.lor_spec; by destruct (Z.testbit f i), (Z.testbit m i)). by apply negb_true_iff, Z.eqb_neq.
Qed.

Lemma sum_block_same u r b : let r' := sum_block u r b in
  rio_buf r' = rio_buf r /\ rio_pos r' = rio_pos r /\ rio_flags r' = rio_flags r /\ max_processing_chunk r' = max_processing_chunk r /\ processed_bytes r' = processed_bytes r /\ rio_cksum r' = sum_of u (rio_cksum r) b.
Proof. by destruct r. Qed.

Lemma chunk_bounds r len : rio_ok r -> 0 < len -> 0 < chunk_of r len <= len.
Proof. intros W L. unfold chunk_of, rio_ok in *. destruct (Z.eqb_spec (max_processing_chunk r) 0); cbn [negb andb]; [lia|]. destruct (Z.ltb_spec (max_processing_chunk r) len); lia. Qed.

Lemma write_loop_spec : forall n buf r, rio_ok r -> has_flag r RIO_FLAG_WRITE_ERROR = false -> zlen buf <= Z.of_nat n -> exists ok r', write_loop n r buf = Some (ok, r') /\ rio_ok r' /\
  (if ok : bool then rio_buf r' = rio_buf r ++ buf /\ has_flag r' RIO_FLAG_WRITE_ERROR = false /\ summed update_cksum r r' buf else has_flag r' RIO_FLAG_WRITE_ERROR = true) /\
  ((forall a b, write_ok a b = true) -> ok = true).
Proof.
  induction n as [|n IH]; intros buf r W F L; cbn [write_loop]; pose proof (zlen_nonneg buf); (destruct (Z.eqb_spec (zlen buf) 0) as [Z0|N0]; [|try lia]).
  1, 2: exists true, r; split_and!; try done; destruct buf; [by rewrite app_nil_r|rewrite zlen_cons in Z0; pose proof (zlen_nonneg buf); lia|by apply summed_refl|rewrite zlen_cons in Z0; pose proof (zlen_nonneg buf); lia].
  pose proof (chunk_bounds r (zlen buf) W ltac:(lia)) as K. set (k := chunk_of r (zlen buf)) in *. set (b := take (Z.to_nat k) buf). destruct (sum_block_same update_cksum r b) as (S1 & S2 & S3 & S4 & S5 & S6). set (r1 := sum_block update_cksum r b) in *. clearbody r1.
  destruct (write_ok (rio_buf r1) b) eqn:Ok.
  - set (r2 := r1 <| rio_buf := _ |> <| rio_pos := _ |> <| processed_bytes := _ |>).
    assert (rio_buf r2 = rio_buf r ++ b /\ rio_flags r2 = rio_flags r /\ max_processing_chunk r2 = max_processing_chunk r /\ summed update_cksum r r2 b) as (T1 & T2 & T3 & T4) by (unfold r2; destruct r1; cbn in *; unfold constant; cbn; split_and!; try done; [by rewrite S1|by intros _ _ _]).
    clearbody r2. destruct (IH (drop (Z.to_nat k) buf) r2) as (ok & r' & -> & W' & B' & A'); [unfold rio_ok in *; lia|unfold has_flag in *; by rewrite T2|rewrite zlen_drop; lia|].
    exists ok, r'. split_and!; try done. destruct ok; [|done]. destruct B' as (-> & B' & Su). split; [rewrite T1, <- app_assoc; unfold b; by rewrite take_drop|]. split; [done|]. rewrite <- (take_drop (Z.to_nat k) buf). by apply (summed_trans _ r r2).
  - exists false. eexists. split; [done|]. split_and!; [destruct r1; cbn in *; unfold rio_ok in *; cbn; lia|unfold has_flag; destruct r1; by apply lor_flag|intros A; by rewrite A in Ok].
Qed.

Lemma raw_saves p : saves (fun rdb => rdbWriteRaw rdb p) p.
Proof.
  split; [done|]. intros r W. cbn [rdbWriteRaw]. unfold rioWrite. destruct (has_flag r RIO_FLAG_WRITE_ERROR) eqn:F.
  - exists (-1), r. cbn [mbind option_bind]. split_and!; try done. by right.
  - destruct (write_loop_spec (length p) p r W F) as (ok & r' & -> & W' & B & A); [unfold zlen; lia|]. cbn [mbind option_bind]. exists (if ok then zlen p else -1), r'. split_and!; [done|done| |].
    + destruct ok; [left; by destruct B as (? & ? & ?)|by right].
    + intros Ok _. rewrite (A Ok) in *. by destruct B as (? & ? & ?).
Qed.

Lemma then_saves f g a b : saves f a -> saves g b -> saves (then_write f g) (a ++ b).
Proof.
  intros [F0 F] [G0 G]. pose proof (zlen_nonneg a). pose proof (zlen_nonneg b). unfold then_write. split.
  - rewrite F0. cbn [mbind option_bind]. destruct (Z.eqb_spec (zlen a) (-1)); [lia|]. rewrite G0. cbn [mbind option_bind]. destruct (Z.eqb_spec (zlen b) (-1)); [lia|]. by rewrite zlen_app.
  - intros r W. destruct (F r W) as (n & r1 & -> & W1 & [(-> & B1 & Su1)|[-> Fl]] & A1); cbn [mbind option_bind]; revgoals.
    { exists (-1), r1. split_and!; try done; [by right|]. intros Ok Fr. destruct (A1 Ok Fr). lia. }
    destruct (Z.eqb_spec (zlen a) (-1)); [lia|]. destruct (G r1 W1) as (k & r2 & -> & W2 & [(-> & B2 & Su2)|[-> Fl]] & A2); cbn [mbind option_bind]; revgoals.
    { exists (-1), r2. split_and!; try done; [by right|]. intros Ok Fr. destruct (A1 Ok Fr) as [_ Fr1]. destruct (A2 Ok Fr1). lia. }
    destruct (Z.eqb_spec (zlen b) (-1)); [lia|]. exists (zlen a + zlen b), r2. rewrite zlen_app. split_and!; try done; [left; split_and!; [done|by rewrite B2, B1, <- app_assoc|by apply (summed_trans _ r r1)]|].
    intros Ok Fr. destruct (A1 Ok Fr) as [_ Fr1]. destruct (A2 Ok Fr1) as [_ Fr2]. done.
Qed.

Lemma saves_ext f g enc : (forall r, f r = g r) -> saves f enc -> saves g enc.
Proof. intros E [S0 S]. split; [by rewrite <- E|]. intros r W. destruct (S r W) as (n & r' & Ef & Rest). exists n, r'. by rewrite <- E. Qed.

(** ** Reading *)

(** The stream has no error and [l] is left of it. *)
Record reading (r : rio) (l : list Z) : Prop := {
  rd_rest : drop (Z.to_nat (rio_pos r)) (rio_buf r) = l;
  rd_pos : 0 <= rio_pos r <= zlen (rio_buf r);
  rd_flag : has_flag r RIO_FLAG_READ_ERROR = false;
  rd_ok : rio_ok r
}.

Lemma buffer_read r l n : reading r l -> 0 <= n -> rioBufferRead r n = if zlen l <? n then None else Some (take (Z.to_nat n) l, r<| rio_pos := rio_pos r + n |>).
Proof. intros [R P _ _] Hn. unfold rioBufferRead. rewrite R. assert (zlen (rio_buf r) - rio_pos r = zlen l) as -> by (by rewrite <- R, zlen_drop). done. Qed.

Lemma reading_advance r l n r' : reading r l -> 0 <= n <= zlen l -> rio_buf r' = rio_buf r -> rio_pos r' = rio_pos r + n -> rio_flags r' = rio_flags r -> max_processing_chunk r' = max_processing_chunk r ->
  reading r' (drop (Z.to_nat n) l).
Proof.
  intros [R P F W] Hn B Po Fl Ch. assert (zlen l = zlen (rio_buf r) - rio_pos r) as L by (by rewrite <- R, zlen_drop). split; [|rewrite B; lia|unfold has_flag in *; by rewrite Fl|unfold rio_ok in *; lia].
  rewrite B, Po, <- R, drop_drop. f_equal. lia.
Qed.

Lemma read_loop_spec : forall n l r len acc, reading r l -> 0 <= len <= Z.of_nat n ->
  exists x, read_loop n r len acc = Some x /\
    if len <=? zlen l then exists r', x = inr (acc ++ take (Z.to_nat len) l, r') /\ reading r' (drop (Z.to_nat len) l) /\ summed load_cksum r r' (take (Z.to_nat len) l) else exists r', x = inl r' /\ has_flag r' RIO_FLAG_READ_ERROR = true.
Proof.
  induction n as [|n IH]; intros l r len acc R L; cbn [read_loop]; (destruct (Z.eqb_spec len 0) as [->|N0]; [|try lia]).
  1, 2: eexists; split; [done|]; destruct (Z.leb_spec 0 (zlen l)); [|pose proof (zlen_nonneg l); lia]; exists r; split; [cbn; by rewrite take_0, app_nil_r|split; [by rewrite drop_0|by apply summed_refl]].
  pose proof (chunk_bounds r len (rd_ok _ _ R) ltac:(lia)) as K. set (k := chunk_of r len) in *. rewrite (buffer_read r l k R) by lia. destruct (Z.ltb_spec (zlen l) k).
  { eexists. split; [done|]. destruct (Z.leb_spec len (zlen l)); [lia|]. eexists. split; [done|]. unfold has_flag. destruct r. by apply lor_flag. }
  set (b := take (Z.to_nat k) l). set (r1 := r <| rio_pos := _ |>). destruct (sum_block_same load_cksum r1 b) as (S1 & S2 & S3 & S4 & S5 & S6). set (r2 := (sum_block load_cksum r1 b) <| processed_bytes := _ |>).
  assert (summed load_cksum r r2 b) as Su by (by intros _ _ _; destruct r).
  assert (reading r2 (drop (Z.to_nat k) l)) as R2.
  { assert (rio_buf r2 = rio_buf (sum_block load_cksum r1 b) /\ rio_pos r2 = rio_pos (sum_block load_cksum r1 b) /\ rio_flags r2 = rio_flags (sum_block load_cksum r1 b) /\ max_processing_chunk r2 = max_processing_chunk (sum_block load_cksum r1 b)) as (T1 & T2 & T3 & T4) by (by destruct (sum_block load_cksum r1 b)).
    apply (reading_advance r l k); [done|lia|rewrite T1, S1|rewrite T2, S2|rewrite T3, S3|rewrite T4, S4]; by destruct r. }
  clearbody r2. destruct (IH (drop (Z.to_nat k) l) r2 (len - k) (acc ++ b) R2) as (x & -> & Hx); [lia|]. exists x. split; [done|]. rewrite zlen_drop in Hx by lia.
  destruct (Z.leb_spec (len - k) (zlen l - k)), (Z.leb_spec len (zlen l)); try lia; [|done]. destruct Hx as (r' & -> & R' & Su'). exists r'. split_and!.
  - rewrite <- app_assoc. unfold b. rewrite take_take_drop. by replace (Z.to_nat k + Z.to_nat (len - k))%nat with (Z.to_nat len) by lia.
  - rewrite drop_drop in R'. by replace (Z.to_nat k + Z.to_nat (len - k))%nat with (Z.to_nat len) in R' by lia.
  - replace (Z.to_nat len) with (Z.to_nat k + Z.to_nat (len - k))%nat by lia. rewrite <- take_take_drop. by apply (summed_trans _ r r2).
Qed.

(** [p] reads [enc] and gives [a]. *)
Definition loads {A} (p : rio -> load A) (enc : list Z) (a : A) : Prop :=
  forall r rest, reading r (enc ++ rest) -> exists r', p r = Some (inr (a, r')) /\ reading r' rest /\ summed load_cksum r r' enc.

(** [p] gives a value or an error on every stream of bytes, and leaves one. *)
Definition total {A} (p : rio -> load A) (Q : A -> Prop) : Prop :=
  forall r l, reading r l -> Forall is_u8 l -> exists x, p r = Some x /\
    match x with inl _ => True | inr (a, r') => Q a /\ exists enc l', l = enc ++ l' /\ reading r' l' /\ summed load_cksum r r' enc end.

Lemma read_loads enc n : n = zlen enc -> loads (read n) enc enc.
Proof.
  intros -> r rest R. unfold read, rioRead. rewrite (rd_flag _ _ R). pose proof (zlen_nonneg enc). destruct (read_loop_spec (Z.to_nat (zlen enc)) _ r (zlen enc) [] R) as (x & -> & Hx); [lia|].
  rewrite zlen_app in Hx. pose proof (zlen_nonneg rest). destruct (Z.leb_spec (zlen enc) (zlen enc + zlen rest)); [|lia]. destruct Hx as (r' & -> & R' & Su). unfold zlen in *. rewrite Nat2Z.id in *. rewrite take_app_length in *.
  rewrite drop_app_length in R'. by exists r'.
Qed.

Lemma read_total n : 0 <= n -> total (read n) (fun l => zlen l = n /\ Forall is_u8 l).
Proof.
  intros Hn r l R B. unfold read, rioRead. rewrite (rd_flag _ _ R). destruct (read_loop_spec (Z.to_nat n) l r n [] R) as (x & -> & Hx); [lia|]. eexists. split; [done|]. destruct (Z.leb_spec n (zlen l)).
  - destruct Hx as (r' & -> & R' & Su). cbn [app]. split; [split; [apply zlen_take; lia|by apply Forall_take]|]. exists (take (Z.to_nat n) l), (drop (Z.to_nat n) l). by rewrite take_drop.
  - by destruct Hx as (r' & -> & _).
Qed.

(** A read that fails leaves its mark. *)
Lemma read_fails n r l : 0 <= n -> reading r l -> exists x, read n r = Some x /\ match x with inl r' => has_flag r' RIO_FLAG_READ_ERROR = true | inr _ => True end.
Proof.
  intros Hn R. unfold read, rioRead. rewrite (rd_flag _ _ R). destruct (read_loop_spec (Z.to_nat n) l r n [] R) as (x & -> & Hx); [lia|]. exists x. split; [done|]. destruct (n <=? zlen l); [by destruct Hx as (r' & -> & _)|by destruct Hx as (r' & -> & ?)].
Qed.

Lemma read_short n r l : zlen l < n -> reading r l -> exists r', read n r = Some (inl r').
Proof.
  intros Hn R. pose proof (zlen_nonneg l). unfold read, rioRead. rewrite (rd_flag _ _ R). destruct (read_loop_spec (Z.to_nat n) l r n [] R) as (x & -> & Hx); [lia|]. destruct (Z.leb_spec n (zlen l)); [lia|]. destruct Hx as (r' & -> & _). by exists r'.
Qed.

Lemma bind_loads {A B} (p : rio -> load A) (f : A -> rio -> load B) e1 e2 a b : loads p e1 a -> loads (f a) e2 b -> loads (fun r => load_bind (p r) f) (e1 ++ e2) b.
Proof. intros P F r rest R. rewrite <- app_assoc in R. destruct (P r _ R) as (r1 & E & R1 & S1). cbn beta. rewrite E. cbn [load_bind]. destruct (F r1 rest R1) as (r2 & E2 & R2 & S2). exists r2. split_and!; [done|done|]. by apply (summed_trans _ r r1). Qed.

Lemma ret_loads {A} (a : A) : loads (fun r => Some (inr (a, r))) [] a.
Proof. intros r rest R. exists r. split_and!; [done|done|by apply summed_refl]. Qed.

Lemma bind_total {A B} (p : rio -> load A) (f : A -> rio -> load B) P Q : total p P -> (forall a, P a -> total (f a) Q) -> total (fun r => load_bind (p r) f) Q.
Proof.
  intros Tp Tf r l R By. destruct (Tp r l R By) as (x & E & Hx). rewrite E. destruct x as [r'|[a r']]; cbn [load_bind]; [by eexists|]. destruct Hx as (Pa & e1 & l' & -> & R' & S1). apply Forall_app in By as [B1 B2]. destruct (Tf a Pa r' l' R' B2) as (y & Ey & Hy). exists y. split; [done|].
  destruct y as [|[b r'']]; [done|]. destruct Hy as (Qb & e2 & l'' & -> & R'' & S2). split; [done|]. exists (e1 ++ e2), l''. split_and!; [by rewrite app_assoc|done|]. by apply (summed_trans _ r r').
Qed.

Lemma ret_total {A} (a : A) (Q : A -> Prop) : Q a -> total (fun r => Some (inr (a, r))) Q.
Proof. intros Qa r l R B. eexists. split; [done|]. split; [done|]. exists [], l. split_and!; [done|done|by apply summed_refl]. Qed.

Lemma fail_total {A} (Q : A -> Prop) : total (fun r => Some (inl r)) Q.
Proof. intros r l R B. by eexists. Qed.

(** ** Lengths *)

Definition len_bytes (len : Z) : list Z :=
  if len <? 64 then [len]
  else if len <? 16384 then [len / 256 + 64; len mod 256]
  else if len <=? 2 ^ 32 - 1 then RDB_32BITLEN :: be_bytes 4 len
  else RDB_64BITLEN :: be_bytes 8 len.

Lemma be_val_bytes n v : 0 <= v < 256 ^ Z.of_nat n -> be_val (be_bytes n v) = v.
Proof. intros Hv. unfold be_val, be_bytes. rewrite rev_involutive, le_val_bytes. by apply Z.mod_small. Qed.

Lemma be_bytes_zlen n v : zlen (be_bytes n v) = Z.of_nat n.
Proof. unfold zlen, be_bytes. by rewrite length_rev, le_bytes_length. Qed.

Lemma land_255 v : Z.land v 255 = v mod 256.
Proof. change 255 with (Z.ones 8). by rewrite Z.land_ones by lia. Qed.

(** The two upper bits of a first byte. *)
Lemma first_byte b k : 0 <= b < 64 -> 0 <= k < 4 -> Z.shiftr (Z.land (k * 64 + b) 192) 6 = k /\ Z.land (k * 64 + b) 63 = b.
Proof.
  intros Hb Hk. assert (forall x, 0 <= x < 256 -> (Z.shiftr (Z.land x 192) 6 =? x / 64) && (Z.land x 63 =? x mod 64) = true) as A.
  { intros x Hx. by apply (forall_range (fun x => (Z.shiftr (Z.land x 192) 6 =? x / 64) && (Z.land x 63 =? x mod 64)) 0 256); [vm_compute|]. }
  specialize (A (k * 64 + b) ltac:(lia)). rewrite Z.div_add_l, Z.div_small, Z.add_0_r, Z.add_comm, Z.mod_add, Z.mod_small in A by lia. rewrite (Z.add_comm b) in A. lia.
Qed.

Lemma save_len len : 0 <= len < 2 ^ 64 -> saves (rdbSaveLen len) (len_bytes len).
Proof.
  intros Hl. unfold rdbSaveLen, len_bytes. change (Z.shiftl 1 6) with 64. change (Z.shiftl 1 14) with 16384. destruct (Z.ltb_spec len 64).
  - change (Z.shiftl RDB_6BITLEN 6) with 0. rewrite Z.lor_0_r, land_255, Z.mod_small by lia. apply raw_saves.
  - destruct (Z.ltb_spec len 16384).
    + rewrite Z.lor_comm. change (Z.shiftl RDB_14BITLEN 6) with (Z.shiftl 1 6). rewrite Z.shiftr_div_pow2, !land_255 by lia. change (2 ^ 8) with 256. assert (0 <= len / 256 < 64) by (split; [apply Z.div_pos; lia|apply Z.div_lt_upper_bound; lia]).
      rewrite (Z.mod_small (len / 256)) by lia. rewrite lor_shiftl_add by lia. change (1 * 2 ^ 6) with 64. rewrite Z.add_comm. apply raw_saves.
    + destruct (Z.leb_spec len (2 ^ 32 - 1)); [apply (then_saves _ _ [_] (be_bytes 4 len))|apply (then_saves _ _ [_] (be_bytes 8 len))]; apply raw_saves.
Qed.

Lemma load_len len : 0 <= len < 2 ^ 64 - 1 -> loads rdbLoadLen (len_bytes len) (false, len).
Proof.
  intros Hl. assert (loads rdbLoadLenByRef (len_bytes len) (false, len)) as Ref.
  { unfold rdbLoadLenByRef, len_bytes. destruct (Z.ltb_spec len 64); [|destruct (Z.ltb_spec len 16384); [|destruct (Z.leb_spec len (2 ^ 32 - 1))]].
    - apply (bind_loads _ _ [len] [] [len]); [by apply read_loads|]. cbn [lookup list_lookup mbind option_bind]. destruct (first_byte len 0) as [E1 E2]; [lia|lia|]. rewrite Z.mul_0_l, Z.add_0_l in E1, E2. rewrite E1, E2. apply ret_loads.
    - assert (0 <= len / 256 < 64) by (split; [apply Z.div_pos; lia|apply Z.div_lt_upper_bound; lia]). pose proof (Z.mod_pos_bound len 256). pose proof (Z.div_mod len 256).
      apply (bind_loads _ _ [len / 256 + 64] [len mod 256] [len / 256 + 64]); [by apply read_loads|]. cbn [lookup list_lookup mbind option_bind]. destruct (first_byte (len / 256) 1) as [E1 E2]; [lia|lia|].
      replace (1 * 64 + len / 256) with (len / 256 + 64) in E1, E2 by lia. rewrite E1, E2. cbn [Z.eqb Pos.eqb RDB_ENCVAL RDB_6BITLEN RDB_14BITLEN].
      apply (bind_loads _ _ [len mod 256] [] [len mod 256]); [by apply read_loads|]. cbn [lookup list_lookup mbind option_bind]. rewrite lor_shiftl_add by lia. change (2 ^ 8) with 256. replace (len / 256 * 256 + len mod 256) with len by lia. apply ret_loads.
    - apply (bind_loads _ _ [_] (be_bytes 4 len) [RDB_32BITLEN]); [by apply read_loads|]. cbn [lookup list_lookup mbind option_bind]. rewrite <- (app_nil_r (be_bytes 4 len)).
      apply (bind_loads _ _ (be_bytes 4 len) [] (be_bytes 4 len)); [apply read_loads; by rewrite be_bytes_zlen|]. rewrite be_val_bytes by (change (256 ^ Z.of_nat 4) with (2 ^ 32); lia). apply ret_loads.
    - apply (bind_loads _ _ [_] (be_bytes 8 len) [RDB_64BITLEN]); [by apply read_loads|]. cbn [lookup list_lookup mbind option_bind]. rewrite <- (app_nil_r (be_bytes 8 len)).
      apply (bind_loads _ _ (be_bytes 8 len) [] (be_bytes 8 len)); [apply read_loads; by rewrite be_bytes_zlen|]. rewrite be_val_bytes by (change (256 ^ Z.of_nat 8) with (2 ^ 64); lia). apply ret_loads. }
  unfold rdbLoadLen. rewrite <- (app_nil_r (len_bytes len)). eapply bind_loads; [exact Ref|]. cbv beta iota. destruct (Z.eqb_spec len RDB_LENERR) as [->|]; [unfold RDB_LENERR in Hl; lia|]. apply ret_loads.
Qed.

(** ** Integers *)

Definition int_bytes (v : Z) : list Z :=
  if (- 2 ^ 7 <=? v) && (v <=? 2 ^ 7 - 1) then 192 :: le_bytes 1 v
  else if (- 2 ^ 15 <=? v) && (v <=? 2 ^ 15 - 1) then 193 :: le_bytes 2 v
  else if (- 2 ^ 31 <=? v) && (v <=? 2 ^ 31 - 1) then 194 :: le_bytes 4 v
  else [].

Lemma encode_integer v : rdbEncodeInteger v = int_bytes v.
Proof.
  unfold rdbEncodeInteger, int_bytes. rewrite !Z.geb_leb, !land_255, !Z.shiftr_div_pow2 by lia. change (Z.shiftl 1 7) with (2 ^ 7). change (Z.shiftl 1 15) with (2 ^ 15). change (Z.shiftl 1 31) with (2 ^ 31).
  cbn [le_bytes]. change (2 ^ 8) with 256. change (2 ^ 16) with (256 * 256). change (2 ^ 24) with (256 * 256 * 256). by rewrite !Zdiv_Zdiv by lia.
Qed.

Definition text (o : string_object) : list Z := match o with Raw s => s | Int v => sdec v end.

Lemma text_of_int encode v : is_i64 v -> text (if encode : bool then Int v else Raw (ll_text (Z.to_nat LONG_STR_SIZE) v)) = sdec v.
Proof. intros Hv. destruct encode; [done|]. cbn [text]. apply ll_text_ok; [done|]. unfold LONG_STR_SIZE. lia. Qed.

(** The object that is loaded for an encoded integer. *)
Definition int_object (encode : bool) (v : Z) : string_object := if encode then Int v else Raw (ll_text (Z.to_nat LONG_STR_SIZE) v).

Lemma load_integer v encode : int_bytes v <> [] -> exists code, 0 <= code < 3 /\
  exists body, int_bytes v = 192 + code :: body /\ loads (rdbLoadIntegerObject code encode) body (int_object encode v).
Proof.
  assert (forall a b n, 0 <= n -> 0 <= a < 2 ^ n -> Z.lor a (Z.shiftl b n) = a + b * 2 ^ n) as Lor by (intros a b n Hn Ha; rewrite Z.lor_comm, lor_shiftl_add by lia; lia).
  unfold int_bytes. intros Ne. destruct (_ && _) eqn:B1; [|clear B1; destruct (_ && _) eqn:B2; [|clear B2; destruct (_ && _) eqn:B3; [|done]]].
  - exists 0. split; [lia|]. exists (le_bytes 1 v). split; [done|]. rewrite <- (app_nil_r (le_bytes 1 v)). eapply bind_loads; [by apply read_loads|]. cbn [le_bytes lookup list_lookup mbind option_bind].
    replace (swrap 8 (v mod 256)) with v; [apply ret_loads|]. change 256 with (2 ^ 8). rewrite swrap_mod by lia. symmetry. apply swrap_small; lia.
  - exists 1. split; [lia|]. exists (le_bytes 2 v). split; [done|]. rewrite <- (app_nil_r (le_bytes 2 v)). eapply bind_loads; [by apply read_loads|].
    pose proof (swrap_le_bytes 2 v ltac:(lia) ltac:(change (8 * Z.of_nat 2 - 1) with 15; lia)) as Sw. cbn [le_bytes le_val] in Sw. cbn [le_bytes lookup list_lookup mbind option_bind].
    pose proof (Z.mod_pos_bound v 256). pose proof (Z.mod_pos_bound (v / 256) 256). rewrite Lor by lia. unfold i16, u16. rewrite swrap_mod by lia.
    replace (swrap 16 (v mod 256 + (v / 256) mod 256 * 2 ^ 8)) with v; [apply ret_loads|]. rewrite <- Sw at 1. change (8 * Z.of_nat 2) with 16. f_equal. lia.
  - exists 2. split; [lia|]. exists (le_bytes 4 v). split; [done|]. rewrite <- (app_nil_r (le_bytes 4 v)). eapply bind_loads; [by apply read_loads|].
    pose proof (swrap_le_bytes 4 v ltac:(lia) ltac:(change (8 * Z.of_nat 4 - 1) with 31; lia)) as Sw. cbn [le_bytes le_val] in Sw. cbn [le_bytes lookup list_lookup mbind option_bind].
    set (e0 := v mod 256) in *. set (e1 := (v / 256) mod 256) in *. set (e2 := (v / 256 / 256) mod 256) in *. set (e3 := (v / 256 / 256 / 256) mod 256) in *.
    assert (0 <= e0 < 256 /\ 0 <= e1 < 256 /\ 0 <= e2 < 256 /\ 0 <= e3 < 256) as (R0 & R1 & R2 & R3) by (split_and!; apply Z.mod_pos_bound; lia). clearbody e0 e1 e2 e3.
    rewrite (Lor e0) by lia. rewrite (Lor _ e2) by lia. rewrite (Lor _ e3) by lia. unfold i32, u32. rewrite swrap_mod by lia.
    replace (swrap 32 (e0 + e1 * 2 ^ 8 + e2 * 2 ^ 16 + e3 * 2 ^ 24)) with v; [apply ret_loads|]. rewrite <- Sw at 1. change (8 * Z.of_nat 4) with 32. f_equal. lia.
Qed.

(** ** Strings *)

Lemma load_encval code : 0 <= code < 64 -> loads rdbLoadLen [192 + code] (true, code).
Proof.
  intros Hc. apply (bind_loads _ _ [192 + code] [] (true, code)).
  - apply (bind_loads _ _ [192 + code] [] [192 + code]); [by apply read_loads|]. cbn [lookup list_lookup mbind option_bind]. destruct (first_byte code 3) as [E1 E2]; [lia|lia|].
    change (3 * 64 + code) with (192 + code) in E1, E2. rewrite E1, E2. apply ret_loads.
  - cbv beta iota. destruct (Z.eqb_spec code RDB_LENERR) as [->|]; [unfold RDB_LENERR in Hc; lia|]. apply ret_loads.
Qed.

Lemma load_string_int encode v : int_bytes v <> [] -> loads (rdbGenericLoadStringObjectUsable encode) (int_bytes v) (int_object encode v).
Proof.
  intros Ne. destruct (load_integer v encode Ne) as (code & Hc & body & -> & Ld). apply (bind_loads _ _ [192 + code] body (true, code)); [apply load_encval; lia|].
  assert (code = 0 \/ code = 1 \/ code = 2) as [->|[->| ->]] by lia; exact Ld.
Qed.

Lemma load_string_raw encode s : zlen s < 2 ^ 64 - 1 -> alloc_ok (zlen s) = true -> loads (rdbGenericLoadStringObjectUsable encode) (len_bytes (zlen s) ++ s) (Raw s).
Proof.
  intros L Al. pose proof (zlen_nonneg s). apply (bind_loads _ _ _ s (false, zlen s)); [apply load_len; lia|]. cbv beta iota. rewrite Al. cbn [negb]. generalize (app_nil_r s). set (e := s ++ []). intros E. cbn beta.
  enough (loads (fun r => load_bind (if negb (zlen s =? 0) then read (zlen s) r else Some (inr ([], r))) (fun buf r => Some (inr (Raw buf, r)))) e (Raw s)) as Ld by (by rewrite E in Ld).
  apply (bind_loads (fun r => if negb (zlen s =? 0) then read (zlen s) r else Some (inr ([], r))) _ s [] s); [|apply ret_loads]. destruct (Z.eqb_spec (zlen s) 0) as [Z0|N0]; cbn [negb]; [|by apply read_loads].
  destruct s; [apply ret_loads|rewrite zlen_cons in Z0; pose proof (zlen_nonneg s); lia].
Qed.

Lemma load_string_lzf encode c s : zlen s < 2 ^ 64 - 1 -> zlen c < 2 ^ 64 - 1 -> alloc_ok (zlen s) = true -> alloc_ok (zlen c) = true ->
  lzf_decompress c (block (zlen s)) = Some (zlen s, s) -> loads (rdbGenericLoadStringObjectUsable encode) (195 :: len_bytes (zlen c) ++ len_bytes (zlen s) ++ c) (Raw s).
Proof.
  intros L Lc Al Alc D. pose proof (zlen_nonneg s). pose proof (zlen_nonneg c). apply (bind_loads _ _ [195] _ (true, 3)); [by apply (load_encval 3)|]. cbv beta iota. cbn [orb Z.eqb Pos.eqb RDB_ENC_INT8 RDB_ENC_INT16 RDB_ENC_INT32 RDB_ENC_LZF].
  apply (bind_loads _ _ (len_bytes (zlen c)) _ (false, zlen c)); [apply load_len; lia|]. cbv beta iota. apply (bind_loads _ _ (len_bytes (zlen s)) c (false, zlen s)); [apply load_len; lia|]. cbv beta iota.
  rewrite Al, Alc. cbn [negb]. intros r rest R. destruct (read_loads c (zlen c) eq_refl r rest R) as (r' & -> & R' & Su). cbn [load_bind]. rewrite D. cbn [mbind option_bind]. rewrite Z.eqb_refl. by exists r'.
Qed.

Lemma block_zlen n : 0 <= n -> zlen (block n) = n.
Proof. intros Hn. unfold zlen, block. rewrite length_map, length_seq. lia. Qed.

Hypothesis addr_low : MAX_OFF <= addr.
Hypothesis garbage_range : forall j, is_u64 (garbage j).
Hypothesis memory : forall n, alloc_ok n = true.

(** What is saved as [enc] and loaded as the text [t]. *)
Definition codec (f : option rio -> option (Z * option rio)) (t : list Z) : Prop :=
  exists enc, enc <> [] /\ Forall is_u8 enc /\ saves f enc /\ forall encode, exists o, text o = t /\ loads (rdbGenericLoadStringObjectUsable encode) enc o.

Lemma codec_ext f g t : (forall rdb, f rdb = g rdb) -> codec f t -> codec g t.
Proof. intros E (enc & Ne & B & Sv & Ld). exists enc. split_and!; [done|done| |done]. by apply (saves_ext f). Qed.

Lemma len_bytes_cons len : exists b l, len_bytes len = b :: l.
Proof. unfold len_bytes. repeat case_match; eauto. Qed.

Lemma len_bytes_u8 len : 0 <= len -> Forall is_u8 (len_bytes len).
Proof.
  intros Hl. unfold len_bytes, be_bytes. destruct (Z.ltb_spec len 64); [repeat constructor; lia|]. destruct (Z.ltb_spec len 16384).
  - assert (0 <= len / 256 < 64) by (split; [apply Z.div_pos; lia|apply Z.div_lt_upper_bound; lia]). pose proof (Z.mod_pos_bound len 256). repeat constructor; lia.
  - destruct (len <=? 2 ^ 32 - 1); (constructor; [done|apply Forall_rev, le_bytes_u8]).
Qed.

Lemma int_bytes_u8 v : Forall is_u8 (int_bytes v).
Proof. unfold int_bytes. repeat case_match; try done; (constructor; [done|apply le_bytes_u8]). Qed.

Lemma plain_codec s : Forall is_u8 s -> zlen s < 2 ^ 64 - 1 -> codec (then_write (rdbSaveLen (zlen s)) (fun rdb => rdbWriteRaw rdb s)) s.
Proof.
  intros B L. pose proof (zlen_nonneg s). exists (len_bytes (zlen s) ++ s). split; [by destruct (len_bytes_cons (zlen s)) as (b & l & ->)|]. split; [apply Forall_app; split; [by apply len_bytes_u8|done]|]. split; [apply then_saves; [apply save_len; lia|apply raw_saves]|].
  intros encode. exists (Raw s). split; [done|]. by apply load_string_raw.
Qed.

Lemma int_codec v : is_i64 v -> int_bytes v <> [] -> codec (fun rdb => rdbWriteRaw rdb (int_bytes v)) (sdec v).
Proof.
  intros Hv Ne. exists (int_bytes v). split; [done|]. split; [apply int_bytes_u8|]. split; [apply raw_saves|]. intros encode. exists (int_object encode v). split; [by apply text_of_int|by apply load_string_int].
Qed.

(** The compressed form, where the compressor gives one. *)
Lemma lzf_codec s : Forall is_u8 s -> 20 < zlen s -> addr + zlen s <= 2 ^ 64 ->
  (forall rdb, rdbSaveLzfStringObject s rdb = Some (0, rdb)) \/ codec (rdbSaveLzfStringObject s) s.
Proof.
  intros B L H. unfold rdbSaveLzfStringObject. change MAX_OFF with (2 ^ 13) in *. destruct (Z.leb_spec (zlen s) 4); [lia|].
  destruct (compress_spec s addr B addr_low H garbage (block (zlen s - 4)) ltac:(lia) garbage_range) as (n & m & -> & Lm & Hn & D). cbn [mbind option_bind]. rewrite block_zlen in Lm by lia.
  destruct (Z.eqb_spec n 0) as [->|Nz]; [by left|]. right. set (c := take (Z.to_nat n) m). assert (zlen c = n) as Lc by (apply zlen_take; lia).
  assert (lzf_decompress c (block (zlen s)) = Some (zlen s, s)) as Dc.
  { unfold c. rewrite (decompress_decodes _ s) by (first [by apply D|rewrite block_zlen; lia]). by rewrite drop_ge, app_nil_r by (unfold block; rewrite length_map, length_seq; lia). }
  assert (Forall is_u8 c) as Bc by (by apply (decodes_bytes _ s); [apply D|]). exists (195 :: len_bytes (zlen c) ++ len_bytes (zlen s) ++ c). split; [done|].
  split; [constructor; [done|]; apply Forall_app; split; [apply len_bytes_u8; lia|apply Forall_app; split; [apply len_bytes_u8; lia|done]]|]. split; [|intros encode; exists (Raw s); split; [done|]; apply load_string_lzf; try done; lia].
  apply (then_saves _ _ [195]); [apply raw_saves|]. apply then_saves; [apply save_len; lia|]. apply then_saves; [apply save_len; lia|apply raw_saves].
Qed.

(** A first attempt that writes something is the result. *)
Lemma codec_first f g t : codec f t -> codec (fun rdb => '(n, rdb) ← f rdb; if n =? -1 then Some (-1, rdb) else if n >? 0 then Some (n, rdb) else g rdb) t.
Proof.
  intros (enc & Ne & B & [S0 S] & Ld). assert (0 < zlen enc) as Pe by (destruct enc; [done|rewrite zlen_cons; pose proof (zlen_nonneg enc); lia]). exists enc. split; [done|]. split; [done|]. split; [|done]. split.
  - rewrite S0. cbn [mbind option_bind]. destruct (Z.eqb_spec (zlen enc) (-1)); [lia|]. rewrite Z.gtb_ltb. destruct (Z.ltb_spec 0 (zlen enc)); [done|lia].
  - intros r W. destruct (S r W) as (n & r' & -> & Rest). cbn [mbind option_bind]. exists n, r'. split; [|done]. destruct (Z.eqb_spec n (-1)) as [->|]; [done|]. rewrite Z.gtb_ltb. destruct (Z.ltb_spec 0 n); [done|]. destruct Rest as (_ & [(-> & _)|[-> _]] & _); lia.
Qed.

Lemma write_raw_count rdb p k rdb' : rdbWriteRaw rdb p = Some (k, rdb') -> k = -1 \/ k = zlen p.
Proof. destruct rdb as [r|]; cbn [rdbWriteRaw]; [|intros [= -> _]; by right]. destruct (rioWrite r p) as [[[] r']|]; cbn [mbind option_bind]; intros [= <- _]; [by right|by left]. Qed.

(** The end of [rdbSaveRawString]: the string as it is. *)
Definition save_verbatim (s : list Z) (rdb : option rio) : option (Z * option rio) :=
  '(n, rdb) ← rdbSaveLen (zlen s) rdb;
  if n =? -1 then Some (-1, rdb)
  else if zlen s >? 0 then '(k, rdb) ← rdbWriteRaw rdb s; if k =? -1 then Some (-1, rdb) else Some (n + zlen s, rdb)
  else Some (n, rdb).

Lemma verbatim_codec s : Forall is_u8 s -> zlen s < 2 ^ 64 - 1 -> codec (save_verbatim s) s.
Proof.
  intros B L. destruct s as [|b s'].
  - exists (len_bytes 0). split; [done|]. split; [by apply len_bytes_u8|]. split; [|intros encode; exists (Raw []); split; [done|]; by apply (load_string_raw encode [])]. apply (saves_ext (rdbSaveLen 0)); [|by apply save_len]. intros rdb.
    unfold save_verbatim. change (zlen []) with 0. destruct (rdbSaveLen 0 rdb) as [[n r]|]; [|done]. cbn [mbind option_bind]. destruct (Z.eqb_spec n (-1)) as [->|]; done.
  - eapply codec_ext; [|by apply plain_codec]. intros rdb. unfold save_verbatim, then_write. rewrite Z.gtb_ltb. set (s := b :: s') in *. assert (0 < zlen s) as P by (unfold s; rewrite zlen_cons; pose proof (zlen_nonneg s'); lia).
    destruct (rdbSaveLen (zlen s) rdb) as [[n r]|]; [|done]. cbn [mbind option_bind]. destruct (n =? -1); [done|]. destruct (Z.ltb_spec 0 (zlen s)); [|lia]. destruct (rdbWriteRaw r s) as [[k r']|] eqn:E; [|done]. cbn [mbind option_bind].
    destruct (write_raw_count _ _ _ _ E) as [->| ->]; [done|]. by destruct (Z.eqb_spec (zlen s) (-1)).
Qed.

Lemma save_raw_string compression s : Forall is_u8 s -> addr + zlen s <= 2 ^ 64 -> codec (rdbSaveRawString compression s) s.
Proof.
  intros B H. pose proof (zlen_nonneg s). change MAX_OFF with (2 ^ 13) in *. set (enc := if zlen s <=? 11 then rdbTryIntegerEncoding s else []). destruct (decide (enc = [])) as [E|Ne].
  - pose proof (verbatim_codec s B ltac:(lia)) as Pl. destruct (compression && (zlen s >? 20)) eqn:C.
    + destruct (lzf_codec s B ltac:(lia) H) as [Zero|Cd]; [eapply codec_ext; [|exact Pl]|eapply codec_ext; [|exact (codec_first _ (save_verbatim s) s Cd)]]; intros rdb; unfold rdbSaveRawString; fold enc; rewrite E, C; [by rewrite Zero|done].
    + eapply codec_ext; [|exact Pl]. intros rdb. unfold rdbSaveRawString. fold enc. by rewrite E, C.
  - assert (exists v, string2ll s = Some v /\ enc = int_bytes v) as (v & Sv & Ev).
    { unfold enc, rdbTryIntegerEncoding in *. destruct (zlen s <=? 11); [|done]. destruct (string2ll s) as [v|]; [|done]. exists v. by rewrite encode_integer. }
    destruct (string2ll_inv _ _ Sv) as [Hv Ts]. rewrite Ts at 2. eapply codec_ext; [|apply int_codec; [done|by rewrite <- Ev]]. intros rdb. unfold rdbSaveRawString. fold enc. rewrite <- Ev. rewrite Z.gtb_ltb.
    destruct (Z.ltb_spec 0 (zlen enc)) as [_|Z0]; [|destruct enc as [|x y]; [done|rewrite zlen_cons in Z0; pose proof (zlen_nonneg y); lia]].
    destruct (rdbWriteRaw rdb enc) as [[k r']|] eqn:E; [|done]. cbn [mbind option_bind]. destruct (write_raw_count _ _ _ _ E) as [->| ->]; [done|]. by destruct (Z.eqb_spec (zlen enc) (-1)) as [->|].
Qed.

Lemma save_long_long v : is_i64 v -> codec (rdbSaveLongLongAsStringObject v) (sdec v).
Proof.
  intros Hv. pose proof (sdec_length v Hv). unfold rdbSaveLongLongAsStringObject. rewrite encode_integer. destruct (decide (int_bytes v = [])) as [E|Ne].
  - rewrite E, ll2string_ok; [|done|change (zlen (repeat 0 32)) with 32; lia]. change (zlen [] >? 0) with false. cbv iota. rewrite Z.geb_leb. destruct (Z.leb_spec 32 (zlen (sdec v))); [lia|].
    assert (take (Z.to_nat (zlen (sdec v))) (sdec v ++ 0 :: drop (Z.to_nat (zlen (sdec v) + 1)) (repeat 0 32)) = sdec v) as -> by (unfold zlen; by rewrite Nat2Z.id, take_app_length). apply plain_codec; [apply sdec_bytes|lia].
  - eapply codec_ext; [|by apply int_codec]. intros rdb. rewrite Z.gtb_ltb. destruct (Z.ltb_spec 0 (zlen (int_bytes v))) as [_|Z0]; [done|]. destruct (int_bytes v); [done|rewrite zlen_cons in Z0; pose proof (zlen_nonneg l); lia].
Qed.

(** A string that is in memory, at [addr]. *)
Definition object_ok (o : string_object) : Prop :=
  match o with Raw s => Forall is_u8 s /\ addr + zlen s <= 2 ^ 64 | Int v => is_i64 v end.

Lemma save_string_object compression o : object_ok o -> codec (rdbSaveStringObject compression o) (text o).
Proof. destruct o as [s|v]; cbn [object_ok rdbSaveStringObject text]; [intros []; by apply save_raw_string|apply save_long_long]. Qed.

End Rio.

(** ** Loading anything *)

Section Total.
Variables (load_cksum : cksum_fn) (fresh : nat -> Z) (alloc_ok : Z -> bool).
Local Notation total := (total load_cksum).

Lemma be_val_range l : Forall is_u8 l -> 0 <= be_val l < 256 ^ zlen l.
Proof. intros B. unfold be_val. assert (zlen l = zlen (rev l)) as -> by (unfold zlen; by rewrite length_rev). apply le_val_range. by apply Forall_rev. Qed.

Lemma load_len_total : total (rdbLoadLen load_cksum) (fun '(_, len) => 0 <= len < 2 ^ 64).
Proof.
  unfold rdbLoadLen. eapply (bind_total _ _ _ (fun '(_, len) => 0 <= len < 2 ^ 64)); [|intros [e len] Hl; destruct (len =? RDB_LENERR); [apply fail_total|by apply ret_total]].
  eapply bind_total; [by apply read_total|]. intros l [L B]. destruct l as [|b0 [|]]; [done| |unfold zlen in L; cbn in L; lia]. cbn [lookup list_lookup mbind option_bind].
  assert (0 <= Z.land b0 63 < 64) as H6 by (change 63 with (Z.ones 6); rewrite Z.land_ones by lia; apply Z.mod_pos_bound; lia). pose proof (Forall_inv B) as B0.
  repeat case_match; try (by apply fail_total); try (apply ret_total; lia); (eapply bind_total; [by apply read_total|]); intros l [L' B'].
  2, 3: apply ret_total; pose proof (be_val_range l B') as V; rewrite L' in V; lia.
  destruct l as [|b1 l]; [done|]. pose proof (Forall_inv B') as B1. cbn [lookup list_lookup mbind option_bind]. apply ret_total. rewrite lor_shiftl_add by (unfold is_u8 in *; lia). unfold is_u8 in *. lia.
Qed.

(** A byte of what was read. *)
Lemma byte_total {A} (f : Z -> rio -> option (rio + A * rio)) (l : list Z) (i : nat) Q : Z.of_nat i < zlen l -> (forall b, total (f b) Q) -> total (fun r => b ← l !! i; f b r) Q.
Proof. intros H T. destruct (lookup_lt_is_Some_2 l i) as [b ->]; [unfold zlen in H; lia|]. cbn [mbind option_bind]. apply T. Qed.

Lemma load_integer_total code encode : total (rdbLoadIntegerObject load_cksum code encode) (fun _ => True).
Proof.
  unfold rdbLoadIntegerObject. repeat case_match; try (by apply fail_total); (eapply bind_total; [by apply read_total|]); intros l [L _]; repeat (apply byte_total; [lia|]; intros ?); by apply ret_total.
Qed.

Lemma load_lzf_total : total (rdbLoadLzfStringObject load_cksum fresh alloc_ok) (fun _ => True).
Proof.
  eapply bind_total; [apply load_len_total|]. intros [e1 clen] Hc. eapply bind_total; [apply load_len_total|]. intros [e2 len] Hl. repeat case_match; try (by apply fail_total).
  eapply bind_total; [apply read_total; lia|]. intros c [_ B]. destruct (decompress_safe c (block fresh len) B) as (n & m & -> & _). cbn [mbind option_bind]. repeat case_match; [by apply fail_total|by apply ret_total].
Qed.

Lemma load_string_total encode : total (rdbGenericLoadStringObjectUsable load_cksum fresh alloc_ok encode) (fun _ => True).
Proof.
  eapply bind_total; [apply load_len_total|]. intros [e len] Hl. destruct e; [repeat case_match; [apply load_integer_total|apply load_lzf_total|by apply fail_total]|]. destruct (negb (alloc_ok len)); [by apply fail_total|].
  eapply (bind_total _ _ _ (fun _ => True)); [|intros buf _; by apply ret_total]. destruct (negb (len =? 0)); [|by apply ret_total]. intros r l R B. destruct (read_total load_cksum len ltac:(lia) r l R B) as (x & E & Hx). exists x. split; [done|]. destruct x as [|[? ?]]; naive_solver.
Qed.

End Total.

(** ** Theorems *)

(** C19: a string object that is saved in a snapshot is loaded with the same text,
    whichever of its four forms (integer, compressed blob, plain string, long
    integer as text) it is written in. The call returns the number of bytes it
    appended, or -1 with the error flag of the stream set, and never -1 on a stream
    that takes every block; the call without a stream returns the same number. *)
Theorem rdb_string_roundtrip write_ok update_cksum load_cksum addr garbage fresh alloc_ok compression o r :
  MAX_OFF <= addr -> (forall j, is_u64 (garbage j)) -> (forall n, alloc_ok n = true) -> object_ok addr o -> rio_ok r ->
  exists enc n r', rdbSaveStringObject write_ok update_cksum addr garbage fresh compression o (Some r) = Some (n, Some r') /\
    rdbSaveStringObject write_ok update_cksum addr garbage fresh compression o None = Some (zlen enc, None) /\
    (n = zlen enc /\ rio_buf r' = rio_buf r ++ enc \/ n = -1 /\ has_flag r' RIO_FLAG_WRITE_ERROR = true) /\
    ((forall a b, write_ok a b = true) -> has_flag r RIO_FLAG_WRITE_ERROR = false -> n = zlen enc) /\
    forall encode q rest, reading q (enc ++ rest) ->
      exists o' q', rdbGenericLoadStringObjectUsable load_cksum fresh alloc_ok encode q = Some (inr (o', q')) /\ text o' = text o /\ reading q' rest.
Proof.
  intros Lo Hg Al Ok W. destruct (save_string_object write_ok update_cksum load_cksum addr garbage fresh alloc_ok Lo Hg Al compression o Ok) as (enc & Ne & B & [S0 S] & Ld).
  destruct (S r W) as (n & r' & E & W' & Cs & Good). exists enc, n, r'. split_and!; try done; [destruct Cs as [(? & ? & _)|]; [by left|by right]|intros Wr Fl; by apply Good|].
  intros encode q rest R. destruct (Ld encode) as (o' & T & L). destruct (L q rest R) as (q' & Eq & R' & _). by exists o', q'.
Qed.

(** Loading a string never faults, whatever bytes the stream has and wherever it
    ends, and whichever allocations fail: it gives an object, or an error, and leaves
    a stream that can be read on after an object. *)
Theorem rdb_load_total load_cksum fresh alloc_ok encode r l : reading r l -> Forall is_u8 l ->
  exists x, rdbGenericLoadStringObjectUsable load_cksum fresh alloc_ok encode r = Some x /\
    match x with inl _ => True | inr (_, r') => exists l', reading r' l' /\ Forall is_u8 l' end.
Proof. intros R B. destruct (load_string_total load_cksum fresh alloc_ok encode r l R B) as (x & E & Hx). exists x. split; [done|]. destruct x as [|[o r']]; [done|]. destruct Hx as (_ & enc & l' & -> & R' & _). exists l'. split; [done|]. by apply Forall_app in B as [_ ?]. Qed.

(** ** Witnesses *)

Definition empty_rio : rio := {| rio_buf := []; rio_pos := 0; rio_cksum := 0; rio_flags := 0; processed_bytes := 0; max_processing_chunk := 7 |}.

Definition reader (l : list Z) : rio := {| rio_buf := l; rio_pos := 0; rio_cksum := 0; rio_flags := 0; processed_bytes := 0; max_processing_chunk := 0 |}.

Lemma reader_reading l : reading (reader l) l.
Proof. split; [done|cbn; pose proof (zlen_nonneg l); lia|done|done]. Qed.

Definition sample_save (o : string_object) : option (Z * option rio) :=
  rdbSaveStringObject (fun _ _ => true) None 65536 (fun i => 65536 + i mod 64) (fun _ => 0) true o (Some empty_rio).

Lemma rdb_string_roundtrip_witness : exists n r, sample_save (Raw sample_text) = Some (n, Some r) /\ n = 26 /\
  exists o' q', rdbGenericLoadStringObjectUsable None (fun _ => 0) (fun _ => true) false (reader (rio_buf r)) = Some (inr (o', q')) /\ text o' = sample_text.
Proof.
  destruct (rdb_string_roundtrip (fun _ _ => true) None None 65536 (fun i => 65536 + i mod 64) (fun _ => 0) (fun _ => true) true (Raw sample_text) empty_rio) as (enc & n & r' & E & _ & [[_ B]|[N _]] & G & Ld).
  - vm_compute. discriminate.
  - intros j. pose proof (Z.mod_pos_bound j 64). unfold is_u64. lia.
  - reflexivity.
  - split; [eapply bool_decide_unpack; vm_compute; exact I|vm_compute; discriminate].
  - vm_compute. discriminate.
  - exists n, r'. split; [exact E|]. split; [vm_compute in E; congruence|]. destruct (Ld false (reader (rio_buf r')) []) as (o' & q' & L & T & _); [rewrite app_nil_r, B; apply reader_reading|]. exists o', q'. split; [exact L|exact T].
  - exfalso. vm_compute in E. congruence.
Defined.

Lemma rdb_load_total_witness : exists x, rdbGenericLoadStringObjectUsable None (fun _ => 0) (fun n => n <? 2 ^ 20) true (reader [195; 5; 64; 200; 224; 1; 2; 3; 4; 5]) = Some (inl x).
Proof.
  destruct (rdb_load_total None (fun _ => 0) (fun n => n <? 2 ^ 20) true (reader [195; 5; 64; 200; 224; 1; 2; 3; 4; 5]) _ (reader_reading _)) as (x & E & _); [eapply bool_decide_unpack; vm_compute; exact I|].
  destruct x as [x|[o x]]; [exists x; exact E|]. exfalso. vm_compute in E. congruence.
Defined.
