(* ===== verification/Crc64.v ===== *)
(** The checksum of snapshots: the bit-by-bit routine of src/src/crc64.c, the tables
    and the routine that works on two or three words at once of src/src/crcspeed.c,
    and the matrices of src/src/crccombine.c that join partial checksums; that the
    fast routine computes what the bit-by-bit one does. *)

From stdpp Require Import base list numbers.
From S2P Require Import Prelude Memory.

Local Open Scope Z_scope.

Definition CRC64_LEN_MASK : Z := 0x7ffffffffffffff8.
Definition CRC64_REVERSED_POLY : Z := 0x95ac9329ac4bc9b5.
Definition POLY : Z := 0xad93d23594c935a9.

(** ** Bit by bit *)

(** One exchange of neighbouring groups of [s] bits. *)
Definition swap (s m data : Z) : Z := Z.lor (Z.land (Z.shiftr data s) m) (u64 (Z.shiftl (Z.land data m) s)).

(** The last three exchanges are [__builtin_bswap64] where the compiler has it. *)
Definition crc_reflect (data data_len : Z) : Z :=
  let data := swap 1 0x5555555555555555 data in
  let data := swap 2 0x3333333333333333 data in
  let data := swap 4 0x0F0F0F0F0F0F0F0F data in
  let data := swap 8 0x00FF00FF00FF00FF data in
  let data := swap 16 0xFFFF0000FFFF data in
  let data := swap 32 0xFFFFFFFF data in
  Z.shiftr data (64 - data_len).

Definition crc_bit (c crc i : Z) : Z :=
  let bit := Z.land crc 0x8000000000000000 in
  let bit := if negb (Z.land c i =? 0) then (if bit =? 0 then 1 else 0) else bit in
  let crc := u64 (Z.shiftl crc 1) in
  if negb (bit =? 0) then Z.lxor crc POLY else crc.

(** The masks that [i] goes through before it wraps to 0. *)
Definition crc_byte (crc c : Z) : Z := Z.land (foldl (crc_bit c) crc [1; 2; 4; 8; 16; 32; 64; 128]) 0xffffffffffffffff.

Definition _crc64 (crc : Z) (in_data : list Z) : Z := Z.lxor (crc_reflect (Z.land (foldl crc_byte crc in_data) 0xffffffffffffffff) 64) 0.

(** ** Tables *)

Definition cell (t : list (list Z)) (k : nat) (i : Z) : option Z := row ← t !! k; byte_at row i.

(** [little_table[0][(crc ^ b) & 0xff] ^ (crc >> 8)] *)
Definition table_byte (t : list (list Z)) (crc b : Z) : option Z :=
  x ← cell t 0 (Z.land (Z.lxor crc b) 255); Some (Z.lxor x (Z.shiftr crc 8)).

(** Rows [k] and on, from the row before. *)
Fixpoint nested_rows (k : nat) (t : list (list Z)) (row : list Z) : option (list (list Z)) :=
  match k with
  | O => Some t
  | S k => row ← mapM (fun crc => table_byte t crc 0) row; nested_rows k (t ++ [row]) row
  end.

Definition crcspeed64little_init (crcfn : Z -> list Z -> Z) : option (list (list Z)) :=
  let row := map (fun n => crcfn 0 [n]) (seqZ 0 256) in nested_rows 7 [row] row.

(** ** Joining *)

(** The entries that a case of the switch adds. *)
Definition case_entries (v : Z) : list Z :=
  match v with
  | 15 => [0; 1; 2; 3] | 14 => [1; 2; 3] | 13 => [0; 2; 3] | 12 => [2; 3] | 11 => [0; 1; 3] | 10 => [1; 3] | 9 => [0; 3] | 8 => [3]
  | 7 => [0; 1; 2] | 6 => [1; 2] | 5 => [0; 2] | 4 => [2] | 3 => [0; 1] | 2 => [1] | 1 => [0] | _ => []
  end.

Fixpoint add_entries (mat l : list Z) (sum : Z) : option Z :=
  match l with [] => Some sum | i :: l => x ← byte_at mat i; add_entries mat l (Z.lxor sum x) end.

Fixpoint times_loop (n : nat) (mat : list Z) (vec sum : Z) : option Z :=
  if vec =? 0 then Some sum
  else match n with
  | O => None
  | S n => sum ← add_entries mat (case_entries (Z.land vec 15)) sum; times_loop n (drop 4 mat) (Z.shiftr vec 4) sum
  end.

Definition gf2_matrix_times_switch (mat : list Z) (vec : Z) : option Z := times_loop 16 mat vec 0.

(** The new row; [square] and [mat] are different rows wherever it is called. *)
Definition gf2_matrix_square (square mat : list Z) (dim : nat) : option (list Z) :=
  l ← mapM (fun n => v ← mat !! n; gf2_matrix_times_switch mat v) (seq 0 dim); Some (l ++ drop dim square).

Definition square_into (cache : list (list Z)) (dst src : nat) (dim : nat) : option (list (list Z)) :=
  square ← cache !! dst; mat ← cache !! src; row ← gf2_matrix_square square mat dim; Some (<[dst:=row]> cache).

(** The rows after the first, each from the one before. *)
Fixpoint square_rows (n : nat) (cache : list (list Z)) (cache_num : nat) (dim : nat) : option (list (list Z)) :=
  match n with
  | O => Some cache
  | S n => cache ← square_into cache cache_num (cache_num - 1) dim; square_rows n cache (S cache_num) dim
  end.

Definition init_combine_cache (cache : list (list Z)) (poly : Z) (dim : nat) : option (list (list Z)) :=
  old ← cache !! 1%nat;
  let cache := <[1%nat:=poly :: map (fun n => u64 (Z.shiftl 1 n)) (seqZ 0 (Z.of_nat dim - 1)) ++ drop dim old]> cache in
  cache ← square_into cache 0 1 dim;
  cache ← square_into cache 1 0 dim;
  cache ← square_into cache 0 1 dim;
  square_rows 63 cache 1 dim.

Fixpoint combine_loop (n : nat) (cache : list (list Z)) (crc1 len2 cache_num : Z) : option Z :=
  match n with
  | O => None
  | S n =>
      crc1 ← (if negb (Z.land len2 1 =? 0) then mat ← cache !! Z.to_nat cache_num; gf2_matrix_times_switch mat crc1 else Some crc1);
      let len2 := Z.shiftr len2 1 in
      let cache_num := Z.land (cache_num + 1) 63 in
      if negb (len2 =? 0) then combine_loop n cache crc1 len2 cache_num else Some crc1
  end.

(** The checksum and the cache, which the first call fills. *)
Definition crc64_combine (cache : list (list Z)) (crc1 crc2 len2 poly : Z) (dim : nat) : option (Z * list (list Z)) :=
  if len2 =? 0 then Some (crc1, cache)
  else
    c00 ← cell cache 0 0;
    cache ← (if c00 =? 0 then init_combine_cache cache poly dim else Some cache);
    crc1 ← combine_loop 64 cache crc1 len2 0;
    Some (Z.lxor crc1 crc2, cache).

(** ** Words at once *)

Section Speed.
Variables (t : list (list Z)) (buf : list Z).

(** [DO_8_1] *)
Definition DO_8_1 (crc next : Z) : option (Z * Z) := w ← mem_read buf next 8; Some (Z.lxor crc (le_val w), next + 8).

Definition DO_8_2 (crc : Z) : option Z :=
  x7 ← cell t 7 (u8 crc); x6 ← cell t 6 (u8 (Z.shiftr crc 8)); x5 ← cell t 5 (u8 (Z.shiftr crc 16)); x4 ← cell t 4 (u8 (Z.shiftr crc 24));
  x3 ← cell t 3 (u8 (Z.shiftr crc 32)); x2 ← cell t 2 (u8 (Z.shiftr crc 40)); x1 ← cell t 1 (u8 (Z.shiftr crc 48)); x0 ← cell t 0 (Z.shiftr crc 56);
  Some (Z.lxor (Z.lxor (Z.lxor (Z.lxor (Z.lxor (Z.lxor (Z.lxor x7 x6) x5) x4) x3) x2) x1) x0).

(** The bytes up to an aligned address; [addr] is the address of the buffer. *)
Fixpoint align_loop (n : nat) (addr crc1 next1 len : Z) : option (Z * Z * Z) :=
  if negb (len =? 0) && negb (Z.land (addr + next1) 7 =? 0) then
    match n with O => None | S n => b ← byte_at buf next1; crc1 ← table_byte t crc1 b; align_loop n addr crc1 (next1 + 1) (len - 1) end
  else Some (crc1, next1, len).

Fixpoint words3 (n : nat) (crc1 crc2 crc3 next1 next2 next3 len : Z) : option (Z * Z * Z * Z * Z * Z) :=
  if len >=? 8 then
    match n with
    | O => None
    | S n =>
        '(crc1, next1) ← DO_8_1 crc1 next1; '(crc2, next2) ← DO_8_1 crc2 next2; '(crc3, next3) ← DO_8_1 crc3 next3;
        crc1 ← DO_8_2 crc1; crc2 ← DO_8_2 crc2; crc3 ← DO_8_2 crc3;
        words3 n crc1 crc2 crc3 next1 next2 next3 (len - 8)
    end
  else Some (crc1, crc2, crc3, next1, next2, next3).

Fixpoint words2 (n : nat) (crc1 crc2 next1 next2 len : Z) : option (Z * Z * Z * Z) :=
  if len >=? 8 then
    match n with
    | O => None
    | S n =>
        '(crc1, next1) ← DO_8_1 crc1 next1; '(crc2, next2) ← DO_8_1 crc2 next2;
        crc1 ← DO_8_2 crc1; crc2 ← DO_8_2 crc2;
        words2 n crc1 crc2 next1 next2 (len - 8)
    end
  else Some (crc1, crc2, next1, next2).

Fixpoint words1 (n : nat) (crc1 next1 len : Z) : option (Z * Z * Z) :=
  if len >=? 8 then
    match n with
    | O => None
    | S n => '(crc1, next1) ← DO_8_1 crc1 next1; crc1 ← DO_8_2 crc1; words1 n crc1 next1 (len - 8)
    end
  else Some (crc1, next1, len).

(** From the label [final]. *)
Fixpoint last_loop (n : nat) (crc1 next1 len : Z) : option Z :=
  if negb (len =? 0) then
    match n with O => None | S n => b ← byte_at buf next1; crc1 ← table_byte t crc1 b; last_loop n crc1 (next1 + 1) (len - 1) end
  else Some crc1.

(** [CRC64_SPLIT]: the length of a segment *)
Definition CRC64_SPLIT (len div : Z) : Z := Z.land (len / div) CRC64_LEN_MASK.

(** The three or two segments, joined: the checksum, the position, the length left. *)
Definition split3 (cache : list (list Z)) (crc1 next1 len : Z) : option (Z * Z * Z * list (list Z)) :=
  let olen := len in
  let len := CRC64_SPLIT len 3 in
  let next2 := next1 + len in
  let next3 := next2 + len in
  '(crc1, crc2, crc3, next1, next2, next3) ← words3 (length buf) crc1 0 0 next1 next2 next3 len;
  '(crc1, cache) ← crc64_combine cache crc1 crc2 (next2 - next1) CRC64_REVERSED_POLY 64;
  '(crc1, cache) ← crc64_combine cache crc1 crc3 (next2 - next1) CRC64_REVERSED_POLY 64;
  Some (crc1, next3, olen - (next2 - next1) * 3, cache).

Definition split2 (cache : list (list Z)) (crc1 next1 len : Z) : option (Z * Z * Z * list (list Z)) :=
  let olen := len in
  let len := CRC64_SPLIT len 2 in
  let next2 := next1 + len in
  '(crc1, crc2, next1, next2) ← words2 (length buf) crc1 0 next1 next2 len;
  '(crc1, cache) ← crc64_combine cache crc1 crc2 (next2 - next1) CRC64_REVERSED_POLY 64;
  Some (crc1, next2, olen - (next2 - next1) * 2, cache).

Definition crcspeed64little (dual tri : Z) (cache : list (list Z)) (crc1 addr : Z) : option (Z * list (list Z)) :=
  let len := zlen buf in
  if dual <? 1 then crc ← last_loop (length buf) crc1 0 len; Some (crc, cache)
  else
    '(crc1, next1, len) ← align_loop (length buf) addr crc1 0 len;
    '(crc1, next1, len, cache) ← (if len >? tri then split3 cache crc1 next1 len
                                  else if len >? dual then split2 cache crc1 next1 len
                                  else Some (crc1, next1, len, cache));
    '(crc1, next1, len) ← words1 (length buf) crc1 next1 len;
    crc ← last_loop (length buf) crc1 next1 len;
    Some (crc, cache).
End Speed.

(** On a little-endian host [crcspeed64native] is the routine above. *)
Definition crc64_init : option (list (list Z)) := crcspeed64little_init _crc64.

Definition crc64 (t : list (list Z)) (dual tri : Z) (cache : list (list Z)) (crc addr : Z) (s : list Z) : option (Z * list (list Z)) :=
  crcspeed64little t s dual tri cache crc addr.

(** ** Shifting by bits *)

(** One bit of the reflected register. *)
Definition rstep (c : Z) : Z := if Z.odd c then Z.lxor (Z.shiftr c 1) CRC64_REVERSED_POLY else Z.shiftr c 1.

Definition steps (n : nat) (c : Z) : Z := Nat.iter n rstep c.

Definition additive (f : Z -> Z) : Prop := forall a b, f (Z.lxor a b) = Z.lxor (f a) (f b).

Lemma additive_0 f : additive f -> f 0 = 0.
Proof. intros A. specialize (A 0 0). by rewrite Z.lxor_nilpotent, Z.lxor_nilpotent in A. Qed.

Lemma odd_lxor a b : Z.odd (Z.lxor a b) = xorb (Z.odd a) (Z.odd b).
Proof. by rewrite <- !Z.bit0_odd, Z.lxor_spec. Qed.

Lemma rstep_additive : additive rstep.
Proof.
  intros a b. unfold rstep. rewrite odd_lxor, Z.shiftr_lxor. destruct (Z.odd a), (Z.odd b); cbn [xorb].
  - rewrite (Z.lxor_comm (Z.shiftr b 1)), Z.lxor_assoc, <- (Z.lxor_assoc CRC64_REVERSED_POLY), Z.lxor_nilpotent. by rewrite Z.lxor_0_l.
  - by rewrite !Z.lxor_assoc, (Z.lxor_comm (Z.shiftr b 1)).
  - by rewrite Z.lxor_assoc.
  - done.
Qed.

Lemma additive_comp f g : additive f -> additive g -> additive (fun x => f (g x)).
Proof. intros F G a b. by rewrite G, F. Qed.

Lemma steps_additive n : additive (steps n).
Proof. induction n as [|n IH]; [done|]. exact (additive_comp rstep (steps n) rstep_additive IH). Qed.

Lemma steps_add m n c : steps (m + n) c = steps m (steps n c).
Proof. apply Nat.iter_add. Qed.

(** Additive functions that agree on the powers of two agree on all words. *)
Lemma additive_ext f g w : 0 <= w -> additive f -> additive g -> (forall i, 0 <= i < w -> f (2 ^ i) = g (2 ^ i)) -> forall x, 0 <= x < 2 ^ w -> f x = g x.
Proof.
  intros Hw F G. revert w Hw. apply (natlike_ind (fun w => (forall i, 0 <= i < w -> f (2 ^ i) = g (2 ^ i)) -> forall x, 0 <= x < 2 ^ w -> f x = g x)).
  - intros _ x Hx. assert (x = 0) as -> by lia. by rewrite !additive_0.
  - intros w Hw IH E x Hx. rewrite Z.pow_succ_r in Hx by lia. destruct (Z.lt_ge_cases x (2 ^ w)); [apply IH; [intros i Hi; apply E; lia|lia]|].
    assert (x = Z.lxor (Z.shiftl 1 w) (x - 2 ^ w)) as ->.
    { pose proof (lor_shiftl_add 1 (x - 2 ^ w) w Hw ltac:(lia)) as L. rewrite Z.mul_1_l in L. rewrite Z.lxor_lor; [rewrite L; lia|].
      apply Z.bits_inj'. intros i Hi. rewrite Z.land_spec, Z.bits_0, Z.shiftl_mul_pow2, Z.mul_1_l by lia. rewrite Z.pow2_bits_eqb by lia. destruct (Z.eqb_spec w i) as [->|]; [|done]. cbn [andb].
      destruct (Z.eq_dec (x - 2 ^ i) 0) as [->|]; [apply Z.bits_0|]. apply Z.bits_above_log2; [lia|]. apply Z.log2_lt_pow2; lia. }
    rewrite F, G. f_equal; [|apply IH; [intros i Hi; apply E; lia|lia]]. rewrite Z.shiftl_mul_pow2, Z.mul_1_l by lia. apply E. lia.
Qed.

(** ** The two directions *)

Lemma shiftr_additive n : additive (fun x => Z.shiftr x n).
Proof. intros a b. apply Z.shiftr_lxor. Qed.

Lemma land_additive m : additive (fun x => Z.land x m).
Proof. intros a b. apply Z.bits_inj'. intros i Hi. rewrite !Z.land_spec, !Z.lxor_spec, !Z.land_spec. by destruct (Z.testbit a i), (Z.testbit b i), (Z.testbit m i). Qed.

Lemma shiftl_additive n : additive (fun x => Z.shiftl x n).
Proof. intros a b. apply Z.shiftl_lxor. Qed.

Lemma u64_land x : u64 x = Z.land x (2 ^ 64 - 1).
Proof. change (2 ^ 64 - 1) with (Z.ones 64). by rewrite Z.land_ones by lia. Qed.

Lemma u64_additive : additive u64.
Proof. intros a b. rewrite !u64_land. apply (land_additive (2 ^ 64 - 1)). Qed.

(** The two halves of an exchange do not meet. *)
Lemma swap_additive s m : 0 <= s -> Z.land m (Z.shiftl m s) = 0 -> additive (swap s m).
Proof.
  intros Hs Dm. assert (forall x, swap s m x = Z.lxor (Z.land (Z.shiftr x s) m) (u64 (Z.shiftl (Z.land x m) s))) as E.
  { intros x. unfold swap. rewrite Z.lxor_lor; [done|]. apply Z.bits_inj'. intros i Hi. rewrite u64_land, !Z.land_spec, Z.bits_0, Z.shiftl_spec, Z.land_spec by lia.
    assert (Z.testbit m i && Z.testbit m (i - s) = false) as D by (pose proof (f_equal (fun z => Z.testbit z i) Dm) as T; cbn beta in T; by rewrite Z.land_spec, Z.shiftl_spec, Z.bits_0 in T by lia).
    destruct (Z.testbit m i), (Z.testbit m (i - s)); try done; by rewrite ?andb_false_r, ?andb_false_l. }
  intros a b. rewrite !E. rewrite Z.shiftr_lxor, (land_additive m _ _), (land_additive m a b), Z.shiftl_lxor, u64_additive. rewrite !Z.lxor_assoc. f_equal. rewrite <- !Z.lxor_assoc. f_equal. apply Z.lxor_comm.
Qed.

Definition reflect (x : Z) : Z := crc_reflect x 64.

Lemma reflect_additive : additive reflect.
Proof.
  unfold reflect, crc_reflect. intros a b. rewrite !(swap_additive 1), !(swap_additive 2), !(swap_additive 4), !(swap_additive 8), !(swap_additive 16), !(swap_additive 32) by (done || reflexivity).
  apply Z.shiftr_lxor.
Qed.

(** A bit of the register that is not reflected. *)
Definition lstep (crc : Z) : Z := Z.lxor (u64 (Z.shiftl crc 1)) (if Z.testbit crc 63 then POLY else 0).

Lemma lstep_additive : additive lstep.
Proof.
  intros a b. unfold lstep. rewrite Z.shiftl_lxor, u64_additive, Z.lxor_spec. set (x := u64 (Z.shiftl a 1)). set (y := u64 (Z.shiftl b 1)).
  rewrite !Z.lxor_assoc. f_equal. rewrite (Z.lxor_comm _ (Z.lxor y _)), Z.lxor_assoc. f_equal. by destruct (Z.testbit a 63), (Z.testbit b 63).
Qed.

Lemma lxor_u64 a b : is_u64 a -> is_u64 b -> is_u64 (Z.lxor a b).
Proof.
  unfold is_u64. intros Ha Hb. split; [by apply Z.lxor_nonneg; lia|]. destruct (Z.eq_dec (Z.lxor a b) 0) as [->|N]; [done|]. assert (0 <= Z.lxor a b) by (apply Z.lxor_nonneg; lia). apply Z.log2_lt_pow2; [lia|].
  assert (forall x, 0 <= x < 2 ^ 64 -> Z.log2 x < 64) as L by (intros x Hx; destruct (Z.eq_dec x 0) as [->|]; [done|apply Z.log2_lt_pow2; lia]). pose proof (Z.log2_lxor a b ltac:(lia) ltac:(lia)). pose proof (L a Ha). pose proof (L b Hb). lia.
Qed.

Lemma lstep_u64 x : is_u64 (lstep x).
Proof. apply lxor_u64; [apply u64_range|]. by destruct (Z.testbit x 63). Qed.

(** A mask selects a bit. *)
Lemma land_pow2 x j : 0 <= j -> (Z.land x (2 ^ j) =? 0) = negb (Z.testbit x j).
Proof.
  intros Hj. destruct (Z.testbit x j) eqn:T; cbn [negb]; [apply Z.eqb_neq|apply Z.eqb_eq].
  - intros E. pose proof (f_equal (fun z => Z.testbit z j) E) as B. cbn beta in B. by rewrite Z.land_spec, Z.pow2_bits_true, T, Z.bits_0 in B by lia.
  - apply Z.bits_inj'. intros i Hi. rewrite Z.land_spec, Z.bits_0, Z.pow2_bits_eqb by lia. destruct (Z.eqb_spec j i) as [<-|]; [by rewrite T|by rewrite andb_false_r].
Qed.

Lemma crc_bit_step c crc j : 0 <= j -> crc_bit c crc (2 ^ j) = Z.lxor (lstep crc) (if Z.testbit c j then POLY else 0).
Proof.
  intros Hj. unfold crc_bit, lstep. rewrite land_pow2 by lia. pose proof (land_pow2 crc 63 ltac:(lia)) as L. change (2 ^ 63) with 0x8000000000000000 in L. set (top := Z.land crc _) in *.
  destruct (Z.testbit c j); cbn [negb]; rewrite ?L; destruct (Z.testbit crc 63); cbn [negb Z.eqb]; rewrite ?Z.lxor_0_r; try done.
  by rewrite Z.lxor_assoc, Z.lxor_nilpotent, Z.lxor_0_r.
Qed.

(** A bit on either side of the reflection. *)
Lemma reflect_lstep x : is_u64 x -> reflect (lstep x) = rstep (reflect x).
Proof.
  intros Hx. apply (additive_ext (fun x => reflect (lstep x)) (fun x => rstep (reflect x)) 64); [done|apply additive_comp; [apply reflect_additive|apply lstep_additive]|apply additive_comp; [apply rstep_additive|apply reflect_additive]| |done].
  intros i Hi. apply Z.eqb_eq. apply (forall_range (fun i => reflect (lstep (2 ^ i)) =? rstep (reflect (2 ^ i))) 0 64); [vm_compute; reflexivity|lia].
Qed.

Definition feed (c x j : Z) : Z := rstep (Z.lxor x (Z.b2z (Z.testbit c j))).

Lemma reflect_bit c crc j : is_u64 crc -> 0 <= j -> reflect (crc_bit c crc (2 ^ j)) = feed c (reflect crc) j.
Proof.
  intros U Hj. rewrite crc_bit_step, reflect_additive, reflect_lstep by done. unfold feed. rewrite rstep_additive. f_equal. destruct (Z.testbit c j); vm_compute; reflexivity.
Qed.

Lemma crc_bit_u64 c crc j : 0 <= j -> is_u64 (crc_bit c crc (2 ^ j)).
Proof. intros Hj. rewrite crc_bit_step by done. apply lxor_u64; [apply lstep_u64|by destruct (Z.testbit c j)]. Qed.

(** Bits fed one after the other, or all at first. *)
Lemma feed_all c x n : foldl (feed c) x (seqZ 0 (Z.of_nat n)) = Z.lxor (steps n (Z.lxor x c)) (Z.shiftr c (Z.of_nat n)).
Proof.
  induction n as [|n IH]; [cbn; by rewrite Z.shiftr_0_r, Z.lxor_assoc, Z.lxor_nilpotent, Z.lxor_0_r|].
  rewrite Nat2Z.inj_succ, <- Z.add_1_r, seqZ_app by lia. change (seqZ (0 + Z.of_nat n) 1) with [0 + Z.of_nat n]. rewrite foldl_snoc, IH, Z.add_0_l. unfold feed at 1. unfold steps at 2. cbn [Nat.iter]. fold (steps n (Z.lxor x c)). set (y := steps n (Z.lxor x c)).
  assert (forall d, rstep d = Z.lxor (rstep (Z.b2z (Z.odd d))) (Z.shiftr d 1)) as Sp by (intros d; unfold rstep at 1; destruct (Z.odd d); [by rewrite Z.lxor_comm|done]).
  assert (Z.testbit c (Z.of_nat n) = Z.odd (Z.shiftr c (Z.of_nat n))) as -> by (by rewrite <- Z.bit0_odd, Z.shiftr_spec by lia).
  rewrite <- Z.shiftr_shiftr by lia. set (d := Z.shiftr c (Z.of_nat n)). rewrite !rstep_additive, (Sp d). rewrite Z.lxor_assoc. f_equal.
  rewrite (Z.lxor_comm (rstep _) (Z.shiftr d 1)), Z.lxor_assoc, Z.lxor_nilpotent. by rewrite Z.lxor_0_r.
Qed.

(** ** Bytes *)

Definition rbyte (c b : Z) : Z := steps 8 (Z.lxor c b).

(** The reference: the reflected register, byte by byte. *)
Definition rfold (c : Z) (l : list Z) : Z := foldl rbyte c l.

Lemma reflect_bits c js crc : is_u64 crc -> Forall (Z.le 0) js ->
  reflect (foldl (crc_bit c) crc (map (fun j => 2 ^ j) js)) = foldl (feed c) (reflect crc) js /\ is_u64 (foldl (crc_bit c) crc (map (fun j => 2 ^ j) js)).
Proof.
  intros U F. revert crc U. induction F as [|j js Hj _ IH]; intros crc U; [done|]. cbn [map foldl]. destruct (IH (crc_bit c crc (2 ^ j)) (crc_bit_u64 c crc j Hj)) as [-> ?]. split; [|done]. by rewrite reflect_bit.
Qed.

Lemma reflect_byte crc c : is_u64 crc -> is_u8 c -> reflect (crc_byte crc c) = rbyte (reflect crc) c /\ is_u64 (crc_byte crc c).
Proof.
  intros U Hc. destruct (reflect_bits c (seqZ 0 8) crc U) as [R U']; [eapply bool_decide_unpack; vm_compute; exact I|]. unfold crc_byte. change (map (fun j => 2 ^ j) (seqZ 0 8)) with [1; 2; 4; 8; 16; 32; 64; 128] in *.
  change 0xffffffffffffffff with (2 ^ 64 - 1). rewrite <- u64_land, u64_small by done. split; [|done]. pose proof (feed_all c (reflect crc) 8) as FA. change (Z.of_nat 8) with 8 in FA. assert (Z.shiftr c 8 = 0) as Z0 by (rewrite Z.shiftr_div_pow2 by lia; apply Z.div_small; exact Hc).
  rewrite Z0, Z.lxor_0_r in FA. unfold rbyte. rewrite <- FA. exact R.
Qed.

Lemma bitwise_spec crc l : is_u64 crc -> Forall is_u8 l -> _crc64 crc l = rfold (reflect crc) l.
Proof.
  intros U F. unfold _crc64. rewrite Z.lxor_0_r. enough (forall crc, is_u64 crc -> reflect (foldl crc_byte crc l) = rfold (reflect crc) l /\ is_u64 (foldl crc_byte crc l)) as E.
  { destruct (E crc U) as [E1 E2]. change 0xffffffffffffffff with (2 ^ 64 - 1). by rewrite <- u64_land, u64_small. }
  clear crc U. induction F as [|b l Hb _ IH]; intros crc U; [done|]. unfold rfold. cbn [foldl]. destruct (reflect_byte crc b U Hb) as [<- U']. by apply IH.
Qed.

Lemma basis_ext f g : additive f -> additive g -> forallb (fun i => f (2 ^ i) =? g (2 ^ i)) (seqZ 0 64) = true -> forall x, is_u64 x -> f x = g x.
Proof. intros F G E x Hx. apply (additive_ext f g 64); [done|done|done| |done]. intros i Hi. apply Z.eqb_eq. by apply (forall_range (fun i => f (2 ^ i) =? g (2 ^ i)) 0 64). Qed.

Lemma reflect_u64 x : is_u64 x -> is_u64 (reflect x).
Proof. intros Hx. rewrite (basis_ext reflect (fun x => u64 (reflect x))); [apply u64_range|apply reflect_additive|apply additive_comp; [apply u64_additive|apply reflect_additive]|vm_compute; reflexivity|done]. Qed.

Lemma reflect_twice x : is_u64 x -> reflect (reflect x) = x.
Proof. apply (basis_ext (fun x => reflect (reflect x)) (fun x => x)); [apply additive_comp; apply reflect_additive|done|vm_compute; reflexivity]. Qed.

Lemma rstep_u64 x : is_u64 x -> is_u64 (rstep x).
Proof.
  intros Hx. assert (is_u64 (Z.shiftr x 1)) by (rewrite Z.shiftr_div_pow2 by lia; unfold is_u64 in *; split; [apply Z.div_pos; lia|apply Z.div_lt_upper_bound; lia]). unfold rstep. destruct (Z.odd x); [by apply lxor_u64|done].
Qed.

Lemma steps_u64 n x : is_u64 x -> is_u64 (steps n x).
Proof. intros Hx. induction n as [|n IH]; [done|]. by apply rstep_u64. Qed.

Lemma u8_u64 b : is_u8 b -> is_u64 b.
Proof. unfold is_u8, is_u64. lia. Qed.

Lemma rfold_u64 l c : is_u64 c -> Forall is_u8 l -> is_u64 (rfold c l).
Proof. intros Hc F. revert c Hc. induction F as [|b l Hb _ IH]; intros c Hc; [done|]. apply IH. by apply steps_u64, lxor_u64; [|apply u8_u64]. Qed.

Lemma rfold_app c a b : rfold c (a ++ b) = rfold (rfold c a) b.
Proof. apply foldl_app. Qed.

(** ** Words *)

Lemma steps_shiftl n y : steps n (Z.shiftl y (Z.of_nat n)) = y.
Proof.
  induction n as [|n IH]; [apply Z.shiftl_0_r|]. replace (S n) with (n + 1)%nat by lia. rewrite steps_add. assert (steps 1 (Z.shiftl y (Z.of_nat (n + 1))) = Z.shiftl y (Z.of_nat n)) as ->; [|done].
  change (steps 1 ?x) with (rstep x). unfold rstep. rewrite <- Z.bit0_odd, Z.shiftl_spec_low by lia. rewrite Z.shiftr_shiftl_l by lia. by replace (Z.of_nat (n + 1) - 1) with (Z.of_nat n) by lia.
Qed.

(** A word and its lower bits. *)
Lemma low_bits x n : 0 <= n -> x = Z.lxor (Z.land x (Z.ones n)) (Z.shiftl (Z.shiftr x n) n).
Proof.
  intros Hn. apply Z.bits_inj'. intros i Hi. rewrite Z.lxor_spec, Z.land_spec, Z.shiftl_spec by lia. destruct (Z.lt_ge_cases i n).
  - rewrite Z.ones_spec_low, (Z.testbit_neg_r _ (i - n)) by lia. by rewrite andb_true_r, xorb_false_r.
  - rewrite Z.ones_spec_high, Z.shiftr_spec by lia. rewrite andb_false_r, xorb_false_l. f_equal. lia.
Qed.

Lemma steps8 x : steps 8 x = Z.lxor (steps 8 (Z.land x 255)) (Z.shiftr x 8).
Proof. rewrite (low_bits x 8) at 1 by lia. rewrite steps_additive. f_equal. apply (steps_shiftl 8). Qed.

Lemma steps_peel n x : steps (n + 8) x = Z.lxor (steps (n + 8) (Z.land x 255)) (steps n (Z.shiftr x 8)).
Proof. rewrite !(steps_add n 8), (steps8 x) at 1. apply steps_additive. Qed.

Lemma le_val_lxor b l : is_u8 b -> le_val (b :: l) = Z.lxor b (Z.shiftl (le_val l) 8).
Proof.
  intros Hb. cbn [le_val]. pose proof (lor_shiftl_add (le_val l) b 8 ltac:(lia) Hb) as L. rewrite Z.lxor_comm, Z.lxor_lor; [rewrite L; lia|]. apply Z.bits_inj'. intros i Hi. rewrite Z.land_spec, Z.bits_0, Z.shiftl_spec by lia.
  destruct (Z.lt_ge_cases i 8); [by rewrite (Z.testbit_neg_r _ (i - 8)) by lia|]. unfold is_u8 in Hb. destruct (Z.eq_dec b 0) as [->|]; [by rewrite Z.bits_0, andb_false_r|].
  rewrite (Z.bits_above_log2 b), andb_false_r; [done|lia|]. assert (Z.log2 b < 8) by (apply Z.log2_lt_pow2; lia). lia.
Qed.

Lemma rfold_val c l : Forall is_u8 l -> rfold c l = steps (8 * length l) (Z.lxor c (le_val l)).
Proof.
  intros F. revert c. induction F as [|b l Hb _ IH]; intros c; [cbn; by rewrite Z.lxor_0_r|]. unfold rfold. cbn [foldl]. fold (rfold (rbyte c b) l). rewrite IH, le_val_lxor by done. cbn [length].
  replace (8 * S (length l))%nat with (8 * length l + 8)%nat by lia. rewrite steps_add. f_equal. rewrite <- Z.lxor_assoc, steps_additive. unfold rbyte. f_equal. symmetry. apply (steps_shiftl 8).
Qed.

(** The first part only has to be moved on by as many zeros as the rest has. *)
Lemma rfold_join c a b : Forall is_u8 b -> rfold c (a ++ b) = Z.lxor (steps (8 * length b) (rfold c a)) (rfold 0 b).
Proof. intros F. rewrite rfold_app, !(rfold_val _ b) by done. rewrite Z.lxor_0_l. apply steps_additive. Qed.

(** ** The tables *)

Definition table_ok (t : list (list Z)) : Prop := forall k n, (k < 8)%nat -> 0 <= n < 256 -> cell t k n = Some (steps (8 * (k + 1)) n).

Definition table_check (t : list (list Z)) : bool :=
  forallb (fun k => forallb (fun n => bool_decide (cell t k n = Some (steps (8 * (k + 1)) n))) (seqZ 0 256)) (seq 0 8).

Lemma table_check_ok t : table_check t = true -> table_ok t.
Proof.
  intros E k n Hk Hn. unfold table_check in E. rewrite forallb_forall in E. specialize (E k ltac:(apply in_seq; lia)). rewrite forallb_forall in E.
  specialize (E n ltac:(apply list_elem_of_In, elem_of_seqZ; lia)). by apply bool_decide_eq_true in E.
Qed.

Lemma init_table : exists t, crc64_init = Some t /\ table_ok t.
Proof.
  assert (match crc64_init with Some t => table_check t | None => false end = true) as E by (vm_cast_no_check (eq_refl true)). destruct crc64_init as [t|]; [|done]. exists t. split; [done|]. by apply table_check_ok.
Qed.

Lemma land255_range x : 0 <= Z.land x 255 < 256.
Proof. change 255 with (Z.ones 8). rewrite Z.land_ones by lia. apply Z.mod_pos_bound. lia. Qed.

Section Table.
Variables (t : list (list Z)) (buf : list Z).
Hypothesis T : table_ok t.
Hypothesis bytes : Forall is_u8 buf.

Lemma table_byte_spec crc b : is_u8 b -> table_byte t crc b = Some (rbyte crc b).
Proof.
  intros Hb. unfold table_byte. rewrite T by (lia || apply land255_range). cbn [mbind option_bind]. f_equal. unfold rbyte. rewrite (steps8 (Z.lxor crc b)). f_equal. rewrite Z.shiftr_lxor.
  rewrite (Z.shiftr_div_pow2 b) by lia. rewrite Z.div_small by exact Hb. by rewrite Z.lxor_0_r.
Qed.

Lemma u8_land x : u8 x = Z.land x 255.
Proof. change 255 with (Z.ones 8). by rewrite Z.land_ones by lia. Qed.

Lemma DO_8_2_spec crc : is_u64 crc -> DO_8_2 t crc = Some (steps 64 crc).
Proof.
  intros U. unfold DO_8_2. assert (0 <= Z.shiftr crc 56 < 256) as R by (rewrite Z.shiftr_div_pow2 by lia; unfold is_u64 in U; split; [apply Z.div_pos; lia|apply Z.div_lt_upper_bound; lia]).
  rewrite !u8_land, !T by first [apply land255_range|lia]. cbn [mbind option_bind]. f_equal. pose proof (steps_peel 56 crc) as P7. pose proof (steps_peel 48 (Z.shiftr crc 8)) as P6. pose proof (steps_peel 40 (Z.shiftr crc 16)) as P5. pose proof (steps_peel 32 (Z.shiftr crc 24)) as P4.
  pose proof (steps_peel 24 (Z.shiftr crc 32)) as P3. pose proof (steps_peel 16 (Z.shiftr crc 40)) as P2. pose proof (steps_peel 8 (Z.shiftr crc 48)) as P1. rewrite Z.shiftr_shiftr in P1, P2, P3, P4, P5, P6 by lia.
  change (8 + 8) with 16 in P6. change (16 + 8) with 24 in P5. change (24 + 8) with 32 in P4. change (32 + 8) with 40 in P3. change (40 + 8) with 48 in P2. change (48 + 8) with 56 in P1.
  cbn [Nat.add Nat.mul] in *. by rewrite P7, P6, P5, P4, P3, P2, P1, !Z.lxor_assoc.
Qed.

Definition slice (p n : Z) : list Z := take (Z.to_nat n) (drop (Z.to_nat p) buf).

Lemma slice_split p a b : 0 <= p -> 0 <= a -> 0 <= b -> slice p (a + b) = slice p a ++ slice (p + a) b.
Proof. intros Hp Ha Hb. unfold slice. rewrite Z2Nat.inj_add, <- take_take_drop, drop_drop by lia. by replace (Z.to_nat p + Z.to_nat a)%nat with (Z.to_nat (p + a)) by lia. Qed.

Lemma slice_bytes p n : Forall is_u8 (slice p n).
Proof. by apply Forall_take, Forall_drop. Qed.

Lemma slice_length p n : 0 <= p -> 0 <= n -> p + n <= zlen buf -> length (slice p n) = Z.to_nat n.
Proof. intros Hp Hn H. unfold slice. rewrite length_take, length_drop. unfold zlen in H. lia. Qed.

Lemma slice_0 p : slice p 0 = [].
Proof. done. Qed.

(** One word of one of the streams. *)
Lemma word_spec crc p : is_u64 crc -> 0 <= p -> p + 8 <= zlen buf ->
  exists c, DO_8_1 buf crc p = Some (c, p + 8) /\ DO_8_2 t c = Some (rfold crc (slice p 8)).
Proof.
  intros U Hp H. unfold DO_8_1, mem_read. zdec. fold (slice p 8). cbn [mbind option_bind]. eexists. split; [done|]. pose proof (le_val_range _ (slice_bytes p 8)) as V.
  assert (zlen (slice p 8) = 8) as E by (unfold zlen; rewrite slice_length by lia; done). rewrite E in V. rewrite DO_8_2_spec by (by apply lxor_u64). rewrite rfold_val by apply slice_bytes. by rewrite slice_length by lia.
Qed.

Lemma byte_step crc p : 0 <= p -> p + 1 <= zlen buf -> exists b, byte_at buf p = Some b /\ table_byte t crc b = Some (rfold crc (slice p 1)).
Proof.
  intros Hp H. destruct (byte_at_some buf p ltac:(lia)) as [b Hb]. exists b. split; [done|]. unfold byte_at in Hb. destruct (Z.ltb_spec p 0); [lia|]. rewrite table_byte_spec by (by eapply Forall_lookup_1).
  assert (slice p 1 = [b]) as ->; [|done]. unfold slice. change (Z.to_nat 1) with 1%nat. rewrite (drop_S _ b) by done. done.
Qed.

Lemma slice_word crc p n : 0 <= p -> 0 <= n -> rfold (rfold crc (slice p 8)) (slice (p + 8) n) = rfold crc (slice p (8 + n)).
Proof. intros Hp Hn. by rewrite <- rfold_app, <- slice_split by lia. Qed.

Lemma words3_spec : forall n q c1 c2 c3 p1 p2 p3, (q <= n)%nat -> is_u64 c1 -> is_u64 c2 -> is_u64 c3 -> let len := 8 * Z.of_nat q in
  0 <= p1 -> 0 <= p2 -> 0 <= p3 -> p1 + len <= zlen buf -> p2 + len <= zlen buf -> p3 + len <= zlen buf ->
  words3 t buf n c1 c2 c3 p1 p2 p3 len = Some (rfold c1 (slice p1 len), rfold c2 (slice p2 len), rfold c3 (slice p3 len), p1 + len, p2 + len, p3 + len).
Proof.
  induction n as [|n IH]; intros q c1 c2 c3 p1 p2 p3 Hq U1 U2 U3 len P1 P2 P3 H1 H2 H3; cbn [words3]; rewrite Z.geb_leb; (destruct (Z.leb_spec 8 len) as [L|L]; [|assert (len = 0) as -> by lia; by rewrite !slice_0, !Z.add_0_r]); [lia|].
  destruct q as [|q]; [lia|]. destruct (word_spec c1 p1 U1 P1 ltac:(lia)) as (d1 & -> & E1). destruct (word_spec c2 p2 U2 P2 ltac:(lia)) as (d2 & -> & E2). destruct (word_spec c3 p3 U3 P3 ltac:(lia)) as (d3 & -> & E3).
  cbn [mbind option_bind]. rewrite E1, E2, E3. cbn [mbind option_bind]. replace (len - 8) with (8 * Z.of_nat q) by lia.
  rewrite (IH q) by (try lia; by apply rfold_u64, slice_bytes). rewrite !slice_word by lia. replace (8 + 8 * Z.of_nat q) with len by lia.
  replace (p1 + 8 + 8 * Z.of_nat q) with (p1 + len) by lia. replace (p2 + 8 + 8 * Z.of_nat q) with (p2 + len) by lia. by replace (p3 + 8 + 8 * Z.of_nat q) with (p3 + len) by lia.
Qed.

Lemma words2_spec : forall n q c1 c2 p1 p2, (q <= n)%nat -> is_u64 c1 -> is_u64 c2 -> let len := 8 * Z.of_nat q in
  0 <= p1 -> 0 <= p2 -> p1 + len <= zlen buf -> p2 + len <= zlen buf ->
  words2 t buf n c1 c2 p1 p2 len = Some (rfold c1 (slice p1 len), rfold c2 (slice p2 len), p1 + len, p2 + len).
Proof.
  induction n as [|n IH]; intros q c1 c2 p1 p2 Hq U1 U2 len P1 P2 H1 H2; cbn [words2]; rewrite Z.geb_leb; (destruct (Z.leb_spec 8 len) as [L|L]; [|assert (len = 0) as -> by lia; by rewrite !slice_0, !Z.add_0_r]); [lia|].
  destruct q as [|q]; [lia|]. destruct (word_spec c1 p1 U1 P1 ltac:(lia)) as (d1 & -> & E1). destruct (word_spec c2 p2 U2 P2 ltac:(lia)) as (d2 & -> & E2).
  cbn [mbind option_bind]. rewrite E1, E2. cbn [mbind option_bind]. replace (len - 8) with (8 * Z.of_nat q) by lia.
  rewrite (IH q) by (try lia; by apply rfold_u64, slice_bytes). rewrite !slice_word by lia. replace (8 + 8 * Z.of_nat q) with len by lia.
  replace (p1 + 8 + 8 * Z.of_nat q) with (p1 + len) by lia. by replace (p2 + 8 + 8 * Z.of_nat q) with (p2 + len) by lia.
Qed.

Lemma words1_spec : forall n c p len, len <= Z.of_nat n -> is_u64 c -> 0 <= p -> 0 <= len -> p + len <= zlen buf ->
  exists k, words1 t buf n c p len = Some (rfold c (slice p k), p + k, len - k) /\ 0 <= k <= len.
Proof.
  induction n as [|n IH]; intros c p len Hl U P L H; cbn [words1]; rewrite Z.geb_leb; (destruct (Z.leb_spec 8 len); [|exists 0; split; [rewrite slice_0, Z.add_0_r, Z.sub_0_r; done|lia]]); [lia|].
  destruct (word_spec c p U P ltac:(lia)) as (d & -> & E). cbn [mbind option_bind]. rewrite E. cbn [mbind option_bind]. destruct (IH (rfold c (slice p 8)) (p + 8) (len - 8)) as (k & -> & Hk); [lia|apply rfold_u64; [done|apply slice_bytes]|lia|lia|lia|].
  exists (8 + k). rewrite slice_word by lia. replace (p + 8 + k) with (p + (8 + k)) by lia. replace (len - 8 - k) with (len - (8 + k)) by lia. split; [done|lia].
Qed.

Lemma align_loop_spec addr : forall n c p len, len <= Z.of_nat n -> 0 <= p -> 0 <= len -> p + len <= zlen buf ->
  exists k, align_loop t buf n addr c p len = Some (rfold c (slice p k), p + k, len - k) /\ 0 <= k <= len.
Proof.
  induction n as [|n IH]; intros c p len Hl P L H; cbn [align_loop]; (destruct (negb (len =? 0) && _) eqn:C; [|exists 0; split; [rewrite slice_0, Z.add_0_r, Z.sub_0_r; done|lia]]); [lia|].
  destruct (byte_step c p P ltac:(lia)) as (b & -> & E). cbn [mbind option_bind]. rewrite E. cbn [mbind option_bind]. destruct (IH (rfold c (slice p 1)) (p + 1) (len - 1)) as (k & -> & Hk); [lia|lia|lia|lia|].
  exists (1 + k). rewrite <- rfold_app, <- slice_split by lia. replace (p + 1 + k) with (p + (1 + k)) by lia. replace (len - 1 - k) with (len - (1 + k)) by lia. split; [done|lia].
Qed.

Lemma last_spec : forall n c p len, len <= Z.of_nat n -> 0 <= p -> 0 <= len -> p + len <= zlen buf -> last_loop t buf n c p len = Some (rfold c (slice p len)).
Proof.
  induction n as [|n IH]; intros c p len Hl P L H; cbn [last_loop]; (destruct (Z.eqb_spec len 0) as [->|]; [done|]); cbn [negb]; [lia|].
  destruct (byte_step c p P ltac:(lia)) as (b & -> & E). cbn [mbind option_bind]. rewrite E. cbn [mbind option_bind]. rewrite IH by lia. rewrite <- rfold_app, <- slice_split by lia. do 3 f_equal. lia.
Qed.

End Table.

(** ** The matrices *)

(** The matrix of [e] steps. *)
Definition mat_ok (mat : list Z) (e : nat) : Prop := length mat = 64%nat /\ forall i, 0 <= i < 64 -> byte_at mat i = Some (steps e (2 ^ i)).

Lemma entries_spec g mat sum v : additive g -> (forall i, 0 <= i < 4 -> byte_at mat i = Some (g (2 ^ i))) -> 0 <= v < 16 -> add_entries mat (case_entries v) sum = Some (Z.lxor sum (g v)).
Proof.
  intros A M Hv. pose proof (M 0 ltac:(lia)) as M0. pose proof (M 1 ltac:(lia)) as M1. pose proof (M 2 ltac:(lia)) as M2. pose proof (M 3 ltac:(lia)) as M3. change (2 ^ 0) with 1 in M0. change (2 ^ 1) with 2 in M1. change (2 ^ 2) with 4 in M2. change (2 ^ 3) with 8 in M3.
  assert (v ∈ seqZ 0 16) as E by (apply elem_of_seqZ; lia). change (seqZ 0 16) with [0; 1; 2; 3; 4; 5; 6; 7; 8; 9; 10; 11; 12; 13; 14; 15] in E.
  repeat (apply elem_of_cons in E as [->|E]; [cbn [case_entries add_entries]; rewrite ?M0, ?M1, ?M2, ?M3; cbn [mbind option_bind]; f_equal; rewrite ?Z.lxor_assoc, <- ?A, ?(additive_0 g A), ?Z.lxor_0_r; reflexivity|]). by apply elem_of_nil in E.
Qed.

Lemma byte_at_drop m k i : 0 <= i -> byte_at (drop k m) i = byte_at m (Z.of_nat k + i).
Proof. intros Hi. unfold byte_at. zdec. rewrite lookup_drop. f_equal. lia. Qed.

Lemma times_spec mat e v : mat_ok mat e -> is_u64 v -> gf2_matrix_times_switch mat v = Some (steps e v).
Proof.
  intros [_ M] Hv. enough (forall n j vec sum, (n + j = 16)%nat -> 0 <= vec < 2 ^ (4 * Z.of_nat n) -> times_loop n (drop (4 * j) mat) vec sum = Some (Z.lxor sum (steps e (Z.shiftl vec (4 * Z.of_nat j))))) as L.
  { unfold gf2_matrix_times_switch. change mat with (drop (4 * 0) mat). by rewrite L, Z.shiftl_0_r, Z.lxor_0_l. }
  induction n as [|n IH]; intros j vec sum Hj Hvec; cbn [times_loop]; (destruct (Z.eqb_spec vec 0) as [->|Nz]; [by rewrite Z.shiftl_0_l, additive_0, Z.lxor_0_r by apply steps_additive|]); [lia|].
  assert (0 <= Z.land vec 15 < 16) as R by (change 15 with (Z.ones 4); rewrite Z.land_ones by lia; apply Z.mod_pos_bound; lia).
  rewrite (entries_spec (fun y => steps e (Z.shiftl y (4 * Z.of_nat j)))); [|apply (additive_comp (steps e)); [apply steps_additive|apply shiftl_additive]| |done]; cycle 1.
  { intros i Hi. rewrite byte_at_drop, M by lia. f_equal. f_equal. rewrite Z.shiftl_mul_pow2, <- Z.pow_add_r by lia. f_equal. lia. }
  cbn [mbind option_bind]. rewrite drop_drop. replace (4 * j + 4)%nat with (4 * S j)%nat by lia. rewrite IH; [|lia|].
  - rewrite Z.lxor_assoc, <- steps_additive. do 3 f_equal. replace (4 * Z.of_nat (S j)) with (4 + 4 * Z.of_nat j) by lia. rewrite <- Z.shiftl_shiftl, <- Z.shiftl_lxor by lia. f_equal. symmetry. by apply (low_bits vec 4).
  - rewrite Z.shiftr_div_pow2 by lia. split; [apply Z.div_pos; lia|apply Z.div_lt_upper_bound; [lia|]]. rewrite <- Z.pow_add_r by lia. replace (4 + 4 * Z.of_nat n) with (4 * Z.of_nat (S n)) by lia. apply Hvec.
Qed.

Lemma square_spec square mat e : mat_ok mat e -> length square = 64%nat -> exists row, gf2_matrix_square square mat 64 = Some row /\ mat_ok row (e + e).
Proof.
  intros M L. unfold gf2_matrix_square. assert (mapM (fun n => v ← mat !! n; gf2_matrix_times_switch mat v) (seq 0 64) = Some (map (fun n => steps (e + e) (2 ^ Z.of_nat n)) (seq 0 64))) as ->.
  { apply mapM_Some_2, Forall2_fmap_r, Forall_Forall2_diag, Forall_seq. intros n Hn. pose proof (proj2 M (Z.of_nat n) ltac:(lia)) as E. unfold byte_at in E. destruct (Z.ltb_spec (Z.of_nat n) 0); [lia|]. rewrite Nat2Z.id in E. rewrite E. cbn [mbind option_bind].
    rewrite (times_spec mat e); [by rewrite <- steps_add|done|]. apply steps_u64. unfold is_u64. split; [apply Z.pow_nonneg; lia|apply Z.pow_lt_mono_r; lia]. }
  cbn [mbind option_bind]. eexists. split; [done|]. rewrite drop_ge, app_nil_r by lia. split; [by rewrite length_map, length_seq|]. intros i Hi. unfold byte_at. zdec. rewrite list_lookup_fmap, lookup_seq_lt by lia. cbn. do 3 f_equal. lia.
Qed.

(** The cache: sixty-four matrices, of one byte of zeros and on by doubling. *)
Definition shape (cache : list (list Z)) : Prop := length cache = 64%nat /\ forall k row, cache !! k = Some row -> length row = 64%nat.

Definition cache_ok (cache : list (list Z)) : Prop := shape cache /\ forall k, (k < 64)%nat -> exists mat, cache !! k = Some mat /\ mat_ok mat (8 * 2 ^ k).

Lemma shape_row cache k : shape cache -> (k < 64)%nat -> exists row, cache !! k = Some row /\ length row = 64%nat.
Proof. intros [L R] Hk. destruct (lookup_lt_is_Some_2 cache k ltac:(lia)) as [row E]. eauto. Qed.

Lemma shape_insert cache k row : shape cache -> length row = 64%nat -> shape (<[k:=row]> cache).
Proof.
  intros [L R] Hr. split; [by rewrite length_insert|]. intros i r E. destruct (decide (i = k)) as [->|]; [|rewrite list_lookup_insert_ne in E by done; by eapply R].
  destruct (decide (k < length cache)%nat); [rewrite list_lookup_insert_eq in E by done; by injection E as <-|rewrite list_insert_ge in E by lia; by eapply R].
Qed.

Lemma square_into_spec cache dst src mat e : shape cache -> (dst < 64)%nat -> cache !! src = Some mat -> mat_ok mat e ->
  exists row, square_into cache dst src 64 = Some (<[dst:=row]> cache) /\ mat_ok row (e + e) /\ shape (<[dst:=row]> cache).
Proof.
  intros Sh Hd E M. destruct (shape_row cache dst Sh Hd) as (old & Eo & Lo). unfold square_into. rewrite Eo, E. cbn [mbind option_bind]. destruct (square_spec old mat e M Lo) as (row & -> & Mr).
  exists row. split; [done|]. split; [done|]. apply shape_insert; [done|apply Mr].
Qed.

Lemma square_rows_spec : forall n k cache, (n + k = 64)%nat -> (1 <= k)%nat -> shape cache -> (forall i, (i < k)%nat -> exists mat, cache !! i = Some mat /\ mat_ok mat (8 * 2 ^ i)) ->
  exists cache', square_rows n cache k 64 = Some cache' /\ cache_ok cache'.
Proof.
  induction n as [|n IH]; intros k cache Hn Hk Sh M; cbn [square_rows]; [exists cache; split; [done|]; split; [done|]; intros i Hi; apply M; lia|].
  destruct (M (k - 1)%nat ltac:(lia)) as (mat & E & Mm). destruct (square_into_spec cache k (k - 1) mat _ Sh ltac:(lia) E Mm) as (row & -> & Mr & Sh'). cbn [mbind option_bind].
  assert (8 * 2 ^ (k - 1) + 8 * 2 ^ (k - 1) = 8 * 2 ^ k)%nat as Ek by (replace k with (S (k - 1)) at 3 by lia; rewrite Nat.pow_succ_r'; lia). rewrite Ek in Mr. destruct Sh as [L _].
  apply IH; [lia|lia|done|]. intros i Hi. destruct (decide (i = k)) as [->|]; [exists row; split; [apply list_lookup_insert_eq; lia|done]|]. rewrite list_lookup_insert_ne by done. apply M. lia.
Qed.

(** The matrix of one bit. *)
Lemma first_matrix old : length old = 64%nat -> mat_ok (CRC64_REVERSED_POLY :: map (fun n => u64 (Z.shiftl 1 n)) (seqZ 0 (Z.of_nat 64 - 1)) ++ drop 64 old) 1.
Proof.
  intros L. rewrite drop_ge, app_nil_r by lia. split; [done|]. intros i Hi.
  assert (forallb (fun i => bool_decide (byte_at (CRC64_REVERSED_POLY :: map (fun n => u64 (Z.shiftl 1 n)) (seqZ 0 (Z.of_nat 64 - 1))) i = Some (steps 1 (2 ^ i)))) (seqZ 0 64) = true) as F by (vm_compute; reflexivity).
  pose proof (forall_range _ 0 64 F i ltac:(lia)) as B. by apply bool_decide_eq_true in B.
Qed.

Lemma init_cache_spec cache : shape cache -> exists cache', init_combine_cache cache CRC64_REVERSED_POLY 64 = Some cache' /\ cache_ok cache'.
Proof.
  intros Sh. unfold init_combine_cache. destruct (shape_row cache 1 Sh ltac:(lia)) as (old & -> & Lo). cbn [mbind option_bind]. pose proof (first_matrix old Lo) as M0. set (r0 := CRC64_REVERSED_POLY :: _) in *. clearbody r0.
  pose proof (shape_insert cache 1 r0 Sh (proj1 M0)) as S0. assert (<[1%nat:=r0]> cache !! 1%nat = Some r0) as E0 by (apply list_lookup_insert_eq; destruct Sh; lia). set (c0 := <[1%nat:=r0]> cache) in *. clearbody c0.
  destruct (square_into_spec c0 0 1 r0 1 S0 ltac:(lia) E0 M0) as (r1 & -> & M1 & S1). cbn [mbind option_bind]. assert (<[0%nat:=r1]> c0 !! 0%nat = Some r1) as E1 by (apply list_lookup_insert_eq; destruct S0; lia). set (c1 := <[0%nat:=r1]> c0) in *. clearbody c1.
  destruct (square_into_spec c1 1 0 r1 2 S1 ltac:(lia) E1 M1) as (r2 & -> & M2 & S2). cbn [mbind option_bind]. assert (<[1%nat:=r2]> c1 !! 1%nat = Some r2) as E2 by (apply list_lookup_insert_eq; destruct S1; lia). set (c2 := <[1%nat:=r2]> c1) in *. clearbody c2.
  destruct (square_into_spec c2 0 1 r2 4 S2 ltac:(lia) E2 M2) as (r3 & -> & M3 & S3). cbn [mbind option_bind]. assert (<[0%nat:=r3]> c2 !! 0%nat = Some r3) as E3 by (apply list_lookup_insert_eq; destruct S2; lia).
  apply square_rows_spec; [done|lia|done|]. intros i Hi. assert (i = 0%nat) as -> by lia. by exists r3.
Qed.

Lemma combine_loop_spec cache : cache_ok cache -> forall n k L crc, (n + k = 64)%nat -> (0 < L)%nat -> Z.of_nat L < 2 ^ Z.of_nat n -> is_u64 crc ->
  combine_loop n cache crc (Z.of_nat L) (Z.of_nat k) = Some (steps (L * (8 * 2 ^ k)) crc).
Proof.
  intros [_ Ok]. induction n as [|n IH]; intros k L crc Hn Hpos HL U; [cbn in HL; lia|]. cbn [combine_loop]. rewrite (Z.land_ones (Z.of_nat L) 1 ltac:(lia) : Z.land (Z.of_nat L) 1 = Z.of_nat L mod 2). rewrite Z.shiftr_div_pow2 by lia. change (2 ^ 1) with 2.
  destruct (Ok k ltac:(lia)) as (mat & E & M). rewrite Nat2Z.id, E. set (e := (8 * 2 ^ k)%nat) in *.
  assert ((if negb (Z.of_nat L mod 2 =? 0) then Some mat ≫= (fun mat => gf2_matrix_times_switch mat crc) else Some crc) = Some (steps (L mod 2 * e) crc)) as ->.
  { pose proof (Nat.mod_upper_bound L 2 ltac:(lia)). assert (Z.of_nat L mod 2 = Z.of_nat (L mod 2)) as -> by (rewrite Nat2Z.inj_mod; done). destruct (L mod 2)%nat as [|[|]]; [done| |lia]. cbn [Z.of_nat Z.eqb negb mbind option_bind]. by rewrite (times_spec mat e), Nat.mul_1_l. }
  cbn [mbind option_bind]. assert (Z.of_nat L / 2 = Z.of_nat (L / 2)) as -> by (rewrite Nat2Z.inj_div; done). pose proof (Nat.div_mod_eq L 2) as D. destruct (Z.eqb_spec (Z.of_nat (L / 2)) 0) as [Z0|N0]; cbn [negb].
  - do 3 f_equal. lia.
  - destruct n as [|n']; [change (2 ^ Z.of_nat 1) with 2 in HL; lia|]. set (n := S n') in *. assert (Z.land (Z.of_nat k + 1) 63 = Z.of_nat (S k)) as ->.
    { change 63 with (Z.ones 6). rewrite Z.land_ones by lia. rewrite Z.mod_small by (change (2 ^ 6) with 64; lia). lia. }
    rewrite IH; [|lia|lia| |by apply steps_u64].
    + rewrite <- steps_add. do 2 f_equal. rewrite Nat.pow_succ_r'. unfold e. lia.
    + assert (2 ^ Z.of_nat (S n) = 2 * 2 ^ Z.of_nat n) as Ep by (rewrite Nat2Z.inj_succ, Z.pow_succ_r by lia; done). rewrite Ep in HL. lia.
Qed.

(** The state of the cache: not filled yet, or filled. *)
Definition cache_state (cache : list (list Z)) : Prop := (shape cache /\ cell cache 0 0 = Some 0) \/ cache_ok cache.

Lemma combine_spec cache crc1 crc2 L : cache_state cache -> is_u64 crc1 -> Z.of_nat L < 2 ^ 64 -> (L = 0%nat -> crc2 = 0) ->
  exists cache', crc64_combine cache crc1 crc2 (Z.of_nat L) CRC64_REVERSED_POLY 64 = Some (Z.lxor (steps (8 * L) crc1) crc2, cache') /\ cache_state cache'.
Proof.
  intros St U HL C2. unfold crc64_combine. destruct (Z.eqb_spec (Z.of_nat L) 0) as [Z0|N0].
  { assert (L = 0%nat) as -> by lia. rewrite (C2 eq_refl), Z.lxor_0_r. by exists cache. }
  assert (exists c00 cache', cell cache 0 0 = Some c00 /\ (if c00 =? 0 then init_combine_cache cache CRC64_REVERSED_POLY 64 else Some cache) = Some cache' /\ cache_ok cache') as (c00 & cache' & -> & E & Ok).
  { destruct St as [[Sh E]|Ok].
    - exists 0. destruct (init_cache_spec cache Sh) as (cache' & E' & Ok). exists cache'. by rewrite E'.
    - destruct (proj2 Ok 0%nat ltac:(lia)) as (mat & Em & [_ M]). exists (steps 8 1), cache. unfold cell. rewrite Em. cbn [mbind option_bind]. by rewrite (M 0) by lia. }
  cbn [mbind option_bind]. rewrite E. cbn [mbind option_bind]. change 0 with (Z.of_nat 0). rewrite (combine_loop_spec cache' Ok 64 0) by (done || lia). exists cache'. split; [|by right]. cbn [mbind option_bind]. do 4 f_equal. change (2 ^ 0)%nat with 1%nat. lia.
Qed.

(** ** The fast routine *)

Lemma split_length len div : 0 <= len < 2 ^ 64 -> 2 <= div -> exists q, CRC64_SPLIT len div = 8 * Z.of_nat q /\ 8 * Z.of_nat q * div <= len.
Proof.
  intros Hl Hd. unfold CRC64_SPLIT. assert (0 <= len / div < 2 ^ 63) as Hx by (split; [apply Z.div_pos; lia|apply Z.div_lt_upper_bound; lia]). pose proof (Z.mul_div_le len div ltac:(lia)) as Le. set (x := len / div) in *. clearbody x.
  assert (Z.land x CRC64_LEN_MASK = Z.shiftl (Z.shiftr x 3) 3) as ->.
  { change CRC64_LEN_MASK with (Z.shiftl (Z.ones 60) 3). apply Z.bits_inj'. intros i Hi. rewrite Z.land_spec, !Z.shiftl_spec by lia. destruct (Z.lt_ge_cases i 3); [by rewrite !(Z.testbit_neg_r _ (i - 3)), andb_false_r by lia|].
    rewrite Z.shiftr_spec by lia. replace (i - 3 + 3) with i by lia. destruct (Z.lt_ge_cases i 63); [by rewrite Z.ones_spec_low, andb_true_r by lia|]. assert (Z.testbit x i = false) as ->; [|done].
    destruct (Z.eq_dec x 0) as [->|]; [apply Z.bits_0|]. apply Z.bits_above_log2; [lia|]. assert (Z.log2 x < 63) by (apply Z.log2_lt_pow2; lia). lia. }
  rewrite Z.shiftl_mul_pow2, Z.shiftr_div_pow2 by lia. change (2 ^ 3) with 8. pose proof (Z.mul_div_le x 8 ltac:(lia)). assert (0 <= x / 8) by (apply Z.div_pos; lia). exists (Z.to_nat (x / 8)). split; [lia|]. rewrite Z2Nat.id by lia. nia.
Qed.

Section Fast.
Variables (t : list (list Z)) (buf : list Z).
Hypothesis T : table_ok t.
Hypothesis bytes : Forall is_u8 buf.
Hypothesis small : zlen buf < 2 ^ 64.

(** What the part of the routine in the middle does: some bytes are done. *)
Definition part (cache : list (list Z)) (crc p len : Z) (r : option (Z * Z * Z * list (list Z))) : Prop :=
  exists k cache', r = Some (rfold crc (slice buf p k), p + k, len - k, cache') /\ 0 <= k <= len /\ cache_state cache'.

Lemma join_part cache crc p q a : cache_state cache -> is_u64 crc -> 0 <= p -> 0 <= a -> p + a + 8 * Z.of_nat q <= zlen buf ->
  exists cache', crc64_combine cache (rfold crc (slice buf p a)) (rfold 0 (slice buf (p + a) (8 * Z.of_nat q))) (8 * Z.of_nat q) CRC64_REVERSED_POLY 64 = Some (rfold crc (slice buf p (a + 8 * Z.of_nat q)), cache') /\ cache_state cache'.
Proof.
  intros St U Hp Ha H. replace (8 * Z.of_nat q) with (Z.of_nat (8 * q)) in * by lia. destruct (combine_spec cache (rfold crc (slice buf p a)) (rfold 0 (slice buf (p + a) (Z.of_nat (8 * q)))) (8 * q) St) as (cache' & E & St').
  - apply rfold_u64; [done|by apply slice_bytes].
  - lia.
  - intros ->. done.
  - exists cache'. split; [|done]. rewrite E, slice_split, rfold_join by (lia || by apply slice_bytes). rewrite slice_length by lia. by rewrite Nat2Z.id.
Qed.

Lemma split3_spec cache crc p len : cache_state cache -> is_u64 crc -> 0 <= p -> 0 <= len -> p + len <= zlen buf -> part cache crc p len (split3 t buf cache crc p len).
Proof.
  intros St U Hp Hl H. unfold split3. destruct (split_length len 3 ltac:(lia) ltac:(lia)) as (q & -> & Hq). set (s := 8 * Z.of_nat q) in *. rewrite (words3_spec t buf T bytes _ q); try done; try lia; [|unfold zlen in *; lia]. fold s. cbn [mbind option_bind].
  replace (p + s + s - (p + s)) with s by lia. destruct (join_part cache crc p q s St U Hp ltac:(lia) ltac:(lia)) as (c1 & E1 & S1). fold s in E1. rewrite E1. cbn [mbind option_bind].
  destruct (join_part c1 crc p q (s + s) S1 U Hp ltac:(lia) ltac:(lia)) as (c2 & E2 & S2). fold s in E2. rewrite Z.add_assoc in E2. rewrite E2. cbn [mbind option_bind]. exists (s + s + s), c2. split; [|split; [lia|done]].
  replace (p + s + s + s) with (p + (s + s + s)) by lia. by replace (len - s * 3) with (len - (s + s + s)) by lia.
Qed.

Lemma split2_spec cache crc p len : cache_state cache -> is_u64 crc -> 0 <= p -> 0 <= len -> p + len <= zlen buf -> part cache crc p len (split2 t buf cache crc p len).
Proof.
  intros St U Hp Hl H. unfold split2. destruct (split_length len 2 ltac:(lia) ltac:(lia)) as (q & -> & Hq). set (s := 8 * Z.of_nat q) in *. rewrite (words2_spec t buf T bytes _ q); try done; try lia; [|unfold zlen in *; lia]. fold s. cbn [mbind option_bind].
  replace (p + s + s - (p + s)) with s by lia. destruct (join_part cache crc p q s St U Hp ltac:(lia) ltac:(lia)) as (c1 & E1 & S1). fold s in E1. rewrite E1. cbn [mbind option_bind]. exists (s + s), c1. split; [|split; [lia|done]].
  replace (p + s + s) with (p + (s + s)) by lia. by replace (len - s * 2) with (len - (s + s)) by lia.
Qed.

Lemma slice_all : slice buf 0 (zlen buf) = buf.
Proof. unfold slice. rewrite drop_0. unfold zlen. rewrite Nat2Z.id. apply take_ge. lia. Qed.

Lemma fast_spec dual tri cache crc addr : cache_state cache -> is_u64 crc -> exists cache', crcspeed64little t buf dual tri cache crc addr = Some (rfold crc buf, cache') /\ cache_state cache'.
Proof.
  intros St U. unfold crcspeed64little. pose proof (zlen_nonneg buf) as P. destruct (dual <? 1).
  { rewrite (last_spec t buf T bytes) by (unfold zlen in *; lia). rewrite slice_all. by exists cache. }
  destruct (align_loop_spec t buf T bytes addr (length buf) crc 0 (zlen buf)) as (k & -> & Hk); [unfold zlen; lia|lia|lia|lia|]. cbn [mbind option_bind]. rewrite Z.add_0_l. set (c0 := rfold crc (slice buf 0 k)). assert (is_u64 c0) as U0 by (apply rfold_u64; [done|by apply slice_bytes]).
  assert (part cache c0 k (zlen buf - k) (if zlen buf - k >? tri then split3 t buf cache c0 k (zlen buf - k) else if zlen buf - k >? dual then split2 t buf cache c0 k (zlen buf - k) else Some (c0, k, zlen buf - k, cache))) as (m & cache' & -> & Hm & St').
  { destruct (_ >? tri); [apply split3_spec; try done; lia|]. destruct (_ >? dual); [apply split2_spec; try done; lia|]. exists 0, cache. split; [by rewrite Z.add_0_r, Z.sub_0_r|split; [lia|done]]. }
  cbn [mbind option_bind]. destruct (words1_spec t buf T bytes (length buf) (rfold c0 (slice buf k m)) (k + m) (zlen buf - k - m)) as (j & -> & Hj); [unfold zlen in *; lia|apply rfold_u64; [done|by apply slice_bytes]|lia|lia|lia|]. cbn [mbind option_bind].
  rewrite (last_spec t buf T bytes) by (unfold zlen in *; lia). cbn [mbind option_bind]. exists cache'. split; [|done]. unfold c0. pose proof (slice_split buf 0 k m ltac:(lia) ltac:(lia) ltac:(lia)) as S1. rewrite Z.add_0_l in S1.
  rewrite <- (rfold_app crc), <- S1. pose proof (slice_split buf 0 (k + m) j ltac:(lia) ltac:(lia) ltac:(lia)) as S2. rewrite Z.add_0_l in S2. rewrite <- (rfold_app crc), <- S2.
  pose proof (slice_split buf 0 (k + m + j) (zlen buf - k - m - j) ltac:(lia) ltac:(lia) ltac:(lia)) as S3. rewrite Z.add_0_l in S3. rewrite <- (rfold_app crc), <- S3. replace (k + m + j + (zlen buf - k - m - j)) with (zlen buf) by lia. by rewrite slice_all.
Qed.
End Fast.

(** ** Different blocks *)

Lemma lxor_cancel a b : Z.lxor a b = 0 -> a = b.
Proof. apply Z.lxor_eq. Qed.

(** A step loses nothing: the polynomial has its upper bit set. *)
Lemma rstep_zero x : is_u64 x -> rstep x = 0 -> x = 0.
Proof.
  unfold rstep, is_u64. intros Hx E. assert (Z.shiftr x 1 = x / 2) as S by (rewrite Z.shiftr_div_pow2 by lia; done). assert (x / 2 < 2 ^ 63) by (apply Z.div_lt_upper_bound; lia). pose proof (Z.div_mod x 2 ltac:(lia)) as D. rewrite S in E. rewrite Zmod_odd in D. destruct (Z.odd x).
  - apply Z.lxor_eq in E. unfold CRC64_REVERSED_POLY in E. lia.
  - lia.
Qed.

Lemma steps_inj n x y : is_u64 x -> is_u64 y -> steps n x = steps n y -> x = y.
Proof.
  intros Hx Hy E. apply Z.lxor_eq. assert (steps n (Z.lxor x y) = 0) as Z0 by (rewrite steps_additive, E; apply Z.lxor_nilpotent). pose proof (lxor_u64 x y Hx Hy) as U. clear E Hx Hy. induction n as [|n IH]; [done|]. apply IH. apply rstep_zero; [by apply steps_u64|done].
Qed.

Lemma rfold_inj l c d : Forall is_u8 l -> is_u64 c -> is_u64 d -> rfold c l = rfold d l -> c = d.
Proof.
  intros F. revert c d. induction F as [|b l Hb _ IH]; intros c d Uc Ud E; [done|]. assert (forall x, is_u64 x -> is_u64 (Z.lxor x b)) as Ux by (intros x Hx; apply lxor_u64; [done|by apply u8_u64]).
  pose proof (IH (rbyte c b) (rbyte d b) (steps_u64 8 _ (Ux c Uc)) (steps_u64 8 _ (Ux d Ud)) E) as E1. apply steps_inj in E1; [|by apply Ux|by apply Ux]. apply (f_equal (fun z => Z.lxor z b)) in E1. by rewrite !Z.lxor_assoc, Z.lxor_nilpotent, !Z.lxor_0_r in E1.
Qed.

Lemma le_val_u64 w : Forall is_u8 w -> (length w <= 8)%nat -> is_u64 (le_val w).
Proof.
  intros F L. pose proof (le_val_range w F) as R. assert (256 ^ zlen w <= 256 ^ 8) by (apply Z.pow_le_mono_r; unfold zlen; lia). change (256 ^ 8) with (2 ^ 64) in *. unfold is_u64. lia.
Qed.

Lemma rfold_window c w w' : is_u64 c -> Forall is_u8 w -> Forall is_u8 w' -> length w = length w' -> (length w <= 8)%nat -> rfold c w = rfold c w' -> w = w'.
Proof.
  intros U F F' L L8 E. rewrite !rfold_val, L in E by done. apply steps_inj in E; [|apply lxor_u64; [done|by apply le_val_u64]|apply lxor_u64; [done|apply le_val_u64; [done|lia]]].
  apply (f_equal (Z.lxor c)) in E. rewrite <- !Z.lxor_assoc, Z.lxor_nilpotent, !Z.lxor_0_l in E. rewrite <- (le_bytes_val w F), <- (le_bytes_val w' F'), L. by rewrite E.
Qed.

(** ** Theorems *)

(** C20: the checksum that [crc64] computes eight, sixteen or twenty-four bytes at a
    time is the one of the bit-by-bit routine, for every buffer and address, every
    value of the cutoffs and every state of the cache of matrices; no table, matrix
    or buffer is read out of bounds, and the cache stays usable. *)
Theorem crc64_is_bitwise t dual tri cache crc addr s : crc64_init = Some t -> cache_state cache -> is_u64 crc -> Forall is_u8 s -> zlen s < 2 ^ 64 ->
  exists cache', crc64 t dual tri cache crc addr s = Some (_crc64 (crc_reflect crc 64) s, cache') /\ cache_state cache'.
Proof.
  intros E St U B L. destruct init_table as (t' & E' & T). rewrite E in E'. injection E' as <-. fold (reflect crc). rewrite (bitwise_spec _ _ (reflect_u64 crc U) B), (reflect_twice crc U). by apply fast_spec.
Qed.

(** Damage within eight consecutive bytes is always noticed: two blocks that
    differ there, and nowhere else, have different checksums. *)
Theorem crc64_notices_window t dual tri cache cache' crc addr addr' a w w' b : crc64_init = Some t -> cache_state cache -> cache_state cache' -> is_u64 crc ->
  Forall is_u8 (a ++ w ++ b) -> Forall is_u8 w' -> length w' = length w -> (length w <= 8)%nat -> zlen (a ++ w ++ b) < 2 ^ 64 -> w <> w' ->
  exists v v', fst <$> crc64 t dual tri cache crc addr (a ++ w ++ b) = Some v /\ fst <$> crc64 t dual tri cache' crc addr' (a ++ w' ++ b) = Some v' /\ v <> v'.
Proof.
  intros E St St' U B Bw L L8 Lz Ne. destruct init_table as (t' & E' & T). rewrite E in E'. injection E' as <-. apply Forall_app in B as [Ba B]. apply Forall_app in B as [Bw0 Bb].
  assert (Forall is_u8 (a ++ w ++ b)) as F1 by (apply Forall_app; split; [exact Ba|apply Forall_app; split; assumption]). assert (Forall is_u8 (a ++ w' ++ b)) as F2 by (apply Forall_app; split; [exact Ba|apply Forall_app; split; assumption]).
  assert (zlen (a ++ w' ++ b) = zlen (a ++ w ++ b)) as Lz' by (unfold zlen; rewrite !length_app; lia).
  destruct (fast_spec t (a ++ w ++ b) T F1 Lz dual tri cache crc addr St U) as (c1 & E1 & _). destruct (fast_spec t (a ++ w' ++ b) T F2 ltac:(lia) dual tri cache' crc addr' St' U) as (c2 & E2 & _).
  unfold crc64. rewrite E1, E2. eexists _, _. split; [done|]. split; [done|]. cbn [fst]. intros Eq. apply Ne. rewrite !rfold_app in Eq. pose proof (rfold_u64 a crc U Ba) as Ua.
  apply rfold_inj in Eq; [|done|by apply rfold_u64|by apply rfold_u64]. by apply (rfold_window (rfold crc a)).
Qed.

(** ** Witnesses *)

Definition zero_cache : list (list Z) := replicate 64 (replicate 64 0).

Lemma zero_cache_state : cache_state zero_cache.
Proof. left. split; [|done]. split; [done|]. intros k row E. by apply lookup_replicate in E as [-> _]. Qed.

Definition sample_block : list Z := map (fun i => (i * 37 + 11) mod 256) (seqZ 0 100).

Lemma crc64_is_bitwise_witness : exists t cache', crc64_init = Some t /\ crc64 t 1 60 zero_cache 0 3 sample_block = Some (_crc64 0 sample_block, cache').
Proof.
  destruct init_table as (t & E & _). exists t. destruct (crc64_is_bitwise t 1 60 zero_cache 0 3 sample_block E zero_cache_state) as (cache' & C & _).
  - split; vm_compute; [discriminate|reflexivity].
  - eapply bool_decide_unpack. vm_compute. exact I.
  - vm_compute. reflexivity.
  - exists cache'. split; [exact E|exact C].
Defined.

Lemma crc64_notices_window_witness : exists t v v', crc64_init = Some t /\ fst <$> crc64 t 1 60 zero_cache 0 0 ([7] ++ [1; 2] ++ sample_block) = Some v /\
  fst <$> crc64 t 1 60 zero_cache 0 0 ([7] ++ [1; 3] ++ sample_block) = Some v' /\ v <> v'.
Proof.
  destruct init_table as (t & E & _). destruct (crc64_notices_window t 1 60 zero_cache zero_cache 0 0 0 [7] [1; 2] [1; 3] sample_block E zero_cache_state zero_cache_state) as (v & v' & E1 & E2 & N).
  - split; vm_compute; [discriminate|reflexivity].
  - eapply bool_decide_unpack. vm_compute. exact I.
  - eapply bool_decide_unpack. vm_compute. exact I.
  - reflexivity.
  - repeat constructor.
  - vm_compute. reflexivity.
  - discriminate.
  - exists t, v, v'. split; [exact E|]. split; [exact E1|]. split; [exact E2|exact N].
Defined.
