(* ===== verification/Snapshot.v ===== *)
(** A snapshot as a whole (src/src/rdb.c): the header, the fields about the server,
    the function libraries, the databases with their keys of strings, the end mark
    and the checksum, as they are saved and as they are loaded. *)

From stdpp Require Import base list numbers strings gmap.
From coqutil Require Import Datatypes.RecordSetters.
From S2P Require Import Prelude Numbers Memory Sds AofManifest Lzf Rdb Crc64.
Import TriangleBracketNotations.

Local Open Scope Z_scope.

Definition RDB_VERSION : Z := 14.
Definition RDB_TYPE_STRING : Z := 0.
Definition RDB_OPCODE_KEY_META : Z := 243.
Definition RDB_OPCODE_SLOT_INFO : Z := 244.
Definition RDB_OPCODE_FUNCTION2 : Z := 245.
Definition RDB_OPCODE_FUNCTION_PRE_GA : Z := 246.
Definition RDB_OPCODE_MODULE_AUX : Z := 247.
Definition RDB_OPCODE_IDLE : Z := 248.
Definition RDB_OPCODE_FREQ : Z := 249.
Definition RDB_OPCODE_AUX : Z := 250.
Definition RDB_OPCODE_RESIZEDB : Z := 251.
Definition RDB_OPCODE_EXPIRETIME_MS : Z := 252.
Definition RDB_OPCODE_EXPIRETIME : Z := 253.
Definition RDB_OPCODE_SELECTDB : Z := 254.
Definition RDB_OPCODE_EOF : Z := 255.
Definition CLUSTER_SLOTS : Z := Z.shiftl 1 14.

(** ** Saving *)

(** A key as the iterator of its database gives it: its slot, its name, its value,
    when it expires (-1: never), how long it was idle and how often it was used. *)
Record entry : Type := { e_slot : Z; e_key : list Z; e_val : string_object; e_expire : Z; e_idle : Z; e_freq : Z }.

(** What the fields about the server say. *)
Record info : Type := { redis_version : list Z; ctime : Z; used_memory : Z; rsi_fields : option (Z * list Z * Z); aof_base : bool; asm_task : option (list Z) }.

Record config : Type := { rdb_compression : bool; cluster_enabled : bool; save_lru : bool; save_lfu : bool }.

(** [if (f(rdb) == -1) return -1;] for each, and then [return 1;]. *)
Fixpoint chain (fs : list (option rio -> option (Z * option rio))) (rdb : option rio) : option (Z * option rio) :=
  match fs with
  | [] => Some (1, rdb)
  | f :: fs => '(n, rdb) ← f rdb; if n =? -1 then Some (-1, rdb) else chain fs rdb
  end.

(** The same where the results are added up. *)
Fixpoint sum_chain (fs : list (option rio -> option (Z * option rio))) (rdb : option rio) : option (Z * option rio) :=
  match fs with
  | [] => Some (0, rdb)
  | f :: fs => then_write f (sum_chain fs) rdb
  end.

Section Save.
Variable write_ok : list Z -> list Z -> bool.
Variable update_cksum : cksum_fn.
(** Where a string is in memory; what the compressor finds in memory. *)
Variables (addr_of : list Z -> Z) (garbage : Z -> Z) (fresh : nat -> Z).
Variable cfg : config.
(** Slots whose keys are being trimmed. *)
Variable isSlotInTrimJob : Z -> bool.

Local Notation writer := (option rio -> option (Z * option rio)).
Local Notation save_type type := (fun rdb => rdbSaveType write_ok update_cksum rdb type).
Local Notation save_len len := (rdbSaveLen write_ok update_cksum len).
Local Notation save_raw s := (rdbSaveRawString write_ok update_cksum (addr_of s) garbage fresh (rdb_compression cfg) s).

Definition rdbSaveAuxField (key val : list Z) : writer :=
  then_write (save_type RDB_OPCODE_AUX) (then_write (save_raw key) (save_raw val)).

Definition rdbSaveAuxFieldStrStr (key val : list Z) : writer := rdbSaveAuxField (cstr key) (cstr val).

Definition rdbSaveAuxFieldStrInt (key : list Z) (val : Z) : writer :=
  let '(vlen, buf) := ll2string (repeat 0 (Z.to_nat LONG_STR_SIZE)) val in rdbSaveAuxField (cstr key) (take (Z.to_nat vlen) buf).

Definition rdbSaveInfoAuxFields (i : info) : writer :=
  chain ([rdbSaveAuxFieldStrStr (bs "redis-ver") (redis_version i);
          rdbSaveAuxFieldStrInt (bs "redis-bits") 64;
          rdbSaveAuxFieldStrInt (bs "ctime") (ctime i);
          rdbSaveAuxFieldStrInt (bs "used-mem") (used_memory i)]
         ++ match rsi_fields i with
            | Some (repl_stream_db, replid, master_repl_offset) =>
                [rdbSaveAuxFieldStrInt (bs "repl-stream-db") repl_stream_db;
                 rdbSaveAuxFieldStrStr (bs "repl-id") replid;
                 rdbSaveAuxFieldStrInt (bs "repl-offset") master_repl_offset]
            | None => []
            end
         ++ [rdbSaveAuxFieldStrInt (bs "aof-base") (if aof_base i then 1 else 0)]
         ++ if cluster_enabled cfg then [rdbSaveAuxFieldStrStr (bs "cluster-asm-task") (default [] (asm_task i))] else []).

(** The libraries of functions by their code. *)
Definition rdbSaveFunctions (libs : list (list Z)) : writer :=
  sum_chain (flat_map (fun code => [save_type RDB_OPCODE_FUNCTION2; save_raw code]) libs).

Definition rdbSaveMillisecondTime (t : Z) : writer := fun rdb => rdbWriteRaw write_ok update_cksum rdb (le_bytes 8 t).

(** A string that has no metadata of modules. *)
Definition rdbSaveKeyValuePair (e : entry) : writer :=
  chain ((if negb (e_expire e =? -1) then [save_type RDB_OPCODE_EXPIRETIME_MS; rdbSaveMillisecondTime (e_expire e)] else [])
         ++ (if save_lru cfg then [save_type RDB_OPCODE_IDLE; save_len (e_idle e / 1000)] else [])
         ++ (if save_lfu cfg then [save_type RDB_OPCODE_FREQ; fun rdb => rdbWriteRaw write_ok update_cksum rdb [u8 (e_freq e)]] else [])
         ++ [save_type RDB_TYPE_STRING; save_raw (e_key e);
             rdbSaveStringObject write_ok update_cksum (addr_of (text (e_val e))) garbage fresh (rdb_compression cfg) (e_val e)]).

Definition has_expire (e : entry) : bool := negb (e_expire e =? -1).
Definition slot_entries (es : list entry) (slot : Z) : list entry := filter (fun e => e_slot e = slot) es.
Definition count_expires (es : list entry) : Z := zlen (filter (fun e => has_expire e = true) es).

(** The loop of [rdbSaveDb] over [rest], what is left of [es]. *)
Fixpoint save_entries (es rest : list entry) (last_slot : Z) : list writer :=
  match rest with
  | [] => []
  | e :: rest =>
      let curr_slot := e_slot e in
      let fresh_slot := cluster_enabled cfg && negb (curr_slot =? last_slot) in
      (if fresh_slot then
         [save_type RDB_OPCODE_SLOT_INFO; save_len curr_slot; save_len (zlen (slot_entries es curr_slot)); save_len (count_expires (slot_entries es curr_slot))]
       else [])
      ++ (if cluster_enabled cfg && isSlotInTrimJob curr_slot then [] else [rdbSaveKeyValuePair e])
      ++ save_entries es rest (if fresh_slot then curr_slot else last_slot)
  end.

Definition rdbSaveDb (dbid : Z) (es : list entry) (rdb : option rio) : option (Z * option rio) :=
  let db_size := zlen es in
  if db_size =? 0 then Some (0, rdb)
  else sum_chain ([save_type RDB_OPCODE_SELECTDB; save_len dbid; save_type RDB_OPCODE_RESIZEDB; save_len db_size; save_len (count_expires es)]
                  ++ save_entries es es (-1)) rdb.

Definition magic : list Z := bs "REDIS0014".

(** What the caller asked for: [SLAVE_REQ_RDB_EXCLUDE_FUNCTIONS] and
    [SLAVE_REQ_RDB_EXCLUDE_DATA]. True is [C_OK]. *)
Definition rdbSaveRio (exclude_functions exclude_data : bool) (i : info) (libs : list (list Z)) (dbs : list (list entry)) (rdb : rio) : option (bool * rio) :=
  p ← chain ([fun rdb => rdbWriteRaw write_ok update_cksum rdb magic; rdbSaveInfoAuxFields i]
             ++ (if exclude_functions then [] else [rdbSaveFunctions libs])
             ++ (if exclude_data then [] else imap (fun j es => rdbSaveDb (Z.of_nat j) es) dbs)
             ++ [save_type RDB_OPCODE_EOF]) (Some rdb);
  match p with
  | (n, Some r) => if n =? -1 then Some (false, r) else rioWrite write_ok update_cksum r (le_bytes 8 (rio_cksum r))
  | (_, None) => None
  end.
End Save.

(** ** Metadata of a key *)

Definition KEY_META_ID_EXPIRE : Z := 0.
Definition KEY_META_ID_MAX : Z := 8.

Record KeyMetaSpec : Type := { numMeta : Z; metabits : Z; meta : list Z }.

Definition keyMetaSpecInit (k : KeyMetaSpec) : KeyMetaSpec := k<| metabits := 0 |><| numMeta := 0 |>.

(** [None] writes outside of the array. *)
Definition keyMetaSpecAdd (k : KeyMetaSpec) (metaid metaval : Z) : option KeyMetaSpec :=
  let n := u16 (numMeta k + 1) in
  let k := k<| metabits := u16 (Z.lor (metabits k) (Z.shiftl 1 metaid)) |><| numMeta := n |> in
  if (0 <=? KEY_META_ID_MAX - n) && (KEY_META_ID_MAX - n <? KEY_META_ID_MAX) then
    Some (k<| meta := <[Z.to_nat (KEY_META_ID_MAX - n):=u64 metaval]> (meta k) |>)
  else None.

(** ** Loading *)

Record rdbSaveInfo : Type := { repl_stream_db : Z; repl_id_is_set : bool; repl_id : list Z; repl_offset : Z }.

(** A key that was loaded. *)
Record loaded : Type := { l_val : string_object; l_expire : option Z; l_freq : Z; l_idle : Z }.

(** The databases, the libraries, the information for replication, and the variables
    of the loop: the current database and what the next key comes with. *)
Record loading : Type := {
  dbarray : list (gmap (list Z) loaded); functions : list (list Z); rsi : option rdbSaveInfo; loading_rdb_used_mem : Z; asm_tasks : list (list Z);
  keys_loaded : Z; keys_expired : Z; fed : list (Z * list Z);
  dbid : Z; keyMeta : KeyMetaSpec; expiretime : Z; lfu_freq : Z; lru_idle : Z
}.

(** How a step or the whole ends: the loop goes on, the snapshot is at its end, an
    error return, [exit(1)], a panic, a write outside of an array; or the loader of
    something that is not modelled is called. *)
Inductive verdict : Type := Next (s : loading) (r : rio) | Eof (s : loading) (r : rio) | Failed | Exited | Panicked | Overrun | Elsewhere (type : Z).

Definition on_load {A} (m : option (rio + A * rio)) (f : A -> rio -> option verdict) : option verdict :=
  match m with None => None | Some (inl _) => Some Failed | Some (inr (a, r)) => f a r end.

(** The flags of the call, whether this is a master, the clock, whether there is a
    context for libraries and what the engine says about one. *)
Record load_ctx : Type := {
  server_dbnum : Z; i_am_master : bool; aof_preamble : bool; feed_repl : bool; allow_dup : bool; now : Z;
  lib_ctx : bool; create_library : list (list Z) -> list Z -> option (list (list Z));
  load_cluster : bool; events_interval : Z; rdb_checksum : bool; loading_skip_checksum : bool; skip_checksum_validation : bool
}.

(** [string2l] is [string2ll] where a [long] has 64 bits. *)
Definition tryObjectEncodingEx (o : string_object) : string_object :=
  match o with
  | Raw s => if zlen s <=? 20 then match string2ll s with Some value => Int value | None => o end else o
  | Int _ => o
  end.

Definition rdbIsObjectType (t : Z) : bool := ((t >=? 0) && (t <=? 7)) || ((t >=? 9) && (t <=? 28)).

Section Load.
Variable load_cksum : cksum_fn.
Variables (fresh : nat -> Z) (alloc_ok : Z -> bool).
Variable ctx : load_ctx.

Local Notation load_string := (rdbGenericLoadStringObjectUsable load_cksum fresh alloc_ok).
Local Notation load_len := (rdbLoadLen load_cksum).
Local Notation read := (read load_cksum).

Definition rdbLoadType (r : rio) : option (rio + Z * rio) := load_bind (read 1 r) (fun b r => t ← b !! 0%nat; Some (inr (t, r))).

(** The time, also after an error. *)
Definition rdbLoadTime (r : rio) : option (Z * rio) :=
  x ← read 4 r; match x with inl r => Some (-1, r) | inr (b, r) => Some (i32 (le_val b), r) end.

Definition rdbLoadMillisecondTime (r : rio) : option (Z * rio) :=
  x ← read 8 r; match x with inl r => Some (2 ^ 63 - 1, r) | inr (b, r) => Some (i64 (le_val b), r) end.

(** What follows the time of an expiration. *)
Definition add_expire (s : loading) (t : Z) (r : rio) : option verdict :=
  match keyMetaSpecAdd (keyMeta s) KEY_META_ID_EXPIRE t with
  | None => Some Overrun
  | Some k => if has_flag r RIO_FLAG_READ_ERROR then Some Failed else Some (Next (s<| expiretime := t |><| keyMeta := k |>) r)
  end.

Definition atoi (s : list Z) : Z := i32 (atoll s).

Definition load_aux (key val : list Z) (s : loading) : loading :=
  if hd 0 key =? 37 then s
  else if strcaseeq key (bs "repl-stream-db") then
    match rsi s with Some i => s<| rsi := Some (i<| repl_stream_db := atoi val |>) |> | None => s end
  else if strcaseeq key (bs "repl-id") then
    match rsi s with
    | Some i => if zlen val =? 40 then s<| rsi := Some (i<| repl_id := val |><| repl_id_is_set := true |>) |> else s
    | None => s
    end
  else if strcaseeq key (bs "repl-offset") then
    match rsi s with Some i => s<| rsi := Some (i<| repl_offset := atoll val |>) |> | None => s end
  else if strcaseeq key (bs "used-mem") then s<| loading_rdb_used_mem := atoll val |>
  else if strcaseeq key (bs "cluster-asm-task") then s<| asm_tasks := asm_tasks s ++ [val] |>
  else s.

Definition clear_key (s : loading) : loading :=
  s<| expiretime := -1 |><| lfu_freq := -1 |><| lru_idle := -1 |><| keyMeta := keyMetaSpecInit (keyMeta s) |>.

(** [dbAddRDBLoad] and the usage: the key is new in the database. *)
Definition new_key (s : loading) (val : string_object) : loaded :=
  {| l_val := val;
     l_expire := if negb (Z.land (metabits (keyMeta s)) 1 =? 0) then i64 <$> meta (keyMeta s) !! Z.to_nat (KEY_META_ID_MAX - 1) else None;
     l_freq := lfu_freq s; l_idle := lru_idle s |}.

Definition set_key (s : loading) (key : list Z) (val : string_object) : loading :=
  s<| dbarray := alter <[key:=new_key s val]> (Z.to_nat (dbid s)) (dbarray s) |><| keys_loaded := keys_loaded s + 1 |>.

(** From the key on. *)
Definition add_key (s : loading) (key : list Z) (val : string_object) (r : rio) : option verdict :=
  if i_am_master ctx && negb (aof_preamble ctx) && negb (expiretime s =? -1) && (expiretime s <? now ctx) then
    let s := if feed_repl ctx then s<| fed := fed s ++ [(dbid s, key)] |> else s in
    Some (Next (clear_key (s<| keys_expired := keys_expired s + 1 |>)) r)
  else
    db ← dbarray s !! Z.to_nat (dbid s);
    match db !! key with
    | Some _ => if allow_dup ctx then Some (Next (clear_key (set_key s key val)) r) else Some Panicked
    | None => Some (Next (clear_key (set_key s key val)) r)
    end.

(** The sizes of a database and of a slot are hints that change no key. In a cluster
    the dictionary of the slot is looked up first ([kvstoreDictExpand]), with the
    number as an [int] and no check of its range; the test below is that look-up. The
    expansion itself, which can fail for want of memory, is left out. A corrupt
    string ends the server or only the loading ([rdbReportCorruptRDB]); both are
    [Failed]. *)
Definition load_step (s : loading) (r : rio) : option verdict :=
  on_load (rdbLoadType r) (fun type r =>
  if type =? RDB_OPCODE_EXPIRETIME then '(t, r) ← rdbLoadTime r; add_expire s (i64 (t * 1000)) r
  else if type =? RDB_OPCODE_EXPIRETIME_MS then '(t, r) ← rdbLoadMillisecondTime r; add_expire s t r
  else if type =? RDB_OPCODE_FREQ then on_load (read 1 r) (fun b r => x ← b !! 0%nat; Some (Next (s<| lfu_freq := x |>) r))
  else if type =? RDB_OPCODE_IDLE then on_load (load_len r) (fun '(_, qword) r => Some (Next (s<| lru_idle := i64 qword |>) r))
  else if type =? RDB_OPCODE_EOF then Some (Eof s r)
  else if type =? RDB_OPCODE_SELECTDB then
    on_load (load_len r) (fun '(_, id) r => if id >=? server_dbnum ctx then Some Exited else Some (Next (s<| dbid := id |>) r))
  else if type =? RDB_OPCODE_RESIZEDB then
    on_load (load_len r) (fun _ r => on_load (load_len r) (fun _ r => Some (Next s r)))
  else if type =? RDB_OPCODE_SLOT_INFO then
    on_load (load_len r) (fun '(_, slot_id) r => on_load (load_len r) (fun _ r => on_load (load_len r) (fun _ r =>
      if load_cluster ctx && negb ((0 <=? i32 slot_id) && (i32 slot_id <? CLUSTER_SLOTS)) then Some Overrun else Some (Next s r))))
  else if type =? RDB_OPCODE_AUX then
    on_load (load_string false r) (fun auxkey r => on_load (load_string false r) (fun auxval r => Some (Next (load_aux (text auxkey) (text auxval) s) r)))
  else if type =? RDB_OPCODE_MODULE_AUX then Some (Elsewhere type)
  else if type =? RDB_OPCODE_FUNCTION_PRE_GA then Some Exited
  else if type =? RDB_OPCODE_FUNCTION2 then
    on_load (load_string false r) (fun payload r =>
      if lib_ctx ctx then
        match create_library ctx (functions s) (text payload) with Some libs => Some (Next (s<| functions := libs |>) r) | None => Some Failed end
      else Some (Next s r))
  else if type =? RDB_OPCODE_KEY_META then Some (Elsewhere type)
  else if negb (rdbIsObjectType type) then Some Failed
  else if negb (type =? RDB_TYPE_STRING) then Some (Elsewhere type)
  else on_load (load_string false r) (fun key r => on_load (load_string true r) (fun val r => add_key s (text key) (tryObjectEncodingEx val) r))).

Fixpoint load_loop (n : nat) (s : loading) (r : rio) : option verdict :=
  match n with
  | O => None
  | S n => v ← load_step s r; match v with Next s r => load_loop n s r | _ => Some v end
  end.

(** From the end mark on. *)
Definition verify_checksum (rdbver : Z) (s : loading) (r : rio) : option verdict :=
  if rdbver >=? 5 then
    let expected := rio_cksum r in
    on_load (read 8 r) (fun b r =>
      let cksum := le_val b in
      if rdb_checksum ctx && negb (loading_skip_checksum ctx) && negb (skip_checksum_validation ctx) then
        if cksum =? 0 then Some (Eof s r) else if negb (cksum =? expected) then Some Failed else Some (Eof s r)
      else Some (Eof s r))
  else Some (Eof s r).

(** The steps are at most as many as there are bytes. *)
Definition rdbLoadRioWithLoadingCtx (s : loading) (r : rio) : option verdict :=
  let r := r<| max_processing_chunk := events_interval ctx |> in
  on_load (read 9 r) (fun buf r =>
    if negb (bool_decide (take 5 buf = bs "REDIS")) then Some Failed
    else
      let rdbver := atoi (drop 5 buf) in
      if (rdbver <? 1) || (rdbver >? RDB_VERSION) then Some Failed
      else
        v ← load_loop (S (length (rio_buf r))) (clear_key (s<| dbid := 0 |>)) r;
        match v with Eof s r => verify_checksum rdbver s r | _ => Some v end).
End Load.

(** ** The checksum of a stream *)

Section Update.
Variables (t : list (list Z)) (dual tri addr : Z) (cache : list (list Z)).

(** The address and the state of the cache make no difference. *)
Definition rioGenericUpdateChecksum (cksum : Z) (buf : list Z) : Z :=
  match crc64 t dual tri cache cksum addr buf with Some (crc, _) => crc | None => 0 end.

Definition rdbLoadProgressCallback (ctx : load_ctx) (cksum : Z) (buf : list Z) : Z :=
  if rdb_checksum ctx && negb (loading_skip_checksum ctx) then rioGenericUpdateChecksum cksum buf else cksum.
End Update.
