(* ===== verification/SnapshotTrip.v ===== *)
(** A snapshot that was saved is loaded again: the parts of the file one after the
    other, each with its effect on the state of the loader, and the whole. *)

From stdpp Require Import base list numbers strings gmap.
From coqutil Require Import Datatypes.RecordSetters.
From S2P Require Import Prelude Numbers Memory Sds AofManifest Lzf Rdb Crc64 Snapshot.
Import TriangleBracketNotations.

Local Open Scope Z_scope.

(** ** What a load amounts to *)

(** A key as far as clients see it: its text, its expiration and its usage. *)
Definition seen (l : loaded) : list Z * option Z * Z * Z := (text (l_val l), l_expire l, l_freq l, l_idle l).

(** What a load has done so far. *)
Record core : Type := {
  c_dbs : list (gmap (list Z) (list Z * option Z * Z * Z)); c_functions : list (list Z); c_rsi : option rdbSaveInfo; c_used_mem : Z; c_tasks : list (list Z);
  c_loaded : Z; c_expired : Z; c_fed : list (Z * list Z); c_dbid : Z
}.

Definition core_of (s : loading) : core :=
  {| c_dbs := fmap (M := gmap (list Z)) seen <$> dbarray s; c_functions := functions s; c_rsi := rsi s; c_used_mem := loading_rdb_used_mem s; c_tasks := asm_tasks s;
     c_loaded := keys_loaded s; c_expired := keys_expired s; c_fed := fed s; c_dbid := dbid s |}.

(** Nothing is left over from the key before. *)
Definition ready (s : loading) : Prop :=
  expiretime s = -1 /\ lfu_freq s = -1 /\ lru_idle s = -1 /\ metabits (keyMeta s) = 0 /\ numMeta (keyMeta s) = 0 /\ length (meta (keyMeta s)) = 8%nat.

(** ** What is written *)

Section Puts.
Variable write_ok : list Z -> list Z -> bool.
Variable update_cksum : cksum_fn.
Local Notation writer := (option rio -> option (Z * option rio)).

(** [f] appends [enc], or sets the error flag and returns -1. *)
Definition puts (f : writer) (enc : list Z) : Prop :=
  forall r, rio_ok r -> exists n r', f (Some r) = Some (n, Some r') /\ rio_ok r' /\
    ((0 <= n /\ rio_buf r' = rio_buf r ++ enc /\ summed update_cksum r r' enc) \/ (n = -1 /\ has_flag r' RIO_FLAG_WRITE_ERROR = true)) /\
    ((forall a b, write_ok a b = true) -> has_flag r RIO_FLAG_WRITE_ERROR = false -> 0 <= n /\ has_flag r' RIO_FLAG_WRITE_ERROR = false).

Lemma saves_puts f enc : saves write_ok update_cksum f enc -> puts f enc.
Proof.
  intros [_ S] r W. destruct (S r W) as (n & r' & E & W' & C & A). pose proof (zlen_nonneg enc). exists n, r'. split_and!; [done|done| |].
  - destruct C as [(-> & B & Su)|[-> Fl]]; [left; by split_and!|by right].
  - intros Ok Fl. destruct (A Ok Fl) as [-> ?]. done.
Qed.

Lemma puts_nil n : 0 <= n -> puts (fun rdb => Some (n, rdb)) [].
Proof. intros Hn r W. exists n, r. split_and!; [done|done| |done]. left. rewrite app_nil_r. split_and!; [done|done|by apply summed_refl]. Qed.

(** The two ways to go on after a writer. *)
Lemma puts_bind f g h enc1 enc2 : puts f enc1 -> puts g enc2 -> (forall n k, 0 <= n -> 0 <= k -> 0 <= h n k) ->
  puts (fun rdb => '(n, rdb) ← f rdb; if n =? -1 then Some (-1, rdb) else '(k, rdb) ← g rdb; if k =? -1 then Some (-1, rdb) else Some (h n k, rdb)) (enc1 ++ enc2).
Proof.
  intros F G Hh r W. destruct (F r W) as (n & r1 & -> & W1 & [(Hn & B1 & S1)|[-> Fl]] & A1); cbn [mbind option_bind]; revgoals.
  { exists (-1), r1. split; [done|]. split; [done|]. split; [by right|]. intros Ok Fr. destruct (A1 Ok Fr). lia. }
  destruct (Z.eqb_spec n (-1)); [lia|]. destruct (G r1 W1) as (k & r2 & -> & W2 & [(Hk & B2 & S2)|[-> Fl]] & A2); cbn [mbind option_bind]; revgoals.
  { exists (-1), r2. split; [done|]. split; [done|]. split; [by right|]. intros Ok Fr. destruct (A1 Ok Fr) as [_ Fr1]. destruct (A2 Ok Fr1). lia. }
  destruct (Z.eqb_spec k (-1)); [lia|]. exists (h n k), r2. split_and!; [done|done| |].
  - left. split_and!; [by apply Hh|by rewrite B2, B1, <- app_assoc|by apply (summed_trans _ r r1)].
  - intros Ok Fr. destruct (A1 Ok Fr) as [_ Fr1]. destruct (A2 Ok Fr1) as [_ Fr2]. split; [by apply Hh|done].
Qed.

Lemma puts_ext f g enc : (forall rdb, f rdb = g rdb) -> puts f enc -> puts g enc.
Proof. intros E P r W. destruct (P r W) as (n & r' & Ef & Rest). exists n, r'. by rewrite <- E. Qed.

Lemma then_puts f g a b : puts f a -> puts g b -> puts (then_write f g) (a ++ b).
Proof. intros F G. eapply puts_ext; [|apply (puts_bind f g Z.add a b F G); lia]. done. Qed.

Lemma sum_chain_puts fs encs : Forall2 puts fs encs -> puts (sum_chain fs) (concat encs).
Proof. induction 1 as [|f enc fs encs F _ IH]; [by apply (puts_nil 0)|]. by apply (then_puts f (sum_chain fs)). Qed.

Lemma chain_result fs : forall rdb n rdb', chain fs rdb = Some (n, rdb') -> n = 1 \/ n = -1.
Proof.
  induction fs as [|f fs IH]; intros rdb n rdb' E; cbn [chain] in E; [injection E as <- _; by left|]. destruct (f rdb) as [[k r]|]; [|done]. cbn [mbind option_bind] in E. destruct (k =? -1); [injection E as <- _; by right|]. by apply (IH r n rdb').
Qed.

Lemma chain_puts fs encs : Forall2 puts fs encs -> puts (chain fs) (concat encs).
Proof.
  induction 1 as [|f enc fs encs F _ IH]; [by apply (puts_nil 1)|]. eapply puts_ext; [|apply (puts_bind f (chain fs) (fun _ k => k) enc (concat encs) F IH); lia]. intros rdb. cbn [chain].
  destruct (f rdb) as [[n r]|]; [|done]. cbn [mbind option_bind]. destruct (n =? -1); [done|]. destruct (chain fs r) as [[k r']|] eqn:E; [|done]. cbn [mbind option_bind]. by destruct (chain_result _ _ _ _ E) as [->| ->].
Qed.
End Puts.

(** ** What is read *)

Section Runs.
Variable load_cksum : cksum_fn.
Variables (fresh : nat -> Z) (alloc_ok : Z -> bool).
Variable ctx : load_ctx.
Local Notation load_step := (load_step load_cksum fresh alloc_ok ctx).
Local Notation load_loop := (load_loop load_cksum fresh alloc_ok ctx).

Lemma on_load_loads {A} (p : rio -> option (rio + A * rio)) enc a r rest : loads load_cksum p enc a -> reading r (enc ++ rest) ->
  exists r', reading r' rest /\ summed load_cksum r r' enc /\ forall f, on_load (p r) f = f a r'.
Proof. intros L R. destruct (L r rest R) as (r' & E & R' & Su). exists r'. split_and!; [done|done|]. intros f. by rewrite E. Qed.

Lemma load_type t : loads load_cksum (rdbLoadType load_cksum) [t] t.
Proof. apply (bind_loads _ _ _ [t] [] [t]); [by apply read_loads|]. apply ret_loads. Qed.

(** The steps from one state of the loop to another, over [enc]. *)
Definition runs (s : loading) (r : rio) (enc : list Z) (s' : loading) (r' : rio) : Prop :=
  (exists k, (k <= length enc)%nat /\ forall m, load_loop (k + m) s r = load_loop m s' r') /\ summed load_cksum r r' enc.

Lemma runs_refl s r : runs s r [] s r.
Proof. split; [by exists 0%nat|by apply summed_refl]. Qed.

Lemma runs_trans s1 r1 a s2 r2 b s3 r3 : runs s1 r1 a s2 r2 -> runs s2 r2 b s3 r3 -> runs s1 r1 (a ++ b) s3 r3.
Proof.
  intros [(k1 & L1 & E1) S1] [(k2 & L2 & E2) S2]. split; [|by apply (summed_trans _ r1 r2)]. exists (k1 + k2)%nat. rewrite length_app. split; [lia|]. intros m. by rewrite <- Nat.add_assoc, E1, E2.
Qed.

Lemma runs_step s r enc s' r' : load_step s r = Some (Next s' r') -> summed load_cksum r r' enc -> enc <> [] -> runs s r enc s' r'.
Proof. intros E Su Ne. split; [|done]. exists 1%nat. split; [destruct enc; [done|cbn; lia]|]. intros m. cbn [Nat.add Snapshot.load_loop]. by rewrite E. Qed.
End Runs.

(** ** Parts of a snapshot *)

Section Parts.
Variable write_ok : list Z -> list Z -> bool.
Variables update_cksum load_cksum : cksum_fn.
Variables (addr_of : list Z -> Z) (garbage : Z -> Z) (fresh : nat -> Z).
Variable cfg : config.
Variable isSlotInTrimJob : Z -> bool.
Variable alloc_ok : Z -> bool.
Variable ctx : load_ctx.
Hypothesis garbage_range : forall j, is_u64 (garbage j).
Hypothesis memory : forall n, alloc_ok n = true.

Local Notation writer := (option rio -> option (Z * option rio)).
Local Notation puts := (puts write_ok update_cksum).
Local Notation loads := (loads load_cksum).
Local Notation runs := (runs load_cksum fresh alloc_ok ctx).
Local Notation load_step := (load_step load_cksum fresh alloc_ok ctx).
Local Notation wr_type type := (fun rdb => rdbSaveType write_ok update_cksum rdb type).
Local Notation wr_len len := (rdbSaveLen write_ok update_cksum len).
Local Notation wr_raw s := (rdbSaveRawString write_ok update_cksum (addr_of s) garbage fresh (rdb_compression cfg) s).
Local Notation load_string := (rdbGenericLoadStringObjectUsable load_cksum fresh alloc_ok).

(** The writers [fs] write what the loop, where [P] holds, takes in with effect [eff]. *)
Definition segs (fs : list writer) (P : core -> Prop) (eff : core -> core) : Prop :=
  exists encs, Forall2 puts fs encs /\ Forall is_u8 (concat encs) /\
    forall s r rest, ready s -> P (core_of s) -> reading r (concat encs ++ rest) ->
      exists s' r', runs s r (concat encs) s' r' /\ reading r' rest /\ ready s' /\ core_of s' = eff (core_of s).

Lemma segs_nil P : segs [] P (fun c => c).
Proof. exists []. split_and!; [done|done|]. intros s r rest Rd _ R. exists s, r. split_and!; try done. apply runs_refl. Qed.

Lemma segs_app fs gs (P Q : core -> Prop) e1 e2 : segs fs P e1 -> segs gs Q e2 -> (forall c, P c -> Q (e1 c)) -> segs (fs ++ gs) P (fun c => e2 (e1 c)).
Proof.
  intros (a & Fa & Ba & La) (b & Fb & Bb & Lb) PQ. exists (a ++ b). rewrite concat_app. split_and!; [by apply Forall2_app|by apply Forall_app|]. intros s r rest Rd Ps R. rewrite <- app_assoc in R.
  destruct (La s r _ Rd Ps R) as (s1 & r1 & Rn1 & R1 & Rd1 & E1). destruct (Lb s1 r1 rest Rd1 ltac:(rewrite E1; by apply PQ) R1) as (s2 & r2 & Rn2 & R2 & Rd2 & E2).
  exists s2, r2. split_and!; [by eapply runs_trans|done|done|by rewrite E2, E1].
Qed.

Lemma segs_weaken fs (P Q : core -> Prop) e e' : segs fs Q e -> (forall c, P c -> Q c /\ e' c = e c) -> segs fs P e'.
Proof. intros (a & Fa & Ba & La) H. exists a. split_and!; [done|done|]. intros s r rest Rd Ps R. destruct (H _ Ps) as [Qs ->]. by apply La. Qed.

(** Writers that are chained are one writer. *)
Lemma segs_chain fs P e : segs fs P e -> segs [chain fs] P e.
Proof. intros (a & Fa & Ba & La). exists [concat a]. cbn [concat]. rewrite app_nil_r. split_and!; [|done|done]. repeat constructor. by apply chain_puts. Qed.

Lemma segs_sum_chain fs P e : segs fs P e -> segs [sum_chain fs] P e.
Proof. intros (a & Fa & Ba & La). exists [concat a]. cbn [concat]. rewrite app_nil_r. split_and!; [|done|done]. repeat constructor. by apply sum_chain_puts. Qed.

(** ** Pieces *)

Lemma type_puts t : is_u8 t -> puts (wr_type t) [t].
Proof. intros Ht. apply saves_puts. eapply saves_ext; [|apply raw_saves]. intros rdb. unfold rdbSaveType. by rewrite u8_small. Qed.

Lemma len_puts len : 0 <= len < 2 ^ 64 -> puts (wr_len len) (len_bytes len).
Proof. intros Hl. apply saves_puts. by apply save_len. Qed.

Definition string_ok (s : list Z) : Prop := Forall is_u8 s /\ MAX_OFF <= addr_of s /\ addr_of s + zlen s <= 2 ^ 64.

Lemma raw_string s : string_ok s -> exists enc, Forall is_u8 enc /\ puts (wr_raw s) enc /\ forall encode, exists o, text o = s /\ loads (load_string encode) enc o.
Proof.
  intros (B & Lo & Hi). destruct (save_raw_string write_ok update_cksum load_cksum (addr_of s) garbage fresh alloc_ok Lo garbage_range memory (rdb_compression cfg) s B Hi) as (enc & _ & Be & Sv & Ld).
  exists enc. split_and!; [done|by apply saves_puts|done].
Qed.

(** The same with the effect on the whole state of the loop. *)
Definition pieces (fs : list writer) (P : loading -> Prop) (eff : loading -> loading) : Prop :=
  exists encs, Forall2 puts fs encs /\ Forall is_u8 (concat encs) /\
    forall s r rest, P s -> reading r (concat encs ++ rest) -> exists r', runs s r (concat encs) (eff s) r' /\ reading r' rest.

Lemma pieces_nil P : pieces [] P (fun s => s).
Proof. exists []. split_and!; [done|done|]. intros s r rest _ R. exists r. split; [apply runs_refl|done]. Qed.

Lemma pieces_app fs gs (P Q : loading -> Prop) e1 e2 : pieces fs P e1 -> pieces gs Q e2 -> (forall s, P s -> Q (e1 s)) -> pieces (fs ++ gs) P (fun s => e2 (e1 s)).
Proof.
  intros (a & Fa & Ba & La) (b & Fb & Bb & Lb) PQ. exists (a ++ b). rewrite concat_app. split_and!; [by apply Forall2_app|by apply Forall_app|]. intros s r rest Ps R. rewrite <- app_assoc in R.
  destruct (La s r _ Ps R) as (r1 & Rn1 & R1). destruct (Lb (e1 s) r1 rest (PQ s Ps) R1) as (r2 & Rn2 & R2). exists r2. split; [by eapply runs_trans|done].
Qed.

Lemma pieces_segs fs (P : loading -> Prop) eff (Pc : core -> Prop) effc : pieces fs P eff ->
  (forall s, ready s -> Pc (core_of s) -> P s /\ ready (eff s) /\ core_of (eff s) = effc (core_of s)) -> segs fs Pc effc.
Proof.
  intros (a & Fa & Ba & La) H. exists a. split_and!; [done|done|]. intros s r rest Rd Ps R. destruct (H s Rd Ps) as (Ps' & Rd' & Ec). destruct (La s r rest Ps' R) as (r' & Rn & R'). by exists (eff s), r'.
Qed.

(** One opcode and what comes with it. *)
Lemma opcode (t : Z) fs encs P eff : is_u8 t -> Forall2 puts fs encs -> Forall is_u8 (concat encs) ->
  (forall s r rest, P s -> reading r (concat encs ++ rest) -> exists r', summed load_cksum r r' (concat encs) /\ reading r' rest /\
     forall r0, rdbLoadType load_cksum r0 = Some (inr (t, r)) -> load_step s r0 = Some (Next (eff s) r')) ->
  pieces (wr_type t :: fs) P eff.
Proof.
  intros Ht Ff Be L. exists ([t] :: encs). cbn [concat app]. split_and!; [constructor; [by apply type_puts|done]|by constructor|]. intros s r rest Ps R. destruct (load_type load_cksum t r (concat encs ++ rest) R) as (r1 & E1 & R1 & S1).
  destruct (L s r1 rest Ps R1) as (r' & S2 & R' & St). exists r'. split; [|done]. apply runs_step; [by apply St|by apply (summed_trans _ r r1 r' [t])|done].
Qed.

Ltac opcode_step := intros r0 E0; unfold Snapshot.load_step; rewrite E0; cbn [on_load]; cbv beta;
  cbn [Z.eqb Pos.eqb RDB_OPCODE_EXPIRETIME RDB_OPCODE_EXPIRETIME_MS RDB_OPCODE_FREQ RDB_OPCODE_IDLE RDB_OPCODE_EOF RDB_OPCODE_SELECTDB RDB_OPCODE_RESIZEDB RDB_OPCODE_SLOT_INFO RDB_OPCODE_AUX
       RDB_OPCODE_MODULE_AUX RDB_OPCODE_FUNCTION_PRE_GA RDB_OPCODE_FUNCTION2 RDB_OPCODE_KEY_META RDB_TYPE_STRING].

Lemma len_encs (ls : list Z) : Forall (fun l => 0 <= l < 2 ^ 64 - 1) ls -> Forall2 puts (map (fun l => wr_len l) ls) (map len_bytes ls) /\ Forall is_u8 (concat (map len_bytes ls)).
Proof. induction 1 as [|l ls Hl _ [IH1 IH2]]; [done|]. cbn [map concat]. split; [constructor; [apply len_puts; lia|done]|apply Forall_app; split; [apply len_bytes_u8; lia|done]]. Qed.

(** A length and what follows it. *)
Lemma read_len l r tail : 0 <= l < 2 ^ 64 - 1 -> reading r (len_bytes l ++ tail) -> exists r', reading r' tail /\ summed load_cksum r r' (len_bytes l) /\ forall f, on_load (rdbLoadLen load_cksum r) f = f (false, l) r'.
Proof. intros Hl R. apply on_load_loads; [by apply load_len|done]. Qed.

Lemma select_piece j : 0 <= j < 2 ^ 64 - 1 -> j < server_dbnum ctx -> pieces [wr_type RDB_OPCODE_SELECTDB; wr_len j] (fun _ => True) (fun s => s<| dbid := j |>).
Proof.
  intros Hj Hn. destruct (len_encs [j]) as [Fe Be]; [by constructor|]. apply (opcode RDB_OPCODE_SELECTDB _ _ _ _ ltac:(done) Fe Be). cbn [map concat]. intros s r rest _ R. rewrite app_nil_r in *. destruct (read_len j r rest Hj R) as (r' & R' & Su & E). exists r'. split_and!; [done|done|].
  opcode_step. rewrite E. cbv beta iota. rewrite Z.geb_leb. destruct (Z.leb_spec (server_dbnum ctx) j); [lia|done].
Qed.

Lemma resize_piece a b : 0 <= a < 2 ^ 64 - 1 -> 0 <= b < 2 ^ 64 - 1 -> pieces [wr_type RDB_OPCODE_RESIZEDB; wr_len a; wr_len b] (fun _ => True) (fun s => s).
Proof.
  intros Ha Hb. destruct (len_encs [a; b]) as [Fe Be]; [by repeat (constructor; [done|])|]. apply (opcode RDB_OPCODE_RESIZEDB _ _ _ _ ltac:(done) Fe Be). cbn [map concat]. rewrite app_nil_r. intros s r rest _ R. rewrite <- app_assoc in R. destruct (read_len a r _ Ha R) as (r1 & R1 & S1 & E1). destruct (read_len b r1 _ Hb R1) as (r2 & R2 & S2 & E2).
  exists r2. split_and!; [by apply (summed_trans _ r r1)|done|]. opcode_step. by rewrite E1, E2.
Qed.

Lemma slot_piece a b c : 0 <= a < CLUSTER_SLOTS -> 0 <= b < 2 ^ 64 - 1 -> 0 <= c < 2 ^ 64 - 1 -> pieces [wr_type RDB_OPCODE_SLOT_INFO; wr_len a; wr_len b; wr_len c] (fun _ => True) (fun s => s).
Proof.
  intros Hs Hb Hc. change CLUSTER_SLOTS with 16384 in Hs. assert (0 <= a < 2 ^ 64 - 1) as Ha by lia. destruct (len_encs [a; b; c]) as [Fe Be]; [by repeat (constructor; [done|])|]. apply (opcode RDB_OPCODE_SLOT_INFO _ _ _ _ ltac:(done) Fe Be). cbn [map concat]. rewrite app_nil_r. intros s r rest _ R. rewrite <- !app_assoc in R.
  destruct (read_len a r _ Ha R) as (r1 & R1 & S1 & E1). destruct (read_len b r1 _ Hb R1) as (r2 & R2 & S2 & E2). destruct (read_len c r2 _ Hc R2) as (r3 & R3 & S3 & E3).
  exists r3. split_and!; [apply (summed_trans _ r r1); [done|by apply (summed_trans _ r1 r2)]|done|]. opcode_step. rewrite E1, E2, E3. cbv beta iota. rewrite (i32_small a) by (unfold is_i32; lia). change CLUSTER_SLOTS with 16384.
  destruct (Z.leb_spec 0 a); [|lia]. destruct (Z.ltb_spec a 16384); [|lia]. by rewrite andb_false_r.
Qed.

Lemma aux_piece k v : string_ok k -> string_ok v -> pieces [rdbSaveAuxField write_ok update_cksum addr_of garbage fresh cfg k v] (fun _ => True) (load_aux k v).
Proof.
  intros Hk Hv. destruct (raw_string k Hk) as (ek & Bk & Pk & Lk). destruct (raw_string v Hv) as (ev & Bv & Pv & Lv). destruct (Lk false) as (ok & Tk & Lk'). destruct (Lv false) as (ov & Tv & Lv').
  assert (pieces [wr_type RDB_OPCODE_AUX; wr_raw k; wr_raw v] (fun _ => True) (load_aux k v)) as (encs & F & B & L).
  { apply (opcode _ _ [ek; ev]); [done|by repeat constructor|cbn [concat]; rewrite app_nil_r; by apply Forall_app|]. cbn [concat]. rewrite app_nil_r. intros s r rest _ R. rewrite <- app_assoc in R.
    destruct (on_load_loads load_cksum _ _ _ r _ Lk' R) as (r1 & R1 & S1 & E1). destruct (on_load_loads load_cksum _ _ _ r1 _ Lv' R1) as (r2 & R2 & S2 & E2). exists r2. split_and!; [by apply (summed_trans _ r r1)|done|].
    opcode_step. by rewrite E1, E2, Tk, Tv. }
  exists [concat encs]. cbn [concat]. rewrite app_nil_r. split_and!; [|done|done]. repeat constructor. inversion F as [|? e1 ? l1 P1 F1]; subst. inversion F1 as [|? e2 ? l2 P2 F2]; subst. inversion F2 as [|? e3 ? l3 P3 F3]; subst. inversion F3; subst. cbn [concat]. rewrite app_nil_r.
  by apply then_puts; [|apply then_puts].
Qed.

Definition library_eff (code : list Z) (s : loading) : loading :=
  if lib_ctx ctx then match create_library ctx (functions s) code with Some libs => s<| functions := libs |> | None => s end else s.

Lemma library_piece code : string_ok code -> pieces [wr_type RDB_OPCODE_FUNCTION2; wr_raw code] (fun s => lib_ctx ctx = true -> is_Some (create_library ctx (functions s) code)) (library_eff code).
Proof.
  intros Hc. destruct (raw_string code Hc) as (ec & Bc & Pc & Lc). destruct (Lc false) as (oc & Tc & Lc'). apply (opcode RDB_OPCODE_FUNCTION2 _ [ec]); [done|by repeat constructor|cbn [concat]; by rewrite app_nil_r|]. cbn [concat]. rewrite app_nil_r. intros s r rest Ps R.
  destruct (on_load_loads load_cksum _ _ _ r _ Lc' R) as (r1 & R1 & S1 & E1). exists r1. split_and!; [done|done|]. opcode_step. rewrite E1, Tc. unfold library_eff. destruct (lib_ctx ctx); [|done]. destruct (Ps eq_refl) as [libs El]. by rewrite El.
Qed.

Definition expire_eff (t : Z) (s : loading) : loading :=
  s<| expiretime := t |><| keyMeta := {| numMeta := 1; metabits := u16 (Z.lor (metabits (keyMeta s)) 1); meta := <[7%nat:=u64 t]> (meta (keyMeta s)) |} |>.

Lemma expire_piece t : is_i64 t -> pieces [wr_type RDB_OPCODE_EXPIRETIME_MS; rdbSaveMillisecondTime write_ok update_cksum t] (fun s => numMeta (keyMeta s) = 0) (expire_eff t).
Proof.
  intros Ht. apply (opcode RDB_OPCODE_EXPIRETIME_MS _ [le_bytes 8 t]); [done|repeat constructor; apply saves_puts, raw_saves|cbn [concat]; rewrite app_nil_r; apply le_bytes_u8|]. cbn [concat]. rewrite app_nil_r. intros s r rest N0 R.
  destruct (read_loads load_cksum (le_bytes 8 t) 8 ltac:(unfold zlen; by rewrite le_bytes_length) r rest R) as (r' & E & R' & Su). exists r'. split_and!; [done|done|]. opcode_step. unfold rdbLoadMillisecondTime. rewrite E. cbn [mbind option_bind].
  assert (i64 (le_val (le_bytes 8 t)) = t) as -> by (apply (swrap_le_bytes 8); [lia|exact Ht]). unfold add_expire, keyMetaSpecAdd. rewrite N0. change (u16 (0 + 1)) with 1. cbn [andb Z.leb Z.ltb Z.compare Z.sub Z.add Z.opp KEY_META_ID_MAX Pos.compare Pos.compare_cont].
  change (KEY_META_ID_MAX - 1) with 7. cbn [andb Z.leb Z.ltb Z.compare Pos.compare Pos.compare_cont]. rewrite (rd_flag _ _ R'). unfold expire_eff. destruct s as [? ? ? ? ? ? ? ? ? km ? ? ?], km. cbn. unfold constant. done.
Qed.

Lemma idle_piece q : 0 <= q < 2 ^ 63 -> pieces [wr_type RDB_OPCODE_IDLE; wr_len q] (fun _ => True) (fun s => s<| lru_idle := q |>).
Proof.
  intros Hq. destruct (len_encs [q]) as [Fe Be]; [constructor; [lia|done]|]. apply (opcode RDB_OPCODE_IDLE _ _ _ _ ltac:(done) Fe Be). cbn [map concat]. intros s r rest _ R. rewrite app_nil_r in *. destruct (read_len q r rest ltac:(lia) R) as (r' & R' & Su & E). exists r'. split_and!; [done|done|].
  opcode_step. rewrite E. cbv beta iota. by rewrite i64_small by (unfold is_i64; lia).
Qed.

Lemma freq_piece b : is_u8 b -> pieces [wr_type RDB_OPCODE_FREQ; fun rdb => rdbWriteRaw write_ok update_cksum rdb [b]] (fun _ => True) (fun s => s<| lfu_freq := b |>).
Proof.
  intros Hb. apply (opcode RDB_OPCODE_FREQ _ [[b]]); [done|constructor; [apply saves_puts, raw_saves|constructor]|by constructor|]. cbn [concat app]. intros s r rest _ R.
  destruct (on_load_loads load_cksum (read load_cksum 1) [b] [b] r rest ltac:(by apply read_loads) R) as (r1 & R1 & S1 & E1). exists r1. split_and!; [done|done|]. opcode_step. by rewrite E1.
Qed.

(** A key that is loaded after its time. *)
Definition is_expired (t : Z) : bool := i_am_master ctx && negb (aof_preamble ctx) && negb (t =? -1) && (t <? now ctx).

Definition key_eff (key : list Z) (val : string_object) (s : loading) : loading :=
  if is_expired (expiretime s) then
    clear_key ((if feed_repl ctx then s<| fed := fed s ++ [(dbid s, key)] |> else s)<| keys_expired := keys_expired s + 1 |>)
  else clear_key (set_key s key val).

Definition key_fits (key : list Z) (s : loading) : Prop := exists db, dbarray s !! Z.to_nat (dbid s) = Some db /\ db !! key = None.

Lemma add_key_eff key val s r : key_fits key s -> add_key ctx s key val r = Some (Next (key_eff key val s) r).
Proof.
  intros (db & Ed & Ek). unfold add_key, key_eff, is_expired. destruct (i_am_master ctx && _ && _ && _); [by destruct (feed_repl ctx)|]. rewrite Ed. cbn [mbind option_bind]. by rewrite Ek.
Qed.

Definition value_ok (o : string_object) : Prop := match o with Raw s => string_ok s | Int v => is_i64 v end.

Lemma value_codec o : value_ok o -> exists enc, Forall is_u8 enc /\ puts (rdbSaveStringObject write_ok update_cksum (addr_of (text o)) garbage fresh (rdb_compression cfg) o) enc /\
  forall encode, exists o', text o' = text o /\ loads (load_string encode) enc o'.
Proof.
  destruct o as [s|v]; cbn [value_ok text rdbSaveStringObject]; [apply raw_string|]. intros Hv. destruct (save_long_long write_ok update_cksum load_cksum fresh alloc_ok memory v Hv) as (enc & _ & B & Sv & Ld).
  exists enc. split_and!; [done|by apply saves_puts|done].
Qed.

Lemma text_encoding o : text (tryObjectEncodingEx o) = text o.
Proof. destruct o as [s|v]; [|done]. cbn [tryObjectEncodingEx]. destruct (zlen s <=? 20); [|done]. destruct (string2ll s) as [v|] eqn:E; [|done]. cbn [text]. by destruct (string2ll_inv _ _ E) as [_ ->]. Qed.

Lemma key_piece key o : string_ok key -> value_ok o -> exists o', text o' = text o /\
  pieces [wr_type RDB_TYPE_STRING; wr_raw key; rdbSaveStringObject write_ok update_cksum (addr_of (text o)) garbage fresh (rdb_compression cfg) o] (key_fits key) (key_eff key o').
Proof.
  intros Hk Ho. destruct (raw_string key Hk) as (ek & Bk & Pk & Lk). destruct (Lk false) as (ok & Tk & Lk'). destruct (value_codec o Ho) as (ev & Bv & Pv & Lv). destruct (Lv true) as (ov & Tv & Lv').
  exists (tryObjectEncodingEx ov). split; [by rewrite text_encoding|]. apply (opcode RDB_TYPE_STRING _ [ek; ev]); [done|by repeat constructor|cbn [concat]; rewrite app_nil_r; by apply Forall_app|]. cbn [concat]. rewrite app_nil_r. intros s r rest Kf R. rewrite <- app_assoc in R.
  destruct (on_load_loads load_cksum _ _ _ r _ Lk' R) as (r1 & R1 & S1 & E1). destruct (on_load_loads load_cksum _ _ _ r1 _ Lv' R1) as (r2 & R2 & S2 & E2). exists r2. split_and!; [by apply (summed_trans _ r r1)|done|].
  opcode_step. cbn [rdbIsObjectType Z.geb Z.leb Z.compare andb orb negb]. rewrite E1, E2, Tk. by apply add_key_eff.
Qed.

Lemma pieces_weaken fs (P Q : loading -> Prop) e : pieces fs Q e -> (forall s, P s -> Q s) -> pieces fs P e.
Proof. intros (a & Fa & Ba & La) H. exists a. split_and!; [done|done|]. intros s r rest Ps R. apply La; [by apply H|done]. Qed.

Lemma pieces_if (b : bool) fs P e : pieces fs P e -> pieces (if b then fs else []) P (fun s => if b then e s else s).
Proof. intros H. destruct b; [done|apply pieces_nil]. Qed.

(** ** A key *)

Definition entry_ok (e : entry) : Prop := string_ok (e_key e) /\ value_ok (e_val e) /\ is_i64 (e_expire e) /\ 0 <= e_idle e < 2 ^ 63 /\ 0 <= e_slot e < CLUSTER_SLOTS.

Definition entry_seen (e : entry) : list Z * option Z * Z * Z :=
  (text (e_val e), if has_expire e then Some (e_expire e) else None, if save_lfu cfg then u8 (e_freq e) else -1, if save_lru cfg then e_idle e / 1000 else -1).

Definition core_add (e : entry) (c : core) : core :=
  if is_expired (e_expire e) then
    c<| c_expired := c_expired c + 1 |><| c_fed := if feed_repl ctx then c_fed c ++ [(c_dbid c, e_key e)] else c_fed c |>
  else c<| c_dbs := alter <[e_key e:=entry_seen e]> (Z.to_nat (c_dbid c)) (c_dbs c) |><| c_loaded := c_loaded c + 1 |>.

(** What a key comes with, before it. *)
Definition before_key (e : entry) (s : loading) : loading :=
  let s := if has_expire e then expire_eff (e_expire e) s else s in
  let s := if save_lru cfg then s<| lru_idle := e_idle e / 1000 |> else s in
  if save_lfu cfg then s<| lfu_freq := u8 (e_freq e) |> else s.

Lemma before_key_same e s : dbarray (before_key e s) = dbarray s /\ dbid (before_key e s) = dbid s /\ keys_expired (before_key e s) = keys_expired s.
Proof. unfold before_key, expire_eff. by destruct s, (has_expire e), (save_lru cfg), (save_lfu cfg). Qed.

Lemma entry_pieces e : entry_ok e -> exists o', text o' = text (e_val e) /\
  pieces [rdbSaveKeyValuePair write_ok update_cksum addr_of garbage fresh cfg e] (fun s => numMeta (keyMeta s) = 0 /\ key_fits (e_key e) s) (fun s => key_eff (e_key e) o' (before_key e s)).
Proof.
  intros (Hk & Hv & Ht & Hi & _). destruct (key_piece (e_key e) (e_val e) Hk Hv) as (o' & To & Kp). exists o'. split; [done|].
  assert (0 <= e_idle e / 1000 < 2 ^ 63) as Hq by (split; [apply Z.div_pos; lia|apply Z.div_lt_upper_bound; lia]).
  pose proof (pieces_if (has_expire e) _ _ _ (expire_piece (e_expire e) Ht)) as P1. pose proof (pieces_if (save_lru cfg) _ _ _ (idle_piece (e_idle e / 1000) Hq)) as P2. pose proof (pieces_if (save_lfu cfg) _ _ _ (freq_piece (u8 (e_freq e)) ltac:(unfold is_u8, u8; apply Z.mod_pos_bound; lia))) as P3.
  assert (forall s, key_fits (e_key e) s -> key_fits (e_key e) (before_key e s)) as Kf by (intros s; unfold key_fits; by destruct (before_key_same e s) as (-> & -> & _)).
  pose proof (pieces_app _ _ (fun s => numMeta (keyMeta s) = 0 /\ key_fits (e_key e) s) _ _ _ (pieces_weaken _ _ _ _ P1 (fun s H => proj1 H)) P2 (fun _ _ => I)) as P12.
  pose proof (pieces_app _ _ _ _ _ _ P12 P3 (fun _ _ => I)) as P123. pose proof (pieces_app _ _ _ _ _ _ P123 Kp (fun s H => Kf s (proj2 H))) as (encs & F & B & L).
  exists [concat encs]. cbn [concat]. rewrite app_nil_r. split_and!; [|done|done]. constructor; [|constructor]. rewrite <- !app_assoc in F. by apply chain_puts.
Qed.

Lemma core_alter s key l : fmap (M := gmap (list Z)) seen <$> alter <[key:=l]> (Z.to_nat (dbid s)) (dbarray s) = alter <[key:=seen l]> (Z.to_nat (dbid s)) (fmap (M := gmap (list Z)) seen <$> dbarray s).
Proof. apply list_fmap_alter. apply Forall_forall. intros m _. by rewrite fmap_insert. Qed.

Lemma before_key_state e s : entry_ok e -> ready s -> let s' := before_key e s in
  expiretime s' = e_expire e /\ (forall o, text o = text (e_val e) -> seen (new_key s' o) = entry_seen e) /\ core_of s' = core_of s /\ length (meta (keyMeta s')) = 8%nat.
Proof.
  intros (_ & _ & Ht & _) (E1 & E2 & E3 & E4 & E5 & E6). unfold before_key, expire_eff, entry_seen, has_expire, new_key, seen. destruct s as [? ? ? ? ? ? ? ? ? km ? ? ?], km as [nm mb mt]. cbn in *. unfold constant in *. subst.
  assert (i64 <$> <[7%nat:=u64 (e_expire e)]> mt !! 7%nat = Some (e_expire e)) as Me.
  { rewrite list_lookup_insert_eq by lia. cbn. f_equal. unfold i64, u64. rewrite swrap_mod by lia. by apply i64_small. }
  destruct (Z.eqb_spec (e_expire e) (-1)) as [Em|]; cbn [negb]; (split_and!; [by destruct (save_lru cfg), (save_lfu cfg)| |by destruct (save_lru cfg), (save_lfu cfg)|rewrite ?length_insert; by destruct (save_lru cfg), (save_lfu cfg); cbn; rewrite ?length_insert]).
  - intros o ->. by destruct (save_lru cfg), (save_lfu cfg).
  - intros o ->. rewrite <- Me. by destruct (save_lru cfg), (save_lfu cfg).
Qed.

Lemma entry_state e o' s : entry_ok e -> text o' = text (e_val e) -> ready s ->
  ready (key_eff (e_key e) o' (before_key e s)) /\ core_of (key_eff (e_key e) o' (before_key e s)) = core_add e (core_of s).
Proof.
  intros Ok To Rd. destruct (before_key_state e s Ok Rd) as (Ex & Sn & Ec & Lm). set (s' := before_key e s) in *. clearbody s'. unfold key_eff, core_add. rewrite Ex. destruct (is_expired (e_expire e)).
  - split; [destruct (feed_repl ctx); destruct s' as [? ? ? ? ? ? ? ? ? km ? ? ?], km; done|]. rewrite <- Ec. by destruct (feed_repl ctx), s'.
  - split; [destruct s' as [? ? ? ? ? ? ? ? ? km ? ? ?], km; done|]. rewrite <- Ec, <- (Sn o' To). unfold set_key. pose proof (core_alter s' (e_key e) (new_key s' o')) as Al. destruct s'. unfold core_of in *. cbn in *. unfold constant. cbn. by rewrite Al.
Qed.

Lemma entry_seg e : entry_ok e -> segs [rdbSaveKeyValuePair write_ok update_cksum addr_of garbage fresh cfg e] (fun c => exists db, c_dbs c !! Z.to_nat (c_dbid c) = Some db /\ db !! e_key e = None) (core_add e).
Proof.
  intros Ok. destruct (entry_pieces e Ok) as (o' & To & Pc). eapply pieces_segs; [exact Pc|]. intros s Rd (db & Ed & Ek). split; [|by apply entry_state]. split; [apply Rd|]. cbn in Ed. rewrite list_lookup_fmap in Ed.
  destruct (dbarray s !! Z.to_nat (dbid s)) as [m|] eqn:Em; [|done]. exists m. split; [done|]. cbn in Ed. injection Ed as <-. rewrite lookup_fmap in Ek. by destruct (m !! e_key e).
Qed.

(** ** A database *)

Definition is_trimmed (e : entry) : bool := cluster_enabled cfg && isSlotInTrimJob (e_slot e).

Definition core_entries (es : list entry) (c : core) : core := foldl (fun c e => if is_trimmed e then c else core_add e c) c es.

Definition core_db (j : nat) (es : list entry) (c : core) : core :=
  match es with [] => c | _ => core_entries es (c<| c_dbid := Z.of_nat j |>) end.

(** The current database is there and has none of the keys. *)
Definition room (es : list entry) (c : core) : Prop := exists db, c_dbs c !! Z.to_nat (c_dbid c) = Some db /\ Forall (fun e => db !! e_key e = None) es.

Lemma room_add e es c : e_key e ∉ e_key <$> es -> room (e :: es) c -> room es (if is_trimmed e then c else core_add e c).
Proof.
  intros Ni (db & Ed & F). apply Forall_cons in F as [_ F]. destruct (is_trimmed e); [by exists db|]. unfold core_add. destruct (is_expired (e_expire e)); [exists db; by destruct c|]. exists (<[e_key e:=entry_seen e]> db). split.
  - destruct c. cbn in *. unfold constant. by rewrite list_lookup_alter_eq, Ed.
  - apply Forall_forall. intros e' He'. rewrite Forall_forall in F. rewrite lookup_insert_ne; [by apply F|]. intros E. apply Ni. rewrite E. by apply list_elem_of_fmap_2.
Qed.

Lemma state_pieces_segs fs eff effc : pieces fs (fun _ => True) eff -> (forall s, ready s -> ready (eff s) /\ core_of (eff s) = effc (core_of s)) -> forall P, segs fs P effc.
Proof. intros Pc H P. eapply pieces_segs; [exact Pc|]. intros s Rd _. split; [done|]. by apply H. Qed.

Lemma filter_short {A} (Q : A -> Prop) `{forall x, Decision (Q x)} (l : list A) : 0 <= zlen (filter Q l) <= zlen l.
Proof. unfold zlen. pose proof (length_filter Q l). lia. Qed.

Lemma entries_segs es : zlen es < 2 ^ 63 -> forall rest last, Forall entry_ok rest -> NoDup (e_key <$> rest) ->
  segs (save_entries write_ok update_cksum addr_of garbage fresh cfg isSlotInTrimJob es rest last) (room rest) (core_entries rest).
Proof.
  intros Ls. induction rest as [|e rest IH]; intros last Ok Nd; [apply segs_nil|]. apply Forall_cons in Ok as [Oe Ok]. rewrite fmap_cons, NoDup_cons in Nd. destruct Nd as [Ni Nd]. cbn [save_entries].
  set (fresh_slot := cluster_enabled cfg && _). set (slotw := if fresh_slot then _ else _). set (kvpw := if _ && isSlotInTrimJob _ then _ else _).
  assert (segs slotw (room (e :: rest)) (fun c => c)) as S1.
  { unfold slotw. destruct fresh_slot; [|apply segs_nil]. destruct Oe as (_ & _ & _ & _ & Hs). pose proof (filter_short (fun e' => e_slot e' = e_slot e) es) as L1. pose proof (filter_short (fun e' => has_expire e' = true) (slot_entries es (e_slot e))) as L2.
    unfold slot_entries, count_expires in *. refine (state_pieces_segs _ _ _ (slot_piece _ _ _ _ _ _) _ _); try lia. done. }
  assert (segs kvpw (room (e :: rest)) (fun c => if is_trimmed e then c else core_add e c)) as S2.
  { unfold kvpw. fold (is_trimmed e). destruct (is_trimmed e); [apply segs_nil|]. apply (segs_weaken _ _ _ _ _ (entry_seg e Oe)). intros c (db & Ed & F). split; [|done]. exists db. split; [done|]. by apply Forall_cons in F as [? _]. }
  pose proof (segs_app _ _ _ _ _ _ S1 S2 (fun c H => H)) as S12. rewrite app_assoc. eapply segs_weaken; [exact (segs_app _ _ _ _ _ _ S12 (IH _ Ok Nd) (fun c H => room_add e rest c Ni H))|]. intros c H. split; [exact H|done].
Qed.

Definition db_ok (es : list entry) : Prop := Forall entry_ok es /\ NoDup (e_key <$> es) /\ zlen es < 2 ^ 63.

Lemma db_seg j es : db_ok es -> Z.of_nat j < server_dbnum ctx -> Z.of_nat j < 2 ^ 63 ->
  segs [rdbSaveDb write_ok update_cksum addr_of garbage fresh cfg isSlotInTrimJob (Z.of_nat j) es] (fun c => exists db, c_dbs c !! j = Some db /\ Forall (fun e => db !! e_key e = None) es) (core_db j es).
Proof.
  intros (Ok & Nd & L) Hj Hj'. destruct es as [|e es']; [exists [[]]; split_and!; [constructor; [by apply (puts_nil _ _ 0)|done]|done|]; intros s r rest Rd _ R; exists s, r; split_and!; try done; apply runs_refl|]. set (es := e :: es') in *.
  assert (0 < zlen es) as Pl by (unfold es; rewrite zlen_cons; pose proof (zlen_nonneg es'); lia). pose proof (filter_short (fun e' => has_expire e' = true) es) as L1.
  assert (segs [wr_type RDB_OPCODE_SELECTDB; wr_len (Z.of_nat j); wr_type RDB_OPCODE_RESIZEDB; wr_len (zlen es); wr_len (count_expires es)] (fun _ => True) (fun c => c<| c_dbid := Z.of_nat j |>)) as Hd.
  { pose proof (pieces_app _ _ _ _ _ _ (select_piece (Z.of_nat j) ltac:(lia) Hj) (resize_piece (zlen es) (count_expires es) ltac:(lia) ltac:(unfold count_expires; lia)) (fun _ _ => I)) as Pc.
    refine (state_pieces_segs _ _ _ Pc _ _). intros s Rd. by destruct s. }
  pose proof (entries_segs es L es (-1) Ok Nd) as Es. set (P := fun c => exists db, c_dbs c !! j = Some db /\ Forall (fun e => db !! e_key e = None) es).
  assert (segs ([wr_type RDB_OPCODE_SELECTDB; wr_len (Z.of_nat j); wr_type RDB_OPCODE_RESIZEDB; wr_len (zlen es); wr_len (count_expires es)] ++ save_entries write_ok update_cksum addr_of garbage fresh cfg isSlotInTrimJob es es (-1)) P (core_db j es)) as All.
  { eapply segs_weaken; [eapply (segs_app _ _ P); [eapply segs_weaken; [exact Hd|]; by intros c _|exact Es|]|by intros c Hc]. intros c (db & Ed & F). exists db. split; [|done]. destruct c. cbn. unfold constant. by rewrite Nat2Z.id. }
  apply segs_sum_chain in All. destruct All as (encs & Fe & Be & Le). exists encs. split_and!; [|done|done]. inversion Fe as [|? enc ? l Pe F0]; subst. constructor; [|done]. eapply puts_ext; [|exact Pe]. intros rdb. unfold rdbSaveDb. by destruct (Z.eqb_spec (zlen es) 0); [lia|].
Qed.

(** ** All databases *)

Fixpoint core_dbs (k : nat) (dbs : list (list entry)) (c : core) : core :=
  match dbs with [] => c | es :: dbs => core_dbs (S k) dbs (core_db k es c) end.

Definition rooms (k : nat) (dbs : list (list entry)) (c : core) : Prop :=
  forall i es, dbs !! i = Some es -> exists db, c_dbs c !! (k + i)%nat = Some db /\ Forall (fun e => db !! e_key e = None) es.

Lemma core_add_dbid e c : c_dbid (core_add e c) = c_dbid c.
Proof. unfold core_add. destruct (is_expired (e_expire e)); by destruct c. Qed.

Lemma core_entries_other es : forall c j, j <> Z.to_nat (c_dbid c) -> c_dbs (core_entries es c) !! j = c_dbs c !! j.
Proof.
  induction es as [|e es IH]; intros c j Hj; [done|]. change (core_entries (e :: es) c) with (core_entries es (if is_trimmed e then c else core_add e c)). destruct (is_trimmed e); [by apply IH|]. rewrite IH by (by rewrite core_add_dbid). unfold core_add. destruct (is_expired (e_expire e)); [by destruct c|].
  destruct c. cbn in *. unfold constant. by rewrite list_lookup_alter_ne by done.
Qed.

Lemma core_db_other k es c j : j <> k -> c_dbs (core_db k es c) !! j = c_dbs c !! j.
Proof. intros Hj. destruct es as [|e es]; [done|]. unfold core_db. rewrite core_entries_other; [by destruct c|]. destruct c. cbn. unfold constant. lia. Qed.

Lemma dbs_segs dbs : forall k, Forall db_ok dbs -> Z.of_nat (k + length dbs) <= server_dbnum ctx -> Z.of_nat (k + length dbs) < 2 ^ 63 ->
  segs (imap (fun i es => rdbSaveDb write_ok update_cksum addr_of garbage fresh cfg isSlotInTrimJob (Z.of_nat (k + i)) es) dbs) (rooms k dbs) (core_dbs k dbs).
Proof.
  induction dbs as [|es dbs IH]; intros k Ok Hn Hn'; [apply segs_nil|]. apply Forall_cons in Ok as [Oe Ok]. cbn [length] in *. rewrite imap_cons. rewrite Nat.add_0_r. pose proof (db_seg k es Oe ltac:(lia) ltac:(lia)) as S1. pose proof (IH (S k) Ok ltac:(lia) ltac:(lia)) as S2.
  assert (imap ((fun (i : nat) es => rdbSaveDb write_ok update_cksum addr_of garbage fresh cfg isSlotInTrimJob (Z.of_nat (k + i)) es) ∘ S) dbs = imap (fun (i : nat) es => rdbSaveDb write_ok update_cksum addr_of garbage fresh cfg isSlotInTrimJob (Z.of_nat (S k + i)) es) dbs) as ->
    by (apply imap_ext; intros i x _; cbn; by rewrite Nat.add_succ_r).
  change (core_dbs k (es :: dbs)) with (fun c => core_dbs (S k) dbs (core_db k es c)). eapply (segs_app [_] _ (rooms k (es :: dbs)) _ (core_db k es) (core_dbs (S k) dbs)); [eapply segs_weaken; [exact S1|]|exact S2|].
  - intros c H. split; [|done]. destruct (H 0%nat es eq_refl) as (db & Ed & F). rewrite Nat.add_0_r in Ed. by exists db.
  - intros c H i es' Hi. destruct (H (S i) es' Hi) as (db & Ed & F). exists db. split; [|done]. rewrite core_db_other by lia. by replace (S k + i)%nat with (k + S i)%nat by lia.
Qed.

(** ** Libraries *)

Definition core_lib (code : list Z) (c : core) : core :=
  if lib_ctx ctx then match create_library ctx (c_functions c) code with Some libs => c<| c_functions := libs |> | None => c end else c.

(** The engine takes the libraries one after the other. *)
Fixpoint load_libs (libs : list (list Z)) (fs : list (list Z)) : option (list (list Z)) :=
  match libs with [] => Some fs | code :: libs => fs ← create_library ctx fs code; load_libs libs fs end.

Definition accepts (libs fs : list (list Z)) : Prop := is_Some (load_libs libs fs).

Definition libs_ok (libs : list (list Z)) (c : core) : Prop := lib_ctx ctx = true -> accepts libs (c_functions c).

Definition core_libs (libs : list (list Z)) (c : core) : core := foldl (fun c code => core_lib code c) c libs.

Lemma libs_segs libs : Forall string_ok libs -> segs (flat_map (fun code => [wr_type RDB_OPCODE_FUNCTION2; wr_raw code]) libs) (libs_ok libs) (core_libs libs).
Proof.
  induction 1 as [|code libs Oc _ IH]; [apply segs_nil|]. cbn [flat_map]. set (Q := fun c => lib_ctx ctx = true -> is_Some (create_library ctx (c_functions c) code)).
  assert (segs [wr_type RDB_OPCODE_FUNCTION2; wr_raw code] Q (core_lib code)) as S1.
  { eapply pieces_segs; [exact (library_piece code Oc)|]. intros s Rd H. split; [exact H|]. unfold library_eff, core_lib. destruct (lib_ctx ctx); [|done]. cbn. destruct (create_library ctx (functions s) code); [|done]. by destruct s. }
  change (core_libs (code :: libs)) with (fun c => core_libs libs (core_lib code c)). eapply (segs_app _ _ (libs_ok (code :: libs)) _ (core_lib code) (core_libs libs)); [eapply segs_weaken; [exact S1|]|exact IH|].
  - intros c H. split; [|done]. intros Lc. specialize (H Lc). unfold accepts in H. cbn [load_libs] in H. destruct (create_library ctx (c_functions c) code); [done|by destruct H].
  - intros c H Lc. specialize (H Lc). unfold accepts in H. cbn [load_libs] in H. unfold core_lib. rewrite Lc. destruct (create_library ctx (c_functions c) code); [by destruct c|by destruct H].
Qed.

(** ** Fields about the server *)

Definition aux_fields (i : info) : list (list Z * list Z) :=
  [(bs "redis-ver", cstr (redis_version i)); (bs "redis-bits", sdec 64); (bs "ctime", sdec (ctime i)); (bs "used-mem", sdec (used_memory i))]
  ++ match rsi_fields i with Some (db, id, off) => [(bs "repl-stream-db", sdec db); (bs "repl-id", cstr id); (bs "repl-offset", sdec off)] | None => [] end
  ++ [(bs "aof-base", sdec (if aof_base i then 1 else 0))]
  ++ if cluster_enabled cfg then [(bs "cluster-asm-task", cstr (default [] (asm_task i)))] else [].

Definition core_aux (c : core) (f : list Z * list Z) : core :=
  let '(key, val) := f in
  if hd 0 key =? 37 then c
  else if strcaseeq key (bs "repl-stream-db") then match c_rsi c with Some i => c<| c_rsi := Some (i<| repl_stream_db := atoi val |>) |> | None => c end
  else if strcaseeq key (bs "repl-id") then
    match c_rsi c with Some i => if zlen val =? 40 then c<| c_rsi := Some (i<| repl_id := val |><| repl_id_is_set := true |>) |> else c | None => c end
  else if strcaseeq key (bs "repl-offset") then match c_rsi c with Some i => c<| c_rsi := Some (i<| repl_offset := atoll val |>) |> | None => c end
  else if strcaseeq key (bs "used-mem") then c<| c_used_mem := atoll val |>
  else if strcaseeq key (bs "cluster-asm-task") then c<| c_tasks := c_tasks c ++ [val] |>
  else c.

Lemma load_aux_core key val s : ready s -> ready (load_aux key val s) /\ core_of (load_aux key val s) = core_aux (core_of s) (key, val).
Proof.
  intros Rd. unfold load_aux, core_aux. change (c_rsi (core_of s)) with (rsi s). destruct (hd 0 key =? 37); [done|]. destruct (strcaseeq key (bs "repl-stream-db")); [destruct (rsi s); [by destruct s|done]|].
  destruct (strcaseeq key (bs "repl-id")); [destruct (rsi s); [destruct (zlen val =? 40); [by destruct s|done]|done]|]. destruct (strcaseeq key (bs "repl-offset")); [destruct (rsi s); [by destruct s|done]|].
  destruct (strcaseeq key (bs "used-mem")); [by destruct s|]. destruct (strcaseeq key (bs "cluster-asm-task")); [by destruct s|done].
Qed.

Local Notation aux_writer f := (rdbSaveAuxField write_ok update_cksum addr_of garbage fresh cfg (fst f) (snd f)).

Definition core_info (fields : list (list Z * list Z)) (c : core) : core := foldl core_aux c fields.

Definition field_ok (f : list Z * list Z) : Prop := string_ok (fst f) /\ string_ok (snd f).

Lemma aux_segs fields : Forall field_ok fields -> segs (map (fun f => aux_writer f) fields) (fun _ => True) (core_info fields).
Proof.
  induction 1 as [|[k v] fields [Ok Ov] _ IH]; [apply segs_nil|]. cbn [map fst snd] in *. change (core_info ((k, v) :: fields)) with (fun c => core_info fields (core_aux c (k, v))).
  eapply (segs_app [_] _ (fun _ => True) _ (fun c => core_aux c (k, v)) (core_info fields)); [|exact IH|done]. refine (state_pieces_segs _ _ _ (aux_piece k v Ok Ov) _ _). intros s Rd. by apply load_aux_core.
Qed.

Lemma str_int k v : is_i64 v -> rdbSaveAuxFieldStrInt write_ok update_cksum addr_of garbage fresh cfg k v = rdbSaveAuxField write_ok update_cksum addr_of garbage fresh cfg (cstr k) (sdec v).
Proof.
  intros Hv. pose proof (sdec_length v Hv). unfold rdbSaveAuxFieldStrInt. rewrite ll2string_ok; [|done|change (zlen (repeat 0 (Z.to_nat LONG_STR_SIZE))) with 21; lia].
  do 2 f_equal. unfold zlen. by rewrite Nat2Z.id, take_app_length.
Qed.

Definition info_ok (i : info) : Prop :=
  Forall field_ok (aux_fields i) /\ is_i64 (ctime i) /\ is_i64 (used_memory i) /\ match rsi_fields i with Some (db, _, off) => is_i64 db /\ is_i64 off | None => True end.

Lemma info_seg i : info_ok i -> segs [rdbSaveInfoAuxFields write_ok update_cksum addr_of garbage fresh cfg i] (fun _ => True) (core_info (aux_fields i)).
Proof.
  intros (F & Hc & Hu & Hr). apply aux_segs in F. unfold rdbSaveInfoAuxFields. apply segs_chain. rewrite !str_int by (try done; by destruct (aof_base i)). unfold aux_fields in *. rewrite !map_app in F.
  destruct (rsi_fields i) as [[[db id] off]|]; [destruct Hr as [Hd Ho]; rewrite !str_int by done|]; by destruct (cluster_enabled cfg).
Qed.

(** ** The whole *)

Definition replay (exclude_functions exclude_data : bool) (i : info) (libs : list (list Z)) (dbs : list (list entry)) (c : core) : core :=
  let c := core_info (aux_fields i) c in
  let c := if exclude_functions then c else core_libs libs c in
  if exclude_data then c else core_dbs 0 dbs c.

Lemma core_aux_same c f : c_dbs (core_aux c f) = c_dbs c /\ c_functions (core_aux c f) = c_functions c.
Proof. destruct f as [k v]. unfold core_aux. repeat case_match; done. Qed.

Lemma core_info_same fields : forall c, c_dbs (core_info fields c) = c_dbs c /\ c_functions (core_info fields c) = c_functions c.
Proof.
  induction fields as [|f fields IH]; intros c; [done|]. change (core_info (f :: fields) c) with (core_info fields (core_aux c f)). destruct (IH (core_aux c f)) as [-> ->]. apply core_aux_same.
Qed.

Lemma core_libs_same libs : forall c, c_dbs (core_libs libs c) = c_dbs c.
Proof.
  induction libs as [|code libs IH]; intros c; [done|]. change (core_libs (code :: libs) c) with (core_libs libs (core_lib code c)). rewrite IH. unfold core_lib. destruct (lib_ctx ctx); [|done]. by destruct (create_library ctx (c_functions c) code).
Qed.

(** What the request leaves out is not needed. *)
Definition request_ok (exclude_functions exclude_data : bool) (libs : list (list Z)) (dbs : list (list entry)) (c : core) : Prop :=
  (exclude_functions = false -> Forall string_ok libs /\ libs_ok libs c) /\
  (exclude_data = false -> Forall db_ok dbs /\ Z.of_nat (length dbs) <= server_dbnum ctx /\ Z.of_nat (length dbs) < 2 ^ 63 /\ rooms 0 dbs c).

Lemma body_segs ef ed i libs dbs c0 : info_ok i -> request_ok ef ed libs dbs c0 ->
  segs ([rdbSaveInfoAuxFields write_ok update_cksum addr_of garbage fresh cfg i] ++ (if ef then [] else [rdbSaveFunctions write_ok update_cksum addr_of garbage fresh cfg libs])
        ++ (if ed then [] else imap (fun j es => rdbSaveDb write_ok update_cksum addr_of garbage fresh cfg isSlotInTrimJob (Z.of_nat j) es) dbs)) (fun c => c = c0) (replay ef ed i libs dbs).
Proof.
  intros Hi [Hf Hd]. unfold replay. set (c1 := core_info (aux_fields i) c0). destruct (core_info_same (aux_fields i) c0) as [D1 F1]. fold c1 in D1, F1. set (c2 := if ef then c1 else core_libs libs c1).
  assert (segs (if ef then [] else [rdbSaveFunctions write_ok update_cksum addr_of garbage fresh cfg libs]) (fun c => c = c1) (fun c => if ef then c else core_libs libs c)) as S2.
  { destruct ef; [apply segs_nil|]. destruct (Hf eq_refl) as [Ol Al]. apply segs_sum_chain. apply (segs_weaken _ _ _ _ _ (libs_segs libs Ol)). intros c ->. split; [|done]. intros Lc. rewrite F1. by apply Al. }
  assert (segs (if ed then [] else imap (fun j es => rdbSaveDb write_ok update_cksum addr_of garbage fresh cfg isSlotInTrimJob (Z.of_nat j) es) dbs) (fun c => c = c2) (fun c => if ed then c else core_dbs 0 dbs c)) as S3.
  { destruct ed; [apply segs_nil|]. destruct (Hd eq_refl) as (Od & N1 & N2 & Rm). apply (segs_weaken _ _ _ _ _ (dbs_segs dbs 0 Od ltac:(lia) ltac:(lia))). intros c ->. split; [|done]. intros k es Hk. destruct (Rm k es Hk) as (db & Ed & Fd). exists db. split; [|done].
    rewrite <- Ed. unfold c2. destruct ef; [by rewrite D1|]. by rewrite core_libs_same, D1. }
  pose proof (segs_app _ _ _ _ _ _ (segs_weaken _ (fun c => c = c0) _ _ _ (info_seg i Hi) (fun c _ => conj I eq_refl)) S2 ltac:(by intros c ->)) as S12.
  pose proof (segs_app _ _ _ _ _ _ S12 S3 ltac:(by intros c ->)) as S123. by rewrite <- app_assoc in S123.
Qed.

Lemma write_all r p : (forall a b, write_ok a b = true) -> rio_ok r -> has_flag r RIO_FLAG_WRITE_ERROR = false -> exists r', rioWrite write_ok update_cksum r p = Some (true, r') /\ rio_buf r' = rio_buf r ++ p.
Proof.
  intros Ok W Fl. destruct (raw_saves write_ok update_cksum p) as [_ S]. destruct (S r W) as (n & r' & E & _ & C & A). destruct (A Ok Fl) as [-> _]. cbn [rdbWriteRaw] in E. destruct (rioWrite write_ok update_cksum r p) as [[ok r2]|]; [|done]. cbn [mbind option_bind] in E.
  pose proof (zlen_nonneg p). destruct ok; [|injection E; lia]. injection E as <-. exists r2. split; [done|]. destruct C as [(_ & B & _)|[? _]]; [done|lia].
Qed.

Lemma save_whole ef ed i libs dbs c0 r0 : info_ok i -> request_ok ef ed libs dbs c0 -> (forall a b, write_ok a b = true) -> rio_ok r0 -> has_flag r0 RIO_FLAG_WRITE_ERROR = false -> rio_buf r0 = [] -> rio_cksum r0 = 0 -> lawful update_cksum ->
  exists enc r', rdbSaveRio write_ok update_cksum addr_of garbage fresh cfg isSlotInTrimJob ef ed i libs dbs r0 = Some (true, r') /\ Forall is_u8 enc /\
    (exists sum, rio_buf r' = (magic ++ enc ++ [RDB_OPCODE_EOF]) ++ le_bytes 8 sum /\ (zlen (magic ++ enc ++ [RDB_OPCODE_EOF]) < 2 ^ 64 -> sum = sum_of update_cksum 0 (magic ++ enc ++ [RDB_OPCODE_EOF]))) /\
    forall s r rest, ready s -> core_of s = c0 -> reading r (enc ++ rest) -> exists s' r', runs s r enc s' r' /\ reading r' rest /\ ready s' /\ core_of s' = replay ef ed i libs dbs c0.
Proof.
  intros Hi Hr Ok W Fl B0 C0 Lw. destruct (body_segs ef ed i libs dbs c0 Hi Hr) as (encs & F & Be & Ld).
  assert (puts (chain (([fun rdb => rdbWriteRaw write_ok update_cksum rdb magic; rdbSaveInfoAuxFields write_ok update_cksum addr_of garbage fresh cfg i]
             ++ (if ef then [] else [rdbSaveFunctions write_ok update_cksum addr_of garbage fresh cfg libs])
             ++ (if ed then [] else imap (fun j es => rdbSaveDb write_ok update_cksum addr_of garbage fresh cfg isSlotInTrimJob (Z.of_nat j) es) dbs)
             ++ [wr_type RDB_OPCODE_EOF]))) (magic ++ concat encs ++ [RDB_OPCODE_EOF])) as Pt.
  { replace (magic ++ concat encs ++ [RDB_OPCODE_EOF]) with (concat ([magic] ++ encs ++ [[RDB_OPCODE_EOF]])) by (cbn [concat app]; by rewrite concat_app). apply chain_puts.
    change ([fun rdb => rdbWriteRaw write_ok update_cksum rdb magic; rdbSaveInfoAuxFields write_ok update_cksum addr_of garbage fresh cfg i] ++ ?l) with ([fun rdb => rdbWriteRaw write_ok update_cksum rdb magic] ++ [rdbSaveInfoAuxFields write_ok update_cksum addr_of garbage fresh cfg i] ++ l).
    apply Forall2_app; [constructor; [apply saves_puts, raw_saves|constructor]|]. rewrite !app_assoc. apply Forall2_app; [by rewrite <- app_assoc|constructor; [by apply type_puts|constructor]]. }
  destruct (Pt r0 W) as (n & r1 & E & W1 & C & A). destruct (A Ok Fl) as [Hn Fl1]. destruct C as [(_ & B1 & S1)|[-> _]]; [|lia]. destruct (write_all r1 (le_bytes 8 (rio_cksum r1)) Ok W1 Fl1) as (r2 & E2 & B2).
  exists (concat encs), r2. split_and!; [|done| |].
  - unfold rdbSaveRio. rewrite E. cbn [mbind option_bind]. destruct (Z.eqb_spec n (-1)); [lia|done].
  - exists (rio_cksum r1). split; [by rewrite B2, B1, B0|]. intros L. rewrite (S1 Lw ltac:(by rewrite C0)); [by rewrite C0|]. split; [|done]. apply Forall_app. split; [eapply bool_decide_unpack; vm_compute; exact I|]. apply Forall_app. split; [done|by repeat constructor].
  - intros s r rest Rd Ec R. destruct (Ld s r rest Rd Ec R) as (s' & r' & Rn & R' & Rd' & Ec'). exists s', r'. split_and!; try done. by rewrite Ec', Ec.
Qed.

Definition verifying : bool := rdb_checksum ctx && negb (loading_skip_checksum ctx) && negb (skip_checksum_validation ctx).

(** The state in which the loop starts. *)
Definition start (s : loading) : loading := clear_key (s<| dbid := 0 |>).

Lemma start_ready s : length (meta (keyMeta s)) = 8%nat -> ready (start s).
Proof. intros L. destruct s as [? ? ? ? ? ? ? ? ? km ? ? ?], km. done. Qed.

Lemma eof_step s r rest : reading r (RDB_OPCODE_EOF :: rest) -> exists r', load_step s r = Some (Eof s r') /\ reading r' rest /\ summed load_cksum r r' [RDB_OPCODE_EOF].
Proof. intros R. destruct (load_type load_cksum RDB_OPCODE_EOF r rest R) as (r' & E & R' & Su). exists r'. split; [|done]. unfold Snapshot.load_step. by rewrite E. Qed.

Lemma reading_length r l : reading r l -> (length l <= length (rio_buf r))%nat.
Proof. intros [E _ _ _]. rewrite <- E, length_drop. lia. Qed.

Lemma verify_spec s r sum : reading r (le_bytes 8 sum) -> is_u64 sum -> (verifying = true -> sum = 0 \/ sum = rio_cksum r) -> exists r', verify_checksum load_cksum ctx 14 s r = Some (Eof s r') /\ reading r' [].
Proof.
  intros R U V. rewrite <- (app_nil_r (le_bytes 8 sum)) in R. destruct (read_loads load_cksum (le_bytes 8 sum) 8 ltac:(unfold zlen; by rewrite le_bytes_length) r [] R) as (r' & E & R' & _). exists r'. split; [|done]. unfold verify_checksum. cbn [Z.geb Z.compare Pos.compare Pos.compare_cont]. rewrite E. cbn [on_load].
  rewrite le_val_bytes. change (256 ^ Z.of_nat 8) with (2 ^ 64). rewrite Z.mod_small by exact U. fold verifying. destruct verifying; [|done]. destruct (V eq_refl) as [->| ->]; [done|]. destruct (rio_cksum r =? 0); [done|]. by rewrite Z.eqb_refl.
Qed.

Lemma load_whole enc s0 q sum c' : Forall is_u8 enc -> length (meta (keyMeta s0)) = 8%nat -> 0 <= events_interval ctx -> rio_cksum q = 0 -> lawful load_cksum -> is_u64 sum ->
  let body := magic ++ enc ++ [RDB_OPCODE_EOF] in
  zlen body < 2 ^ 64 -> (verifying = true -> sum = 0 \/ sum = sum_of load_cksum 0 body) -> reading q (body ++ le_bytes 8 sum) ->
  (forall s r rest, ready s -> core_of s = core_of (start s0) -> reading r (enc ++ rest) -> exists s' r', runs s r enc s' r' /\ reading r' rest /\ ready s' /\ core_of s' = c') ->
  exists s' q', rdbLoadRioWithLoadingCtx load_cksum fresh alloc_ok ctx s0 q = Some (Eof s' q') /\ reading q' [] /\ core_of s' = c'.
Proof.
  intros Be Lm Hi C0 Lw U body Lb V R Ld. unfold rdbLoadRioWithLoadingCtx. set (q0 := q<| max_processing_chunk := _ |>). assert (reading q0 (body ++ le_bytes 8 sum)) as R0 by (destruct R as [A1 A2 A3 A4]; by destruct q). assert (rio_cksum q0 = 0) as C0' by (by destruct q). clearbody q0.
  unfold body in R0. rewrite <- !app_assoc in R0. destruct (read_loads load_cksum magic 9 ltac:(done) q0 _ R0) as (r1 & -> & R1 & S1). cbn [on_load]. rewrite bool_decide_eq_true_2 by (vm_compute; reflexivity). cbn [negb]. change (atoi (drop 5 magic)) with 14. cbn [orb Z.ltb Z.gtb Z.compare Pos.compare Pos.compare_cont RDB_VERSION].
  destruct (Ld (start s0) r1 _ (start_ready s0 Lm) eq_refl R1) as (s2 & r2 & [(k & Lk & Ek) S2] & R2 & Rd2 & Ec). pose proof (reading_length _ _ R1) as Lr. rewrite !length_app in Lr. cbn [length] in Lr.
  replace (S (length (rio_buf r1))) with (k + S (length (rio_buf r1) - k))%nat by lia. fold (start s0). rewrite Ek. cbn [Snapshot.load_loop]. destruct (eof_step s2 r2 _ R2) as (r3 & -> & R3 & S3). cbn [mbind option_bind].
  destruct (verify_spec s2 r3 sum R3 U) as (r4 & -> & R4).
  - intros Vf. destruct (V Vf) as [->| ->]; [by left|right]. pose proof (summed_trans _ _ _ _ _ _ S1 (summed_trans _ _ _ _ _ _ S2 S3)) as S123. symmetry. rewrite <- C0'. apply S123; [done|by rewrite C0'|]. split; [|done].
    apply Forall_app. split; [eapply bool_decide_unpack; vm_compute; exact I|]. apply Forall_app. split; [done|by repeat constructor].
  - by exists s2, r4.
Qed.

(** ** What is in the databases in the end *)

Definition kept (e : entry) : bool := negb (is_trimmed e) && negb (is_expired (e_expire e)).

Definition from_entries (es : list entry) (k : list Z) (x : list Z * option Z * Z * Z) : Prop := exists e, e ∈ es /\ e_key e = k /\ kept e = true /\ x = entry_seen e.

Lemma core_entries_db es : forall c db, NoDup (e_key <$> es) -> c_dbs c !! Z.to_nat (c_dbid c) = Some db -> Forall (fun e => db !! e_key e = None) es ->
  exists db', c_dbs (core_entries es c) !! Z.to_nat (c_dbid c) = Some db' /\ forall k x, db' !! k = Some x <-> db !! k = Some x \/ from_entries es k x.
Proof.
  induction es as [|e es IH]; intros c db Nd Ed F; [exists db; split; [done|]; intros k x; split; [by left|]; intros [?|(e & He & _)]; [done|by apply elem_of_nil in He]|].
  rewrite fmap_cons, NoDup_cons in Nd. destruct Nd as [Ni Nd]. pose proof (room_add e es c Ni (ex_intro _ db (conj Ed F))) as (db1 & E1 & F1). change (core_entries (e :: es) c) with (core_entries es (if is_trimmed e then c else core_add e c)).
  assert (c_dbid (if is_trimmed e then c else core_add e c) = c_dbid c) as Di by (destruct (is_trimmed e); [done|apply core_add_dbid]). destruct (IH _ db1 Nd E1 F1) as (db' & E' & Hd). rewrite Di in E1, E'. exists db'. split; [done|]. intros k x. rewrite Hd.
  assert (from_entries (e :: es) k x <-> from_entries es k x \/ (e_key e = k /\ kept e = true /\ x = entry_seen e)) as ->.
  { unfold from_entries. split; [intros (e' & He & R); apply elem_of_cons in He as [->|He]; [by right|left; by exists e']|intros [(e' & He & R)|R]; [exists e'; split; [by right|done]|exists e; split; [by left|done]]]. }
  assert (db1 !! k = Some x <-> db !! k = Some x \/ (e_key e = k /\ kept e = true /\ x = entry_seen e)) as Hdb; [|rewrite Hdb; split; [intros [[?|?]|?]|intros [?|[?|?]]]; auto].
  apply Forall_cons in F as [Fe _]. unfold kept. destruct (is_trimmed e); cbn [negb andb]; [rewrite Ed in E1; injection E1 as <-; split; [by left|intros [?|(_ & ? & _)]; done]|]. unfold core_add in E1. destruct (is_expired (e_expire e)); cbn [negb].
  - assert (db = db1) as <- by (destruct c; cbn in *; rewrite Ed in E1; by injection E1). split; [by left|intros [?|(_ & ? & _)]; done].
  - destruct c. cbn in *. unfold constant in E1. rewrite list_lookup_alter_eq, Ed in E1. injection E1 as <-. destruct (decide (e_key e = k)) as [<-|Nk]; [rewrite lookup_insert_eq, Fe; split; [intros [= <-]; by right|intros [?|(_ & _ & ->)]; done]|rewrite lookup_insert_ne by done; split; [by left|intros [?|(? & _)]; done]].
Qed.

Lemma core_db_content j es c db : NoDup (e_key <$> es) -> c_dbs c !! j = Some db -> Forall (fun e => db !! e_key e = None) es ->
  exists db', c_dbs (core_db j es c) !! j = Some db' /\ forall k x, db' !! k = Some x <-> db !! k = Some x \/ from_entries es k x.
Proof.
  intros Nd Ed F. destruct es as [|e es]; [exists db; split; [done|]; intros k x; split; [by left|]; intros [?|(e & He & _)]; [done|by apply elem_of_nil in He]|].
  destruct (core_entries_db (e :: es) (c<| c_dbid := Z.of_nat j |>) db Nd) as (db' & E' & Hd); [destruct c; cbn; unfold constant; by rewrite Nat2Z.id|done|]. exists db'. split; [|done]. unfold core_db. destruct c. cbn in E'. unfold constant in E'. by rewrite Nat2Z.id in E'.
Qed.

Lemma core_dbs_other dbs : forall k c j, (j < k)%nat -> c_dbs (core_dbs k dbs c) !! j = c_dbs c !! j.
Proof. induction dbs as [|es dbs IH]; intros k c j Hj; [done|]. cbn [core_dbs]. rewrite IH by lia. apply core_db_other. lia. Qed.

Lemma core_dbs_content dbs : forall k c i es, Forall db_ok dbs -> rooms k dbs c -> dbs !! i = Some es ->
  exists db db', c_dbs c !! (k + i)%nat = Some db /\ c_dbs (core_dbs k dbs c) !! (k + i)%nat = Some db' /\ forall key x, db' !! key = Some x <-> db !! key = Some x \/ from_entries es key x.
Proof.
  induction dbs as [|es0 dbs IH]; intros k c i es Ok Rm Hi; [done|]. apply Forall_cons in Ok as [(_ & Nd & _) Ok]. cbn [core_dbs]. destruct i as [|i]; cbn in Hi.
  - injection Hi as ->. destruct (Rm 0%nat es eq_refl) as (db & Ed & F). rewrite Nat.add_0_r in *. destruct (core_db_content k es c db Nd Ed F) as (db' & E' & Hd). exists db, db'. split_and!; [done| |done]. by rewrite core_dbs_other by lia.
  - destruct (IH (S k) (core_db k es0 c) i es Ok) as (db & db' & E1 & E2 & Hd); [|done|].
    + intros j es' Hj. destruct (Rm (S j) es' Hj) as (db & Ed & F). exists db. split; [|done]. rewrite core_db_other by lia. by replace (S k + j)%nat with (k + S j)%nat by lia.
    + rewrite core_db_other in E1 by lia. replace (S k + i)%nat with (k + S i)%nat in * by lia. by exists db, db'.
Qed.
End Parts.

(** ** The checksum *)


Lemma update_value t dual tri addr cache c b : crc64_init = Some t -> cache_state cache -> is_u64 c -> sane b -> rioGenericUpdateChecksum t dual tri addr cache c b = rfold c b.
Proof.
  intros E St U [B L]. destruct init_table as (t' & E' & T). rewrite E in E'. injection E' as <-. destruct (fast_spec t b T B L dual tri cache c addr St U) as (cache' & C & _). unfold rioGenericUpdateChecksum, crc64. by rewrite C.
Qed.

Lemma generic_lawful (f : Z -> list Z -> Z) : (forall c b, is_u64 c -> sane b -> f c b = rfold c b) -> lawful (Some f).
Proof.
  intros H. split_and!; cbn [sum_of].
  - intros c b U B. rewrite H by done. apply rfold_u64; [done|apply B].
  - intros c U. by rewrite H.
  - intros c a b U B. destruct (sane_app a b B) as [Ba Bb]. rewrite (H c a U Ba), (H c _ U B), H; [by rewrite rfold_app| |done]. apply rfold_u64; [done|apply Ba].
Qed.

Lemma none_lawful : lawful None.
Proof. done. Qed.

Lemma some_id_lawful (f : Z -> list Z -> Z) : (forall c b, f c b = c) -> lawful (Some f).
Proof. intros H. split_and!; cbn [sum_of]; intros; rewrite ?H; done. Qed.

(** ** What comes back *)

Lemma core_info_repl cfg i c db id off x : rsi_fields i = Some (db, id, off) -> c_rsi c = Some x -> - 2 ^ 31 <= db < 2 ^ 31 -> is_i64 off -> Forall (fun b => b <> 0) id -> zlen id = 40 ->
  c_rsi (core_info (aux_fields cfg i) c) = Some {| repl_stream_db := db; repl_id_is_set := true; repl_id := id; repl_offset := off |}.
Proof.
  intros E Ex Hd Ho Nz L. unfold aux_fields. rewrite E. unfold core_info. rewrite !foldl_app. cbn [foldl].
  assert (forall c v, core_aux c (bs "redis-ver", v) = c) as A1 by done. assert (forall c v, core_aux c (bs "redis-bits", v) = c) as A2 by done. assert (forall c v, core_aux c (bs "ctime", v) = c) as A3 by done. assert (forall c v, core_aux c (bs "aof-base", v) = c) as A4 by done.
  assert (forall c v, core_aux c (bs "used-mem", v) = c<| c_used_mem := atoll v |>) as A5 by done. assert (forall c v, c_rsi (core_aux c (bs "cluster-asm-task", v)) = c_rsi c) as A6 by (by intros []).
  assert (forall c v x, c_rsi c = Some x -> core_aux c (bs "repl-stream-db", v) = c<| c_rsi := Some (x<| repl_stream_db := atoi v |>) |>) as B1 by (intros c' v x' Hx; cbn [core_aux]; by rewrite Hx).
  assert (forall c v x, c_rsi c = Some x -> zlen v = 40 -> core_aux c (bs "repl-id", v) = c<| c_rsi := Some (x<| repl_id := v |><| repl_id_is_set := true |>) |>) as B2 by (intros c' v x' Hx Hv; cbn [core_aux]; rewrite Hx, Hv; done).
  assert (forall c v x, c_rsi c = Some x -> core_aux c (bs "repl-offset", v) = c<| c_rsi := Some (x<| repl_offset := atoll v |>) |>) as B3 by (intros c' v x' Hx; cbn [core_aux]; by rewrite Hx).
  rewrite A1, A2, A3, A5. destruct c, x. cbn in Ex. subst. assert (cstr id = id) as Ci by (by apply cstr_id). rewrite Ci. erewrite B1 by reflexivity. erewrite B2 by (done || reflexivity). erewrite B3 by reflexivity. rewrite A4.
  assert (atoi (sdec db) = db) as Ad by (unfold atoi; rewrite atoll_sdec by (unfold is_i64; lia); apply i32_small; unfold is_i32; lia). rewrite Ad, atoll_sdec by done.
  destruct (cluster_enabled cfg); cbn [foldl]; [rewrite A6|]; done.
Qed.

Lemma core_lib_rsi ctx code c : c_rsi (core_lib ctx code c) = c_rsi c.
Proof. unfold core_lib. repeat case_match; done. Qed.

Lemma core_libs_rsi ctx libs : forall c, c_rsi (core_libs ctx libs c) = c_rsi c.
Proof. induction libs as [|code libs IH]; intros c; [done|]. change (core_libs ctx (code :: libs) c) with (core_libs ctx libs (core_lib ctx code c)). rewrite IH. apply core_lib_rsi. Qed.

Lemma core_add_rsi cfg ctx e c : c_rsi (core_add cfg ctx e c) = c_rsi c.
Proof. unfold core_add. destruct (is_expired ctx (e_expire e)); by destruct c. Qed.

Lemma core_entries_rsi cfg trim ctx es : forall c, c_rsi (core_entries cfg trim ctx es c) = c_rsi c.
Proof.
  induction es as [|e es IH]; intros c; [done|]. change (core_entries cfg trim ctx (e :: es) c) with (core_entries cfg trim ctx es (if is_trimmed cfg trim e then c else core_add cfg ctx e c)). rewrite IH. destruct (is_trimmed cfg trim e); [done|apply core_add_rsi].
Qed.

Lemma core_dbs_rsi cfg trim ctx dbs : forall k c, c_rsi (core_dbs cfg trim ctx k dbs c) = c_rsi c.
Proof.
  induction dbs as [|es dbs IH]; intros k c; [done|]. cbn [core_dbs]. rewrite IH. destruct es as [|e es]; [done|]. unfold core_db. rewrite core_entries_rsi. by destruct c.
Qed.

Lemma replay_rsi cfg trim ctx ef ed i libs dbs c : c_rsi (replay cfg trim ctx ef ed i libs dbs c) = c_rsi (core_info (aux_fields cfg i) c).
Proof. unfold replay. destruct ed; [|rewrite core_dbs_rsi]; (destruct ef; [done|apply core_libs_rsi]). Qed.

Lemma core_entries_functions cfg trim ctx es : forall c, c_functions (core_entries cfg trim ctx es c) = c_functions c.
Proof.
  induction es as [|e es IH]; intros c; [done|]. change (core_entries cfg trim ctx (e :: es) c) with (core_entries cfg trim ctx es (if is_trimmed cfg trim e then c else core_add cfg ctx e c)). rewrite IH. destruct (is_trimmed cfg trim e); [done|].
  unfold core_add. destruct (is_expired ctx (e_expire e)); by destruct c.
Qed.

Lemma core_dbs_functions cfg trim ctx dbs : forall k c, c_functions (core_dbs cfg trim ctx k dbs c) = c_functions c.
Proof. induction dbs as [|es dbs IH]; intros k c; [done|]. cbn [core_dbs]. rewrite IH. destruct es as [|e es]; [done|]. unfold core_db. rewrite core_entries_functions. by destruct c. Qed.

Lemma core_libs_functions ctx libs : forall c fs, lib_ctx ctx = true -> load_libs ctx libs (c_functions c) = Some fs -> c_functions (core_libs ctx libs c) = fs.
Proof.
  induction libs as [|code libs IH]; intros c fs Lc E; cbn [load_libs] in E; [injection E as <-; done|]. change (core_libs ctx (code :: libs) c) with (core_libs ctx libs (core_lib ctx code c)). destruct (create_library ctx (c_functions c) code) as [fs'|] eqn:Ec; [|done]. cbn [mbind option_bind] in E.
  apply IH; [done|]. unfold core_lib. rewrite Lc, Ec. by destruct c.
Qed.

Lemma replay_functions cfg trim ctx ed i libs dbs c fs : lib_ctx ctx = true -> load_libs ctx libs (c_functions c) = Some fs -> c_functions (replay cfg trim ctx false ed i libs dbs c) = fs.
Proof.
  intros Lc E. destruct (core_info_same (aux_fields cfg i) c) as [_ Ef]. assert (c_functions (core_libs ctx libs (core_info (aux_fields cfg i) c)) = fs) as H by (apply core_libs_functions; [done|by rewrite Ef]). unfold replay. destruct ed; [done|]. by rewrite core_dbs_functions.
Qed.

Lemma replay_content addr_of cfg trim ctx ef i libs dbs c j es : request_ok addr_of ctx ef false libs dbs c -> dbs !! j = Some es ->
  exists db db', c_dbs c !! j = Some db /\ c_dbs (replay cfg trim ctx ef false i libs dbs c) !! j = Some db' /\ forall key x, db' !! key = Some x <-> db !! key = Some x \/ from_entries cfg trim ctx es key x.
Proof.
  intros [_ Rq] Hj. destruct (Rq eq_refl) as (Od & _ & _ & Rm). unfold replay. set (c2 := if ef then _ else _). assert (c_dbs c2 = c_dbs c) as D2 by (destruct (core_info_same (aux_fields cfg i) c) as [D1 _]; unfold c2; destruct ef; [done|by rewrite core_libs_same, D1]).
  destruct (core_dbs_content addr_of cfg trim ctx dbs 0 c2 j es Od) as (db & db' & E1 & E2 & H); [intros k es' Hk; rewrite D2; by apply Rm|done|]. rewrite D2 in E1. by exists db, db'.
Qed.

(** ** Theorems *)

(** How a snapshot is saved: with or without a checksum. *)
Definition save_sum (checksum : bool) (t : list (list Z)) (dual tri addr : Z) (cache : list (list Z)) : cksum_fn :=
  if checksum then Some (rioGenericUpdateChecksum t dual tri addr cache) else None.

(** How it is loaded. *)
Definition load_sum (t : list (list Z)) (dual tri addr : Z) (cache : list (list Z)) (ctx : load_ctx) : cksum_fn := Some (rdbLoadProgressCallback t dual tri addr cache ctx).

Lemma save_sum_lawful checksum t dual tri addr cache : crc64_init = Some t -> cache_state cache -> lawful (save_sum checksum t dual tri addr cache).
Proof. intros E St. destruct checksum; [|exact none_lawful]. apply generic_lawful. intros c b U B. exact (update_value _ _ _ _ _ _ _ E St U B). Qed.

Lemma load_sum_lawful t dual tri addr cache ctx : crc64_init = Some t -> cache_state cache -> lawful (load_sum t dual tri addr cache ctx).
Proof.
  intros E St. unfold load_sum, rdbLoadProgressCallback. destruct (rdb_checksum ctx && negb (loading_skip_checksum ctx)); [|by apply some_id_lawful]. apply generic_lawful. intros c b U B. exact (update_value _ _ _ _ _ _ _ E St U B).
Qed.

(** Where the loader verifies, it sums up what was summed up, or there was no sum. *)
Lemma sums_agree checksum t dual tri addr cache dual' tri' addr' cache' ctx b : crc64_init = Some t -> cache_state cache -> cache_state cache' -> sane b -> verifying ctx = true ->
  sum_of (save_sum checksum t dual tri addr cache) 0 b = 0 \/ sum_of (save_sum checksum t dual tri addr cache) 0 b = sum_of (load_sum t dual' tri' addr' cache' ctx) 0 b.
Proof.
  intros E St St' B V. assert (is_u64 0) as U by (split; [reflexivity|reflexivity]). destruct checksum; [right|left; reflexivity]. unfold verifying in V. apply andb_prop in V as [V _]. cbn [save_sum load_sum sum_of]. unfold rdbLoadProgressCallback. rewrite V.
  rewrite (update_value _ _ _ _ _ _ _ E St U B). symmetry. exact (update_value _ _ _ _ _ _ _ E St' U B).
Qed.

(** A stream to write to, and a server that was just started. *)
Definition new_target (r : rio) : Prop := rio_ok r /\ has_flag r RIO_FLAG_WRITE_ERROR = false /\ rio_buf r = [] /\ rio_cksum r = 0.

Definition new_server (ctx : load_ctx) (s : loading) : Prop := length (meta (keyMeta s)) = 8%nat /\ dbarray s = replicate (Z.to_nat (server_dbnum ctx)) ∅ /\ 0 <= events_interval ctx.

Definition source_ok (addr_of : list Z -> Z) (cfg : config) (ctx : load_ctx) (s : loading) (i : info) (libs : list (list Z)) (dbs : list (list entry)) : Prop :=
  info_ok addr_of cfg i /\ Forall (string_ok addr_of) libs /\ (lib_ctx ctx = true -> is_Some (load_libs ctx libs (functions s))) /\
  Forall (db_ok addr_of) dbs /\ Z.of_nat (length dbs) <= server_dbnum ctx < 2 ^ 31.

Lemma start_dbs n s : dbarray s = replicate n ∅ -> c_dbs (core_of (start s)) = replicate n ∅.
Proof. intros Ed. destruct s. cbn in *. unfold constant. cbn. by rewrite Ed, fmap_replicate, fmap_empty. Qed.

Lemma start_rest s : c_functions (core_of (start s)) = functions s /\ c_rsi (core_of (start s)) = rsi s.
Proof. by destruct s. Qed.

Lemma source_request addr_of cfg ctx s i libs dbs ef ed : new_server ctx s -> source_ok addr_of cfg ctx s i libs dbs -> request_ok addr_of ctx ef ed libs dbs (core_of (start s)).
Proof.
  intros (_ & Ed & _) (_ & Ol & Al & Od & Hn). split; [intros _; split; [done|]; intros Lc; unfold accepts; rewrite (proj1 (start_rest s)); by apply Al|]. intros _. split_and!; [done|lia|lia|]. intros k es Hk. apply lookup_lt_Some in Hk. exists ∅. split; [|apply Forall_forall; intros e _; apply lookup_empty].
  rewrite (start_dbs _ s Ed). apply lookup_replicate_2. lia.
Qed.

(** C4: a snapshot of string keys that was saved is loaded again. Saving to a target
    that takes every block succeeds, whether or not libraries or data are left out,
    and loading what was written into an empty server, in blocks of any size and with
    or without checksums on either side, ends well after the last byte. Then every
    database has exactly the keys that were saved and have not expired, each with its
    text, its expiration and its usage; the libraries went to the engine in order,
    and the position in the replication stream is back. *)
Theorem snapshot_roundtrip write_ok addr_of garbage fresh cfg trim alloc_ok ctx checksum t dual tri addr cache dual' tri' addr' cache' ef ed i libs dbs r0 s0 :
  crc64_init = Some t -> cache_state cache -> cache_state cache' -> (forall a b, write_ok a b = true) -> (forall j, is_u64 (garbage j)) -> (forall n, alloc_ok n = true) ->
  new_target r0 -> new_server ctx s0 -> source_ok addr_of cfg ctx s0 i libs dbs ->
  exists r', rdbSaveRio write_ok (save_sum checksum t dual tri addr cache) addr_of garbage fresh cfg trim ef ed i libs dbs r0 = Some (true, r') /\
    (zlen (rio_buf r') < 2 ^ 64 -> forall q, reading q (rio_buf r') -> rio_cksum q = 0 ->
     exists s' q', rdbLoadRioWithLoadingCtx (load_sum t dual' tri' addr' cache' ctx) fresh alloc_ok ctx s0 q = Some (Eof s' q') /\ reading q' [] /\
       (ed = false -> forall j es, dbs !! j = Some es -> exists m, dbarray s' !! j = Some m /\ forall k x, seen <$> m !! k = Some x <-> from_entries cfg trim ctx es k x) /\
       (ef = false -> lib_ctx ctx = true -> load_libs ctx libs (functions s0) = Some (functions s')) /\
       (forall db id off x, rsi_fields i = Some (db, id, off) -> rsi s0 = Some x -> - 2 ^ 31 <= db < 2 ^ 31 -> Forall (fun b => b <> 0) id -> zlen id = 40 ->
          rsi s' = Some {| repl_stream_db := db; repl_id_is_set := true; repl_id := id; repl_offset := off |})).
Proof.
  intros Et Sc Sc' Ok Hg Hm (W & Fl & B0 & C0) Ns Src. pose proof (save_sum_lawful checksum t dual tri addr cache Et Sc) as Lw. pose proof (load_sum_lawful t dual' tri' addr' cache' ctx Et Sc') as Lw'.
  pose proof (source_request addr_of cfg ctx s0 i libs dbs ef ed Ns Src) as Rq. destruct Ns as (Lm & Ed & Hi). destruct Src as (Oi & Ol & Al & Od & Hn).
  pose proof (fun b => sums_agree checksum t dual tri addr cache dual' tri' addr' cache' ctx b Et Sc Sc') as Ag. clear Et.
  destruct (save_whole write_ok (save_sum checksum t dual tri addr cache) (load_sum t dual' tri' addr' cache' ctx) addr_of garbage fresh cfg trim alloc_ok ctx Hg Hm ef ed i libs dbs (core_of (start s0)) r0 Oi Rq Ok W Fl B0 C0 Lw) as (enc & r' & Sv & Be & (sum & Eb & Es) & Ld).
  exists r'. split; [exact Sv|]. intros L q R Cq. rewrite Eb in R, L. rewrite zlen_app in L. set (body := magic ++ enc ++ [RDB_OPCODE_EOF]) in *. pose proof (zlen_nonneg (le_bytes 8 sum)). assert (sane body) as Sb.
  { split; [|lia]. apply Forall_app. split; [eapply bool_decide_unpack; vm_compute; exact I|]. apply Forall_app. split; [exact Be|by repeat constructor]. }
  assert (is_u64 0) as U0 by (split; reflexivity). specialize (Es ltac:(lia)). assert (is_u64 sum) as Us by (rewrite Es; by apply Lw).
  destruct (load_whole (load_sum t dual' tri' addr' cache' ctx) fresh alloc_ok ctx enc s0 q sum (replay cfg trim ctx ef ed i libs dbs (core_of (start s0))) Be Lm Hi Cq Lw' Us ltac:(apply Sb) ltac:(intros V; rewrite Es; by apply Ag) R Ld) as (s' & q' & El & R' & Ec).
  exists s', q'. split; [exact El|]. split; [exact R'|]. split_and!.
  - intros -> j es Hj. destruct (replay_content addr_of cfg trim ctx ef i libs dbs _ j es Rq Hj) as (db & db' & E1 & E2 & Hdb). assert (db = ∅) as ->.
    { rewrite (start_dbs _ s0 Ed) in E1. by apply lookup_replicate in E1 as [-> _]. }
    rewrite <- Ec in E2. unfold core_of in E2. cbn [c_dbs] in E2. rewrite list_lookup_fmap in E2. destruct (dbarray s' !! j) as [m|]; [|done]. cbn [fmap option_fmap option_map] in E2. injection E2 as <-. exists m. split; [done|]. intros k x. rewrite <- lookup_fmap, Hdb, lookup_empty. split; [by intros [|]|by right].
  - intros -> Lc. destruct (Al Lc) as [fs Ef]. rewrite Ef. f_equal. symmetry. change (functions s') with (c_functions (core_of s')). rewrite Ec. apply replay_functions; [done|]. by rewrite (proj1 (start_rest s0)).
  - intros db id off x Ei Ex Hd Nz Lid. pose proof (f_equal c_rsi Ec) as Er. rewrite replay_rsi, (core_info_repl cfg i _ db id off x Ei) in Er; [exact Er|by rewrite (proj2 (start_rest s0))|done| |done|done]. destruct Oi as (_ & _ & _ & Oi). rewrite Ei in Oi. apply Oi.
Qed.

(** ** Witnesses *)

(** The conditions, decided, for strings that are all at the same address. *)
Definition string_okb (s : list Z) : bool := forallb (fun b => (0 <=? b) && (b <? 256)) s && (zlen s <? 2 ^ 32).

Lemma string_okb_ok s : string_okb s = true -> string_ok (fun _ => 65536) s.
Proof.
  intros H. apply andb_prop in H as [B L]. rewrite forallb_forall in B. split; [|split; [vm_compute; discriminate|lia]]. apply Forall_forall. intros b Hb. apply list_elem_of_In, B in Hb. unfold is_u8. lia.
Qed.

Definition entry_okb (e : entry) : bool :=
  string_okb (e_key e) && match e_val e with Raw s => string_okb s | Int v => (- 2 ^ 63 <=? v) && (v <? 2 ^ 63) end &&
  (- 2 ^ 63 <=? e_expire e) && (e_expire e <? 2 ^ 63) && (0 <=? e_idle e) && (e_idle e <? 2 ^ 63) && (0 <=? e_slot e) && (e_slot e <? CLUSTER_SLOTS).

Lemma entry_okb_ok e : entry_okb e = true -> entry_ok (fun _ => 65536) e.
Proof.
  unfold entry_okb, entry_ok. rewrite !andb_true_iff. intros (((((((K & V) & ?) & ?) & ?) & ?) & ?) & ?). split; [by apply string_okb_ok|]. split; [|unfold is_i64; lia]. destruct (e_val e) as [s|v]; cbn [value_ok]; [by apply string_okb_ok|unfold is_i64; lia].
Qed.

Definition sample_cfg : config := {| rdb_compression := true; cluster_enabled := false; save_lru := true; save_lfu := false |}.

Definition sample_ctx : load_ctx :=
  {| server_dbnum := 2; i_am_master := true; aof_preamble := false; feed_repl := false; allow_dup := false; now := 1000;
     lib_ctx := true; create_library := fun libs code => Some (libs ++ [code]);
     load_cluster := true; events_interval := 100; rdb_checksum := true; loading_skip_checksum := false; skip_checksum_validation := false |}.

Definition sample_info : info :=
  {| redis_version := bs "8.2.1"; ctime := 1700000000; used_memory := 1048576; rsi_fields := Some (1, bs "0123456789012345678901234567890123456789", 4711); aof_base := false; asm_task := None |}.

Definition sample_dbs : list (list entry) :=
  [[{| e_slot := 0; e_key := bs "number"; e_val := Int 12345678901; e_expire := -1; e_idle := 5000; e_freq := 0 |};
    {| e_slot := 0; e_key := bs "old"; e_val := Raw (bs "gone"); e_expire := 999; e_idle := 0; e_freq := 0 |}];
   [{| e_slot := 0; e_key := bs "long"; e_val := Raw sample_text; e_expire := 2000; e_idle := 70000; e_freq := 0 |}]].

Definition sample_server : loading :=
  {| dbarray := [∅; ∅]; functions := []; rsi := Some {| repl_stream_db := -1; repl_id_is_set := false; repl_id := []; repl_offset := -1 |}; loading_rdb_used_mem := 0; asm_tasks := [];
     keys_loaded := 0; keys_expired := 0; fed := []; dbid := 0; keyMeta := {| numMeta := 0; metabits := 0; meta := replicate 8 0 |}; expiretime := 0; lfu_freq := 0; lru_idle := 0 |}.

Definition sample_table : list (list Z) := default [] crc64_init.

Lemma sample_table_init : crc64_init = Some sample_table.
Proof. destruct init_table as (t & E & _). unfold sample_table. rewrite E. reflexivity. Qed.

Definition sample_garbage (i : Z) : Z := 65536 + i mod 64.

Definition sample_saved : option (bool * rio) :=
  rdbSaveRio (fun _ _ => true) (save_sum true sample_table 1 60 0 zero_cache) (fun _ => 65536) sample_garbage (fun _ => 0) sample_cfg (fun _ => false) false false sample_info [bs "#!lua name=lib"] sample_dbs empty_rio.

Lemma sample_source : source_ok (fun _ => 65536) sample_cfg sample_ctx sample_server sample_info [bs "#!lua name=lib"] sample_dbs.
Proof.
  split; [|split; [|split; [|split; [|vm_compute; split; [discriminate|reflexivity]]]]].
  - split; [|split; [split; vm_compute; [discriminate|reflexivity]|split; [split; vm_compute; [discriminate|reflexivity]|split; split; vm_compute; first [discriminate|reflexivity]]]].
    assert (forallb (fun f => string_okb (fst f) && string_okb (snd f)) (aux_fields sample_cfg sample_info) = true) as F by (vm_compute; reflexivity). rewrite forallb_forall in F. apply Forall_forall. intros f Hf. apply list_elem_of_In, F, andb_prop in Hf as [H1 H2]. split; by apply string_okb_ok.
  - constructor; [apply string_okb_ok; vm_compute; reflexivity|constructor].
  - intros _. by eexists.
  - repeat (constructor; [split; [repeat (constructor; [apply entry_okb_ok; vm_compute; reflexivity|]); constructor|split; [eapply bool_decide_unpack; vm_compute; exact I|vm_compute; reflexivity]]|]). constructor.
Qed.

Lemma snapshot_roundtrip_witness : exists r' s' q', sample_saved = Some (true, r') /\
  rdbLoadRioWithLoadingCtx (load_sum sample_table 1024 16384 0 zero_cache sample_ctx) (fun _ => 0) (fun _ => true) sample_ctx sample_server (reader (rio_buf r')) = Some (Eof s' q') /\
  (exists m, dbarray s' !! 1%nat = Some m /\ seen <$> m !! bs "long" = Some (sample_text, Some 2000, -1, 70)) /\
  rsi s' = Some {| repl_stream_db := 1; repl_id_is_set := true; repl_id := bs "0123456789012345678901234567890123456789"; repl_offset := 4711 |}.
Proof.
  destruct (snapshot_roundtrip (fun _ _ => true) (fun _ => 65536) sample_garbage (fun _ => 0) sample_cfg (fun _ => false) (fun _ => true) sample_ctx true sample_table 1 60 0 zero_cache 1024 16384 0 zero_cache false false sample_info [bs "#!lua name=lib"] sample_dbs empty_rio sample_server
    sample_table_init zero_cache_state zero_cache_state) as (r' & Sv & Ld); [reflexivity| |reflexivity| | |exact sample_source|].
  - intros j. unfold sample_garbage. pose proof (Z.mod_pos_bound j 64). unfold is_u64. lia.
  - split; [vm_compute; discriminate|]. split; [reflexivity|]. split; reflexivity.
  - split; [reflexivity|]. split; [reflexivity|vm_compute; discriminate].
  - assert (match sample_saved with Some (true, r) => zlen (rio_buf r) <? 2 ^ 64 | _ => false end = true) as L by (vm_cast_no_check (eq_refl true)). unfold sample_saved in L. rewrite Sv in L. destruct (Ld ltac:(lia) (reader (rio_buf r')) (reader_reading _) eq_refl) as (s' & q' & E & _ & Db & _ & Rs).
    exists r', s', q'. split; [exact Sv|]. split; [exact E|]. split.
    + destruct (Db eq_refl 1%nat _ eq_refl) as (m & Em & Hm). exists m. split; [exact Em|]. apply Hm. eexists. split; [apply list_elem_of_singleton; reflexivity|]. split; [reflexivity|]. split; reflexivity.
    + eapply Rs; [reflexivity|reflexivity|split; vm_compute; [discriminate|reflexivity]|eapply bool_decide_unpack; vm_compute; exact I|reflexivity].
Defined.
