(* ===== verification/SnapshotLoad.v ===== *)
(** Loading a snapshot that may be anything: on every stream of bytes the loader ends or
    comes to a value that is no string, what it accepts has the right checksum, and the
    times of expiration that make it write outside of an array. *)

From stdpp Require Import base list numbers strings gmap.
From coqutil Require Import Datatypes.RecordSetters.
From S2P Require Import Prelude Numbers Memory Sds AofManifest Lzf Rdb Crc64 Snapshot SnapshotTrip.
Import TriangleBracketNotations.

Local Open Scope Z_scope.

Section Load.
Variable load_cksum : cksum_fn.
Variables (fresh : nat -> Z) (alloc_ok : Z -> bool).
Variable ctx : load_ctx.
Local Notation load_step := (load_step load_cksum fresh alloc_ok ctx).
Local Notation load_loop := (load_loop load_cksum fresh alloc_ok ctx).

Definition state_ok (s : loading) : Prop :=
  0 <= numMeta (keyMeta s) <= KEY_META_ID_MAX /\ Z.of_nat (length (dbarray s)) = server_dbnum ctx /\ 0 <= dbid s < server_dbnum ctx.

(** The loader started at [r0] with [l0] ahead and is at [r] with [l] ahead. *)
Definition at_point (r0 : rio) (l0 : list Z) (r : rio) (l : list Z) : Prop := Forall is_u8 l0 /\ exists e, l0 = e ++ l /\ reading r l /\ summed load_cksum r0 r e.

(** The same right behind the end mark. *)
Definition at_end (r0 : rio) (l0 : list Z) (r : rio) (l : list Z) : Prop :=
  Forall is_u8 l0 /\ exists body, l0 = (body ++ [RDB_OPCODE_EOF]) ++ l /\ reading r l /\ summed load_cksum r0 r (body ++ [RDB_OPCODE_EOF]).

(** The types that the model does not go into, and the byte of one in the stream. *)
Definition unmodelled (t : Z) : bool := (t =? RDB_OPCODE_MODULE_AUX) || (t =? RDB_OPCODE_KEY_META) || (rdbIsObjectType t && negb (t =? RDB_TYPE_STRING)).
Definition stops_at (l0 : list Z) (t : Z) : Prop := unmodelled t = true /\ exists pre rest, l0 = pre ++ t :: rest.

(** The end of a step. *)
Definition step_ok (r0 : rio) (l0 l1 : list Z) (v : option verdict) : Prop :=
  exists v', v = Some v' /\ match v' with
    | Next s r => state_ok s /\ exists l, at_point r0 l0 r l /\ (length l < length l1)%nat
    | Eof s r => exists l, at_end r0 l0 r l
    | Elsewhere t => stops_at l0 t
    | _ => True
    end.

Lemma total_point {A} (p : rio -> option (rio + A * rio)) Q r0 l0 r l : total load_cksum p Q -> at_point r0 l0 r l ->
  exists x, p r = Some x /\ match x with inl _ => True | inr (a, r') => Q a /\ exists l', at_point r0 l0 r' l' /\ (length l' <= length l)%nat end.
Proof.
  intros T (B & e & -> & R & S). pose proof B as B'. apply Forall_app in B' as [_ Bl]. destruct (T r l R Bl) as (x & E & Hx). exists x. split; [done|]. destruct x as [|[a r']]; [done|]. destruct Hx as (Qa & enc & l' & -> & R' & S'). split; [done|]. exists l'. split; [|rewrite length_app; lia].
  split; [done|]. exists (e ++ enc). split_and!; [by rewrite app_assoc|done|by apply (summed_trans _ r0 r)].
Qed.

Lemma on_load_ok {A} (p : rio -> option (rio + A * rio)) Q f r0 l0 l1 r l : total load_cksum p Q -> at_point r0 l0 r l -> (length l < length l1)%nat ->
  (forall a r' l', Q a -> at_point r0 l0 r' l' -> (length l' < length l1)%nat -> step_ok r0 l0 l1 (f a r')) -> step_ok r0 l0 l1 (on_load (p r) f).
Proof.
  intros T P L F. destruct (total_point p Q r0 l0 r l T P) as (x & E & Hx). rewrite E. destruct x as [r'|[a r']]; cbn [on_load]; [by eexists|]. destruct Hx as (Qa & l' & P' & L'). apply (F a r' l'); [done|done|lia].
Qed.

Lemma next_ok s r r0 l0 l1 l : state_ok s -> at_point r0 l0 r l -> (length l < length l1)%nat -> step_ok r0 l0 l1 (Some (Next s r)).
Proof. intros S P L. eexists. split; [done|]. split; [done|]. by exists l. Qed.

(** The type takes a byte. *)
Lemma type_point r0 l0 r l : at_point r0 l0 r l ->
  exists x, rdbLoadType load_cksum r = Some x /\ match x with inl _ => True | inr (t, r') => exists l', at_point r0 l0 r' l' /\ (length l' < length l)%nat /\ (exists pre, l0 = pre ++ t :: l') /\ (t = RDB_OPCODE_EOF -> at_end r0 l0 r' l') end.
Proof.
  intros (B & e & -> & R & S). destruct l as [|t l].
  - destruct (read_short load_cksum 1 r [] ltac:(done) R) as (r' & E). unfold rdbLoadType. rewrite E. by eexists.
  - destruct (load_type load_cksum t r l R) as (r' & E & R' & S'). rewrite E. eexists. split; [done|]. exists l.
    assert (e ++ t :: l = (e ++ [t]) ++ l) as El by (by rewrite <- app_assoc). pose proof (summed_trans _ r0 r r' e [t] S S') as St.
    split_and!; [split; [done|]; by exists (e ++ [t])|cbn; lia|by exists e|]. intros ->. split; [done|]. by exists e.
Qed.

Lemma add_expire_ok s t r r0 l0 l1 : state_ok s -> (has_flag r RIO_FLAG_READ_ERROR = true \/ exists l, at_point r0 l0 r l /\ (length l < length l1)%nat) -> step_ok r0 l0 l1 (add_expire s t r).
Proof.
  intros (Hn & Hd & Hi) H. unfold add_expire, keyMetaSpecAdd. unfold KEY_META_ID_MAX in *. assert (u16 (numMeta (keyMeta s) + 1) = numMeta (keyMeta s) + 1) as -> by (unfold u16; apply Z.mod_small; lia).
  destruct (_ && _) eqn:C; [|by eexists]. destruct (has_flag r RIO_FLAG_READ_ERROR); [by eexists|]. destruct H as [|(l & P & L)]; [done|]. apply (next_ok _ _ _ _ _ l); [|done|done]. apply andb_prop in C as [C1%Z.leb_le C2%Z.ltb_lt]. split; [|by destruct s]. change (0 <= numMeta (keyMeta s) + 1 <= KEY_META_ID_MAX). unfold KEY_META_ID_MAX. lia.
Qed.

(** The time of an expiration, in either width. *)
Lemma time_ok n (f : list Z -> Z) d s (g : Z -> Z) r0 l0 l1 r l : 0 <= n -> state_ok s -> at_point r0 l0 r l -> (length l < length l1)%nat ->
  step_ok r0 l0 l1 ('(t, r) ← (x ← read load_cksum n r; match x with inl r => Some (d, r) | inr (b, r) => Some (f b, r) end); add_expire s (g t) r).
Proof.
  intros Hn S P L. destruct (total_point _ _ r0 l0 r l (read_total load_cksum n Hn) P) as (x & E & Hx). destruct P as (_ & e & _ & R & _). destruct (read_fails load_cksum n r l Hn R) as (x' & E' & Hf). rewrite E in E'. injection E' as <-. rewrite E. cbn [mbind option_bind].
  destruct x as [r'|[b r']]; cbn [mbind option_bind]; apply add_expire_ok; try done; [by left|]. right. destruct Hx as (_ & l' & P' & L'). exists l'. split; [done|lia].
Qed.

Lemma add_key_ok s key val r r0 l0 l1 l : state_ok s -> at_point r0 l0 r l -> (length l < length l1)%nat -> step_ok r0 l0 l1 (add_key ctx s key val r).
Proof.
  intros (Hn & Hd & Hi) P L. unfold add_key, KEY_META_ID_MAX in *. destruct (lookup_lt_is_Some_2 (dbarray s) (Z.to_nat (dbid s))) as [db Ed]; [lia|].
  assert (forall s', length (dbarray s') = length (dbarray s) -> dbid s' = dbid s -> state_ok (clear_key s')) as Cl by (intros s' E1 E2; destruct s'; cbn in *; unfold state_ok, KEY_META_ID_MAX; cbn; unfold constant; cbn; lia).
  destruct (i_am_master ctx && _ && _ && _); [apply (next_ok _ _ _ _ _ l); [|done|done]; destruct (feed_repl ctx); apply Cl; by destruct s|]. rewrite Ed. cbn [mbind option_bind].
  assert (state_ok (clear_key (set_key s key val))) as Sk by (apply Cl; destruct s; cbn; unfold constant; [by rewrite length_alter|done]). destruct (db !! key); [destruct (allow_dup ctx); [|by eexists]|]; by apply (next_ok _ _ _ _ _ l).
Qed.

Lemma state_ok_same s s' : state_ok s -> numMeta (keyMeta s') = numMeta (keyMeta s) -> length (dbarray s') = length (dbarray s) -> dbid s' = dbid s -> state_ok s'.
Proof. unfold state_ok. intros (? & ? & ?) -> -> ->. done. Qed.

Lemma load_aux_ok key val s : state_ok s -> state_ok (load_aux key val s).
Proof. intros S. apply (state_ok_same s); [done| | |]; unfold load_aux; repeat case_match; done. Qed.

Lemma load_step_ok s r r0 l0 l : state_ok s -> at_point r0 l0 r l -> step_ok r0 l0 l (load_step s r).
Proof.
  intros S P. destruct (type_point r0 l0 r l P) as (x & E & Hx). unfold Snapshot.load_step. rewrite E. destruct x as [r'|[t r1]]; cbn [on_load]; [by eexists|]. destruct Hx as (l1 & P1 & L1 & Pt & Pe). clear E P.
  destruct (t =? RDB_OPCODE_EXPIRETIME); [by apply (time_ok 4 (fun b => i32 (le_val b)) (-1) s (fun t => i64 (t * 1000)) r0 l0 l r1 l1)|]. destruct (t =? RDB_OPCODE_EXPIRETIME_MS); [by apply (time_ok 8 (fun b => i64 (le_val b)) (2 ^ 63 - 1) s (fun t => t) r0 l0 l r1 l1)|].
  destruct (t =? RDB_OPCODE_FREQ); [eapply on_load_ok; [by apply read_total|exact P1|exact L1|]; intros b r2 l2 [Lb _] P2 L2; destruct b as [|x b]; [done|]; cbn [lookup list_lookup mbind option_bind]; apply (next_ok _ _ _ _ _ l2); [apply (state_ok_same s); by destruct s|done|done]|].
  destruct (t =? RDB_OPCODE_IDLE); [eapply on_load_ok; [apply load_len_total|exact P1|exact L1|]; intros [? q] r2 l2 _ P2 L2; apply (next_ok _ _ _ _ _ l2); [apply (state_ok_same s); by destruct s|done|done]|].
  destruct (Z.eqb_spec t RDB_OPCODE_EOF) as [Et|_]; [eexists; split; [done|]; exists l1; auto|].
  destruct (t =? RDB_OPCODE_SELECTDB).
  { eapply on_load_ok; [apply load_len_total|exact P1|exact L1|]; intros [? id] r2 l2 Hq P2 L2. rewrite Z.geb_leb. destruct (Z.leb_spec (server_dbnum ctx) id); [by eexists|]. apply (next_ok _ _ _ _ _ l2); [|done|done]. destruct S as (? & ? & ?). destruct s. cbn in *. unfold constant. split_and!; cbn; lia. }
  destruct (t =? RDB_OPCODE_RESIZEDB); [eapply on_load_ok; [apply load_len_total|exact P1|exact L1|]; intros ? r2 l2 _ P2 L2; eapply on_load_ok; [apply load_len_total|exact P2|exact L2|]; intros ? r3 l3 _ P3 L3; by apply (next_ok _ _ _ _ _ l3)|].
  destruct (t =? RDB_OPCODE_SLOT_INFO); [eapply on_load_ok; [apply load_len_total|exact P1|exact L1|]; intros [? slot] r2 l2 _ P2 L2; eapply on_load_ok; [apply load_len_total|exact P2|exact L2|]; intros ? r3 l3 _ P3 L3; eapply on_load_ok; [apply load_len_total|exact P3|exact L3|]; intros ? r4 l4 _ P4 L4; destruct (_ && _); [by eexists|by apply (next_ok _ _ _ _ _ l4)]|].
  destruct (t =? RDB_OPCODE_AUX); [eapply on_load_ok; [apply load_string_total|exact P1|exact L1|]; intros k r2 l2 _ P2 L2; eapply on_load_ok; [apply load_string_total|exact P2|exact L2|]; intros v r3 l3 _ P3 L3; apply (next_ok _ _ _ _ _ l3); [by apply load_aux_ok|done|done]|].
  assert (unmodelled t = true -> step_ok r0 l0 l (Some (Elsewhere t))) as Un by (intros U; eexists; split; [done|]; split; [done|]; destruct Pt as [pre ->]; eauto).
  unfold unmodelled in Un. destruct (t =? RDB_OPCODE_MODULE_AUX); [by apply Un|]. destruct (t =? RDB_OPCODE_FUNCTION_PRE_GA); [by eexists|].
  destruct (t =? RDB_OPCODE_FUNCTION2).
  { eapply on_load_ok; [apply load_string_total|exact P1|exact L1|]; intros k r2 l2 _ P2 L2. destruct (lib_ctx ctx); [destruct (create_library ctx (functions s) (text k)); [|by eexists]|]; apply (next_ok _ _ _ _ _ l2); try done. }
  destruct (t =? RDB_OPCODE_KEY_META); [by apply Un|]. destruct (rdbIsObjectType t); cbn [negb]; [|by eexists]. destruct (negb (t =? RDB_TYPE_STRING)); [by apply Un|].
  eapply on_load_ok; [apply load_string_total|exact P1|exact L1|]; intros k r2 l2 _ P2 L2. eapply on_load_ok; [apply load_string_total|exact P2|exact L2|]; intros v r3 l3 _ P3 L3. by apply (add_key_ok _ _ _ _ _ _ _ l3).
Qed.

Lemma load_loop_ok : forall n s r r0 l0 l, state_ok s -> at_point r0 l0 r l -> (length l < n)%nat ->
  exists v, load_loop n s r = Some v /\ match v with Next _ _ => False | Eof s' r' => exists l', at_end r0 l0 r' l' | Elsewhere t => stops_at l0 t | _ => True end.
Proof.
  induction n as [|n IH]; intros s r r0 l0 l S P L; [lia|]. cbn [Snapshot.load_loop]. destruct (load_step_ok s r r0 l0 l S P) as (v & -> & Hv). cbn [mbind option_bind]. destruct v as [s' r'|s' r'| | | | |]; try by eexists. destruct Hv as (S' & l' & P' & L'). apply (IH s' r' r0 l0 l'); [done|done|lia].
Qed.

Lemma at_start r l : reading r l -> Forall is_u8 l -> at_point r l r l.
Proof. intros R B. split; [done|]. exists []. split_and!; [done|done|by apply summed_refl]. Qed.

(** A snapshot that is accepted: the bytes that were read end with the end mark and the
    eight bytes of the sum. *)
Definition sum_right (r0 : rio) (l0 : list Z) (r' : rio) : Prop :=
  exists body b rest, l0 = (body ++ [RDB_OPCODE_EOF]) ++ b ++ rest /\ zlen b = 8 /\ reading r' rest /\
    (le_val b = 0 \/ exists r, summed load_cksum r0 r (body ++ [RDB_OPCODE_EOF]) /\ rio_cksum r = le_val b).

Lemma verify_ok ver s r r0 l0 l : at_end r0 l0 r l -> exists v, verify_checksum load_cksum ctx ver s r = Some v /\
  match v with Next _ _ | Elsewhere _ => False | Eof _ r' => verifying ctx = true -> 5 <= ver -> sum_right r0 l0 r' | _ => True end.
Proof.
  intros P. unfold verify_checksum. rewrite Z.geb_leb. destruct (Z.leb_spec 5 ver); [|eexists; split; [done|]; intros _ ?; lia]. destruct P as (B & body & El & R & S). assert (Forall is_u8 l) as Bl by (rewrite El in B; by apply Forall_app in B as [_ ?]).
  destruct (Z.lt_ge_cases (zlen l) 8) as [Sh|Lo]; [destruct (read_short load_cksum 8 r l Sh R) as (r' & ->); by eexists|]. rewrite <- (take_drop 8 l) in R. assert (zlen (take 8 l) = 8) as L8 by (apply (zlen_take l 8); lia).
  destruct (read_loads load_cksum (take 8 l) 8 ltac:(done) r _ R) as (r' & -> & R' & _). cbn [on_load]. fold (verifying ctx).
  assert (le_val (take 8 l) = 0 \/ le_val (take 8 l) = rio_cksum r -> sum_right r0 l0 r') as Sr.
  { intros H'. exists body, (take 8 l), (drop 8 l). split; [by rewrite take_drop|]. split; [done|]. split; [done|]. destruct H' as [?|Er]; [by left|right]. exists r. split; [done|]. done. }
  destruct (verifying ctx); [|by eexists]. destruct (Z.eqb_spec (le_val (take 8 l)) 0); [eexists; split; [done|]; intros _ _; apply Sr; by left|]. destruct (Z.eqb_spec (le_val (take 8 l)) (rio_cksum r)); cbn [negb]; [|by eexists]. eexists. split; [done|]. intros _ _. apply Sr. by right.
Qed.

Lemma load_any s r l : reading r l -> Forall is_u8 l -> 0 <= events_interval ctx -> 1 <= server_dbnum ctx -> Z.of_nat (length (dbarray s)) = server_dbnum ctx ->
  exists v, rdbLoadRioWithLoadingCtx load_cksum fresh alloc_ok ctx s r = Some v /\
    match v with Next _ _ => False | Eof _ r' => verifying ctx = true -> 5 <= atoi (take 4 (drop 5 l)) -> exists r0, rio_cksum r0 = rio_cksum r /\ sum_right r0 l r' | Elsewhere t => stops_at l t | _ => True end.
Proof.
  intros R B Hi Hn Hd. unfold rdbLoadRioWithLoadingCtx. set (q := r<| max_processing_chunk := _ |>). assert (reading q l /\ rio_cksum q = rio_cksum r) as [Rq Cq] by (destruct R as [A1 A2 A3 A4]; by destruct r). clearbody q. pose proof (at_start q l Rq B) as P0.
  destruct (Z.lt_ge_cases (zlen l) 9) as [Sh|Lo]; [destruct (read_short load_cksum 9 q l Sh Rq) as (r' & ->); by eexists|]. pose proof Rq as Rq'. rewrite <- (take_drop 9 l) in Rq'. assert (zlen (take 9 l) = 9) as L9 by (apply (zlen_take l 9); lia).
  destruct (read_loads load_cksum (take 9 l) 9 ltac:(done) q _ Rq') as (r1 & -> & R1 & S1). cbn [on_load]. destruct (negb (bool_decide _)); [by eexists|]. destruct (_ || _); [by eexists|].
  assert (at_point q l r1 (drop 9 l)) as P1 by (split; [done|]; exists (take 9 l); by rewrite take_drop). pose proof (reading_length _ _ R1) as Lr.
  destruct (load_loop_ok (S (length (rio_buf r1))) (clear_key (s<| dbid := 0 |>)) r1 q l (drop 9 l)) as (v & -> & Hv); [|done|lia|].
  { destruct s as [? ? ? ? ? ? ? ? ? km ? ? ?], km. split_and!; [done|done|exact Hd|done|]. cbn. unfold constant. cbn. lia. }
  cbn [mbind option_bind]. destruct v as [s' r'|s' r'| | | | |]; [done| |by eexists..]. destruct Hv as (l' & P'). destruct (verify_ok (atoi (drop 5 (take 9 l))) s' r' q l l' P') as (v & -> & Hv). exists v. split; [done|]. destruct v; try done. intros V Hver. exists q. split; [done|]. apply Hv; [done|].
  by rewrite skipn_firstn_comm.
Qed.
End Load.

(** ** Theorems *)

(** C18: what loading any stream of bytes comes to, with every read within the stream:
    success, an error, an exit or a panic, one of the two accesses out of bounds shown
    below ([Overrun]), or the byte of a type other than strings, whose loaders are not
    modelled; it does not run on. Where sums are verified, a snapshot of version 5 or
    later that is accepted ends, where the loader stopped reading, with the end mark and
    eight bytes that are zero or the sum of all bytes before them. *)
Theorem snapshot_load_ends fresh alloc_ok ctx t dual tri addr cache s r l : crc64_init = Some t -> cache_state cache ->
  reading r l -> Forall is_u8 l -> zlen l < 2 ^ 64 -> rio_cksum r = 0 -> 0 <= events_interval ctx -> 1 <= server_dbnum ctx -> Z.of_nat (length (dbarray s)) = server_dbnum ctx ->
  exists v, rdbLoadRioWithLoadingCtx (load_sum t dual tri addr cache ctx) fresh alloc_ok ctx s r = Some v /\
    match v with
    | Next _ _ => False
    | Elsewhere ty => unmodelled ty = true /\ exists pre rest, l = pre ++ ty :: rest
    | Eof _ r' => verifying ctx = true -> 5 <= atoi (take 4 (drop 5 l)) ->
        exists body sum rest, l = (body ++ [RDB_OPCODE_EOF]) ++ sum ++ rest /\ zlen sum = 8 /\ reading r' rest /\
          (le_val sum = 0 \/ le_val sum = _crc64 0 (body ++ [RDB_OPCODE_EOF]))
    | _ => True
    end.
Proof.
  intros Et St R B L C0 Hi Hn Hd. pose proof (load_sum_lawful t dual tri addr cache ctx Et St) as Lw. destruct (load_any (load_sum t dual tri addr cache ctx) fresh alloc_ok ctx s r l R B Hi Hn Hd) as (v & -> & Hv). exists v. split; [reflexivity|].
  destruct v as [| s' r' | | | | |]; try exact Hv. intros V Hver. destruct (Hv V Hver) as (r0 & Cr & body & b & rest & El & Lb & Rr & Hs). exists body, b, rest. split; [exact El|]. split; [exact Lb|]. split; [exact Rr|].
  destruct Hs as [Z0|(r1 & Su & Er)]; [by left|right]. set (all := body ++ [RDB_OPCODE_EOF]) in *. assert (sane all) as Sb.
  { rewrite El in B, L. apply Forall_app in B as [Bb _]. rewrite zlen_app in L. pose proof (zlen_nonneg (b ++ rest)). split; [exact Bb|lia]. }
  assert (is_u64 0) as U0 by (split; reflexivity). rewrite <- Er, (Su Lw ltac:(by rewrite Cr, C0) Sb), Cr, C0. unfold verifying in V. apply andb_prop in V as [V _]. cbn [load_sum sum_of]. unfold rdbLoadProgressCallback. rewrite V, (update_value _ _ _ _ _ _ _ Et St U0 Sb).
  rewrite (bitwise_spec 0 all U0 (proj1 Sb)). reflexivity.
Qed.

(** ** Too many times *)

Section Overrun.
Variable load_cksum : cksum_fn.
Variables (fresh : nat -> Z) (alloc_ok : Z -> bool).
Variable ctx : load_ctx.

Definition expire_bytes (t : Z) : list Z := RDB_OPCODE_EXPIRETIME_MS :: le_bytes 8 t.

Lemma expire_step s r t rest : is_i64 t -> reading r (expire_bytes t ++ rest) -> exists r', load_step load_cksum fresh alloc_ok ctx s r = add_expire s t r' /\ reading r' rest.
Proof.
  intros Ht R. destruct (load_type load_cksum RDB_OPCODE_EXPIRETIME_MS r (le_bytes 8 t ++ rest) R) as (r1 & E1 & R1 & _). destruct (read_loads load_cksum (le_bytes 8 t) 8 ltac:(unfold zlen; by rewrite le_bytes_length) r1 rest R1) as (r2 & E2 & R2 & _).
  exists r2. split; [|done]. unfold load_step. rewrite E1. cbn [on_load]. change (RDB_OPCODE_EXPIRETIME_MS =? RDB_OPCODE_EXPIRETIME) with false. change (RDB_OPCODE_EXPIRETIME_MS =? RDB_OPCODE_EXPIRETIME_MS) with true. cbv iota. unfold rdbLoadMillisecondTime. rewrite E2. cbn [mbind option_bind].
  by assert (i64 (le_val (le_bytes 8 t)) = t) as -> by (apply (swrap_le_bytes 8); [lia|exact Ht]).
Qed.

(** The header of the file. *)
Lemma past_magic s r l : 0 <= events_interval ctx -> reading r (magic ++ l) -> exists s' r', reading r' l /\ numMeta (keyMeta s') = 0 /\
  rdbLoadRioWithLoadingCtx load_cksum fresh alloc_ok ctx s r = (v ← load_loop load_cksum fresh alloc_ok ctx (S (length (rio_buf r'))) s' r'; match v with Eof s r => verify_checksum load_cksum ctx 14 s r | _ => Some v end).
Proof.
  intros Hi R. unfold rdbLoadRioWithLoadingCtx. set (q := r<| max_processing_chunk := _ |>). assert (reading q (magic ++ l)) as Rq by (destruct R as [A1 A2 A3 A4]; by destruct r). clearbody q.
  destruct (read_loads load_cksum magic 9 ltac:(done) q _ Rq) as (r1 & -> & R1 & _). cbn [on_load]. rewrite bool_decide_eq_true_2 by (vm_compute; reflexivity). change (atoi (drop 5 magic)) with 14. cbn [negb orb Z.ltb Z.gtb Z.compare Pos.compare Pos.compare_cont RDB_VERSION].
  eexists _, r1. split; [done|]. split; [|reflexivity]. by destruct s.
Qed.

Definition slot_bytes (slot keys expires : Z) : list Z := RDB_OPCODE_SLOT_INFO :: len_bytes slot ++ len_bytes keys ++ len_bytes expires.

Lemma slot_step s r slot keys expires rest : load_cluster ctx = true -> CLUSTER_SLOTS <= slot < 2 ^ 31 -> 0 <= keys < 2 ^ 64 - 1 -> 0 <= expires < 2 ^ 64 - 1 ->
  reading r (slot_bytes slot keys expires ++ rest) -> load_step load_cksum fresh alloc_ok ctx s r = Some Overrun.
Proof.
  change CLUSTER_SLOTS with 16384. intros Hc Hs Hk He R. cbn [slot_bytes app] in R. rewrite <- !app_assoc in R. destruct (load_type load_cksum RDB_OPCODE_SLOT_INFO r _ R) as (r1 & E1 & R1 & _).
  destruct (read_len load_cksum slot r1 _ ltac:(lia) R1) as (r2 & R2 & _ & E2). destruct (read_len load_cksum keys r2 _ Hk R2) as (r3 & R3 & _ & E3). destruct (read_len load_cksum expires r3 _ He R3) as (r4 & R4 & _ & E4).
  unfold load_step. rewrite E1. cbn [on_load]. cbn [Z.eqb Pos.eqb RDB_OPCODE_EXPIRETIME RDB_OPCODE_EXPIRETIME_MS RDB_OPCODE_FREQ RDB_OPCODE_IDLE RDB_OPCODE_EOF RDB_OPCODE_SELECTDB RDB_OPCODE_RESIZEDB RDB_OPCODE_SLOT_INFO].
  rewrite E2, E3, E4, Hc, (i32_small slot) by (unfold is_i32; lia). cbv beta iota. change CLUSTER_SLOTS with 16384. destruct (Z.ltb_spec slot 16384); [lia|]. by rewrite andb_false_r.
Qed.

(** Eight times fit, the ninth does not. *)
Lemma expires_overrun : forall ts s r rest m, Forall is_i64 ts -> ts <> [] -> reading r (concat (map expire_bytes ts) ++ rest) -> 0 <= numMeta (keyMeta s) -> numMeta (keyMeta s) + zlen ts = 9 ->
  load_loop load_cksum fresh alloc_ok ctx (length ts + m) s r = Some Overrun.
Proof.
  induction ts as [|t ts IH]; intros s r rest m F Ne R N0 N9; [done|]. apply Forall_cons in F as [Ht F]. cbn [map concat] in R. rewrite <- app_assoc in R. destruct (expire_step s r t _ Ht R) as (r' & E & R'). cbn [length Nat.add load_loop]. rewrite E. rewrite zlen_cons in N9. pose proof (zlen_nonneg ts).
  unfold add_expire, keyMetaSpecAdd, KEY_META_ID_MAX. assert (u16 (numMeta (keyMeta s) + 1) = numMeta (keyMeta s) + 1) as -> by (unfold u16; apply Z.mod_small; lia).
  destruct (Z.leb_spec 0 (8 - (numMeta (keyMeta s) + 1))) as [Le|Gt]; cbn [andb].
  - destruct (Z.ltb_spec (8 - (numMeta (keyMeta s) + 1)) 8); [|lia]. rewrite (rd_flag _ _ R'). cbn [mbind option_bind]. set (s' := s<| expiretime := t |><| keyMeta := _ |>). assert (numMeta (keyMeta s') = numMeta (keyMeta s) + 1) as Ns by (by destruct s). clearbody s'. apply (IH s' r' rest m); [done| |done|lia|lia].
    intros ->. change (zlen (@nil Z)) with 0 in N9. lia.
  - done.
Qed.
End Overrun.

(** C39: a snapshot in which nine times of expiration come before a key makes the
    loader write in front of the array for the metadata of a key, whatever follows;
    only builds with debug assertions notice. *)
Theorem repeated_expire_overruns load_cksum fresh alloc_ok ctx s r ts rest : length ts = 9%nat -> Forall is_i64 ts -> 0 <= events_interval ctx ->
  reading r (magic ++ concat (map expire_bytes ts) ++ rest) -> rdbLoadRioWithLoadingCtx load_cksum fresh alloc_ok ctx s r = Some Overrun.
Proof.
  intros L9 F Hi R. destruct (past_magic load_cksum fresh alloc_ok ctx s r _ Hi R) as (s1 & r1 & R1 & N0 & ->).
  pose proof (reading_length _ _ R1) as Lr. assert (length ts <= length (concat (map expire_bytes ts)))%nat as Lt.
  { clear. induction ts as [|t ts IH]; [done|]. cbn [map concat length]. rewrite length_app. cbn [expire_bytes length]. lia. }
  rewrite length_app in Lr. replace (S (length (rio_buf r1))) with (length ts + (S (length (rio_buf r1)) - length ts))%nat by lia.
  rewrite (expires_overrun load_cksum fresh alloc_ok ctx ts s1 r1 rest); [done|done|by intros ->|done|lia|]. unfold zlen. rewrite L9. lia.
Qed.

(** C40: in a cluster, a snapshot with the sizes of a slot that does not exist makes the
    loader take a dictionary behind the array of the dictionaries. *)
Theorem slot_info_overruns load_cksum fresh alloc_ok ctx s r slot keys expires rest : load_cluster ctx = true -> CLUSTER_SLOTS <= slot < 2 ^ 31 -> 0 <= keys < 2 ^ 64 - 1 -> 0 <= expires < 2 ^ 64 - 1 -> 0 <= events_interval ctx ->
  reading r (magic ++ slot_bytes slot keys expires ++ rest) -> rdbLoadRioWithLoadingCtx load_cksum fresh alloc_ok ctx s r = Some Overrun.
Proof.
  intros Hc Hs Hk He Hi R. destruct (past_magic load_cksum fresh alloc_ok ctx s r _ Hi R) as (s1 & r1 & R1 & _ & ->). cbn [load_loop].
  by rewrite (slot_step load_cksum fresh alloc_ok ctx s1 r1 slot keys expires rest).
Qed.

(** ** Witnesses *)

Definition bad_snapshot : list Z := magic ++ concat (map expire_bytes [1; 2; 3; 4; 5; 6; 7; 8; 9]) ++ [0].

Lemma repeated_expire_overruns_witness : rdbLoadRioWithLoadingCtx None (fun _ => 0) (fun _ => true) sample_ctx sample_server (reader bad_snapshot) = Some Overrun.
Proof.
  apply (repeated_expire_overruns None (fun _ => 0) (fun _ => true) sample_ctx sample_server (reader bad_snapshot) [1; 2; 3; 4; 5; 6; 7; 8; 9] [0]).
  - reflexivity.
  - eapply bool_decide_unpack. vm_compute. exact I.
  - vm_compute. discriminate.
  - exact (reader_reading bad_snapshot).
Defined.

Lemma slot_info_overruns_witness : rdbLoadRioWithLoadingCtx None (fun _ => 0) (fun _ => true) sample_ctx sample_server (reader (magic ++ slot_bytes 70000 1 0 ++ [0])) = Some Overrun.
Proof.
  apply (slot_info_overruns None (fun _ => 0) (fun _ => true) sample_ctx sample_server (reader (magic ++ slot_bytes 70000 1 0 ++ [0])) 70000 1 0 [0]).
  - reflexivity.
  - vm_compute. split; [discriminate|reflexivity].
  - split; [discriminate|reflexivity].
  - split; [discriminate|reflexivity].
  - vm_compute. discriminate.
  - exact (reader_reading _).
Defined.

(** A file with a key and a wrong sum is refused. *)
Definition damaged_snapshot : list Z := magic ++ [0; 1; 97; 1; 98; 255; 1; 2; 3; 4; 5; 6; 7; 8].

Lemma snapshot_load_ends_witness : rdbLoadRioWithLoadingCtx (load_sum sample_table 1024 16384 0 zero_cache sample_ctx) (fun _ => 0) (fun _ => true) sample_ctx sample_server (reader damaged_snapshot) = Some Failed.
Proof.
  destruct (snapshot_load_ends (fun _ => 0) (fun _ => true) sample_ctx sample_table 1024 16384 0 zero_cache sample_server (reader damaged_snapshot) damaged_snapshot sample_table_init zero_cache_state (reader_reading _)) as (v & E & _).
  - eapply bool_decide_unpack. vm_compute. exact I.
  - vm_compute. reflexivity.
  - reflexivity.
  - vm_compute. discriminate.
  - vm_compute. discriminate.
  - reflexivity.
  - rewrite E. f_equal. assert (match rdbLoadRioWithLoadingCtx (load_sum sample_table 1024 16384 0 zero_cache sample_ctx) (fun _ => 0) (fun _ => true) sample_ctx sample_server (reader damaged_snapshot) with Some Failed => true | _ => false end = true) as C by (vm_cast_no_check (eq_refl true)).
    rewrite E in C. clear E. destruct v; try discriminate C. reflexivity.
Defined.
