(* ===== verification/Slots.v ===== *)
(** Hash slots: the CRC-16 of src/src/crc16.c, the slot of a key ([keyHashSlot] of
    src/src/cluster.h), the slot of a pattern ([patternHashSlot] of src/src/cluster.c)
    and the keys that SORT makes from a pattern (src/src/sort.c).

    Lengths are [int]s in the code; keys and patterns are shorter than 2^31 bytes. *)

From stdpp Require Import base list numbers strings.
From S2P Require Import Prelude Sds Memory Glob.

Local Open Scope Z_scope.

(** ** CRC-16 *)

Definition crc16tab : list Z :=
  [0x0000; 0x1021; 0x2042; 0x3063; 0x4084; 0x50a5; 0x60c6; 0x70e7; 0x8108; 0x9129; 0xa14a; 0xb16b; 0xc18c; 0xd1ad; 0xe1ce; 0xf1ef;
   0x1231; 0x0210; 0x3273; 0x2252; 0x52b5; 0x4294; 0x72f7; 0x62d6; 0x9339; 0x8318; 0xb37b; 0xa35a; 0xd3bd; 0xc39c; 0xf3ff; 0xe3de;
   0x2462; 0x3443; 0x0420; 0x1401; 0x64e6; 0x74c7; 0x44a4; 0x5485; 0xa56a; 0xb54b; 0x8528; 0x9509; 0xe5ee; 0xf5cf; 0xc5ac; 0xd58d;
   0x3653; 0x2672; 0x1611; 0x0630; 0x76d7; 0x66f6; 0x5695; 0x46b4; 0xb75b; 0xa77a; 0x9719; 0x8738; 0xf7df; 0xe7fe; 0xd79d; 0xc7bc;
   0x48c4; 0x58e5; 0x6886; 0x78a7; 0x0840; 0x1861; 0x2802; 0x3823; 0xc9cc; 0xd9ed; 0xe98e; 0xf9af; 0x8948; 0x9969; 0xa90a; 0xb92b;
   0x5af5; 0x4ad4; 0x7ab7; 0x6a96; 0x1a71; 0x0a50; 0x3a33; 0x2a12; 0xdbfd; 0xcbdc; 0xfbbf; 0xeb9e; 0x9b79; 0x8b58; 0xbb3b; 0xab1a;
   0x6ca6; 0x7c87; 0x4ce4; 0x5cc5; 0x2c22; 0x3c03; 0x0c60; 0x1c41; 0xedae; 0xfd8f; 0xcdec; 0xddcd; 0xad2a; 0xbd0b; 0x8d68; 0x9d49;
   0x7e97; 0x6eb6; 0x5ed5; 0x4ef4; 0x3e13; 0x2e32; 0x1e51; 0x0e70; 0xff9f; 0xefbe; 0xdfdd; 0xcffc; 0xbf1b; 0xaf3a; 0x9f59; 0x8f78;
   0x9188; 0x81a9; 0xb1ca; 0xa1eb; 0xd10c; 0xc12d; 0xf14e; 0xe16f; 0x1080; 0x00a1; 0x30c2; 0x20e3; 0x5004; 0x4025; 0x7046; 0x6067;
   0x83b9; 0x9398; 0xa3fb; 0xb3da; 0xc33d; 0xd31c; 0xe37f; 0xf35e; 0x02b1; 0x1290; 0x22f3; 0x32d2; 0x4235; 0x5214; 0x6277; 0x7256;
   0xb5ea; 0xa5cb; 0x95a8; 0x8589; 0xf56e; 0xe54f; 0xd52c; 0xc50d; 0x34e2; 0x24c3; 0x14a0; 0x0481; 0x7466; 0x6447; 0x5424; 0x4405;
   0xa7db; 0xb7fa; 0x8799; 0x97b8; 0xe75f; 0xf77e; 0xc71d; 0xd73c; 0x26d3; 0x36f2; 0x0691; 0x16b0; 0x6657; 0x7676; 0x4615; 0x5634;
   0xd94c; 0xc96d; 0xf90e; 0xe92f; 0x99c8; 0x89e9; 0xb98a; 0xa9ab; 0x5844; 0x4865; 0x7806; 0x6827; 0x18c0; 0x08e1; 0x3882; 0x28a3;
   0xcb7d; 0xdb5c; 0xeb3f; 0xfb1e; 0x8bf9; 0x9bd8; 0xabbb; 0xbb9a; 0x4a75; 0x5a54; 0x6a37; 0x7a16; 0x0af1; 0x1ad0; 0x2ab3; 0x3a92;
   0xfd2e; 0xed0f; 0xdd6c; 0xcd4d; 0xbdaa; 0xad8b; 0x9de8; 0x8dc9; 0x7c26; 0x6c07; 0x5c64; 0x4c45; 0x3ca2; 0x2c83; 0x1ce0; 0x0cc1;
   0xef1f; 0xff3e; 0xcf5d; 0xdf7c; 0xaf9b; 0xbfba; 0x8fd9; 0x9ff8; 0x6e17; 0x7e36; 0x4e55; 0x5e74; 0x2e93; 0x3eb2; 0x0ed1; 0x1ef0].

Definition crc16_byte (crc b : Z) : option Z :=
  t ← byte_at crc16tab (Z.land (Z.lxor (Z.shiftr crc 8) (schar b)) 0xff);
  Some (u16 (Z.lxor (Z.shiftl crc 8) t)).

Fixpoint crc16_loop (crc : Z) (buf : list Z) : option Z :=
  match buf with [] => Some crc | b :: buf => crc ← crc16_byte crc b; crc16_loop crc buf end.

Definition crc16 (buf : list Z) : option Z := crc16_loop 0 buf.

(** ** The slot of a key *)

Definition LBRACE : Z := 123.
Definition RBRACE : Z := 125.

(** [for (i = 0; i < len; i++) if (l[i] == c) break;]: the index afterwards. *)
Fixpoint index_until (c : Z) (l : list Z) : Z :=
  match l with [] => 0 | x :: l => if x =? c then 0 else 1 + index_until c l end.

Definition slot_of (l : list Z) : option Z := c ← crc16 l; Some (Z.land c 0x3fff).

Definition keyHashSlot (key : list Z) : option Z :=
  let keylen := zlen key in
  let s := index_until LBRACE key in
  if s =? keylen then slot_of key
  else
    let e := s + 1 + index_until RBRACE (drop (Z.to_nat (s + 1)) key) in
    if (e =? keylen) || (e =? s + 1) then slot_of key
    else slot_of (take (Z.to_nat (e - s - 1)) (drop (Z.to_nat (s + 1)) key)).

(** ** The slot of a pattern *)

(** [l] is the pattern from [i] on. *)
Fixpoint pattern_loop (pattern l : list Z) (i s : Z) : option Z :=
  match l with
  | [] => slot_of pattern
  | c :: l =>
      if (c =? STAR) || (c =? QUESTION) || (c =? OPEN) then Some (-1)
      else if c =? BACKSLASH then Some (-1)
      else if (s =? -1) && (c =? LBRACE) then pattern_loop pattern l (i + 1) i
      else if (s >=? 0) && (c =? RBRACE) && (i =? s + 1) then pattern_loop pattern l (i + 1) (-2)
      else if (s >=? 0) && (c =? RBRACE) then slot_of (take (Z.to_nat (i - s - 1)) (drop (Z.to_nat (s + 1)) pattern))
      else pattern_loop pattern l (i + 1) s
  end.

Definition patternHashSlot (pattern : list Z) : option Z := pattern_loop pattern pattern 0 (-1).

(** ** SORT with BY and GET *)

(** [strstr(s, "->")]: what is before the arrow and what is after it. *)
Fixpoint strstr_arrow (s : list Z) : option (list Z * list Z) :=
  match s with
  | x :: ((y :: s2) as s1) =>
      if (x =? 45) && (y =? 62) then Some ([], s2)
      else if x =? 0 then None
      else '(pre, suf) ← strstr_arrow s1; Some (x :: pre, suf)
  | _ => None
  end.

(** What is looked up for an element: itself, nothing, or a key, with the field of a
    hash. *)
Inductive sort_lookup : Type := Itself | Nothing | Key (key : list Z) (field : option (list Z)).

Definition lookupKeyByPattern (spat ssub : list Z) : sort_lookup :=
  if bool_decide (cstr spat = bs "#") then Itself
  else
    match strchr STAR spat with
    | None => Nothing
    | Some (prefix, p) =>
        match strstr_arrow (tail p) with
        | Some (postfix, field) => if negb (hd 0 field =? 0) then Key (prefix ++ ssub ++ postfix) (Some field) else Key (prefix ++ ssub ++ tail p) None
        | None => Key (prefix ++ ssub ++ tail p) None
        end
    end.

(** The slot check of the options in a cluster: whether the pattern is accepted.
    [key_slot] is the slot of the key that is sorted ([getKeySlot]). *)
Definition sort_by_accepted (key_slot : Z) (by_ : list Z) : option bool :=
  match strchr STAR by_ with None => Some true | Some _ => s ← patternHashSlot by_; Some (s =? key_slot) end.

Definition sort_get_accepted (key_slot : Z) (get : list Z) : option bool :=
  if bool_decide (cstr get = bs "#") then Some true else s ← patternHashSlot get; Some (s =? key_slot).

(** ** The polynomial *)

(** One bit of the division by x^16 + x^12 + x^5 + 1, the highest first. *)
Definition xmodem_bit (crc : Z) : Z := u16 (if Z.testbit crc 15 then Z.lxor (Z.shiftl crc 1) 0x1021 else Z.shiftl crc 1).

Definition xmodem_byte (crc b : Z) : Z := Nat.iter 8 xmodem_bit (Z.lxor crc (Z.shiftl b 8)).

Definition xmodem (buf : list Z) : Z := foldl xmodem_byte 0 buf.

Definition table_step (x : Z) : option Z := t ← byte_at crc16tab (Z.shiftr x 8); Some (u16 (Z.lxor (Z.shiftl x 8) t)).

Definition is_u16 (z : Z) : Prop := 0 <= z < 2 ^ 16.

Lemma u16_bit z n : 0 <= n < 16 -> Z.testbit (u16 z) n = Z.testbit z n.
Proof. intros Hn. unfold u16. by rewrite Z.mod_pow2_bits_low by lia. Qed.

Lemma u16_high z n : 16 <= n -> Z.testbit (u16 z) n = false.
Proof. intros Hn. unfold u16. by rewrite Z.mod_pow2_bits_high by lia. Qed.

Lemma u16_lxor a b : u16 (Z.lxor a b) = Z.lxor (u16 a) (u16 b).
Proof.
  apply Z.bits_inj'. intros n Hn. rewrite Z.lxor_spec. destruct (Z.lt_ge_cases n 16); [by rewrite !u16_bit, Z.lxor_spec by lia|by rewrite !u16_high by lia].
Qed.

Lemma u16_lxor_shift a b t : 0 <= b -> u16 (Z.lxor (Z.shiftl (Z.lxor a (Z.shiftl b 8)) 8) t) = u16 (Z.lxor (Z.shiftl a 8) t).
Proof.
  intros Hb. apply Z.bits_inj'. intros n Hn. destruct (Z.lt_ge_cases n 16); [|by rewrite !u16_high by lia]. rewrite !u16_bit by lia. rewrite !Z.lxor_spec. f_equal.
  rewrite !Z.shiftl_spec by lia. rewrite Z.lxor_spec. destruct (Z.lt_ge_cases n 8); [rewrite !Z.testbit_neg_r by lia; done|]. rewrite (Z.shiftl_spec_low b 8 (n - 8)) by lia. by rewrite xorb_false_r.
Qed.

Lemma xmodem_bit_lxor a b : xmodem_bit (Z.lxor a b) = Z.lxor (xmodem_bit a) (xmodem_bit b).
Proof.
  unfold xmodem_bit. rewrite <- u16_lxor, Z.lxor_spec, Z.shiftl_lxor. f_equal. apply Z.bits_inj'. intros k _. destruct (Z.testbit a 15), (Z.testbit b 15); cbn [xorb]; rewrite !Z.lxor_spec;
    by destruct (Z.testbit (Z.shiftl a 1) k), (Z.testbit (Z.shiftl b 1) k), (Z.testbit 0x1021 k).
Qed.

Lemma xmodem_bits_lxor n a b : Nat.iter n xmodem_bit (Z.lxor a b) = Z.lxor (Nat.iter n xmodem_bit a) (Nat.iter n xmodem_bit b).
Proof. induction n as [|n IH]; [done|]. rewrite !Nat.iter_succ. by rewrite IH, xmodem_bit_lxor. Qed.

Lemma table_checked : forallb (fun h => bool_decide (byte_at crc16tab h = Some (Nat.iter 8 xmodem_bit (Z.shiftl h 8))) && (Nat.iter 8 xmodem_bit h =? Z.shiftl h 8)) (seqZ 0 256) = true.
Proof. vm_cast_no_check (eq_refl true). Qed.

Lemma crc16tab_spec h : 0 <= h < 256 -> byte_at crc16tab h = Some (Nat.iter 8 xmodem_bit (Z.shiftl h 8)) /\ Nat.iter 8 xmodem_bit h = Z.shiftl h 8.
Proof. intros Hh. pose proof (forall_range _ 0 256 table_checked h Hh) as B. apply andb_prop in B as [B1 B2]. split; [by apply bool_decide_eq_true in B1|by apply Z.eqb_eq]. Qed.

(** The high byte goes through the table, the low byte is shifted. *)
Lemma table_steps x : is_u16 x -> table_step x = Some (Nat.iter 8 xmodem_bit x).
Proof.
  intros Hx. unfold is_u16 in Hx. set (h := x / 256). set (l := x mod 256). assert (0 <= h < 256) as Hh by (split; [apply Z.div_pos; lia|apply Z.div_lt_upper_bound; lia]). assert (0 <= l < 256) as Hl by (apply Z.mod_pos_bound; lia).
  assert (x = Z.lxor l (Z.shiftl h 8)) as Ex.
  { pose proof (lor_shiftl_add h l 8 ltac:(lia) Hl) as Lo. pose proof (Z.add_lor_land (Z.shiftl h 8) l) as Al. rewrite Lo, Z.shiftl_mul_pow2 in Al by lia. rewrite Z.lxor_comm, Z.lxor_lor, Lo by (rewrite Z.shiftl_mul_pow2 by lia; lia).
    change (2 ^ 8) with 256. rewrite (Z.div_mod x 256) at 1 by lia. fold h l. lia. }
  unfold table_step. replace (Z.shiftr x 8) with h by (by rewrite Z.shiftr_div_pow2). rewrite (proj1 (crc16tab_spec h Hh)). cbn [mbind option_bind]. f_equal.
  rewrite Ex, xmodem_bits_lxor, (proj2 (crc16tab_spec l Hl)), u16_lxor_shift, u16_lxor by lia.
  f_equal; apply Z.mod_small; [rewrite Z.shiftl_mul_pow2 by lia; lia|]. apply (Z.mod_pos_bound _ (2 ^ 16)). lia.
Qed.

Lemma index_checked : forallb (fun h => forallb (fun b => Z.land (Z.lxor h (schar b)) 0xff =? Z.lxor h b) (seqZ 0 256)) (seqZ 0 256) = true.
Proof. vm_cast_no_check (eq_refl true). Qed.

Lemma byte_index crc b : is_u16 crc -> is_u8 b -> Z.land (Z.lxor (Z.shiftr crc 8) (schar b)) 0xff = Z.shiftr (Z.lxor crc (Z.shiftl b 8)) 8.
Proof.
  intros Hc Hb. rewrite Z.shiftr_lxor, Z.shiftr_shiftl_l by lia. change (8 - 8) with 0. rewrite Z.shiftl_0_r. assert (0 <= Z.shiftr crc 8 < 256) as Hh.
  { unfold is_u16 in Hc. rewrite Z.shiftr_div_pow2 by lia. split; [apply Z.div_pos; lia|apply Z.div_lt_upper_bound; lia]. }
  pose proof (forall_range _ 0 256 index_checked _ Hh) as Ph. apply Z.eqb_eq, (forall_range _ 0 256 Ph). exact Hb.
Qed.

Lemma lxor_u16 a b : is_u16 a -> is_u16 b -> is_u16 (Z.lxor a b).
Proof. intros Ha Hb. pose proof (u16_lxor a b) as E. unfold u16 in E. rewrite (Z.mod_small a), (Z.mod_small b) in E by done. rewrite <- E. by apply Z.mod_pos_bound. Qed.

Lemma crc16_byte_spec crc b : is_u16 crc -> is_u8 b -> crc16_byte crc b = Some (xmodem_byte crc b) /\ is_u16 (xmodem_byte crc b).
Proof.
  intros Hc Hb. unfold crc16_byte, xmodem_byte. rewrite byte_index by done. set (x := Z.lxor crc (Z.shiftl b 8)).
  assert (is_u16 x) as Hx.
  { apply lxor_u16; [done|]. unfold is_u16, is_u8 in *. rewrite Z.shiftl_mul_pow2 by lia. lia. }
  pose proof (table_steps x Hx) as T. generalize dependent (Nat.iter 8 xmodem_bit x). intros y T. unfold table_step in T. destruct (byte_at crc16tab (Z.shiftr x 8)) as [t|]; [|discriminate T]. cbn [mbind option_bind] in *. injection T as <-.
  unfold x. rewrite u16_lxor_shift by (unfold is_u8 in Hb; lia). split; [reflexivity|]. by apply Z.mod_pos_bound.
Qed.

Lemma crc16_loop_spec buf : Forall is_u8 buf -> forall crc, is_u16 crc -> crc16_loop crc buf = Some (foldl xmodem_byte crc buf) /\ is_u16 (foldl xmodem_byte crc buf).
Proof.
  induction 1 as [|b buf Hb _ IH]; intros crc Hc; [done|]. cbn [crc16_loop foldl]. destruct (crc16_byte_spec crc b Hc Hb) as [-> Hx]. cbn [mbind option_bind]. by apply IH.
Qed.

Lemma crc16_spec buf : Forall is_u8 buf -> crc16 buf = Some (xmodem buf) /\ is_u16 (xmodem buf).
Proof. intros B. by apply crc16_loop_spec. Qed.

Lemma slot_of_spec l : Forall is_u8 l -> exists s, slot_of l = Some s /\ 0 <= s < 16384.
Proof.
  intros B. unfold slot_of. rewrite (proj1 (crc16_spec l B)). cbn [mbind option_bind]. eexists. split; [done|]. change 0x3fff with (Z.ones 14). rewrite Z.land_ones by lia. by apply Z.mod_pos_bound.
Qed.

(** ** The part of a key that is hashed *)

Lemma index_until_app c pre suf : ~ In c pre -> index_until c (pre ++ c :: suf) = zlen pre.
Proof. induction pre as [|x pre IH]; intros N; cbn [app index_until]; [by rewrite Z.eqb_refl|]. cbn [In] in N. destruct (Z.eqb_spec x c) as [->|]; [tauto|]. rewrite IH by tauto. by rewrite zlen_cons. Qed.

Lemma index_until_none c l : ~ In c l -> index_until c l = zlen l.
Proof. induction l as [|x l IH]; intros N; [done|]. cbn [index_until In] in *. destruct (Z.eqb_spec x c) as [->|]; [tauto|]. rewrite IH by tauto. by rewrite zlen_cons. Qed.

Lemma drop_past {A} (a b : list A) x : drop (Z.to_nat (zlen a + 1)) (a ++ x :: b) = b.
Proof. rewrite cons_middle, app_assoc. replace (Z.to_nat (zlen a + 1)) with (length (a ++ [x])) by (rewrite length_app; unfold zlen; cbn; lia). apply drop_app_length. Qed.

Lemma take_zlen {A} (a b : list A) n : n = zlen a -> take (Z.to_nat n) (a ++ b) = a.
Proof. intros ->. unfold zlen. by rewrite Nat2Z.id, take_app_length. Qed.

(** With a tag, only the tag is hashed. *)
Lemma tagged_key pre tag rest : ~ In LBRACE pre -> ~ In RBRACE tag -> tag <> [] -> keyHashSlot (pre ++ LBRACE :: tag ++ RBRACE :: rest) = slot_of tag.
Proof.
  intros Np Nt Ne. unfold keyHashSlot. rewrite index_until_app by done. cbn zeta. rewrite drop_past. rewrite index_until_app by done. rewrite !zlen_app, zlen_cons, zlen_app, zlen_cons. pose proof (zlen_nonneg pre). pose proof (zlen_nonneg tag). pose proof (zlen_nonneg rest).
  assert (0 < zlen tag) by (destruct tag; [done|]; rewrite zlen_cons; pose proof (zlen_nonneg tag); lia). zdec. cbn [orb]. rewrite take_zlen by lia. done.
Qed.

(** Without one, or with an empty one, all of it. *)
Lemma untagged_key key : ~ In LBRACE key -> keyHashSlot key = slot_of key.
Proof. intros N. unfold keyHashSlot. rewrite index_until_none by done. by rewrite Z.eqb_refl. Qed.

Lemma unclosed_key pre rest : ~ In LBRACE pre -> ~ In RBRACE rest -> keyHashSlot (pre ++ LBRACE :: rest) = slot_of (pre ++ LBRACE :: rest).
Proof.
  intros Np Nr. unfold keyHashSlot. rewrite index_until_app by done. cbn zeta. rewrite drop_past. rewrite index_until_none by done. rewrite zlen_app, zlen_cons.
  destruct (_ =? _); [done|]. destruct (Z.eqb_spec (zlen pre + 1 + zlen rest) (zlen pre + (1 + zlen rest))); [done|lia].
Qed.

Lemma empty_tag_key pre rest : ~ In LBRACE pre -> keyHashSlot (pre ++ LBRACE :: RBRACE :: rest) = slot_of (pre ++ LBRACE :: RBRACE :: rest).
Proof.
  intros Np. unfold keyHashSlot. rewrite index_until_app by done. cbn zeta. rewrite drop_past. cbn [index_until]. rewrite Z.eqb_refl, Z.add_0_r.
  destruct (_ =? _); [done|]. by rewrite Z.eqb_refl, orb_true_r.
Qed.

(** ** What the slot of a pattern says *)

Definition literal (c : Z) : Prop := c <> STAR /\ c <> QUESTION /\ c <> OPEN /\ c <> BACKSLASH.

(** A literal beginning decides the slot of every key that starts with it, or is it. *)
Definition decides (pattern : list Z) (v : Z) : Prop :=
  exists pre rest, pattern = pre ++ rest /\ Forall literal pre /\ forall x, (rest = [] -> x = []) -> keyHashSlot (pre ++ x) = Some v.

(** What the loop knows of the braces it has passed. *)
Definition braces (pre : list Z) (s : Z) : Prop :=
  (s = -1 /\ ~ In LBRACE pre) \/
  (exists a t, pre = a ++ LBRACE :: t /\ s = zlen a /\ ~ In LBRACE a /\ ~ In RBRACE t) \/
  (s = -2 /\ exists a t, pre = a ++ LBRACE :: RBRACE :: t /\ ~ In LBRACE a).

Lemma braces_whole pre s : braces pre s -> keyHashSlot pre = slot_of pre.
Proof. intros [(_ & N)|[(a & t & -> & _ & Na & Nt)|(_ & a & t & -> & Na)]]; [by apply untagged_key|by apply unclosed_key|by apply empty_tag_key]. Qed.

Lemma braces_open pre : ~ In LBRACE pre -> braces (pre ++ [LBRACE]) (zlen pre).
Proof. intros N. right. left. exists pre, []. split_and!; [done|done|done|by intros []]. Qed.

Lemma braces_other pre s c : braces pre s -> (s = -1 -> c <> LBRACE) -> (0 <= s -> c <> RBRACE) -> braces (pre ++ [c]) s.
Proof.
  intros [(Hs & N)|[(a & t & -> & Hs & Na & Nt)|(Hs & a & t & -> & Na)]] H1 H2.
  - left. split; [done|]. rewrite in_app_iff. cbn [In]. intros [?|[E|[]]]; [done|]. by apply (H1 Hs).
  - right. left. exists a, (t ++ [c]). rewrite <- app_assoc. split_and!; [done|done|done|]. rewrite in_app_iff. cbn [In]. intros [?|[E|[]]]; [done|]. pose proof (zlen_nonneg a). apply H2; [lia|done].
  - right. right. split; [done|]. exists a, (t ++ [c]). by rewrite <- app_assoc.
Qed.

Lemma pattern_loop_spec pattern : forall l pre s v, pattern = pre ++ l -> Forall literal pre -> braces pre s -> pattern_loop pattern l (zlen pre) s = Some v -> v = -1 \/ decides pattern v.
Proof.
  induction l as [|c l IH]; intros pre s v E F B; cbn [pattern_loop].
  { intros Hv. right. exists pattern, []. split; [by rewrite app_nil_r|]. rewrite app_nil_r in E. subst pattern. split; [done|]. intros x ->; [|done]. by rewrite app_nil_r, (braces_whole pre s B). }
  destruct (Z.eqb_spec c STAR), (Z.eqb_spec c QUESTION), (Z.eqb_spec c OPEN), (Z.eqb_spec c BACKSLASH); cbn [orb]; try (intros [= <-]; by left).
  assert (literal c) as Lc by done. assert (Forall literal (pre ++ [c])) as F' by (apply Forall_app; by repeat constructor). assert (pattern = (pre ++ [c]) ++ l) as E' by (by rewrite <- app_assoc).
  assert (zlen pre + 1 = zlen (pre ++ [c])) as Ln by (by rewrite zlen_snoc). rewrite Ln.
  destruct (Z.eqb_spec s (-1)) as [->|Ns]; cbn [andb].
  { destruct B as [(_ & N)|[(a & t & _ & Hs & _)|(Hs & _)]]; [|pose proof (zlen_nonneg a); lia|lia]. destruct (Z.eqb_spec c LBRACE) as [->|]; cbn [Z.geb Z.compare andb]; apply IH; try done; [by apply braces_open|apply braces_other; [by left|done|lia]]. }
  rewrite Z.geb_leb. destruct (Z.leb_spec 0 s) as [Ps|]; cbn [andb]; [|apply IH; [done|done|apply braces_other; [done|lia|lia]]].
  destruct (Z.eqb_spec c RBRACE) as [->|]; cbn [andb]; [|apply IH; [done|done|by apply braces_other]].
  destruct B as [(Hs & _)|[(a & t & Ep & Hs & Na & Nt)|(Hs & _)]]; [lia| |lia]. assert (zlen pre = s + 1 + zlen t) as Lp by (rewrite Ep, zlen_app, zlen_cons; lia).
  destruct (Z.eqb_spec (zlen pre) (s + 1)) as [E0|N0].
  - apply IH; [done|done|]. right. right. split; [done|]. exists a, []. assert (t = []) as -> by (destruct t; [done|]; rewrite zlen_cons in Lp; pose proof (zlen_nonneg t); lia). by rewrite Ep, <- app_assoc.
  - intros Hv. right. exists (pre ++ [RBRACE]), l. split_and!; [done|done|]. intros x _. rewrite Ep, <- !app_assoc. cbn [app]. rewrite tagged_key; [|done|done|intros ->; apply N0; rewrite Lp; apply Z.add_0_r].
    rewrite <- Hv. f_equal. rewrite E, Ep, <- app_assoc. cbn [app]. rewrite Hs at 2. rewrite drop_past. symmetry. apply take_zlen. rewrite <- Ep, Lp. lia.
Qed.

Lemma pattern_loop_total pattern : Forall is_u8 pattern -> forall l i s, exists v, pattern_loop pattern l i s = Some v /\ -1 <= v < 16384.
Proof.
  intros B. assert (forall n m, exists v, slot_of (take n (drop m pattern)) = Some v /\ -1 <= v < 16384) as T.
  { intros n m. destruct (slot_of_spec (take n (drop m pattern))) as (v & E & Hv); [by apply Forall_take, Forall_drop|]. exists v. split; [done|lia]. }
  induction l as [|c l IH]; intros i s; cbn [pattern_loop]; [destruct (slot_of_spec pattern B) as (v & E & Hv); exists v; split; [done|lia]|].
  destruct (_ || _); [by exists (-1)|]. destruct (_ =? _); [by exists (-1)|]. destruct (_ && _); [apply IH|]. destruct (_ && _); [apply IH|]. destruct (_ && _); [apply T|apply IH].
Qed.

Lemma pattern_total pattern : Forall is_u8 pattern -> exists v, patternHashSlot pattern = Some v /\ -1 <= v < 16384.
Proof. intros B. by apply pattern_loop_total. Qed.

Lemma pattern_slot pattern v : patternHashSlot pattern = Some v -> v = -1 \/ decides pattern v.
Proof. apply (pattern_loop_spec pattern pattern [] (-1) v); [done|done|]. left. split; [done|by intros []]. Qed.

(** Literal bytes match only themselves. *)
Lemma literal_match pre rest s : Forall literal pre -> gmatch false (tokens (pre ++ rest)) s = true -> exists x, s = pre ++ x /\ gmatch false (tokens rest) x = true.
Proof.
  intros F. revert s. induction F as [|c pre (L1 & L2 & L3 & L4) _ IH]; intros s; [by exists s|]. cbn [app]. rewrite tokens_cons. assert (first_token c (pre ++ rest) = (TChar c, pre ++ rest)) as ->.
  { unfold first_token. rewrite (proj2 (Z.eqb_neq c STAR)), (proj2 (Z.eqb_neq c QUESTION)), (proj2 (Z.eqb_neq c OPEN)), (proj2 (Z.eqb_neq c BACKSLASH)) by done. by destruct (pre ++ rest). }
  cbn [fst snd gmatch token_test same_char]. destruct s as [|d s]; [done|]. intros [E G]%andb_prop. apply Z.eqb_eq in E as ->. destruct (IH s G) as (x & -> & Gx). by exists x.
Qed.

Lemma decided_match pattern key v : decides pattern v -> stringmatchlen pattern key false = Some true -> keyHashSlot key = Some v.
Proof.
  intros (pre & rest & -> & F & D) M. assert (gmatch false (tokens (pre ++ rest)) key = true) as G.
  { destruct (decide (key = [])) as [->|Ne]; [rewrite stringmatchlen_nil in M; injection M as M; by destruct (pre ++ rest)|]. destruct (stringmatchlen_nonempty false (pre ++ rest) key Ne) as (b & Eb & Hb & _). rewrite Eb in M. injection M as ->. by apply Hb. }
  destruct (literal_match pre rest key F G) as (x & -> & Gx). apply D. intros ->. by destruct x.
Qed.

(** ** The keys of SORT *)

Lemma strchr_spec c s pre suf : strchr c s = Some (pre, suf) -> s = pre ++ suf /\ ~ In c pre /\ exists t, suf = c :: t.
Proof.
  revert pre suf. induction s as [|x s IH]; intros pre suf; cbn [strchr]; [done|]. destruct (Z.eqb_spec x c) as [->|Nx]; [intros [= <- <-]; split_and!; [done|by intros []|by eexists]|].
  destruct (x =? 0); [done|]. destruct (strchr c s) as [[p q]|]; [|done]. intros [= <- <-]. destruct (IH p q eq_refl) as (-> & N & T). split_and!; [done| |done]. intros [E|?]; [by apply Nx|by apply N].
Qed.

(** The literal beginning ends before the star. *)
Lemma before_star (pre rest prefix suf : list Z) : Forall literal pre -> pre ++ rest = prefix ++ STAR :: suf -> exists y, prefix = pre ++ y /\ rest <> [].
Proof.
  intros F. revert prefix. induction F as [|c pre Lc _ IH]; intros prefix E; cbn [app] in E; [exists prefix; split; [done|]; intros ->; by destruct prefix|].
  destruct prefix as [|d prefix]; injection E as -> E; [by destruct Lc|]. destruct (IH prefix E) as (y & -> & N). by exists y.
Qed.

Lemma sort_key_decided spat ssub key field v : decides spat v -> lookupKeyByPattern spat ssub = Key key field -> keyHashSlot key = Some v.
Proof.
  intros (pre & rest & -> & F & D). unfold lookupKeyByPattern. destruct (bool_decide _); [done|]. destruct (strchr STAR (pre ++ rest)) as [[prefix p]|] eqn:Es; [|done].
  apply strchr_spec in Es as (E & _ & t & ->). destruct (before_star pre rest prefix t F E) as (y & -> & N). cbn [tail]. intros Hk.
  assert (exists z, key = pre ++ z) as (z & ->); [|by apply D].
  destruct (strstr_arrow t) as [[postfix fld]|]; [destruct (negb _)|]; injection Hk as <- _; rewrite <- app_assoc; by eexists.
Qed.

(** ** Theorems *)

(** The table-driven CRC-16 is the division by x^16 + x^12 + x^5 + 1, bit by bit;
    no index is outside the table. *)
Theorem crc16_is_bitwise buf : Forall is_u8 buf -> crc16 buf = Some (xmodem buf) /\ 0 <= xmodem buf < 2 ^ 16.
Proof. apply crc16_spec. Qed.

(** Every key has one of the 16384 slots; keys with the same tag, between the first
    opening brace and the next closing one and not empty, have the same slot. *)
Theorem key_slots key : Forall is_u8 key ->
  (exists s, keyHashSlot key = Some s /\ 0 <= s < 16384) /\
  forall pre tag rest pre' rest', ~ In LBRACE pre -> ~ In LBRACE pre' -> ~ In RBRACE tag -> tag <> [] -> key = pre ++ LBRACE :: tag ++ RBRACE :: rest ->
    keyHashSlot (pre' ++ LBRACE :: tag ++ RBRACE :: rest') = keyHashSlot key.
Proof.
  intros B. split; [|by intros pre tag rest pre' rest' Np Np' Nt Ne ->; rewrite !tagged_key].
  unfold keyHashSlot. destruct (_ =? _); [by apply slot_of_spec|]. destruct (_ || _); [by apply slot_of_spec|]. apply slot_of_spec. by apply Forall_take, Forall_drop.
Qed.

(** C28: where [patternHashSlot] answers a slot, every key that the pattern matches is in
    that slot, so that KEYS and SCAN may look there only; and in a cluster, every key
    that SORT makes from an accepted BY or GET pattern and any element is in the slot
    of the sorted key. *)
Theorem pattern_slot_covers pattern v : patternHashSlot pattern = Some v ->
  (v <> -1 -> forall key, stringmatchlen pattern key false = Some true -> keyHashSlot key = Some v) /\
  (forall sorted key_slot ssub key field, keyHashSlot sorted = Some key_slot -> 0 <= key_slot ->
    sort_by_accepted key_slot pattern = Some true \/ sort_get_accepted key_slot pattern = Some true ->
    lookupKeyByPattern pattern ssub = Key key field -> keyHashSlot key = keyHashSlot sorted).
Proof.
  intros Hv. split.
  - intros N key M. destruct (pattern_slot pattern v Hv) as [?|D]; [done|]. by apply (decided_match pattern).
  - intros sorted key_slot ssub key field -> P A Hk. assert (v = key_slot) as <-.
    { unfold sort_by_accepted, sort_get_accepted, lookupKeyByPattern in *. rewrite Hv in A. destruct (bool_decide _); [done|]. destruct (strchr STAR pattern); [|done]. cbn [mbind option_bind] in A.
      destruct A as [[= A]|[= A]]; by apply Z.eqb_eq in A. }
    destruct (pattern_slot pattern v Hv) as [?|D]; [lia|]. by apply (sort_key_decided pattern ssub key field).
Qed.

(** ** Witnesses *)

Definition is_u8b (b : Z) : bool := (0 <=? b) && (b <? 256).

Lemma bytes_checked l : forallb is_u8b l = true -> Forall is_u8 l.
Proof. intros F. apply Forall_forall. intros b Hb. apply list_elem_of_In in Hb. rewrite forallb_forall in F. apply F in Hb. unfold is_u8b in Hb. apply andb_prop in Hb as [H1 H2]. unfold is_u8. lia. Qed.

Lemma crc16_is_bitwise_witness : crc16 (bs "123456789") = Some 0x31c3 /\ xmodem (bs "123456789") = 0x31c3.
Proof.
  destruct (crc16_is_bitwise (bs "123456789")) as [E _]; [apply bytes_checked; vm_compute; reflexivity|]. rewrite E. split; vm_compute; reflexivity.
Defined.

Lemma key_slots_witness : (exists s, keyHashSlot (bs "{user1000}.following") = Some s /\ 0 <= s < 16384) /\ keyHashSlot (bs "to{user1000}!") = keyHashSlot (bs "{user1000}.following").
Proof.
  destruct (key_slots (bs "{user1000}.following")) as [E T]; [apply bytes_checked; vm_compute; reflexivity|]. split; [exact E|].
  apply (T [] (bs "user1000") (bs ".following") (bs "to") (bs "!")); [intros []|vm_compute; intuition discriminate|vm_compute; intuition discriminate|discriminate|reflexivity].
Defined.

Lemma pattern_slot_covers_witness : keyHashSlot (bs "a{tag}xyz") = Some 8338 /\ keyHashSlot (bs "a{tag}7") = Some 8338.
Proof.
  destruct (pattern_slot_covers (bs "a{tag}*->name") 8338) as [_ S]; [vm_compute; reflexivity|]. destruct (pattern_slot_covers (bs "a{tag}*") 8338) as [K _]; [vm_compute; reflexivity|]. split.
  - apply K; [discriminate|vm_compute; reflexivity].
  - assert (keyHashSlot (bs "{tag}") = Some 8338) as Es by (vm_compute; reflexivity). rewrite <- Es. apply (S (bs "{tag}") 8338 (bs "7") (bs "a{tag}7") (Some (bs "name"))); [exact Es|discriminate|left; vm_compute; reflexivity|vm_compute; reflexivity].
Defined.
