(* ===== verification/Keys.v ===== *)
(** The KEYS command ([keysCommand] of src/src/db.c): the pattern of the client, the
    dictionary it looks in, the iterators of the store, the expiration check and the
    reply with its deferred length.

    Joins the reply path (Reply.v), patterns and slots (Glob.v, Slots.v) and the
    key-value store (Kvstore.v, KvstoreIter.v). *)

From stdpp Require Import base list numbers gmap strings.
From coqutil Require Import Datatypes.RecordSetters.
From S2P Require Import Prelude Client ReplyBuffer Reply Glob Dict DictMap DictScan Kvstore KvstoreMap KvstoreIter Slots.
Import TriangleBracketNotations.

Local Open Scope Z_scope.

(** The object of a key: its time of expiration, -1 without one, and its value. *)
Record kvobj (A : Type) : Type := { kv_expire : Z; kv_value : A }.
Arguments kv_expire {A} _.
Arguments kv_value {A} _.

(** What the command reads of the server. [can_access] says of a slot whether it belongs
    to this node, or is being imported ([clusterCanAccessKeysInSlot]). *)
Record keys_server : Type := {
  cluster : bool; can_access : Z -> bool; server_loading : bool; allow_access_expired : bool; cmd_time_snapshot : Z
}.

Section Keys.
Context {A : Type} (type : dictType (list Z)) (canFreeDict : kvstore (list Z) (kvobj A) -> Z -> bool).
Variable cfg : config.
Variable sv : keys_server.

Notation store := (kvstore (list Z) (kvobj A)).
Notation dict_iterator := (@kvstoreDictIterator (list Z) (kvobj A)).
Notation store_iterator := (@kvstoreIterator (list Z) (kvobj A)).

Definition keyIsExpired (kv : kvobj A) : bool :=
  if server_loading sv || allow_access_expired sv then false
  else if kv_expire kv <? 0 then false
  else cmd_time_snapshot sv >? kv_expire kv.

Definition clusterCanAccessKeysInSlot (slot : Z) : bool := if negb (cluster sv) then true else can_access sv slot.

Definition accessKeysShouldSkipDictIndex (didx : Z) : bool := negb (clusterCanAccessKeysInSlot didx).

(** The union of the two iterators. *)
Inductive keys_iterator : Type := OfDict (it : dict_iterator) | OfStore (it : store_iterator).

Definition keys_next (it : keys_iterator) (kvs : store) : option (option (list Z * kvobj A) * keys_iterator * store) :=
  match it with
  | OfDict it => '(e, it, kvs) ← kvstoreDictIteratorNext it kvs; Some (e, OfDict it, kvs)
  | OfStore it => '(e, it, kvs) ← kvstoreIteratorNext canFreeDict it kvs; Some (e, OfStore it, kvs)
  end.

Definition keys_reset (it : keys_iterator) (kvs : store) : option store :=
  match it with OfDict it => kvstoreResetDictIterator canFreeDict it kvs | OfStore it => kvstoreIteratorReset canFreeDict it kvs end.

Definition skips (it : keys_iterator) : bool :=
  match it with OfDict _ => false | OfStore it => accessKeysShouldSkipDictIndex (ki_didx it) end.

Definition allkeys (pattern : list Z) : bool := (hd 0 pattern =? STAR) && (zlen pattern =? 1).

Definition key_matches (pattern key : list Z) : option bool := if allkeys pattern then Some true else stringmatchlen pattern key false.

Definition keys_entry (pattern : list Z) (e : list Z * kvobj A) (w : world) (numkeys : Z) : option (world * Z) :=
  m ← key_matches pattern e.1;
  if (m : bool) && negb (keyIsExpired e.2) then Some (addReplyBulkCBuffer cfg w e.1, numkeys + 1) else Some (w, numkeys).

(** The loop makes a round for every entry and one more. *)
Fixpoint keys_loop (n : nat) (pattern : list Z) (it : keys_iterator) (kvs : store) (w : world) (numkeys : Z) : option (world * Z * keys_iterator * store) :=
  match n with
  | O => None
  | S n =>
      '(e, it, kvs) ← keys_next it kvs;
      match e with
      | None => Some (w, numkeys, it, kvs)
      | Some e =>
          if skips it then keys_loop n pattern it kvs w numkeys
          else
            '(w, numkeys) ← keys_entry pattern e w numkeys;
            if has (flags (cl w)) CLIENT_CLOSE_ASAP then Some (w, numkeys, it, kvs) else keys_loop n pattern it kvs w numkeys
      end
  end.

Definition keysCommand (n : nat) (pattern : list Z) (kvs : store) (w : world) : option (world * store) :=
  let '(replylen, w) := addReplyDeferredLen cfg w in
  pslot ← (if cluster sv && negb (allkeys pattern) then patternHashSlot pattern else Some (-1));
  let run it := '(w, numkeys, it, kvs) ← keys_loop n pattern it kvs w 0; kvs ← keys_reset it kvs; w ← setDeferredArrayLen cfg w replylen numkeys; Some (w, kvs) in
  if negb (pslot =? -1) then
    size ← kvstoreDictSize kvs pslot;
    if (size =? 0) || accessKeysShouldSkipDictIndex pslot then w ← setDeferredArrayLen cfg w replylen 0; Some (w, kvs)
    else it ← kvstoreInitDictSafeIterator kvs pslot; run (OfDict it)
  else it ← kvstoreIteratorInit kvs; run (OfStore it).

(** ** The keys of the answer *)

(** The entries that are sent: in a slot that may be read, matched, not expired. *)
Definition sends_key (pattern : list Z) (e : list Z * kvobj A) : bool :=
  match key_matches pattern e.1 with Some m => m && negb (keyIsExpired e.2) | None => false end.

Lemma matches_some pattern key : is_Some (key_matches pattern key).
Proof.
  unfold key_matches. destruct (allkeys pattern); [done|]. destruct (decide (key = [])) as [->|N]; [by rewrite stringmatchlen_nil|]. destruct (stringmatchlen_nonempty false pattern key N) as (b & -> & _). done.
Qed.

Lemma keys_entry_spec pattern e w numkeys : keys_entry pattern e w numkeys = Some (if sends_key pattern e then (addReplyBulkCBuffer cfg w e.1, numkeys + 1) else (w, numkeys)).
Proof. unfold keys_entry, sends_key. destruct (matches_some pattern e.1) as [m ->]. cbn [mbind option_bind]. by destruct (m && _). Qed.

(** ** The loop *)

Context `{U : UsableSize cfg}.
Hypothesis hash_range : forall k, is_u64 (hashFunction type k).

Implicit Types (kvs : store) (ms : list (gmap (list Z) (kvobj A))) (e : list Z * kvobj A).

(** The dictionary of a key. *)
Definition home (key : list Z) : option Z := if cluster sv then keyHashSlot key else Some 0.

Definition placed ms : Prop := forall i m k, ms !! i = Some m -> is_Some (m !! k) -> home k = Some (Z.of_nat i).

Definition hidden e : bool := match home e.1 with Some s => accessKeysShouldSkipDictIndex s | None => false end.

Definition wanted (pattern : list Z) e : bool := negb (hidden e) && sends_key pattern e.

Definition answer (pattern : list Z) (es : list (list Z * kvobj A)) : list (list Z) := (List.filter (wanted pattern) es).*1.

(** The iterator in front of [es]. *)
Definition keys_at (it : keys_iterator) kvs ms es : Prop :=
  match it with OfDict it => one_at type it kvs ms es /\ Forall (fun e => hidden e = false) es | OfStore it => iter_at type it kvs ms es end.

Lemma of_dict_hidden it ms e : placed ms -> of_dict it ms e -> accessKeysShouldSkipDictIndex (ki_didx it) = hidden e.
Proof. intros Pl (m & P & Hm & Hk). unfold hidden. rewrite (Pl _ m e.1 Hm) by (by eexists). by rewrite Z2Nat.id. Qed.

Lemma keys_step it kvs ms es : placed ms -> keys_at it kvs ms es -> exists o it' kvs', keys_next it kvs = Some (o, it', kvs') /\
  match es with
  | [] => o = None /\ exists kvs2, keys_reset it' kvs' = Some kvs2 /\ store_ok type kvs2 ms
  | e :: es => o = Some e /\ keys_at it' kvs' ms es /\ skips it' = hidden e
  end.
Proof.
  intros Pl. destruct it as [it|it]; cbn [keys_next].
  - intros [At F]. destruct (one_next type it kvs ms es At) as (o & it' & kvs' & -> & _ & H). cbn [mbind option_bind]. exists o, (OfDict it'), kvs'. split; [done|]. destruct es as [|e es].
    + destruct H as (-> & d & m & I). split; [done|]. destruct (one_reset type canFreeDict it' kvs' ms d m I) as (kvs2 & E2 & St2 & _). by exists kvs2.
    + destruct H as (-> & At'). apply Forall_cons in F as [Fe F]. split_and!; [done|by split|by rewrite Fe].
  - intros At. destruct (iter_next type canFreeDict it kvs ms es At) as (o & it' & kvs' & -> & _ & H). cbn [mbind option_bind]. exists o, (OfStore it'), kvs'. split; [done|]. destruct es as [|e es].
    + destruct H as (-> & Ae). split; [done|]. destruct (reset_spec type canFreeDict it' kvs' ms Ae) as (kvs2 & E2 & St2 & _). by exists kvs2.
    + destruct H as (-> & At' & O). split_and!; [done|done|]. by apply (of_dict_hidden it' ms).
Qed.

Lemma answer_cons pattern e es : answer pattern (e :: es) = (if wanted pattern e then [e.1] else []) ++ answer pattern es.
Proof. unfold answer. cbn [List.filter]. by destruct (wanted pattern e). Qed.

Lemma keys_loop_spec pattern ms w0 : placed ms -> accepts cfg (cl w0) -> has (flags (cl w0)) CLIENT_CLOSE_ASAP = false -> forall n es it kvs w s num, Forall (fun e => is_i64 (zlen e.1)) es -> (length es < n)%nat ->
  keys_at it kvs ms es -> sent cfg w0 w s -> exists w' it' kvs' kvs2, keys_loop n pattern it kvs w num = Some (w', num + zlen (answer pattern es), it', kvs') /\
    keys_reset it' kvs' = Some kvs2 /\ store_ok type kvs2 ms /\ keeps w w' /\ sent cfg w0 w' (s ++ flat_map enc_bulk (answer pattern es)).
Proof.
  intros Pl Ac Fl. induction n as [|n IH]; intros es it kvs w s num Le Ln At S; [lia|]. cbn [keys_loop]. destruct (keys_step it kvs ms es Pl At) as (o & it' & kvs' & -> & H). cbn [mbind option_bind]. destruct es as [|e es].
  { destruct H as (-> & kvs2 & E2 & St2). exists w, it', kvs', kvs2. cbn. rewrite Z.add_0_r, app_nil_r. split_and!; [done|done|done|apply keeps_refl|done]. }
  destruct H as (-> & At' & ->). apply Forall_cons in Le as [Hk Le]. cbn [length] in Ln. rewrite answer_cons. unfold wanted. destruct (hidden e); cbn [negb andb app]; [apply IH; [done|lia|done|done]|].
  rewrite keys_entry_spec. cbn [mbind option_bind]. assert (forall w1 t, sent cfg w0 w1 t -> has (flags (cl w1)) CLIENT_CLOSE_ASAP = false) as Op.
  { intros w1 t S1. by rewrite (frame_has (cl w0) (cl w1)) by (done || apply (se_appends _ _ _ _ S1), Ac). }
  destruct (sends_key pattern e); cbn [app].
  - pose proof (bulkCBuffer_sent cfg w0 w s e.1 Hk S) as S1. rewrite (Op _ _ S1). destruct (IH es it' kvs' _ _ (num + 1) Le ltac:(lia) At' S1) as (w' & it2 & kvs3 & kvs2 & -> & E2 & St2 & K & S2).
    exists w', it2, kvs3, kvs2. rewrite zlen_cons. split_and!; [do 4 f_equal; lia|done|done|eapply keeps_trans; [apply bulkCBuffer_keeps|done]|]. cbn [flat_map]. by rewrite <- app_assoc in S2.
  - rewrite (Op _ _ S). by apply IH; [|lia| |].
Qed.

(** ** The entries of the store *)

Lemma slot_entries_map od m e : holds type od m -> e ∈ slot_entries od <-> m !! e.1 = Some e.2.
Proof.
  destruct od as [d|]; cbn; [|intros ->; rewrite lookup_empty; split; [by intros ?%not_elem_of_nil|done]]. intros M. rewrite <- (md_map _ _ _ M). destruct e as [k v]. apply elem_of_list_to_map, M.
Qed.

Lemma store_entries kvs ms e : store_ok type kvs ms -> e ∈ concat (all_entries kvs) <-> exists i m, ms !! i = Some m /\ m !! e.1 = Some e.2.
Proof.
  intros [S _]. pose proof (sr_dicts _ _ _ S) as F. unfold all_entries. rewrite list_elem_of_In, in_concat. split.
  - intros (l & [od [<- Ho]]%in_map_iff & He). apply list_elem_of_In, list_elem_of_lookup in Ho as [i Ho]. destruct (Forall2_lookup_l _ _ _ _ _ F Ho) as (m & Hm & Hh). exists i, m. split; [done|]. by apply (slot_entries_map od m e Hh), list_elem_of_In.
  - intros (i & m & Hm & He). destruct (Forall2_lookup_r _ _ _ _ _ F Hm) as (od & Ho & Hh). exists (slot_entries od). split; [apply in_map, list_elem_of_In; by eapply list_elem_of_lookup_2|]. by apply list_elem_of_In, (slot_entries_map od m e Hh).
Qed.

Lemma slot_nodup (od : option (dict (list Z) (kvobj A))) m : holds type od m -> NoDup (slot_entries od).*1.
Proof. destruct od as [d|]; cbn; [intros M; apply M|intros _; apply NoDup_nil_2]. Qed.

(** No key is in two dictionaries. *)
Lemma store_nodup (ods : list (option (dict (list Z) (kvobj A)))) ms : Forall2 (holds type) ods ms -> forall off, (forall i m k, ms !! i = Some m -> is_Some (m !! k) -> home k = Some (Z.of_nat (off + i))) -> NoDup (concat (slot_entries <$> ods)).*1.
Proof.
  induction 1 as [|od m ods ms Hh F IH]; intros off Pl; [apply NoDup_nil_2|]. cbn [fmap list_fmap concat]. rewrite fmap_app. apply NoDup_app. split_and!; [by apply (slot_nodup od m)| |apply (IH (S off)); intros i m' k Hm Hk; replace (S off + i)%nat with (off + S i)%nat by lia; by apply (Pl (S i) m')].
  intros k ([k1 v1] & -> & H1)%list_elem_of_fmap ([k2 v2] & E2 & H2)%list_elem_of_fmap. cbn in E2. subst k2. apply (slot_entries_map od m _ Hh) in H1. cbn in H1.
  apply list_elem_of_In, in_concat in H2 as (l & [od2 [<- Ho]]%in_map_iff & H2). apply list_elem_of_In, list_elem_of_lookup in Ho as [i Ho]. destruct (Forall2_lookup_l _ _ _ _ _ F Ho) as (m2 & Hm2 & Hh2).
  apply list_elem_of_In, (slot_entries_map od2 m2 _ Hh2) in H2. cbn in H2. pose proof (Pl O m k1 eq_refl (ex_intro _ _ H1)) as P1. pose proof (Pl (S i) m2 k1 Hm2 (ex_intro _ _ H2)) as P2. rewrite P1 in P2. injection P2 as P2. lia.
Qed.

Lemma answer_nodup pattern es : NoDup es.*1 -> NoDup (answer pattern es).
Proof.
  unfold answer. induction es as [|e es IH]; [done|]. cbn [fmap list_fmap List.filter]. intros [Ni Nd]%NoDup_cons. destruct (wanted pattern e); [|by apply IH]. cbn [fmap list_fmap]. apply NoDup_cons. split; [|by apply IH].
  intros (e' & E & He)%list_elem_of_fmap. apply Ni. apply list_elem_of_fmap. exists e'. split; [done|]. apply list_elem_of_In, filter_In in He as [He _]. by apply list_elem_of_In.
Qed.

Lemma elem_of_answer pattern es k : k ∈ answer pattern es <-> exists kv, (k, kv) ∈ es /\ wanted pattern (k, kv) = true.
Proof.
  unfold answer. rewrite list_elem_of_fmap. split.
  - intros ([k' kv] & -> & He). apply list_elem_of_In, filter_In in He as [He W]. exists kv. split; [by apply list_elem_of_In|done].
  - intros (kv & He & W). exists (k, kv). split; [done|]. apply list_elem_of_In, filter_In. split; [by apply list_elem_of_In|done].
Qed.

Lemma sends_spec pattern e : sends_key pattern e = true <-> key_matches pattern e.1 = Some true /\ keyIsExpired e.2 = false.
Proof.
  unfold sends_key. destruct (matches_some pattern e.1) as [m ->]. destruct m, (keyIsExpired e.2); cbn; split; try done; by intros [[=] ?].
Qed.

(** What the command promises: the keys of the readable slots that the pattern matches
    and that have not expired. *)
Definition listed (pattern : list Z) ms (k : list Z) : Prop :=
  exists i m kv, ms !! i = Some m /\ m !! k = Some kv /\ clusterCanAccessKeysInSlot (Z.of_nat i) = true /\ key_matches pattern k = Some true /\ keyIsExpired kv = false.

Lemma hidden_at ms i m k kv : placed ms -> ms !! i = Some m -> m !! k = Some kv -> hidden (k, kv) = negb (clusterCanAccessKeysInSlot (Z.of_nat i)).
Proof. intros Pl Hm Hk. unfold hidden. cbn [fst]. by rewrite (Pl i m k Hm) by (by eexists). Qed.

Lemma answer_all kvs ms pattern k : store_ok type kvs ms -> placed ms -> k ∈ answer pattern (concat (all_entries kvs)) <-> listed pattern ms k.
Proof.
  intros St Pl. rewrite elem_of_answer. unfold wanted, listed. setoid_rewrite andb_true_iff. setoid_rewrite sends_spec. cbn [fst snd]. split.
  - intros (kv & He & Hh & Hk & Hx). apply (store_entries kvs ms _ St) in He as (i & m & Hm & He). exists i, m, kv. cbn in He. rewrite (hidden_at ms i m k kv Pl Hm He), negb_involutive in Hh. done.
  - intros (i & m & kv & Hm & He & Hc & Hk & Hx). exists kv. split; [apply (store_entries kvs ms _ St); by exists i, m|]. by rewrite (hidden_at ms i m k kv Pl Hm He), Hc.
Qed.

(** A pattern with a slot: only the keys of that slot can match. *)
Lemma listed_in_slot pattern v ms k i m kv : placed ms -> cluster sv = true -> allkeys pattern = false -> patternHashSlot pattern = Some v -> v <> -1 -> ms !! i = Some m -> m !! k = Some kv -> key_matches pattern k = Some true -> v = Z.of_nat i.
Proof.
  intros Pl Cl Al Hv Nv Hm Hk Hx. unfold key_matches in Hx. rewrite Al in Hx. destruct (pattern_slot pattern v Hv) as [?|D]; [done|]. pose proof (decided_match pattern k v D Hx) as E. pose proof (Pl i m k Hm (ex_intro _ _ Hk)) as E'. unfold home in E'. rewrite Cl, E in E'. by injection E'.
Qed.

Lemma answer_one pattern v ms m (d : dict (list Z) (kvobj A)) k : placed ms -> cluster sv = true -> allkeys pattern = false -> patternHashSlot pattern = Some v -> v <> -1 -> 0 <= v -> ms !! Z.to_nat v = Some m -> models type d m ->
  k ∈ answer pattern (entries d) <-> listed pattern ms k.
Proof.
  intros Pl Cl Al Hv Nv P Hm M. rewrite elem_of_answer. unfold wanted, listed. setoid_rewrite andb_true_iff. setoid_rewrite sends_spec. cbn [fst snd]. split.
  - intros (kv & He & Hh & Hk & Hx). apply (slot_entries_map (Some d) m _ M) in He. cbn in He. exists (Z.to_nat v), m, kv. rewrite (hidden_at ms _ m k kv Pl Hm He), negb_involutive in Hh. done.
  - intros (i & m' & kv & Hm' & He & Hc & Hk & Hx). assert (v = Z.of_nat i) as -> by (by apply (listed_in_slot pattern v ms k i m' kv)). rewrite Nat2Z.id in Hm. rewrite Hm in Hm'. injection Hm' as <-.
    exists kv. split; [by apply (slot_entries_map (Some d) m _ M)|]. by rewrite (hidden_at ms i m k kv Pl Hm He), Hc.
Qed.

(** ** The command *)

Definition short_keys ms : Prop := forall i m k, ms !! i = Some m -> is_Some (m !! k) -> is_i64 (zlen k).

Lemma keys_run_spec n pattern it kvs ms es w0 w1 s l1 : placed ms -> accepts cfg (cl w0) -> has (flags (cl w0)) CLIENT_CLOSE_ASAP = false -> Forall (fun e => is_i64 (zlen e.1)) es -> (length es < n)%nat -> zlen es < 2 ^ 62 ->
  keys_at it kvs ms es -> sent cfg w0 w1 s -> reply (cl w1) = l1 ++ [None] ->
  exists w' kvs', ('(w, numkeys, it, kvs) ← keys_loop n pattern it kvs w1 0; kvs ← keys_reset it kvs; w ← setDeferredArrayLen cfg w (Some (length l1)) numkeys; Some (w, kvs)) = Some (w', kvs') /\
    store_ok type kvs' ms /\ sent cfg w0 w' (s ++ enc_num 42 (zlen (answer pattern es)) ++ flat_map enc_bulk (answer pattern es)).
Proof.
  intros Pl Ac Fl Le Ln Lz At S1 R1. destruct (keys_loop_spec pattern ms w0 Pl Ac Fl n es it kvs w1 s 0 Le Ln At S1) as (w2 & it' & kvs' & kvs2 & -> & E2 & St2 & K & S2). cbn [mbind option_bind]. rewrite E2. cbn [mbind option_bind]. rewrite Z.add_0_l.
  assert (0 <= zlen (answer pattern es) <= zlen es) as La.
  { split; [apply zlen_nonneg|]. unfold answer, zlen. rewrite length_fmap. pose proof (List.filter_length_le (wanted pattern) es). lia. }
  unfold setDeferredArrayLen. destruct (deferred_filled cfg w0 w1 w2 s (flat_map enc_bulk (answer pattern es)) l1 (zlen (answer pattern es)) 42) as (w3 & -> & S3); [lia|unfold is_i64; lia|done|done|done|done|]. by exists w3, kvs2.
Qed.

Lemma entries_short kvs ms : store_ok type kvs ms -> short_keys ms -> Forall (fun e => is_i64 (zlen e.1)) (concat (all_entries kvs)).
Proof. intros St Sh. apply Forall_forall. intros e He. apply (store_entries kvs ms e St) in He as (i & m & Hm & He). apply (Sh i m); [done|by eexists]. Qed.

(** The answer in one dictionary or none. *)
Lemma in_slot_spec n pattern kvs ms v w0 w1 l1 : store_ok type kvs ms -> placed ms -> short_keys ms -> cluster sv = true -> num_dicts kvs = 16384 -> allkeys pattern = false -> patternHashSlot pattern = Some v -> v <> -1 -> 0 <= v < 16384 ->
  accepts cfg (cl w0) -> has (flags (cl w0)) CLIENT_CLOSE_ASAP = false -> zsum (sizes ms) < Z.of_nat n -> sent cfg w0 w1 [] -> reply (cl w1) = l1 ++ [None] ->
  exists w' kvs' ks, (size ← kvstoreDictSize kvs v;
    if (size =? 0) || accessKeysShouldSkipDictIndex v then w ← setDeferredArrayLen cfg w1 (Some (length l1)) 0; Some (w, kvs)
    else it ← kvstoreInitDictSafeIterator kvs v;
      '(w, numkeys, it, kvs) ← keys_loop n pattern (OfDict it) kvs w1 0; kvs ← keys_reset it kvs; w ← setDeferredArrayLen cfg w (Some (length l1)) numkeys; Some (w, kvs)) = Some (w', kvs') /\
    store_ok type kvs' ms /\ sent cfg w0 w' (enc_num 42 (zlen ks) ++ flat_map enc_bulk ks) /\ NoDup ks /\ forall k, k ∈ ks <-> listed pattern ms k.
Proof.
  intros St Pl Sh Cl Nd Al Hv Nv P Ac Fl Ln S1 R1. destruct (structure_slot type kvs ms v (so_structure _ _ _ St)) as (od & m & G & Hm & Hh); [by rewrite Nd|]. rewrite (dict_size_ok type kvs ms v m St ltac:(lia) Hm). cbn [mbind option_bind].
  destruct ((msize m =? 0) || accessKeysShouldSkipDictIndex v) eqn:Em.
  - destruct (deferred_filled cfg w0 w1 w1 [] [] l1 0 42) as (w3 & E3 & S3); [lia|done|done|done|apply keeps_refl|done|]. unfold setDeferredArrayLen. rewrite E3. cbn [mbind option_bind]. exists w3, kvs, []. split_and!; [done|done|done|apply NoDup_nil_2|].
    intros k. split; [by intros ?%not_elem_of_nil|]. intros (i & m' & kv & Hm' & He & Hc & Hk & Hx). exfalso. assert (v = Z.of_nat i) as -> by (by apply (listed_in_slot pattern v ms k i m' kv)). rewrite Nat2Z.id, Hm' in Hm. injection Hm as ->.
    unfold accessKeysShouldSkipDictIndex in Em. rewrite Hc, orb_false_r in Em. apply Z.eqb_eq in Em. unfold msize in Em. assert (m = ∅) as -> by (apply map_size_empty_iff; lia). by rewrite lookup_empty in He.
  - apply orb_false_iff in Em as [Em Es]. apply Z.eqb_neq in Em. destruct od as [d|]; [|cbn in Hh; subst m; done]. unfold kvstoreInitDictSafeIterator. rewrite G. cbn [mbind option_bind].
    assert (forall e, e ∈ entries d -> hidden e = false /\ is_i64 (zlen e.1)) as Fe.
    { intros [k kv] He. apply (slot_entries_map (Some d) m _ Hh) in He. cbn in He. split; [rewrite (hidden_at ms _ m k kv Pl Hm He), Z2Nat.id by lia; exact Es|apply (Sh _ m k Hm); by eexists]. }
    pose proof (ct_total _ _ (so_counted _ _ _ St)) as Tt. assert (zlen (entries d) <= zsum (sizes ms)) as Ls.
    { rewrite <- (entries_sizes type kvs ms St), <- zlen_concat. destruct (get_dict _ _ _ G) as [_ Lk]. assert (all_entries kvs !! Z.to_nat v = Some (entries d)) as La by (unfold all_entries; by rewrite list_lookup_fmap, Lk).
      revert La. generalize (all_entries kvs). clear. intros E. revert v. induction E as [|l E IH]; intros v; [done|]. cbn [concat]. rewrite zlen_app. pose proof (zlen_nonneg l). pose proof (zlen_nonneg (concat E)). destruct (Z.to_nat v) as [|j] eqn:Ej; cbn; [intros [= ->]; lia|].
      intros L. specialize (IH (Z.of_nat j)). rewrite Nat2Z.id in IH. specialize (IH L). lia. }
    destruct (keys_run_spec n pattern (OfDict {| kd_didx := v; kd_di := dictInitIterator true |}) kvs ms (entries d) w0 w1 [] l1) as (w' & kvs' & -> & St' & S'); try done.
    + apply Forall_forall. intros e He. by apply Fe.
    + unfold zlen in Ls. lia.
    + lia.
    + split; [|apply Forall_forall; intros e He; by apply Fe]. left. exists d, m. split_and!; try done. rewrite (size_spec type), (models_size type d m Hh) by apply Hh. done.
    + exists w', kvs', (answer pattern (entries d)). split_and!; [done|done|done|by apply answer_nodup, Hh|]. intros k. apply (answer_one pattern v ms m d); try done. lia.
Qed.

Lemma keys_command_spec n pattern kvs ms w : store_ok type kvs ms -> placed ms -> short_keys ms -> (cluster sv = true -> num_dicts kvs = 16384) -> Forall is_u8 pattern -> zsum (sizes ms) < Z.of_nat n ->
  ReplyBuffer.wf w -> accepts cfg (cl w) -> has (flags (cl w)) CLIENT_CLOSE_ASAP = false ->
  exists w' kvs' ks, keysCommand n pattern kvs w = Some (w', kvs') /\ store_ok type kvs' ms /\ stream (cl w') = stream (cl w) ++ enc_num 42 (zlen ks) ++ flat_map enc_bulk ks /\ NoDup ks /\ forall k, k ∈ ks <-> listed pattern ms k.
Proof.
  intros St Pl Sh Nd Bp Ln W Ac Fl. unfold keysCommand. destruct (deferredLen_sent cfg w w [] (sent_refl cfg w W Ac)) as (l1 & w1 & -> & S1 & R1).
  assert (forall w' s, sent cfg w w' s -> stream (cl w') = stream (cl w) ++ s) as Str by (intros w' s S; apply (se_appends _ _ _ _ S)).
  assert (exists v, (if cluster sv && negb (allkeys pattern) then patternHashSlot pattern else Some (-1)) = Some v /\ -1 <= v < 16384 /\ (v <> -1 -> cluster sv = true /\ allkeys pattern = false /\ patternHashSlot pattern = Some v)) as (v & -> & Rv & Hv).
  { destruct (cluster sv), (allkeys pattern); cbn [andb negb]; try (by exists (-1)). destruct (pattern_total pattern Bp) as (v & E & R). exists v. by rewrite E. }
  cbn [mbind option_bind]. destruct (Z.eqb_spec v (-1)) as [->|Nv]; cbn [negb].
  - unfold kvstoreIteratorInit. rewrite (first_index_ok type kvs ms St). cbn [mbind option_bind]. set (it := {| ki_didx := -1 |}).
    pose proof (ct_total _ _ (so_counted _ _ _ St)) as Tt. assert (zlen (concat (all_entries kvs)) = zsum (sizes ms)) as Ls by (by rewrite zlen_concat, (entries_sizes type kvs ms St)).
    destruct (keys_run_spec n pattern (OfStore it) kvs ms (concat (all_entries kvs)) w w1 [] l1) as (w' & kvs' & -> & St' & S'); try done.
    + by apply (entries_short kvs ms).
    + unfold zlen in Ls. lia.
    + lia.
    + left. cbn [it ki_didx ki_di ki_next_didx]. split_and!; try done. rewrite <- (nth_key_first (sizes ms)); [done|apply St|done].
    + exists w', kvs', (answer pattern (concat (all_entries kvs))). split_and!; [done|done|by apply Str| |intros k; by apply answer_all]. apply answer_nodup. apply (store_nodup (dicts kvs) ms (sr_dicts _ _ _ (so_structure _ _ _ St)) 0). exact Pl.
  - destruct (Hv Nv) as (Cl & Al & Ev). destruct (in_slot_spec n pattern kvs ms v w w1 l1 St Pl Sh Cl (Nd Cl) Al Ev Nv ltac:(lia) Ac Fl Ln S1 R1) as (w' & kvs' & ks & E & St' & S' & Dk & Hk). exists w', kvs', ks. split_and!; [exact E|done|by apply Str|done|done].
Qed.

(** ** Theorem *)

(** C6: on a store after any operations, KEYS answers an array with every key of the
    readable slots that the pattern matches and that has not expired, each once and
    no other, also where it looks into one dictionary only because the pattern has a
    slot; and the store holds after it what it held before. Every key is in the
    dictionary of its slot, and the client takes the whole reply. *)
Theorem keys_command_exact bits flags_ ops l ms n pattern w : (if cluster sv then bits = 14 else 0 <= bits <= 16) -> zlen ops < 2 ^ 62 ->
  maps_run ops.*2 (replicate (Z.to_nat (2 ^ bits)) ∅) = Some (l, ms) -> placed ms -> short_keys ms -> zsum (sizes ms) < Z.of_nat n -> Forall is_u8 pattern ->
  ReplyBuffer.wf w -> accepts cfg (cl w) -> has (flags (cl w)) CLIENT_CLOSE_ASAP = false ->
  exists kvs0 kvs w' kvs' ks, kvstoreCreate bits flags_ = Some kvs0 /\ store_run type canFreeDict ops kvs0 = Some (l, kvs) /\ keysCommand n pattern kvs w = Some (w', kvs') /\
    stream (cl w') = stream (cl w) ++ enc_num 42 (zlen ks) ++ flat_map enc_bulk ks /\ NoDup ks /\ (forall k, k ∈ ks <-> listed pattern ms k) /\ store_contents kvs' = ms.
Proof.
  intros B L E Pl Sh Ln Bp W Ac Fl. assert (0 <= bits <= 16) as B' by (destruct (cluster sv); lia).
  destruct (create_store_spec (V:=kvobj A) type hash_range bits flags_ B') as (kvs0 & C & St0). pose proof (zlen_nonneg ops).
  destruct (store_run_spec type canFreeDict hash_range ops kvs0 _ l ms St0) as (kvs & R & St); [rewrite msize_empties, zsum_replicate; lia|done|].
  assert (cluster sv = true -> num_dicts kvs = 16384) as Nd.
  { intros Cl. rewrite Cl in B. subst bits. rewrite <- (sr_length _ _ _ (so_structure _ _ _ St)). pose proof (Forall2_length _ _ _ (sr_dicts _ _ _ (so_structure _ _ _ St))) as L2. unfold zlen. rewrite L2. by rewrite (maps_run_length _ _ _ _ E), length_replicate. }
  destruct (keys_command_spec n pattern kvs ms w St Pl Sh Nd Bp Ln W Ac Fl) as (w' & kvs' & ks & Ek & St' & Es & Dk & Hk).
  exists kvs0, kvs, w', kvs', ks. split_and!; try done. apply (structure_contents type), St'.
Qed.
End Keys.

(** ** Witness *)

Definition bytes_type : dictType (list Z) := {| hashFunction := fun k => u64 (zsum k * 31); resizeAllowed := fun _ _ _ => true; force_full_rehash := false |}.

Definition sample_node : keys_server := {| cluster := true; can_access := fun s => 8000 <=? s; server_loading := false; allow_access_expired := false; cmd_time_snapshot := 1000 |}.

Definition live : kvobj unit := {| kv_expire := -1; kv_value := tt |}.
Definition dead : kvobj unit := {| kv_expire := 999; kv_value := tt |}.

Definition slot_index (k : list Z) : Z := default 0 (keyHashSlot k).

Definition sample_key_ops : list (dictResizeEnable * kvobj unit * @store_op (list Z) (kvobj unit)) :=
  (fun '(k, v) => (DICT_RESIZE_ENABLE, live, KAdd (slot_index k) k v)) <$> [(bs "{tag}a", live); (bs "{tag}b", live); (bs "{tag}old", dead); (bs "other", live); (bs "{tag}c", live)].

Fixpoint placed_check (i : Z) (ms : list (gmap (list Z) (kvobj unit))) : bool :=
  match ms with
  | [] => true
  | m :: ms => forallb (fun '(k, _) => bool_decide (home sample_node k = Some i) && (zlen k <? 2 ^ 63)) (map_to_list m) && placed_check (i + 1) ms
  end.

Lemma placed_check_at ms : forall j, placed_check j ms = true -> forall i m k, ms !! i = Some m -> is_Some (m !! k) -> home sample_node k = Some (j + Z.of_nat i) /\ zlen k < 2 ^ 63.
Proof.
  induction ms as [|m0 ms IH]; intros j C i m k Hm [v Hv]; [done|]. cbn [placed_check] in C. apply andb_prop in C as [C1 C2]. destruct i as [|i]; cbn in Hm.
  - injection Hm as ->. rewrite forallb_forall in C1. specialize (C1 (k, v)). cbv beta iota in C1. assert (In (k, v) (map_to_list m)) as I by (by apply list_elem_of_In, elem_of_map_to_list). specialize (C1 I). apply andb_prop in C1 as [C1 C3]. apply bool_decide_eq_true in C1. apply Z.ltb_lt in C3. by rewrite Z.add_0_r.
  - destruct (IH (j + 1) C2 i m k Hm) as [E L]; [by eexists|]. split; [|done]. rewrite E. f_equal. lia.
Qed.

Lemma placed_checked ms : placed_check 0 ms = true -> placed sample_node ms /\ short_keys ms.
Proof.
  intros C. split; intros i m k Hm Hk; destruct (placed_check_at ms 0 C i m k Hm Hk) as [E L]; [done|]. pose proof (zlen_nonneg k). unfold is_i64. lia.
Qed.

Definition sample_maps : option (list store_answer * list (gmap (list Z) (kvobj unit))) := maps_run sample_key_ops.*2 (replicate (Z.to_nat (2 ^ 14)) ∅).

Lemma sample_maps_checked : match sample_maps with Some (_, ms) => placed_check 0 ms && (zsum (sizes ms) <? 10) | None => false end = true.
Proof. vm_cast_no_check (eq_refl true). Qed.

Lemma keys_command_exact_witness : exists ms (kvs : kvstore (list Z) (kvobj unit)) w' kvs' ks, keysCommand (fun _ _ => true) example_config sample_node 10 (bs "{tag}*") kvs example_world = Some (w', kvs') /\
  stream (cl w') = stream (cl example_world) ++ enc_num 42 (zlen ks) ++ flat_map enc_bulk ks /\ NoDup ks /\ (forall k, k ∈ ks <-> listed sample_node (bs "{tag}*") ms k) /\ store_contents kvs' = ms.
Proof.
  pose proof sample_maps_checked as C. destruct sample_maps as [[l ms]|] eqn:E; [|discriminate C]. apply andb_prop in C as [C1 C2]. apply placed_checked in C1 as [Pl Sh]. apply Z.ltb_lt in C2.
  destruct (keys_command_exact bytes_type (fun _ _ => true) example_config sample_node (fun k => u64_range (zsum k * 31)) 14 (Z.lor KVSTORE_ALLOCATE_DICTS_ON_DEMAND KVSTORE_FREE_EMPTY_DICTS) sample_key_ops l ms 10 (bs "{tag}*") example_world)
    as (kvs0 & kvs & w' & kvs' & ks & _ & _ & K & S & N & H & F); [reflexivity|reflexivity|exact E|exact Pl|exact Sh|exact C2|apply bytes_checked; vm_compute; reflexivity|exact example_wf|exact example_accepts|reflexivity|].
  exists ms, kvs, w', kvs', ks. split; [exact K|]. split; [exact S|]. split; [exact N|]. split; [exact H|exact F].
Defined.
