(* ===== verification/Multi.v ===== *)
(** Transactions (src/src/multi.c): MULTI, EXEC, DISCARD, WATCH and UNWATCH with the
    lists that connect clients and watched keys, the marking of clients when keys
    change, and the places of src/src/db.c and src/src/server.c that call it.

    A watched key is a struct that is a node of two lists at once. A client watches a
    key of a database at most once, so the node in the list of the key is named by the
    client and the struct is kept in the list of the client. *)

From stdpp Require Import base list numbers gmap strings.
From S2P Require Import Prelude Client.

Local Open Scope Z_scope.

Definition CLIENT_DIRTY_CAS : Z := 2 ^ 5.
Definition CLIENT_DIRTY_EXEC : Z := 2 ^ 12.

Notation key := (list Z).

(** The object of a key: its value and its time of expiration, -1 without one. *)
Record object (V : Type) : Type := { o_value : V; o_expire : Z }.
Arguments o_value {V} _.
Arguments o_expire {V} _.

Record watchedKey : Type := { wk_db : nat; wk_key : key; wk_expired : bool }.

(** [argv_len_sums] and the reserved memory of a command are left out. *)
Record multiState (C : Type) : Type := { ms_commands : list C; ms_cmd_flags : Z; ms_cmd_inv_flags : Z; ms_alloc_count : Z; ms_executing_cmd : Z }.
Arguments ms_commands {C} _.
Arguments ms_cmd_flags {C} _.
Arguments ms_cmd_inv_flags {C} _.
Arguments ms_alloc_count {C} _.
Arguments ms_executing_cmd {C} _.

Record mclient (C : Type) : Type := { c_flags : Z; c_db : nat; watched_keys : list watchedKey; mstate : multiState C }.
Arguments c_flags {C} _.
Arguments c_db {C} _.
Arguments watched_keys {C} _.
Arguments mstate {C} _.

(** The keys of a database, and for a watched key the clients that watch it. *)
Record redisDb (V : Type) : Type := { db_keys : gmap key (object V); db_watched : gmap key (list Z) }.
Arguments db_keys {V} _.
Arguments db_watched {V} _.

(** What a client is answered; [Output] stands for the reply of a queued command. *)
Inductive mreply : Type := Ok | Queued | Error (e : list Z) | NullArray | ExecAbort | ArrayLen (n : Z) | NoPerm | Output.

(** [replica] is whether the server has a master ([masterhost]). *)
Record mserver (V C : Type) : Type := {
  dbs : list (redisDb V); clients : gmap Z (mclient C); watching_clients : Z; in_exec : bool; replica : bool; mstime : Z; replies : list (Z * mreply)
}.
Arguments dbs {V C} _.
Arguments clients {V C} _.
Arguments watching_clients {V C} _.
Arguments in_exec {V C} _.
Arguments replica {V C} _.
Arguments mstime {V C} _.
Arguments replies {V C} _.

Section Multi.
Context {V C : Type}.
Implicit Types (s : mserver V C) (c : Z) (cl : mclient C) (d : redisDb V) (k : key).

Definition set_clients s (m : gmap Z (mclient C)) : mserver V C :=
  {| dbs := dbs s; clients := m; watching_clients := watching_clients s; in_exec := in_exec s; replica := replica s; mstime := mstime s; replies := replies s |}.
Definition set_dbs s (l : list (redisDb V)) : mserver V C :=
  {| dbs := l; clients := clients s; watching_clients := watching_clients s; in_exec := in_exec s; replica := replica s; mstime := mstime s; replies := replies s |}.
Definition set_watching s (n : Z) : mserver V C :=
  {| dbs := dbs s; clients := clients s; watching_clients := n; in_exec := in_exec s; replica := replica s; mstime := mstime s; replies := replies s |}.
Definition set_in_exec s (x : bool) : mserver V C :=
  {| dbs := dbs s; clients := clients s; watching_clients := watching_clients s; in_exec := x; replica := replica s; mstime := mstime s; replies := replies s |}.
Definition set_mstime s (t : Z) : mserver V C :=
  {| dbs := dbs s; clients := clients s; watching_clients := watching_clients s; in_exec := in_exec s; replica := replica s; mstime := t; replies := replies s |}.
Definition reply_to s c (r : mreply) : mserver V C :=
  {| dbs := dbs s; clients := clients s; watching_clients := watching_clients s; in_exec := in_exec s; replica := replica s; mstime := mstime s; replies := replies s ++ [(c, r)] |}.
Definition set_client s c cl : mserver V C := set_clients s (<[c := cl]> (clients s)).
Definition set_db s (i : nat) d : mserver V C := set_dbs s (<[i := d]> (dbs s)).

Definition set_flags cl (f : Z) : mclient C := {| c_flags := f; c_db := c_db cl; watched_keys := watched_keys cl; mstate := mstate cl |}.
Definition set_cdb cl (i : nat) : mclient C := {| c_flags := c_flags cl; c_db := i; watched_keys := watched_keys cl; mstate := mstate cl |}.
Definition set_watched cl (l : list watchedKey) : mclient C := {| c_flags := c_flags cl; c_db := c_db cl; watched_keys := l; mstate := mstate cl |}.
Definition set_mstate cl (m : multiState C) : mclient C := {| c_flags := c_flags cl; c_db := c_db cl; watched_keys := watched_keys cl; mstate := m |}.
Definition set_keys_of d (m : gmap key (object V)) : redisDb V := {| db_keys := m; db_watched := db_watched d |}.
Definition set_watched_of d (w : gmap key (list Z)) : redisDb V := {| db_keys := db_keys d; db_watched := w |}.

(** Outside of loading and of commands that access expired keys. *)
Definition keyIsExpired (now : Z) (keys : gmap key (object V)) k : bool :=
  match keys !! k with Some o => (0 <=? o_expire o) && (now >? o_expire o) | None => false end.

(** ** Watched keys *)

Definition same_key (i : nat) k (wk : watchedKey) : bool := bool_decide (wk_db wk = i) && bool_decide (wk_key wk = k).

Definition watchForKey s c k : option (mserver V C) :=
  cl ← clients s !! c;
  let s := if bool_decide (watched_keys cl = []) then set_watching s (watching_clients s + 1) else s in
  if existsb (same_key (c_db cl) k) (watched_keys cl) then Some s
  else
    d ← dbs s !! c_db cl;
    let wk := {| wk_db := c_db cl; wk_key := k; wk_expired := keyIsExpired (mstime s) (db_keys d) k |} in
    let s := set_db s (c_db cl) (set_watched_of d (<[k := default [] (db_watched d !! k) ++ [c]]> (db_watched d))) in
    Some (set_client s c (set_watched cl (watched_keys cl ++ [wk]))).

(** One round: the node leaves the list of the key, and the list the dictionary when it
    is empty. *)
Definition unwatch_one s c (wk : watchedKey) (rest : list watchedKey) : option (mserver V C) :=
  cl ← clients s !! c;
  d ← dbs s !! wk_db wk;
  l ← db_watched d !! wk_key wk;
  let l := filter (fun x => x <> c) l in
  let w := if bool_decide (l = []) then delete (wk_key wk) (db_watched d) else <[wk_key wk := l]> (db_watched d) in
  Some (set_client (set_db s (wk_db wk) (set_watched_of d w)) c (set_watched cl rest)).

Fixpoint unwatch_loop s c (l : list watchedKey) : option (mserver V C) :=
  match l with [] => Some s | wk :: l => s ← unwatch_one s c wk l; unwatch_loop s c l end.

Definition unwatchAllKeys s c : option (mserver V C) :=
  cl ← clients s !! c;
  if bool_decide (watched_keys cl = []) then Some s
  else s ← unwatch_loop s c (watched_keys cl); Some (set_watching s (watching_clients s - 1)).

Definition isWatchedKeyExpired s cl : bool :=
  existsb (fun wk => negb (wk_expired wk) && match dbs s !! wk_db wk with Some d => keyIsExpired (mstime s) (db_keys d) (wk_key wk) | None => false end) (watched_keys cl).

Definition set_expired (i : nat) k (b : bool) (l : list watchedKey) : list watchedKey :=
  (fun wk => if same_key i k wk then {| wk_db := wk_db wk; wk_key := wk_key wk; wk_expired := b |} else wk) <$> l.

(** The clients behind the one that is at hand do not leave the list meanwhile. *)
Fixpoint touch_loop s (i : nat) k (l : list Z) : option (mserver V C) :=
  match l with
  | [] => Some s
  | c :: l =>
      cl ← clients s !! c;
      wk ← List.find (same_key i k) (watched_keys cl);
      if wk_expired wk then
        d ← dbs s !! i;
        match db_keys d !! k with
        | None => touch_loop (set_client s c (set_watched cl (set_expired i k false (watched_keys cl)))) i k l
        | Some _ => Some s
        end
      else
        s ← unwatchAllKeys (set_client s c (set_flags cl (Z.lor (c_flags cl) CLIENT_DIRTY_CAS))) c;
        touch_loop s i k l
  end.

Definition touchWatchedKey s (i : nat) k : option (mserver V C) :=
  d ← dbs s !! i;
  match db_watched d !! k with None => Some s | Some l => touch_loop s i k l end.

(** What a client with the struct [wk] is marked with; [replaced] are the keys that come
    in place of the emptied ones. *)
Fixpoint touch_all_clients s (i : nat) k (exists_in_emptied : bool) (replaced : option (gmap key (object V))) (l : list Z) : option (mserver V C) :=
  match l with
  | [] => Some s
  | c :: l =>
      cl ← clients s !! c;
      wk ← List.find (same_key i k) (watched_keys cl);
      let in_replaced := match replaced with Some m => bool_decide (is_Some (m !! k)) | None => false end in
      let replaced_expired := match replaced with Some m => keyIsExpired (mstime s) m k | None => false end in
      let mark b := set_watched cl (set_expired i k b (watched_keys cl)) in
      let dirty := set_flags cl (Z.lor (c_flags cl) CLIENT_DIRTY_CAS) in
      let cl' :=
        if wk_expired wk then if negb in_replaced then mark false else if replaced_expired then cl else dirty
        else if negb exists_in_emptied && replaced_expired then mark true
        else dirty in
      touch_all_clients (set_client s c cl') i k exists_in_emptied replaced l
  end.

Fixpoint touch_all_loop s (i : nat) (emptied : gmap key (object V)) (replaced : option (gmap key (object V))) (slots : key -> bool) (l : list (key * list Z)) : option (mserver V C) :=
  match l with
  | [] => Some s
  | (k, cs) :: l =>
      s ← (if negb (slots k) then Some s
           else
             let exists_in_emptied := bool_decide (is_Some (emptied !! k)) in
             if exists_in_emptied || match replaced with Some m => bool_decide (is_Some (m !! k)) | None => false end then
               touch_all_clients s i k exists_in_emptied replaced cs
             else Some s);
      touch_all_loop s i emptied replaced slots l
  end.

(** [slots] is true everywhere where the code passes no slots. *)
Definition touchAllWatchedKeysInDb s (i : nat) (replaced : option (gmap key (object V))) (slots : key -> bool) : option (mserver V C) :=
  d ← dbs s !! i; touch_all_loop s i (db_keys d) replaced slots (map_to_list (db_watched d)).

(** ** The queue of a transaction *)

Definition initClientMultiState : multiState C :=
  {| ms_commands := []; ms_cmd_flags := 0; ms_cmd_inv_flags := 0; ms_alloc_count := 0; ms_executing_cmd := -1 |}.

Definition queueMultiCommand cl (cmd : C) (cmd_flags : Z) : mclient C :=
  if has (c_flags cl) (Z.lor CLIENT_DIRTY_CAS CLIENT_DIRTY_EXEC) then cl
  else
    let m := mstate cl in
    let count := zlen (ms_commands m) in
    let alloc := if count =? 0 then 2 else ms_alloc_count m in
    let alloc := if count =? alloc then if alloc <? INT_MAX / 2 then alloc * 2 else INT_MAX else alloc in
    set_mstate cl {| ms_commands := ms_commands m ++ [cmd]; ms_cmd_flags := i32 (Z.lor (ms_cmd_flags m) cmd_flags);
                     ms_cmd_inv_flags := i32 (Z.lor (ms_cmd_inv_flags m) (Z.lnot cmd_flags)); ms_alloc_count := alloc;
                     ms_executing_cmd := ms_executing_cmd m |}.

Definition discardTransaction s c : option (mserver V C) :=
  cl ← clients s !! c;
  unwatchAllKeys (set_client s c (set_flags (set_mstate cl initClientMultiState)
    (Z.ldiff (c_flags cl) (Z.lor CLIENT_MULTI (Z.lor CLIENT_DIRTY_CAS CLIENT_DIRTY_EXEC))))) c.

Definition flagTransaction cl : mclient C :=
  if has (c_flags cl) CLIENT_MULTI then set_flags cl (Z.lor (c_flags cl) CLIENT_DIRTY_EXEC) else cl.

Definition multiCommand s c : option (mserver V C) :=
  cl ← clients s !! c;
  if has (c_flags cl) CLIENT_MULTI then Some (reply_to s c (Error (bs "MULTI calls can not be nested")))
  else Some (reply_to (set_client s c (set_flags cl (Z.lor (c_flags cl) CLIENT_MULTI))) c Ok).

Definition discardCommand s c : option (mserver V C) :=
  cl ← clients s !! c;
  if negb (has (c_flags cl) CLIENT_MULTI) then Some (reply_to s c (Error (bs "DISCARD without MULTI")))
  else s ← discardTransaction s c; Some (reply_to s c Ok).

Fixpoint watch_loop s c (l : list key) : option (mserver V C) :=
  match l with [] => Some s | k :: l => s ← watchForKey s c k; watch_loop s c l end.

Definition watchCommand s c (l : list key) : option (mserver V C) :=
  cl ← clients s !! c;
  if has (c_flags cl) CLIENT_MULTI then Some (reply_to s c (Error (bs "WATCH inside MULTI is not allowed")))
  else if has (c_flags cl) CLIENT_DIRTY_CAS then Some (reply_to s c Ok)
  else s ← watch_loop s c l; Some (reply_to s c Ok).

Definition unwatchCommand s c : option (mserver V C) :=
  s ← unwatchAllKeys s c;
  cl ← clients s !! c;
  Some (reply_to (set_client s c (set_flags cl (Z.ldiff (c_flags cl) CLIENT_DIRTY_CAS))) c Ok).

(** ** Changes of the keys *)

(** A key is deleted because it expired, or gets another object or none; databases are
    emptied or swapped; the client selects a database. *)
Inductive effect : Type :=
| Expire (i : nat) (k : key)
| Assign (i : nat) (k : key) (o : option (object V))
| Flush (dbid : option nat)
| Swap (id1 id2 : nat)
| Select (id : nat).

Definition set_keys s (i : nat) (m : gmap key (object V)) : mserver V C :=
  match dbs s !! i with Some d => set_db s i (set_keys_of d (m)) | None => s end.

(** The change of a key and [keyModified]. *)
Definition change_key s (i : nat) k (o : option (object V)) : option (mserver V C) :=
  d ← dbs s !! i;
  touchWatchedKey (set_keys s i (match o with Some o => <[k := o]> (db_keys d) | None => delete k (db_keys d) end)) i k.

(** A key that is set is modified ([setKey]), one that is deleted only when it was there. *)
Definition write_key s (i : nat) k (o : option (object V)) : option (mserver V C) :=
  d ← dbs s !! i;
  match o, db_keys d !! k with None, None => Some s | _, _ => change_key s i k o end.

(** On a replica the commands are those of the master, to which no key is expired. Keys
    of slots that are being trimmed and a pause of the expiration are left out. *)
Definition expireIfNeeded s (i : nat) k : option (mserver V C) :=
  d ← dbs s !! i;
  if negb (keyIsExpired (mstime s) (db_keys d) k) then Some s
  else if replica s then Some s
  else change_key s i k None.

Definition all_slots (k : key) : bool := true.

Fixpoint flush_loop s (l : list nat) : option (mserver V C) :=
  match l with [] => Some s | i :: l => s ← touchAllWatchedKeysInDb s i None all_slots; flush_loop s l end.

Definition signalFlushedDb s (dbid : option nat) : option (mserver V C) :=
  flush_loop s (match dbid with None => seq 0 (length (dbs s)) | Some i => [i] end).

Definition emptyDb s (l : list nat) : mserver V C := foldl (fun s i => set_keys s i ∅) s l.

Definition emptyData s (dbid : option nat) : option (mserver V C) :=
  match dbid with
  | Some i => if (i <? length (dbs s))%nat then s ← signalFlushedDb s dbid; Some (emptyDb s [i]) else Some s
  | None => s ← signalFlushedDb s None; Some (emptyDb s (seq 0 (length (dbs s))))
  end.

(** An index out of range is an error of the command. *)
Definition dbSwapDatabases s (id1 id2 : nat) : option (mserver V C) :=
  match dbs s !! id1, dbs s !! id2 with
  | Some db1, Some db2 =>
      if (id1 =? id2)%nat then Some s
      else
        s ← touchAllWatchedKeysInDb s id1 (Some (db_keys db2)) all_slots;
        s ← touchAllWatchedKeysInDb s id2 (Some (db_keys db1)) all_slots;
        Some (set_keys (set_keys s id1 (db_keys db2)) id2 (db_keys db1))
  | _, _ => Some s
  end.

Definition selectDb s c (id : nat) : option (mserver V C) :=
  cl ← clients s !! c;
  if (length (dbs s) <=? id)%nat then Some s else Some (set_client s c (set_cdb cl (id))).

(** A command writes to a key of a database it has; on its way it looks the key up. *)
Definition apply_effect s (e : effect) : option (mserver V C) :=
  match e with
  | Expire i k => if (i <? length (dbs s))%nat then expireIfNeeded s i k else Some s
  | Assign i k o => if (i <? length (dbs s))%nat then s ← expireIfNeeded s i k; write_key s i k o else Some s
  | Flush dbid => emptyData s dbid
  | Swap id1 id2 => dbSwapDatabases s id1 id2
  | Select _ => Some s
  end.

Fixpoint apply_effects s c (l : list effect) : option (mserver V C) :=
  match l with
  | [] => Some s
  | Select id :: l => s ← selectDb s c id; apply_effects s c l
  | e :: l => s ← apply_effect s e; apply_effects s c l
  end.
End Multi.

Arguments effect V : clear implicits.

(** ** Commands *)

(** UNWATCH is queued in a transaction like any other command. *)
Inductive command (C : Type) : Type := UNWATCH | Other (cmd : C).
Arguments UNWATCH {C}.
Arguments Other {C} _.

(** What a client sends. [Reject] is a command refused before it runs, with the error;
    [Redirect] one whose keys another node has; both say whether it is EXEC. *)
Inductive request (C : Type) : Type :=
| WATCH (l : list key) | MULTI | DISCARD | EXEC | Run (cmd : command C) (cmd_flags : Z)
| Reject (is_exec : bool) (e : list Z) | Redirect (is_exec : bool) (e : list Z).
Arguments WATCH {C} _.
Arguments MULTI {C}.
Arguments DISCARD {C}.
Arguments EXEC {C}.
Arguments Run {C} _ _.
Arguments Reject {C} _ _.
Arguments Redirect {C} _ _.

(** The events of a server; [Background] is a change no client asked for, as by the
    expiration cycle, the eviction or the replication link. *)
Inductive event (V C : Type) : Type :=
| Connect (c : Z) | Disconnect (c : Z) | Client (c : Z) (r : request C) | Background (e : effect V) | Tick (ms : Z).
Arguments Connect {V C} _.
Arguments Disconnect {V C} _.
Arguments Client {V C} _ _.
Arguments Background {V C} _.
Arguments Tick {V C} _.

Section Server.
Context {V C : Type}.
(** What a command does to the keys, in the database of its client, and whether the
    rules of its user allow it. *)
Variable effects : C -> nat -> list (gmap key (object V)) -> list (effect V).
Variable allowed : Z -> command C -> bool.
Implicit Types (s : mserver V (command C)) (c : Z) (cl : mclient (command C)).

Definition call s c (cmd : command C) : option (mserver V (command C)) :=
  match cmd with
  | UNWATCH => unwatchCommand s c
  | Other cmd =>
      cl ← clients s !! c;
      s ← apply_effects s c (effects cmd (c_db cl) (db_keys <$> dbs s));
      Some (reply_to s c Output)
  end.

Definition set_executing s c (j : Z) : option (mserver V (command C)) :=
  cl ← clients s !! c; Some (set_client s c (set_mstate cl
    (let m := mstate cl in {| ms_commands := ms_commands m; ms_cmd_flags := ms_cmd_flags m; ms_cmd_inv_flags := ms_cmd_inv_flags m; ms_alloc_count := ms_alloc_count m; ms_executing_cmd := j |}))).

Fixpoint exec_loop s c (j : Z) (l : list (command C)) : option (mserver V (command C)) :=
  match l with
  | [] => Some s
  | cmd :: l =>
      s ← (if negb (allowed c cmd) then Some (reply_to s c NoPerm) else s ← set_executing s c j; call s c cmd);
      exec_loop s c (j + 1) l
  end.

Definition execCommand s c : option (mserver V (command C)) :=
  cl ← clients s !! c;
  if negb (has (c_flags cl) CLIENT_MULTI) then Some (reply_to s c (Error (bs "EXEC without MULTI")))
  else
    let cl := if isWatchedKeyExpired s cl then set_flags cl (Z.lor (c_flags cl) CLIENT_DIRTY_CAS) else cl in
    let s := set_client s c cl in
    if has (c_flags cl) (Z.lor CLIENT_DIRTY_CAS CLIENT_DIRTY_EXEC) then
      discardTransaction (reply_to s c (if has (c_flags cl) CLIENT_DIRTY_EXEC then ExecAbort else NullArray)) c
    else
      let s := set_client s c (set_flags cl (Z.lor (c_flags cl) CLIENT_DENY_BLOCKING)) in
      s ← unwatchAllKeys s c;
      let s := reply_to (set_in_exec s true) c (ArrayLen (zlen (ms_commands (mstate cl)))) in
      s ← exec_loop s c 0 (ms_commands (mstate cl));
      cl' ← clients s !! c;
      let s := if negb (has (c_flags cl) CLIENT_DENY_BLOCKING) then set_client s c (set_flags cl' (Z.ldiff (c_flags cl') CLIENT_DENY_BLOCKING)) else s in
      s ← discardTransaction s c;
      Some (set_in_exec s false).

(** [rejectCommand], and the redirection of [processCommand]. *)
Definition rejectCommand s c (is_exec : bool) (e : list Z) : option (mserver V (command C)) :=
  cl ← clients s !! c;
  let s := set_client s c (flagTransaction cl) in
  if is_exec then s ← discardTransaction s c; Some (reply_to s c ExecAbort)
  else Some (reply_to s c (Error e)).

Definition redirect s c (is_exec : bool) (e : list Z) : option (mserver V (command C)) :=
  cl ← clients s !! c;
  s ← (if is_exec then discardTransaction s c else Some (set_client s c (flagTransaction cl)));
  Some (reply_to s c (Error e)).

(** The end of [processCommand]; QUIT and RESET are left out. *)
Definition processCommand s c (r : request C) : option (mserver V (command C)) :=
  match r with
  | WATCH l => watchCommand s c l
  | MULTI => multiCommand s c
  | DISCARD => discardCommand s c
  | EXEC => execCommand s c
  | Run cmd cmd_flags =>
      cl ← clients s !! c;
      if has (c_flags cl) CLIENT_MULTI then Some (reply_to (set_client s c (queueMultiCommand cl cmd cmd_flags)) c Queued)
      else call s c cmd
  | Reject is_exec e => rejectCommand s c is_exec e
  | Redirect is_exec e => redirect s c is_exec e
  end.

Definition new_client : mclient (command C) := {| c_flags := 0; c_db := 0; watched_keys := []; mstate := initClientMultiState |}.

(** An event of a client that is not connected does not happen. *)
Definition step s (e : event V C) : option (mserver V (command C)) :=
  match e with
  | Connect c => match clients s !! c with None => Some (set_client s c new_client) | Some _ => Some s end
  | Disconnect c => match clients s !! c with None => Some s | Some _ => s ← unwatchAllKeys s c; Some (set_clients s (delete c (clients s))) end
  | Client c r => match clients s !! c with None => Some s | Some _ => processCommand s c r end
  | Background e => apply_effect s e
  | Tick ms => Some (set_mstime s (mstime s + Z.max 0 ms))
  end.

Fixpoint run s (l : list (event V C)) : option (mserver V (command C)) :=
  match l with [] => Some s | e :: l => s ← step s e; run s l end.

Definition initServer (dbnum : nat) (is_replica : bool) : mserver V (command C) :=
  {| dbs := replicate dbnum {| db_keys := ∅; db_watched := ∅ |}; clients := ∅; watching_clients := 0; in_exec := false;
     replica := is_replica; mstime := 0; replies := [] |}.
End Server.
