(* ===== verification/MultiSerial.v ===== *)
(** What transactions mean, on the keys alone: commands that run one after the other on
    a list of databases, without clients, watched keys or marks. The server of Multi.v is
    compared with it. *)

From stdpp Require Import base list numbers gmap strings.
From S2P Require Import Prelude Client Multi.

Local Open Scope Z_scope.

Section Serial.
Context {V D : Type}.
Notation keymap := (gmap key (object V)).
Variables (now : Z) (replica : bool).
Implicit Types (K : list keymap) (k : key).

Definition assign (o : option (object V)) k (m : keymap) : keymap := match o with Some o => <[k := o]> m | None => delete k m end.

(** A key that is expired is deleted on the way, not on a replica. *)
Definition kexpire (i : nat) k K : list keymap :=
  match K !! i with Some m => if keyIsExpired now m k && negb replica then <[i := delete k m]> K else K | None => K end.

Definition kswap (id1 id2 : nat) K : list keymap :=
  match K !! id1, K !! id2 with Some m1, Some m2 => <[id2 := m1]> (<[id1 := m2]> K) | _, _ => K end.

Definition keffect K (e : effect V) : list keymap :=
  match e with
  | Expire i k => kexpire i k K
  | Assign i k o => alter (assign o k) i (kexpire i k K)
  | Flush None => (fun _ => ∅) <$> K
  | Flush (Some i) => <[i := ∅]> K
  | Swap id1 id2 => kswap id1 id2 K
  | Select _ => K
  end.

(** The keys and the database that is selected. *)
Definition kstep (st : list keymap * nat) (e : effect V) : list keymap * nat :=
  (keffect st.1 e, match e with Select id => if (id <? length st.1)%nat then id else st.2 | _ => st.2 end).

Variable effects : D -> nat -> list keymap -> list (effect V).
Variable allowed : command D -> bool.

Definition kcommand (st : list keymap * nat) (cmd : command D) : (list keymap * nat) * mreply :=
  if allowed cmd then
    match cmd with UNWATCH => (st, Ok) | Other x => (foldl kstep st (effects x st.2 st.1), Output) end
  else (st, NoPerm).

Fixpoint kserial (st : list keymap * nat) (l : list (command D)) : (list keymap * nat) * list mreply :=
  match l with
  | [] => (st, [])
  | cmd :: l => let (st, r) := kcommand st cmd in let (st, rs) := kserial st l in (st, r :: rs)
  end.
End Serial.
