(* ===== verification/MultiWatch.v ===== *)
(** Theorems on transactions: the lists of watched keys stay consistent and no step
    fails, EXEC runs only while the watched keys have the values they had at WATCH, and
    the marking of clients that an expired key hides. *)

From stdpp Require Import base list numbers gmap strings.
From S2P Require Import Prelude Client ReplyBuffer Query Multi MultiSerial.

Local Open Scope Z_scope.

(** The fields of an updated state. *)
Ltac fields := unfold set_client, set_db, set_clients, set_dbs, set_watching, reply_to, set_in_exec, set_mstime, set_flags, set_cdb, set_watched, set_mstate, set_keys_of, set_watched_of in *;
  cbn [dbs clients watching_clients in_exec replica mstime replies c_flags c_db watched_keys mstate db_keys db_watched] in *.

(** ** Invariants *)

Section Lists.
Context {V C : Type}.
Implicit Types (s : mserver V C) (c : Z) (cl : mclient C) (d : redisDb V) (k : key).

Definition wkey (wk : watchedKey) : nat * key := (wk_db wk, wk_key wk).
Definition wkeys cl : list (nat * key) := wkey <$> watched_keys cl.
Definition watchers s (i : nat) k : list Z := match dbs s !! i with Some d => default [] (db_watched d !! k) | None => [] end.

(** The list of a key holds the clients that have the key in theirs, once each, and no
    list of the dictionary is empty. *)
Record linked s : Prop := {
  ln_iff : forall i k c, c ∈ watchers s i k <-> exists cl, clients s !! c = Some cl /\ (i, k) ∈ wkeys cl;
  ln_nodup : forall i d k l, dbs s !! i = Some d -> db_watched d !! k = Some l -> NoDup l /\ l <> [];
  ln_client : forall c cl, clients s !! c = Some cl -> NoDup (wkeys cl) /\ (c_db cl < length (dbs s))%nat;
  ln_some : (0 < length (dbs s))%nat;
}.

Definition busy (m : gmap Z (mclient C)) : Z := Z.of_nat (base.size (filter (fun p => watched_keys p.2 <> []) m)).

Definition wf s : Prop := linked s /\ watching_clients s = busy (clients s).

(** What the watch lists do not change. *)
Definition frame s s' : Prop :=
  db_keys <$> dbs s' = db_keys <$> dbs s /\ mstime s' = mstime s /\ replica s' = replica s /\ in_exec s' = in_exec s /\ replies s' = replies s.

#[global] Instance frame_preorder : PreOrder frame.
Proof. split; [by intros s|]. intros s1 s2 s3 (?&?&?&?&?) (?&?&?&?&?). repeat split; congruence. Qed.

Lemma frame_length s s' : frame s s' -> length (dbs s') = length (dbs s).
Proof. intros (E & _). apply (f_equal length) in E. by rewrite !length_fmap in E. Qed.

Lemma frame_db s s' i d : frame s s' -> dbs s !! i = Some d -> exists d', dbs s' !! i = Some d' /\ db_keys d' = db_keys d.
Proof.
  intros (E & _) H. apply (f_equal (.!! i)) in E. rewrite !list_lookup_fmap, H in E.
  destruct (dbs s' !! i) as [d'|]; [|done]. injection E as E. eauto.
Qed.

Lemma busy_update m c cl cl' : m !! c = Some cl ->
  busy (<[c := cl']> m) = busy m - (if bool_decide (watched_keys cl = []) then 0 else 1) + (if bool_decide (watched_keys cl' = []) then 0 else 1).
Proof.
  intros H. unfold busy. rewrite <-(insert_delete_id m c cl H), insert_insert_eq at 1.
  set (m0 := delete c m). rewrite <-(insert_delete_id m c cl H). fold m0.
  assert (Hn : m0 !! c = None) by apply lookup_delete_eq.
  assert (Hf : filter (fun p : Z * mclient C => watched_keys p.2 <> []) m0 !! c = None) by (apply map_lookup_filter_None; auto).
  rewrite !map_filter_insert. simpl. rewrite !(delete_id m0 c Hn).
  repeat case_bool_decide; repeat case_decide; try tauto; rewrite ?map_size_insert_None by done; lia.
Qed.

(** A client whose list has the same keys changes nothing of the lists. *)
Lemma linked_client s c cl cl' : linked s -> clients s !! c = Some cl -> wkeys cl' = wkeys cl -> (c_db cl' < length (dbs s))%nat -> linked (set_client s c cl').
Proof.
  intros [Hi Hn Hc Hs] H E Hd. constructor; fields; [| | |done].
  - intros i k c'. change (watchers _ i k) with (watchers s i k). rewrite Hi. destruct (decide (c' = c)) as [->|Hne].
    + rewrite lookup_insert_eq, H. split; intros (? & [= <-] & Hin); eexists; (split; [done|]); congruence.
    + by rewrite lookup_insert_ne by done.
  - exact Hn.
  - intros c' cl0. destruct (decide (c' = c)) as [->|Hne].
    + rewrite lookup_insert_eq. intros [= <-]. rewrite E. split; [by apply (Hc c cl)|done].
    + rewrite lookup_insert_ne by done. apply Hc.
Qed.

Lemma wkeys_nil cl cl' : wkeys cl' = wkeys cl -> bool_decide (watched_keys cl' = []) = bool_decide (watched_keys cl = []).
Proof. unfold wkeys. destruct (watched_keys cl), (watched_keys cl'); simpl; done. Qed.

Lemma wf_client s c cl cl' : wf s -> clients s !! c = Some cl -> wkeys cl' = wkeys cl -> (c_db cl' < length (dbs s))%nat -> wf (set_client s c cl').
Proof.
  intros [Hl Hb] H E Hd. split; [by eapply linked_client|]. fields.
  rewrite (busy_update _ _ _ _ H), Hb, (wkeys_nil _ _ E). lia.
Qed.

Lemma wf_db s c cl : wf s -> clients s !! c = Some cl -> (c_db cl < length (dbs s))%nat.
Proof. intros [Hl _] H. by apply (ln_client _ Hl) in H as [_ ?]. Qed.

Lemma wkeys_expired i k b l : wkey <$> set_expired i k b l = wkey <$> l.
Proof. unfold set_expired. rewrite <-list_fmap_compose. apply list_fmap_ext. intros j wk _. simpl. by destruct (same_key i k wk). Qed.

Lemma same_key_iff i k wk : same_key i k wk = true <-> wkey wk = (i, k).
Proof. unfold same_key, wkey. rewrite andb_true_iff, !bool_decide_eq_true. split; [intros [-> ->]; done|by intros [= -> ->]]. Qed.

(** Whether a client watches a key, and as an expired one. *)
Definition flag_of cl (i : nat) k : option bool := wk_expired <$> List.find (same_key i k) (watched_keys cl).

Lemma flag_of_watched cl i k : (i, k) ∈ wkeys cl -> exists wk, List.find (same_key i k) (watched_keys cl) = Some wk /\ flag_of cl i k = Some (wk_expired wk).
Proof.
  unfold flag_of. intros (wk & E & Hin)%list_elem_of_fmap. destruct (List.find (same_key i k) (watched_keys cl)) as [w|] eqn:F; [by exists w|].
  pose proof (List.find_none _ _ F wk (proj1 (list_elem_of_In _ _) Hin)) as Hs. by rewrite (proj2 (same_key_iff _ _ _)) in Hs.
Qed.

Lemma flag_of_wkeys cl i k x : flag_of cl i k = Some x -> (i, k) ∈ wkeys cl.
Proof.
  unfold flag_of. destruct (List.find _ _) as [wk|] eqn:F; [|done]. intros _. apply List.find_some in F as [Hin E%same_key_iff].
  rewrite <-E. apply list_elem_of_fmap_2. by apply list_elem_of_In.
Qed.

Lemma find_expired i k x j k' (l : list watchedKey) :
  wk_expired <$> List.find (same_key j k') (set_expired i k x l) =
  if decide ((j, k') = (i, k)) then const x <$> List.find (same_key j k') l else wk_expired <$> List.find (same_key j k') l.
Proof.
  induction l as [|wk l IH]; simpl; [by case_decide|]. destruct (same_key j k' wk) eqn:E.
  - pose proof E as E1%same_key_iff. destruct (same_key i k wk) eqn:E2.
    + pose proof E2 as E3%same_key_iff. unfold same_key in *. simpl. rewrite E. case_decide; [done|congruence].
    + rewrite E. case_decide as D; [|done]. injection D as -> ->. congruence.
  - assert (E3 : same_key j k' (if same_key i k wk then {| wk_db := wk_db wk; wk_key := wk_key wk; wk_expired := x |} else wk) = false) by (by destruct (same_key i k wk)).
    rewrite E3, IH. done.
Qed.

Lemma flag_of_set_expired cl i k x j k' : flag_of (set_watched cl (set_expired i k x (watched_keys cl))) j k' =
  if decide ((j, k') = (i, k)) then const x <$> flag_of cl j k' else flag_of cl j k'.
Proof. unfold flag_of. cbn. rewrite find_expired. case_decide; [|done]. by destruct (List.find _ _). Qed.

Lemma watchers_lookup s i d k : dbs s !! i = Some d -> watchers s i k = default [] (db_watched d !! k).
Proof. unfold watchers. by intros ->. Qed.

Lemma watchers_set_db s i d j k : (i < length (dbs s))%nat ->
  watchers (set_db s i d) j k = if decide (j = i) then default [] (db_watched d !! k) else watchers s j k.
Proof.
  intros Hi. unfold watchers. fields. case_decide as E.
  - subst. by rewrite list_lookup_insert_eq.
  - by rewrite list_lookup_insert_ne.
Qed.

(** A client in the list of a key is found in the dictionary. *)
Lemma linked_lookup s c cl i k : linked s -> clients s !! c = Some cl -> (i, k) ∈ wkeys cl ->
  exists d l, dbs s !! i = Some d /\ db_watched d !! k = Some l /\ c ∈ l.
Proof.
  intros Hl Hc Hin. assert (H : c ∈ watchers s i k) by (apply (ln_iff _ Hl); eauto).
  unfold watchers in H. destruct (dbs s !! i) as [d|] eqn:Ed; [|set_solver].
  destruct (db_watched d !! k) as [l|] eqn:El; [|set_solver]. eauto.
Qed.

Definition drop_watcher (w : gmap key (list Z)) k c (l : list Z) : gmap key (list Z) :=
  let l := filter (fun x => x <> c) l in if bool_decide (l = []) then delete k w else <[k := l]> w.

Lemma drop_watcher_lookup (w : gmap key (list Z)) k c l k' : w !! k = Some l ->
  default [] (drop_watcher w k c l !! k') = if decide (k' = k) then filter (fun x => x <> c) l else default [] (w !! k').
Proof.
  intros H. unfold drop_watcher. case_decide as E; [subst|]; case_bool_decide as F.
  - by rewrite lookup_delete_eq, F.
  - by rewrite lookup_insert_eq.
  - by rewrite lookup_delete_ne.
  - by rewrite lookup_insert_ne.
Qed.

Lemma drop_watcher_nodup (w : gmap key (list Z)) k c l k' l' : w !! k = Some l -> NoDup l ->
  drop_watcher w k c l !! k' = Some l' -> (l' <> [] /\ NoDup l') \/ w !! k' = Some l'.
Proof.
  intros H Hn. unfold drop_watcher. case_bool_decide as F.
  - intros [_ ?]%lookup_delete_Some. auto.
  - intros [[<- <-]|[_ ?]]%lookup_insert_Some; [|auto]. left. split; [done|by apply NoDup_filter].
Qed.

Lemma unwatch_one_spec s c cl wk rest : linked s -> clients s !! c = Some cl -> watched_keys cl = wk :: rest ->
  exists s', unwatch_one s c wk rest = Some s' /\ linked s' /\ frame s s' /\ watching_clients s' = watching_clients s /\
    clients s' = <[c := set_watched cl rest]> (clients s).
Proof.
  intros Hl Hc Hw. pose proof (ln_client _ Hl _ _ Hc) as [Hnd Hdb].
  unfold wkeys in Hnd. rewrite Hw in Hnd. apply NoDup_cons in Hnd as [Hni Hnd].
  destruct (linked_lookup s c cl (wk_db wk) (wk_key wk)) as (d & l & Ed & El & Hin); [done|done|unfold wkeys; rewrite Hw; left|].
  destruct (ln_nodup _ Hl _ _ _ _ Ed El) as [Hnl _]. pose proof (lookup_lt_Some _ _ _ Ed) as Hlt.
  unfold unwatch_one. rewrite Hc. simpl. rewrite Ed. simpl. rewrite El. simpl. fold (drop_watcher (db_watched d) (wk_key wk) c l).
  eexists. split; [reflexivity|]. split_and!; [|repeat split; fields; try done|done|done].
  - constructor.
    + intros i k c'. change (watchers (set_client ?x _ _) i k) with (watchers x i k). rewrite watchers_set_db by done. fields.
      assert (Hiff : c' ∈ (if decide (i = wk_db wk) then default [] (drop_watcher (db_watched d) (wk_key wk) c l !! k) else watchers s i k) <->
        c' ∈ watchers s i k /\ ~ (c' = c /\ (i, k) = wkey wk)).
      { case_decide as Ei; [subst i; rewrite (watchers_lookup _ _ _ _ Ed), drop_watcher_lookup by done; case_decide as Ek|].
        - subst k. rewrite El, list_elem_of_filter. simpl. unfold wkey. naive_solver.
        - unfold wkey. naive_solver.
        - unfold wkey. naive_solver. }
      rewrite Hiff, (ln_iff _ Hl). destruct (decide (c' = c)) as [->|Hne]; [|rewrite lookup_insert_ne by done; naive_solver].
      rewrite lookup_insert_eq, Hc. unfold wkeys. split.
      * intros [(x & [= <-] & Hx) Hno]. eexists. split; [done|]. rewrite Hw in Hx. cbn in *. apply elem_of_cons in Hx as [Hx|Hx]; [|done]. naive_solver.
      * intros (x & [= <-] & Hx). cbn in *. split; [eexists; split; [done|rewrite Hw; by right]|]. intros [_ E]. by rewrite E in Hx.
    + intros i d0 k l0. fields. intros [(_ & <- & _)|[_ H]]%list_lookup_insert_Some; [|by apply (ln_nodup _ Hl i)]. cbn.
      intros [[? ?]|H]%drop_watcher_nodup; [done| |done|done]. exact (ln_nodup _ Hl _ _ _ _ Ed H).
    + intros c' cl'. fields. rewrite length_insert. intros [[<- <-]|[_ H]]%lookup_insert_Some; [|by apply (ln_client _ Hl c')].
      by split.
    + fields. rewrite length_insert. apply (ln_some _ Hl).
  - rewrite list_fmap_insert. apply list_insert_id. by rewrite list_lookup_fmap, Ed.
Qed.

Lemma unwatch_loop_spec l s c cl : linked s -> clients s !! c = Some cl -> watched_keys cl = l ->
  exists s', unwatch_loop s c l = Some s' /\ linked s' /\ frame s s' /\ watching_clients s' = watching_clients s /\
    clients s' = <[c := set_watched cl []]> (clients s).
Proof.
  revert s cl. induction l as [|wk l IH]; intros s cl Hl Hc Hw; simpl.
  - exists s. split_and!; try done. rewrite insert_id; [done|]. rewrite Hc. destruct cl. by cbn in *; subst.
  - destruct (unwatch_one_spec s c cl wk l Hl Hc Hw) as (s1 & -> & Hl1 & F1 & W1 & C1). simpl.
    destruct (IH s1 (set_watched cl l)) as (s2 & -> & Hl2 & F2 & W2 & C2); [done|by rewrite C1, lookup_insert_eq|done|].
    exists s2. split_and!; [done|done|by etrans|congruence|]. by rewrite C2, C1, insert_insert_eq.
Qed.

Lemma unwatchAllKeys_spec s c cl : wf s -> clients s !! c = Some cl ->
  exists s', unwatchAllKeys s c = Some s' /\ wf s' /\ frame s s' /\ clients s' = <[c := set_watched cl []]> (clients s).
Proof.
  intros [Hl Hb] Hc. unfold unwatchAllKeys. rewrite Hc. simpl. case_bool_decide as E.
  - exists s. split_and!; try done. rewrite insert_id; [done|]. rewrite Hc. destruct cl. by cbn in *; subst.
  - destruct (unwatch_loop_spec _ s c cl Hl Hc eq_refl) as (s1 & -> & Hl1 & F1 & W1 & C1). simpl.
    eexists. split; [done|]. split_and!; [|done|done]. split; [by destruct Hl1|]. fields.
    rewrite C1, (busy_update _ _ _ _ Hc), W1, Hb, bool_decide_eq_false_2 by done. simpl. lia.
Qed.

(** ** Touching a key *)

Definition marked cl : mclient C := set_flags cl (Z.lor (c_flags cl) CLIENT_DIRTY_CAS).

(** What a touch of the key [k] of database [i] makes of a client that watches it, when
    the key is [present] afterwards; a client is left as it is when it is behind, or is
    itself, a client that watches the key as an expired one. *)
Inductive touched (i : nat) k (present : bool) (hidden : Prop) cl : mclient C -> Prop :=
| touched_marked : touched i k present hidden cl (set_watched (marked cl) [])
| touched_gone : flag_of cl i k = Some true -> present = false ->
    touched i k present hidden cl (set_watched cl (set_expired i k false (watched_keys cl)))
| touched_hidden : hidden -> touched i k present hidden cl cl.

Definition present_in s (i : nat) k : bool := match dbs s !! i with Some d => bool_decide (is_Some (db_keys d !! k)) | None => false end.

(** A key is there that a client of the list watches as an expired one. *)
Definition hidden s (i : nat) k (l : list Z) : Prop :=
  exists c cl, c ∈ l /\ clients s !! c = Some cl /\ flag_of cl i k = Some true /\ present_in s i k = true.

Lemma frame_present s s' i k : frame s s' -> present_in s' i k = present_in s i k.
Proof.
  intros F. unfold present_in. destruct (dbs s !! i) as [d|] eqn:E.
  - destruct (frame_db _ _ _ _ F E) as (d' & -> & ->). done.
  - apply lookup_ge_None in E. rewrite <-(frame_length _ _ F) in E. by rewrite (proj2 (lookup_ge_None _ _) E).
Qed.

Lemma hidden_tail s s' i k c l : frame s s' -> c ∉ l -> (forall c', c' <> c -> clients s' !! c' = clients s !! c') -> hidden s' i k l -> hidden s i k (c :: l).
Proof.
  intros F Hc E (c' & cl & Hin & Hcl & H). rewrite E in Hcl by (intros ->; done). rewrite (frame_present _ _ _ _ F) in H.
  exists c', cl. split_and!; try tauto. by right.
Qed.

Lemma touched_weaken i k p (H H' : Prop) cl cl' : (H -> H') -> touched i k p H cl cl' -> touched i k p H' cl cl'.
Proof. intros Hi [| |]; [constructor|by econstructor|]. constructor 3. auto. Qed.

Lemma touch_loop_spec l s i k : wf s -> NoDup l -> (i < length (dbs s))%nat ->
  (forall c, c ∈ l -> exists cl, clients s !! c = Some cl /\ (i, k) ∈ wkeys cl) ->
  exists s', touch_loop s i k l = Some s' /\ wf s' /\ frame s s' /\
    (forall c, c ∉ l -> clients s' !! c = clients s !! c) /\
    (forall c cl, c ∈ l -> clients s !! c = Some cl -> exists cl', clients s' !! c = Some cl' /\ touched i k (present_in s i k) (hidden s i k l) cl cl').
Proof.
  revert s. induction l as [|c l IH]; intros s Hwf Hnd Hi Hin; simpl.
  { exists s. split_and!; try done. set_solver. }
  apply NoDup_cons in Hnd as [Hni Hnd]. destruct (Hin c) as (cl & Hc & Hk); [by left|].
  rewrite Hc. simpl. destruct (flag_of_watched _ _ _ Hk) as (wk & -> & Ef). simpl.
  assert (Hstep : forall s1 cl1, wf s1 -> frame s s1 -> clients s1 = <[c := cl1]> (clients s) -> touched i k (present_in s i k) (hidden s i k (c :: l)) cl cl1 ->
    exists s', touch_loop s1 i k l = Some s' /\ wf s' /\ frame s s' /\ (forall c', c' ∉ c :: l -> clients s' !! c' = clients s !! c') /\
      (forall c' cl, c' ∈ c :: l -> clients s !! c' = Some cl -> exists cl', clients s' !! c' = Some cl' /\ touched i k (present_in s i k) (hidden s i k (c :: l)) cl cl')).
  { intros s1 cl1 Hw1 F1 E1 T1. assert (Eo : forall c', c' <> c -> clients s1 !! c' = clients s !! c') by (intros; by rewrite E1, lookup_insert_ne).
    destruct (IH s1) as (s2 & -> & Hw2 & F2 & O2 & T2); [done|done|by rewrite (frame_length _ _ F1)| |].
    { intros c' H'. rewrite Eo by (intros ->; done). apply Hin. by right. }
    exists s2. split_and!; [done|done|by etrans| |].
    - intros c' [H1 H2]%not_elem_of_cons. by rewrite O2, Eo.
    - intros c' cl0 [->|H']%elem_of_cons Hcl.
      + rewrite O2, E1, lookup_insert_eq by done. eexists. split; [done|]. by simplify_eq.
      + rewrite <-Eo in Hcl by (intros ->; done). destruct (T2 _ _ H' Hcl) as (cl' & ? & T). exists cl'. split; [done|].
        rewrite (frame_present _ _ _ _ F1) in T. eapply touched_weaken; [|exact T]. by apply hidden_tail. }
  destruct (wk_expired wk) eqn:Ex.
  - destruct (lookup_lt_is_Some_2 _ _ Hi) as [d Ed]. rewrite Ed. simpl. destruct (db_keys d !! k) as [o|] eqn:Ed'.
    + assert (P : present_in s i k = true) by (unfold present_in; by rewrite Ed, Ed').
      exists s. split_and!; try done. intros c' cl' _ Hc'. exists cl'. split; [done|]. constructor 3. exists c, cl. split_and!; try done. by left.
    + eapply Hstep; [|done|done|].
      * eapply wf_client; [done|done|apply wkeys_expired|exact (wf_db _ _ _ Hwf Hc)].
      * eapply touched_gone; [done|]. unfold present_in. by rewrite Ed, Ed'.
  - destruct (unwatchAllKeys_spec (set_client s c (marked cl)) c (marked cl)) as (s1 & E & Hw1 & F1 & E1).
    + eapply wf_client; [done|done|done|exact (wf_db _ _ _ Hwf Hc)].
    + apply lookup_insert_eq.
    + fold (marked cl). rewrite E. simpl. eapply Hstep; [done|by etrans; [|exact F1]| |constructor 1]. rewrite E1. fields. by rewrite insert_insert_eq.
Qed.

(** ** Changes of keys *)

Notation keymap := (gmap key (object V)).
Notation keys_of s := (db_keys <$> dbs s).

(** A state with the keys [K] and all else as it was, but for the watch lists. *)
Definition kframe (K : list keymap) s s' : Prop :=
  keys_of s' = K /\ mstime s' = mstime s /\ replica s' = replica s /\ in_exec s' = in_exec s /\ replies s' = replies s.

(** Every client is still there, no other is, and [R] says what became of it. *)
Definition each (R : mclient C -> mclient C -> Prop) s s' : Prop :=
  (forall c cl, clients s !! c = Some cl -> exists cl', clients s' !! c = Some cl' /\ R cl cl') /\
  (forall c, clients s !! c = None -> clients s' !! c = None).

Lemma each_back (R : mclient C -> mclient C -> Prop) s s' c cl' : each R s s' -> clients s' !! c = Some cl' -> exists cl, clients s !! c = Some cl /\ R cl cl'.
Proof.
  intros [H1 H2] Hc. destruct (clients s !! c) as [cl|] eqn:E; [|by rewrite H2 in Hc].
  destruct (H1 _ _ E) as (cl1 & ? & ?). simplify_eq. eauto.
Qed.

Lemma keys_length s (K : list keymap) : keys_of s = K -> length (dbs s) = length K.
Proof. intros <-. by rewrite length_fmap. Qed.

Lemma kframe_trans K1 K2 s1 s2 s3 : kframe K1 s1 s2 -> kframe K2 s2 s3 -> kframe K2 s1 s3.
Proof. intros (?&?&?&?&?) (?&?&?&?&?). repeat split; congruence. Qed.

Lemma frame_kframe s s' : frame s s' -> kframe (keys_of s) s s'.
Proof. done. Qed.

Lemma each_trans (R1 R2 R : mclient C -> mclient C -> Prop) s1 s2 s3 : (forall x y z, R1 x y -> R2 y z -> R x z) -> each R1 s1 s2 -> each R2 s2 s3 -> each R s1 s3.
Proof.
  intros HR [H1 N1] [H2 N2]. split; [|auto]. intros c cl Hc.
  destruct (H1 _ _ Hc) as (cl1 & Hc1 & ?). destruct (H2 _ _ Hc1) as (cl2 & ? & ?). eauto.
Qed.

Lemma dbs_set_keys s i m : length (dbs (set_keys s i m)) = length (dbs s).
Proof. unfold set_keys. destruct (dbs s !! i); fields; by rewrite ?length_insert. Qed.

Lemma watchers_set_keys s i m j k : watchers (set_keys s i m) j k = watchers s j k.
Proof.
  unfold set_keys. destruct (dbs s !! i) as [d|] eqn:E; [|done]. rewrite watchers_set_db by (by eapply lookup_lt_Some).
  case_decide as D; [|done]. subst. by rewrite (watchers_lookup _ _ _ _ E).
Qed.

Lemma clients_set_keys s i m : clients (set_keys s i m) = clients s.
Proof. unfold set_keys. by destruct (dbs s !! i). Qed.

Lemma wf_set_keys s i m : wf s -> wf (set_keys s i m).
Proof.
  intros [Hl Hb]. split; [|rewrite clients_set_keys, <-Hb; unfold set_keys; by destruct (dbs s !! i)]. constructor.
  - intros j k c. rewrite watchers_set_keys, clients_set_keys. apply (ln_iff _ Hl).
  - intros j d k l. unfold set_keys. destruct (dbs s !! i) as [d0|] eqn:E; [|apply (ln_nodup _ Hl)]. fields.
    intros [(_ & <- & _)|[_ H]]%list_lookup_insert_Some; [|by apply (ln_nodup _ Hl j)]. cbn. by apply (ln_nodup _ Hl i).
  - intros c cl. rewrite clients_set_keys, dbs_set_keys. apply (ln_client _ Hl).
  - rewrite dbs_set_keys. apply (ln_some _ Hl).
Qed.

Lemma kframe_set_keys s i m : kframe (<[i := m]> (keys_of s)) s (set_keys s i m).
Proof.
  unfold set_keys. destruct (dbs s !! i) as [d|] eqn:E; split; try done; fields.
  - by rewrite list_fmap_insert.
  - rewrite list_insert_ge; [done|]. rewrite length_fmap. by apply lookup_ge_None.
Qed.

Lemma lookup_assign (o : option (object V)) k (m : keymap) : assign o k m !! k = o.
Proof. destruct o; [apply lookup_insert_eq|apply lookup_delete_eq]. Qed.

Lemma lookup_assign_ne (o : option (object V)) k (m : keymap) k' : k' <> k -> assign o k m !! k' = m !! k'.
Proof. intros. destruct o; [by apply lookup_insert_ne|by apply lookup_delete_ne]. Qed.

(** A client that watches the key as an expired one keeps the change from the clients
    behind it. *)
Definition blind s i k (o : option (object V)) : Prop :=
  is_Some o /\ exists c cl, clients s !! c = Some cl /\ flag_of cl i k = Some true.

Definition change_client (i : nat) k (present : bool) (H : Prop) cl cl' : Prop :=
  if decide ((i, k) ∈ wkeys cl) then touched i k present H cl cl' else cl' = cl.

Lemma touchWatchedKey_spec s i d k : wf s -> dbs s !! i = Some d ->
  exists s', touchWatchedKey s i k = Some s' /\ wf s' /\ frame s s' /\ each (change_client i k (present_in s i k) (blind s i k (db_keys d !! k))) s s'.
Proof.
  intros Hw Ed. unfold touchWatchedKey. rewrite Ed. simpl. pose proof (watchers_lookup s i d k Ed) as Ew.
  destruct (db_watched d !! k) as [l|] eqn:El; simpl in Ew.
  - destruct Hw as [Hl Hb]. destruct (ln_nodup _ Hl _ _ _ _ Ed El) as [Hnd _].
    destruct (touch_loop_spec l s i k) as (s' & -> & Hw' & F & O & T); [done|done|by eapply lookup_lt_Some| |].
    { intros c. rewrite <-Ew. apply (ln_iff _ Hl). }
    exists s'. split_and!; try done. split.
    2: { intros c Hc. rewrite O; [done|]. rewrite <-Ew, (ln_iff _ Hl). intros (x & Hx & _). congruence. }
    intros c cl Hc. unfold change_client.
    assert (Hiff : c ∈ l <-> (i, k) ∈ wkeys cl).
    { rewrite <-Ew, (ln_iff _ Hl). split; [intros (x & Hx & ?); by simplify_eq|eauto]. }
    case_decide as D.
    + destruct (T c cl) as (cl' & ? & HT); [by apply Hiff|done|]. exists cl'. split; [done|]. eapply touched_weaken; [|exact HT].
      intros (c1 & cl1 & _ & H1 & H2 & Hp). unfold present_in in Hp. rewrite Ed, bool_decide_eq_true in Hp. split; eauto.
    + exists cl. split; [|done]. rewrite O; [done|]. by rewrite Hiff.
  - exists s. split_and!; try done. split; [|done]. intros c cl Hc. exists cl. split; [done|]. unfold change_client. case_decide as D; [|done].
    assert (c ∈ watchers s i k) by (apply (ln_iff _ (proj1 Hw)); eauto). rewrite Ew in *. set_solver.
Qed.

Lemma change_key_spec s i d k o : wf s -> dbs s !! i = Some d ->
  exists s', change_key s i k o = Some s' /\ wf s' /\ kframe (<[i := assign o k (db_keys d)]> (keys_of s)) s s' /\
    each (change_client i k (bool_decide (is_Some o)) (blind s i k o)) s s'.
Proof.
  intros Hw Ed. unfold change_key. rewrite Ed. simpl. fold (assign o k (db_keys d)).
  set (m := assign o k (db_keys d)). assert (Es : dbs (set_keys s i m) !! i = Some (set_keys_of d m)).
  { unfold set_keys. rewrite Ed. fields. apply list_lookup_insert_eq. by eapply lookup_lt_Some. }
  destruct (touchWatchedKey_spec (set_keys s i m) i _ k (wf_set_keys _ i m Hw) Es) as (s' & E & Hw' & F & T).
  exists s'. split_and!; [done|done| |].
  - eapply kframe_trans; [apply kframe_set_keys|]. rewrite <-(proj1 (kframe_set_keys s i m)). exact F.
  - destruct T as [T N]. split; [|intros c Hc; apply N; by rewrite clients_set_keys].
    intros c cl Hc. destruct (T c cl) as (cl' & ? & HT); [by rewrite clients_set_keys|]. exists cl'. split; [done|].
    unfold blind, present_in in HT. rewrite Es, clients_set_keys in HT. cbn in HT. unfold m in HT. by rewrite lookup_assign in HT.
Qed.

(** ** Touching all keys of a database *)

Section Sweep.
Variables (now : Z) (i : nat) (emptied : keymap) (replaced : option keymap) (slots : key -> bool).

Definition in_emptied k : bool := bool_decide (is_Some (emptied !! k)).
Definition in_replaced k : bool := match replaced with Some m => bool_decide (is_Some (m !! k)) | None => false end.
Definition replaced_expired k : bool := match replaced with Some m => keyIsExpired now m k | None => false end.

(** The new mark of a client that watches the key with mark [x]; [None] for a client that
    becomes dirty. *)
Definition new_mark k (x : bool) : option bool :=
  if x then if negb (in_replaced k) then Some false else if replaced_expired k then Some true else None
  else if negb (in_emptied k) && replaced_expired k then Some true else None.

Definition sweep_client k cl : mclient C :=
  match flag_of cl i k with
  | None => cl
  | Some x => match new_mark k x with Some y => if Bool.eqb x y then cl else set_watched cl (set_expired i k y (watched_keys cl)) | None => marked cl end
  end.

Definition sweep_key cl k : mclient C := if slots k && (in_emptied k || in_replaced k) then sweep_client k cl else cl.

Lemma sweep_client_wkeys k cl : wkeys (sweep_client k cl) = wkeys cl /\ c_db (sweep_client k cl) = c_db cl.
Proof. unfold sweep_client. destruct (flag_of cl i k) as [x|]; [|done]. destruct (new_mark k x) as [y|]; [|done]. destruct (Bool.eqb x y); [done|]. split; [apply wkeys_expired|done]. Qed.

Lemma sweep_key_wkeys k cl : wkeys (sweep_key cl k) = wkeys cl /\ c_db (sweep_key cl k) = c_db cl.
Proof. unfold sweep_key. case_match; [apply sweep_client_wkeys|done]. Qed.

Lemma sweep_wkeys l cl : wkeys (foldl sweep_key cl l) = wkeys cl /\ c_db (foldl sweep_key cl l) = c_db cl.
Proof.
  revert cl. induction l as [|k l IH]; intros cl; simpl; [done|]. destruct (IH (sweep_key cl k)) as [-> ->]. apply sweep_key_wkeys.
Qed.

Lemma sweep_not_watched k cl : (i, k) ∉ wkeys cl -> sweep_key cl k = cl.
Proof.
  intros H. unfold sweep_key, sweep_client. destruct (flag_of cl i k) as [x|] eqn:E; [|by case_match].
  by apply flag_of_wkeys in E.
Qed.

Definition dirty cl : Prop := has (c_flags cl) CLIENT_DIRTY_CAS = true.

Lemma marked_dirty cl : dirty (marked cl).
Proof. apply has_lor_self. done. Qed.

Lemma sweep_key_dirty k cl : dirty cl -> dirty (sweep_key cl k).
Proof. unfold sweep_key, sweep_client. intros H. repeat case_match; try done. apply marked_dirty. Qed.

Lemma sweep_dirty l cl : dirty cl -> dirty (foldl sweep_key cl l).
Proof. revert cl. induction l as [|k l IH]; intros cl H; simpl; [done|]. by apply IH, sweep_key_dirty. Qed.

Lemma sweep_key_flag k cl j k' : (j, k') <> (i, k) -> flag_of (sweep_key cl k) j k' = flag_of cl j k'.
Proof.
  intros H. unfold sweep_key, sweep_client. repeat case_match; try done. rewrite flag_of_set_expired. by case_decide.
Qed.

Lemma sweep_flag l cl j k' : (j = i -> k' ∉ l) -> flag_of (foldl sweep_key cl l) j k' = flag_of cl j k'.
Proof.
  revert cl. induction l as [|k l IH]; intros cl H; simpl; [done|]. rewrite IH; [|set_solver].
  apply sweep_key_flag. intros [= -> ->]. set_solver.
Qed.

Definition swept k (x : bool) : option bool := if slots k && (in_emptied k || in_replaced k) then new_mark k x else Some x.

Lemma sweep_key_mark k cl x : flag_of cl i k = Some x ->
  match swept k x with Some y => flag_of (sweep_key cl k) i k = Some y | None => dirty (sweep_key cl k) /\ flag_of (sweep_key cl k) i k = Some x end.
Proof.
  intros E. unfold swept, sweep_key, sweep_client. destruct (slots k && _); [|done]. rewrite E. destruct (new_mark k x) as [y|].
  - destruct (Bool.eqb x y) eqn:Exy; [apply Bool.eqb_prop in Exy; congruence|]. rewrite flag_of_set_expired, E. by case_decide.
  - split; [apply marked_dirty|exact E].
Qed.

(** What the sweep makes of a client that watches the key [k] of the database. *)
Lemma sweep_mark l cl k x : NoDup l -> k ∈ l -> flag_of cl i k = Some x ->
  match swept k x with Some y => flag_of (foldl sweep_key cl l) i k = Some y | None => dirty (foldl sweep_key cl l) /\ flag_of (foldl sweep_key cl l) i k = Some x end.
Proof.
  intros Hnd Hin E. revert cl E. induction Hnd as [|k1 l Hni Hnd IH]; [set_solver|]. intros cl E. simpl.
  destruct (decide (k = k1)) as [->|Hne].
  - pose proof (sweep_key_mark k1 cl x E) as H. rewrite sweep_flag by done. destruct (swept k1 x); [done|].
    destruct H. split; [by apply sweep_dirty|done].
  - apply IH; [set_solver|]. rewrite sweep_key_flag; [done|congruence].
Qed.
End Sweep.

Lemma touch_all_clients_spec cs s i k emptied replaced : wf s -> NoDup cs ->
  (forall c, c ∈ cs -> exists cl, clients s !! c = Some cl /\ (i, k) ∈ wkeys cl) ->
  exists s', touch_all_clients s i k (in_emptied emptied k) replaced cs = Some s' /\ wf s' /\ frame s s' /\
    (forall c, clients s' !! c = if decide (c ∈ cs) then sweep_client (mstime s) i emptied replaced k <$> clients s !! c else clients s !! c).
Proof.
  revert s. induction cs as [|c cs IH]; intros s Hw Hnd Hin; simpl.
  { exists s. split_and!; try done. }
  apply NoDup_cons in Hnd as [Hni Hnd]. destruct (Hin c) as (cl & Hc & Hk); [by left|].
  rewrite Hc. simpl. destruct (flag_of_watched _ _ _ Hk) as (wk & -> & Ef). simpl.
  set (cl1 := if wk_expired wk then _ else _).
  assert (E1 : cl1 = sweep_client (mstime s) i emptied replaced k cl).
  { unfold sweep_client, new_mark, cl1. rewrite Ef. fold (in_replaced replaced k) (replaced_expired (mstime s) replaced k) (marked cl).
    by destruct (wk_expired wk), (in_replaced replaced k), (replaced_expired (mstime s) replaced k), (in_emptied emptied k). }
  destruct (sweep_client_wkeys (mstime s) i emptied replaced k cl) as [Ew Edb]. rewrite <-E1 in Ew, Edb.
  assert (Hw1 : wf (set_client s c cl1)) by (eapply wf_client; [done|done|done|rewrite Edb; exact (wf_db _ _ _ Hw Hc)]).
  destruct (IH (set_client s c cl1)) as (s' & -> & Hw' & F & T); [done|done| |].
  { intros c' H'. fields. rewrite lookup_insert_ne by (intros ->; done). apply Hin. by right. }
  exists s'. split_and!; [done|done|by etrans; [|exact F]|]. intros c'. rewrite T. fields.
  destruct (decide (c' = c)) as [->|Hne].
  - rewrite lookup_insert_eq, decide_False by done. rewrite decide_True by by left. rewrite Hc. simpl. by rewrite E1.
  - rewrite lookup_insert_ne by done. destruct (decide (c' ∈ cs)); [rewrite decide_True by by right|rewrite decide_False by set_solver]; done.
Qed.

Lemma touch_all_loop_spec l s i emptied replaced slots : wf s -> NoDup (l.*1) ->
  (forall k cs, (k, cs) ∈ l -> NoDup cs /\ forall c, c ∈ cs <-> exists cl, clients s !! c = Some cl /\ (i, k) ∈ wkeys cl) ->
  exists s', touch_all_loop s i emptied replaced slots l = Some s' /\ wf s' /\ frame s s' /\
    (forall c, clients s' !! c = (fun cl => foldl (sweep_key (mstime s) i emptied replaced slots) cl (l.*1)) <$> clients s !! c).
Proof.
  revert s. induction l as [|[k cs] l IH]; intros s Hw Hnd Hin; simpl.
  { exists s. split_and!; try done. intros c. by rewrite option_fmap_id. }
  apply NoDup_cons in Hnd as [_ Hnd]. destruct (Hin k cs) as [Hcs Hiff]; [by left|].
  assert (Hone : exists s1, (if negb (slots k) then Some s else
      if in_emptied emptied k || in_replaced replaced k then touch_all_clients s i k (in_emptied emptied k) replaced cs else Some s) = Some s1 /\
      wf s1 /\ frame s s1 /\ (forall c, clients s1 !! c = (fun cl => sweep_key (mstime s) i emptied replaced slots cl k) <$> clients s !! c)).
  { destruct (slots k && (in_emptied emptied k || in_replaced replaced k)) eqn:E.
    - apply andb_true_iff in E as [E1 E2]. rewrite E1, E2. simpl.
      destruct (touch_all_clients_spec cs s i k emptied replaced) as (s1 & E & Hw1 & F1 & T1); [done|done|by intros; apply Hiff|].
      exists s1. split_and!; try done. intros c. rewrite T1. destruct (clients s !! c) as [cl|] eqn:Hc; [|by case_decide]. simpl.
      case_decide as D; [unfold sweep_key; by rewrite E1, E2|]. rewrite sweep_not_watched; [done|].
      intros H. apply D, Hiff. eauto.
    - exists s. split_and!; try done.
      + destruct (slots k), (in_emptied emptied k || in_replaced replaced k); done.
      + intros c. unfold sweep_key. rewrite E. by rewrite option_fmap_id. }
  fold (in_emptied emptied k) (in_replaced replaced k). destruct Hone as (s1 & -> & Hw1 & F1 & T1). simpl.
  destruct (IH s1) as (s' & -> & Hw' & F & T); [done|done| |].
  { intros k' cs' H'. destruct (Hin k' cs') as [Hn Hi]; [by right|]. split; [done|]. intros c. rewrite Hi, T1.
    split; intros (cl & Hc & Hk).
    - rewrite Hc. eexists. split; [done|]. by rewrite (proj1 (sweep_key_wkeys _ _ _ _ _ _ _)).
    - destruct (clients s !! c) as [cl0|]; [|done]. injection Hc as <-. rewrite (proj1 (sweep_key_wkeys _ _ _ _ _ _ _)) in Hk. eauto. }
  exists s'. split_and!; [done|done|by etrans|]. intros c. rewrite T, T1, <-option_fmap_compose.
  by rewrite (proj1 (proj2 F1)).
Qed.

(** What the sweep of a database makes of a client. *)
Definition sweeps s (i : nat) (emptied : keymap) replaced slots cl cl' : Prop :=
  wkeys cl' = wkeys cl /\ c_db cl' = c_db cl /\ (dirty cl -> dirty cl') /\
  (forall j k, j <> i -> flag_of cl' j k = flag_of cl j k) /\
  (forall k x, flag_of cl i k = Some x ->
     match swept (mstime s) emptied replaced slots k x with Some y => flag_of cl' i k = Some y | None => dirty cl' /\ flag_of cl' i k = Some x end).

Lemma touchAll_spec s i d replaced slots : wf s -> dbs s !! i = Some d ->
  exists s', touchAllWatchedKeysInDb s i replaced slots = Some s' /\ wf s' /\ frame s s' /\ each (sweeps s i (db_keys d) replaced slots) s s'.
Proof.
  intros Hw Ed. unfold touchAllWatchedKeysInDb. rewrite Ed. simpl.
  destruct (touch_all_loop_spec (map_to_list (db_watched d)) s i (db_keys d) replaced slots) as (s' & -> & Hw' & F & T);
    [done|apply NoDup_fst_map_to_list| |].
  { intros k cs H%elem_of_map_to_list. destruct (ln_nodup _ (proj1 Hw) _ _ _ _ Ed H) as [Hn _]. split; [done|]. intros c.
    rewrite <-(ln_iff _ (proj1 Hw)), (watchers_lookup _ _ _ _ Ed), H. done. }
  exists s'. split_and!; try done. split; [|intros c Hc; by rewrite T, Hc].
  intros c cl Hc. eexists. split; [by rewrite T, Hc|].
  destruct (sweep_wkeys (mstime s) i (db_keys d) replaced slots (map_to_list (db_watched d)).*1 cl) as [E1 E2].
  split_and!; [exact E1|exact E2|apply sweep_dirty| |].
  - intros j k Hj. apply sweep_flag. by intros ->.
  - intros k x E. apply sweep_mark; [apply NoDup_fst_map_to_list| |done].
    assert (Hin : c ∈ watchers s i k) by (apply (ln_iff _ (proj1 Hw)); eauto using flag_of_wkeys).
    rewrite (watchers_lookup _ _ _ _ Ed) in Hin. destruct (db_watched d !! k) as [l|] eqn:El; [|set_solver].
    apply list_elem_of_fmap. exists (k, l). split; [done|]. by apply elem_of_map_to_list.
Qed.

(** ** What a transaction relies on *)

(** A change of a key that no client hides. *)
Lemma changed_dirty i k p (H : Prop) cl cl' : change_client i k p H cl cl' -> dirty cl -> dirty cl'.
Proof. unfold change_client. case_decide; [|by intros ->]. intros [| |]; [|done|done]. intros _. apply marked_dirty. Qed.

Lemma changed_true i k p (H : Prop) cl cl' j k' : change_client i k p H cl cl' -> ~ H -> flag_of cl' j k' = Some true ->
  (j, k') <> (i, k) /\ flag_of cl j k' = Some true.
Proof.
  unfold change_client. intros T Hn E. case_decide as D.
  - destruct T as [|Hf Hp|]; [done| |done]. rewrite flag_of_set_expired in E. case_decide as D'; [|done].
    destruct (flag_of cl j k'); by simplify_eq/=.
  - subst. split; [|done]. intros [= -> ->]. by apply flag_of_wkeys in E.
Qed.

Lemma changed_mark i k p (H : Prop) cl cl' j k' x : change_client i k p H cl cl' -> ~ H -> flag_of cl j k' = Some x ->
  dirty cl' \/ ((j, k') <> (i, k) /\ flag_of cl' j k' = Some x) \/ ((j, k') = (i, k) /\ x = true /\ p = false /\ flag_of cl' j k' = Some false).
Proof.
  unfold change_client. intros T Hn E. case_decide as D.
  - destruct T as [|Hf Hp|]; [left; apply marked_dirty| |done]. right. rewrite flag_of_set_expired. case_decide as D'.
    + right. injection D' as -> ->. rewrite E in *. by simplify_eq.
    + by left.
  - subst. right; left. split; [|done]. intros [= -> ->]. by apply flag_of_wkeys in E.
Qed.

Lemma keyIsExpired_lookup (now : Z) (m m' : keymap) k : m' !! k = m !! k -> keyIsExpired now m' k = keyIsExpired now m k.
Proof. unfold keyIsExpired. by intros ->. Qed.

(** The value of a key as a command sees it. *)
Definition logical (now : Z) (m : keymap) k : option (object V) := if keyIsExpired now m k then None else m !! k.

(** A key that is watched as an expired one is still there, and expired. *)
Definition exact_marks s : Prop := forall c cl i k, clients s !! c = Some cl -> flag_of cl i k = Some true ->
  exists m, keys_of s !! i = Some m /\ keyIsExpired (mstime s) m k = true.

(** The client [c] is dirty, or its mark of the key says that it has the value [v]. *)
Definition tracks s c (i : nat) k (v : option (object V)) : Prop :=
  exists cl m, clients s !! c = Some cl /\ keys_of s !! i = Some m /\
    (dirty cl \/ exists x, flag_of cl i k = Some x /\ if x then v = None /\ keyIsExpired (mstime s) m k = true else v = m !! k).

Section Invariant.
(** With [master], a master whose databases are not swapped; and then a key that the
    client [who], if any, watches. *)
Variables (master : bool) (who : option Z) (i0 : nat) (k0 : key) (v : option (object V)).

Definition inv s : Prop := wf s /\ (master = true -> exact_marks s /\ replica s = false /\ forall c0, who = Some c0 -> tracks s c0 i0 k0 v).

(** The keys are [K] afterwards; every client stays, with its database, and nothing is
    answered. *)
Definition same_db cl cl' : Prop := c_db cl' = c_db cl.
Definition moves (K : list keymap) s s' : Prop := kframe K s s' /\ each same_db s s'.

Lemma moves_refl s : moves (keys_of s) s s.
Proof. split; [by apply frame_kframe|]. split; [|done]. intros c cl Hc. by exists cl. Qed.

Lemma moves_trans K1 K2 s1 s2 s3 : moves K1 s1 s2 -> moves K2 s2 s3 -> moves K2 s1 s3.
Proof. intros [F1 T1] [F2 T2]. split; [by eapply kframe_trans|]. eapply each_trans; [|exact T1|exact T2]. unfold same_db. congruence. Qed.

Lemma each_weaken (R R' : mclient C -> mclient C -> Prop) s s' : (forall x y, R x y -> R' x y) -> each R s s' -> each R' s s'.
Proof. intros H [T N]. split; [|done]. intros c cl Hc. destruct (T _ _ Hc) as (cl' & ? & ?). eauto. Qed.

Lemma changed_db i k p (H : Prop) cl cl' : change_client i k p H cl cl' -> same_db cl cl'.
Proof. unfold change_client, same_db. case_decide; [|by intros ->]. by intros []. Qed.

(** The clients stay, and nothing is answered. *)
Definition later s s' : Prop :=
  (forall c, is_Some (clients s !! c) -> is_Some (clients s' !! c)) /\ replies s' = replies s /\ mstime s' = mstime s /\ in_exec s' = in_exec s /\ replica s' = replica s.

#[global] Instance later_preorder : PreOrder later.
Proof. split; [by intros s|]. intros s1 s2 s3 (?&?&?&?&?) (?&?&?&?&?). split; [auto|]. split_and!; congruence. Qed.

Lemma later_each (R : mclient C -> mclient C -> Prop) K s s' : kframe K s s' -> each R s s' -> later s s'.
Proof. intros (_ & ? & ? & ? & ?) [T _]. split_and!; try done. intros c [cl Hc]. destruct (T _ _ Hc) as (? & ? & _). eauto. Qed.

Lemma linked_ext s s' : dbs s' = dbs s -> clients s' = clients s -> linked s -> linked s'.
Proof.
  intros E1 E2 [Hi Hn Hc Hs]. constructor; [|by rewrite E1|by rewrite E1, E2|by rewrite E1]. intros i k c. unfold watchers. rewrite E1, E2. apply Hi.
Qed.

Lemma inv_ext s s' : dbs s' = dbs s -> clients s' = clients s -> watching_clients s' = watching_clients s -> mstime s' = mstime s -> replica s' = replica s ->
  inv s -> inv s'.
Proof.
  intros E1 E2 E3 E4 E5 [[Hl Hb] Ht]. split; [split; [by eapply linked_ext|by rewrite E2, E3]|].
  intros T. destruct (Ht T) as (He & Hr & Ht'). unfold exact_marks, tracks. rewrite E1, E2, E4, E5. done.
Qed.

Lemma inv_reply s c r : inv s -> inv (reply_to s c r).
Proof. by apply inv_ext. Qed.

(** An update of a client that leaves its watched keys. *)
Lemma inv_client s c cl cl' : inv s -> clients s !! c = Some cl -> watched_keys cl' = watched_keys cl -> (c_db cl' < length (dbs s))%nat ->
  (master = true -> who = Some c -> dirty cl -> dirty cl') -> inv (set_client s c cl').
Proof.
  intros [Hw Ht] Hc E Hd Hdirty. split; [eapply wf_client; [done|done|unfold wkeys; by rewrite E|done]|].
  assert (Ef : forall i k, flag_of cl' i k = flag_of cl i k) by (intros; unfold flag_of; by rewrite E).
  intros T. destruct (Ht T) as (He & Hr & Htr). split_and!; [|done|].
  - intros c1 cl1 i k. fields. intros [[<- <-]|[_ H]]%lookup_insert_Some; [rewrite Ef; exact (He _ _ _ _ Hc)|exact (He _ _ _ _ H)].
  - intros c0 Hwho. destruct (Htr _ Hwho) as (cl0 & m & Hc0 & Hm & H0). unfold tracks. fields. destruct (decide (c = c0)) as [->|Hne].
    + exists cl', m. rewrite lookup_insert_eq. simplify_eq. split_and!; try done. rewrite Ef. destruct H0; auto.
    + exists cl0, m. by rewrite lookup_insert_ne.
Qed.

(** A client loses its watched keys; the tracked one does only when it is dirty. *)
Lemma inv_unwatch s c cl : inv s -> clients s !! c = Some cl -> (master = true -> who = Some c -> dirty cl) ->
  exists s', unwatchAllKeys s c = Some s' /\ inv s' /\ frame s s' /\ clients s' = <[c := set_watched cl []]> (clients s).
Proof.
  intros [Hw Ht] Hc Hd. destruct (unwatchAllKeys_spec s c cl Hw Hc) as (s' & E & Hw' & F & E'). exists s'. split_and!; try done.
  split; [done|]. intros T. destruct (Ht T) as (He & Hr & Htr). pose proof F as (EK & Et & Er & _).
  split_and!; [|congruence|].
  - intros c1 cl1 i k. rewrite E', EK, Et. intros [[<- <-]|[_ H]]%lookup_insert_Some; [done|exact (He _ _ _ _ H)].
  - intros c0 Hwho. destruct (Htr _ Hwho) as (cl0 & m & Hc0 & Hm & H0). unfold tracks. rewrite E', EK, Et. destruct (decide (c = c0)) as [->|Hne].
    + exists (set_watched cl []), m. rewrite lookup_insert_eq. split_and!; try done. left. by apply Hd.
    + exists cl0, m. by rewrite lookup_insert_ne.
Qed.

(** A key changes: the clients that watch it become dirty, or see an expired key go. *)
Lemma inv_change_key s i m k o : inv s -> keys_of s !! i = Some m -> (master = true -> o = None \/ keyIsExpired (mstime s) m k = false) ->
  exists s', change_key s i k o = Some s' /\ inv s' /\ moves (<[i := assign o k m]> (keys_of s)) s s'.
Proof.
  intros [Hw Ht] (d & -> & Ed)%list_lookup_fmap_Some_1 Ho. destruct (change_key_spec s i d k o Hw Ed) as (s' & E & Hw' & F & T).
  pose proof F as (EK & Et & Er & _). exists s'. split_and!; [done| |split; [done|]; eapply each_weaken; [apply changed_db|exact T]]. split; [done|].
  intros Tr. destruct (Ht Tr) as (He & Hr & Htr). pose proof (lookup_lt_Some _ _ _ Ed) as Hi.
  assert (Hn : ~ blind s i k o).
  { intros ([o' ->] & c & cl & Hc & Hf). destruct (Ho Tr) as [|Ho']; [done|]. destruct (He _ _ _ _ Hc Hf) as (m1 & Hm1 & Hx).
    rewrite list_lookup_fmap, Ed in Hm1. simplify_eq/=. congruence. }
  assert (Hk : forall j k' m, (j, k') <> (i, k) -> keys_of s !! j = Some m -> exists m', keys_of s' !! j = Some m' /\ m' !! k' = m !! k').
  { intros j k' m Hne Hm. rewrite EK. destruct (decide (j = i)) as [->|Hj]; [|rewrite list_lookup_insert_ne by done; eauto].
    rewrite list_lookup_insert_eq by (by rewrite length_fmap). rewrite list_lookup_fmap, Ed in Hm. simplify_eq/=.
    eexists. split; [done|]. apply lookup_assign_ne. congruence. }
  split_and!; [|congruence|].
  - intros c cl' j k' Hc' Hf. destruct (each_back _ _ _ _ _ T Hc') as (cl & Hc & Hcc).
    destruct (changed_true _ _ _ _ _ _ _ _ Hcc Hn Hf) as [Hne Hf']. destruct (He _ _ _ _ Hc Hf') as (m1 & Hm1 & Hx).
    destruct (Hk _ _ _ Hne Hm1) as (m' & ? & Eq). exists m'. rewrite Et. by rewrite (keyIsExpired_lookup _ _ _ _ Eq).
  - intros c0 Hwho. destruct (Htr _ Hwho) as (cl0 & m0 & Hc0 & Hm0 & H0). destruct (proj1 T _ _ Hc0) as (cl' & Hc' & Hcc). unfold tracks. rewrite Et. destruct H0 as [Hd|(x & Hf & Hx)].
    + destruct (lookup_lt_is_Some_2 (keys_of s') i0) as [m' Hm'].
      { rewrite EK, length_insert. by eapply lookup_lt_Some. }
      exists cl', m'. split_and!; try done. left. by eapply changed_dirty.
    + destruct (changed_mark _ _ _ _ _ _ _ _ _ Hcc Hn Hf) as [Hd|[[Hne Hf']|([= -> ->] & -> & Hp & Hf')]].
      * destruct (lookup_lt_is_Some_2 (keys_of s') i0) as [m' Hm']; [rewrite EK, length_insert; by eapply lookup_lt_Some|].
        exists cl', m'. auto.
      * destruct (Hk _ _ _ Hne Hm0) as (m' & ? & Eq). exists cl', m'. split_and!; try done. right. exists x. split; [done|].
        by rewrite (keyIsExpired_lookup _ _ _ _ Eq), Eq.
      * exists cl', (assign o k (db_keys d)). rewrite EK, list_lookup_insert_eq by (by rewrite length_fmap). split_and!; try done.
        right. exists false. split; [done|]. rewrite lookup_assign. destruct Hx as [-> _]. by destruct o.
Qed.

Lemma inv_expireIfNeeded s i m k : inv s -> keys_of s !! i = Some m ->
  exists s' m', expireIfNeeded s i k = Some s' /\ inv s' /\ moves (kexpire (mstime s) (replica s) i k (keys_of s)) s s' /\ keys_of s' !! i = Some m' /\
    (master = true -> keyIsExpired (mstime s') m' k = false).
Proof.
  intros Hi Hm. pose proof Hm as (d & -> & Ed)%list_lookup_fmap_Some_1. unfold expireIfNeeded, kexpire. rewrite Ed, Hm. cbn [mbind option_bind].
  destruct (keyIsExpired (mstime s) (db_keys d) k) eqn:Ex; simpl; [|exists s, (db_keys d); split_and!; try done; apply moves_refl].
  destruct (replica s) eqn:Er; simpl.
  { exists s, (db_keys d). split_and!; try done; [apply moves_refl|]. intros T. destruct Hi as [_ Ht]. destruct (Ht T) as (_ & Hr & _). congruence. }
  destruct (inv_change_key s i (db_keys d) k None Hi Hm) as (s' & E & Hi' & F); [auto|].
  exists s', (assign None k (db_keys d)). split_and!; try done.
  - rewrite (proj1 (proj1 F)), list_lookup_insert_eq; [done|by eapply lookup_lt_Some].
  - intros _. unfold keyIsExpired. by rewrite lookup_assign.
Qed.

Lemma alter_lookup (f : keymap -> keymap) (i : nat) (K : list keymap) m : K !! i = Some m -> alter f i K = <[i := f m]> K.
Proof. revert i. induction K as [|x K IH]; intros [|i] H; simplify_eq/=; [done|]. f_equal. by apply IH. Qed.

(** A key is written that is not expired any more. *)
Lemma inv_write_key s i m k o : inv s -> keys_of s !! i = Some m -> (master = true -> keyIsExpired (mstime s) m k = false) ->
  exists s', write_key s i k o = Some s' /\ inv s' /\ moves (alter (assign o k) i (keys_of s)) s s'.
Proof.
  intros Hi Hm Hx. destruct (inv_change_key s i m k o Hi Hm) as (s' & E & Hi' & F); [auto|].
  rewrite (alter_lookup _ _ _ _ Hm). pose proof Hm as (d & -> & Ed)%list_lookup_fmap_Some_1. unfold write_key. rewrite Ed. simpl.
  destruct o as [o|]; [eauto|]. destruct (db_keys d !! k) eqn:Ek; [eauto|]. exists s. split_and!; try done.
  assert (El : <[i := assign None k (db_keys d)]> (keys_of s) = keys_of s) by (simpl; rewrite delete_id by done; by apply list_insert_id).
  rewrite El. apply moves_refl.
Qed.

(** What the emptying of the databases [l] makes of a client. *)
Definition flushes (K : list keymap) (l : list nat) cl cl' : Prop :=
  wkeys cl' = wkeys cl /\ same_db cl cl' /\ (dirty cl -> dirty cl') /\
  (forall j k x m, flag_of cl j k = Some x -> K !! j = Some m ->
     if bool_decide (j ∈ l) && in_emptied m k then flag_of cl' j k = Some false /\ (x = false -> dirty cl') else flag_of cl' j k = Some x).

Lemma flush_loop_spec l s : wf s -> NoDup l -> Forall (fun i => (i < length (dbs s))%nat) l ->
  exists s', flush_loop s l = Some s' /\ wf s' /\ frame s s' /\ each (flushes (keys_of s) l) s s'.
Proof.
  revert s. induction l as [|i l IH]; intros s Hw Hnd Hl; simpl.
  { exists s. split_and!; try done. split; [|done]. intros c cl Hc. exists cl. by rewrite Hc. }
  apply NoDup_cons in Hnd as [Hni Hnd]. apply Forall_cons in Hl as [Hi Hl]. destruct (lookup_lt_is_Some_2 _ _ Hi) as [d Ed].
  destruct (touchAll_spec s i d None all_slots Hw Ed) as (s1 & -> & Hw1 & F1 & T1). simpl.
  destruct (IH s1 Hw1 Hnd) as (s2 & -> & Hw2 & F2 & T2).
  { eapply Forall_impl; [exact Hl|]. intros j. cbn beta. by rewrite (frame_length _ _ F1). }
  exists s2. split_and!; [done|done|by etrans|]. eapply each_trans; [|exact T1|exact T2].
  intros cl cl1 cl2 (W1 & E1 & D1 & O1 & M1) (W2 & E2 & D2 & M2). rewrite (proj1 F1) in M2. unfold same_db in *. split_and!; [congruence|congruence|auto|].
  intros j k x m Hf Hm. specialize (M2 j k). destruct (decide (j = i)) as [->|Hj].
  - rewrite list_lookup_fmap, Ed in Hm. simplify_eq/=. rewrite (bool_decide_eq_true_2 (i ∈ i :: l)) by by left. simpl.
    rewrite (bool_decide_eq_false_2 (i ∈ l)) in M2 by done. simpl in M2. rewrite list_lookup_fmap, Ed in M2.
    specialize (M1 k x Hf). unfold swept, all_slots, new_mark, in_replaced, replaced_expired in M1. rewrite orb_false_r, andb_true_l in M1.
    destruct (in_emptied (db_keys d) k); [|by eapply M2]. destruct x; simpl in M1.
    + split; [by eapply M2|done].
    + destruct M1 as [? ?]. split; [by eapply M2|auto].
  - assert (Hb : bool_decide (j ∈ i :: l) = bool_decide (j ∈ l)) by (apply bool_decide_ext; set_solver). rewrite Hb.
    apply M2; [by rewrite O1|done].
Qed.

Lemma emptyDb_keys l s : keys_of (emptyDb s l) = foldl (fun K i => <[i := ∅]> K) (keys_of s) l /\ clients (emptyDb s l) = clients s.
Proof.
  revert s. induction l as [|i l IH]; intros s; [done|]. change (emptyDb s (i :: l)) with (emptyDb (set_keys s i ∅) l).
  destruct (IH (set_keys s i ∅)) as [-> ->]. simpl.
  by rewrite (proj1 (kframe_set_keys s i ∅)), clients_set_keys.
Qed.

Lemma emptied_lookup (l : list nat) (K : list keymap) (j : nat) (m : keymap) : K !! j = Some m -> foldl (fun K i => <[i := ∅]> K) K l !! j = Some (if bool_decide (j ∈ l) then ∅ else m).
Proof.
  revert K m. induction l as [|i l IH]; intros K m H; simpl; [done|]. destruct (decide (j = i)) as [->|Hne].
  - rewrite (IH _ ∅) by (apply list_lookup_insert_eq; by eapply lookup_lt_Some). rewrite (bool_decide_eq_true_2 (i ∈ i :: l)) by by left.
    by case_bool_decide.
  - rewrite (IH _ m) by (by rewrite list_lookup_insert_ne). f_equal.
    by rewrite (bool_decide_ext (j ∈ i :: l) (j ∈ l)) by set_solver.
Qed.

Lemma emptyDb_rest l s : wf s -> wf (emptyDb s l) /\ mstime (emptyDb s l) = mstime s /\ replica (emptyDb s l) = replica s /\
  in_exec (emptyDb s l) = in_exec s /\ replies (emptyDb s l) = replies s.
Proof.
  revert s. induction l as [|i l IH]; intros s Hw; [done|]. change (emptyDb s (i :: l)) with (emptyDb (set_keys s i ∅) l).
  destruct (IH (set_keys s i ∅) (wf_set_keys _ _ _ Hw)) as (? & -> & -> & -> & ->). split; [done|]. apply kframe_set_keys.
Qed.

(** The databases are emptied after the sweep. *)
Lemma inv_flush s l : inv s -> NoDup l -> Forall (fun i => (i < length (dbs s))%nat) l ->
  exists s', (s1 ← flush_loop s l; Some (emptyDb s1 l)) = Some s' /\ inv s' /\ moves (foldl (fun K i => <[i := ∅]> K) (keys_of s) l) s s'.
Proof.
  intros [Hw Ht] Hnd Hl. destruct (flush_loop_spec l s Hw Hnd Hl) as (s1 & -> & Hw1 & F1 & T1). simpl.
  destruct (emptyDb_rest l s1 Hw1) as (Hw2 & Et & Er & Ei & Ep). destruct (emptyDb_keys l s1) as [EK EC]. rewrite (proj1 F1) in EK.
  pose proof F1 as (_ & Et1 & Er1 & Ei1 & Ep1).
  eexists. split; [done|]. split; [split; [done|]|].
  2: { split; [split_and!; congruence|]. unfold each. rewrite EC. apply (each_weaken (flushes (keys_of s) l) same_db s s1); [|exact T1]. by intros x y (_ & ? & _). }
  intros Tr. destruct (Ht Tr) as (He & Hr & Htr). split_and!; [|congruence|].
  - intros c cl' j k. rewrite EC, EK, Et, Et1. intros Hc' Hf. destruct (each_back _ _ _ _ _ T1 Hc') as (cl & Hc & W & _ & _ & M).
    assert (Hk : (j, k) ∈ wkeys cl) by (rewrite <-W; by eapply flag_of_wkeys). apply flag_of_watched in Hk as (wk & _ & Hf0).
    destruct (keys_of s !! j) as [m|] eqn:Hm.
    2: { destruct (linked_lookup s c cl j k (proj1 Hw) Hc) as (d & _ & Ed & _); [by eapply flag_of_wkeys|]. by rewrite list_lookup_fmap, Ed in Hm. }
    specialize (M _ _ _ _ Hf0 Hm). destruct (bool_decide (j ∈ l) && in_emptied m k) eqn:D; [destruct M; congruence|].
    rewrite M in Hf. injection Hf as Hf. rewrite Hf in Hf0. destruct (He _ _ _ _ Hc Hf0) as (m1 & Hm1 & Hx). simplify_eq.
    exists m. split; [|done]. rewrite (emptied_lookup _ _ _ _ Hm). f_equal. case_bool_decide; [|done]. simpl in D.
    unfold keyIsExpired in Hx. unfold in_emptied in D. destruct (m !! k); [|done]. rewrite bool_decide_eq_false in D. by destruct D.
  - intros c0 Hwho. destruct (Htr _ Hwho) as (cl0 & m0 & Hc0 & Hm0 & H0). destruct (proj1 T1 _ _ Hc0) as (cl' & Hc' & _ & _ & D & M). exists cl', (if bool_decide (i0 ∈ l) then ∅ else m0).
    rewrite EC, EK, Et, Et1. split_and!; [done|by apply emptied_lookup|]. destruct H0 as [Hd|(x & Hf & Hx)]; [auto|].
    specialize (M _ _ _ _ Hf Hm0). case_bool_decide; simpl in M; [|right; eauto]. unfold in_emptied in M. case_bool_decide as P.
    + destruct M as [M1 M2]. destruct x; [|auto]. right. exists false. split; [done|]. rewrite lookup_empty. by destruct Hx.
    + right. exists x. split; [done|]. apply eq_None_not_Some in P. destruct x; [|by rewrite lookup_empty, <-P].
      destruct Hx as [_ Hx]. unfold keyIsExpired in Hx. by rewrite P in Hx.
Qed.
End Invariant.
End Lists.
