(* ===== verification/MultiExec.v ===== *)
(** Theorems on the transactions of a whole server: every event keeps the watch lists and
    none fails, EXEC runs the commands serially or none and ends the transaction, it runs
    them only while the watched keys have the values they had at WATCH, and the writes that
    an expired watched key hides after SWAPDB. *)

From stdpp Require Import base list numbers gmap strings.
From S2P Require Import Prelude Client ReplyBuffer Query Multi MultiSerial MultiWatch.

Local Open Scope Z_scope.

Notation keys_of s := (db_keys <$> dbs s).

(** Every command has its reply. *)
Lemma kserial_length {V D : Type} (now : Z) (r : bool) (effects : D -> nat -> list (gmap key (object V)) -> list (effect V)) allowed st l :
  length (kserial now r effects allowed st l).2 = length l.
Proof.
  revert st. induction l as [|cmd l IH]; intros st; simpl; [done|]. destruct (kcommand now r effects allowed st cmd) as [st1 x].
  specialize (IH st1). destruct (kserial now r effects allowed st1 l). simpl in *. by rewrite IH.
Qed.

Section Steps.
Context {V D : Type}.
Implicit Types (s : mserver V (command D)) (c : Z) (cl : mclient (command D)) (k : key).

(** ** SWAPDB *)

Definition swaps s (id1 id2 : nat) (m1 m2 : gmap key (object V)) cl cl' : Prop :=
  exists cl1, sweeps s id1 m1 (Some m2) all_slots cl cl1 /\ sweeps s id2 m2 (Some m1) all_slots cl1 cl'.

Lemma swap_spec s id1 id2 m1 m2 : wf s -> keys_of s !! id1 = Some m1 -> keys_of s !! id2 = Some m2 -> id1 <> id2 ->
  exists s', dbSwapDatabases s id1 id2 = Some s' /\ wf s' /\ kframe (<[id2 := m1]> (<[id1 := m2]> (keys_of s))) s s' /\ each (swaps s id1 id2 m1 m2) s s'.
Proof.
  intros Hw (d1 & -> & E1)%list_lookup_fmap_Some_1 (d2 & -> & E2)%list_lookup_fmap_Some_1 Hne. unfold dbSwapDatabases. rewrite E1, E2.
  rewrite (proj2 (Nat.eqb_neq _ _) Hne). destruct (touchAll_spec s id1 d1 (Some (db_keys d2)) all_slots Hw E1) as (s1 & -> & Hw1 & F1 & T1). simpl.
  destruct (frame_db _ _ _ _ F1 E2) as (d2' & E2' & Ek).
  destruct (touchAll_spec s1 id2 d2' (Some (db_keys d1)) all_slots Hw1 E2') as (s2 & -> & Hw2 & F2 & T2). simpl.
  eexists. split; [done|]. split; [by apply wf_set_keys, wf_set_keys|]. split.
  - pose proof (kframe_trans _ _ _ _ _ (frame_kframe _ _ F1) (frame_kframe _ _ F2)) as F.
    rewrite <-(proj1 F1), <-(proj1 F2). pose proof (kframe_set_keys s2 id1 (db_keys d2)) as G.
    rewrite <-(proj1 G). eapply kframe_trans; [exact F|]. eapply kframe_trans; [exact G|]. apply kframe_set_keys.
  - assert (T : each (swaps s id1 id2 (db_keys d1) (db_keys d2)) s s2).
    { eapply each_trans; [|exact T1|exact T2]. intros x y z Hx Hy. exists y. split; [done|].
      unfold sweeps in Hy. by rewrite Ek, (proj1 (proj2 F1)) in Hy. }
    unfold each. by rewrite !clients_set_keys.
Qed.

Lemma swap_total s id1 id2 : wf s -> exists s', dbSwapDatabases s id1 id2 = Some s' /\ wf s' /\ moves (kswap id1 id2 (keys_of s)) s s'.
Proof.
  intros Hw. unfold kswap. rewrite !list_lookup_fmap. pose proof (moves_refl s) as M0. destruct (dbs s !! id1) as [d1|] eqn:E1; simpl.
  2: { exists s. unfold dbSwapDatabases. by rewrite E1. }
  destruct (dbs s !! id2) as [d2|] eqn:E2; simpl.
  2: { exists s. unfold dbSwapDatabases. by rewrite E1, E2. }
  assert (K1 : keys_of s !! id1 = Some (db_keys d1)) by (by rewrite list_lookup_fmap, E1).
  assert (K2 : keys_of s !! id2 = Some (db_keys d2)) by (by rewrite list_lookup_fmap, E2). destruct (decide (id1 = id2)) as [<-|E].
  - exists s. unfold dbSwapDatabases. rewrite E1, Nat.eqb_refl. simplify_eq. by rewrite (list_insert_id _ _ _ K1), (list_insert_id _ _ _ K1).
  - destruct (swap_spec s id1 id2 (db_keys d1) (db_keys d2) Hw K1 K2 E) as (s' & Es & Hw' & F & T). exists s'. split_and!; try done. split; [done|].
    eapply each_weaken; [|exact T]. unfold same_db. intros x y (z & (_ & H1 & _) & (_ & H2 & _)). congruence.
Qed.

(** ** Effects *)

Variables (master : bool) (who : option Z) (i0 : nat) (k0 : key) (v : option (object V)).
Notation inv := (inv master who i0 k0 v).

Definition no_swap (e : effect V) : bool := match e with Swap _ _ => false | _ => true end.

Lemma keys_lt s i : (i < length (dbs s))%nat -> exists m, keys_of s !! i = Some m.
Proof. intros H. destruct (lookup_lt_is_Some_2 (keys_of s) i) as [m ?]; [by rewrite length_fmap|]. eauto. Qed.

Lemma emptied_all (K : list (gmap key (object V))) : foldl (fun K i => <[i := ∅]> K) K (seq 0 (length K)) = (fun _ => ∅) <$> K.
Proof.
  apply list_eq. intros i. rewrite list_lookup_fmap. destruct (K !! i) as [m|] eqn:E; simpl.
  - rewrite (emptied_lookup _ _ _ _ E), bool_decide_eq_true_2; [done|]. apply elem_of_seq. apply lookup_lt_Some in E. lia.
  - apply lookup_ge_None. apply lookup_ge_None in E. assert (H : forall l, length (foldl (fun K i => <[i := ∅]> K) K l) = length K); [|by rewrite H].
    intros l. clear E. revert K. induction l as [|j l IH]; intros K; simpl; [done|]. by rewrite IH, length_insert.
Qed.

Lemma keys_ge s i : (i <? length (dbs s))%nat = false -> keys_of s !! i = None.
Proof. intros H%Nat.ltb_ge. apply lookup_ge_None. by rewrite length_fmap. Qed.

Lemma alter_none (f : gmap key (object V) -> gmap key (object V)) (i : nat) (K : list (gmap key (object V))) : K !! i = None -> alter f i K = K.
Proof. intros H. apply list_eq. intros j. destruct (decide (i = j)) as [<-|Hne]; [by rewrite list_lookup_alter_eq, H|by apply list_lookup_alter_ne]. Qed.

Lemma inv_apply_effect s e : inv s -> (master = true -> no_swap e = true) ->
  exists s', apply_effect s e = Some s' /\ inv s' /\ moves (keffect (mstime s) (replica s) (keys_of s) e) s s'.
Proof.
  intros Hi He. pose proof (moves_refl s) as M0. destruct e as [i k|i k o|dbid|id1 id2|id]; simpl.
  - destruct (i <? length (dbs s))%nat eqn:E.
    + apply Nat.ltb_lt in E. destruct (keys_lt s i E) as [m Hm].
      destruct (inv_expireIfNeeded master who i0 k0 v s i m k Hi Hm) as (s' & _ & ? & ? & ? & _). eauto.
    + exists s. split_and!; try done. unfold kexpire. by rewrite (keys_ge s i E).
  - destruct (i <? length (dbs s))%nat eqn:E.
    + apply Nat.ltb_lt in E. destruct (keys_lt s i E) as [m Hm].
      destruct (inv_expireIfNeeded master who i0 k0 v s i m k Hi Hm) as (s1 & m1 & -> & Hi1 & M1 & Hm1 & Hx). simpl.
      destruct (inv_write_key master who i0 k0 v s1 i m1 k o Hi1 Hm1 Hx) as (s2 & ? & ? & M2). exists s2. split_and!; try done.
      rewrite (proj1 (proj1 M1)) in M2. by eapply moves_trans.
    + exists s. split_and!; try done. unfold kexpire. pose proof (keys_ge s i E) as Hn. rewrite Hn, alter_none by done. done.
  - unfold emptyData, signalFlushedDb. destruct dbid as [i|].
    + destruct (i <? length (dbs s))%nat eqn:E.
      * apply Nat.ltb_lt in E. apply (inv_flush master who i0 k0 v s [i]); [done|apply NoDup_singleton|by constructor].
      * exists s. split_and!; try done. rewrite list_insert_ge; [done|]. by apply lookup_ge_None, keys_ge.
    + destruct (inv_flush master who i0 k0 v s (seq 0 (length (dbs s))) Hi) as (s' & E & Hi' & M); [apply NoDup_seq|apply Forall_seq; lia|].
      rewrite <-(length_fmap db_keys (dbs s)), emptied_all in M.
      destruct (flush_loop_spec (seq 0 (length (dbs s))) s (proj1 Hi)) as (s2 & E2 & _ & F & _); [apply NoDup_seq|apply Forall_seq; lia|].
      rewrite E2 in *. simpl in *. rewrite (frame_length _ _ F). eauto.
  - destruct (swap_total s id1 id2 (proj1 Hi)) as (s' & E & Hw & M). exists s'. split_and!; try done. split; [done|].
    intros Ma. by specialize (He Ma).
  - by exists s.
Qed.

(** The clients stay, and [c] is answered [rs]. *)
Definition answers c (rs : list mreply) s s' : Prop :=
  (forall x, is_Some (clients s !! x) -> is_Some (clients s' !! x)) /\ replies s' = replies s ++ (pair c <$> rs) /\ mstime s' = mstime s /\
  in_exec s' = in_exec s /\ replica s' = replica s.

Lemma answers_later c s s' : later s s' -> answers c [] s s'.
Proof. intros (? & E & ? & ? & ?). split_and!; try done. by rewrite E, app_nil_r. Qed.

Lemma answers_trans c rs1 rs2 s1 s2 s3 : answers c rs1 s1 s2 -> answers c rs2 s2 s3 -> answers c (rs1 ++ rs2) s1 s3.
Proof.
  intros (?&E1&?&?&?) (?&E2&?&?&?). split; [auto|]. split; [|split_and!; congruence]. by rewrite E2, E1, fmap_app, <-app_assoc.
Qed.

Lemma answers_reply c r s s' : later s s' -> answers c [r] s (reply_to s' c r).
Proof. intros (?&E&?&?&?). split_and!; try done. fields. by rewrite E. Qed.

Lemma later_client s c cl : later s (set_client s c cl).
Proof. split_and!; try done. intros x Hx. fields. destruct (decide (x = c)) as [->|Hne]; [by rewrite lookup_insert_eq|by rewrite lookup_insert_ne]. Qed.

Lemma later_unwatch s s' c cl : frame s s' -> clients s' = <[c := cl]> (clients s) -> later s s'.
Proof. intros (_ & ? & ? & ? & ?) E. split_and!; try done. rewrite E. apply (later_client s c cl). Qed.

(** An update of the client that sends the command. *)
Lemma inv_self s c cl cl' : inv s -> clients s !! c = Some cl -> watched_keys cl' = watched_keys cl -> c_db cl' = c_db cl ->
  (master = true -> who = Some c -> dirty cl -> dirty cl') -> inv (set_client s c cl').
Proof. intros Hi Hc E Ed Hd. eapply inv_client; [done|done|done| |done]. rewrite Ed. exact (wf_db _ _ _ (proj1 Hi) Hc). Qed.

(** What the server has for [c]: the keys and the database that is selected. *)
Definition sees s c (st : list (gmap key (object V)) * nat) : Prop := exists cl, clients s !! c = Some cl /\ st = (keys_of s, c_db cl).

Lemma sees_moves K s s' c st : sees s c st -> moves K s s' -> sees s' c (K, st.2).
Proof. intros (cl & Hc & ->) [(<- & _) [T _]]. destruct (T _ _ Hc) as (cl' & ? & ?). exists cl'. split; [done|]. simpl. by rewrite H0. Qed.

Lemma sees_client s c cl cl' st : sees s c st -> clients s !! c = Some cl -> c_db cl' = c_db cl -> sees (set_client s c cl') c st.
Proof. intros (x & Hx & ->) Hc E. simplify_eq. exists cl'. split; [apply lookup_insert_eq|]. by rewrite E. Qed.

Lemma inv_apply_effects l s c st : inv s -> sees s c st -> (master = true -> forallb no_swap l = true) ->
  exists s', apply_effects s c l = Some s' /\ inv s' /\ later s s' /\ sees s' c (foldl (kstep (mstime s) (replica s)) st l).
Proof.
  revert s st. induction l as [|e l IH]; intros s st Hi Hc Hl; [by exists s|].
  assert (Hone : exists s1, match e with Select id => selectDb s c id | _ => apply_effect s e end = Some s1 /\ inv s1 /\ later s s1 /\ sees s1 c (kstep (mstime s) (replica s) st e)).
  { assert (He : inv s -> exists s1, apply_effect s e = Some s1 /\ inv s1 /\ later s s1 /\ sees s1 c (keffect (mstime s) (replica s) (keys_of s) e, st.2)).
    { intros _. destruct (inv_apply_effect s e Hi) as (s1 & ? & ? & M); [intros Ma; by apply andb_true_iff in Hl as [-> _]|].
      exists s1. split_and!; try done; [by eapply later_each; apply M|by eapply sees_moves]. }
    pose proof Hc as (cl & Hc' & Est). rewrite Est in *. destruct e; try by apply He. clear He.
    unfold selectDb, kstep. rewrite Hc'. simpl. rewrite length_fmap. destruct (length (dbs s) <=? id)%nat eqn:E.
    - apply Nat.leb_le in E. rewrite (proj2 (Nat.ltb_ge _ _) E). by exists s.
    - apply Nat.leb_gt in E. rewrite (proj2 (Nat.ltb_lt _ _) E). eexists. split; [done|]. split; [by eapply inv_client|]. split; [apply later_client|].
      exists (set_cdb cl id). fields. by rewrite lookup_insert_eq. }
  destruct Hone as (s1 & E & Hi1 & L1 & S1). destruct (IH s1 _ Hi1 S1) as (s2 & E2 & Hi2 & L2 & S2); [intros M; by apply andb_true_iff in Hl as [_ ?]|].
  pose proof L1 as (_ & _ & Et & _ & Er). rewrite Et, Er in S2. exists s2. split_and!; [|done|by etrans|done]. simpl. destruct e; by rewrite E.
Qed.

(** ** WATCH *)

Definition added s c cl k d : mserver V (command D) :=
  let wk := {| wk_db := c_db cl; wk_key := k; wk_expired := keyIsExpired (mstime s) (db_keys d) k |} in
  set_client (set_db s (c_db cl) (set_watched_of d (<[k := default [] (db_watched d !! k) ++ [c]]> (db_watched d)))) c (set_watched cl (watched_keys cl ++ [wk])).

Lemma linked_added s c cl k d : linked s -> clients s !! c = Some cl -> dbs s !! c_db cl = Some d -> (c_db cl, k) ∉ wkeys cl -> linked (added s c cl k d).
Proof.
  intros Hl Hc Ed Hk. pose proof (lookup_lt_Some _ _ _ Ed) as Hlt. unfold added. set (wk := Build_watchedKey _ _ _). constructor.
  - intros i k' c'. change (watchers (set_client ?x _ _) i k') with (watchers x i k'). rewrite watchers_set_db by done. fields.
    assert (Hiff : c' ∈ (if decide (i = c_db cl) then default [] (<[k := default [] (db_watched d !! k) ++ [c]]> (db_watched d) !! k') else watchers s i k') <->
      c' ∈ watchers s i k' \/ (c' = c /\ (i, k') = (c_db cl, k))).
    { case_decide as Ei; [subst i; rewrite (watchers_lookup _ _ _ _ Ed); destruct (decide (k' = k)) as [->|Ek]|].
      - rewrite lookup_insert_eq. simpl. rewrite elem_of_app, list_elem_of_singleton. naive_solver.
      - rewrite lookup_insert_ne by done. naive_solver.
      - naive_solver. }
    rewrite Hiff, (ln_iff _ Hl). destruct (decide (c' = c)) as [->|Hne]; [|rewrite lookup_insert_ne by done; naive_solver].
    rewrite lookup_insert_eq, Hc. split.
    + intros [(x & [= <-] & Hx)|[_ ->]]; eexists; (split; [done|]); unfold wkeys; cbn; rewrite fmap_app, elem_of_app; [by left|right; by left].
    + intros (x & [= <-] & Hx). unfold wkeys in Hx. cbn in Hx. rewrite fmap_app, elem_of_app in Hx. destruct Hx as [Hx|Hx]; [eauto|].
      right. split; [done|]. by apply list_elem_of_singleton in Hx.
  - intros i d0 k' l. fields. intros [(_ & <- & _)|[_ H]]%list_lookup_insert_Some; [|by apply (ln_nodup _ Hl i)]. cbn.
    intros [[<- <-]|[_ H]]%lookup_insert_Some; [|exact (ln_nodup _ Hl _ _ _ _ Ed H)]. split; [|by destruct (default [] _)].
    apply NoDup_app. split_and!; [|intros x Hx ->%list_elem_of_singleton|apply NoDup_singleton].
    + destruct (db_watched d !! k) as [l|] eqn:E; [exact (proj1 (ln_nodup _ Hl _ _ _ _ Ed E))|constructor].
    + rewrite <-(watchers_lookup _ _ _ _ Ed) in Hx. apply (ln_iff _ Hl) in Hx as (x & Hx & ?). by simplify_eq.
  - intros c' cl'. fields. rewrite length_insert. intros [[<- <-]|[_ H]]%lookup_insert_Some; [|by apply (ln_client _ Hl c')].
    destruct (ln_client _ Hl _ _ Hc) as [Hn ?]. split; [|done]. unfold wkeys. cbn. rewrite fmap_app. apply NoDup_app. split_and!; [done| |apply NoDup_singleton].
    intros x Hx ->%list_elem_of_singleton. done.
  - fields. rewrite length_insert. apply (ln_some _ Hl).
Qed.

Lemma find_app_wk (f : watchedKey -> bool) l1 l2 : List.find f (l1 ++ l2) = match List.find f l1 with Some x => Some x | None => List.find f l2 end.
Proof. induction l1 as [|x l1 IH]; simpl; [done|]. by destruct (f x). Qed.

Lemma added_flag cl wk i k x : flag_of (set_watched cl (watched_keys cl ++ [wk])) i k = Some x ->
  flag_of cl i k = Some x \/ (wkey wk = (i, k) /\ x = wk_expired wk).
Proof.
  unfold flag_of. cbn. rewrite find_app_wk. destruct (List.find _ (watched_keys cl)); [by left|]. simpl.
  destruct (same_key i k wk) eqn:E; [|done]. intros [= <-]. right. split; [by apply same_key_iff|done].
Qed.

Lemma added_flag_old cl wk i k x : flag_of cl i k = Some x -> flag_of (set_watched cl (watched_keys cl ++ [wk])) i k = Some x.
Proof. unfold flag_of. cbn. rewrite find_app_wk. by destruct (List.find _ (watched_keys cl)). Qed.

Lemma added_keys s c cl k d : dbs s !! c_db cl = Some d -> keys_of (added s c cl k d) = keys_of s.
Proof. intros Ed. unfold added. fields. rewrite list_fmap_insert. apply list_insert_id. by rewrite list_lookup_fmap, Ed. Qed.

(** A client watches one key more. *)
Lemma inv_added s s' c cl k d : inv s -> clients s !! c = Some cl -> dbs s !! c_db cl = Some d -> (c_db cl, k) ∉ wkeys cl ->
  dbs s' = dbs (added s c cl k d) -> clients s' = clients (added s c cl k d) -> mstime s' = mstime s -> replica s' = replica s ->
  watching_clients s' = watching_clients s + (if bool_decide (watched_keys cl = []) then 1 else 0) -> inv s'.
Proof.
  intros [[Hl Hb] Ht] Hc Ed Hk E1 E2 Et Er Ew. split.
  - split; [eapply linked_ext; [done|done|by apply linked_added]|]. rewrite E2, Ew, Hb. unfold added. fields. rewrite (busy_update _ _ _ _ Hc). cbn.
    rewrite (bool_decide_eq_false_2 (_ ++ _ = [])) by (by destruct (watched_keys cl)). case_bool_decide; lia.
  - intros M. destruct (Ht M) as (He & Hr & Htr). assert (EK : keys_of s' = keys_of s) by (rewrite E1; by apply added_keys).
    split_and!; [|congruence|].
    + intros c' cl' i k'. rewrite E2, EK, Et. unfold added. fields. intros [[<- <-]|[_ H]]%lookup_insert_Some; [|exact (He _ _ _ _ H)].
      intros [H|[[= <- <-] H]]%added_flag; [exact (He _ _ _ _ Hc H)|]. exists (db_keys d). by rewrite list_lookup_fmap, Ed.
    + intros c0 W. destruct (Htr _ W) as (cl0 & m & Hc0 & Hm & H0). unfold tracks. rewrite E2, EK, Et. unfold added. fields.
      destruct (decide (c = c0)) as [->|Hne]; [|exists cl0, m; by rewrite lookup_insert_ne]. simplify_eq.
      eexists _, m. rewrite lookup_insert_eq. split_and!; [done|done|]. destruct H0 as [H0|(x & Hf & Hx)]; [by left|].
      right. exists x. split; [by apply added_flag_old|done].
Qed.

Lemma inv_watchForKey s c cl k : inv s -> clients s !! c = Some cl ->
  exists s' cl', watchForKey s c k = Some s' /\ inv s' /\ later s s' /\ keys_of s' = keys_of s /\ clients s' !! c = Some cl' /\
    c_db cl' = c_db cl /\ wkeys cl ⊆ wkeys cl' /\ (c_db cl, k) ∈ wkeys cl'.
Proof.
  intros Hi Hc. pose proof (wf_db _ _ _ (proj1 Hi) Hc) as Hlt. destruct (lookup_lt_is_Some_2 _ _ Hlt) as [d Ed].
  unfold watchForKey. rewrite Hc. cbn [mbind option_bind]. destruct (existsb (same_key (c_db cl) k) (watched_keys cl)) eqn:Ex.
  { apply existsb_exists in Ex as (wk & Hin & E%same_key_iff). rewrite bool_decide_eq_false_2 by (intros E'; by rewrite E' in Hin).
    exists s, cl. split_and!; try done. rewrite <-E. apply list_elem_of_fmap_2. by apply list_elem_of_In. }
  assert (Hk : (c_db cl, k) ∉ wkeys cl).
  { intros (wk & E & Hin)%list_elem_of_fmap. apply not_true_iff_false in Ex. apply Ex, existsb_exists. exists wk.
    split; [by apply list_elem_of_In|]. by apply same_key_iff. }
  set (s1 := if bool_decide _ then _ else s).
  assert (E1 : dbs s1 = dbs s /\ clients s1 = clients s /\ mstime s1 = mstime s /\ replica s1 = replica s /\ in_exec s1 = in_exec s /\ replies s1 = replies s /\
    watching_clients s1 = watching_clients s + (if bool_decide (watched_keys cl = []) then 1 else 0)) by (unfold s1; case_bool_decide; cbn; split_and!; done || lia).
  destruct E1 as (Ed1 & Ec1 & Et1 & Er1 & Ei1 & Ep1 & Ew1). rewrite Ed1, Ed. cbn [mbind option_bind]. fold (added s1 c cl k d).
  assert (Ea : dbs (added s1 c cl k d) = dbs (added s c cl k d) /\ clients (added s1 c cl k d) = clients (added s c cl k d))
    by (unfold added; fields; by rewrite Ed1, Ec1, Et1). destruct Ea as [Ea1 Ea2].
  exists (added s1 c cl k d). eexists. split; [done|]. split_and!.
  - by eapply inv_added.
  - split_and!; try done. rewrite Ea2. apply (later_client s c).
  - by rewrite Ea1, added_keys.
  - rewrite Ea2. apply lookup_insert_eq.
  - done.
  - intros x Hx. unfold wkeys. cbn. rewrite fmap_app, elem_of_app. by left.
  - unfold wkeys. cbn. rewrite fmap_app, elem_of_app. right. by left.
Qed.

Lemma inv_watch_loop l s c cl : inv s -> clients s !! c = Some cl ->
  exists s' cl', watch_loop s c l = Some s' /\ inv s' /\ later s s' /\ keys_of s' = keys_of s /\ clients s' !! c = Some cl' /\
    c_db cl' = c_db cl /\ wkeys cl ⊆ wkeys cl' /\ forall k, k ∈ l -> (c_db cl, k) ∈ wkeys cl'.
Proof.
  revert s cl. induction l as [|k l IH]; intros s cl Hi Hc; simpl.
  { exists s, cl. split_and!; try done. set_solver. }
  destruct (inv_watchForKey s c cl k Hi Hc) as (s1 & cl1 & -> & Hi1 & L1 & K1 & Hc1 & E1 & W1 & M1). simpl.
  destruct (IH s1 cl1 Hi1 Hc1) as (s2 & cl2 & -> & Hi2 & L2 & K2 & Hc2 & E2 & W2 & M2). rewrite E1 in *.
  exists s2, cl2. split_and!; [done|done|by etrans|congruence|done|done|by etrans|]. intros k' [->|Hk]%elem_of_cons; auto.
Qed.

(** ** Commands *)

Variable effects : D -> nat -> list (gmap key (object V)) -> list (effect V).
Variable allowed : Z -> command D -> bool.

(** The clients swap no databases where the invariant is about more than the lists. *)
Hypothesis effects_no_swap : master = true -> forall cmd i K, forallb no_swap (effects cmd i K) = true.

Lemma inv_call s c st cmd : inv s -> sees s c st -> (master = true -> who = Some c -> cmd <> UNWATCH) ->
  exists s' st' r, call effects s c cmd = Some s' /\ inv s' /\ answers c [r] s s' /\ sees s' c st' /\
    kcommand (mstime s) (replica s) effects (fun _ => true) st cmd = (st', r).
Proof.
  intros Hi Hs Hw. pose proof Hs as (cl & Hc & Est). destruct cmd as [|cmd]; simpl.
  - unfold unwatchCommand. destruct (inv_unwatch master who i0 k0 v s c cl Hi Hc) as (s1 & -> & Hi1 & F & E); [intros M W; by destruct (Hw M W)|]. simpl.
    rewrite E, lookup_insert_eq. simpl. eexists _, st, Ok. split; [done|]. split_and!; [| | |done].
    + apply inv_reply. eapply inv_self; [done|by rewrite E, lookup_insert_eq|done|done|]. intros M W. by destruct (Hw M W).
    + apply answers_reply. etrans; [by eapply later_unwatch|apply later_client].
    + rewrite Est. eexists. fields. rewrite lookup_insert_eq. split; [done|]. by rewrite (proj1 F).
  - rewrite Hc. cbn [mbind option_bind]. rewrite Est. destruct (inv_apply_effects (effects cmd (c_db cl) (keys_of s)) s c st Hi Hs) as (s1 & -> & Hi1 & L & S1); [auto|].
    rewrite Est in S1. simpl. eexists _, _, Output. split; [done|]. split_and!; [by apply inv_reply|by apply answers_reply|exact S1|done].
Qed.

Lemma inv_exec_loop l s c j st : inv s -> sees s c st -> (master = true -> who <> Some c) ->
  exists s' st' rs, exec_loop effects allowed s c j l = Some s' /\ inv s' /\ answers c rs s s' /\ sees s' c st' /\
    kserial (mstime s) (replica s) effects (allowed c) st l = (st', rs).
Proof.
  revert s j st. induction l as [|cmd l IH]; intros s j st Hi Hs Hw; simpl.
  { exists s, st, []. split_and!; try done. by apply answers_later. }
  assert (Hone : exists s1 st1 r, (if negb (allowed c cmd) then Some (reply_to s c NoPerm) else s1 ← set_executing s c j; call effects s1 c cmd) = Some s1 /\
    inv s1 /\ answers c [r] s s1 /\ sees s1 c st1 /\ kcommand (mstime s) (replica s) effects (allowed c) st cmd = (st1, r)).
  { unfold kcommand. destruct (allowed c cmd); simpl.
    2: { eexists _, st, NoPerm. split; [done|]. split_and!; [by apply inv_reply|by apply answers_reply|done|done]. }
    pose proof Hs as (cl & Hc & _). unfold set_executing. rewrite Hc. simpl. set (cl' := set_mstate cl _).
    destruct (inv_call (set_client s c cl') c st cmd) as (s1 & st1 & r & E & Hi1 & A & S1 & Ek).
    - by eapply inv_self.
    - by eapply sees_client.
    - intros M W. by destruct (Hw M).
    - exists s1, st1, r. split_and!; try done. apply (answers_trans c [] [r] s (set_client s c cl')); [|done]. apply answers_later, later_client. }
  destruct Hone as (s1 & st1 & r & -> & Hi1 & A1 & S1 & ->). simpl. destruct (IH s1 (j + 1) st1) as (s2 & st2 & rs & -> & Hi2 & A2 & S2 & Ek); [done|done|done|].
  pose proof A1 as (_ & _ & <- & _ & <-). rewrite Ek. exists s2, st2, (r :: rs). split_and!; [done|done|by apply (answers_trans c [r] rs s s1)|done|done].
Qed.

(** ** Transactions *)

Definition closed cl : Prop :=
  has (c_flags cl) CLIENT_MULTI = false /\ has (c_flags cl) CLIENT_DIRTY_CAS = false /\ has (c_flags cl) CLIENT_DIRTY_EXEC = false /\
  mstate cl = initClientMultiState /\ watched_keys cl = [].

Definition aborts s cl : bool := isWatchedKeyExpired s cl || has (c_flags cl) (Z.lor CLIENT_DIRTY_CAS CLIENT_DIRTY_EXEC).

Lemma inv_discard s c cl : inv s -> clients s !! c = Some cl -> (master = true -> who <> Some c) ->
  exists s' cl', discardTransaction s c = Some s' /\ inv s' /\ frame s s' /\ later s s' /\ clients s' !! c = Some cl' /\ closed cl' /\ c_db cl' = c_db cl.
Proof.
  intros Hi Hc Hw. unfold discardTransaction. rewrite Hc. simpl. set (cl' := set_flags _ _).
  destruct (inv_unwatch master who i0 k0 v (set_client s c cl') c cl') as (s' & -> & Hi' & F & E).
  - eapply inv_self; [done|done|done|done|]. intros M W. by destruct (Hw M).
  - apply lookup_insert_eq.
  - intros M W. by destruct (Hw M).
  - exists s', (set_watched cl' []). rewrite E, lookup_insert_eq. split_and!; try done.
    + etrans; [apply later_client|by eapply later_unwatch].
    + repeat split; (eapply has_submask; [apply has_ldiff_self|done]).
Qed.

(** The part of EXEC that runs the queued commands. *)
Lemma inv_exec_run s c cl : inv s -> clients s !! c = Some cl -> (master = true -> who <> Some c) ->
  exists s' cl' out,
    (let s := set_client s c (set_flags cl (Z.lor (c_flags cl) CLIENT_DENY_BLOCKING)) in
     s ← unwatchAllKeys s c;
     let s := reply_to (set_in_exec s true) c (ArrayLen (zlen (ms_commands (mstate cl)))) in
     s ← exec_loop effects allowed s c 0 (ms_commands (mstate cl));
     cl' ← clients s !! c;
     let s := if negb (has (c_flags cl) CLIENT_DENY_BLOCKING) then set_client s c (set_flags cl' (Z.ldiff (c_flags cl') CLIENT_DENY_BLOCKING)) else s in
     s ← discardTransaction s c;
     Some (set_in_exec s false)) = Some s' /\ inv s' /\ clients s' !! c = Some cl' /\ closed cl' /\
    (forall x, is_Some (clients s !! x) -> is_Some (clients s' !! x)) /\ mstime s' = mstime s /\
    replies s' = replies s ++ (pair c <$> ArrayLen (zlen (ms_commands (mstate cl))) :: out) /\
    kserial (mstime s) (replica s) effects (allowed c) (keys_of s, c_db cl) (ms_commands (mstate cl)) = ((keys_of s', c_db cl'), out).
Proof.
  intros Hi Hc Hw. assert (Hn : master = true -> who = Some c -> False) by (intros M W; by destruct (Hw M)). cbv zeta. set (cl1 := set_flags cl _).
  destruct (inv_unwatch master who i0 k0 v (set_client s c cl1) c cl1) as (s1 & -> & Hi1 & F1 & E1).
  { eapply inv_self; [done|done|done|done|]. intros M W. by destruct (Hn M W). }
  { apply lookup_insert_eq. }
  { intros M W. by destruct (Hn M W). }
  assert (L1 : later s s1) by (etrans; [apply (later_client s c cl1)|by eapply later_unwatch]). simpl. set (s2 := reply_to _ c _).
  assert (A2 : sees s2 c (keys_of s, c_db cl)).
  { exists (set_watched cl1 []). change (clients s2) with (clients s1). rewrite E1, lookup_insert_eq. split; [done|]. f_equal. symmetry. exact (proj1 F1). }
  destruct (inv_exec_loop (ms_commands (mstate cl)) s2 c 0 (keys_of s, c_db cl)) as (s3 & st & out & -> & Hi3 & A3 & (cl3 & Hc3 & ->) & Ek); [by apply inv_ext with (s := s1)|done|done|].
  destruct A3 as (L3 & R3 & T3 & _). simpl. rewrite Hc3. simpl.
  set (s4 := if negb _ then _ else s3).
  assert (H4 : inv s4 /\ later s3 s4 /\ dbs s4 = dbs s3 /\ exists cl4, clients s4 !! c = Some cl4 /\ c_db cl4 = c_db cl3).
  { unfold s4. destruct (negb _); [|split_and!; [done|done|done|by exists cl3]]. split_and!; [|apply later_client|done|eexists; split; [apply lookup_insert_eq|done]].
    eapply inv_self; [done|done|done|done|]. intros M W. by destruct (Hn M W). }
  destruct H4 as (Hi4 & L4 & K4 & cl4 & Hc4 & D4). destruct (inv_discard s4 c cl4 Hi4 Hc4 Hw) as (s5 & cl5 & -> & Hi5 & F5 & L5 & Hc5 & Hcl & D5). simpl.
  destruct L1 as (L1 & R1 & T1 & _ & P1), L4 as (L4 & R4 & T4 & _), L5 as (L5 & R5 & T5 & _).
  eexists _, cl5, out. split; [done|]. split_and!; [by apply inv_ext with (s := s5)|done|done| | | |]; fields.
  - intros x Hx. apply L5, L4, L3. fields. by apply L1.
  - rewrite T5, T4, T3. exact T1.
  - rewrite R5, R4, R3. change (replies s2) with (replies s1 ++ [(c, ArrayLen (zlen (ms_commands (mstate cl))))]). by rewrite R1, <-app_assoc.
  - rewrite <-T1, <-P1. rewrite (proj1 F5), K4, D5, D4. exact Ek.
Qed.

(** EXEC either runs nothing or the queued commands one after the other, and ends the
    transaction. *)
Lemma inv_exec s c cl : inv s -> clients s !! c = Some cl -> has (c_flags cl) CLIENT_MULTI = true -> (master = true -> who <> Some c) ->
  exists s' cl' rs, execCommand effects allowed s c = Some s' /\ inv s' /\ clients s' !! c = Some cl' /\ closed cl' /\
    (forall x, is_Some (clients s !! x) -> is_Some (clients s' !! x)) /\ mstime s' = mstime s /\ replies s' = replies s ++ (pair c <$> rs) /\
    if aborts s cl then rs = [if has (c_flags cl) CLIENT_DIRTY_EXEC then ExecAbort else NullArray] /\ keys_of s' = keys_of s /\ c_db cl' = c_db cl
    else exists out, rs = ArrayLen (zlen (ms_commands (mstate cl))) :: out /\
      kserial (mstime s) (replica s) effects (allowed c) (keys_of s, c_db cl) (ms_commands (mstate cl)) = ((keys_of s', c_db cl'), out).
Proof.
  intros Hi Hc Hm Hw. unfold execCommand. rewrite Hc. simpl. rewrite Hm. simpl.
  set (cl1 := if isWatchedKeyExpired s cl then _ else cl).
  assert (Hcl1 : watched_keys cl1 = watched_keys cl /\ c_db cl1 = c_db cl /\ mstate cl1 = mstate cl) by (unfold cl1; by destruct (isWatchedKeyExpired s cl)).
  destruct Hcl1 as (Ew & Ed & Em).
  assert (Ea : has (c_flags cl1) (Z.lor CLIENT_DIRTY_CAS CLIENT_DIRTY_EXEC) = aborts s cl).
  { unfold cl1, aborts. destruct (isWatchedKeyExpired s cl); [|done]. simpl. unfold has. apply negb_true_iff, Z.eqb_neq. intros E.
    apply (f_equal (fun z => Z.testbit z 5)) in E. by rewrite Z.land_spec, Z.lor_spec, orb_true_r in E. }
  assert (Ex : has (c_flags cl1) CLIENT_DIRTY_EXEC = has (c_flags cl) CLIENT_DIRTY_EXEC).
  { unfold cl1. destruct (isWatchedKeyExpired s cl); [|done]. by apply has_lor. }
  assert (Hi1 : inv (set_client s c cl1)) by (eapply inv_self; [done..|]; intros M W; by destruct (Hw M)).
  rewrite Ea. destruct (aborts s cl).
  - rewrite Ex. set (r := if has _ _ then _ else _).
    destruct (inv_discard (reply_to (set_client s c cl1) c r) c cl1) as (s' & cl' & -> & Hi' & F & L & Hc' & Hcl & D'); [by apply inv_reply|apply lookup_insert_eq|done|].
    exists s', cl', [r]. destruct L as (L & Er & Et & _). split_and!; try done.
    + intros x Hx. apply L. by apply (later_client s c cl1).
    + apply (proj1 F).
    + congruence.
  - destruct (inv_exec_run (set_client s c cl1) c cl1 Hi1) as (s' & cl' & out & E & Hi' & Hc' & Hcl & L & T & R & Ek); [apply lookup_insert_eq|done|].
    cbv zeta in E. rewrite E. eexists s', cl', _. split; [done|]. split_and!; [done|done|done| |done|exact R|].
    + intros x Hx. apply L. by apply (later_client s c cl1).
    + exists out. by rewrite Em, Ed in *.
Qed.

(** ** Requests and events *)

(** A request that leaves the watched keys of its client. *)
Definition keeps_watch (r : request D) : bool :=
  match r with DISCARD | EXEC | Run UNWATCH _ | Reject true _ | Redirect true _ => false | _ => true end.

Lemma flagTransaction_dirty cl : dirty cl -> dirty (flagTransaction cl).
Proof. unfold flagTransaction, dirty. destruct (has (c_flags cl) CLIENT_MULTI); [|done]. cbn. by rewrite has_lor. Qed.

Lemma inv_flag s c cl : inv s -> clients s !! c = Some cl -> inv (set_client s c (flagTransaction cl)).
Proof.
  intros Hi Hc. eapply inv_self; [done|done|unfold flagTransaction; by destruct (has _ _)|unfold flagTransaction; by destruct (has _ _)|].
  intros _ _. apply flagTransaction_dirty.
Qed.

Lemma inv_processCommand s c r : inv s -> is_Some (clients s !! c) -> (master = true -> who = Some c -> keeps_watch r = true) ->
  exists s', processCommand effects allowed s c r = Some s' /\ inv s' /\ mstime s' = mstime s.
Proof.
  intros Hi [cl Hc] Hk. assert (Hn : keeps_watch r = false -> master = true -> who <> Some c) by (intros E M W; specialize (Hk M W); congruence).
  destruct r as [l| | | |cmd f|[] e|[] e]; simpl in *.
  - unfold watchCommand. rewrite Hc. simpl. destruct (has _ CLIENT_MULTI); [eexists; split; [done|]; split; [by apply inv_reply|done]|].
    destruct (has _ CLIENT_DIRTY_CAS); [eexists; split; [done|]; split; [by apply inv_reply|done]|].
    destruct (inv_watch_loop l s c cl Hi Hc) as (s' & cl' & -> & Hi' & L & _). simpl. eexists. split; [done|]. split; [by apply inv_reply|apply L].
  - unfold multiCommand. rewrite Hc. simpl. destruct (has _ CLIENT_MULTI); (eexists; split; [done|]; split; [|done]); apply inv_reply; [done|].
    eapply inv_self; [done|done|done|done|]. intros _ _ H. unfold dirty. cbn. by rewrite has_lor.
  - unfold discardCommand. rewrite Hc. simpl. destruct (has _ CLIENT_MULTI); simpl; [|eexists; split; [done|]; split; [by apply inv_reply|done]].
    destruct (inv_discard s c cl Hi Hc) as (s' & cl' & -> & Hi' & _ & L & _); [auto|]. simpl. eexists. split; [done|]. split; [by apply inv_reply|apply L].
  - destruct (has (c_flags cl) CLIENT_MULTI) eqn:Em.
    + destruct (inv_exec s c cl Hi Hc Em) as (s' & _ & _ & E & Hi' & _ & _ & _ & T & _); [auto|]. eauto.
    + unfold execCommand. rewrite Hc. simpl. rewrite Em. simpl. eexists. split; [done|]. split; [by apply inv_reply|done].
  - rewrite Hc. simpl. destruct (has (c_flags cl) CLIENT_MULTI).
    + eexists. split; [done|]. split; [|done]. apply inv_reply. unfold queueMultiCommand. destruct (has _ (Z.lor _ _)); eapply inv_self; try done; by intros.
    + destruct (inv_call s c (keys_of s, c_db cl) cmd Hi) as (s' & _ & r & -> & Hi' & (_ & _ & T & _) & _); [by exists cl| |eauto]. intros M W ->. by specialize (Hk M W).
  - unfold rejectCommand. rewrite Hc. simpl.
    destruct (inv_discard (set_client s c (flagTransaction cl)) c (flagTransaction cl)) as (s' & cl' & -> & Hi' & _ & L & _); [by apply inv_flag|apply lookup_insert_eq|auto|].
    simpl. eexists. split; [done|]. split; [by apply inv_reply|apply L].
  - unfold rejectCommand. rewrite Hc. simpl. eexists. split; [done|]. split; [by apply inv_reply, inv_flag|done].
  - unfold redirect. rewrite Hc. simpl. destruct (inv_discard s c cl Hi Hc) as (s' & cl' & -> & Hi' & _ & L & _); [auto|].
    simpl. eexists. split; [done|]. split; [by apply inv_reply|apply L].
  - unfold redirect. rewrite Hc. simpl. eexists. split; [done|]. split; [by apply inv_reply, inv_flag|done].
Qed.

Definition master_event (e : event V D) : bool := match e with Background e => no_swap e | _ => true end.
Definition leaves_watch c (e : event V D) : bool :=
  match e with Disconnect c' => negb (c' =? c) | Client c' r => negb (c' =? c) || keeps_watch r | _ => true end.

Lemma idle_client s (m : gmap Z (mclient (command D))) c : linked s -> (forall x, x <> c -> m !! x = clients s !! x) ->
  (forall cl, clients s !! c = Some cl -> watched_keys cl = []) -> (forall cl, m !! c = Some cl -> watched_keys cl = [] /\ (c_db cl < length (dbs s))%nat) ->
  linked (set_clients s m).
Proof.
  intros Hl Ho H1 H2. constructor; fields; [| | |apply (ln_some _ Hl)].
  - intros i k x. change (watchers _ i k) with (watchers s i k). rewrite (ln_iff _ Hl). destruct (decide (x = c)) as [->|Hne]; [|by rewrite Ho].
    split; intros (cl & Hc & Hin); exfalso; [apply H1 in Hc|apply H2 in Hc as [Hc _]]; unfold wkeys in Hin; rewrite Hc in Hin; set_solver.
  - apply (ln_nodup _ Hl).
  - intros x cl Hx. destruct (decide (x = c)) as [->|Hne]; [|rewrite Ho in Hx by done; by apply (ln_client _ Hl x)].
    destruct (H2 _ Hx) as [E Hd]. split; [|done]. unfold wkeys. rewrite E. constructor.
Qed.

Lemma busy_new (m : gmap Z (mclient (command D))) c cl : m !! c = None -> watched_keys cl = [] -> busy (<[c := cl]> m) = busy m.
Proof.
  intros Hm Hw. unfold busy. rewrite map_filter_insert_False by (simpl; tauto). by rewrite delete_id.
Qed.

Lemma inv_connect s c : inv s -> clients s !! c = None -> inv (set_client s c new_client).
Proof.
  intros [[Hl Hb] Ht] Hc. split; [split|].
  - apply idle_client with (c := c); [done|intros; by apply lookup_insert_ne|congruence|].
    intros cl. rewrite lookup_insert_eq. intros [= <-]. split; [done|apply (ln_some _ Hl)].
  - fields. by rewrite busy_new.
  - intros M. destruct (Ht M) as (He & Hr & Htr). split_and!; [|done|].
    + intros x cl i k. fields. intros [[<- <-]|[_ H]]%lookup_insert_Some; [done|exact (He _ _ _ _ H)].
    + intros c0 W. destruct (Htr _ W) as (cl0 & m & Hc0 & H0). exists cl0, m. split; [|done]. fields. rewrite lookup_insert_ne; [done|congruence].
Qed.

Lemma inv_disconnect s c cl : inv s -> clients s !! c = Some cl -> watched_keys cl = [] -> (master = true -> who <> Some c) -> inv (set_clients s (delete c (clients s))).
Proof.
  intros [[Hl Hb] Ht] Hc Hw Hn. split; [split|].
  - apply idle_client with (c := c); [done|intros; by apply lookup_delete_ne|congruence|]. intros x. by rewrite lookup_delete_eq.
  - fields. rewrite Hb. rewrite <-(insert_delete_id _ _ _ Hc) at 1. apply busy_new; [apply lookup_delete_eq|done].
  - intros M. destruct (Ht M) as (He & Hr & Htr). split_and!; [|done|].
    + intros x cl' i k. fields. intros [_ H]%lookup_delete_Some. exact (He _ _ _ _ H).
    + intros c0 W. destruct (Htr _ W) as (cl0 & m & Hc0 & H0). exists cl0, m. split; [|done]. fields. rewrite lookup_delete_ne; [done|]. intros ->. by destruct (Hn M).
Qed.

Lemma keyIsExpired_mono (t t' : Z) (m : gmap key (object V)) k : t <= t' -> keyIsExpired t m k = true -> keyIsExpired t' m k = true.
Proof. unfold keyIsExpired. destruct (m !! k); [|done]. rewrite !andb_true_iff, !Z.gtb_lt. lia. Qed.

Lemma inv_time s t : inv s -> mstime s <= t -> inv (set_mstime s t).
Proof.
  intros [[Hl Hb] Ht] Hle. split; [split; [by apply (linked_ext s)|done]|]. intros M. destruct (Ht M) as (He & Hr & Htr). split_and!; [|done|].
  - intros c cl i k Hc Hf. destruct (He _ _ _ _ Hc Hf) as (m & ? & ?). exists m. split; [done|]. by eapply keyIsExpired_mono.
  - intros c0 W. destruct (Htr _ W) as (cl0 & m & Hc0 & Hm & H0). exists cl0, m. split_and!; try done. destruct H0 as [|(x & Hf & Hx)]; [by left|].
    right. exists x. split; [done|]. destruct x; [|done]. destruct Hx. split; [done|]. by eapply keyIsExpired_mono.
Qed.

Lemma inv_step s e : inv s -> (master = true -> master_event e = true /\ forall c, who = Some c -> leaves_watch c e = true) ->
  exists s', step effects allowed s e = Some s' /\ inv s' /\ mstime s <= mstime s'.
Proof.
  intros Hi He. destruct e as [c|c|c r|e|ms]; simpl.
  - destruct (clients s !! c) eqn:Hc; eexists; (split; [done|]); split; [done|done|by apply inv_connect|done].
  - destruct (clients s !! c) as [cl|] eqn:Hc; [|by exists s].
    assert (Hn : master = true -> who <> Some c) by (intros M W; destruct (He M) as [_ H]; specialize (H _ W); simpl in H; by rewrite Z.eqb_refl in H).
    destruct (inv_unwatch master who i0 k0 v s c cl Hi Hc) as (s1 & -> & Hi1 & F & E); [intros M W; by destruct (Hn M)|]. simpl. eexists. split; [done|].
    split; [|fields; by rewrite (proj1 (proj2 F))]. eapply inv_disconnect; [done|by rewrite E, lookup_insert_eq|done|done].
  - destruct (clients s !! c) eqn:Hc; [|by exists s]. destruct (inv_processCommand s c r Hi) as (s' & ? & ? & E); [by rewrite Hc| |exists s'; rewrite E; eauto with lia].
    intros M W. destruct (He M) as [_ H]. specialize (H _ W). simpl in H. by rewrite Z.eqb_refl in H.
  - destruct (inv_apply_effect s e Hi) as (s' & ? & ? & ((_ & E & _) & _)); [intros M; by destruct (He M)|]. exists s'. rewrite E. eauto with lia.
  - eexists. split; [done|]. split; [apply inv_time; [done|lia]|]. fields. lia.
Qed.

Lemma inv_run l s : inv s -> (master = true -> forallb master_event l = true /\ forall c, who = Some c -> forallb (leaves_watch c) l = true) ->
  exists s', run effects allowed s l = Some s' /\ inv s' /\ mstime s <= mstime s'.
Proof.
  revert s. induction l as [|e l IH]; intros s Hi Hl; simpl; [by exists s|].
  destruct (inv_step s e Hi) as (s1 & -> & Hi1 & T1).
  { intros M. destruct (Hl M) as [H1 H2]. simpl in H1. split; [by apply andb_true_iff in H1 as [? _]|].
    intros c W. specialize (H2 c W). simpl in H2. by apply andb_true_iff in H2 as [? _]. }
  simpl. destruct (IH s1 Hi1) as (s2 & -> & Hi2 & T2); [|exists s2; eauto with lia].
  intros M. destruct (Hl M) as [H1 H2]. simpl in H1. split; [by apply andb_true_iff in H1 as [_ ?]|].
  intros c W. specialize (H2 c W). simpl in H2. by apply andb_true_iff in H2 as [_ ?].
Qed.
End Steps.

(** ** The server *)

Section Server.
Context {V D : Type}.
Implicit Types (s : mserver V (command D)) (c : Z) (cl : mclient (command D)) (k : key).

Lemma init_lookup n r i d : dbs (initServer (V := V) (C := D) n r) !! i = Some d -> d = {| db_keys := ∅; db_watched := ∅ |}.
Proof. simpl. by intros [-> _]%lookup_replicate. Qed.

Lemma inv_init master i k v n r : (master = true -> r = false) -> inv master None i k v (initServer (V := V) (C := D) (S n) r).
Proof.
  intros Hr. split; [split; [constructor|done]|].
  - intros j k' c. unfold watchers. destruct (dbs _ !! j) as [d|] eqn:E; [|split; [set_solver|by intros (? & ? & _)]].
    rewrite (init_lookup _ _ _ _ E). simpl. split; [set_solver|by intros (? & ? & _)].
  - intros j d k' l E. by rewrite (init_lookup _ _ _ _ E).
  - done.
  - simpl. lia.
  - intros M. split_and!; [done|auto|done].
Qed.

(** The value of a key of database [i] as a command sees it. *)
Definition value s (i : nat) k : option (object V) := match (keys_of s) !! i with Some m => logical (mstime s) m k | None => None end.

Variable effects : D -> nat -> list (gmap key (object V)) -> list (effect V).
Variable allowed : Z -> command D -> bool.

Lemma run_app s l1 l2 : run effects allowed s (l1 ++ l2) = s1 ← run effects allowed s l1; run effects allowed s1 l2.
Proof. revert s. induction l1 as [|e l1 IH]; intros s; simpl; [done|]. destruct (step effects allowed s e); simpl; [apply IH|done]. Qed.

(** The states that the invariant of the lists holds in. *)
Lemma reachable_wf n r l s : run effects allowed (initServer (S n) r) l = Some s -> wf s.
Proof.
  intros E. destruct (inv_run false None 0 [] None effects allowed (fun M => match Bool.diff_false_true M with end) l (initServer (S n) r)) as (s' & E' & Hi & _).
  - by apply inv_init.
  - done.
  - simplify_eq. apply Hi.
Qed.

Lemma wf_inv s : wf s -> inv false None 0 [] None s.
Proof. by split. Qed.

(** ** EXEC and the values at WATCH *)

Section Isolation.
Hypothesis effects_no_swap : forall cmd i K, forallb no_swap (effects cmd i K) = true.
Variables (c : Z) (i : nat) (k : key).
Notation tracked := (inv true (Some c) i k).

Lemma tracked_run v l s s' : tracked v s -> forallb master_event l = true -> forallb (leaves_watch c) l = true -> run effects allowed s l = Some s' ->
  tracked v s' /\ mstime s <= mstime s'.
Proof.
  intros Hi H1 H2 E. destruct (inv_run true (Some c) i k v effects allowed (fun _ => effects_no_swap) l s Hi) as (s1 & E1 & ? & ?); [|by simplify_eq].
  intros _. split; [done|]. by intros ? [= <-].
Qed.

(** A client that watches a key is tracked with some value of it. *)
Lemma tracked_start s cl : inv true None i k None s -> clients s !! c = Some cl -> (i, k) ∈ wkeys cl -> exists v, tracked v s.
Proof.
  intros [Hw Ht] Hc Hin. destruct (Ht eq_refl) as (He & Hr & _). destruct (linked_lookup s c cl i k (proj1 Hw) Hc Hin) as (d & _ & Ed & _).
  destruct (flag_of_watched cl i k Hin) as (wk & _ & Hf). exists (if wk_expired wk then None else db_keys d !! k). split; [done|]. intros _.
  split_and!; [done|done|]. intros ? [= <-]. exists cl, (db_keys d). rewrite list_lookup_fmap, Ed. split_and!; try done. right. exists (wk_expired wk). split; [done|].
  destruct (wk_expired wk); [|done]. split; [done|]. destruct (He _ _ _ _ Hc Hf) as (m & Hm & ?). rewrite list_lookup_fmap, Ed in Hm. by simplify_eq/=.
Qed.

(** A state in which EXEC of the client runs its commands. *)
Definition ready s : Prop := exists cl, clients s !! c = Some cl /\ aborts s cl = false.

Lemma ready_value s v : tracked v s -> ready s -> v = value s i k.
Proof.
  intros [_ Ht] (cl & Hc & [Hx Hd]%orb_false_iff). destruct (Ht eq_refl) as (_ & _ & Htr).
  destruct (Htr c eq_refl) as (cl' & m & Hc' & Hm & H). simplify_eq. unfold value, logical. rewrite Hm.
  destruct H as [H|(x & Hf & H)]; [unfold dirty in H; by rewrite (has_submask _ _ CLIENT_DIRTY_CAS Hd) in H|].
  destruct x; [destruct H as [-> ->]; done|]. destruct (keyIsExpired (mstime s) m k) eqn:Ex; [|done]. exfalso.
  apply not_true_iff_false in Hx. apply Hx, existsb_exists. unfold flag_of in Hf.
  destruct (List.find (same_key i k) (watched_keys cl)) as [wk|] eqn:F; [|done]. apply List.find_some in F as [Hin E%same_key_iff].
  exists wk. split; [done|]. injection Hf as ->. injection E as -> ->. apply list_lookup_fmap_Some_1 in Hm as (d & -> & ->). done.
Qed.

(** Since then the key has always had the value that it has at EXEC. *)
Lemma tracked_value v l s s' : tracked v s -> forallb master_event l = true -> forallb (leaves_watch c) l = true -> run effects allowed s l = Some s' ->
  ready s' -> value s i k = value s' i k.
Proof.
  intros Hi H1 H2 E Hr. destruct (tracked_run v l s s' Hi H1 H2 E) as [Hi' T]. pose proof (ready_value _ _ Hi' Hr) as Ev.
  pose proof Hi as [Hw Ht]. destruct (Ht eq_refl) as (He & Hrep & Htr). destruct (Htr c eq_refl) as (cl & m & Hc & Hm & H).
  destruct H as [H|(x & Hf & H)].
  - apply (ready_value s' (value s i k)); [|done]. apply (tracked_run _ l s s'); [|done..]. split; [done|]. intros _. split_and!; [done|done|].
    intros ? [= <-]. exists cl, m. auto.
  - destruct x; [destruct H as [-> Hx]; unfold value at 1, logical; by rewrite Hm, Hx|].
    assert (Hs : value s i k = if keyIsExpired (mstime s) m k then None else v) by (unfold value, logical; rewrite Hm; by destruct (keyIsExpired _ _ _)).
    rewrite Hs. destruct (keyIsExpired (mstime s) m k) eqn:Ex; [|done]. exfalso. unfold keyIsExpired in Ex. rewrite <-H, Ev in Ex.
    unfold value in Ex. destruct ((keys_of s') !! i) as [m'|]; [|done]. unfold logical, keyIsExpired in Ex.
    destruct (m' !! k) as [o|] eqn:Eo; [|done]. destruct ((0 <=? o_expire o) && (mstime s' >? o_expire o)) eqn:E2; [done|].
    rewrite andb_true_iff, Z.gtb_lt in Ex. rewrite andb_false_iff, Z.gtb_ltb, Z.ltb_ge in E2. destruct Ex as [Ex1 ?], E2 as [E2|E2]; [congruence|lia].
Qed.

(** The request that watches the key. *)
Lemma watch_step s cl ks : inv true None i k None s -> clients s !! c = Some cl -> has (c_flags cl) CLIENT_MULTI = false ->
  has (c_flags cl) CLIENT_DIRTY_CAS = false -> c_db cl = i -> k ∈ ks ->
  exists s' v, step effects allowed s (Client c (WATCH ks)) = Some s' /\ tracked v s' /\ value s' i k = value s i k.
Proof.
  intros Hi Hc Hm Hd Ei Hk. simpl. rewrite Hc. unfold watchCommand. rewrite Hc. simpl. rewrite Hm, Hd.
  destruct (inv_watch_loop true None i k None ks s c cl Hi Hc) as (s' & cl' & -> & Hi' & (_ & _ & T & _) & K & Hc' & _ & _ & W). simpl.
  destruct (tracked_start (reply_to s' c Ok) cl') as [v Hv]; [by apply inv_reply|done|rewrite <-Ei; by apply W|].
  exists (reply_to s' c Ok), v. split_and!; try done. unfold value. fields. by rewrite K, T.
Qed.

(** EXEC that answers with an array. *)
Lemma exec_ready s s' n out : wf s -> step effects allowed s (Client c EXEC) = Some s' -> replies s' = replies s ++ (c, ArrayLen n) :: out -> ready s.
Proof.
  intros Hw. simpl. destruct (clients s !! c) as [cl|] eqn:Hc.
  2: { intros [= <-] E. apply (f_equal length) in E. rewrite length_app in E. simpl in E. lia. }
  intros E R. exists cl. split; [done|]. destruct (has (c_flags cl) CLIENT_MULTI) eqn:Em.
  - destruct (inv_exec false None 0 [] None effects allowed (fun M => match Bool.diff_false_true M with end) s c cl (wf_inv s Hw) Hc Em) as (s1 & cl1 & rs & E1 & _ & _ & _ & _ & _ & R1 & H); [done|].
    rewrite E in E1. injection E1 as <-. rewrite R1 in R. apply app_inv_head in R. destruct (aborts s cl); [|done]. destruct H as [-> _].
    simpl in R. injection R as R _. by destruct (has _ _) in R.
  - unfold execCommand in E. rewrite Hc in E. simpl in E. rewrite Em in E. injection E as <-. cbn in R. apply app_inv_head in R. done.
Qed.
End Isolation.
End Server.

(** A sweep leaves a client dirty or with the right mark of a key of the same value. *)
Lemma sweep_value {V D : Type} (s : mserver V (command D)) i m m' cl cl' k : sweeps s i m (Some m') all_slots cl cl' ->
  flag_of cl i k = Some (keyIsExpired (mstime s) m k) ->
  dirty cl' \/ (logical (mstime s) m' k = logical (mstime s) m k /\ flag_of cl' i k = Some (keyIsExpired (mstime s) m' k)).
Proof.
  intros (_ & _ & _ & _ & M) Hf. specialize (M k _ Hf). unfold swept, all_slots, new_mark, in_replaced, replaced_expired, in_emptied in M. unfold logical.
  rewrite andb_true_l in M. destruct (keyIsExpired (mstime s) m k) eqn:E1, (keyIsExpired (mstime s) m' k) eqn:E2; unfold keyIsExpired in E1, E2;
    destruct (m !! k), (m' !! k); try done; simpl in M; auto; try (left; apply M); by right.
Qed.

(** ** Properties *)

(** C14: Whatever clients and the server do, on a master or a replica, no step of the
    transactions fails: no assertion of the watch lists, no client or database that is
    missing. The list of a watched key holds each client that watches it once and no
    other, no empty list stays, and the count of watching clients is exact. *)
Theorem transactions_keep_lists (V D : Type) effects allowed (n : nat) (r : bool) (l : list (event V D)) :
  exists s, run effects allowed (initServer (S n) r) l = Some s /\ wf s.
Proof.
  destruct (inv_run false None 0 [] None effects allowed (fun M => match Bool.diff_false_true M with end) l (initServer (S n) r)) as (s & E & [Hw _] & _);
    [by apply inv_init|done|eauto].
Qed.

(** C15: EXEC runs the queued commands serially or none of them. When a watched key
    changed or expired or a command was refused it answers with the null array or the
    abort error, and no key and no selected database changes. Else its answer, the keys of
    all databases and the database the client selects are what the commands give on the
    keys alone, one after the other in the order of the queue and each at the same time:
    the allowed ones with all their effects, the others only with an error in their
    place. In both cases the transaction is over and nothing is watched. *)
Theorem exec_all_or_nothing (V D : Type) effects allowed (n : nat) (r : bool) (l : list (event V D)) s c cl :
  run effects allowed (initServer (S n) r) l = Some s -> clients s !! c = Some cl -> has (c_flags cl) CLIENT_MULTI = true ->
  exists s' cl' rs, execCommand effects allowed s c = Some s' /\ clients s' !! c = Some cl' /\ closed cl' /\ replies s' = replies s ++ (pair c <$> rs) /\
    if aborts s cl then rs = [if has (c_flags cl) CLIENT_DIRTY_EXEC then ExecAbort else NullArray] /\ keys_of s' = keys_of s /\ c_db cl' = c_db cl
    else exists out, rs = ArrayLen (zlen (ms_commands (mstate cl))) :: out /\ length out = length (ms_commands (mstate cl)) /\
      kserial (mstime s) (replica s) effects (allowed c) (keys_of s, c_db cl) (ms_commands (mstate cl)) = ((keys_of s', c_db cl'), out).
Proof.
  intros E Hc Hm. apply reachable_wf in E.
  destruct (inv_exec false None 0 [] None effects allowed (fun M => match Bool.diff_false_true M with end) s c cl (wf_inv s E) Hc Hm) as (s' & cl' & rs & H1 & _ & H2 & H3 & _ & _ & H4 & H5); [done|].
  exists s', cl', rs. split_and!; try done. destruct (aborts s cl); [done|]. destruct H5 as (out & H5 & Ek). exists out. split_and!; try done.
  apply (f_equal (fun x => length x.2)) in Ek. by rewrite kserial_length in Ek.
Qed.

(** C5: On a master whose databases are not swapped, EXEC is a compare-and-swap on the
    watched keys: when it runs the queued commands, every key given to WATCH has had the
    same value, absent when expired, in every state from before WATCH to EXEC. *)
Theorem exec_isolated (V D : Type) effects allowed (n : nat) (pre mid : list (event V D)) s1 s3 s4 c cl ks k len out :
  (forall cmd i K, forallb no_swap (effects cmd i K) = true) -> forallb master_event (pre ++ mid) = true ->
  run effects allowed (initServer (S n) false) pre = Some s1 ->
  clients s1 !! c = Some cl -> has (c_flags cl) CLIENT_MULTI = false -> has (c_flags cl) CLIENT_DIRTY_CAS = false -> k ∈ ks ->
  forallb (leaves_watch c) mid = true -> run effects allowed s1 (Client c (WATCH ks) :: mid) = Some s3 ->
  step effects allowed s3 (Client c EXEC) = Some s4 -> replies s4 = replies s3 ++ (c, ArrayLen len) :: out ->
  forall m1 m2 s2, mid = m1 ++ m2 -> run effects allowed s1 (Client c (WATCH ks) :: m1) = Some s2 -> value s2 (c_db cl) k = value s1 (c_db cl) k.
Proof.
  intros Hns Hm Epre Hc Hf Hd Hk Hl E3 E4 Er m1 m2 s2 -> E2. 
  rewrite !forallb_app, !andb_true_iff in Hm. rewrite forallb_app, andb_true_iff in Hl. destruct Hm as (Mp & M1 & M2), Hl as [L1 L2].
  destruct (inv_run true None (c_db cl) k None effects allowed (fun _ => Hns) pre (initServer (S n) false)) as (s1' & E1 & Hi1 & _); [by apply inv_init|done|]. simplify_eq.
  destruct (watch_step effects allowed c (c_db cl) k s1 cl ks Hi1 Hc Hf Hd eq_refl Hk) as (sw & v & Ew & Hv & <-).
  cbn [run] in E2, E3. rewrite Ew in E2, E3. cbn [mbind option_bind] in E2, E3. rewrite run_app, E2 in E3. simpl in E3.
  destruct (tracked_run effects allowed Hns c (c_db cl) k v m1 sw s2 Hv M1 L1 E2) as [Hv2 _].
  destruct (tracked_run effects allowed Hns c (c_db cl) k v m2 s2 s3 Hv2 M2 L2 E3) as [[Hw3 _] _]. pose proof (exec_ready effects allowed c _ _ _ _ Hw3 E4 Er) as Hr.
  rewrite (tracked_value effects allowed Hns c (c_db cl) k v m2 s2 s3 Hv2 M2 L2 E3 Hr). symmetry.
  apply (tracked_value effects allowed Hns c (c_db cl) k v (m1 ++ m2) sw s3 Hv); [by rewrite forallb_app, M1|by rewrite forallb_app, L1|by rewrite run_app, E2|done].
Qed.

(** C29: SWAPDB marks the clients whose watched keys it changes: a client whose mark of a
    key of any database was right is dirty afterwards, or the key has the same value as
    before and the mark is right for the key that came in its place. *)
Theorem swap_marks_changes (V D : Type) effects allowed (n : nat) (r : bool) (l : list (event V D)) s c cl i m k id1 id2 :
  run effects allowed (initServer (S n) r) l = Some s -> clients s !! c = Some cl -> keys_of s !! i = Some m ->
  flag_of cl i k = Some (keyIsExpired (mstime s) m k) ->
  exists s' cl' m', dbSwapDatabases s id1 id2 = Some s' /\ clients s' !! c = Some cl' /\ keys_of s' !! i = Some m' /\ mstime s' = mstime s /\
    (dirty cl' \/ (logical (mstime s) m' k = logical (mstime s) m k /\ flag_of cl' i k = Some (keyIsExpired (mstime s) m' k))).
Proof.
  intros E Hc Hm Hf. apply reachable_wf in E. destruct (decide (is_Some (dbs s !! id1) /\ is_Some (dbs s !! id2) /\ id1 <> id2)) as [([d1 E1] & [d2 E2] & Hne)|Hno].
  - assert (K1 : keys_of s !! id1 = Some (db_keys d1)) by (by rewrite list_lookup_fmap, E1).
    assert (K2 : keys_of s !! id2 = Some (db_keys d2)) by (by rewrite list_lookup_fmap, E2).
    destruct (swap_spec s id1 id2 _ _ E K1 K2 Hne) as (s' & Es & _ & (EK & Et & _) & T). destruct (proj1 T _ _ Hc) as (cl' & Hc' & cl1 & S1 & S2).
    exists s', cl'. pose proof (lookup_lt_Some _ _ _ K1) as Hl1. pose proof (lookup_lt_Some _ _ _ K2) as Hl2.
    pose proof S1 as (_ & _ & _ & O1 & _). pose proof S2 as (_ & _ & D2 & O2 & _).
    destruct (decide (i = id2)) as [->|H2]; [|destruct (decide (i = id1)) as [->|H1]].
    + exists (db_keys d1). rewrite EK, list_lookup_insert_eq by (by rewrite length_insert). simplify_eq. split_and!; try done.
      apply (sweep_value s id2 _ _ cl1); [done|]. by rewrite O1.
    + exists (db_keys d2). rewrite EK, list_lookup_insert_ne, list_lookup_insert_eq by done. simplify_eq. split_and!; try done.
      destruct (sweep_value s id1 _ _ cl cl1 k S1 Hf) as [?|[? ?]]; [auto|]. right. by rewrite O2.
    + exists m. rewrite EK, !list_lookup_insert_ne by done. split_and!; try done. right. by rewrite O2, O1.
  - exists s, cl, m. split_and!; try done; [|by right]. unfold dbSwapDatabases. destruct (dbs s !! id1), (dbs s !! id2); try done.
    destruct (id1 =? id2)%nat eqn:Eq; [done|]. apply Nat.eqb_neq in Eq. destruct Hno. split_and!; eauto.
Qed.

(** A write to a key that the first client of its list watches as an expired one marks no
    client at all. *)
Lemma hidden_write_marks_none {V C : Type} (s : mserver V C) i d k o c l cl :
  dbs s !! i = Some d -> db_watched d !! k = Some (c :: l) -> clients s !! c = Some cl -> flag_of cl i k = Some true ->
  change_key s i k (Some o) = Some (set_keys s i (<[k := o]> (db_keys d))).
Proof.
  intros Ed El Hc Hf. unfold change_key. rewrite Ed. simpl. set (s1 := set_keys s i _).
  assert (Es : dbs s1 !! i = Some (set_keys_of d (<[k := o]> (db_keys d)))).
  { unfold s1, set_keys. rewrite Ed. fields. apply list_lookup_insert_eq. by eapply lookup_lt_Some. }
  unfold touchWatchedKey. rewrite Es. cbn. rewrite El. cbn. unfold s1. rewrite clients_set_keys, Hc. fold s1. cbn.
  unfold flag_of in Hf. destruct (List.find _ _) as [wk|]; [|done]. cbn in *. injection Hf as ->. rewrite Es. cbn. by rewrite lookup_insert_eq.
Qed.

(** A sweep of a database touches no list and no client that watches nothing. *)
Definition idle_kept {V C : Type} (s s' : mserver V C) : Prop :=
  forall c cl, clients s !! c = Some cl -> watched_keys cl = [] -> clients s' !! c = Some cl.

Lemma touch_all_clients_idle {V C : Type} cs (s s' : mserver V C) i k b r : touch_all_clients s i k b r cs = Some s' -> dbs s' = dbs s /\ idle_kept s s'.
Proof.
  revert s. induction cs as [|c cs IH]; intros s; [intros [= <-]; split; [done|by intros ?]|]. cbn [touch_all_clients].
  destruct (clients s !! c) as [cl|] eqn:Hc; [|done]. cbn [mbind option_bind]. destruct (List.find _ (watched_keys cl)) eqn:Hf; [|done]. cbn [mbind option_bind].
  intros [-> H]%IH. split; [done|]. intros c2 cl2 H2 W2. apply H; [|done]. fields. rewrite lookup_insert_ne; [done|]. intros ->. simplify_eq. by rewrite W2 in Hf.
Qed.

Lemma touchAll_idle {V C : Type} (s s' : mserver V C) i r sl : touchAllWatchedKeysInDb s i r sl = Some s' -> dbs s' = dbs s /\ idle_kept s s'.
Proof.
  unfold touchAllWatchedKeysInDb. destruct (dbs s !! i) as [d|]; [|done]. cbn [mbind option_bind]. generalize (db_keys d) (map_to_list (db_watched d)). intros m l.
  revert s. induction l as [|[k cs] l IH]; intros s; [intros [= <-]; split; [done|by intros ?]|]. cbn [touch_all_loop].
  destruct (if negb (sl k) then _ else _) as [s1|] eqn:E; [|done]. cbn [mbind option_bind]. intros [-> H]%IH.
  assert (E1 : dbs s1 = dbs s /\ idle_kept s s1).
  { assert (H0 : idle_kept s s) by (by intros ?). destruct (negb (sl k)); [by injection E as <-|]. destruct (_ || _); [|by injection E as <-]. by apply touch_all_clients_idle in E. }
  destruct E1 as [-> H1]. split; [done|]. intros c cl Hc W. apply H; [by apply H1|done].
Qed.

Lemma set_keys_lists {V C : Type} (s : mserver V C) i m j : db_watched <$> dbs (set_keys s i m) !! j = db_watched <$> dbs s !! j.
Proof.
  unfold set_keys. destruct (dbs s !! i) as [d|] eqn:E; [|done]. fields. destruct (decide (i = j)) as [<-|Hne]; [|by rewrite list_lookup_insert_ne].
  rewrite list_lookup_insert_eq by (by eapply lookup_lt_Some). by rewrite E.
Qed.

Lemma swap_lists {V C : Type} (s s' : mserver V C) id1 id2 : dbSwapDatabases s id1 id2 = Some s' ->
  (forall i, db_watched <$> dbs s' !! i = db_watched <$> dbs s !! i) /\ idle_kept s s'.
Proof.
  assert (H0 : idle_kept s s) by (by intros ?). unfold dbSwapDatabases. destruct (dbs s !! id1) as [d1|]; [|by intros [= <-]]. destruct (dbs s !! id2) as [d2|]; [|by intros [= <-]].
  destruct (id1 =? id2)%nat; [by intros [= <-]|]. destruct (touchAllWatchedKeysInDb s _ _ _) as [s1|] eqn:E1; [|done]. cbn [mbind option_bind].
  destruct (touchAllWatchedKeysInDb s1 _ _ _) as [s2|] eqn:E2; [|done]. cbn [mbind option_bind]. intros [= <-].
  apply touchAll_idle in E1 as [E1 H1], E2 as [E2 H2]. split; [intros i; by rewrite !set_keys_lists, E2, E1|].
  intros c cl Hc W. rewrite !clients_set_keys. apply H2; [by apply H1|done].
Qed.

(** A swap leaves a client that watches nothing, and the first client of a list stays in
    front with the mark of an expired key when a live key comes in its place. *)
Lemma swap_keeps_expired {V D : Type} (s : mserver V (command D)) id1 id2 d1 m2 k c l cl o :
  wf s -> id1 <> id2 -> dbs s !! id1 = Some d1 -> keys_of s !! id2 = Some m2 -> db_watched d1 !! k = Some (c :: l) ->
  clients s !! c = Some cl -> flag_of cl id1 k = Some true -> logical (mstime s) m2 k = Some o ->
  exists s' d' cl', dbSwapDatabases s id1 id2 = Some s' /\ wf s' /\ mstime s' = mstime s /\ dbs s' !! id1 = Some d' /\ db_keys d' = m2 /\
    db_watched d' !! k = Some (c :: l) /\ clients s' !! c = Some cl' /\ flag_of cl' id1 k = Some true /\
    forall c2 cl2, clients s !! c2 = Some cl2 -> watched_keys cl2 = [] -> clients s' !! c2 = Some cl2.
Proof.
  intros Hw Hne E1 K2 El Hc Hf Hlog. pose proof K2 as (d2 & -> & E2)%list_lookup_fmap_Some_1.
  assert (K1 : keys_of s !! id1 = Some (db_keys d1)) by (by rewrite list_lookup_fmap, E1).
  destruct (swap_spec s id1 id2 _ _ Hw K1 K2 Hne) as (s' & Es & Hw' & (EK & Et & _) & T). destruct (proj1 T _ _ Hc) as (cl' & Hc' & cl1 & S1 & S2).
  destruct (swap_lists s s' id1 id2 Es) as [Hd Hidle]. specialize (Hd id1).
  assert (Hk : keys_of s' !! id1 = Some (db_keys d2)).
  { rewrite EK, list_lookup_insert_ne by done. apply list_lookup_insert_eq. by eapply lookup_lt_Some. }
  apply list_lookup_fmap_Some_1 in Hk as (d' & Ek & Ed'). rewrite E1, Ed' in Hd. simpl in Hd. injection Hd as Hd.
  exists s', d', cl'. split_and!; try done; [by rewrite Hd|].
  destruct S2 as (_ & _ & _ & O2 & _). rewrite O2 by done. destruct S1 as (_ & _ & _ & _ & M1). specialize (M1 k true Hf).
  unfold logical in Hlog. destruct (keyIsExpired (mstime s) (db_keys d2) k) eqn:Ex; [done|].
  unfold swept, all_slots, new_mark, in_replaced, replaced_expired in M1. rewrite Hlog, Ex, orb_true_r in M1. simpl in M1. apply M1.
Qed.

(** C36: After a SWAPDB a write can go unnoticed. Whenever the first client of the list of
    a key watches it as an expired one, and SWAPDB replaces it by a live key of another
    database, a client that watches the key only then is not marked by the next write to
    it: it still watches the key, the key has another value than at WATCH, and EXEC of the
    client would not abort. The first client stays in the list with the mark of an expired
    key, and the loop that marks the clients stops there. *)
Theorem swapped_key_hides_write (V D : Type) effects allowed (n : nat) (r : bool) (l : list (event V D)) s id1 id2 d1 m2 k c rest cl c2 cl2 o2 o :
  run effects allowed (initServer (S n) r) l = Some s -> id1 <> id2 -> dbs s !! id1 = Some d1 -> keys_of s !! id2 = Some m2 ->
  db_watched d1 !! k = Some (c :: rest) -> clients s !! c = Some cl -> flag_of cl id1 k = Some true -> logical (mstime s) m2 k = Some o2 ->
  clients s !! c2 = Some cl2 -> c_db cl2 = id1 -> watched_keys cl2 = [] ->
  has (c_flags cl2) (Z.lor CLIENT_MULTI (Z.lor CLIENT_DIRTY_CAS CLIENT_DIRTY_EXEC)) = false -> (0 <=? o_expire o) && (mstime s >? o_expire o) = false ->
  exists s1 s2 s3 cl3, apply_effect s (Swap id1 id2) = Some s1 /\ watchCommand s1 c2 [k] = Some s2 /\ apply_effect s2 (Assign id1 k (Some o)) = Some s3 /\
    value s1 id1 k = Some o2 /\ value s3 id1 k = Some o /\ clients s3 = clients s2 /\
    clients s3 !! c2 = Some cl3 /\ (id1, k) ∈ wkeys cl3 /\ aborts s3 cl3 = false.
Proof.
  intros E Hne E1 K2 El Hc Hf Hlog Hc2 Ei W2 Hfl Ho. apply reachable_wf in E.
  destruct (swap_keeps_expired s id1 id2 d1 m2 k c rest cl o2 E Hne E1 K2 El Hc Hf Hlog) as (s1 & d & cl' & Es & Hw1 & Et & Ed & Ek & El' & Hc' & Hf' & Hid).
  specialize (Hid c2 cl2 Hc2 W2). assert (Hcc : c2 <> c) by (intros ->; simplify_eq; unfold flag_of in Hf; by rewrite W2 in Hf).
  unfold logical in Hlog. destruct (keyIsExpired (mstime s) m2 k) eqn:Ex; [done|].
  set (s2 := reply_to (added (set_watching s1 (watching_clients s1 + 1)) c2 cl2 k d) c2 Ok).
  assert (Ew : watchCommand s1 c2 [k] = Some s2).
  { unfold watchCommand. rewrite Hid. simpl. rewrite (has_submask _ _ CLIENT_MULTI Hfl), (has_submask _ _ CLIENT_DIRTY_CAS Hfl) by done.
    unfold watchForKey. rewrite Hid. simpl. rewrite W2, bool_decide_eq_true_2 by done. simpl. rewrite Ei, Ed. simpl. unfold s2, added. rewrite W2, Ei. done. }
  assert (Hd2 : exists d2, dbs s2 !! id1 = Some d2 /\ db_keys d2 = m2 /\ db_watched d2 !! k = Some (c :: rest ++ [c2])).
  { eexists. unfold s2, added. fields. rewrite Ei, list_lookup_insert_eq by (by eapply lookup_lt_Some). split; [done|]. cbn.
    by rewrite lookup_insert_eq, El'. }
  destruct Hd2 as (d2 & Ed2 & Ek2 & El2). set (wk := {| wk_db := id1; wk_key := k; wk_expired := false |}).
  assert (H2 : clients s2 !! c2 = Some (set_watched cl2 [wk]) /\ clients s2 !! c = Some cl' /\ mstime s2 = mstime s).
  { unfold s2, added. fields. rewrite lookup_insert_eq, lookup_insert_ne by done. rewrite W2, Ei, Ek, Et, Ex. done. }
  destruct H2 as (Hc3 & Hc2' & Et2). clearbody s2. exists s1, s2, (set_keys s2 id1 (<[k := o]> m2)), (set_watched cl2 [wk]).
  assert (K3 : keys_of (set_keys s2 id1 (<[k := o]> m2)) !! id1 = Some (<[k := o]> m2)).
  { rewrite (proj1 (kframe_set_keys _ _ _)), list_lookup_insert_eq; [done|]. rewrite length_fmap. by eapply lookup_lt_Some. }
  assert (Hx : keyIsExpired (mstime s) (<[k := o]> m2) k = false) by (unfold keyIsExpired; by rewrite lookup_insert_eq).
  assert (Et3 : mstime (set_keys s2 id1 (<[k := o]> m2)) = mstime s) by (by rewrite (proj1 (proj2 (kframe_set_keys _ _ _)))).
  split_and!; [exact Es|exact Ew| | | |apply clients_set_keys|by rewrite clients_set_keys|by left|].
  - simpl. rewrite (proj2 (Nat.ltb_lt _ _)) by (by eapply lookup_lt_Some). unfold expireIfNeeded. rewrite Ed2. simpl. rewrite Et2, Ek2, Ex. simpl.
    unfold write_key. rewrite Ed2. simpl. rewrite (hidden_write_marks_none s2 id1 d2 k o c (rest ++ [c2]) cl') by done. by rewrite Ek2.
  - unfold value, logical. by rewrite list_lookup_fmap, Ed, Et; simpl; rewrite Ek, Ex.
  - unfold value, logical. by rewrite K3, Et3, Hx, lookup_insert_eq.
  - unfold aborts, isWatchedKeyExpired. apply list_lookup_fmap_Some_1 in K3 as (d3 & Ed3 & E3). cbn. rewrite E3, Et3, <-Ed3, Hx. simpl.
    by apply (has_submask _ _ (Z.lor CLIENT_DIRTY_CAS CLIENT_DIRTY_EXEC) Hfl).
Qed.

(** The array of the queue has room for the command that is added. *)
Lemma queue_fits {C : Type} (cl : mclient C) cmd f : let count cl := zlen (ms_commands (mstate cl)) in let alloc cl := ms_alloc_count (mstate cl) in
  count cl = 0 \/ count cl <= alloc cl <= INT_MAX -> count cl < INT_MAX ->
  queueMultiCommand cl cmd f = cl \/ (count (queueMultiCommand cl cmd f) = count cl + 1 /\ count cl + 1 <= alloc (queueMultiCommand cl cmd f) <= INT_MAX).
Proof.
  cbv zeta beta. intros H Hlt. unfold queueMultiCommand. destruct (has _ _); [by left|]. right. cbn. rewrite zlen_app. split; [done|].
  pose proof (zlen_nonneg (ms_commands (mstate cl))). assert (E : INT_MAX = 2147483647) by done. assert (E2 : INT_MAX / 2 = 1073741823) by done.
  rewrite E2. destruct (Z.eqb_spec (zlen (ms_commands (mstate cl))) 0) as [E0|E0]; [rewrite E0; cbn; lia|].
  destruct (Z.eqb_spec (zlen (ms_commands (mstate cl))) (ms_alloc_count (mstate cl))); [|lia]. destruct (Z.ltb_spec (ms_alloc_count (mstate cl)) 1073741823); lia.
Qed.

(** ** A server with two databases *)

Definition k1 : key := [107].

(** The commands are single changes of keys. *)
Definition single {V : Type} (e : effect V) (i : nat) (K : list (gmap key (object V))) : list (effect V) := [e].
Definition put {V : Type} (i : nat) (x : V) (t : Z) : request (effect V) := Run (Other (Assign i k1 (Some {| o_value := x; o_expire := t |}))) 0.

(** Client 1 watches a key that has expired but is still there, and SWAPDB replaces it by
    one that has not. *)
Definition expired_watch {V : Type} (x y : V) : list (event V (effect V)) :=
  [Connect 1; Connect 2; Connect 3; Client 3 (put 0 x 5); Client 3 (put 1 y (-1)); Tick 10; Client 1 (WATCH [k1])].
Definition swapped {V : Type} (x y : V) : list (event V (effect V)) := expired_watch x y ++ [Client 3 (Run (Other (Swap 0 1)) 0)].

(** Client 2 writes another key than the one client 1 watches. *)
Definition put_at {V : Type} (w : key * V) (i : nat) (K : list (gmap key (object V))) : list (effect V) := [Assign i w.1 (Some {| o_value := w.2; o_expire := -1 |})].
Definition before : list (event Z (key * Z)) := [Connect 1; Connect 2; Client 2 (Run (Other (k1, 7)) 0)].
Definition between : list (event Z (key * Z)) := [Client 1 MULTI; Client 1 (Run (Other (k1, 8)) 0); Client 2 (Run (Other ([108], 9)) 0)].

Lemma exec_isolated_witness : exists s1 s3,
  run put_at (fun _ _ => true) (initServer 2 false) before = Some s1 /\ run put_at (fun _ _ => true) s1 (Client 1 (WATCH [k1]) :: between) = Some s3 /\
  value s1 0 k1 = Some {| o_value := 7; o_expire := -1 |} /\ value s3 0 k1 = value s1 0 k1.
Proof.
  eexists _, _. split; [vm_compute; reflexivity|]. split; [vm_compute; reflexivity|]. split; [vm_compute; reflexivity|].
  eapply (exec_isolated Z (key * Z) put_at (fun _ _ => true) 1 before between) with (c := 1) (cl := new_client) (ks := [k1]) (m1 := between) (m2 := []).
  - reflexivity.
  - reflexivity.
  - vm_compute. reflexivity.
  - vm_compute. reflexivity.
  - reflexivity.
  - reflexivity.
  - left.
  - reflexivity.
  - vm_compute. reflexivity.
  - vm_compute. reflexivity.
  - vm_compute. reflexivity.
  - reflexivity.
  - vm_compute. reflexivity.
Defined.

(** Client 1 may not write the second key. *)
Definition first_only (c : Z) (cmd : command (key * Z)) : bool := match cmd with Other (k, _) => bool_decide (k = k1) | UNWATCH => true end.
Definition two_puts : list (event Z (key * Z)) :=
  [Client 1 (WATCH [k1]); Client 1 MULTI; Client 1 (Run (Other (k1, 8)) 0); Client 1 (Run (Other ([108], 9)) 0); Client 1 (Run UNWATCH 0)].

Lemma exec_all_or_nothing_witness : exists s s' cl',
  run put_at first_only (initServer 2 false) (before ++ two_puts) = Some s /\ execCommand put_at first_only s 1 = Some s' /\
  clients s' !! 1 = Some cl' /\ closed cl' /\ replies s' = replies s ++ (pair 1 <$> [ArrayLen 3; Output; NoPerm; Ok]) /\
  keys_of s' = [<[k1 := {| o_value := 8; o_expire := -1 |}]> ∅; ∅].
Proof.
  eexists _. edestruct (exec_all_or_nothing Z (key * Z) put_at first_only 1 false (before ++ two_puts)) with (c := 1) as (s' & cl' & rs & E & Hc & Hcl & R & H).
  - vm_compute. reflexivity.
  - vm_compute. reflexivity.
  - reflexivity.
  - exists s', cl'. split; [vm_compute; reflexivity|]. split; [exact E|]. split; [exact Hc|]. split; [exact Hcl|].
    match type of H with if ?b then _ else _ => replace b with false in H by (vm_compute; reflexivity) end. destruct H as (out & Hr & _ & Ek).
    match type of Ek with ?x = _ => let y := eval vm_compute in x in change x with y in Ek end. injection Ek as EK _ Eo.
    split; [|rewrite <-EK; reflexivity]. rewrite R, Hr, <-Eo. reflexivity.
Defined.

Lemma swap_marks_changes_witness : exists s cl s' cl' m',
  run single (fun _ _ => true) (initServer 2 false) (swapped 1 2 ++ [Client 2 (WATCH [k1])]) = Some s /\ clients s !! 2 = Some cl /\
  dbSwapDatabases s 0 1 = Some s' /\ clients s' !! 2 = Some cl' /\ keys_of s' !! 0%nat = Some m' /\
  (dirty cl' \/ (logical (mstime s) m' k1 = Some {| o_value := 2; o_expire := -1 |} /\ flag_of cl' 0 k1 = Some (keyIsExpired (mstime s) m' k1))).
Proof.
  eexists _, _. edestruct (swap_marks_changes Z (effect Z) single (fun _ _ => true) 1 false (swapped 1 2 ++ [Client 2 (WATCH [k1])])) with (c := 2) (i := 0%nat) (k := k1) (id1 := 0%nat) (id2 := 1%nat)
    as (s' & cl' & m' & E & Hc & Hm & _ & H).
  - vm_compute. reflexivity.
  - vm_compute. reflexivity.
  - vm_compute. reflexivity.
  - vm_compute. reflexivity.
  - exists s', cl', m'. split; [vm_compute; reflexivity|]. split; [vm_compute; reflexivity|]. split; [exact E|]. split; [exact Hc|]. split; [exact Hm|]. exact H.
Defined.

Lemma swapped_key_hides_write_witness : exists s s1 s2 s3 cl3,
  run single (fun _ _ => true) (initServer 2 false) (expired_watch 1 2) = Some s /\ apply_effect s (Swap 0 1) = Some s1 /\ watchCommand s1 2 [k1] = Some s2 /\
  apply_effect s2 (Assign 0 k1 (Some {| o_value := 3; o_expire := -1 |})) = Some s3 /\ value s1 0 k1 = Some {| o_value := 2; o_expire := -1 |} /\
  value s3 0 k1 = Some {| o_value := 3; o_expire := -1 |} /\ clients s3 = clients s2 /\ clients s3 !! 2 = Some cl3 /\ aborts s3 cl3 = false.
Proof.
  eexists _. edestruct (swapped_key_hides_write Z (effect Z) single (fun _ _ => true) 1 false (expired_watch 1 2)) with
    (id1 := 0%nat) (id2 := 1%nat) (k := k1) (c := 1) (rest := @nil Z) (c2 := 2) (o := {| o_value := 3; o_expire := -1 |}) (o2 := {| o_value := 2; o_expire := -1 |})
    as (s1 & s2 & s3 & cl3 & H1 & H2 & H3 & H4 & H5 & H6 & H7 & _ & H8).
  - vm_compute. reflexivity.
  - done.
  - vm_compute. reflexivity.
  - vm_compute. reflexivity.
  - vm_compute. reflexivity.
  - vm_compute. reflexivity.
  - vm_compute. reflexivity.
  - vm_compute. reflexivity.
  - vm_compute. reflexivity.
  - reflexivity.
  - reflexivity.
  - reflexivity.
  - reflexivity.
  - exists s1, s2, s3, cl3. split; [vm_compute; reflexivity|]. repeat (split; [assumption|]). exact H8.
Defined.
